(* ===== verification/_CoqProject ===== *)
-Q . S2P
Prelude.v
GoStrings.v
GoStringsFacts.v
GoJson.v
GoFloat.v
GoNet.v
GoRegexp.v
StringUtil.v
ShellSpec.v
Effects.v
Db.v
DbHttp.v
AuditLog.v
DbApplications.v
DbServers.v
DbInventory.v
DbProjects.v
RemoteSteps.v
EnvFile.v
ProxyCommands.v
Runner.v
Queue.v
LogBus.v
GoJsonFacts.v
LogBusFacts.v
PlanFacts.v
RunnerFacts.v
SwitchFacts.v
Lifecycle.v
Engine.v
QueueFacts.v
GoCrypto.v
GoHttp.v
GithubConnector.v
GithubApp.v
GithubAppFacts.v
Connectors.v
HttpCore.v
HttpGuard.v
HttpDeployments.v
HttpRedeploy.v
HttpApplications.v
HttpBuilds.v
HttpVariables.v
HttpServers.v
HttpCredentials.v
HttpConnectors.v
HttpGuardFacts.v
HttpConnectorsFacts.v
HttpCredentialsFacts.v
HttpDevUsers.v
HttpProxy.v
HttpGithub.v
HttpProjects.v
ComposeFile.v
HttpRepositories.v
ShellSafety.v
HttpDeploymentsFacts.v
HttpApplicationsFacts.v
HttpEngine.v
HttpVariablesFacts.v
HttpGithubFacts.v
HttpBuildsFacts.v
HttpVariablesStore.v
HttpRepositoriesFacts.v
HttpProxyFacts.v
HttpLogs.v
HttpLogsFacts.v
EngineDemo.v
HttpDemo.v
HttpGithubDemo.v
HttpDevUsersFacts.v
HttpCredentialsStore.v
HttpServersDemo.v
Migrations.v
Notifications.v
SshUtil.v
HttpChecks.v
HttpRoutes.v
Startup.v
