(* ===== verification/Prelude.v ===== *)
(** * Deploy Manager: a verification development

    Deploy Manager is a Go server that deploys applications to hosts over SSH.  A request
    (or a push reported by GitHub) creates a row in PostgreSQL and an element of a Redis
    list; a worker takes the element, runs a plan of shell commands on the host, switches
    the traffic, and records the end.  Around this core are the HTTP API, the
    configuration of proxies, runtime variables, connectors to other services, and the
    start and end of the process.  This library models the Go code of src/cmd and
    src/internal and proves what makes it correct.

    ** How the code is modelled

    - A Go string is a list of bytes ([str], below); runes are decoded where the code
      looks at runes.  Integers are [Z] with the wrap-around written out where it can
      happen; a float64 is an IEEE 754 number of the Standard Library.  Errors are values
      of [goerror] in a sum ([result]).
    - Code that calls the database, a host, Redis, GitHub or the response writer is a
      program [prog E] over the calls of its interfaces (Effects).  [runs] relates it to
      its traces whatever the environment answers, so the theorems on [runs] hold for
      every failure and lost connection; [exec] runs it against a handler.
    - A statement of src/internal/db/core.sql.go is a function on tables as lists of rows
      with the constraints of src/internal/migrations/sql (Db, DbHttp, DbApplications,
      DbServers, DbInventory, DbProjects).
    - Several actors on shared state are step relations: the deployments table
      (Lifecycle), the log bus (LogBus), the instances that migrate one database
      (Migrations).

    ** The files

    The Go libraries the program uses: GoStrings and GoStringsFacts (strings, unicode,
    path, fmt), GoJson, GoFloat and GoJsonFacts (encoding/json, strconv), GoNet
    (net/netip, net/url), GoRegexp (regexp), GoCrypto (base64, SHA-256, HMAC), GoHttp
    (requests, bodies, addresses).

    The deployment engine: StringUtil (internal/stringutil, internal/connectors),
    RemoteSteps (deployments/remote_steps.go), ProxyCommands (proxy/commands.go), Runner
    (deployments/runner.go), Queue (queue.go), LogBus (logbus.go), with the theorems in
    EnvFile, PlanFacts, ShellSpec, ShellSafety, RunnerFacts, SwitchFacts, Lifecycle,
    Engine, QueueFacts and LogBusFacts.

    The HTTP API (internal/httpapi), one file for each group of handlers: HttpCore
    (responses, identifiers, audit), AuditLog (internal/auditlog), HttpGuard (sessions,
    limits, replays), HttpDeployments, HttpRedeploy, HttpApplications, HttpBuilds,
    HttpVariables, HttpServers, HttpDevUsers, HttpCredentials, HttpConnectors, HttpProxy
    (with proxy/manager.go), HttpProjects, HttpGithub, ComposeFile, HttpRepositories,
    HttpLogs, HttpChecks (with internal/dockerx), and HttpRoutes, which puts them
    behind the routes and middlewares of server.go.  HttpEngine answers their calls with
    the tables, the queue and the host; a file of this group that ends in Facts or Store holds the theorems.

    Other services and the process: GithubConnector and GithubApp (internal/githubhook,
    internal/githubconnector), Connectors (internal/doppler, objectstorage,
    notificationconnector), Notifications (internal/notifications), SshUtil
    (internal/sshutil), Migrations (internal/migrations), Startup (internal/config and
    cmd/server/main.go).

    EngineDemo, HttpDemo, HttpGithubDemo and HttpServersDemo evaluate the programs on
    concrete databases and hosts, and apply the theorems there; smaller files end with
    their own.

    ** What is proved

    - One deployment: every run takes the row once and ends it once, moves no traffic
      before the health check, restores the routes when a switch fails, and brings the row to an end
      (RunnerFacts, SwitchFacts, Engine).
    - All deployments: along every interleaving of workers, requests, cancellations and
      restarts the table keeps its invariant and a deployment is taken at most once; what
      was in progress at a restart, or was asked for by a request, reaches its end
      (Lifecycle, QueueFacts, HttpEngine).
    - What reaches a host: the environment file reads back, names stay in their
      alphabets, arguments are single words, files stay in the remote directory, and input
      stays off the command line (EnvFile, ShellSafety, PlanFacts, SshUtil).
    - The API: what is accepted can be deployed, stored and shown without secrets;
      transactions are all or nothing and refine operations on sets; a stream sends every
      line once; what is protected needs the token, also when served through the
      routes; static files stay in their directory.
    - GitHub: pushes must be signed and are deployed once, builds name their commit,
      imports are all or nothing, a listing ends with its pages, tokens are limited to one
      repository.
    - The process: migrations are applied once and in order by any number of instances;
      the server starts and ends in order; notifications are independent of each other;
      the record of a check of a server is always storable.

    ** Bounds and fuel

    - [parse_fuel] of GoJson is twice the length of the text and one; GoJsonFacts proves
      that it is never used up ([parse_enough]).  An IPv6 literal has eight groups; percent
      decoding and SHA-256 take the length of their input, which every turn shortens.
    - [shortest] of GoFloat tries 1 to 17 digits, which always suffice for a float64, and
      [strip_zeros] removes at most 18 of them.
    - [rel_loop] of HttpRoutes takes the length of the base and one; its lemma needs no
      more.
    - The page loop of GithubApp is given fuel and says when it stops early; as much fuel
      as pages is enough, which is part of the theorem.
    - Loops that do not end by themselves are their first [n] turns: the worker
      ([Queue.work]), the log stream and the terminal.  The theorems hold for every [n]; the
      ones that promise an end say how many turns it takes.

    ** What is not modelled

    - Third-party code and the system behind it are parameters or calls: chi's matching of
      patterns, UUIDs, YAML and PEM, mail addresses, name resolution, the Unicode tables,
      pgtype's JSON forms, SSH sessions and host keys, web sockets, the Docker daemon.
      What is assumed of one of them is a named hypothesis or the law of a class, and is
      met by a concrete instance in a demo file.
    - Time limits and contexts that end by themselves: a call that is cut off answers with an error.
    - The process log, middlewares of chi for request identifiers, panics and compression,
      and the copying of terminal output to a web socket.
    - internal/db/db.go and querier.go: generated declarations without behaviour. *)

From stdpp Require Export base tactics option list sorting gmap strings pretty.
From Stdlib Require Export Ascii ZArith Lia.

(** ** Go strings

    A Go string is a sequence of bytes.  It is modelled as a list of [ascii]
    (eight bits), never as a list of characters: functions of the source that
    look at runes decode UTF-8 explicitly ([GoStrings.decode]).  String
    literals are written as Rocq strings and turned into byte lists by the
    coercion [lit]. *)

Abbreviation str := (list ascii).

Definition lit (s : string) : str := String.list_ascii_of_string s.
Coercion lit : string >-> list.
Arguments lit !s /.

Declare Scope go_scope.
Delimit Scope go_scope with go.
Open Scope go_scope.

(** Bytes that cannot be written inside a literal. *)
Definition byte (n : N) : str := [ascii_of_N n].
Definition dquote : str := byte 34.
Definition squote : str := byte 39.
Definition newline : str := byte 10.
Definition tabulator : str := byte 9.

#[global] Instance ascii_inhabited : Inhabited ascii := populate Ascii.zero.

Definition str_eqb (a b : str) : bool := bool_decide (a = b).
Notation "a =s b" := (str_eqb a b) (at level 70) : go_scope.

Lemma str_eqb_eq a b : (a =s b) = true <-> a = b.
Proof. unfold str_eqb. apply bool_decide_eq_true. Qed.

Lemma str_eqb_neq a b : (a =s b) = false <-> a <> b.
Proof. unfold str_eqb. apply bool_decide_eq_false. Qed.

Lemma str_eqb_sym a b : (a =s b) = (b =s a).
Proof. apply eq_true_iff_eq. rewrite !str_eqb_eq. split; congruence. Qed.
Lemma str_eqb_refl a : (a =s a) = true.
Proof. by apply str_eqb_eq. Qed.

(** ** Errors

    The values of Go's [error] interface that the program builds.  The wrapping
    constructor stands for [fmt.Errorf] with one [%w] verb: [errors.Is] and
    [errors.As] look through it, and [Error()] prints the prefix, the cause and
    the suffix. *)

Inductive goerror :=
| ErrNoRows                                        (* pgx.ErrNoRows *)
| ErrEOF                                           (* io.EOF *)
| ErrTooLarge                                      (* *http.MaxBytesError *)
| ErrText (msg : str)                              (* errors.New, fmt.Errorf without %w *)
| ErrWrap (prefix : str) (cause : goerror) (suffix : str)
| ErrValidation (msg : str)                        (* httpapi.validationError *)
| ErrNotFound (msg : str)                          (* httpapi.notFoundError *)
| ErrPg (code constraint msg : str).               (* *pgconn.PgError *)

Fixpoint Error (e : goerror) : str :=
  match e with
  | ErrNoRows => lit "no rows in result set"
  | ErrEOF => lit "EOF"
  | ErrTooLarge => lit "http: request body too large"
  | ErrText m | ErrValidation m | ErrNotFound m => m
  | ErrWrap p c s => p ++ Error c ++ s
  | ErrPg code _ m => lit "ERROR: " ++ m ++ lit " (SQLSTATE " ++ code ++ lit ")"
  end.

(** [errors.Is(err, pgx.ErrNoRows)] *)
Fixpoint is_no_rows (e : goerror) : bool :=
  match e with
  | ErrNoRows => true
  | ErrWrap _ c _ => is_no_rows c
  | _ => false
  end.

Definition result (A : Type) : Type := A + goerror.
Abbreviation Ok a := (inl a) (only parsing).
Abbreviation Err e := (inr e) (only parsing).

Definition rbind {A B} (m : result A) (k : A -> result B) : result B :=
  match m with inl a => k a | inr e => inr e end.
Definition check (e : option goerror) : result unit :=
  match e with Some e => inr e | None => inl tt end.
Definition is_ok {A} (m : result A) : bool :=
  match m with inl _ => true | inr _ => false end.
Definition is_some {A} (o : option A) : bool :=
  match o with Some _ => true | None => false end.

(** A loop that returns the first error of its body. *)
Definition first_error {A} (f : A -> option goerror) (l : list A) : option goerror :=
  fold_right (fun x acc => match f x with Some e => Some e | None => acc end) None l.

Notation "'let?' x := m 'in' k" := (rbind m (fun x => k))
  (at level 10, x pattern, m at level 100, k at level 200) : go_scope.
Notation "'guard?' m 'in' k" := (rbind (check m) (fun _ => k))
  (at level 10, m at level 100, k at level 200) : go_scope.

Lemma rbind_ok {A B} (m : result A) (k : A -> result B) b :
  rbind m k = inl b <-> exists a, m = inl a /\ k a = inl b.
Proof.
  destruct m as [a|e]; simpl.
  - split; [by exists a | by intros (a' & [= ->] & ?)].
  - split; [done | by intros (a' & ? & ?)].
Qed.

Lemma rbind_check_ok {B} e (k : unit -> result B) b :
  rbind (check e) k = inl b <-> e = None /\ k tt = inl b.
Proof.
  destruct e; simpl; split; [done | by intros [? ?] | done | by intros [? ?]].
Qed.

(** [pgtype.Text], [pgtype.UUID] and friends: a value with a [Valid] flag.  The
    string of an invalid text is observable in Go, so it is kept. *)
Record pgText := PgText { String' : str; Valid : bool }.
Definition textNull : pgText := PgText [] false.
Definition someText (s : str) : pgText := PgText s true.
#[global] Instance pgText_eq_dec : EqDecision pgText.
Proof. solve_decision. Defined.

Record pgUUID_t := PgUUID { uuid_bytes : str; uuid_valid : bool }.
#[global] Instance pgUUID_eq_dec : EqDecision pgUUID_t.
Proof. solve_decision. Defined.

(** ** Generic list lemmas shared by the components *)

Fixpoint drop_while {A} (p : A -> bool) (l : list A) : list A :=
  match l with
  | [] => []
  | x :: t => if p x then drop_while p t else l
  end.

Fixpoint take_while {A} (p : A -> bool) (l : list A) : list A :=
  match l with
  | [] => []
  | x :: t => if p x then x :: take_while p t else []
  end.

Definition drop_while_end {A} (p : A -> bool) (l : list A) : list A :=
  rev (drop_while p (rev l)).

Lemma drop_while_suffix {A} p (l : list A) :
  exists d, l = d ++ drop_while p l /\ forallb p d = true.
Proof.
  induction l as [|x t (d & IH & Hd)]; [by exists []|].
  simpl. destruct (p x) eqn:E; [|by exists []].
  exists (x :: d). simpl. rewrite E, Hd. split; [by rewrite <- IH|done].
Qed.

Lemma drop_while_head {A} p (l : list A) x t :
  drop_while p l = x :: t -> p x = false.
Proof.
  induction l as [|y l IH]; [done|]. simpl. destruct (p y) eqn:E; [done|].
  intros [= <- <-]. done.
Qed.

Lemma drop_while_idem {A} p (l : list A) :
  drop_while p (drop_while p l) = drop_while p l.
Proof.
  destruct (drop_while p l) as [|x t] eqn:E; [done|].
  simpl. by rewrite (drop_while_head _ _ _ _ E).
Qed.

Lemma drop_while_end_prefix {A} p (l : list A) :
  exists d, l = drop_while_end p l ++ d /\ forallb p d = true.
Proof.
  destruct (drop_while_suffix p (rev l)) as (d & H & Hd).
  exists (rev d). unfold drop_while_end. split.
  - rewrite <- rev_app_distr, <- H. by rewrite rev_involutive.
  - rewrite forallb_forall in Hd |- *. intros x Hx. apply Hd.
    by apply in_rev in Hx.
Qed.

Lemma forallb_elem {A} p (l : list A) x :
  forallb p l = true -> x ∈ l -> p x = true.
Proof. rewrite forallb_forall. intros H Hx. apply H. by apply list_elem_of_In. Qed.

Lemma forallb_intro {A} p (l : list A) :
  (forall x, x ∈ l -> p x = true) -> forallb p l = true.
Proof. intros H. apply forallb_forall. intros x Hx. apply H. by apply list_elem_of_In. Qed.

Lemma forallb_map {A B} (f : A -> B) p l :
  forallb p (map f l) = forallb (fun x => p (f x)) l.
Proof. induction l as [|x t IH]; [done|]. simpl. by rewrite IH. Qed.

(** ** Automation *)

Create HintDb go discriminated.
Create Rewrite HintDb go_rw.
#[export] Hint Constants Opaque : go.
#[export] Hint Resolve str_eqb_refl : go.

(** Splits a chain of guarded results that is known to succeed. *)
Ltac inv_ok H :=
  repeat match type of H with
  | rbind (check _) _ = inl _ =>
      let H1 := fresh "Hg" in apply rbind_check_ok in H as [H1 H]
  | rbind _ _ = inl _ =>
      let a := fresh "a" in let H1 := fresh "Hr" in
      apply rbind_ok in H as (a & H1 & H)
  | Some _ = None => discriminate H
  | inr _ = inl _ => discriminate H
  end.

(** ** Filters that keep everything or nothing *)

Lemma filter_none {A} (p : A -> bool) (l : list A) : (forall x, x ∈ l -> p x = false) -> List.filter p l = [].
Proof.
  induction l as [|x l IH]; intros Hl; [done|]. cbn [List.filter]. rewrite (Hl x) by by left. apply IH. intros y Hy.
  apply Hl. by right.
Qed.

Lemma filter_all {A} (p : A -> bool) (l : list A) : (forall x, x ∈ l -> p x = true) -> List.filter p l = l.
Proof.
  induction l as [|x l IH]; intros Hl; [done|]. cbn [List.filter]. rewrite (Hl x) by by left. f_equal. apply IH.
  intros y Hy. apply Hl. by right.
Qed.

Lemma filter_filter_and {R} (p q : R -> bool) l : List.filter p (List.filter q l) = List.filter (fun x => p x && q x) l.
Proof.
  induction l as [|x l IH]; [done|]. cbn [List.filter]. destruct (q x) eqn:Eq; cbn [List.filter]; rewrite IH.
  - by rewrite andb_true_r.
  - by rewrite andb_false_r.
Qed.

(** Case analysis on the innermost scrutinee of a hypothesis. *)
Ltac destruct_in H :=
  match type of H with
  | context [match ?x with _ => _ end] =>
      lazymatch x with context [match _ with _ => _ end] => fail | _ => idtac end;
      let E := fresh "E" in destruct x eqn:E
  end.

Ltac bool_simp :=
  repeat match goal with
  | H : (_ =s _) = true |- _ => apply str_eqb_eq in H
  | H : (_ =s _) = false |- _ => apply str_eqb_neq in H
  | H : bool_decide _ = true |- _ => apply bool_decide_eq_true in H
  | H : bool_decide _ = false |- _ => apply bool_decide_eq_false in H
  | H : (_ <=? _)%N = true |- _ => apply N.leb_le in H
  | H : _ && _ = true |- _ => apply andb_true_iff in H as [? ?]
  | H : (_ <? _)%N = true |- _ => apply N.ltb_lt in H
  | H : negb _ = true |- _ => apply negb_true_iff in H
  | H : (_ <? _)%N = false |- _ => apply N.ltb_ge in H
  | H : _ || _ = false |- _ => apply orb_false_iff in H as [? ?]
  | H : (_ =? _)%N = true |- _ => apply N.eqb_eq in H
  | H : negb _ = false |- _ => apply negb_false_iff in H
  | H : (_ =? _)%N = false |- _ => apply N.eqb_neq in H
  end.
