(* ===== verification/GoStrings.v ===== *)
(** * The Go standard library functions on strings the program uses

    Package [strings], [unicode], [unicode/utf8], [path] and the decimal and
    hexadecimal verbs of [fmt], over byte lists.  UTF-8 is decoded the way
    [utf8.DecodeRune] does it: an invalid byte yields U+FFFD with width one and
    keeps its raw byte. *)

From S2P Require Import Prelude.

(** ** Runes *)

Abbreviation rune := N.

(** One decoded step: the rune and the raw bytes it was read from. *)
Abbreviation seg := (N * list ascii)%type.

Definition rune_error : rune := 65533%N.

Definition b2n (c : ascii) : N := N_of_ascii c.

Definition is_cont (x : N) : bool := ((128 <=? x) && (x <=? 191))%N.
Definition in_range (lo hi x : N) : bool := ((lo <=? x) && (x <=? hi))%N.

Definition dec2 (x0 x1 : N) : option rune :=
  if in_range 194 223 x0 && is_cont x1
  then Some ((x0 - 192) * 64 + (x1 - 128))%N else None.

(** The second byte of a three or four byte sequence has a range that excludes
    overlong forms and surrogates. *)
Definition second3_ok (x0 x1 : N) : bool :=
  if (x0 =? 224)%N then in_range 160 191 x1
  else if (x0 =? 237)%N then in_range 128 159 x1
  else in_range 225 239 x0 && is_cont x1.
Definition second4_ok (x0 x1 : N) : bool :=
  if (x0 =? 240)%N then in_range 144 191 x1
  else if (x0 =? 244)%N then in_range 128 143 x1
  else in_range 241 243 x0 && is_cont x1.

Definition dec3 (x0 x1 x2 : N) : option rune :=
  if second3_ok x0 x1 && is_cont x2
  then Some ((x0 - 224) * 4096 + (x1 - 128) * 64 + (x2 - 128))%N else None.
Definition dec4 (x0 x1 x2 x3 : N) : option rune :=
  if second4_ok x0 x1 && is_cont x2 && is_cont x3
  then Some ((x0 - 240) * 262144 + (x1 - 128) * 4096 + (x2 - 128) * 64 + (x3 - 128))%N
  else None.

Fixpoint decode (s : str) : list seg :=
  match s with
  | [] => []
  | c0 :: t0 =>
      let x0 := b2n c0 in
      if (x0 <? 128)%N then (x0, [c0]) :: decode t0
      else
        let bad := (rune_error, [c0]) :: decode t0 in
        match t0 with
        | [] => bad
        | c1 :: t1 =>
            match dec2 x0 (b2n c1) with
            | Some r => (r, [c0; c1]) :: decode t1
            | None =>
                match t1 with
                | [] => bad
                | c2 :: t2 =>
                    match dec3 x0 (b2n c1) (b2n c2) with
                    | Some r => (r, [c0; c1; c2]) :: decode t2
                    | None =>
                        match t2 with
                        | [] => bad
                        | c3 :: t3 =>
                            match dec4 x0 (b2n c1) (b2n c2) (b2n c3) with
                            | Some r => (r, [c0; c1; c2; c3]) :: decode t3
                            | None => bad
                            end
                        end
                    end
                end
            end
        end
  end.

Definition runes (s : str) : list rune := map fst (decode s).
Definition raw (l : list seg) : str := concat (map snd l).
Arguments raw : simpl never.

(** [utf8.EncodeRune] / [string(rune)]: values that are not code points are
    written as U+FFFD. *)
Definition encode_rune (r : rune) : str :=
  (if r <? 128 then [ascii_of_N r]
   else if r <? 2048 then [ascii_of_N (192 + r / 64); ascii_of_N (128 + r mod 64)]
   else if (1114111 <? r) || in_range 55296 57343 r
   then [ascii_of_N 239; ascii_of_N 191; ascii_of_N 189]
   else if r <? 65536
   then [ascii_of_N (224 + r / 4096); ascii_of_N (128 + r / 64 mod 64); ascii_of_N (128 + r mod 64)]
   else [ascii_of_N (240 + r / 262144); ascii_of_N (128 + r / 4096 mod 64);
         ascii_of_N (128 + r / 64 mod 64); ascii_of_N (128 + r mod 64)])%N.

(** [utf8.ValidString] *)
Definition valid_utf8 (s : str) : bool :=
  forallb (fun sg : seg => negb ((sg.1 =? rune_error)%N && (length sg.2 =? 1)%nat)) (decode s).

(** Unicode tables that a theorem never has to look into: simple case mappings
    and printability of the runes above ASCII. *)
Class UnicodeTables := {
  uni_lower : rune -> rune;
  uni_upper : rune -> rune;
  uni_print : rune -> bool;
}.

Definition ascii_tables : UnicodeTables :=
  {| uni_lower := fun r => r; uni_upper := fun r => r; uni_print := fun _ => true |}.

(** [unicode.IsControl]: category Cc. *)
Definition is_control (r : rune) : bool := ((r <? 32) || in_range 127 159 r)%N.

(** [unicode.IsSpace]: property White_Space. *)
Definition is_space (r : rune) : bool :=
  (in_range 9 13 r || (r =? 32) || (r =? 133) || (r =? 160) || (r =? 5760)
   || in_range 8192 8202 r || (r =? 8232) || (r =? 8233) || (r =? 8239)
   || (r =? 8287) || (r =? 12288))%N.

Definition is_upper_ascii (r : rune) : bool := in_range 65 90 r.
Definition is_lower_ascii (r : rune) : bool := in_range 97 122 r.
Definition is_digit (r : rune) : bool := in_range 48 57 r.
Definition is_alpha (r : rune) : bool := is_upper_ascii r || is_lower_ascii r.
Definition is_alnum (r : rune) : bool := is_alpha r || is_digit r.

Definition go_to_lower `{UnicodeTables} (r : rune) : rune :=
  if (r <? 128)%N then (if is_upper_ascii r then r + 32 else r)%N else uni_lower r.
Definition go_to_upper `{UnicodeTables} (r : rune) : rune :=
  if (r <? 128)%N then (if is_lower_ascii r then r - 32 else r)%N else uni_upper r.

(** ** Package strings *)

(** [strings.Map]; [None] stands for a negative result, which drops the rune. *)
Definition go_map (f : rune -> option rune) (s : str) : str :=
  concat (map (fun r => match f r with Some r' => encode_rune r' | None => [] end) (runes s)).

Definition ToLower `{UnicodeTables} (s : str) : str := go_map (fun r => Some (go_to_lower r)) s.
Definition ToUpper `{UnicodeTables} (s : str) : str := go_map (fun r => Some (go_to_upper r)) s.

Definition trim_segs (p : rune -> bool) (s : str) : list seg :=
  drop_while_end (fun sg => p sg.1) (drop_while (fun sg => p sg.1) (decode s)).

(** [strings.TrimFunc]: both ends, rune by rune. *)
Definition TrimFunc (p : rune -> bool) (s : str) : str := raw (trim_segs p s).

Definition TrimSpace (s : str) : str := TrimFunc is_space s.

(** [strings.Trim] with a cutset. *)
Definition Trim (s cutset : str) : str :=
  TrimFunc (fun r => existsb (N.eqb r) (runes cutset)) s.

Definition TrimRight (s cutset : str) : str :=
  raw (drop_while_end (fun sg : seg => existsb (N.eqb sg.1) (runes cutset)) (decode s)).

Fixpoint HasPrefix (s p : str) {struct p} : bool :=
  match p, s with
  | [], _ => true
  | c :: p', d :: s' => bool_decide (c = d) && HasPrefix s' p'
  | _ :: _, [] => false
  end.

Definition HasSuffix (s p : str) : bool :=
  (length p <=? length s)%nat && (drop (length s - length p) s =s p).

Definition TrimPrefix (s p : str) : str := if HasPrefix s p then drop (length p) s else s.
Definition TrimSuffix (s p : str) : str :=
  if HasSuffix s p then take (length s - length p) s else s.

Fixpoint Contains (s sub : str) : bool :=
  HasPrefix s sub || match s with [] => false | _ :: t => Contains t sub end.

Definition ContainsByte (s : str) (c : ascii) : bool := existsb (fun d => bool_decide (c = d)) s.

(** [strings.ContainsAny] for an ASCII set of characters. *)
Definition ContainsAny (s chars : str) : bool :=
  existsb (fun r => existsb (N.eqb r) (runes chars)) (runes s).

(** [strings.LastIndex] and [strings.Index] of a single byte, [-1] if absent. *)
Fixpoint LastIndexByte (s : str) (c : ascii) : Z :=
  match s with
  | [] => -1
  | d :: t =>
      let i := LastIndexByte t c in
      if (0 <=? i)%Z then (i + 1)%Z else if bool_decide (c = d) then 0%Z else (-1)%Z
  end.

Fixpoint IndexByte (s : str) (c : ascii) : Z :=
  match s with
  | [] => -1
  | d :: t =>
      if bool_decide (c = d) then 0%Z
      else let i := IndexByte t c in if (0 <=? i)%Z then (i + 1)%Z else (-1)%Z
  end.

(** [s[i:]] and [s[:i]] for indices known to be in range. *)
Definition slice_from (s : str) (i : Z) : str := drop (Z.to_nat i) s.
Definition slice_to (s : str) (i : Z) : str := take (Z.to_nat i) s.

(** [strings.ReplaceAll] for a non-empty pattern: leftmost, not overlapping. *)
Fixpoint replace_from (old new : str) (skip : nat) (s : str) : str :=
  match s with
  | [] => []
  | c :: t =>
      match skip with
      | S k => replace_from old new k t
      | O => if HasPrefix s old
             then new ++ replace_from old new (length old - 1) t
             else c :: replace_from old new 0 t
      end
  end.
Definition ReplaceAll (s old new : str) : str := replace_from old new 0 s.

(** [strings.Replace(s, old, new, 1)] *)
Fixpoint ReplaceFirst (s old new : str) : str :=
  if HasPrefix s old then new ++ drop (length old) s
  else match s with [] => [] | c :: t => c :: ReplaceFirst t old new end.

(** [strings.Split] on a single byte: never empty. *)
Fixpoint SplitByte (c : ascii) (s : str) : list str :=
  match s with
  | [] => [[]]
  | d :: t =>
      if bool_decide (d = c) then [] :: SplitByte c t
      else match SplitByte c t with
           | [] => [[d]]
           | w :: ws => (d :: w) :: ws
           end
  end.

(** [strings.SplitN(s, sep, 2)] on a single byte, as [strings.Cut]. *)
Fixpoint CutByte (c : ascii) (s : str) : str * option str :=
  match s with
  | [] => ([], None)
  | d :: t =>
      if bool_decide (d = c) then ([], Some t)
      else let '(a, b) := CutByte c t in (d :: a, b)
  end.

Fixpoint Join (l : list str) (sep : str) : str :=
  match l with
  | [] => []
  | [x] => x
  | x :: t => x ++ sep ++ Join t sep
  end.

(** [strings.Fields]: maximal runs of runes that are not white space. *)
Fixpoint fields_segs (l : list seg) (cur : str) : list str :=
  match l with
  | [] => if bool_decide (cur = []) then [] else [cur]
  | sg :: t =>
      if is_space sg.1
      then (if bool_decide (cur = []) then [] else [cur]) ++ fields_segs t []
      else fields_segs t (cur ++ sg.2)
  end.
Definition Fields (s : str) : list str := fields_segs (decode s) [].

(** ** Ordering of strings and [sort.Strings] *)

Fixpoint str_leb (a b : str) : bool :=
  match a, b with
  | [], _ => true
  | _ :: _, [] => false
  | c :: a', d :: b' =>
      if (b2n c <? b2n d)%N then true
      else if (b2n d <? b2n c)%N then false else str_leb a' b'
  end.
Definition str_le (a b : str) : Prop := str_leb a b = true.
#[export] Instance str_le_dec : RelDecision str_le.
Proof. intros a b. unfold str_le. apply _. Defined.

(** Sorting rows by a string key. *)
Definition by_key {R} (key : R -> str) (x y : R) : Prop := str_le (key x) (key y).
#[export] Instance by_key_dec {R} (key : R -> str) : RelDecision (by_key key).
Proof. intros x y. unfold by_key. apply _. Defined.

Definition sort_Strings (l : list str) : list str := merge_sort str_le l.

(** ** Package path (slash separated paths) *)

Definition slash : ascii := "/"%char.
Definition IsAbs (p : str) : bool := HasPrefix p (lit "/").

(** Processes the elements of a path left to right, keeping the output in
    reverse: [.] and empty elements disappear, [..] removes the element before
    it, or is kept at the start of a relative path. *)
Fixpoint clean_elems (rooted : bool) (elems : list str) (out : list str) : list str :=
  match elems with
  | [] => rev out
  | e :: t =>
      if (e =s []) || (e =s lit ".") then clean_elems rooted t out
      else if e =s lit ".." then
        match out with
        | o :: out' => if o =s lit ".." then clean_elems rooted t (e :: out)
                       else clean_elems rooted t out'
        | [] => if rooted then clean_elems rooted t [] else clean_elems rooted t [e]
        end
      else clean_elems rooted t (e :: out)
  end.

Definition path_Clean (p : str) : str :=
  let rooted := IsAbs p in
  let body := Join (clean_elems rooted (SplitByte slash p) []) (lit "/") in
  if rooted then lit "/" ++ body
  else if body =s [] then lit "." else body.

Definition path_Dir (p : str) : str :=
  path_Clean (slice_to p (LastIndexByte p slash + 1)).

Definition path_Join (elems : list str) : str :=
  match filter (fun e => e <> []) elems with
  | [] => []
  | l => path_Clean (Join l (lit "/"))
  end.

(** ** Formatting *)

(** [%d] *)
Definition fmt_d (z : Z) : str := lit (pretty z).

(** [fmt.Sprintf] for the verbs the program uses on strings: [%%], [%s] and
    [%[n]s].  [all] keeps the arguments for the indexed verb, [args] the ones the
    next plain verb takes. *)
Definition missing_arg : str := lit "%!s(MISSING)".
Fixpoint sprintf (fmt : str) (all args : list str) : str :=
  match fmt with
  | [] => []
  | c :: t =>
      if bool_decide (c = "%"%char) then
        match t with
        | d :: t' =>
            if bool_decide (d = "%"%char) then d :: sprintf t' all args
            else if bool_decide (d = "s"%char) then
              match args with
              | a :: args' => a ++ sprintf t' all args'
              | [] => missing_arg ++ sprintf t' all []
              end
            else
              match t' with
              | n :: _ :: _ :: t'' =>
                  if bool_decide (d = "["%char) then
                    let i := N.to_nat (b2n n - 48) in
                    nth (i - 1) all missing_arg ++ sprintf t'' all (drop i all)
                  else c :: sprintf t all args
              | _ => c :: sprintf t all args
              end
        | [] => [c]
        end
      else c :: sprintf t all args
  end.
Definition Sprintf (fmt : str) (args : list str) : str := sprintf fmt args args.

Definition hex_digit (upper : bool) (d : N) : ascii :=
  if (d <? 10)%N then ascii_of_N (48 + d)
  else ascii_of_N ((if upper then 55 else 87) + d).

Fixpoint hex_fixed (upper : bool) (n : nat) (x : N) : str :=
  match n with
  | O => []
  | S n' => hex_fixed upper n' (x / 16) ++ [hex_digit upper (x mod 16)]
  end.

(** [%08x] and [%08X] of a 32-bit value. *)
Definition fmt_08x (x : N) : str := hex_fixed false 8 x.
Definition fmt_08X (x : N) : str := hex_fixed true 8 x.

(** [strconv.Quote], the [%q] verb. *)
Definition quote_seg `{UnicodeTables} (sg : seg) : str :=
  let '(r, bytes) := sg in
  let bs := byte 92 in
  if (r =? 34)%N || (r =? 92)%N then bs ++ encode_rune r
  else if (r =? rune_error)%N && (length bytes =? 1)%nat
  then bs ++ lit "x" ++ concat (map (fun c => hex_fixed false 2 (b2n c)) bytes)
  else if (r <? 128)%N then
    if in_range 32 126 r then encode_rune r
    else if (r =? 7)%N then bs ++ lit "a"
    else if (r =? 8)%N then bs ++ lit "b"
    else if (r =? 12)%N then bs ++ lit "f"
    else if (r =? 10)%N then bs ++ lit "n"
    else if (r =? 13)%N then bs ++ lit "r"
    else if (r =? 9)%N then bs ++ lit "t"
    else if (r =? 11)%N then bs ++ lit "v"
    else bs ++ lit "x" ++ hex_fixed false 2 r
  else if uni_print r then encode_rune r
  else if (r <? 65536)%N then bs ++ lit "u" ++ hex_fixed false 4 r
  else bs ++ lit "U" ++ hex_fixed false 8 r.

Definition fmt_q `{UnicodeTables} (s : str) : str :=
  dquote ++ concat (map quote_seg (decode s)) ++ dquote.
