(* ===== verification/GoStringsFacts.v ===== *)
(** * Lemmas on the Go string functions

    Decoding loses no byte and is stable under cutting at rune boundaries, so
    trimming is idempotent; splitting and joining are inverse; replacing a
    single byte is a [flat_map]; the byte order of [sort.Strings] is total. *)

From S2P Require Import Prelude GoStrings.

(** ** Decoding *)

Lemma raw_app a b : raw (a ++ b) = raw a ++ raw b.
Proof. unfold raw. by rewrite map_app, concat_app. Qed.

Lemma raw_cons x b : raw (x :: b) = x.2 ++ raw b.
Proof. done. Qed.

(** One step of the decoder consumes between one and four bytes. *)
Lemma decode_step s :
  s <> [] ->
  exists r n, decode s = (r, take (S n) s) :: decode (drop (S n) s) /\ (S n <= length s)%nat.
Proof.
  destruct s as [|c0 t0]; [done|]. intros _. cbn [decode].
  destruct (b2n c0 <? 128)%N; [by exists (b2n c0), 0%nat; simpl; split; [|lia]|].
  assert (Hbad : exists r n, (rune_error, [c0]) :: decode t0
     = (r, take (S n) (c0 :: t0)) :: decode (drop (S n) (c0 :: t0)) /\ (S n <= length (c0 :: t0))%nat).
  { exists rune_error, 0%nat. simpl. split; [done|lia]. }
  destruct t0 as [|c1 t1]; [exact Hbad|].
  destruct (dec2 _ _) as [r|]; [by exists r, 1%nat; simpl; split; [|lia]|].
  destruct t1 as [|c2 t2]; [exact Hbad|].
  destruct (dec3 _ _ _) as [r|]; [by exists r, 2%nat; simpl; split; [|lia]|].
  destruct t2 as [|c3 t3]; [exact Hbad|].
  destruct (dec4 _ _ _ _) as [r|]; [by exists r, 3%nat; simpl; split; [|lia]|].
  exact Hbad.
Qed.

Lemma str_len_ind (P : str -> Prop) :
  (forall s, (forall t, (length t < length s)%nat -> P t) -> P s) -> forall s, P s.
Proof.
  intros H s. apply H. induction s as [|c s IH]; [simpl; lia|].
  intros t Ht. apply H. intros u Hu. apply IH. simpl in Ht. lia.
Qed.

Lemma raw_decode s : raw (decode s) = s.
Proof.
  induction s as [s IH] using str_len_ind.
  destruct (decide (s = [])) as [->|Hne]; [done|].
  destruct (decode_step s Hne) as (r & n & -> & Hn).
  rewrite raw_cons, IH; [apply take_drop|]. rewrite length_drop. lia.
Qed.

Lemma decode_nil_inv s : decode s = [] -> s = [].
Proof. intros H. rewrite <- (raw_decode s), H. done. Qed.

(** The first segment of a decoding is determined by its own bytes unless it is
    an error, in which case fewer following bytes cannot repair it. *)
Lemma decode_firstn_segs s n :
  decode (raw (take n (decode s))) = take n (decode s).
Proof.
  revert n. induction s as [s IH] using str_len_ind. intros n.
  destruct n as [|n]; [done|].
  destruct s as [|c0 t0]; [done|]. cbn [decode].
  assert (Hb : forall u : str, raw (take (S n) ((rune_error, [c0]) :: decode u))
             = c0 :: raw (take n (decode u))) by done.
  destruct (b2n c0 <? 128)%N eqn:E0.
  { cbn [take]. rewrite raw_cons. cbn [snd app decode]. rewrite E0. f_equal.
    apply IH. simpl. lia. }
  set (rest := take n (decode t0)).
  assert (Hrest : decode (raw rest) = rest) by (apply IH; simpl; lia).
  assert (Hpre : raw rest `prefix_of` t0).
  { exists (raw (drop n (decode t0))). unfold rest.
    rewrite <- raw_app, take_drop. by rewrite raw_decode. }
  assert (Hbad : (match t0 with
       | [] => True | c1 :: t1 => dec2 (b2n c0) (b2n c1) = None /\
         match t1 with [] => True | c2 :: t2 => dec3 (b2n c0) (b2n c1) (b2n c2) = None /\
           match t2 with [] => True | c3 :: t3 => dec4 (b2n c0) (b2n c1) (b2n c2) (b2n c3) = None
           end end end) ->
       decode (raw (take (S n) ((rune_error, [c0]) :: decode t0)))
       = take (S n) ((rune_error, [c0]) :: decode t0)).
  { intros Hd. rewrite Hb. fold rest. cbn [decode take]. fold rest. rewrite E0, Hrest.
    destruct Hpre as [k Hk]. destruct (raw rest) as [|d1 u1]; [done|].
    rewrite Hk in Hd. simpl in Hd. destruct Hd as [-> Hd].
    destruct u1 as [|d2 u2]; [done|]. simpl in Hd. destruct Hd as [-> Hd].
    destruct u2 as [|d3 u3]; [done|]. simpl in Hd. by rewrite Hd. }
  destruct t0 as [|c1 t1]; [by apply Hbad|].
  destruct (dec2 _ _) as [r|] eqn:E2.
  { cbn [take]. rewrite raw_cons. cbn [snd app decode]. rewrite E0, E2. f_equal.
    apply IH. simpl. lia. }
  destruct t1 as [|c2 t2]; [by apply Hbad|].
  destruct (dec3 _ _ _) as [r|] eqn:E3.
  { cbn [take]. rewrite raw_cons. cbn [snd app decode]. rewrite E0, E2, E3. f_equal.
    apply IH. simpl. lia. }
  destruct t2 as [|c3 t3]; [by apply Hbad|].
  destruct (dec4 _ _ _ _) as [r|] eqn:E4.
  { cbn [take]. rewrite raw_cons. cbn [snd app decode]. rewrite E0, E2, E3, E4. f_equal.
    apply IH. simpl. lia. }
  by apply Hbad.
Qed.

Lemma decode_skipn_segs s n :
  decode (raw (drop n (decode s))) = drop n (decode s).
Proof.
  revert n. induction s as [s IH] using str_len_ind. intros n.
  destruct n as [|n]; [by rewrite drop_0, raw_decode|].
  destruct (decide (s = [])) as [->|Hne]; [done|].
  destruct (decode_step s Hne) as (r & k & -> & Hk). simpl.
  apply IH. rewrite length_drop. lia.
Qed.

(** Every infix of a decoding decodes to itself. *)
Lemma decode_infix s a b c :
  decode s = a ++ b ++ c -> decode (raw b) = b.
Proof.
  intros H. pose proof (decode_skipn_segs s (length a)) as H1.
  rewrite H, drop_app_length in H1.
  pose proof (decode_firstn_segs (raw (b ++ c)) (length b)) as H2.
  by rewrite H1, take_app_length in H2.
Qed.

Lemma trim_segs_infix p s :
  exists a c, decode s = a ++ trim_segs p s ++ c.
Proof.
  unfold trim_segs.
  destruct (drop_while_suffix (fun sg : seg => p sg.1) (decode s)) as (a & Ha & _).
  destruct (drop_while_end_prefix (fun sg : seg => p sg.1)
    (drop_while (fun sg : seg => p sg.1) (decode s))) as (c & Hc & _).
  exists a, c. by rewrite <- Hc.
Qed.

Lemma decode_trim p s : decode (TrimFunc p s) = trim_segs p s.
Proof.
  destruct (trim_segs_infix p s) as (a & c & H). by apply (decode_infix s a _ c).
Qed.

Lemma drop_while_end_last {A} (p : A -> bool) l x t :
  rev (drop_while_end p l) = x :: t -> p x = false.
Proof. unfold drop_while_end. rewrite rev_involutive. apply drop_while_head. Qed.

Lemma drop_while_none {A} (p : A -> bool) x l : p x = false -> drop_while p (x :: l) = x :: l.
Proof. intros H. simpl. by rewrite H. Qed.

Lemma trim_segs_fixed p (l : list seg) :
  let q := fun sg : seg => p sg.1 in
  drop_while q (drop_while_end q (drop_while q l)) = drop_while_end q (drop_while q l).
Proof.
  intros q. destruct (drop_while_end_prefix q (drop_while q l)) as (c & Hc & _).
  destruct (drop_while_end q (drop_while q l)) as [|x t] eqn:E; [done|].
  apply drop_while_none. eapply (drop_while_head q l). rewrite Hc. done.
Qed.

Lemma TrimFunc_idem p s : TrimFunc p (TrimFunc p s) = TrimFunc p s.
Proof.
  unfold TrimFunc at 1. f_equal. unfold trim_segs. rewrite decode_trim. unfold trim_segs.
  rewrite (trim_segs_fixed p (decode s)).
  unfold drop_while_end. rewrite rev_involutive. by rewrite drop_while_idem.
Qed.

Lemma TrimSpace_idem s : TrimSpace (TrimSpace s) = TrimSpace s.
Proof. apply TrimFunc_idem. Qed.

#[export] Hint Rewrite TrimSpace_idem : go_rw.

(** What a trim removes are exactly runes of the trimmed class. *)
Lemma TrimFunc_split p s :
  exists a b, s = raw a ++ TrimFunc p s ++ raw b
    /\ forallb (fun sg : seg => p sg.1) a = true /\ forallb (fun sg : seg => p sg.1) b = true.
Proof.
  unfold TrimFunc, trim_segs.
  destruct (drop_while_suffix (fun sg : seg => p sg.1) (decode s)) as (a & Ha & Hpa).
  destruct (drop_while_end_prefix (fun sg : seg => p sg.1)
    (drop_while (fun sg : seg => p sg.1) (decode s))) as (c & Hc & Hpc).
  exists a, c. split; [|done]. rewrite <- !raw_app, <- Hc, <- Ha. by rewrite raw_decode.
Qed.

(** ** ASCII strings *)

Definition is_ascii (s : str) : bool := forallb (fun c => (b2n c <? 128)%N) s.

Lemma is_ascii_app a b : is_ascii (a ++ b) = is_ascii a && is_ascii b.
Proof. apply forallb_app. Qed.

Lemma decode_ascii s : is_ascii s = true -> decode s = map (fun c => (b2n c, [c])) s.
Proof.
  induction s as [|c t IH]; [done|]. simpl. intros H.
  apply andb_true_iff in H as [Hc Ht]. rewrite Hc. f_equal. by apply IH.
Qed.

Lemma runes_ascii s : is_ascii s = true -> runes s = map b2n s.
Proof. intros H. unfold runes. rewrite decode_ascii by done. by rewrite map_map. Qed.

Lemma valid_utf8_ascii s : is_ascii s = true -> valid_utf8 s = true.
Proof.
  intros Ha. unfold valid_utf8. rewrite (decode_ascii s Ha). unfold is_ascii in Ha. rewrite forallb_map.
  apply forallb_forall. intros c Hc. rewrite forallb_forall in Ha. apply Ha in Hc. cbn. apply N.ltb_lt in Hc.
  apply negb_true_iff, andb_false_iff. left. apply N.eqb_neq. unfold rune_error. lia.
Qed.

Lemma encode_rune_ascii r : (r < 128)%N -> encode_rune r = [ascii_of_N r].
Proof. intros H. unfold encode_rune. apply N.ltb_lt in H. by rewrite H. Qed.

Lemma b2n_ascii_of_N r : (r < 256)%N -> b2n (ascii_of_N r) = r.
Proof. intros H. unfold b2n. by apply N_ascii_embedding. Qed.

Lemma ascii_of_b2n c : ascii_of_N (b2n c) = c.
Proof. apply ascii_N_embedding. Qed.

Lemma b2n_inj c d : b2n c = b2n d -> c = d.
Proof. intros H. by rewrite <- (ascii_of_b2n c), H, ascii_of_b2n. Qed.

Lemma b2n_bound c : (b2n c < 256)%N.
Proof. apply N_ascii_bounded. Qed.

(** A rune below 128 is a byte: a predicate on ASCII runes is one on bytes. *)
Lemma dec2_large x0 x1 r : dec2 x0 x1 = Some r -> (128 <= r)%N.
Proof.
  unfold dec2, in_range. destruct (_ && _) eqn:E; [|done]. intros [= <-].
  bool_simp. lia.
Qed.
Lemma dec3_large x0 x1 x2 r : dec3 x0 x1 x2 = Some r -> (128 <= r)%N.
Proof.
  unfold dec3, second3_ok, in_range. destruct (_ && is_cont x2) eqn:E; [|done]. intros [= <-].
  bool_simp. destruct (N.eqb_spec x0 224); [bool_simp; lia|]. destruct (N.eqb_spec x0 237); bool_simp; lia.
Qed.
Lemma dec4_large x0 x1 x2 x3 r : dec4 x0 x1 x2 x3 = Some r -> (128 <= r)%N.
Proof.
  unfold dec4, second4_ok, in_range. destruct (_ && is_cont x3) eqn:E; [|done]. intros [= <-].
  bool_simp. destruct (N.eqb_spec x0 240); [bool_simp; lia|]. destruct (N.eqb_spec x0 244); bool_simp; lia.
Qed.

Lemma decode_cons_large c t :
  (b2n c <? 128)%N = false -> exists r b l, decode (c :: t) = (r, b) :: l /\ (128 <= r)%N.
Proof.
  intros Hc. cbn [decode]. rewrite Hc.
  assert (Hbad : exists r b l, (rune_error, [c]) :: decode t = (r, b) :: l /\ (128 <= r)%N).
  { eexists _, _, _. split; [done|]. unfold rune_error. lia. }
  destruct t as [|c1 t1]; [done|].
  destruct (dec2 _ _) as [r|] eqn:E2; [apply dec2_large in E2; by eexists _, _, _|].
  destruct t1 as [|c2 t2]; [done|].
  destruct (dec3 _ _ _) as [r|] eqn:E3; [apply dec3_large in E3; by eexists _, _, _|].
  destruct t2 as [|c3 t3]; [done|].
  destruct (dec4 _ _ _ _) as [r|] eqn:E4; [apply dec4_large in E4; by eexists _, _, _|done].
Qed.

Lemma runes_bytes p s :
  (forall r, p r = true -> (r < 128)%N) ->
  forallb p (runes s) = forallb (fun c => p (b2n c)) s.
Proof.
  intros Hp. induction s as [|c t IH]; [done|].
  destruct (b2n c <? 128)%N eqn:Hc.
  - unfold runes. cbn [decode]. rewrite Hc. simpl. f_equal. exact IH.
  - destruct (decode_cons_large c t Hc) as (r & b & l & E & Hr). unfold runes. rewrite E. simpl.
    assert (Hfalse : forall x, (128 <= x)%N -> p x = false).
    { intros x Hx. destruct (p x) eqn:Ep; [|done]. apply Hp in Ep. lia. }
    apply N.ltb_ge in Hc. by rewrite !Hfalse.
Qed.

Lemma runes_ascii_of p s :
  (forall r, p r = true -> (r < 128)%N) -> forallb p (runes s) = true -> is_ascii s = true.
Proof.
  intros Hp. rewrite (runes_bytes _ _ Hp). unfold is_ascii. rewrite !forallb_forall.
  intros H c Hc. apply N.ltb_lt, Hp, H, Hc.
Qed.

(** ** Prefixes, splitting and joining *)

Lemma HasPrefix_app p s : HasPrefix (p ++ s) p = true.
Proof.
  induction p as [|c p IH]; [by destruct s|]. simpl.
  rewrite bool_decide_true by done. apply IH.
Qed.

Lemma HasPrefix_true s p : HasPrefix s p = true <-> exists t, s = p ++ t.
Proof.
  split; [|intros (t & ->); apply HasPrefix_app].
  revert s. induction p as [|c p IH]; intros s; [intros _; by exists s|].
  destruct s as [|d s]; [done|]. simpl. intros H. bool_simp. subst d.
  destruct (IH s) as (t & ->); [done|]. by exists t.
Qed.

Lemma HasSuffix_true s p : HasSuffix s p = true <-> exists t, s = t ++ p.
Proof.
  unfold HasSuffix. split.
  - intros H. bool_simp. exists (take (length s - length p) s).
    rewrite <- H0 at 2. by rewrite take_drop.
  - intros (t & ->). rewrite length_app. apply andb_true_iff. split; [apply Nat.leb_le; lia|].
    replace (length t + length p - length p)%nat with (length t) by lia.
    rewrite drop_app_length. apply str_eqb_refl.
Qed.

Lemma Contains_true s sub : Contains s sub = true <-> exists a b, s = a ++ sub ++ b.
Proof.
  split.
  - induction s as [|c s IH]; cbn [Contains]; intros H; apply orb_true_iff in H as [H|H].
    + apply HasPrefix_true in H as [t ->]. by exists [], t.
    + done.
    + apply HasPrefix_true in H as [t ->]. by exists [], t.
    + destruct (IH H) as (a & b & ->). by exists (c :: a), b.
  - intros (a & b & ->). induction a as [|c a IH].
    + pose proof (HasPrefix_app sub b) as Hp. simpl.
      destruct (sub ++ b) eqn:E; cbn [Contains]; by rewrite Hp.
    + simpl app. cbn [Contains]. rewrite IH. by apply orb_true_r.
Qed.

Lemma SplitByte_nonempty c s : SplitByte c s <> [].
Proof.
  induction s as [|d s IH]; [done|]. simpl. case_bool_decide; [done|].
  by destruct (SplitByte c s).
Qed.

Lemma Join_SplitByte c s : Join (SplitByte c s) [c] = s.
Proof.
  induction s as [|d s IH]; [done|]. simpl. case_bool_decide as Hd.
  - subst d. destruct (SplitByte c s) as [|w ws] eqn:E; [by apply SplitByte_nonempty in E|].
    simpl. f_equal. by rewrite <- IH.
  - destruct (SplitByte c s) as [|w ws] eqn:E; [by apply SplitByte_nonempty in E|].
    rewrite <- IH. by destruct ws.
Qed.

Lemma SplitByte_no_sep c s w : w ∈ SplitByte c s -> c ∉ w.
Proof.
  revert w. induction s as [|d s IH]; intros w.
  - simpl. rewrite list_elem_of_singleton. intros ->. apply not_elem_of_nil.
  - simpl. case_bool_decide as Hd.
    + rewrite elem_of_cons. intros [->|H]; [apply not_elem_of_nil|by apply IH].
    + destruct (SplitByte c s) as [|v vs] eqn:E; [by apply SplitByte_nonempty in E|].
      rewrite elem_of_cons. intros [->|H].
      * rewrite not_elem_of_cons. split; [congruence|]. apply IH. by left.
      * apply IH. by right.
Qed.

Lemma SplitByte_single c w : c ∉ w -> SplitByte c w = [w].
Proof.
  induction w as [|d w IH]; [done|]. rewrite not_elem_of_cons. intros [Hd Hw]. simpl.
  rewrite bool_decide_false by congruence. by rewrite IH.
Qed.

Lemma SplitByte_app c w s : c ∉ w -> SplitByte c (w ++ c :: s) = w :: SplitByte c s.
Proof.
  induction w as [|d w IH]; [intros _; simpl; by rewrite bool_decide_true|].
  rewrite not_elem_of_cons. intros [Hd Hw]. simpl.
  rewrite bool_decide_false by congruence. by rewrite IH.
Qed.

Lemma SplitByte_Join c ws :
  ws <> [] -> (forall w, w ∈ ws -> c ∉ w) -> SplitByte c (Join ws [c]) = ws.
Proof.
  induction ws as [|w ws IH]; [done|]. intros _ H.
  assert (Hw : c ∉ w) by (apply H; by left).
  destruct ws as [|w' ws]; [by apply SplitByte_single|].
  cbn [Join]. simpl app. rewrite SplitByte_app by done. f_equal.
  apply IH; [done|]. intros v Hv. apply H. by right.
Qed.

Lemma CutByte_None c s a : CutByte c s = (a, None) -> a = s /\ c ∉ s.
Proof.
  revert a. induction s as [|d s IH]; intros a; simpl.
  - intros [= <-]. split; [done|apply not_elem_of_nil].
  - case_bool_decide as Hd; [done|]. destruct (CutByte c s) as [a' o] eqn:E.
    intros [= <- ->]. destruct (IH a' eq_refl) as [-> Hn].
    split; [done|]. rewrite not_elem_of_cons. split; [congruence|done].
Qed.

Lemma CutByte_Some c s a b : CutByte c s = (a, Some b) -> s = a ++ c :: b /\ c ∉ a.
Proof.
  revert a. induction s as [|d s IH]; intros a; simpl; [done|].
  case_bool_decide as Hd.
  - intros [= <- <-]. subst d. split; [done|apply not_elem_of_nil].
  - destruct (CutByte c s) as [a' o] eqn:E. intros [= <- ->].
    destruct (IH a' eq_refl) as [-> Hn]. split; [done|].
    rewrite not_elem_of_cons. split; [congruence|done].
Qed.

(** ** Replacing *)

Lemma replace_byte c new s :
  ReplaceAll s [c] new = flat_map (fun d => if bool_decide (c = d) then new else [d]) s.
Proof.
  unfold ReplaceAll. induction s as [|d s IH]; [done|].
  cbn [replace_from HasPrefix length Nat.sub].
  cbn [flat_map]. rewrite andb_true_r. destruct (bool_decide (c = d)); simpl; by rewrite IH.
Qed.

Lemma replace_byte_app c new a b :
  ReplaceAll (a ++ b) [c] new = ReplaceAll a [c] new ++ ReplaceAll b [c] new.
Proof. rewrite !replace_byte. apply flat_map_app. Qed.

Lemma replace_byte_absent c new s : c ∉ s -> ReplaceAll s [c] new = s.
Proof.
  rewrite replace_byte. induction s as [|d s IH]; [done|].
  rewrite not_elem_of_cons. intros [Hd Hs]. simpl.
  rewrite bool_decide_false by congruence. simpl. f_equal. by apply IH.
Qed.

(** ** Order *)

#[export] Instance str_le_total : Total str_le.
Proof.
  intros a. unfold str_le. induction a as [|c a IH]; intros b; [by left|].
  destruct b as [|d b]; [by right|]. simpl.
  destruct (N.ltb_spec (b2n c) (b2n d)); [by left|].
  destruct (N.ltb_spec (b2n d) (b2n c)); [by right|]. apply IH.
Qed.

#[export] Instance str_le_trans : Transitive str_le.
Proof.
  intros a. unfold str_le. induction a as [|c a IH]; intros [|d b] [|e x]; simpl; try done.
  destruct (N.ltb_spec (b2n c) (b2n d)), (N.ltb_spec (b2n d) (b2n e)),
    (N.ltb_spec (b2n d) (b2n c)), (N.ltb_spec (b2n e) (b2n d)),
    (N.ltb_spec (b2n c) (b2n e)), (N.ltb_spec (b2n e) (b2n c)); try lia; try done.
  apply IH.
Qed.

#[export] Instance str_le_antisymm : AntiSymm (=) str_le.
Proof.
  intros a. unfold str_le. induction a as [|c a IH]; intros [|d b]; simpl; try done.
  destruct (N.ltb_spec (b2n c) (b2n d)), (N.ltb_spec (b2n d) (b2n c)); try lia; try done.
  intros H1 H2. f_equal; [apply b2n_inj; lia|by apply IH].
Qed.

Lemma sort_Strings_perm l : sort_Strings l ≡ₚ l.
Proof. apply merge_sort_Permutation. Qed.

Lemma sort_Strings_sorted l : Sorted str_le (sort_Strings l).
Proof. apply (Sorted_merge_sort _). Qed.

#[export] Instance by_key_total {R} (key : R -> str) : Total (by_key key).
Proof. intros x y. apply str_le_total. Qed.
#[export] Instance by_key_trans {R} (key : R -> str) : Transitive (by_key key).
Proof. intros x y z. apply str_le_trans. Qed.

Lemma by_key_sorted {R} (key : R -> str) l : Sorted (by_key key) (merge_sort (by_key key) l).
Proof. apply (Sorted_merge_sort _). Qed.

(** Rows with distinct keys have one order. *)
Lemma by_key_unique {R} (key : R -> str) l1 l2 :
  NoDup (map key l1) -> Sorted (by_key key) l1 -> Sorted (by_key key) l2 -> l1 ≡ₚ l2 -> l1 = l2.
Proof.
  intros Hnd Hs1 Hs2 Hp. apply (Sorted_unique_strong (by_key key)); [|done|done|done].
  intros x y Hx Hy Hxy Hyx. rewrite <- Hp in Hy. assert (Hk : key x = key y) by by apply (anti_symm str_le).
  apply list_elem_of_lookup_1 in Hx as [i Hi], Hy as [j Hj].
  assert (i = j) as ->; [|congruence]. apply (NoDup_lookup (map key l1) i j (key x)); [done|..];
    rewrite list_lookup_fmap; [by rewrite Hi|by rewrite Hj, Hk].
Qed.

(** Sorting erases the order in which a Go map was iterated. *)
Lemma sort_Strings_unique l1 l2 : l1 ≡ₚ l2 -> sort_Strings l1 = sort_Strings l2.
Proof.
  intros H. apply (Sorted_unique str_le); try apply sort_Strings_sorted.
  by rewrite !sort_Strings_perm.
Qed.

(** Trimming an ASCII text that starts and ends outside the class. *)
Lemma TrimFunc_ascii_fixed p c s d t :
  is_ascii (c :: s) = true -> p (b2n c) = false -> c :: s = t ++ [d] -> p (b2n d) = false ->
  TrimFunc p (c :: s) = c :: s.
Proof.
  intros Ha Hc Hd Hpd. assert (Hl : trim_segs p (c :: s) = decode (c :: s)).
  { unfold trim_segs. rewrite (decode_ascii _ Ha). cbn [map]. rewrite drop_while_none by done.
    change ((b2n c, [c]) :: map (fun c => (b2n c, [c])) s) with (map (fun c => (b2n c, [c])) (c :: s)). rewrite Hd.
    rewrite map_app. cbn [map]. unfold drop_while_end. rewrite rev_app_distr. cbn [rev app].
    rewrite drop_while_none by done. cbn [rev]. by rewrite rev_involutive. }
  unfold TrimFunc. by rewrite Hl, raw_decode.
Qed.

Lemma LastIndexByte_absent s c : c ∉ s -> LastIndexByte s c = (-1)%Z.
Proof.
  induction s as [|d s IH]; [done|]. rewrite not_elem_of_cons. intros [Hd Hs]. cbn [LastIndexByte]. rewrite (IH Hs).
  change (0 <=? -1)%Z with false. cbn iota. by rewrite bool_decide_eq_false_2.
Qed.

Lemma LastIndexByte_last a c b : c ∉ b -> LastIndexByte (a ++ c :: b) c = Z.of_nat (length a).
Proof.
  intros Hb. induction a as [|d a IH]; cbn [app LastIndexByte].
  - rewrite (LastIndexByte_absent _ _ Hb). change (0 <=? -1)%Z with false. cbn iota. by rewrite bool_decide_eq_true_2.
  - rewrite IH. destruct (Z.leb_spec 0 (Z.of_nat (length a))); [|lia]. cbn [length]. lia.
Qed.

Lemma slice_to_app a b : slice_to (a ++ b) (Z.of_nat (length a)) = a.
Proof. unfold slice_to. by rewrite Nat2Z.id, take_app_length. Qed.

Lemma slice_from_app a c b : slice_from (a ++ c :: b) (Z.of_nat (length a) + 1) = b.
Proof.
  unfold slice_from. replace (Z.to_nat (Z.of_nat (length a) + 1)) with (length (a ++ [c])) by (rewrite length_app; cbn; lia).
  change (a ++ c :: b) with (a ++ [c] ++ b). rewrite app_assoc. by rewrite drop_app_length.
Qed.

Lemma TrimSuffix_app s p : TrimSuffix (s ++ p) p = s.
Proof.
  unfold TrimSuffix. assert (Hs : HasSuffix (s ++ p) p = true) by (apply HasSuffix_true; by exists s).
  rewrite Hs, length_app. replace (length s + length p - length p)%nat with (length s) by lia. by rewrite take_app_length.
Qed.

(** * UTF-8: decoding and encoding are inverse on valid text

    A segment of a decoding is good unless it stands for an invalid byte.  Good
    segments decode to themselves in any context and their rune encodes to
    their bytes, so valid text is rebuilt from its runes. *)

Inductive good_seg : seg -> Prop :=
| good1 c : (b2n c < 128)%N -> good_seg (b2n c, [c])
| good2 c0 c1 r : dec2 (b2n c0) (b2n c1) = Some r -> good_seg (r, [c0; c1])
| good3 c0 c1 c2 r : dec3 (b2n c0) (b2n c1) (b2n c2) = Some r -> good_seg (r, [c0; c1; c2])
| good4 c0 c1 c2 c3 r : dec4 (b2n c0) (b2n c1) (b2n c2) (b2n c3) = Some r -> good_seg (r, [c0; c1; c2; c3]).

Lemma dec2_range x0 x1 r : dec2 x0 x1 = Some r ->
  (194 <= x0 <= 223 /\ 128 <= x1 <= 191 /\ r = (x0 - 192) * 64 + (x1 - 128))%N.
Proof. unfold dec2, is_cont, in_range. destruct (_ && _) eqn:E; [|done]. intros [= <-]. bool_simp. lia. Qed.

Lemma dec3_range x0 x1 x2 r : dec3 x0 x1 x2 = Some r ->
  (224 <= x0 <= 239 /\ 128 <= x1 <= 191 /\ 128 <= x2 <= 191
   /\ (x0 = 224 -> 160 <= x1) /\ (x0 = 237 -> x1 <= 159)
   /\ r = (x0 - 224) * 4096 + (x1 - 128) * 64 + (x2 - 128))%N.
Proof.
  unfold dec3, second3_ok, is_cont, in_range. destruct (_ && (_ && _)) eqn:E; [|done]. intros [= <-]. bool_simp.
  destruct (N.eqb_spec x0 224); [bool_simp; lia|]. destruct (N.eqb_spec x0 237); bool_simp; lia.
Qed.

Lemma dec4_range x0 x1 x2 x3 r : dec4 x0 x1 x2 x3 = Some r ->
  (240 <= x0 <= 244 /\ 128 <= x1 <= 191 /\ 128 <= x2 <= 191 /\ 128 <= x3 <= 191
   /\ (x0 = 240 -> 144 <= x1) /\ (x0 = 244 -> x1 <= 143)
   /\ r = (x0 - 240) * 262144 + (x1 - 128) * 4096 + (x2 - 128) * 64 + (x3 - 128))%N.
Proof.
  unfold dec4, second4_ok, is_cont, in_range. destruct (_ && _ && _) eqn:E; [|done]. intros [= <-]. bool_simp.
  destruct (N.eqb_spec x0 240); [bool_simp; lia|]. destruct (N.eqb_spec x0 244); bool_simp; lia.
Qed.

Lemma ltb_ge_false a b : (b <= a)%N -> (a <? b)%N = false.
Proof. apply N.ltb_ge. Qed.

(** The shorter forms fail on the first byte of a longer one. *)
Lemma dec2_none x0 x1 : (224 <= x0)%N -> dec2 x0 x1 = None.
Proof.
  intros Hx. unfold dec2, in_range. assert ((x0 <=? 223)%N = false) as -> by (apply N.leb_gt; lia).
  by rewrite andb_false_r.
Qed.
Lemma dec3_none x0 x1 x2 : (240 <= x0)%N -> dec3 x0 x1 x2 = None.
Proof.
  intros Hx. unfold dec3, second3_ok, in_range.
  assert ((x0 =? 224)%N = false) as -> by (apply N.eqb_neq; lia).
  assert ((x0 =? 237)%N = false) as -> by (apply N.eqb_neq; lia).
  assert ((x0 <=? 239)%N = false) as -> by (apply N.leb_gt; lia). by rewrite andb_false_r.
Qed.

Lemma decode_good g t : good_seg g -> decode (g.2 ++ t) = g :: decode t.
Proof.
  intros [c Hc|c0 c1 r Hd|c0 c1 c2 r Hd|c0 c1 c2 c3 r Hd]; cbn [snd app decode].
  - apply N.ltb_lt in Hc. by rewrite Hc.
  - pose proof (dec2_range _ _ _ Hd). rewrite ltb_ge_false by lia. by rewrite Hd.
  - pose proof (dec3_range _ _ _ _ Hd). rewrite ltb_ge_false, dec2_none by lia. by rewrite Hd.
  - pose proof (dec4_range _ _ _ _ _ Hd). rewrite ltb_ge_false, dec2_none, dec3_none by lia. by rewrite Hd.
Qed.

Lemma decode_good_segs l : Forall good_seg l -> decode (raw l) = l.
Proof.
  induction 1 as [|g l Hg _ IH]; [done|]. rewrite raw_cons, decode_good by done. by rewrite IH.
Qed.

Lemma ascii_eq c x : b2n c = x -> ascii_of_N x = c.
Proof. intros <-. apply ascii_of_b2n. Qed.

(** Division by the weights of a UTF-8 sequence. *)
Lemma div_digits a b m : (0 < m)%N -> (b < m)%N -> ((a * m + b) / m = a /\ (a * m + b) mod m = b)%N.
Proof.
  intros Hm Hb. split.
  - rewrite N.div_add_l by lia. rewrite N.div_small by done. lia.
  - rewrite N.add_comm, N.Div0.mod_add. by apply N.mod_small.
Qed.

Lemma encode_good g : good_seg g -> encode_rune g.1 = g.2.
Proof.
  intros [c Hc|c0 c1 r Hd|c0 c1 c2 r Hd|c0 c1 c2 c3 r Hd]; cbn [fst snd].
  - rewrite encode_rune_ascii by done. by rewrite ascii_of_b2n.
  - apply dec2_range in Hd as (H0 & H1 & ->). set (x := b2n c0) in *. set (y := b2n c1) in *.
    destruct (div_digits (x - 192) (y - 128) 64) as [D M]; [lia|lia|].
    unfold encode_rune. rewrite ltb_ge_false by lia.
    assert (((x - 192) * 64 + (y - 128) <? 2048)%N = true) as -> by (apply N.ltb_lt; lia).
    rewrite D, M. f_equal; [|f_equal]; apply ascii_eq; fold x y; lia.
  - apply dec3_range in Hd as (H0 & H1 & H2 & H3 & H4 & ->).
    set (x := b2n c0) in *. set (y := b2n c1) in *. set (z := b2n c2) in *.
    set (r := ((x - 224) * 4096 + (y - 128) * 64 + (z - 128))%N).
    assert (Hr : (r = ((x - 224) * 64 + (y - 128)) * 64 + (z - 128))%N) by (unfold r; lia).
    destruct (div_digits ((x - 224) * 64 + (y - 128)) (z - 128) 64) as [D M]; [lia|lia|].
    destruct (div_digits (x - 224) (y - 128) 64) as [D' M']; [lia|lia|].
    destruct (div_digits (x - 224) ((y - 128) * 64 + (z - 128)) 4096) as [D4 _]; [lia|lia|].
    assert (Hr4 : (r / 4096 = x - 224)%N) by (rewrite <- D4; f_equal; unfold r; lia).
    unfold encode_rune. rewrite ltb_ge_false by (unfold r; lia). rewrite ltb_ge_false by (unfold r; lia).
    assert (((1114111 <? r) || in_range 55296 57343 r)%N = false) as ->.
    { apply orb_false_iff. split; [apply N.ltb_ge; unfold r; lia|]. unfold in_range. apply andb_false_iff.
      destruct (N.le_gt_cases x 236); [left; apply N.leb_gt; unfold r; lia|].
      destruct (N.le_gt_cases 238 x); [right; apply N.leb_gt; unfold r; lia|left; apply N.leb_gt; unfold r; lia]. }
    assert ((r <? 65536)%N = true) as -> by (apply N.ltb_lt; unfold r; lia).
    rewrite Hr4, Hr, D, M, M'. repeat f_equal; apply ascii_eq; fold x y z; lia.
  - apply dec4_range in Hd as (H0 & H1 & H2 & H3 & H4 & H5 & ->).
    set (x := b2n c0) in *. set (y := b2n c1) in *. set (z := b2n c2) in *. set (w := b2n c3) in *.
    set (r := ((x - 240) * 262144 + (y - 128) * 4096 + (z - 128) * 64 + (w - 128))%N).
    assert (Hr : (r = (((x - 240) * 64 + (y - 128)) * 64 + (z - 128)) * 64 + (w - 128))%N) by (unfold r; lia).
    destruct (div_digits (((x - 240) * 64 + (y - 128)) * 64 + (z - 128)) (w - 128) 64) as [D1 M1]; [lia|lia|].
    destruct (div_digits ((x - 240) * 64 + (y - 128)) (z - 128) 64) as [D2 M2]; [lia|lia|].
    destruct (div_digits (x - 240) (y - 128) 64) as [D3 M3]; [lia|lia|].
    destruct (div_digits ((x - 240) * 64 + (y - 128)) ((z - 128) * 64 + (w - 128)) 4096) as [D4 _]; [lia|lia|].
    destruct (div_digits (x - 240) ((y - 128) * 4096 + (z - 128) * 64 + (w - 128)) 262144) as [D5 _]; [lia|lia|].
    assert (Hr4 : (r / 4096 = (x - 240) * 64 + (y - 128))%N) by (rewrite <- D4; f_equal; unfold r; lia).
    assert (Hr5 : (r / 262144 = x - 240)%N) by (rewrite <- D5; f_equal; unfold r; lia).
    unfold encode_rune. rewrite ltb_ge_false by (unfold r; lia). rewrite ltb_ge_false by (unfold r; lia).
    assert (((1114111 <? r) || in_range 55296 57343 r)%N = false) as ->.
    { apply orb_false_iff. split; [apply N.ltb_ge; unfold r; lia|]. unfold in_range. apply andb_false_iff.
      right. apply N.leb_gt. unfold r. lia. }
    rewrite ltb_ge_false by (unfold r; lia).
    rewrite Hr5, Hr4, Hr, D1, M1, M2, M3. repeat f_equal; apply ascii_eq; fold x y z w; lia.
Qed.

(** Every step of the decoder is good or marks an invalid byte. *)
Lemma decode_cases s :
  s <> [] -> (exists c t, s = c :: t /\ decode s = (rune_error, [c]) :: decode t)
             \/ exists g t, good_seg g /\ s = g.2 ++ t /\ decode s = g :: decode t.
Proof.
  destruct s as [|c0 t0]; [done|]. intros _. cbn [decode].
  destruct (b2n c0 <? 128)%N eqn:E0.
  { right. exists (b2n c0, [c0]), t0. split; [constructor; by apply N.ltb_lt|done]. }
  destruct t0 as [|c1 t1]; [left; by eexists _, _|].
  destruct (dec2 _ _) as [r|] eqn:E2; [right; exists (r, [c0; c1]), t1; split; [by constructor|done]|].
  destruct t1 as [|c2 t2]; [left; by eexists _, _|].
  destruct (dec3 _ _ _) as [r|] eqn:E3; [right; exists (r, [c0; c1; c2]), t2; split; [by constructor|done]|].
  destruct t2 as [|c3 t3]; [left; by eexists _, _|].
  destruct (dec4 _ _ _ _) as [r|] eqn:E4; [right; exists (r, [c0; c1; c2; c3]), t3; split; [by constructor|done]|].
  left. by eexists _, _.
Qed.

Lemma valid_utf8_good s : valid_utf8 s = true -> Forall good_seg (decode s).
Proof.
  unfold valid_utf8. induction s as [s IH] using str_len_ind. intros Hv.
  destruct (decide (s = [])) as [->|Hne]; [constructor|].
  destruct (decode_cases s Hne) as [(c & t & -> & E)|(g & t & Hg & -> & E)]; rewrite E in *;
    cbn [forallb] in Hv; apply andb_true_iff in Hv as [Hh Ht]; [done|].
  constructor; [done|]. apply IH; [|done]. destruct Hg; cbn [snd app length]; lia.
Qed.

Lemma encode_segs l : Forall good_seg l -> concat (map encode_rune (map fst l)) = raw l.
Proof.
  induction 1 as [|g l Hg _ IH]; [done|]. cbn [map concat]. by rewrite raw_cons, IH, encode_good.
Qed.

(** [string([]rune(s)) == s] for valid [s]. *)
Lemma encode_runes s : valid_utf8 s = true -> concat (map encode_rune (runes s)) = s.
Proof. intros Hv. unfold runes. rewrite encode_segs by by apply valid_utf8_good. apply raw_decode. Qed.
