(* ===== verification/GoJson.v ===== *)
(** * JSON values and the struct decodings the program uses

    [jsonb] columns reach the Go code as bytes; they are kept here as their
    JSON value, and [json.Unmarshal] starts from that value.  [None] stands for
    an empty byte slice, on which [json.Unmarshal] fails. *)

From S2P Require Import Prelude GoStrings GoStringsFacts.

Inductive json :=
| JNull
| JBool (b : bool)
| JNum (z : Z)
| JReal (literal : str)   (* a number literal with a fraction or an exponent *)
| JStr (s : str)
| JArr (l : list json)
| JObj (l : list (str * json)).

Definition bytes := option json.

(** Field names match exactly or under simple case folding, which also maps
    U+212A to [k] and U+017F to [s]. *)
Definition fold_rune (r : rune) : rune :=
  (if is_upper_ascii r then r + 32
   else if r =? 8490 then 107 else if r =? 383 then 115 else r)%N.
Definition field_match (name key : str) : bool :=
  bool_decide (map fold_rune (runes name) = map fold_rune (runes key)).

Definition unmarshal_error : goerror := ErrText "json: cannot unmarshal value into Go value".
Definition syntax_error : goerror := ErrText "unexpected end of JSON input".

(** Decodes an object into string fields: [acc] holds the values so far, in the
    order of [names].  A JSON null leaves a field unchanged, a value of another
    type is an error, unknown keys are ignored, later keys win. *)
Definition set_field (names : list str) (key v : str) (acc : list str) : list str :=
  zip_with (fun n old => if field_match n key then v else old) names acc.

Fixpoint decode_fields (names : list str) (fields : list (str * json)) (acc : list str)
    : result (list str) :=
  match fields with
  | [] => inl acc
  | (key, v) :: t =>
      if existsb (fun n => field_match n key) names then
        match v with
        | JStr s => decode_fields names t (set_field names key s acc)
        | JNull => decode_fields names t acc
        | _ => inr unmarshal_error
        end
      else decode_fields names t acc
  end.

Definition decode_struct (names : list str) (v : json) : result (list str) :=
  match v with
  | JObj fields => decode_fields names fields (map (fun _ => []) names)
  | JNull => inl (map (fun _ => []) names)
  | _ => inr unmarshal_error
  end.

Fixpoint decode_elements (names : list str) (l : list json) : result (list (list str)) :=
  match l with
  | [] => inl []
  | v :: t =>
      let? x := decode_struct names v in
      let? xs := decode_elements names t in
      inl (x :: xs)
  end.

(** [json.Unmarshal] into a slice of structs whose fields are strings. *)
Definition unmarshal_structs (names : list str) (raw : bytes) : result (list (list str)) :=
  match raw with
  | None => inr syntax_error
  | Some JNull => inl []
  | Some (JArr l) => decode_elements names l
  | Some _ => inr unmarshal_error
  end.

Definition field (l : list str) (i : nat) : str := nth i l [].

(** ** [json.Marshal] *)

Definition json_escape_byte (c : ascii) : str :=
  let x := b2n c in
  let bs := byte 92 in
  if (x =? 34)%N || (x =? 92)%N then bs ++ [c]
  else if (x =? 8)%N then bs ++ lit "b" else if (x =? 12)%N then bs ++ lit "f"
  else if (x =? 10)%N then bs ++ lit "n" else if (x =? 13)%N then bs ++ lit "r"
  else if (x =? 9)%N then bs ++ lit "t"
  else if (x <? 32)%N || (x =? 60)%N || (x =? 62)%N || (x =? 38)%N
  then bs ++ lit "u" ++ hex_fixed false 4 x else [c].

Definition json_escape_seg (sg : seg) : str :=
  let bs := byte 92 in
  match sg.2 with
  | [c] => if (b2n c <? 128)%N then json_escape_byte c else bs ++ lit "ufffd"
  | _ => if (sg.1 =? 8232)%N then bs ++ lit "u2028" else if (sg.1 =? 8233)%N then bs ++ lit "u2029" else sg.2
  end.

Definition json_string (s : str) : str := dquote ++ concat (map json_escape_seg (decode s)) ++ dquote.

Fixpoint json_Marshal (j : json) : str :=
  match j with
  | JNull => lit "null"
  | JBool b => if b then lit "true" else lit "false"
  | JNum z => fmt_d z
  | JReal literal => literal
  | JStr s => json_string s
  | JArr l => lit "[" ++ Join (map json_Marshal l) (lit ",") ++ lit "]"
  | JObj l => lit "{" ++ Join (map (fun p => json_string p.1 ++ lit ":" ++ json_Marshal p.2) l) (lit ",") ++ lit "}"
  end.

(** A Go map marshals with its keys sorted. *)
Definition json_map (l : list (str * json)) : json := JObj (merge_sort (by_key fst) l).

(** ** Induction and equality *)

Section JsonInd.
Variables (P : json -> Prop).
Hypotheses (Pnull : P JNull) (Pbool : forall b, P (JBool b)) (Pnum : forall z, P (JNum z))
  (Preal : forall l, P (JReal l)) (Pstr : forall s, P (JStr s))
  (Parr : forall l, Forall P l -> P (JArr l)) (Pobj : forall l, Forall (fun p : str * json => P p.2) l -> P (JObj l)).

Fixpoint json_nested_ind (j : json) : P j :=
  match j with
  | JNull => Pnull
  | JBool b => Pbool b
  | JNum z => Pnum z
  | JReal l => Preal l
  | JStr s => Pstr s
  | JArr l => Parr l ((fix go l : Forall P l :=
      match l with [] => Forall_nil_2 P | x :: t => Forall_cons_2 P x t (json_nested_ind x) (go t) end) l)
  | JObj l => Pobj l ((fix go (l : list (str * json)) : Forall (fun p : str * json => P p.2) l :=
      match l with [] => Forall_nil_2 _ | x :: t => Forall_cons_2 _ x t (json_nested_ind x.2) (go t) end) l)
  end.
End JsonInd.

Fixpoint json_eqb (x y : json) : bool :=
  match x, y with
  | JNull, JNull => true
  | JBool b, JBool b' => Bool.eqb b b'
  | JNum z, JNum z' => (z =? z')%Z
  | JReal s, JReal s' | JStr s, JStr s' => s =s s'
  | JArr l, JArr l' =>
      (fix go (l l' : list json) : bool :=
         match l, l' with
         | [], [] => true
         | a :: t, a' :: t' => json_eqb a a' && go t t'
         | _, _ => false
         end) l l'
  | JObj l, JObj l' =>
      (fix go (l l' : list (str * json)) : bool :=
         match l, l' with
         | [], [] => true
         | (k, a) :: t, (k', a') :: t' => (k =s k') && json_eqb a a' && go t t'
         | _, _ => false
         end) l l'
  | _, _ => false
  end.

Lemma json_eqb_eq x y : json_eqb x y = true <-> x = y.
Proof.
  revert y. induction x as [|b|z|r|s|l IH|l IH] using json_nested_ind; intros [|b'|z'|r'|s'|l'|l'];
    cbn [json_eqb]; try (split; congruence).
  - rewrite Bool.eqb_true_iff. split; congruence.
  - rewrite Z.eqb_eq. split; congruence.
  - rewrite str_eqb_eq. split; congruence.
  - rewrite str_eqb_eq. split; congruence.
  - revert l'. induction IH as [|a t Ha _ IHt]; intros [|a' t']; try (split; congruence).
    rewrite andb_true_iff, Ha, IHt. split; [intros [-> [= ->]]; done|by intros [= -> ->]].
  - revert l'. induction IH as [|[k a] t Ha _ IHt]; intros [|[k' a'] t']; try (split; congruence).
    rewrite !andb_true_iff, str_eqb_eq, Ha, IHt. cbn [snd].
    split; [intros [[-> ->] [= ->]]; done|by intros [= -> -> ->]].
Qed.

(** * encoding/json: reading JSON text

    The scanner and the value decoder of [json.Decoder], on byte lists: strings
    with their escapes and surrogate pairs, number literals, nesting up to
    10000 levels.  [Decode] reads the next value of a stream and leaves the
    rest, as [json.Decoder.Decode] does. *)

(** ** Strings *)

Definition is_ws (c : ascii) : bool :=
  let x := b2n c in ((x =? 32) || (x =? 9) || (x =? 10) || (x =? 13))%N.
Definition skip_ws (s : str) : str := drop_while is_ws s.

Definition hex_rune (r : rune) : option N :=
  (if is_digit r then Some (r - 48) else if in_range 97 102 r then Some (r - 87)
   else if in_range 65 70 r then Some (r - 55) else None)%N.

(** States of the string scanner: inside the text, after a backslash, and with
    [n] hexadecimal digits of a [\u] escape still to come. *)
Inductive string_state := SText | SEsc | SHex (n : nat).

Inductive scan_result := SDone (body rest : str) | SEnd | SBad.

Definition escape_char (x : N) : bool :=
  existsb (N.eqb x) [98; 102; 110; 114; 116; 92; 47; 34]%N.

(** The body of a string literal, up to its closing quote. *)
Fixpoint scan_string (st : string_state) (s : str) : scan_result :=
  match s with
  | [] => SEnd
  | c :: t =>
      let x := b2n c in
      let continue st' :=
        match scan_string st' t with SDone body rest => SDone (c :: body) rest | r => r end in
      match st with
      | SText => if (x =? 34)%N then SDone [] t
                 else if (x =? 92)%N then continue SEsc
                 else if (x <? 32)%N then SBad else continue SText
      | SEsc => if escape_char x then continue SText
                else if (x =? 117)%N then continue (SHex 4) else SBad
      | SHex n => match hex_rune x with
                  | Some _ => continue (match n with S (S m) => SHex (S m) | _ => SText end)
                  | None => SBad
                  end
      end
  end.

Definition getu4 (a b c d : rune) : option N :=
  x ← hex_rune a; y ← hex_rune b; z ← hex_rune c; w ← hex_rune d;
  Some (x * 4096 + y * 256 + z * 16 + w)%N.

Definition is_surrogate (r : rune) : bool := in_range 55296 57343 r.

(** [utf16.DecodeRune]; [None] when the two are not a pair. *)
Definition utf16_pair (r1 r2 : rune) : option rune :=
  if in_range 55296 56319 r1 && in_range 56320 57343 r2
  then Some ((r1 - 55296) * 1024 + (r2 - 56320) + 65536)%N else None.

Definition unescape_char (x : N) : N :=
  (if x =? 98 then 8 else if x =? 102 then 12 else if x =? 110 then 10
   else if x =? 114 then 13 else if x =? 116 then 9 else x)%N.

(** [unquote], on the runes of the body: invalid UTF-8 already is U+FFFD. *)
Fixpoint unquote_runes (l : list rune) : list rune :=
  match l with
  | [] => []
  | x :: t =>
      if (x =? 92)%N then
        match t with
        | u :: t1 =>
            if (u =? 117)%N then
              match t1 with
              | a :: b :: c :: d :: t2 =>
                  match getu4 a b c d with
                  | Some rr =>
                      if is_surrogate rr then
                        match t2 with
                        | b1 :: b2 :: e :: f :: g :: h :: t3 =>
                            if (b1 =? 92)%N && (b2 =? 117)%N then
                              match getu4 e f g h with
                              | Some rr1 =>
                                  match utf16_pair rr rr1 with
                                  | Some r => r :: unquote_runes t3
                                  | None => rune_error :: unquote_runes t2
                                  end
                              | None => rune_error :: unquote_runes t2
                              end
                            else rune_error :: unquote_runes t2
                        | _ => rune_error :: unquote_runes t2
                        end
                      else rr :: unquote_runes t2
                  | None => []
                  end
              | _ => []
              end
            else unescape_char u :: unquote_runes t1
        | [] => []
        end
      else x :: unquote_runes t
  end.

Definition unquote (body : str) : str := concat (map encode_rune (unquote_runes (runes body))).

(** ** Numbers *)

Definition is_dig (c : ascii) : bool := is_digit (b2n c).
Definition digits_value (s : str) : Z :=
  fold_left (fun acc c => (acc * 10 + Z.of_N (b2n c - 48))%Z) s 0%Z.

Inductive num_result := NDone (v : json) (rest : str) | NEnd | NBad.

(** The exponent and what follows; [lit_so_far] is what was read before it. *)
Definition scan_exponent (integer : option Z) (before s : str) : num_result :=
  match s with
  | e :: t =>
      if (b2n e =? 101)%N || (b2n e =? 69)%N then
        let '(sign, t1) := match t with
          | c :: u => if (b2n c =? 43)%N || (b2n c =? 45)%N then ([c], u) else ([], t)
          | [] => ([], t) end in
        match t1 with
        | [] => NEnd
        | d :: _ => if is_dig d
                    then NDone (JReal (before ++ [e] ++ sign ++ take_while is_dig t1)) (drop_while is_dig t1)
                    else NBad
        end
      else NDone (match integer with Some z => JNum z | None => JReal before end) s
  | [] => NDone (match integer with Some z => JNum z | None => JReal before end) s
  end.

Definition scan_fraction (integer : Z) (before s : str) : num_result :=
  match s with
  | p :: t =>
      if (b2n p =? 46)%N then
        match t with
        | [] => NEnd
        | d :: _ => if is_dig d
                    then scan_exponent None (before ++ [p] ++ take_while is_dig t) (drop_while is_dig t)
                    else NBad
        end
      else scan_exponent (Some integer) before s
  | [] => scan_exponent (Some integer) before s
  end.

Definition scan_number (s : str) : num_result :=
  let '(neg, t) := match s with
    | c :: u => if (b2n c =? 45)%N then (true, u) else (false, s)
    | [] => (false, s) end in
  let sign : str := if neg then lit "-" else [] in
  let value (z : Z) := if neg then (- z)%Z else z in
  match t with
  | [] => NEnd
  | d :: u =>
      if (b2n d =? 48)%N then scan_fraction 0 (sign ++ [d]) u
      else if is_dig d
      then let ds := take_while is_dig t in
           scan_fraction (value (digits_value ds)) (sign ++ ds) (drop_while is_dig t)
      else NBad
  end.

(** ** Values *)

Inductive parse_result :=
| PVal (v : json) (rest : str)
| PEnd      (* the input ends inside a value *)
| PBad      (* a syntax error *)
| PFuel.    (* never reached with enough fuel, see [parse_enough] *)

Fixpoint scan_literal (word : str) (v : json) (s : str) : parse_result :=
  match word, s with
  | [], _ => PVal v s
  | _, [] => PEnd
  | w :: word', c :: t => if bool_decide (w = c) then scan_literal word' v t else PBad
  end.

Definition maxNestingDepth : N := 10000.

Fixpoint parse_value (fuel : nat) (depth : N) (s : str) : parse_result :=
  match fuel with
  | O => PFuel
  | S fuel =>
      match skip_ws s with
      | [] => PEnd
      | c :: t =>
          let x := b2n c in
          if (x =? 34)%N then
            match scan_string SText t with
            | SDone body rest => PVal (JStr (unquote body)) rest
            | SEnd => PEnd | SBad => PBad
            end
          else if (x =? 123)%N then
            if (maxNestingDepth <? depth + 1)%N then PBad
            else match skip_ws t with
                 | [] => PEnd
                 | c1 :: t1 => if (b2n c1 =? 125)%N then PVal (JObj []) t1
                               else parse_members fuel (depth + 1) [] (c1 :: t1)
                 end
          else if (x =? 91)%N then
            if (maxNestingDepth <? depth + 1)%N then PBad
            else match skip_ws t with
                 | [] => PEnd
                 | c1 :: t1 => if (b2n c1 =? 93)%N then PVal (JArr []) t1
                               else parse_elements fuel (depth + 1) [] (c1 :: t1)
                 end
          else if (x =? 45)%N || is_digit x then
            match scan_number (c :: t) with NDone v rest => PVal v rest | NEnd => PEnd | NBad => PBad end
          else if (x =? 116)%N then scan_literal (lit "true") (JBool true) (c :: t)
          else if (x =? 102)%N then scan_literal (lit "false") (JBool false) (c :: t)
          else if (x =? 110)%N then scan_literal (lit "null") JNull (c :: t)
          else PBad
      end
  end
with parse_members (fuel : nat) (depth : N) (acc : list (str * json)) (s : str) : parse_result :=
  match fuel with
  | O => PFuel
  | S fuel =>
      match skip_ws s with
      | [] => PEnd
      | q :: t =>
          if (b2n q =? 34)%N then
            match scan_string SText t with
            | SEnd => PEnd | SBad => PBad
            | SDone body t1 =>
                match skip_ws t1 with
                | [] => PEnd
                | colon :: t2 =>
                    if (b2n colon =? 58)%N then
                      match parse_value fuel depth t2 with
                      | PVal v t3 =>
                          match skip_ws t3 with
                          | [] => PEnd
                          | c :: t4 =>
                              if (b2n c =? 44)%N then parse_members fuel depth (acc ++ [(unquote body, v)]) t4
                              else if (b2n c =? 125)%N then PVal (JObj (acc ++ [(unquote body, v)])) t4
                              else PBad
                          end
                      | r => r
                      end
                    else PBad
                end
            end
          else PBad
      end
  end
with parse_elements (fuel : nat) (depth : N) (acc : list json) (s : str) : parse_result :=
  match fuel with
  | O => PFuel
  | S fuel =>
      match parse_value fuel depth s with
      | PVal v t =>
          match skip_ws t with
          | [] => PEnd
          | c :: t1 =>
              if (b2n c =? 44)%N then parse_elements fuel depth (acc ++ [v]) t1
              else if (b2n c =? 93)%N then PVal (JArr (acc ++ [v])) t1
              else PBad
          end
      | r => r
      end
  end.

(** Enough fuel for a text: every call but those of [parse_elements] consumes a
    byte. *)
Definition parse_fuel (s : str) : nat := S (2 * length s).

(** [json.Decoder.Decode] into a value: the value and the rest of the stream. *)
Definition Decode (s : str) : result (json * str) :=
  match skip_ws s with
  | [] => inr ErrEOF
  | _ :: _ =>
      match parse_value (parse_fuel s) 0 s with
      | PVal v rest => inl (v, rest)
      | PEnd => inr (ErrText "unexpected EOF")
      | PBad | PFuel => inr (ErrText "invalid character")
      end
  end.

(** Assigning to a struct of string fields with [DisallowUnknownFields]. *)
Definition unknown_field (names : list str) (v : json) : bool :=
  match v with
  | JObj fields => existsb (fun p => negb (existsb (fun n => field_match n p.1) names)) fields
  | _ => false
  end.

Definition decode_struct_strict (names : list str) (v : json) : result (list str) :=
  let? fields := decode_struct names v in
  if unknown_field names v then inr (ErrText "json: unknown field") else inl fields.
