(* ===== verification/GoFloat.v ===== *)
(** * float64 in JSON

    encoding/json decodes a number of an [any] into a float64 and encodes it with
    the fewest digits that read back as the same number.  The numbers are those of
    the standard library's specification of IEEE 754 floating point. *)

From Stdlib Require Import SpecFloat.
From S2P Require Import Prelude GoStrings GoJson.

Open Scope Z_scope.

Definition prec : Z := 53.
Definition emax : Z := 1024.

Definition spec_float_eqb (x y : spec_float) : bool :=
  match x, y with
  | S754_zero a, S754_zero b | S754_infinity a, S754_infinity b => Bool.eqb a b
  | S754_nan, S754_nan => true
  | S754_finite a m e, S754_finite b m' e' => Bool.eqb a b && (m =? m')%positive && (e =? e')
  | _, _ => false
  end.

(** ** Reading

    [strconv.ParseFloat]: the float64 nearest to [m * 10^e].  Beyond the two bounds
    the result is infinite or zero whatever the digits are. *)

Definition num_digits (m : Z) : Z := Z.of_nat (length (fmt_d (Z.abs m))).

Definition float_of_decimal (negative : bool) (m : Z) (e : Z) : spec_float :=
  match m with
  | Zpos p =>
      if 400 <? e then S754_infinity negative
      else if num_digits m + e <? -400 then S754_zero negative
      else if 0 <=? e then binary_normalize prec emax (if negative then - (m * 10 ^ e) else m * 10 ^ e) 0 negative
      else let '(mz, ez, lz) := SFdiv_core_binary prec emax m 0 (10 ^ (- e)) 0 in
           binary_round_aux prec emax negative mz ez lz
  | _ => S754_zero negative
  end.

(** The digits of a literal with a fraction or an exponent. *)
Definition literal_parts (literal : str) : bool * Z * Z :=
  let '(negative, t) := match literal with
    | c :: u => if (b2n c =? 45)%N then (true, u) else (false, literal)
    | [] => (false, []) end in
  let whole := take_while is_dig t in
  let t := drop_while is_dig t in
  let '(fraction, t) := match t with
    | c :: u => if (b2n c =? 46)%N then (take_while is_dig u, drop_while is_dig u) else ([], t)
    | [] => ([], []) end in
  let exponent := match t with
    | _ :: c :: u => if (b2n c =? 45)%N then - digits_value u
                     else if (b2n c =? 43)%N then digits_value u else digits_value (c :: u)
    | _ => 0 end in
  (negative, digits_value (whole ++ fraction), exponent - Z.of_nat (length fraction)).

(** A number as a float64; a number that is too large is an error. *)
Definition float_of_number (v : json) : result spec_float :=
  let x := match v with
    | JNum z => float_of_decimal (z <? 0) (Z.abs z) 0
    | JReal literal => let '(negative, m, e) := literal_parts literal in float_of_decimal negative m e
    | _ => S754_nan
    end in
  match x with S754_infinity _ | S754_nan => inr unmarshal_error | x => inl x end.

(** ** Writing *)

(** [m * 2^e] as a fraction. *)
Definition fraction_of (m : positive) (e : Z) : Z * Z := if 0 <=? e then (Zpos m * 2 ^ e, 1) else (Zpos m, 2 ^ (- e)).

(** [a * 10^k / b] rounded to an integer, halves to even. *)
Definition scaled (a b k : Z) : Z :=
  let a := if 0 <=? k then a * 10 ^ k else a in
  let b := if 0 <=? k then b else b * 10 ^ (- k) in
  let q := a / b in let r := 2 * (a mod b) in
  if r <? b then q else if b <? r then q + 1 else if Z.even q then q else q + 1.

(** The power of ten of the first digit. *)
Definition magnitude (a b : Z) : Z :=
  let k := num_digits b - num_digits a in
  let enough := if 0 <=? k then b <=? a * 10 ^ k else b * 10 ^ (- k) <=? a in
  if enough then - k else - k - 1.

(** The first number of digits, at most 17, that reads back as the same float64. *)
Fixpoint shortest (fuel : nat) (x : spec_float) (negative : bool) (a b p n : Z) : Z * Z :=
  let d := (scaled a b (n - 1 - p), p - n + 1) in
  match fuel with
  | O => d
  | S fuel => if spec_float_eqb (float_of_decimal negative d.1 d.2) x then d else shortest fuel x negative a b p (n + 1)
  end.

(** Without the zeros at the end. *)
Fixpoint strip_zeros (fuel : nat) (d e : Z) : Z * Z :=
  match fuel with
  | O => (d, e)
  | S fuel => if (d mod 10 =? 0) && negb (d =? 0) then strip_zeros fuel (d / 10) (e + 1) else (d, e)
  end.

(** The shortest digits and the position of the decimal point among them. *)
Definition shortest_digits (negative : bool) (m : positive) (e : Z) : str * Z :=
  let '(a, b) := fraction_of m e in
  let '(d, q) := shortest 16 (S754_finite negative m e) negative a b (magnitude a b) 1 in
  let '(d, q) := strip_zeros 18 d q in
  (fmt_d d, Z.of_nat (length (fmt_d d)) + q).

Definition zeros (n : Z) : str := repeat "0"%char (Z.to_nat n).

(** The forms f and e of strconv, with all the digits. *)
Definition fixed_form (digits : str) (point : Z) : str :=
  let n := Z.of_nat (length digits) in
  if n <=? point then digits ++ zeros (point - n)
  else if 0 <? point then take (Z.to_nat point) digits ++ lit "." ++ drop (Z.to_nat point) digits
  else lit "0." ++ zeros (- point) ++ digits.
Definition exponent_form (padded : bool) (digits : str) (point : Z) : str :=
  let k := point - 1 in
  let exponent := fmt_d (Z.abs k) in
  match digits with [c] => [c] | c :: t => c :: lit "." ++ t | [] => [] end
  ++ lit "e" ++ (if k <? 0 then lit "-" else lit "+")
  ++ (if padded && (length exponent =? 1)%nat then lit "0" else []) ++ exponent.

(** [floatEncoder]: the decimal form between 1e-6 and 1e21, otherwise an exponent. *)
Definition marshal_float (x : spec_float) : json :=
  match x with
  | S754_finite negative m e =>
      let '(digits, point) := shortest_digits negative m e in
      let sign : str := if negative then lit "-" else [] in
      if negb (SFltb (SFabs x) (float_of_decimal false 1 (-6))) && SFltb (SFabs x) (float_of_decimal false 1 21) then
        if Z.of_nat (length digits) <=? point
        then JNum (let z := digits_value (fixed_form digits point) in if negative then - z else z)
        else JReal (sign ++ fixed_form digits point)
      else JReal (sign ++ exponent_form false digits point)
  | S754_zero true => JReal (lit "-0")
  | _ => JNum 0
  end.

(** [fmt.Sprint]: the form g, with an exponent from a million on. *)
Definition sprint_float (x : spec_float) : str :=
  match x with
  | S754_finite negative m e =>
      let '(digits, point) := shortest_digits negative m e in
      (if negative then lit "-" else [])
      ++ (if (point - 1 <? -4) || (6 <=? point - 1) then exponent_form true digits point else fixed_form digits point)
  | S754_zero negative => if negative then lit "-0" else lit "0"
  | S754_infinity negative => if negative then lit "-Inf" else lit "+Inf"
  | S754_nan => lit "NaN"
  end.

(** A number after a passage through an [any]. *)
Definition float_number (v : json) : result json := let? x := float_of_number v in inl (marshal_float x).

Example floats_printed :
  map (fun s => json_Marshal (match float_number (JReal (lit s)) with inl v => v | inr _ => JNull end))
    ["0.1"; "1e21"; "1e-7"; "123456789012345678901"; "5e-324"; "1.7976931348623157e308"; "1e400"; "0.30000000000000004";
     "100.50"; "2.5e-6"; "1e23"; "4.35"; "9007199254740993.0"; "-0.000001"; "999999999999999999999"; "0.00"; "-0"; "1.5E3"]%string
  = map (fun s : string => lit s)
    ["0.1"; "1e+21"; "1e-7"; "123456789012345680000"; "5e-324"; "1.7976931348623157e+308"; "null"; "0.30000000000000004";
     "100.5"; "0.0000025"; "1e+23"; "4.35"; "9007199254740992"; "-0.000001"; "1e+21"; "0"; "-0"; "1500"]%string.
Proof. vm_compute. reflexivity. Qed.

(** ** strconv.ParseFloat

    The syntax of floating-point literals of Go, decimal and hexadecimal, with
    underscores between digits; Inf, Infinity and NaN in any case. *)

Definition lower_byte (c : ascii) : N := N.lor (b2n c) 32.
Definition is_hex_digit (c : ascii) : bool := is_dig c || in_range 97 102 (lower_byte c).
Definition hex_digit_value (c : ascii) : Z := Z.of_N (if is_dig c then b2n c - 48 else lower_byte c - 87).

(** The digits of a mantissa: their value, the number after the point, whether there was
    a point, a digit and an underscore, and the rest. *)
Record Mantissa := { man_value : Z; man_scale : Z; man_digits : bool; man_underscores : bool; man_rest : str }.

Fixpoint read_mantissa (hex dot : bool) (value scale : Z) (digits underscores : bool) (s : str) : Mantissa :=
  let stop := {| man_value := value; man_scale := scale; man_digits := digits; man_underscores := underscores; man_rest := s |} in
  match s with
  | [] => stop
  | c :: t =>
      if (b2n c =? 95)%N then read_mantissa hex dot value scale digits true t
      else if (b2n c =? 46)%N then if dot then stop else read_mantissa hex true value scale digits underscores t
      else if is_dig c || (hex && is_hex_digit c) then
        read_mantissa hex dot (value * (if hex then 16 else 10) + hex_digit_value c) (if dot then scale + 1 else scale)
          true underscores t
      else stop
  end.

(** The digits of an exponent, capped as in the source of strconv. *)
Fixpoint read_exponent (e : Z) (underscores : bool) (s : str) : Z * bool * str :=
  match s with
  | [] => (e, underscores, [])
  | c :: t =>
      if is_dig c then read_exponent (if e <? 10000 then e * 10 + hex_digit_value c else e) underscores t
      else if (b2n c =? 95)%N then read_exponent e true t
      else (e, underscores, s)
  end.

(** [underscoreOK]: every underscore is between two digits; the prefix of a base counts
    as a digit. *)
Fixpoint underscores_between (hex : bool) (previous : N) (s : str) : bool :=
  match s with
  | [] => negb (previous =? 95)%N
  | c :: t =>
      if is_dig c || (hex && is_hex_digit c) then underscores_between hex 48 t
      else if (b2n c =? 95)%N then (previous =? 48)%N && underscores_between hex 95 t
      else negb (previous =? 95)%N && underscores_between hex 33 t
  end.

Definition cut_sign (s : str) : bool * str :=
  match s with
  | c :: t => if (b2n c =? 45)%N then (true, t) else if (b2n c =? 43)%N then (false, t) else (false, s)
  | [] => (false, [])
  end.
Definition cut_base (s : str) : bool * str :=
  match s with
  | z :: x :: t => if (b2n z =? 48)%N && (lower_byte x =? 120)%N then (true, t) else (false, s)
  | _ => (false, s)
  end.
Definition underscoreOK (s : str) : bool :=
  let s := (cut_sign s).2 in
  match s with
  | z :: x :: t =>
      if (b2n z =? 48)%N && existsb (N.eqb (lower_byte x)) [98; 111; 120]%N
      then underscores_between (lower_byte x =? 120)%N 48 t else underscores_between false 94 s
  | _ => underscores_between false 94 s
  end.

Definition float_of_hex (negative : bool) (m e : Z) : spec_float :=
  if m =? 0 then S754_zero negative
  else if 20000 <? e then S754_infinity negative
  else binary_normalize prec emax (if negative then - m else m) e negative.

(** [None] is a syntax error; a number that is too large is an infinity here. *)
Definition read_float (s : str) : option spec_float :=
  let '(negative, body) := cut_sign s in
  let '(hex, body) := match body with _ :: _ :: _ :: _ => cut_base body | _ => (false, body) end in
  let m := read_mantissa hex false 0 0 false false body in
  if negb (man_digits m) then None
  else
    let finish e underscores rest :=
      if negb (rest =s []) || (underscores && negb (underscoreOK s)) then None
      else Some (if hex : bool then float_of_hex negative (man_value m) (e - 4 * man_scale m)
                 else float_of_decimal negative (man_value m) (e - man_scale m)) in
    match man_rest m with
    | c :: t =>
        if (lower_byte c =? (if hex then 112 else 101))%N then
          let '(minus, t) := cut_sign t in
          match t with
          | d :: _ =>
              if is_dig d then
                let '(e, underscores, rest) := read_exponent 0 (man_underscores m) t in
                finish (if minus : bool then - e else e) underscores rest
              else None
          | [] => None
          end
        else None
    | [] => if hex then None else finish 0 (man_underscores m) []
    end.

Definition equal_lower (s : str) (word : str) : bool := bool_decide (map lower_byte s = map b2n word).
Definition special_float (s : str) : option spec_float :=
  let '(negative, t) := cut_sign s in
  if equal_lower t (lit "inf") || equal_lower t (lit "infinity") then Some (S754_infinity negative)
  else if equal_lower s (lit "nan") then Some S754_nan
  else None.

Definition num_error `{UnicodeTables} (s : str) (cause : string) : goerror :=
  ErrText (lit "strconv.ParseFloat: parsing " ++ fmt_q s ++ lit ": " ++ lit cause).

Definition ParseFloat `{UnicodeTables} (s : str) : result spec_float :=
  match special_float s with
  | Some x => inl x
  | None =>
      match read_float s with
      | None => inr (num_error s "invalid syntax")
      | Some (S754_infinity _) => inr (num_error s "value out of range")
      | Some x => inl x
      end
  end.

Example floats_read :
  map (fun s => match @ParseFloat ascii_tables (lit s) with inl x => sprint_float x | inr _ => lit "error" end)
    ["12.50"; "-0.25"; "+7"; ".5"; "5."; "."; "1e2"; "1E+2"; "1e"; "1_0.5"; "1__0"; "_1"; "0x1p-2"; "0x1.8p1"; "0x1"; "1e400";
     "1e-400"; "-inf"; "Infinity"; "nan"; "+nan"; "12a"; ""; "0x_1p4"; "1e1_0"]%string
  = map (fun s : string => lit s)
    ["12.5"; "-0.25"; "7"; "0.5"; "5"; "error"; "100"; "100"; "error"; "10.5"; "error"; "error"; "0.25"; "3"; "error"; "error";
     "0"; "-Inf"; "+Inf"; "NaN"; "error"; "error"; "error"; "16"; "1e+10"]%string.
Proof. vm_compute. reflexivity. Qed.

(** ** Percentages in hundredths

    [int64(math.Round(value * 100))] of a value between 0 and 100. *)

Definition float_of_int (z : Z) : spec_float := float_of_decimal (z <? 0) (Z.abs z) 0.

(** [math.Round]: half away from zero. *)
Definition round_half_away (x : spec_float) : Z :=
  match x with
  | S754_finite negative m e =>
      let a := if 0 <=? e then Zpos m * 2 ^ e else (Zpos m + 2 ^ (- e - 1)) / 2 ^ (- e) in
      if negative then - a else a
  | _ => 0
  end.

(** The mantissa of a float64. *)
Definition mantissa_ok (x : spec_float) : Prop := match x with S754_finite _ m _ => Zpos m < 2 ^ 53 | _ => True end.

Lemma digits2_bounds p : 2 ^ (Zpos (digits2_pos p) - 1) <= Zpos p < 2 ^ Zpos (digits2_pos p).
Proof.
  induction p as [p [IHl IHu]|p [IHl IHu]|]; cbn [digits2_pos]; [| |cbn; lia]; rewrite Pos2Z.inj_succ.
  all: replace (Z.succ (Zpos (digits2_pos p)) - 1) with (Z.succ (Zpos (digits2_pos p) - 1)) by lia.
  all: rewrite !Z.pow_succ_r by lia; lia.
Qed.

Lemma digits2_le p k : 0 <= k -> Zpos p < 2 ^ k -> Zpos (digits2_pos p) <= k.
Proof.
  intros Hk Hp. pose proof (digits2_bounds p) as [Hl _].
  assert (2 ^ (Zpos (digits2_pos p) - 1) < 2 ^ k) as Hlt by lia. apply Z.pow_lt_mono_r_iff in Hlt; lia.
Qed.

(** A shift to the right divides, and remembers whether something was lost. *)
Definition shifted (m0 k : Z) (mrs : shr_record) : Prop :=
  0 <= shr_m mrs /\ shr_m mrs = m0 / 2 ^ k /\ (shr_r mrs || shr_s mrs = true -> shr_m mrs * 2 ^ k < m0).

Lemma shr_1_m mrs : 0 <= shr_m mrs ->
  shr_m (shr_1 mrs) = shr_m mrs / 2 /\ shr_r (shr_1 mrs) = Z.odd (shr_m mrs) /\ shr_s (shr_1 mrs) = shr_r mrs || shr_s mrs.
Proof.
  destruct mrs as [m r s]. cbn [shr_m shr_r shr_s]. intros Hm. destruct m as [|[p|p|]|p]; try lia; cbn; repeat split; try done.
  - rewrite (Pos2Z.inj_xI p), Z.add_comm, Z.mul_comm, Z.div_add by lia. done.
  - by rewrite (Pos2Z.inj_xO p), Z.mul_comm, Z.div_mul by lia.
Qed.

Lemma shr_1_shifted m0 k mrs : 0 <= k -> 0 <= m0 -> shifted m0 k mrs -> shifted m0 (k + 1) (shr_1 mrs).
Proof.
  intros Hk Hm0 (Hm & Hd & Hr). destruct (shr_1_m mrs Hm) as (E1 & E2 & E3). unfold shifted. rewrite E1, E2, E3.
  assert (0 < 2 ^ k) as Hpow by (apply Z.pow_pos_nonneg; lia).
  rewrite Z.pow_add_r, Z.pow_1_r by lia.
  pose proof (Z.div_mod (shr_m mrs) 2 ltac:(lia)) as Hdm. pose proof (Z.mod_pos_bound (shr_m mrs) 2 ltac:(lia)) as Hmod.
  assert (shr_m mrs * 2 ^ k <= m0) as Hle by (rewrite Hd, Z.mul_comm; apply Z.mul_div_le; lia).
  split; [lia|]. split; [rewrite Hd, Z.div_div by lia; done|].
  intros [Hodd|Hrs]%orb_true_iff.
  - apply Z.odd_spec in Hodd as [q Hq]. nia.
  - specialize (Hr Hrs). nia.
Qed.

Lemma iter_pos_shifted p m0 k mrs : 0 <= k -> 0 <= m0 -> shifted m0 k mrs -> shifted m0 (k + Zpos p) (SpecFloat.iter_pos shr_1 p mrs).
Proof.
  revert k mrs. induction p as [p IH|p IH|]; intros k mrs Hk Hm0 Hs; cbn [SpecFloat.iter_pos].
  - replace (k + Zpos p~1) with (k + 1 + Zpos p + Zpos p) by lia. apply IH; [lia..|]. apply IH; [lia..|]. by apply shr_1_shifted.
  - replace (k + Zpos p~0) with (k + Zpos p + Zpos p) by lia. apply IH; [lia..|]. by apply IH.
  - by apply shr_1_shifted.
Qed.

Lemma shr_exact m e n : 0 <= m ->
  shifted m (Z.max n 0) (shr {| shr_m := m; shr_r := false; shr_s := false |} e n).1
  /\ (shr {| shr_m := m; shr_r := false; shr_s := false |} e n).2 = e + Z.max n 0.
Proof.
  intros Hm. assert (shifted m 0 {| shr_m := m; shr_r := false; shr_s := false |}) as H0
    by (repeat split; cbn; [lia|by rewrite Z.div_1_r|done]).
  destruct n as [|p|p]; cbn [shr fst snd]; split; try (cbn; lia); try exact H0. cbn. by apply (iter_pos_shifted p m 0).
Qed.

Lemma shifted_round m0 k mrs : shifted m0 k mrs -> 0 <= k ->
  0 <= round_nearest_even (shr_m mrs) (loc_of_shr_record mrs)
  /\ forall b, m0 <= b * 2 ^ k -> round_nearest_even (shr_m mrs) (loc_of_shr_record mrs) <= b.
Proof.
  intros (Hm & Hd & Hr) Hk. assert (0 < 2 ^ k) as Hpow by (apply Z.pow_pos_nonneg; lia).
  assert (shr_m mrs * 2 ^ k <= m0) as Hle by (rewrite Hd, Z.mul_comm; apply Z.mul_div_le; lia).
  assert (round_nearest_even (shr_m mrs) (loc_of_shr_record mrs) = shr_m mrs
    \/ shr_r mrs || shr_s mrs = true /\ round_nearest_even (shr_m mrs) (loc_of_shr_record mrs) = shr_m mrs + 1) as [->|[Hl ->]].
  { destruct mrs as [m [] []]; cbn; [|destruct (Z.even m)| |]; auto. }
  - split; [lia|]. intros b Hb. nia.
  - specialize (Hr Hl). split; [lia|]. intros b Hb. nia.
Qed.

(** The first product of a value of at most 100 and 100, rounded, is at most 10000. *)
Lemma round_aux_bound p E : E < 0 -> Zpos p <= 10000 * 2 ^ (- E) ->
  0 <= round_half_away (binary_round_aux prec emax false (Zpos p) E loc_Exact) <= 10000.
Proof.
  intros HE Hp. unfold binary_round_aux, shr_fexp. change (shr_record_of_loc (Zpos p) loc_Exact) with {| shr_m := Zpos p; shr_r := false; shr_s := false |}.
  set (n := fexp prec emax (Zdigits2 (Zpos p) + E) - E).
  destruct (shr_exact (Zpos p) E n ltac:(lia)) as [Hs He]. destruct (shr _ E n) as [mrs e']. cbn [fst snd] in Hs, He.
  apply shifted_round in Hs as [Hr Hb]; [|lia]. set (r := round_nearest_even _ _) in *. clearbody r.
  assert (Zpos p < 2 ^ (14 + - E)) as Hlt by (rewrite Z.pow_add_r by lia; change (2 ^ 14) with 16384; lia).
  assert (Zpos (digits2_pos p) <= 14 + - E) as Hdig by (apply digits2_le; lia).
  assert (e' < 0) as He' by (subst e' n; cbn [Zdigits2]; unfold fexp, emin, prec, emax; lia).
  assert (r <= 10000 * 2 ^ (- e')) as Hr'.
  { apply Hb. rewrite <- Z.mul_assoc, <- Z.pow_add_r by lia. replace (- e' + Z.max n 0) with (- E) by lia. done. }
  clear Hb He Hlt Hdig Hp. change (shr_record_of_loc r loc_Exact) with {| shr_m := r; shr_r := false; shr_s := false |}.
  set (n2 := fexp prec emax (Zdigits2 r + e') - e').
  destruct (shr_exact r e' n2 Hr) as [(Hm & Hd & _) He2]. destruct (shr _ e' n2) as [mrs2 e2]. cbn [fst snd] in Hm, Hd, He2.
  assert (r < 2 ^ (14 + - e')) as Hlt by (rewrite Z.pow_add_r by lia; change (2 ^ 14) with 16384; lia).
  assert (Zdigits2 r <= 14 + - e') as Hdig by (destruct r as [|q|q]; cbn [Zdigits2]; [lia|apply digits2_le; lia|lia]).
  assert (e2 < 0) as He2' by (subst e2 n2; unfold fexp, emin, prec, emax; lia).
  assert (shr_m mrs2 <= 10000 * 2 ^ (- e2)) as Hm2.
  { rewrite Hd. apply Z.div_le_upper_bound; [apply Z.pow_pos_nonneg; lia|].
    rewrite (Z.mul_comm (2 ^ _)), <- Z.mul_assoc, <- Z.pow_add_r by lia. by replace (- e2 + Z.max n2 0) with (- e') by lia. }
  destruct (shr_m mrs2) as [|q|q]; [done| |done]. destruct (e2 <=? _); [|done]. cbn [round_half_away].
  destruct (Z.leb_spec 0 e2) as [Hge|_]; [lia|]. assert (0 < 2 ^ (- e2 - 1)) as Hhalf by (apply Z.pow_pos_nonneg; lia).
  assert (2 ^ (- e2) = 2 * 2 ^ (- e2 - 1)) as Epow by (rewrite <- Z.pow_succ_r by lia; f_equal; lia). rewrite Epow in *.
  split; [apply Z.div_pos; lia|]. apply Z.lt_succ_r, Z.div_lt_upper_bound; lia.
Qed.

Lemma iter_pos_nonneg p mrs : 0 <= shr_m mrs -> 0 <= shr_m (SpecFloat.iter_pos shr_1 p mrs).
Proof.
  assert (forall mrs, 0 <= shr_m mrs -> 0 <= shr_m (shr_1 mrs)) as H1
    by (intros x Hx; destruct (shr_1_m x Hx) as [-> _]; apply Z.div_pos; lia).
  revert mrs. induction p as [p IH|p IH|]; intros mrs Hm; cbn [SpecFloat.iter_pos]; auto.
Qed.

Lemma shr_nonneg m e n l : 0 <= m -> 0 <= shr_m (shr (shr_record_of_loc m l) e n).1.
Proof.
  intros Hm. assert (shr_m (shr_record_of_loc m l) = m) as Em by by destruct l as [|[]].
  destruct n as [|p|p]; cbn [shr fst]; [lia| |lia]. apply iter_pos_nonneg. lia.
Qed.

Lemma mantissa_of_round sx m e l : 0 <= m -> mantissa_ok (binary_round_aux prec emax sx m e l).
Proof.
  intros Hm0. unfold binary_round_aux, shr_fexp. pose proof (shr_nonneg m e (fexp prec emax (Zdigits2 m + e) - e) l Hm0) as Hm1.
  destruct (shr _ e _) as [mrs e1]. cbn [fst] in Hm1. set (r := round_nearest_even _ _).
  assert (0 <= r) as Hr by (subst r; destruct mrs as [k [] []]; cbn in *; [|destruct (Z.even k)| |]; lia).
  clearbody r. change (shr_record_of_loc r loc_Exact) with {| shr_m := r; shr_r := false; shr_s := false |}.
  set (n := fexp prec emax (Zdigits2 r + e1) - e1).
  destruct (shr_exact r e1 n Hr) as [(Hm & Hd & _) _]. destruct (shr _ e1 n) as [mrs2 e2]. cbn [fst snd] in Hm, Hd.
  destruct (shr_m mrs2) as [|q|q]; [done| |done]. destruct (e2 <=? _); [|done]. cbn [mantissa_ok]. rewrite Hd.
  destruct r as [|p|p]; [rewrite Z.div_0_l; [done|apply Z.pow_nonzero; lia]| |done].
  pose proof (digits2_bounds p) as [_ Hp]. apply Z.div_lt_upper_bound; [apply Z.pow_pos_nonneg; lia|].
  rewrite <- Z.pow_add_r by lia. eapply Z.lt_le_trans; [exact Hp|]. apply Z.pow_le_mono_r; [lia|].
  subst n. cbn [Zdigits2]. unfold fexp, prec. lia.
Qed.

Lemma mantissa_of_normalize m e z : mantissa_ok (binary_normalize prec emax m e z).
Proof. destruct m as [|p|p]; cbn; [done|..]; unfold binary_round; destruct (shl_align _ _ _); by apply mantissa_of_round. Qed.

Lemma mantissa_of_decimal negative m e : mantissa_ok (float_of_decimal negative m e).
Proof.
  destruct m as [|p|p]; cbn [float_of_decimal]; [done| |done]. destruct (400 <? e); [done|]. destruct (_ <? -400); [done|].
  destruct (Z.leb_spec 0 e) as [_|Hneg]; [apply mantissa_of_normalize|]. unfold SFdiv_core_binary.
  assert (0 < 10 ^ (- e)) as Hpos by (apply Z.pow_pos_nonneg; lia).
  set (s := 0 - 0 - _). set (m' := match s with Z0 => _ | _ => _ end).
  assert (0 <= m') as Hm by (subst m'; destruct s; [done|by apply Z.shiftl_nonneg|done]).
  pose proof (Z_div_pos m' (10 ^ (- e))) as Hq. unfold Z.div in Hq. destruct (Z.div_eucl m' (10 ^ (- e))) as [q r].
  apply mantissa_of_round. lia.
Qed.

Lemma mantissa_of_parse `{UnicodeTables} s x : ParseFloat s = inl x -> mantissa_ok x.
Proof.
  unfold ParseFloat. destruct (special_float s) as [y|] eqn:Es.
  - intros [= <-]. unfold special_float in Es. destruct (cut_sign s). by repeat (case_match; simplify_eq).
  - destruct (read_float s) as [y|] eqn:Er; [|done].
    assert (mantissa_ok y) as Hy; [|by destruct y; try done; intros [= <-]].
    unfold read_float in Er.
    assert (forall neg m e, mantissa_ok (float_of_hex neg m e)) as Hhex
      by (intros; unfold float_of_hex; repeat (case_match; try done); apply mantissa_of_normalize).
    repeat (case_match; simplify_eq); try apply Hhex; try apply mantissa_of_decimal.
Qed.
