(* ===== verification/GoNet.v ===== *)
(** * net/netip and net/url, as far as the program uses them

    [netip.ParseAddr] and [url.Parse] of Go 1.26, the version of go.mod: hosts
    in brackets must be IPv6 literals and a host contains at most one colon.
    Error values carry a fixed text: the program only tests them for presence. *)

From S2P Require Import Prelude GoStrings.

(** ** Addresses *)

Inductive netaddr :=
| Addr4 (a : list N)                 (* four bytes *)
| Addr6 (a : list N) (zone : str).   (* eight 16-bit groups *)

Definition is_hex_byte (c : ascii) : bool :=
  let x := b2n c in is_digit x || in_range 65 70 x || in_range 97 102 x.
#[export] Instance netaddr_eq_dec : EqDecision netaddr.
Proof. solve_decision. Defined.
Definition hex_value (c : ascii) : N :=
  let x := b2n c in
  (if is_digit x then x - 48 else if in_range 65 70 x then x - 55 else x - 87)%N.

Definition dec_value (s : str) : N :=
  fold_left (fun acc c => acc * 10 + (b2n c - 48))%N s 0%N.

Definition parse_v4_field (s : str) : option N :=
  let v := dec_value s in
  if bool_decide (s = []) then None
  else if negb (forallb (fun c => is_digit (b2n c)) s) then None
  else if (3 <? length s)%nat then None
  else if HasPrefix s (lit "0") && (1 <? length s)%nat then None
  else if (255 <? v)%N then None else Some v.

Definition parse_v4 (s : str) : option (list N) :=
  match SplitByte "."%char s with
  | [_; _; _; _] as l => mapM parse_v4_field l
  | _ => None
  end.

(** Reads groups of an IPv6 literal.  [out] holds the groups so far in reverse,
    [ell] the number of groups before [::] if it was seen.  Eight iterations
    suffice since each one adds a group. *)
Fixpoint v6_groups (fuel : nat) (s : str) (out : list N) (ell : option nat)
    : option (list N * option nat * str) :=
  match fuel with
  | O => Some (out, ell, s)
  | S fuel' =>
      let h := take_while is_hex_byte s in
      let rest := drop (length h) s in
      if (length h =? 0)%nat || (4 <? length h)%nat then None
      else if HasPrefix rest (lit ".") then
        if (if ell then false else negb (length out =? 6)%nat) || (6 <? length out)%nat then None
        else match parse_v4 s with
             | Some [a; b; c; d] => Some ((c * 256 + d)%N :: (a * 256 + b)%N :: out, ell, [])
             | _ => None
             end
      else
        let out' := fold_left (fun acc c => acc * 16 + hex_value c)%N h 0%N :: out in
        match rest with
        | [] => Some (out', ell, [])
        | c :: s1 =>
            if negb (bool_decide (c = ":"%char)) then None
            else match s1 with
                 | [] => None
                 | d :: s2 =>
                     if bool_decide (d = ":"%char) then
                       if ell then None
                       else if bool_decide (s2 = []) then Some (out', Some (length out'), [])
                       else v6_groups fuel' s2 out' (Some (length out'))
                     else v6_groups fuel' s1 out' ell
                 end
        end
  end.

Definition parse_v6 (s : str) : option (list N) :=
  let '(s1, ell, finished) :=
    if HasPrefix s (lit "::")
    then (drop 2 s, Some 0%nat, bool_decide (drop 2 s = [])) else (s, None, false) in
  if finished then Some (replicate 8 0%N) else
  match v6_groups 8 s1 [] ell with
  | Some (out, ell', []) =>
      let groups := rev out in
      match ell' with
      | None => if (length groups =? 8)%nat then Some groups else None
      | Some k => if (length groups <? 8)%nat
                  then Some (take k groups ++ replicate (8 - length groups) 0%N ++ drop k groups) else None
      end
  | _ => None
  end.

Definition ParseAddr (s : str) : option netaddr :=
  match List.find (fun c => ContainsByte (lit ".:%") c) s with
  | Some c =>
      if bool_decide (c = "."%char) then Addr4 <$> parse_v4 s
      else if bool_decide (c = ":"%char) then
        match CutByte "%"%char s with
        | (a, None) => (fun g => Addr6 g []) <$> parse_v6 a
        | (a, Some zone) => if bool_decide (zone = []) then None else (fun g => Addr6 g zone) <$> parse_v6 a
        end
      else None
  | None => None
  end.

(** [Addr.IsLinkLocalUnicast]: 169.254.0.0/16 (also mapped into IPv6) and fe80::/10. *)
Definition v4_mapped (g : list N) : option (list N) :=
  match g with
  | [0; 0; 0; 0; 0; 65535; x; y]%N => Some [x / 256; x mod 256; y / 256; y mod 256]%N
  | _ => None
  end.
Definition link_local_unicast4 (a : list N) : bool := bool_decide (take 2 a = [169; 254]%N).
Definition link_local_multicast4 (a : list N) : bool := bool_decide (take 3 a = [224; 0; 0]%N).
Definition IsLinkLocalUnicast (a : netaddr) : bool :=
  match a with
  | Addr4 a => link_local_unicast4 a
  | Addr6 g _ => match v4_mapped g with
                 | Some a => link_local_unicast4 a
                 | None => (N.land (nth 0 g 0) 65472 =? 65152)%N
                 end
  end.
(** [Addr.IsLinkLocalMulticast]: 224.0.0.0/24 and ff02::/16 (masked as ff0f). *)
Definition IsLinkLocalMulticast (a : netaddr) : bool :=
  match a with
  | Addr4 a => link_local_multicast4 a
  | Addr6 g _ => match v4_mapped g with
                 | Some a => link_local_multicast4 a
                 | None => (N.land (nth 0 g 0) 65295 =? 65282)%N
                 end
  end.

(** ** URLs *)

Record URL := {
  Scheme : str; Opaque : str; User : option str; Host : str; Path : str;
  RawQuery : str; Fragment : str }.

Inductive encoding := encodePath | encodeHost | encodeZone | encodeUserPassword | encodeFragment.

Definition host_mode (m : encoding) : bool :=
  match m with encodeHost | encodeZone => true | _ => false end.

(** [shouldEscape(c, encodeHost)] for a byte below 0x80. *)
Definition host_byte_ok (c : ascii) : bool :=
  is_alnum (b2n c) || ContainsByte (lit "!$&'()*+,;=:[]<>-_.~" ++ dquote) c.

(** [unescape]: errors on bad escapes and, in hosts, on invalid bytes. *)
Fixpoint unescape (fuel : nat) (m : encoding) (s : str) : option str :=
  match fuel, s with
  | _, [] => Some []
  | O, _ => None
  | S fuel', c :: t =>
      if bool_decide (c = "%"%char) then
        match t with
        | h :: l :: u =>
            if negb (is_hex_byte h && is_hex_byte l) then None
            else
              let v := (hex_value h * 16 + hex_value l)%N in
              let is25 := bool_decide ([h; l] = lit "25") in
              let bad := match m with
                | encodeHost => (hex_value h <? 8)%N && negb is25
                | encodeZone => negb is25 && negb (v =? 32)%N
                                && ((127 <? v)%N || negb (host_byte_ok (ascii_of_N v)))
                | _ => false end in
              if bad then None else cons (ascii_of_N v) <$> unescape fuel' m u
        | _ => None
        end
      else if host_mode m && (b2n c <? 128)%N && negb (host_byte_ok c) then None
      else cons c <$> unescape fuel' m t
  end.
Definition Unescape (m : encoding) (s : str) : option str := unescape (length s) m s.

Definition validOptionalPort (port : str) : bool :=
  match port with
  | [] => true
  | c :: t => bool_decide (c = ":"%char) && forallb (fun d => is_digit (b2n d)) t
  end.

(** [getScheme]: [None] is the error for an empty scheme. *)
Fixpoint scheme_loop (first : bool) (raw s : str) (acc : str) : option (str * str) :=
  match s with
  | [] => Some ([], raw)
  | c :: t =>
      let x := b2n c in
      if is_alpha x then scheme_loop false raw t (acc ++ [c])
      else if is_digit x || ContainsByte (lit "+-.") c then
        if first then Some ([], raw) else scheme_loop false raw t (acc ++ [c])
      else if bool_decide (c = ":"%char) then if first then None else Some (acc, t)
      else Some ([], raw)
  end.

Definition find_sub (s sub : str) : option (str * str) :=
  (fix go (pre s : str) : option (str * str) :=
     if HasPrefix s sub then Some (pre, s)
     else match s with [] => None | c :: t => go (pre ++ [c]) t end) [] s.

Definition parseHost (host : str) : option str :=
  let o := LastIndexByte host "["%char in
  if (0 <=? o)%Z then
    let c := LastIndexByte host "]"%char in
    if (c <? 0)%Z then None
    else
      let colonPort := slice_from host (c + 1) in
      if negb (validOptionalPort colonPort) then None
      else
        let hostname := slice_to (slice_from host (o + 1)) (c - o - 1) in
        let name := match find_sub hostname (lit "%25") with
          | Some (addr, zone) => a ← Unescape encodeHost addr; z ← Unescape encodeZone zone; Some (a ++ z)
          | None => Unescape encodeHost hostname
          end in
        name ← name; colonPort ← Unescape encodeHost colonPort;
        match ParseAddr name with
        | Some (Addr6 _ _) => Some (lit "[" ++ name ++ lit "]" ++ colonPort)
        | _ => None
        end
  else
    let i := IndexByte host ":"%char in
    if (0 <=? i)%Z && negb (validOptionalPort (slice_from host i)) then None
    else Unescape encodeHost host.

Definition userinfo_ok (s : str) : bool :=
  forallb (fun c => is_alnum (b2n c) || ContainsByte (lit "-._:~!$&'()*+,;=%@") c) s.

Definition parseAuthority (a : str) : option (option str * str) :=
  let i := LastIndexByte a "@"%char in
  if (i <? 0)%Z then h ← parseHost a; Some (None, h)
  else
    h ← parseHost (slice_from a (i + 1));
    let u := slice_to a i in
    if negb (userinfo_ok u) then None
    else u' ← Unescape encodeUserPassword u; Some (Some u', h).

Definition has_ctl_byte (s : str) : bool :=
  existsb (fun c => (b2n c <? 32) || (b2n c =? 127))%N s.

Definition url_Parse `{UnicodeTables} (rawURL : str) : option URL :=
  let '(u, frag) := CutByte "#"%char rawURL in
  if has_ctl_byte u then None
  else
    fragment ← Unescape encodeFragment (default [] frag);
    if u =s lit "*" then Some (Build_URL [] [] None [] u [] fragment) else
    '(scheme, rest) ← scheme_loop true u u [];
    let scheme := ToLower scheme in
    let '(rest, query) := CutByte "?"%char rest in
    let query := default [] query in
    if negb (HasPrefix rest (lit "/")) && negb (scheme =s []) then
      Some (Build_URL scheme rest None [] [] query fragment)
    else if negb (HasPrefix rest (lit "/")) && ContainsByte (CutByte slash rest).1 ":"%char then None
    else if (negb (scheme =s []) || negb (HasPrefix rest (lit "///"))) && HasPrefix rest (lit "//") then
      let '(authority, tail) := CutByte slash (drop 2 rest) in
      '(user, host) ← parseAuthority authority;
      p ← Unescape encodePath (match tail with Some t => slash :: t | None => [] end);
      Some (Build_URL scheme [] user host p query fragment)
    else
      p ← Unescape encodePath rest;
      Some (Build_URL scheme [] None [] p query fragment).

(** [URL.Hostname] and [URL.Port]. *)
Definition splitHostPort (hostPort : str) : str * str :=
  let colon := LastIndexByte hostPort ":"%char in
  let '(host, port) :=
    if (0 <=? colon)%Z && validOptionalPort (slice_from hostPort colon)
    then (slice_to hostPort colon, slice_from hostPort (colon + 1)) else (hostPort, []) in
  if HasPrefix host (lit "[") && HasSuffix host (lit "]")
  then (take (length host - 2) (drop 1 host), port) else (host, port).
Definition Hostname (u : URL) : str := (splitHostPort (Host u)).1.
Definition Port (u : URL) : str := (splitHostPort (Host u)).2.

(** ** Escaping

    [url.PathEscape] and [url.QueryEscape]: a byte that is left as it is, or its two
    hexadecimal digits after a percent sign; a blank of a query becomes a plus. *)

Definition unreserved (c : ascii) : bool := is_alnum (b2n c) || ContainsByte (lit "-_.~") c.
Definition path_segment_byte (c : ascii) : bool := unreserved c || ContainsByte (lit "$&+=:@") c.

Definition percent (c : ascii) : str := "%"%char :: hex_fixed true 2 (b2n c).
Definition PathEscape (s : str) : str := concat (map (fun c => if path_segment_byte c then [c] else percent c) s).
Definition QueryEscape (s : str) : str :=
  concat (map (fun c => if unreserved c then [c] else if bool_decide (c = " "%char) then lit "+" else percent c) s).

(** The byte is read back from its two digits. *)
Lemma percent_digits c :
  exists h l, percent c = ["%"%char; h; l] /\ is_hex_byte h = true /\ is_hex_byte l = true
              /\ ascii_of_N (hex_value h * 16 + hex_value l) = c
              /\ path_segment_byte h = true /\ path_segment_byte l = true.
Proof.
  destruct c as [[] [] [] [] [] [] [] []]; eexists _, _; repeat split; vm_compute; reflexivity.
Qed.

Lemma unescape_more m s : forall fuel t, unescape fuel m s = Some t -> forall n, (fuel <= n)%nat -> unescape n m s = Some t.
Proof.
  assert (K : forall fuel s t, unescape fuel m s = Some t -> forall n, (fuel <= n)%nat -> unescape n m s = Some t);
    [|by intros fuel; apply K].
  clear s. induction fuel as [|fuel IH]; intros s t Hu n Hn; [destruct s; [|done]; by destruct n|].
  destruct n as [|n]; [lia|]. destruct s as [|c s]; [done|]. cbn [unescape] in Hu |- *.
  assert (Hc : forall x u, (cons x <$> unescape fuel m u) = Some t -> (cons x <$> unescape n m u) = Some t).
  { intros x u Hx. apply fmap_Some in Hx as (y & Hy & ->). rewrite (IH _ _ Hy) by lia. done. }
  destruct (bool_decide _).
  - destruct s as [|h [|l u]]; [done..|]. destruct (negb _); [done|].
    destruct m; cbn zeta in Hu |- *; try (destruct (_ && _); [done|]); try (destruct (_ || _); [done|]); auto.
  - destruct (_ && _ && _); [done|]. auto.
Qed.

(** What is escaped is one segment of a path, and reads back. *)
Theorem path_segment_roundtrip s : Unescape encodePath (PathEscape s) = Some s.
Proof.
  unfold Unescape. induction s as [|c s IH]; [done|]. unfold PathEscape in *. cbn [map concat].
  destruct (path_segment_byte c) eqn:Ec.
  - cbn [app length unescape]. rewrite bool_decide_eq_false_2 by (intros ->; discriminate Ec). cbn [host_mode andb].
    by rewrite IH.
  - destruct (percent_digits c) as (h & l & -> & Hh & Hl & Hv & _). cbn [app length]. set (rest := concat _) in *.
    assert (Hn : (length rest <= S (S (length rest)))%nat) by lia. generalize dependent (S (S (length rest))). intros n Hn.
    cbn [unescape]. rewrite bool_decide_eq_true_2 by done. rewrite Hh, Hl. cbn [andb negb]. rewrite Hv.
    by rewrite (unescape_more _ _ _ _ IH) by lia.
Qed.

Lemma path_segment_bytes s : forallb (fun c => path_segment_byte c || bool_decide (c = "%"%char)) (PathEscape s) = true.
Proof.
  unfold PathEscape. induction s as [|c s IH]; [done|]. cbn [map concat]. rewrite forallb_app, IH, andb_true_r.
  destruct (path_segment_byte c) eqn:Ec; [cbn; by rewrite Ec|].
  destruct (percent_digits c) as (h & l & -> & _ & _ & _ & Hh & Hl). cbn. by rewrite Hh, Hl.
Qed.
