(* ===== verification/GoRegexp.v ===== *)
(** * The part of Go's package regexp the program uses

    Patterns are syntax trees; matching is the leftmost-first search of
    [regexp] over decoded runes.  Every repetition in the source repeats a
    character class, so the matcher is structural in the input and needs no
    fuel. *)

From S2P Require Import Prelude GoStrings GoStringsFacts.

Inductive regex :=
| RClass (p : rune -> bool)
| RRep (p : rune -> bool) (lo : nat) (hi : option nat) (greedy : bool)
| RSeq (a b : regex)
| RAlt (a b : regex)
| REmpty
| RBol                      (* ^ *)
| REol                      (* $ without the m flag: end of text *)
| RWordBoundary.            (* \b, ASCII words *)

(** A position: the rune before it (if any) and the text after it. *)
Definition cont := option rune -> list seg -> option (list seg).

Definition or_else {A} (a b : option A) : option A := match a with Some _ => a | None => b end.

Fixpoint match_rep (p : rune -> bool) (greedy : bool) (lo : nat) (hi : option nat)
    (prev : option rune) (l : list seg) (k : cont) : option (list seg) :=
  let stop := if (lo =? 0)%nat then k prev l else None in
  match l with
  | [] => stop
  | sg :: t =>
      if bool_decide (hi = Some 0%nat) then stop
      else if p sg.1 then
        let more := match_rep p greedy (pred lo) (pred <$> hi) (Some sg.1) t k in
        if greedy then or_else more stop else or_else stop more
      else stop
  end.

Definition is_word (o : option rune) : bool :=
  match o with Some r => is_alnum r || (r =? 95)%N | None => false end.

Fixpoint match_re (r : regex) (prev : option rune) (l : list seg) (k : cont) : option (list seg) :=
  match r with
  | RClass p => match l with sg :: t => if p sg.1 then k (Some sg.1) t else None | [] => None end
  | RRep p lo hi greedy => match_rep p greedy lo hi prev l k
  | RSeq a b => match_re a prev l (fun prev' l' => match_re b prev' l' k)
  | RAlt a b => or_else (match_re a prev l k) (match_re b prev l k)
  | REmpty => k prev l
  | RBol => if is_some prev then None else k prev l
  | REol => match l with [] => k prev l | _ => None end
  | RWordBoundary =>
      let next := match l with sg :: _ => Some sg.1 | [] => None end in
      if xorb (is_word prev) (is_word next) then k prev l else None
  end.

(** The text left after a match that starts here. *)
Definition match_here (r : regex) (prev : option rune) (l : list seg) : option (list seg) :=
  match_re r prev l (fun _ rest => Some rest).

Fixpoint match_from (r : regex) (prev : option rune) (l : list seg) : bool :=
  is_some (match_here r prev l)
  || match l with [] => false | sg :: t => match_from r (Some sg.1) t end.

(** [Regexp.MatchString] *)
Definition MatchString (r : regex) (s : str) : bool := match_from r None (decode s).

(** [Regexp.ReplaceAllStringFunc], for patterns that match no empty text. *)
Fixpoint replace_matches (r : regex) (f : str -> str) (skip : nat)
    (prev : option rune) (l : list seg) : str :=
  match l with
  | [] => []
  | sg :: t =>
      match skip with
      | S k => replace_matches r f k (Some sg.1) t
      | O =>
          match match_here r prev l with
          | Some rest =>
              let n := (length l - length rest)%nat in
              if (n =? 0)%nat then sg.2 ++ replace_matches r f 0 (Some sg.1) t
              else f (raw (take n l)) ++ replace_matches r f (n - 1) (Some sg.1) t
          | None => sg.2 ++ replace_matches r f 0 (Some sg.1) t
          end
      end
  end.

Definition ReplaceAllStringFunc (r : regex) (s : str) (f : str -> str) : str :=
  replace_matches r f 0 None (decode s).

(** [Regexp.ReplaceAllString] with a template that has no [$]. *)
Definition ReplaceAllString (r : regex) (s repl : str) : str :=
  ReplaceAllStringFunc r s (fun _ => repl).

(** ** Building patterns *)

Definition class (s : str) (r : rune) : bool := existsb (fun c => (b2n c =? r)%N) s.

(** [(?i)]: the simple folding orbit of an ASCII class; [k] also folds with
    U+212A and [s] with U+017F. *)
Definition fold_class (p : rune -> bool) (r : rune) : bool :=
  (p r || (is_upper_ascii r && p (r + 32)) || (is_lower_ascii r && p (r - 32))
   || ((r =? 8490) && (p 75 || p 107)) || ((r =? 383) && (p 83 || p 115)))%N.

Fixpoint RLit (fold : bool) (s : str) : regex :=
  match s with
  | [] => REmpty
  | c :: t =>
      let p := fun r => (b2n c =? r)%N in
      RSeq (RClass (if fold then fold_class p else p)) (RLit fold t)
  end.

Fixpoint RSeqs (l : list regex) : regex :=
  match l with [] => REmpty | [r] => r | r :: t => RSeq r (RSeqs t) end.
Fixpoint RAlts (l : list regex) : regex :=
  match l with [] => RClass (fun _ => false) | [r] => r | r :: t => RAlt r (RAlts t) end.

Definition RStar (p : rune -> bool) : regex := RRep p 0 None true.
Definition RPlus (p : rune -> bool) : regex := RRep p 1 None true.

(** ** Anchored patterns are predicates on the runes *)

Definition within (lo : nat) (hi : option nat) (n : nat) : bool :=
  (lo <=? n)%nat && match hi with Some h => (n <=? h)%nat | None => true end.

Lemma match_rep_eol p g lo hi prev l :
  match_rep p g lo hi prev l (fun pr l' => match_re REol pr l' (fun _ rest => Some rest))
  = if forallb (fun sg : seg => p sg.1) l && within lo hi (length l) then Some [] else None.
Proof.
  revert lo hi prev. induction l as [|sg t IH]; intros lo hi prev.
  - simpl. destruct lo; simpl; [|done]. unfold within. by destruct hi.
  - cbn [match_rep forallb length].
    assert (Hstop : (if (lo =? 0)%nat then match_re REol prev (sg :: t) (fun _ rest => Some rest) else None)
                    = @None (list seg)) by (by destruct (lo =? 0)%nat).
    rewrite Hstop. case_bool_decide as Hh.
    + subst hi. unfold within. simpl. by rewrite !andb_false_r.
    + destruct (p sg.1); [|done]. rewrite IH.
      assert (within (pred lo) (pred <$> hi) (length t) = within lo hi (S (length t))) as ->.
      { unfold within. destruct lo as [|lo], hi as [[|h]|]; simpl; try done. }
      simpl. destruct (_ && _), g; done.
Qed.

Lemma match_from_anchored r p l :
  match_from (RSeq RBol r) p l
  = is_some (match_here (RSeq RBol r) p l).
Proof.
  assert (forall x u, match_from (RSeq RBol r) (Some x) u = false) as Hf.
  { intros x u. revert x. by induction u as [|y u IH]; intros x; [|apply IH]. }
  destruct l as [|sg t]; cbn [match_from]; [|rewrite Hf]; by rewrite orb_false_r.
Qed.

(** [^[p]{lo,hi}$] *)
Lemma MatchString_rep p lo hi s :
  MatchString (RSeqs [RBol; RRep p lo hi true; REol]) s
  = forallb p (runes s) && within lo hi (length (runes s)).
Proof.
  unfold MatchString. cbn [RSeqs]. rewrite match_from_anchored.
  unfold match_here. cbn [match_re is_some]. change (is_some (@None rune)) with false. cbn iota.
  pose proof (match_rep_eol p true lo hi None (decode s)) as E.
  cbn [match_re] in E. rewrite E.
  unfold runes. rewrite length_map. rewrite forallb_map.
  by destruct (_ && _).
Qed.

(** [^[q][p]{lo,hi}$] *)
Lemma MatchString_head_rep q p lo hi s :
  MatchString (RSeqs [RBol; RClass q; RRep p lo hi true; REol]) s
  = match runes s with
    | [] => false
    | x :: t => q x && (forallb p t && within lo hi (length t))
    end.
Proof.
  unfold MatchString. cbn [RSeqs]. rewrite match_from_anchored.
  unfold match_here, runes. cbn [match_re]. change (is_some (@None rune)) with false. cbn iota.
  destruct (decode s) as [|sg t]; [done|]. cbn [map]. cbn iota.
  destruct (q sg.1); [|done].
  pose proof (match_rep_eol p true lo hi (Some sg.1) t) as E.
  cbn [match_re] in E. rewrite E.
  rewrite length_map, forallb_map. simpl. by destruct (_ && _).
Qed.

(** * What the matcher of GoRegexp matches

    A denotational reading of patterns, and the theorem that the backtracking
    matcher finds a match exactly when there is one. *)

(** The rune before a position. *)
Definition before (prev : option rune) (u : list seg) : option rune :=
  match last u with Some sg => Some sg.1 | None => prev end.

Lemma before_app prev u v : before prev (u ++ v) = before (before prev u) v.
Proof. unfold before. rewrite last_app. by destruct (last v). Qed.

Lemma before_cons prev sg u : before prev (sg :: u) = before (Some sg.1) u.
Proof. change (sg :: u) with ([sg] ++ u). by rewrite before_app. Qed.

(** [r] matches [u] when [prev] is before it and [v] after it. *)
Fixpoint matches (r : regex) (prev : option rune) (u v : list seg) : Prop :=
  match r with
  | RClass p => exists sg, u = [sg] /\ p sg.1 = true
  | RRep p lo hi _ => forallb (fun sg : seg => p sg.1) u = true /\ within lo hi (length u) = true
  | RSeq a b => exists x y, u = x ++ y /\ matches a prev x (y ++ v) /\ matches b (before prev x) y v
  | RAlt a b => matches a prev u v \/ matches b prev u v
  | REmpty => u = []
  | RBol => u = [] /\ prev = None
  | REol => u = [] /\ v = []
  | RWordBoundary => u = [] /\ xorb (is_word prev) (is_word (match v with sg :: _ => Some sg.1 | [] => None end)) = true
  end.

Definition found {A} (o : option A) : Prop := is_some o = true.

Lemma found_or_else {A} (a b : option A) : found (or_else a b) <-> found a \/ found b.
Proof. unfold found. destruct a, b; cbn; intuition discriminate. Qed.

Definition splits (l : list seg) (P : list seg -> list seg -> Prop) : Prop := exists u v, l = u ++ v /\ P u v.

Lemma splits_stop l (P : list seg -> list seg -> Prop) : P [] l -> splits l P.
Proof. by exists [], l. Qed.

Lemma within_step lo hi n : hi <> Some 0%nat -> within (pred lo) (pred <$> hi) n = within lo hi (S n).
Proof. unfold within. destruct lo as [|lo], hi as [[|h]|]; cbn; try done. Qed.

Lemma found_match_rep p g lo hi prev l k :
  found (match_rep p g lo hi prev l k)
  <-> splits l (fun u v => (forallb (fun sg : seg => p sg.1) u = true /\ within lo hi (length u) = true) /\ found (k (before prev u) v)).
Proof.
  revert lo hi prev. induction l as [|sg t IH]; intros lo hi prev.
  - cbn [match_rep]. split.
    + destruct (lo =? 0)%nat eqn:E; [|done]. intros Hk. apply splits_stop. split; [|exact Hk]. split; [done|].
      unfold within. apply Nat.eqb_eq in E as ->. by destruct hi.
    + intros ([|sg u] & v & Hl & [_ Hw] & Hk); [|done]. symmetry in Hl. cbn [app] in Hl. subst v.
      unfold within in Hw. cbn [length] in Hw. apply andb_true_iff in Hw as [Hlo _]. destruct lo; [exact Hk|done].
  - cbn [match_rep].
    set (stop := if (lo =? 0)%nat then k prev (sg :: t) else None).
    assert (Hstop : found stop <-> lo = 0%nat /\ found (k prev (sg :: t))).
    { unfold stop. destruct lo; [by split; [split|intros [_ ?]]|]. split; [done|by intros [? _]]. }
    assert (Hzero : found stop -> splits (sg :: t) (fun u v =>
      (forallb (fun sg : seg => p sg.1) u = true /\ within lo hi (length u) = true) /\ found (k (before prev u) v))).
    { intros [-> Hk]%Hstop. apply splits_stop. split; [|exact Hk]. split; [done|]. by destruct hi. }
    assert (Hnot : forall u v, sg :: t = u ++ v -> u = [] -> within lo hi 0 = true -> found (k (before prev u) v) -> found stop).
    { intros u v Hl -> Hw Hk. cbn [app] in Hl. subst v. apply Hstop. split; [|exact Hk].
      unfold within in Hw. apply andb_true_iff in Hw as [Hlo _]. by destruct lo. }
    case_bool_decide as Hh.
    { split; [exact Hzero|]. intros (u & v & Hl & [_ Hw] & Hk). subst hi. destruct u as [|x u].
      - by apply (Hnot [] v).
      - unfold within in Hw. rewrite andb_false_r in Hw. done. }
    destruct (p sg.1) eqn:Ep.
    2:{ split; [exact Hzero|]. intros ([|x u] & v & Hl & [Hf Hw] & Hk); [by apply (Hnot [] v)|].
        injection Hl as <- _. cbn [forallb] in Hf. by rewrite Ep in Hf. }
    assert (Hmore : found (match_rep p g (pred lo) (pred <$> hi) (Some sg.1) t k)
      <-> exists u v, t = u ++ v /\ (forallb (fun sg : seg => p sg.1) (sg :: u) = true /\ within lo hi (length (sg :: u)) = true)
            /\ found (k (before prev (sg :: u)) v)).
    { rewrite IH. unfold splits. cbn [forallb length]. rewrite Ep.
      split; intros (u & v & Hl & [Hf Hw] & Hk); exists u, v; rewrite before_cons in *; rewrite within_step in * by done; done. }
    assert (Hboth : found stop \/ found (match_rep p g (pred lo) (pred <$> hi) (Some sg.1) t k) <-> splits (sg :: t) (fun u v =>
      (forallb (fun sg : seg => p sg.1) u = true /\ within lo hi (length u) = true) /\ found (k (before prev u) v))).
    { rewrite Hmore. split.
      - intros [Hs|(u & v & -> & Hw & Hk)]; [by apply Hzero|]. by exists (sg :: u), v.
      - intros ([|x u] & v & Hl & [Hf Hw] & Hk); [left; by apply (Hnot [] v)|]. injection Hl as <- ->. right. by exists u, v. }
    rewrite <- Hboth. destruct g; rewrite found_or_else; tauto.
Qed.

(** The matcher tries every way to match. *)
Lemma found_match_re r prev l k :
  found (match_re r prev l k) <-> splits l (fun u v => matches r prev u v /\ found (k (before prev u) v)).
Proof.
  revert prev l k. induction r as [p|p lo hi g|a IHa b IHb|a IHa b IHb| | | |]; intros prev l k; cbn [match_re matches].
  - split.
    + destruct l as [|sg t]; [done|]. destruct (p sg.1) eqn:Ep; [|done]. intros Hk. exists [sg], t. split; [done|].
      split; [by exists sg|exact Hk].
    + intros (u & v & -> & (sg & -> & Hp) & Hk). cbn. by rewrite Hp.
  - apply found_match_rep.
  - rewrite IHa. unfold splits. split.
    + intros (x & l' & -> & Ha & Hb). apply IHb in Hb as (y & v & -> & Hb & Hk).
      exists (x ++ y), v. rewrite before_app. split; [by rewrite app_assoc|]. split; [|exact Hk]. by exists x, y.
    + intros (u & v & -> & (x & y & -> & Ha & Hb) & Hk). exists x, (y ++ v). split; [by rewrite app_assoc|].
      split; [exact Ha|]. apply IHb. exists y, v. rewrite before_app in Hk. by split.
  - rewrite found_or_else, IHa, IHb. unfold splits. split.
    + intros [(u & v & Hl & Hm & Hk)|(u & v & Hl & Hm & Hk)]; exists u, v; (split; [exact Hl|split; [|exact Hk]]); [by left|by right].
    + intros (u & v & Hl & [Hm|Hm] & Hk); [left|right]; by exists u, v.
  - split; [intros Hk; by apply splits_stop|]. by intros (u & v & -> & -> & Hk).
  - split.
    + destruct prev; [done|]. intros Hk. by apply splits_stop.
    + by intros (u & v & -> & [-> ->] & Hk).
  - split.
    + destruct l; [|done]. intros Hk. by apply splits_stop.
    + by intros (u & v & -> & [-> ->] & Hk).
  - split.
    + destruct (xorb _ _) eqn:Ex; [|done]. intros Hk. by apply splits_stop.
    + intros (u & v & -> & [-> Hx] & Hk). cbn [app]. by rewrite Hx.
Qed.

(** A search succeeds when some part of the text matches. *)
Lemma MatchString_matches r s :
  MatchString r s = true <-> exists a u v, decode s = a ++ u ++ v /\ matches r (before None a) u v.
Proof.
  unfold MatchString. generalize (decode s) as l. intros l. change None with (before None []) at 1.
  assert (Hg : forall b, match_from r (before None b) l = true
    <-> exists a u v, l = a ++ u ++ v /\ matches r (before None (b ++ a)) u v).
  { induction l as [|sg t IH]; intros b; cbn [match_from]; rewrite orb_true_iff; unfold match_here.
    - pose proof (found_match_re r (before None b) [] (fun _ rest => Some rest)) as Hf. unfold found at 1 in Hf. rewrite Hf. split.
      + intros [(u & v & Hl & Hm & _)|]; [|done]. exists [], u, v. by rewrite app_nil_r.
      + intros (a & u & v & Hl & Hm). left. symmetry in Hl. apply app_eq_nil in Hl as [-> Hl]. exists u, v.
        rewrite app_nil_r in Hm. by rewrite Hl.
    - pose proof (found_match_re r (before None b) (sg :: t) (fun _ rest => Some rest)) as Hf. unfold found at 1 in Hf. rewrite Hf.
      assert (Hb : Some sg.1 = before None (b ++ [sg])) by by rewrite before_app. rewrite Hb, IH. split.
      + intros [(u & v & Hl & Hm & _)|(a & u & v & -> & Hm)]; [exists [], u, v; by rewrite app_nil_r|].
        exists (sg :: a), u, v. split; [done|]. by rewrite <- app_assoc in Hm.
      + intros ([|x a] & u & v & Hl & Hm).
        * left. exists u, v. rewrite app_nil_r in Hm. by split; [|split].
        * injection Hl as <- ->. right. exists a, u, v. split; [done|]. by rewrite <- app_assoc. }
  exact (Hg []).
Qed.

(** ** Anchored patterns *)

Lemma matches_seq_nil a b prev v : (exists x y, [] = x ++ y /\ matches a prev x (y ++ v) /\ matches b (before prev x) y v)
  <-> matches a prev [] v /\ matches b prev [] v.
Proof.
  split.
  - intros (x & y & Hl & Ha & Hb). symmetry in Hl. apply app_eq_nil in Hl as [-> ->]. by split.
  - intros [Ha Hb]. by exists [], [].
Qed.

(** [^r$] matches the whole text. *)
Lemma MatchString_anchored r s :
  MatchString (RSeqs [RBol; r; REol]) s = true <-> matches r None (decode s) [].
Proof.
  rewrite MatchString_matches. cbn [RSeqs matches]. split.
  - intros (a & u & v & Hd & x & y & -> & [-> Hb] & z & w & -> & Hr & -> & ->).
    assert (Ha : a = []).
    { unfold before in Hb. destruct (last a) as [sg|] eqn:El; [done|]. by apply last_None in El. }
    subst a. cbn [app] in *. rewrite app_nil_r in *. rewrite Hd, app_nil_r. exact Hr.
  - intros Hr. exists [], (decode s), []. split; [by rewrite app_nil_r|].
    exists [], (decode s). split; [done|]. split; [done|]. exists (decode s), []. rewrite app_nil_r. by split; [|split].
Qed.

Lemma matches_lit w prev u v :
  is_ascii w = true -> matches (RLit false w) prev u v <-> map fst u = map b2n w.
Proof.
  revert prev u. induction w as [|c w IH]; intros prev u Hw; cbn [RLit matches map].
  - split; [by intros ->|]. by destruct u.
  - unfold is_ascii in Hw. cbn [forallb] in Hw. apply andb_true_iff in Hw as [_ Hw]. split.
    + intros (x & y & -> & (sg & -> & Hc) & Hm). apply (IH _ _ Hw) in Hm. cbn [map app]. apply N.eqb_eq in Hc. by rewrite Hm, Hc.
    + destruct u as [|sg u]; [done|]. cbn [map]. intros [= Hsg Hu]. exists [sg], u. split; [done|]. split.
      * exists sg. split; [done|]. by apply N.eqb_eq.
      * by apply IH.
Qed.

(** ** Patterns of ASCII text, on bytes *)

(** The decoding of an ASCII text. *)
Definition segs (s : str) : list seg := map (fun c => (b2n c, [c])) s.

Fixpoint ascii_pattern (r : regex) : Prop :=
  match r with
  | RClass p | RRep p _ _ _ => forall x, p x = true -> (x < 128)%N
  | RSeq a b | RAlt a b => ascii_pattern a /\ ascii_pattern b
  | _ => True
  end.

Lemma ascii_pattern_lit w : is_ascii w = true -> ascii_pattern (RLit false w).
Proof.
  induction w as [|c w IH]; [done|]. unfold is_ascii. cbn [forallb]. intros [Hc Hw]%andb_true_iff. split; [|by apply IH].
  intros x Hx%N.eqb_eq. apply N.ltb_lt in Hc. lia.
Qed.

Lemma forallb_class_ascii (p : rune -> bool) (u : list seg) :
  (forall x, p x = true -> (x < 128)%N) -> forallb (fun sg : seg => p sg.1) u = true ->
  forallb (fun sg : seg => (sg.1 <? 128)%N) u = true.
Proof.
  intros Hp. induction u as [|sg u IH]; [done|]. cbn [forallb]. intros [Hx Hu]%andb_true_iff.
  rewrite IH by done. apply andb_true_iff. split; [|done]. by apply N.ltb_lt, Hp.
Qed.

Lemma matches_ascii r prev u v : ascii_pattern r -> matches r prev u v -> forallb (fun sg : seg => (sg.1 <? 128)%N) u = true.
Proof.
  revert prev u v. induction r as [p|p lo hi g|a IHa b IHb|a IHa b IHb| | | |]; intros prev u v; cbn [ascii_pattern matches].
  - intros Hp (sg & -> & Hs). apply (forallb_class_ascii p); [exact Hp|]. cbn. by rewrite Hs.
  - intros Hp [Hu _]. by apply (forallb_class_ascii p).
  - intros [Ha Hb] (x & y & -> & Hx & Hy). rewrite forallb_app. apply andb_true_iff. split; [by eapply IHa|by eapply IHb].
  - intros [Ha Hb] [Hu|Hu]; [by eapply IHa|by eapply IHb].
  - by intros _ ->.
  - by intros _ [-> _].
  - by intros _ [-> _].
  - by intros _ [-> _].
Qed.

Lemma matches_ascii_text r s : ascii_pattern r -> matches r None (decode s) [] -> is_ascii s = true.
Proof.
  intros Hr Hm. apply (matches_ascii _ _ _ _ Hr) in Hm.
  apply (runes_ascii_of (fun x => (x <? 128)%N)); [by intros x Hx%N.ltb_lt|]. unfold runes. by rewrite forallb_map.
Qed.

(** [^r$] for a pattern of ASCII text. *)
Lemma MatchString_ascii r s : ascii_pattern r ->
  MatchString (RSeqs [RBol; r; REol]) s = true <-> is_ascii s = true /\ matches r None (segs s) [].
Proof.
  intros Hr. rewrite MatchString_anchored. split.
  - intros Hm. pose proof (matches_ascii_text r s Hr Hm) as Ha. rewrite (decode_ascii s Ha) in Hm. by split.
  - intros [Ha Hm]. by rewrite (decode_ascii s Ha).
Qed.

Lemma matches_seq_segs a b prev s v :
  matches (RSeq a b) prev (segs s) v
  <-> exists x y, s = x ++ y /\ matches a prev (segs x) (segs y ++ v) /\ matches b (before prev (segs x)) (segs y) v.
Proof.
  cbn [matches]. split.
  - intros (u & w & Hs & Ha & Hb). unfold segs in Hs. apply map_eq_app in Hs as (x & y & -> & <- & <-). by exists x, y.
  - intros (x & y & -> & Ha & Hb). exists (segs x), (segs y). split; [|by split]. unfold segs. by rewrite map_app.
Qed.

Lemma matches_lit_segs w prev s v : is_ascii w = true -> matches (RLit false w) prev (segs s) v <-> s = w.
Proof.
  intros Hw. rewrite (matches_lit w prev _ v Hw). unfold segs. rewrite map_map. cbn [fst]. split; [|by intros ->].
  revert w Hw. induction s as [|c s IH]; intros [|d w] Hw; try done. cbn [map]. intros [= Hc Hs].
  unfold is_ascii in Hw. cbn [forallb] in Hw. apply andb_true_iff in Hw as [_ Hw]. by rewrite (b2n_inj _ _ Hc), (IH w Hw Hs).
Qed.

Lemma matches_rep_segs p lo hi g prev s v :
  matches (RRep p lo hi g) prev (segs s) v <-> forallb (fun c => p (b2n c)) s = true /\ within lo hi (length s) = true.
Proof. cbn [matches]. unfold segs. rewrite forallb_map, length_map. done. Qed.
