(* ===== verification/StringUtil.v ===== *)
(** * internal/stringutil and internal/connectors

    Shell quoting, blank handling, redaction of secrets, UUID conversions
    (src/internal/stringutil/stringutil.go) and the runtime variable type with
    its key syntax (src/internal/connectors/connectors.go).  A small reader of
    POSIX shell words serves as the specification of [ShellQuote]. *)

From S2P Require Import Prelude GoStrings GoStringsFacts GoRegexp.

Definition HasControlCharacter (value : str) : bool := existsb is_control (runes value).

Definition ShellQuote (value : str) : str :=
  squote ++ ReplaceAll value squote (squote ++ lit "\" ++ squote ++ squote) ++ squote.

Fixpoint FirstNonBlank (values : list str) : str :=
  match values with
  | [] => []
  | value :: t => let value := TrimSpace value in
                  if negb (value =s []) then value else FirstNonBlank t
  end.

Fixpoint unique_loop (values : list str) (seen : gset str) : list str :=
  match values with
  | [] => []
  | value :: t =>
      let value := TrimSpace value in
      if value =s [] then unique_loop t seen
      else if bool_decide (value ∈ seen) then unique_loop t seen
      else value :: unique_loop t ({[value]} ∪ seen)
  end.
Definition UniqueTrimmed (values : list str) : list str := unique_loop values ∅.

(** The six patterns of [SensitiveTextPatterns], in order. *)
Definition SensitiveTextPatterns : list regex :=
  let word := fun r => is_alnum r || class (lit "_.-") r in
  [ RSeq (RAlts (map (RLit true)
        [lit "ghp_"; lit "github_pat_"; lit "xoxb-"; lit "xoxp-"; lit "sk_live_";
         lit "sk_test_"; lit "dp.pt."; lit "AIza"]))
      (RPlus (fold_class word));
    RSeqs [RWordBoundary; RAlt (RLit false (lit "AKIA")) (RLit false (lit "ASIA"));
      RRep (fun r => is_upper_ascii r || is_digit r) 16 (Some 16%nat) true; RWordBoundary];
    RSeq (RLit false (lit "https://hooks.slack.com/services/"))
      (RPlus (fun r => is_alnum r || class (lit "/_-") r));
    RSeqs [RLit true (lit "bearer"); RPlus (class (tabulator ++ newline ++ byte 12 ++ byte 13 ++ lit " "));
      RRep (fold_class (fun r => is_alnum r || class (lit "._~+/=-") r)) 8 None true];
    RSeqs [RLit true (lit "authorization:"); RStar (class (tabulator ++ newline ++ byte 12 ++ byte 13 ++ lit " "));
      RLit true (lit "basic"); RPlus (class (tabulator ++ newline ++ byte 12 ++ byte 13 ++ lit " "));
      RRep (fold_class (fun r => is_alnum r || class (lit "+/=") r)) 8 None true];
    RSeqs [RLit false (lit "-----BEGIN "); RStar (fun r => is_upper_ascii r || (r =? 32)%N);
      RLit false (lit "PRIVATE KEY-----"); RRep (fun _ => true) 0 None false;
      RLit false (lit "-----END "); RStar (fun r => is_upper_ascii r || (r =? 32)%N);
      RLit false (lit "PRIVATE KEY-----")] ].

Definition redact_match `{UnicodeTables} (m : str) : str :=
  if HasPrefix (ToLower m) (lit "bearer ") then lit "Bearer [redacted]" else lit "[redacted]".

Definition RedactSensitiveText `{UnicodeTables} (value : str) : str :=
  fold_left (fun v pattern => ReplaceAllStringFunc pattern v redact_match)
    SensitiveTextPatterns value.

(** google/uuid is not part of the repository: parsing and printing are
    parameters. *)
Class UuidLib := {
  uuid_Parse : str -> result str;
  uuid_String : str -> str;
}.

Definition PgUUID' `{UuidLib} (value : str) : result pgUUID_t :=
  match uuid_Parse value with
  | inr err => inr err
  | inl id => inl (PgUUID id true)
  end.

Definition UUIDString `{UuidLib} (id : pgUUID_t) : str :=
  if negb (uuid_valid id) then [] else uuid_String (uuid_bytes id).

(** [os.UserHomeDir] is the argument [home]; [None] when it fails. *)
Definition ExpandHome (home : option str) (p : str) : str :=
  match home with
  | Some h =>
      if p =s lit "~" then h
      else if HasPrefix p (lit "~/") then path_Join [h; TrimPrefix p (lit "~/")] else p
  | None => p
  end.

(** ** internal/connectors *)

Record RuntimeVariable := { Key : str; Value : str; IsPublic : bool }.
#[export] Instance RuntimeVariable_eq_dec : EqDecision RuntimeVariable.
Proof. solve_decision. Defined.

Record RuntimeVariableScope := { ApplicationName' : str; Project : str; Config : str }.

Definition runtimeVariableKeyPattern : regex :=
  RSeqs [RBol; RClass (fun r => is_alpha r || (r =? 95)%N);
         RStar (fun r => is_alnum r || (r =? 95)%N); REol].
Definition ValidRuntimeVariableKey (key : str) : bool :=
  MatchString runtimeVariableKeyPattern key.

Definition NormalizeCredentialStatus (status : str) : str * bool :=
  let status := TrimSpace status in
  if status =s [] then (lit "active", true)
  else if (status =s lit "active") || (status =s lit "rotating")
       || (status =s lit "revoked") || (status =s lit "unknown")
  then (status, true) else ([], false).

(** ** Shell words

    How a POSIX shell reads one literal word: single quotes preserve every
    byte, a backslash outside quotes preserves the next one, an unquoted
    delimiter ends the word, and any other unquoted special character means
    that the text is not a literal word. *)

Definition sh_delimiter (c : ascii) : bool :=
  existsb (fun d => bool_decide (c = d)) (tabulator ++ newline ++ lit " ;&|<>()").
Definition sh_special (c : ascii) : bool :=
  existsb (fun d => bool_decide (c = d)) (dquote ++ lit "$`*?[#~!{}").

Fixpoint sh_word (quoted : bool) (s : str) : option (str * str) :=
  match s with
  | [] => if quoted then None else Some ([], [])
  | c :: t =>
      if quoted then
        if bool_decide (c = "'"%char) then sh_word false t
        else (fun '(w, r) => (c :: w, r)) <$> sh_word true t
      else if bool_decide (c = "'"%char) then sh_word true t
      else if bool_decide (c = "\"%char) then
        match t with
        | d :: u => (fun '(w, r) => (d :: w, r)) <$> sh_word false u
        | [] => None
        end
      else if sh_delimiter c then Some ([], s)
      else if sh_special c then None
      else (fun '(w, r) => (c :: w, r)) <$> sh_word false t
  end.

(** The text after a word starts with a delimiter or is empty. *)
Definition sh_ends (rest : str) : bool :=
  match rest with [] => true | c :: _ => sh_delimiter c end.

(** ** Lemmas *)

Lemma sh_word_end rest : sh_ends rest = true -> sh_word false rest = Some ([], rest).
Proof.
  destruct rest as [|c t]; [done|]. simpl. intros H.
  destruct (bool_decide (c = "'"%char)) eqn:E1; [bool_simp; by subst c|].
  destruct (bool_decide (c = "\"%char)) eqn:E2; [bool_simp; by subst c|].
  by rewrite H.
Qed.

(** The escape that [ShellQuote] writes for a quote reads back as one quote. *)
Lemma sh_word_escape x :
  sh_word true ((squote ++ lit "\" ++ squote ++ squote) ++ x)
  = (fun '(w, r) => ("'"%char :: w, r)) <$> sh_word true x.
Proof. reflexivity. Qed.

Lemma sh_word_quoted_body v t :
  sh_word true (ReplaceAll v squote (squote ++ lit "\" ++ squote ++ squote) ++ squote ++ t)
  = (fun '(w, r) => (v ++ w, r)) <$> sh_word false t.
Proof.
  unfold squote at 1. change (byte 39) with (["'"%char]). rewrite replace_byte.
  induction v as [|c v IH].
  - simpl. by destruct (sh_word false t) as [[w r]|].
  - cbn [flat_map]. rewrite <- app_assoc. case_bool_decide as Hc.
    + subst c. rewrite sh_word_escape, IH. by destruct (sh_word false t) as [[w r]|].
    + cbn [app sh_word]. rewrite bool_decide_false by congruence. rewrite IH.
      by destruct (sh_word false t) as [[w r]|].
Qed.

Lemma sh_word_ShellQuote v rest :
  sh_ends rest = true -> sh_word false (ShellQuote v ++ rest) = Some (v, rest).
Proof.
  intros H. unfold ShellQuote. rewrite <- !app_assoc.
  change (squote ++ ?x) with ("'"%char :: x) at 1. cbn [sh_word].
  rewrite bool_decide_true by done. rewrite sh_word_quoted_body.
  rewrite sh_word_end by done. simpl. by rewrite app_nil_r.
Qed.

Lemma ShellQuote_inj a b : ShellQuote a = ShellQuote b -> a = b.
Proof.
  intros H. pose proof (sh_word_ShellQuote a [] eq_refl) as Ha.
  pose proof (sh_word_ShellQuote b [] eq_refl) as Hb.
  rewrite H in Ha. rewrite Hb in Ha. by inversion Ha.
Qed.

Lemma ValidRuntimeVariableKey_runes key :
  ValidRuntimeVariableKey key
  = match runes key with
    | [] => false
    | x :: t => (is_alpha x || (x =? 95)%N) && forallb (fun r => is_alnum r || (r =? 95)%N) t
    end.
Proof.
  unfold ValidRuntimeVariableKey, runtimeVariableKeyPattern, RStar.
  rewrite MatchString_head_rep. destruct (runes key); [done|].
  unfold within. simpl. by rewrite andb_true_r.
Qed.

Lemma unique_loop_spec values seen :
  NoDup (unique_loop values seen)
  /\ (forall v, v ∈ unique_loop values seen <->
       (v ∉ seen /\ v <> [] /\ exists u, u ∈ values /\ v = TrimSpace u)).
Proof.
  revert seen. induction values as [|x t IH]; intros seen.
  - split; [constructor|]. intros v. split; [by rewrite elem_of_nil|].
    intros (_ & _ & u & Hu & _). by rewrite elem_of_nil in Hu.
  - cbn [unique_loop]. destruct (TrimSpace x =s []) eqn:E; bool_simp.
    { destruct (IH seen) as [H1 H2]. split; [done|]. intros v. rewrite H2. set_solver. }
    case_bool_decide as Hs.
    { destruct (IH seen) as [H1 H2]. split; [done|]. intros v. rewrite H2. set_solver. }
    destruct (IH ({[TrimSpace x]} ∪ seen)) as [H1 H2]. split.
    + constructor; [|done]. rewrite H2. set_solver.
    + intros v. rewrite elem_of_cons, H2. destruct (decide (v = TrimSpace x)); set_solver.
Qed.
