(* ===== verification/ShellSpec.v ===== *)
(** * Reading simple shell commands

    [sh_reads s tokens]: a POSIX shell splits the text [s] into these words and
    operators, and every word is a literal (nothing in it is expanded).  This is
    the specification the command builders are measured against: an argument
    that went through [ShellQuote] is one word with exactly its own bytes. *)

From S2P Require Import Prelude GoStrings GoStringsFacts StringUtil.

Inductive token := W (w : str) | Op (o : str).

Inductive sh_reads : str -> list token -> Prop :=
| reads_nil : sh_reads [] []
| reads_blank s l : sh_reads s l -> sh_reads (lit " " ++ s) l
| reads_and s l : sh_reads s l -> sh_reads (lit "&&" ++ s) (Op (lit "&&") :: l)
| reads_op c s l :
    c ∈ lit "|>" -> sh_reads s l -> sh_reads (c :: s) (Op [c] :: l)
| reads_word c s w rest l :
    sh_delimiter c = false -> sh_word false (c :: s) = Some (w, rest) ->
    sh_reads rest l -> sh_reads (c :: s) (W w :: l).

(** A byte that stands for itself outside quotes. *)
Definition sh_plain (c : ascii) : bool :=
  negb (sh_delimiter c) && negb (sh_special c)
  && negb (bool_decide (c = "'"%char)) && negb (bool_decide (c = "\"%char)).

Lemma sh_word_plain pre s w rest :
  forallb sh_plain pre = true -> sh_word false s = Some (w, rest) ->
  sh_word false (pre ++ s) = Some (pre ++ w, rest).
Proof.
  induction pre as [|c pre IH]; [done|]. intros Hp Hs. simpl in Hp. bool_simp.
  unfold sh_plain in H. bool_simp. cbn [app sh_word].
  rewrite !bool_decide_false by done. rewrite H, H3. by rewrite IH.
Qed.

Lemma reads_plain w rest l :
  w <> [] -> forallb sh_plain w = true -> sh_ends rest = true -> sh_reads rest l ->
  sh_reads (w ++ rest) (W w :: l).
Proof.
  intros Hne Hp He Hr. destruct w as [|c w]; [done|]. cbn [app].
  apply (reads_word c (w ++ rest) (c :: w) rest); [| |done].
  - simpl in Hp. unfold sh_plain in Hp. by bool_simp.
  - pose proof (sh_word_plain (c :: w) rest [] rest Hp (sh_word_end _ He)) as E. by rewrite app_nil_r in E.
Qed.

(** An argument quoted by the program, alone or after a plain prefix, is one
    word. *)
Lemma reads_quoted_after pre v rest l :
  forallb sh_plain pre = true -> sh_ends rest = true -> sh_reads rest l ->
  sh_reads (pre ++ ShellQuote v ++ rest) (W (pre ++ v) :: l).
Proof.
  intros Hp He Hr.
  assert (Hw : sh_word false (pre ++ ShellQuote v ++ rest) = Some (pre ++ v, rest)).
  { apply sh_word_plain; [done|]. by apply sh_word_ShellQuote. }
  destruct pre as [|c pre].
  - by apply (reads_word "'"%char _ v rest).
  - apply (reads_word c _ (c :: pre ++ v) rest); [|done|done].
    simpl in Hp. unfold sh_plain in Hp. by bool_simp.
Qed.

Lemma reads_quoted v rest l :
  sh_ends rest = true -> sh_reads rest l -> sh_reads (ShellQuote v ++ rest) (W v :: l).
Proof. apply (reads_quoted_after []). done. Qed.

Lemma reads_blanks s l : sh_reads s l -> sh_reads (" "%char :: s) l.
Proof. apply reads_blank. Qed.

(** Every byte that starts a rest is a delimiter: the reader is deterministic. *)
Ltac is_operator :=
  match goal with H : _ ∈ lit "|>" |- _ => apply list_elem_of_In in H as [?|[?|[]]]; congruence end.

Lemma sh_reads_det s l1 l2 : sh_reads s l1 -> sh_reads s l2 -> l1 = l2.
Proof.
  intros H1. revert l2. induction H1 as [|s l H IH|s l H IH|c s l Hc H IH|c s w rest l Hd Hw H IH];
    intros l2 H2; inversion H2; subst; try done; try is_operator; try (by apply IH); try (f_equal; by apply IH).
  - apply list_elem_of_In in Hc as [<-|[<-|[]]]; done.
  - match goal with H : _ ∈ lit "|>" |- _ => apply list_elem_of_In in H as [<-|[<-|[]]]; done end.
  - match goal with H : sh_word false _ = Some _ |- _ => rewrite Hw in H; injection H as -> -> end.
    f_equal. by apply IH.
Qed.

(** Reads a command word by word: constants compute, [ShellQuote v] is opaque. *)
Ltac sh_split s k :=
  lazymatch s with
  | [] => k (@nil ascii) s
  | " "%char :: _ => k (@nil ascii) s
  | ?c :: ?t => sh_split t ltac:(fun w r => k (c :: w) r)
  | _ => k (@nil ascii) s
  end.

Ltac sh_step :=
  lazymatch goal with
  | |- sh_reads [] _ => apply reads_nil
  | |- sh_reads (" "%char :: _) _ => apply reads_blanks
  | |- sh_reads ("&"%char :: "&"%char :: ?s) _ => apply (reads_and s)
  | |- sh_reads ("|"%char :: ?s) _ => apply (reads_op "|"%char s); [by left|]
  | |- sh_reads (">"%char :: ?s) _ => apply (reads_op ">"%char s); [by right; left|]
  | |- sh_reads (ShellQuote ?v) _ =>
      rewrite <- (app_nil_r (ShellQuote v)); apply (reads_quoted v []); [reflexivity|]
  | |- sh_reads (ShellQuote ?v ++ ?s) _ => apply (reads_quoted v s); [reflexivity|]
  | |- sh_reads ?s _ =>
      sh_split s ltac:(fun w r =>
        lazymatch r with
        | ShellQuote ?v ++ ?rest =>
            apply (reads_quoted_after w v rest); [reflexivity|reflexivity|]
        | _ => apply (reads_plain w r); [discriminate|reflexivity|reflexivity|]
        end)
  end.
Ltac sh_read := repeat sh_step.
