(* ===== verification/Effects.v ===== *)
(** * Programs that call their environment

    Go code that talks to the database, to a remote host or to a log is
    written as a [prog E]: a tree that issues calls of an interface [E] (a
    family of calls indexed by the type of their answers) and continues with
    the answer.  [runs] relates a program to the traces it can produce when the
    environment answers anything at all; [exec] runs it against one handler.
    Properties of [runs] therefore hold whatever the environment does, errors
    and lost connections included. *)

From S2P Require Import Prelude.

Inductive prog (E : Type -> Type) (A : Type) : Type :=
| Ret (a : A)
| Call {X : Type} (e : E X) (k : X -> prog E A).
Arguments Ret {E A} a.
Arguments Call {E A X} e k.

Fixpoint pbind {E A B} (p : prog E A) (f : A -> prog E B) : prog E B :=
  match p with
  | Ret a => f a
  | Call e k => Call e (fun x => pbind (k x) f)
  end.

Definition call {E X} (e : E X) : prog E X := Call e Ret.

(** A program of one interface as a program of a larger one. *)
Fixpoint pmap {E F A} (f : forall X, E X -> F X) (p : prog E A) : prog F A :=
  match p with
  | Ret a => Ret a
  | Call e k => Call (f _ e) (fun x => pmap f (k x))
  end.

(** Sequencing of programs that can fail. *)
Definition pbind_ok {E A B} (p : prog E (result A)) (f : A -> prog E (result B)) : prog E (result B) :=
  pbind p (fun r => match r with inl a => f a | inr e => Ret (inr e) end).

Notation "'let!' x := p 'in' k" := (pbind p (fun x => k))
  (at level 10, x pattern, p at level 100, k at level 200) : go_scope.
Notation "'let!?' x := p 'in' k" := (pbind_ok p (fun x => k))
  (at level 10, x pattern, p at level 100, k at level 200) : go_scope.

(** [if err != nil { return fmt.Errorf(prefix+"%w", err) }] *)
Definition wrap_err {A} (prefix : str) (r : result A) : result A :=
  match r with inl a => inl a | inr e => inr (ErrWrap prefix e []) end.

Definition call_or {E X} (prefix : str) (e : E (result X)) : prog E (result X) :=
  let! r := call e in Ret (wrap_err prefix r).

(** ** Traces *)

Inductive event (E : Type -> Type) : Type :=
| Ev {X : Type} (e : E X) (x : X).
Arguments Ev {E X} e x.

Fixpoint runs {E A} (p : prog E A) (tr : list (event E)) (a : A) : Prop :=
  match p with
  | Ret b => tr = [] /\ a = b
  | Call e k => exists x tr', tr = Ev e x :: tr' /\ runs (k x) tr' a
  end.

Definition handler (E : Type -> Type) (S : Type) : Type := forall X : Type, E X -> S -> X * S.

Fixpoint exec {E S A} (h : handler E S) (p : prog E A) (s : S) : A * list (event E) * S :=
  match p with
  | Ret a => (a, [], s)
  | Call e k =>
      let '(x, s1) := h _ e s in
      let '(a, tr, s2) := exec h (k x) s1 in
      (a, Ev e x :: tr, s2)
  end.

(** A run against an environment that only answers some calls. *)
Fixpoint drive {E A} (h : forall X : Type, E X -> option X) (p : prog E A) : option (list (event E) * A) :=
  match p with
  | Ret a => Some ([], a)
  | Call e k =>
      match h _ e with
      | Some x => match drive h (k x) with Some (tr, a) => Some (Ev e x :: tr, a) | None => None end
      | None => None
      end
  end.

(** What holds of every run, whatever the environment answers. *)
Definition spec {E A} (p : prog E A) (Q : list (event E) -> A -> Prop) : Prop :=
  forall tr a, runs p tr a -> Q tr a.

(** Every call of every run satisfies [P]. *)
Fixpoint only {E A} (P : forall X, E X -> Prop) (p : prog E A) : Prop :=
  match p with
  | Ret _ => True
  | Call e k => P _ e /\ forall x, only P (k x)
  end.

Definition ev_call {E} (P : forall X, E X -> Prop) (ev : event E) : Prop :=
  match ev with Ev e _ => P _ e end.

Section Facts.
Context {E : Type -> Type}.
Implicit Types (tr : list (event E)).

Lemma runs_bind {A B} (p : prog E A) (f : A -> prog E B) tr b :
  runs (pbind p f) tr b <-> exists tr1 a tr2, tr = tr1 ++ tr2 /\ runs p tr1 a /\ runs (f a) tr2 b.
Proof.
  revert tr. induction p as [a|X e k IH]; intros tr; simpl.
  - split.
    + intros H. by exists [], a, tr.
    + by intros (tr1 & a' & tr2 & -> & [-> ->] & H).
  - split.
    + intros (x & tr' & -> & H). apply IH in H as (tr1 & a & tr2 & -> & H1 & H2).
      exists (Ev e x :: tr1), a, tr2. split; [done|]. split; [|done]. by exists x, tr1.
    + intros (tr1 & a & tr2 & -> & (x & tr' & -> & H1) & H2).
      exists x, (tr' ++ tr2). split; [done|]. apply IH. by exists tr', a, tr2.
Qed.

Lemma runs_bind_ok {A B} (p : prog E (result A)) (f : A -> prog E (result B)) tr b :
  runs (pbind_ok p f) tr b <->
  (exists e, runs p tr (inr e) /\ b = inr e)
  \/ (exists tr1 a tr2, tr = tr1 ++ tr2 /\ runs p tr1 (inl a) /\ runs (f a) tr2 b).
Proof.
  unfold pbind_ok. rewrite runs_bind. split.
  - intros (tr1 & [a|e] & tr2 & -> & H1 & H2).
    + right. by exists tr1, a, tr2.
    + left. destruct H2 as [-> ->]. exists e. by rewrite app_nil_r.
  - intros [(e & H & ->) | (tr1 & a & tr2 & -> & H1 & H2)].
    + exists tr, (inr e), []. by rewrite app_nil_r.
    + by exists tr1, (inl a), tr2.
Qed.

Lemma runs_call {X} (e : E X) tr x : runs (call e) tr x <-> tr = [Ev e x].
Proof.
  simpl. split.
  - by intros (y & tr' & -> & -> & ->).
  - intros ->. by exists x, [].
Qed.

Lemma exec_runs {S A} (h : handler E S) (p : prog E A) s a tr s' :
  exec h p s = (a, tr, s') -> runs p tr a.
Proof.
  revert s tr. induction p as [b|X e k IH]; intros s tr; simpl.
  - by intros [= -> <- _].
  - destruct (h X e s) as [x s1]. destruct (exec h (k x) s1) as [[a' tr'] s2] eqn:Ex.
    intros [= -> <- ->]. exists x, tr'. split; [done|]. by eapply IH.
Qed.

Lemma drive_runs {A} (h : forall X : Type, E X -> option X) (p : prog E A) tr a : drive h p = Some (tr, a) -> runs p tr a.
Proof.
  revert tr. induction p as [b|X e k IH]; intros tr; simpl; [by intros [= <- ->]|].
  destruct (h X e) as [x|]; [|done]. destruct (drive h (k x)) as [[tr' a']|] eqn:Ed; [|done]. intros [= <- ->].
  exists x, tr'. split; [done|]. by apply IH.
Qed.

Lemma exec_bind {S A B} (h : handler E S) (p : prog E A) (f : A -> prog E B) s :
  exec h (pbind p f) s =
  let '(a, tr1, s1) := exec h p s in
  let '(b, tr2, s2) := exec h (f a) s1 in (b, tr1 ++ tr2, s2).
Proof.
  revert s. induction p as [b|X e k IH]; intros s; simpl.
  - by destruct (exec h (f b) s) as [[? ?] ?].
  - destruct (h X e s) as [x s1]. rewrite IH.
    destruct (exec h (k x) s1) as [[a' tr'] s2].
    by destruct (exec h (f a') s2) as [[? ?] ?].
Qed.

Lemma only_bind {A B} P (p : prog E A) (f : A -> prog E B) :
  only P p -> (forall a, only P (f a)) -> only P (pbind p f).
Proof.
  intros Hp Hf. induction p as [a|X e k IH]; simpl; [done|].
  destruct Hp as [? Hk]. split; [done|]. intros x. apply IH, Hk.
Qed.

Lemma only_bind_ok {A B} P (p : prog E (result A)) (f : A -> prog E (result B)) :
  only P p -> (forall a, only P (f a)) -> only P (pbind_ok p f).
Proof. intros Hp Hf. apply only_bind; [done|]. intros [a|e]; [apply Hf|done]. Qed.

Lemma only_call {X} (P : forall X, E X -> Prop) (e : E X) : P X e -> only P (call e).
Proof. by split. Qed.

Lemma only_call_or {X} (P : forall X, E X -> Prop) l (e : E (result X)) : P _ e -> only P (call_or l e).
Proof. by split. Qed.

Lemma only_runs {A} P (p : prog E A) tr a : only P p -> runs p tr a -> Forall (ev_call P) tr.
Proof.
  revert tr. induction p as [b|X e k IH]; intros tr; simpl.
  - by intros _ [-> _].
  - intros [He Hk] (x & tr' & -> & H). constructor; [done|]. by eapply IH.
Qed.

Lemma only_weaken {A} (P Q : forall X, E X -> Prop) (p : prog E A) :
  (forall X (e : E X), P X e -> Q X e) -> only P p -> only Q p.
Proof. intros HPQ. induction p as [a|X e k IH]; simpl; [done|]. intros [? ?]. split; auto. Qed.

Lemma only_true {A} (p : prog E A) : only (fun _ _ => True) p.
Proof. induction p as [a|X e k IH]; by split. Qed.

(** A property of the handler's state that every issued call preserves. *)
Lemma exec_preserves {S A} (h : handler E S) (I : S -> Prop) (P : forall X, E X -> Prop) (p : prog E A) s :
  (forall X (e : E X) s, P X e -> I s -> I (h X e s).2) ->
  only P p -> I s -> I (exec h p s).2.
Proof.
  intros Hh. revert s. induction p as [a|X e k IH]; intros s; simpl; [done|].
  intros [He Hk] Hs. specialize (Hh X e s He Hs). destruct (h X e s) as [x s1]. simpl in Hh.
  specialize (IH x s1 (Hk x) Hh). by destruct (exec h (k x) s1) as [[? ?] ?].
Qed.
End Facts.

(** Running an embedded program is running the program. *)
Lemma exec_pmap {E F S A} (f : forall X, E X -> F X) (h : handler F S) (p : prog E A) s :
  exec h (pmap f p) s
  = (let '(a, tr, s') := exec (fun X e => h X (f X e)) p s in
     (a, map (fun ev => match ev with Ev e x => Ev (f _ e) x end) tr, s')).
Proof.
  revert s. induction p as [a|X e k IH]; intros s; [done|]. simpl.
  destruct (h X (f X e) s) as [x s1]. rewrite IH.
  by destruct (exec (fun X e => h X (f X e)) (k x) s1) as [[a tr] s2].
Qed.

(** Handlers that agree on part of the state. *)
Lemma exec_lens {E S T A} (h : handler E S) (g : handler E T) (get : T -> S) (put : T -> S -> T) (p : prog E A) t :
  (forall X e t, g X e t = (let '(x, s) := h X e (get t) in (x, put t s))) ->
  (forall t s, get (put t s) = s) -> (forall t s s', put (put t s) s' = put t s') -> (forall t, put t (get t) = t) ->
  exec g p t = (let '(a, tr, s) := exec h p (get t) in (a, tr, put t s)).
Proof.
  intros Hg Hgp Hpp Hpg. revert t. induction p as [a|X e k IH]; intros t; simpl.
  - by rewrite Hpg.
  - rewrite Hg. destruct (h X e (get t)) as [x s1] eqn:E1. rewrite IH, Hgp.
    destruct (exec h (k x) s1) as [[a tr] s2]. by rewrite Hpp.
Qed.

(** ** Results

    The answer and the state of a run, without its trace. *)

Definition run {E S A} (h : handler E S) (p : prog E A) (s : S) : A * S := ((exec h p s).1.1, (exec h p s).2).

Section Run.
Context {E : Type -> Type} {S : Type} (h : handler E S).

Lemma run_ret {A} (a : A) s : run h (Ret a) s = (a, s).
Proof. done. Qed.

Lemma run_call {X} (e : E X) s : run h (call e) s = h X e s.
Proof. unfold run, call. cbn. by destruct (h X e s). Qed.

Lemma run_bind {A B} (p : prog E A) (f : A -> prog E B) s : run h (pbind p f) s = run h (f (run h p s).1) (run h p s).2.
Proof.
  unfold run. rewrite exec_bind. destruct (exec h p s) as [[a tr] s1]. cbn [fst snd].
  by destruct (exec h (f a) s1) as [[b tr2] s2].
Qed.

Lemma run_bind_ok {A B} (p : prog E (result A)) (f : A -> prog E (result B)) s :
  run h (pbind_ok p f) s = match run h p s with (inl a, s1) => run h (f a) s1 | (inr e, s1) => (inr e, s1) end.
Proof. unfold pbind_ok. rewrite run_bind. by destruct (run h p s) as [[a|e] s1]. Qed.
End Run.

(** ** Triples

    [triple h P p Q]: run by the handler [h] from a state that satisfies [P], the
    program ends with an answer and a state that satisfy [Q]. *)

Definition triple {E S A} (h : handler E S) (P : S -> Prop) (p : prog E A) (Q : A -> S -> Prop) : Prop :=
  forall s, P s -> Q (exec h p s).1.1 (exec h p s).2.

Section Triples.
Context {E : Type -> Type} {S : Type} (h : handler E S).

Lemma triple_ret {A} (a : A) (P : S -> Prop) (Q : A -> S -> Prop) : (forall s, P s -> Q a s) -> triple h P (Ret a) Q.
Proof. intros Hq s Hs. by apply Hq. Qed.

Lemma triple_call {X} (e : E X) (P : S -> Prop) (Q : X -> S -> Prop) :
  (forall s x s', P s -> h X e s = (x, s') -> Q x s') -> triple h P (call e) Q.
Proof. intros Hq s Hs. cbn. destruct (h X e s) as [x s'] eqn:Eh. by apply (Hq s). Qed.

Lemma triple_bind {A B} (p : prog E A) (f : A -> prog E B) (P : S -> Prop) (R : A -> S -> Prop) (Q : B -> S -> Prop) :
  triple h P p R -> (forall a, triple h (R a) (f a) Q) -> triple h P (pbind p f) Q.
Proof.
  intros Hp Hf s Hs. specialize (Hp s Hs). rewrite exec_bind. destruct (exec h p s) as [[a tr] s1]. cbn [fst snd] in Hp.
  specialize (Hf a s1 Hp). by destruct (exec h (f a) s1) as [[b tr2] s2].
Qed.

(** A part of the postcondition that does not depend on the state. *)
Lemma triple_bind_pure {A B} (p : prog E A) (f : A -> prog E B) (P : S -> Prop) (G : A -> Prop)
    (R : A -> S -> Prop) (Q : B -> S -> Prop) :
  triple h P p (fun a s => G a /\ R a s) -> (forall a, G a -> triple h (R a) (f a) Q) -> triple h P (pbind p f) Q.
Proof. intros Hp Hf. apply (triple_bind _ _ _ _ _ Hp). intros a s [Hg Hs]. exact (Hf a Hg s Hs). Qed.

Lemma triple_weaken {A} (p : prog E A) (P P' : S -> Prop) (Q Q' : A -> S -> Prop) :
  (forall s, P' s -> P s) -> (forall a s, Q a s -> Q' a s) -> triple h P p Q -> triple h P' p Q'.
Proof. intros HP HQ Hp s Hs. apply HQ, Hp, HP, Hs. Qed.

(** An invariant of the calls is one of the program. *)
Lemma triple_only {A} (I : S -> Prop) (P : forall X, E X -> Prop) (p : prog E A) :
  (forall X (e : E X) s, P X e -> I s -> I (h X e s).2) -> only P p -> triple h I p (fun _ => I).
Proof. intros Hh Hp s Hs. exact (exec_preserves h I P p s Hh Hp Hs). Qed.
End Triples.

(** ** Observing a run

    [obs] picks the events that matter; [observed obs p Q] says that [Q] holds of
    them and of the result in every run of [p]. *)
Section Observed.
Context {E : Type -> Type} {M : Type} (obs : event E -> option M).

Definition observed {A} (p : prog E A) (Q : list M -> A -> Prop) : Prop := spec p (fun tr a => Q (omap obs tr) a).

Lemma observed_ret {A} (a : A) (Q : list M -> A -> Prop) : Q [] a -> observed (Ret a) Q.
Proof. intros Hq tr b [-> ->]. exact Hq. Qed.

Lemma observed_bind {A B} (p : prog E A) (f : A -> prog E B) (R : list M -> A -> Prop) (Q : list M -> B -> Prop) :
  observed p R -> (forall m1 a, R m1 a -> observed (f a) (fun m2 b => Q (m1 ++ m2) b)) -> observed (pbind p f) Q.
Proof.
  intros Hp Hf tr b (tr1 & a & tr2 & -> & Hr1 & Hr2)%runs_bind.
  rewrite omap_app. exact (Hf _ _ (Hp _ _ Hr1) _ _ Hr2).
Qed.

Lemma observed_call {X} (e : E X) (Q : list M -> X -> Prop) :
  (forall x, Q (omap obs [Ev e x]) x) -> observed (call e) Q.
Proof. intros Hq tr x ->%runs_call. apply Hq. Qed.

Lemma observed_weaken {A} (p : prog E A) (R Q : list M -> A -> Prop) :
  observed p R -> (forall m a, R m a -> Q m a) -> observed p Q.
Proof. intros Hp HRQ tr a Hr. apply HRQ, Hp, Hr. Qed.
End Observed.

Create HintDb only discriminated.
#[export] Hint Resolve only_bind only_bind_ok only_call only_call_or : only.

(** Decomposes the hypothesis that a composed program runs. *)
Ltac inv_runs H :=
  repeat match type of H with
  | runs (pbind _ _) _ _ =>
      let tr1 := fresh "tr" in let a := fresh "a" in let tr2 := fresh "tr" in
      let H1 := fresh "Hrun" in
      apply runs_bind in H as (tr1 & a & tr2 & -> & H1 & H)
  | runs (call _) _ _ => apply runs_call in H; subst
  | runs (Ret _) _ _ => destruct H as [? ?]; subst
  end.
