(* ===== verification/Db.v ===== *)
(** * internal/db: the tables and the SQL the deployment engine runs

    A table is the list of its rows.  A statement of
    src/internal/db/core.sql.go is a function from the database to a result
    and the next database; a statement that fails changes nothing.  [now()] is
    the clock of the database.  The constraints of
    src/internal/migrations/sql that the statements can meet are checked on
    the rows they write. *)

From S2P Require Import Prelude GoStrings GoRegexp GoJson.

Abbreviation timestamptz := (option Z).

Module Application.
Record t := mk {
  ID : pgUUID_t; EnvironmentID : pgUUID_t; ServerID : pgUUID_t; Name : str;
  RepositoryUrl : pgText; Branch : str; ComposePath : str; RemoteDirectory : str;
  Domain : pgText; HealthCheckUrl : pgText; DopplerProject : pgText; DopplerConfig : pgText;
  Status : str; CurrentVersion : pgText; TargetVersion : pgText;
  CreatedAt : timestamptz; UpdatedAt : timestamptz; GithubAutoDeploy : bool;
  ConfigurationRevision : Z; DeployedConfigurationRevision : Z;
  DeployedProjectConfigurationRevision : Z; ComposeServices : bytes }.
End Application.

Module Deployment.
Record t := mk {
  ID : pgUUID_t; ApplicationID : pgUUID_t; ServerID : pgUUID_t; Trigger : str;
  Strategy : str; Status : str; CommitSha : pgText; Actor : pgText;
  StartedAt : timestamptz; FinishedAt : timestamptz; CreatedAt : timestamptz;
  ImageRef : pgText; ImageDigest : pgText; SourceRepositoryUrl : pgText;
  SourceBranch : pgText; CommitMessage : pgText; ConfigurationSnapshot : bytes }.
End Deployment.

Module Slot.
Record t := mk {
  ID : pgUUID_t; ApplicationID : pgUUID_t; ServerID : pgUUID_t; Color : str;
  DeploymentID : pgUUID_t; ImageRef : str; ImageDigest : pgText; Status : str;
  PromotedAt : timestamptz; CreatedAt : timestamptz; UpdatedAt : timestamptz }.
End Slot.

Module ServiceConfig.
Record t := mk {
  ApplicationID : pgUUID_t; ComposeService : str; DopplerProject : pgText;
  DopplerConfig : pgText; Variables : bytes; CreatedAt : timestamptz; UpdatedAt : timestamptz }.
End ServiceConfig.

Module ProjectVariable.
Record t := mk {
  ProjectID : pgUUID_t; Key : str; Value : str; CreatedAt : timestamptz; UpdatedAt : timestamptz }.
End ProjectVariable.

Module ProxyRoute.
Record t := mk {
  ID : pgUUID_t; ServerID : pgUUID_t; ApplicationID : pgUUID_t; Domain : str;
  UpstreamUrl : str; TlsEnabled : bool; Status : str; LastAppliedAt : timestamptz;
  CreatedAt : timestamptz; UpdatedAt : timestamptz; BlueUpstreamUrl : pgText;
  GreenUpstreamUrl : pgText; ComposeService : pgText; ContainerPort : option Z;
  PortVariable : pgText }.
End ProxyRoute.

Module DeploymentLog.
Record t := mk {
  ID : Z; DeploymentID : pgUUID_t; Stream : str; Message : str; CreatedAt : timestamptz }.
End DeploymentLog.

Module AuditEvent.
Record t := mk {
  ID : Z; Actor : str; Action : str; TargetType : str; TargetID : str; TargetName : str;
  Metadata : str; CreatedAt : timestamptz }.
End AuditEvent.

Module Environment.
Record t := mk {
  ID : pgUUID_t; ProjectID : pgUUID_t; Name : str; Slug : str; Kind : str; IsEphemeral : bool;
  PullRequestNumber : option Z; Branch : pgText; ExpiresAt : timestamptz; CreatedAt : timestamptz;
  UpdatedAt : timestamptz }.
End Environment.

Module ProjectRow.
Record t := mk {
  ID : pgUUID_t; Name : str; Slug : str; Description : str; CreatedAt : timestamptz; UpdatedAt : timestamptz;
  DefaultRegistryID : pgUUID_t; RepositoryConnectorID : pgUUID_t; RepositoryFullName : pgText; RepositoryBranch : pgText;
  ConfigurationRevision : Z }.
End ProjectRow.

(** The usages are numeric(5,2), in hundredths of a percent. *)
Module Server.
Record t := mk {
  ID : pgUUID_t; Name : str; Hostname : str; SshUser : str; SshPort : Z; SshKeyPath : pgText;
  ConnectionMode : str; ProxyType : str; Status : str; CpuUsage : option Z; MemoryUsage : option Z; DiskUsage : option Z;
  LastCheckedAt : timestamptz; CreatedAt : timestamptz; UpdatedAt : timestamptz }.
End Server.

(** The row of GetDeploymentTarget. *)
Module Target.
Record t := mk {
  DeploymentID : pgUUID_t; Strategy : str; CommitSha : pgText; ImageRef : pgText;
  ImageDigest : pgText; ApplicationID : pgUUID_t; ApplicationName : str;
  RepositoryUrl : pgText; Branch : str; ComposePath : str; RemoteDirectory : str;
  Domain : pgText; HealthCheckUrl : pgText; DopplerProject : pgText; DopplerConfig : pgText;
  ComposeServices : bytes; ConfigurationRevision : Z; ProjectConfigurationRevision : Z;
  RepositoryConnectorID : pgUUID_t; ServerID : pgUUID_t; ServerName : str; Hostname : str;
  SshUser : str; SshPort : Z; SshKeyPath : pgText; ConnectionMode : str; ProxyType : str }.

Definition set_CommitSha (t : t) (v : pgText) : Target.t :=
  mk (DeploymentID t) (Strategy t) v (ImageRef t) (ImageDigest t) (ApplicationID t)
     (ApplicationName t) (RepositoryUrl t) (Branch t) (ComposePath t) (RemoteDirectory t)
     (Domain t) (HealthCheckUrl t) (DopplerProject t) (DopplerConfig t) (ComposeServices t)
     (ConfigurationRevision t) (ProjectConfigurationRevision t) (RepositoryConnectorID t)
     (ServerID t) (ServerName t) (Hostname t) (SshUser t) (SshPort t) (SshKeyPath t)
     (ConnectionMode t) (ProxyType t).
End Target.

(** The row of ListProxyRouteTargetsForApplication. *)
Module RouteTarget.
Record t := mk {
  ID : pgUUID_t; ServerID : pgUUID_t; ApplicationID : pgUUID_t; Domain : str;
  UpstreamUrl : str; TlsEnabled : bool; Status : str; BlueUpstreamUrl : pgText;
  GreenUpstreamUrl : pgText; ComposeService : pgText; ContainerPort : option Z;
  PortVariable : pgText; ServerName : str; Hostname : str; SshUser : str; SshPort : Z;
  SshKeyPath : pgText; ProxyType : str }.
End RouteTarget.

(** A run of a build on GitHub Actions or Cloud Build. *)
Module BuildRun.
Record t := mk {
  ID : pgUUID_t; Provider : str; ConnectorID : pgUUID_t; ApplicationID : pgUUID_t; Repository : str; Branch : str;
  WorkflowID : str; Status : str; CommitSha : pgText; ImageRef : pgText; ImageDigest : pgText; ExternalUrl : pgText;
  ErrorMessage : pgText; StartedAt : timestamptz; CompletedAt : timestamptz; CreatedAt : timestamptz;
  UpdatedAt : timestamptz }.
End BuildRun.

Module ConnectorAccount.
Record t := mk {
  ID : pgUUID_t; Provider : str; Name : str; Enabled : bool; Config : bytes; LastSyncStatus : pgText;
  LastSyncMessage : pgText; LastSyncedAt : timestamptz; CreatedAt : timestamptz; UpdatedAt : timestamptz }.
End ConnectorAccount.

(** The tables of credentials, registries and users of servers. *)
Module Credential.
Record t := mk {
  ID : pgUUID_t; Name : str; Provider : str; ExternalRef : str; CredentialType : str; Status : str;
  LastSeenAt : timestamptz; CreatedAt : timestamptz; UpdatedAt : timestamptz }.
End Credential.

Module PermissionRow.
Record t := mk {
  ID : pgUUID_t; CredentialID : pgUUID_t; ResourceType : str; ResourceName : str; Permission : str; Source : str;
  CreatedAt : timestamptz }.
End PermissionRow.

Module UsageRow.
Record t := mk {
  ID : pgUUID_t; CredentialID : pgUUID_t; UsedByType : str; UsedByName : str; UsageContext : str;
  CreatedAt : timestamptz }.
End UsageRow.

Module ContainerRegistry.
Record t := mk {
  ID : pgUUID_t; Name : str; Provider : str; RegistryHost : str; Namespace : str; Repository : str;
  DefaultImage : str; Enabled : bool; CreatedAt : timestamptz; UpdatedAt : timestamptz }.
End ContainerRegistry.

Module DevUser.
Record t := mk {
  ID : pgUUID_t; ServerID : pgUUID_t; Username : str; CreatedAt : timestamptz; UpdatedAt : timestamptz }.
End DevUser.

Record inventory_tables := Inventory {
  credentials : list Credential.t;
  permissions : list PermissionRow.t;
  usages : list UsageRow.t;
  registries : list ContainerRegistry.t;
  dev_users : list DevUser.t;
}.

Record database := Database {
  applications : list Application.t;
  deployments : list Deployment.t;
  slots : list Slot.t;
  routes : list ProxyRoute.t;
  logs : list DeploymentLog.t;
  audit_events : list AuditEvent.t;
  service_configs : list ServiceConfig.t;
  project_variables : list ProjectVariable.t;
  environments : list Environment.t;
  projects : list ProjectRow.t;
  servers : list Server.t;
  build_runs : list BuildRun.t;
  connector_accounts : list ConnectorAccount.t;
  inventory : inventory_tables;
  clock : Z;
  uuid_supply : nat;
}.

Definition with_applications (db : database) l := Database l (deployments db) (slots db) (routes db)
  (logs db) (audit_events db) (service_configs db) (project_variables db) (environments db) (projects db)
  (servers db) (build_runs db) (connector_accounts db) (inventory db) (clock db) (uuid_supply db).
Definition with_deployments (db : database) l := Database (applications db) l (slots db) (routes db)
  (logs db) (audit_events db) (service_configs db) (project_variables db) (environments db) (projects db)
  (servers db) (build_runs db) (connector_accounts db) (inventory db) (clock db) (uuid_supply db).
Definition with_slots (db : database) l := Database (applications db) (deployments db) l (routes db)
  (logs db) (audit_events db) (service_configs db) (project_variables db) (environments db) (projects db)
  (servers db) (build_runs db) (connector_accounts db) (inventory db) (clock db) (uuid_supply db).
Definition with_routes (db : database) l := Database (applications db) (deployments db) (slots db) l
  (logs db) (audit_events db) (service_configs db) (project_variables db) (environments db) (projects db)
  (servers db) (build_runs db) (connector_accounts db) (inventory db) (clock db) (uuid_supply db).
Definition with_logs (db : database) l := Database (applications db) (deployments db) (slots db) (routes db)
  l (audit_events db) (service_configs db) (project_variables db) (environments db) (projects db)
  (servers db) (build_runs db) (connector_accounts db) (inventory db) (clock db) (uuid_supply db).
Definition with_audit_events (db : database) l := Database (applications db) (deployments db) (slots db)
  (routes db) (logs db) l (service_configs db) (project_variables db) (environments db) (projects db)
  (servers db) (build_runs db) (connector_accounts db) (inventory db) (clock db) (uuid_supply db).
Definition with_uuid_supply (db : database) n := Database (applications db) (deployments db) (slots db)
  (routes db) (logs db) (audit_events db) (service_configs db) (project_variables db) (environments db)
  (projects db) (servers db) (build_runs db) (connector_accounts db) (inventory db) (clock db) n.

Definition with_build_runs (db : database) l := Database (applications db) (deployments db) (slots db)
  (routes db) (logs db) (audit_events db) (service_configs db) (project_variables db) (environments db) (projects db)
  (servers db) l (connector_accounts db) (inventory db) (clock db) (uuid_supply db).

(** Time passes. *)
Definition tick (db : database) : database := Database (applications db) (deployments db) (slots db)
  (routes db) (logs db) (audit_events db) (service_configs db) (project_variables db) (environments db)
  (projects db) (servers db) (build_runs db) (connector_accounts db) (inventory db) (clock db + 1) (uuid_supply db).

(** ** Evaluating statements *)

(** [a = b] in SQL: not true when a side is NULL. *)
Definition uuid_eqb (a b : pgUUID_t) : bool :=
  uuid_valid a && uuid_valid b && (uuid_bytes a =s uuid_bytes b).

(** A text parameter as stored: NULL forgets the string. *)
Definition norm_text (t : pgText) : pgText := if Valid t then t else textNull.
Definition coalesce_text (a b : pgText) : pgText := if Valid a then a else norm_text b.

(** UPDATE ... SET ... WHERE ... RETURNING: the table and the updated rows. *)
Definition sql_update {R} (cond : R -> bool) (set : R -> R) (t : list R) : list R * list R :=
  (map (fun r => if cond r then set r else r) t, map set (List.filter cond t)).

(** [:one]: the first row or [pgx.ErrNoRows]. *)
Definition one_row {R} (l : list R) : result R :=
  match l with r :: _ => inl r | [] => inr ErrNoRows end.

Definition check_violation (name : str) : goerror :=
  ErrPg "23514" name (lit "new row violates check constraint").
Definition encoding_error : goerror :=
  ErrPg "22021" [] "invalid byte sequence for encoding".

(** Text values must be valid UTF-8 without NUL. *)
Definition text_ok (s : str) : bool := valid_utf8 s && negb (ContainsByte s (ascii_of_N 0)).
Definition char_length (s : str) : nat := length (runes s).
Definition btrim (s : str) : str := Trim s " ".
Definition has_cntrl (s : str) : bool := existsb is_control (runes s).

Definition is_hex (r : rune) : bool := is_digit r || in_range 65 70 r || in_range 97 102 r.

Definition in_progress (status : str) : bool :=
  (status =s lit "queued") || (status =s lit "running").
Definition is_terminal (status : str) : bool :=
  (status =s lit "succeeded") || (status =s lit "failed") || (status =s lit "cancelled").

(** The constraint on the digest columns. *)
Definition digest_pattern : regex :=
  RSeqs [RBol; RLit false (lit "sha256:"); RRep (fun r => is_digit r || in_range 97 102 r) 64 (Some 64%nat) true; REol].
Definition digest_check (t : pgText) : bool := negb (Valid t) || MatchString digest_pattern (String' t).

(** A text parameter that the database can store. *)
Definition text_param_ok (t : pgText) : bool := negb (Valid t) || text_ok (String' t).

(** The CHECK constraints of the deployments table. *)
Definition deployment_check (d : Deployment.t) : bool :=
  let st := Deployment.Status d in
  (in_progress st || is_terminal st)
  && (if st =s lit "queued"
      then negb (is_some (Deployment.StartedAt d)) && negb (is_some (Deployment.FinishedAt d)) else true)
  && (if st =s lit "running"
      then is_some (Deployment.StartedAt d) && negb (is_some (Deployment.FinishedAt d)) else true)
  && (if is_terminal st then is_some (Deployment.FinishedAt d) else true)
  && (Deployment.Strategy d =s lit "blue_green")
  && existsb (str_eqb (Deployment.Trigger d))
       [lit "manual"; lit "github_push"; lit "connector_sync"; lit "retry"; lit "rollback"]
  && (negb (Valid (Deployment.CommitSha d))
      || (forallb is_hex (runes (String' (Deployment.CommitSha d)))
          && within 7 (Some 40%nat) (char_length (String' (Deployment.CommitSha d)))))
  && (negb (Valid (Deployment.Actor d)) || negb (has_cntrl (String' (Deployment.Actor d))))
  && (negb (Valid (Deployment.ImageRef d))
      || (negb (btrim (String' (Deployment.ImageRef d)) =s [])
          && (char_length (String' (Deployment.ImageRef d)) <=? 512)%nat
          && forallb (fun r => negb (is_space r || is_control r)) (runes (String' (Deployment.ImageRef d)))))
  && digest_check (Deployment.ImageDigest d)
  && (negb (Valid (Deployment.CommitMessage d))
      || ((char_length (String' (Deployment.CommitMessage d)) <=? 500)%nat
          && negb (has_cntrl (String' (Deployment.CommitMessage d))))).

(** Unique index deployments_one_in_progress_per_application. *)
Definition in_progress_apps (l : list Deployment.t) : list str :=
  map (fun d => uuid_bytes (Deployment.ApplicationID d))
      (List.filter (fun d => in_progress (Deployment.Status d)) l).
Definition one_in_progress (l : list Deployment.t) : bool := bool_decide (NoDup (in_progress_apps l)).
Definition unique_violation (name : str) : goerror :=
  ErrPg "23505" name (lit "duplicate key value violates unique constraint").

(** Writes a new content of the deployments table in which the rows [written]
    are new or changed. *)
Definition store_deployments (db : database) (t written : list Deployment.t) : result database :=
  if negb (forallb deployment_check written) then inr (check_violation "deployments_check")
  else if negb (one_in_progress t)
  then inr (unique_violation "deployments_one_in_progress_per_application")
  else inl (with_deployments db t).

Definition query (A : Type) : Type := database -> result (A * database).

(** ** Deployments *)

Module DeploymentRow.
Import Deployment.
(** The columns that statements change. *)
Definition set_status (d : t) (status : str) (started finished : timestamptz) : t :=
  mk (ID d) (ApplicationID d) (ServerID d) (Trigger d) (Strategy d) status (CommitSha d) (Actor d)
     started finished (CreatedAt d) (ImageRef d) (ImageDigest d) (SourceRepositoryUrl d)
     (SourceBranch d) (CommitMessage d) (ConfigurationSnapshot d).
Definition set_commit (d : t) (sha message : pgText) : t :=
  mk (ID d) (ApplicationID d) (ServerID d) (Trigger d) (Strategy d) (Status d) sha (Actor d)
     (StartedAt d) (FinishedAt d) (CreatedAt d) (ImageRef d) (ImageDigest d) (SourceRepositoryUrl d)
     (SourceBranch d) message (ConfigurationSnapshot d).
End DeploymentRow.

Definition coalesce_time (a b : timestamptz) : timestamptz := match a with Some _ => a | None => b end.

Definition GetDeployment (id : pgUUID_t) : query Deployment.t := fun db =>
  let? d := one_row (List.filter (fun d => uuid_eqb (Deployment.ID d) id) (deployments db)) in
  inl (d, db).

(** An UPDATE of deployments that returns one row. *)
Definition update_deployment (cond : Deployment.t -> bool) (set : Deployment.t -> Deployment.t)
    : query Deployment.t := fun db =>
  let '(t, rows) := sql_update cond set (deployments db) in
  let? db' := store_deployments db t rows in
  let? d := one_row rows in
  inl (d, db').

Definition StartQueuedDeployment (id : pgUUID_t) : query Deployment.t := fun db =>
  update_deployment
    (fun d => uuid_eqb (Deployment.ID d) id && (Deployment.Status d =s lit "queued"))
    (fun d => DeploymentRow.set_status d (lit "running")
                (coalesce_time (Deployment.StartedAt d) (Some (clock db))) (Deployment.FinishedAt d))
    db.

Definition CancelQueuedDeployment (id : pgUUID_t) : query Deployment.t := fun db =>
  update_deployment
    (fun d => uuid_eqb (Deployment.ID d) id && (Deployment.Status d =s lit "queued"))
    (fun d => DeploymentRow.set_status d (lit "cancelled") (Deployment.StartedAt d) (Some (clock db)))
    db.

Definition UpdateDeploymentStatus (id : pgUUID_t) (status : str) : query Deployment.t := fun db =>
  update_deployment
    (fun d => uuid_eqb (Deployment.ID d) id)
    (fun d => DeploymentRow.set_status d status
       (coalesce_time (Deployment.StartedAt d)
          (if status =s lit "running" then Some (clock db) else Deployment.StartedAt d))
       (if is_terminal status then Some (clock db) else Deployment.FinishedAt d))
    db.

Definition SetDeploymentCommitSHA (id : pgUUID_t) (commitSha commitMessage : str)
    : query Deployment.t := fun db =>
  if negb (text_ok commitSha && text_ok commitMessage) then inr encoding_error else
  update_deployment
    (fun d => uuid_eqb (Deployment.ID d) id)
    (fun d => DeploymentRow.set_commit d
       (coalesce_text (Deployment.CommitSha d) (someText commitSha))
       (if btrim commitMessage =s [] then textNull else someText (btrim commitMessage)))
    db.

Definition opt_Z_leb (a b : timestamptz) : Prop :=
  match a, b with Some x, Some y => (x <= y)%Z | Some _, None => True | None, Some _ => False | None, None => True end.
#[export] Instance opt_Z_leb_dec : RelDecision opt_Z_leb.
Proof. intros a b. destruct a, b; simpl; apply _. Defined.

(** ORDER BY a time, ascending (NULLS LAST) or descending (NULLS FIRST). *)
Definition time_asc {R} (key : R -> timestamptz) (x y : R) : Prop := opt_Z_leb (key x) (key y).
Definition time_desc {R} (key : R -> timestamptz) (x y : R) : Prop := opt_Z_leb (key y) (key x).
#[export] Instance time_asc_dec {R} (key : R -> timestamptz) : RelDecision (time_asc key).
Proof. intros x y. unfold time_asc. apply _. Defined.
#[export] Instance time_desc_dec {R} (key : R -> timestamptz) : RelDecision (time_desc key).
Proof. intros x y. unfold time_desc. apply _. Defined.

(** ORDER BY created_at LIMIT n; rows with equal keys come in no promised order. *)
Definition ListQueuedDeploymentsForRecovery (limit : Z) : query (list Deployment.t) := fun db =>
  inl (take (Z.to_nat limit)
         (merge_sort (time_asc Deployment.CreatedAt)
            (List.filter (fun d => Deployment.Status d =s lit "queued") (deployments db))), db).

Module ApplicationRow.
Import Application.
Definition set_status (a : t) (status : str) (current target : pgText) (updated : timestamptz) : t :=
  mk (ID a) (EnvironmentID a) (ServerID a) (Name a) (RepositoryUrl a) (Branch a) (ComposePath a)
     (RemoteDirectory a) (Domain a) (HealthCheckUrl a) (DopplerProject a) (DopplerConfig a) status
     current target (CreatedAt a) updated (GithubAutoDeploy a) (ConfigurationRevision a)
     (DeployedConfigurationRevision a) (DeployedProjectConfigurationRevision a) (ComposeServices a).
Definition set_deployed (a : t) (rev prev : Z) : t :=
  mk (ID a) (EnvironmentID a) (ServerID a) (Name a) (RepositoryUrl a) (Branch a) (ComposePath a)
     (RemoteDirectory a) (Domain a) (HealthCheckUrl a) (DopplerProject a) (DopplerConfig a) (Status a)
     (CurrentVersion a) (TargetVersion a) (CreatedAt a) (UpdatedAt a) (GithubAutoDeploy a)
     (ConfigurationRevision a) rev prev (ComposeServices a).
End ApplicationRow.

(** One statement: the running deployments fail and so do their applications. *)
Definition FailRunningDeploymentsForRecovery : query (list Deployment.t) := fun db =>
  let '(t, rows) := sql_update (fun d => Deployment.Status d =s lit "running")
    (fun d => DeploymentRow.set_status d (lit "failed") (Deployment.StartedAt d) (Some (clock db)))
    (deployments db) in
  let? db' := store_deployments db t rows in
  let '(apps, _) := sql_update
    (fun a => existsb (fun d => uuid_eqb (Application.ID a) (Deployment.ApplicationID d)) rows)
    (fun a => ApplicationRow.set_status a (lit "failed") (Application.CurrentVersion a)
                (Application.TargetVersion a) (Some (clock db)))
    (applications db') in
  inl (rows, with_applications db' apps).

Definition find_row {R} (p : R -> bool) (l : list R) : option R := List.find p l.

Definition GetDeploymentTarget (id : pgUUID_t) : query Target.t := fun db =>
  let join :=
    d ← find_row (fun d => uuid_eqb (Deployment.ID d) id) (deployments db);
    a ← find_row (fun a => uuid_eqb (Application.ID a) (Deployment.ApplicationID d)) (applications db);
    e ← find_row (fun e => uuid_eqb (Environment.ID e) (Application.EnvironmentID a)) (environments db);
    p ← find_row (fun p => uuid_eqb (ProjectRow.ID p) (Environment.ProjectID e)) (projects db);
    s ← find_row (fun s => uuid_eqb (Server.ID s) (Deployment.ServerID d)) (servers db);
    Some (Target.mk (Deployment.ID d) (Deployment.Strategy d) (Deployment.CommitSha d)
      (Deployment.ImageRef d) (Deployment.ImageDigest d) (Application.ID a) (Application.Name a)
      (Deployment.SourceRepositoryUrl d)
      (if Valid (Deployment.SourceBranch d) then String' (Deployment.SourceBranch d) else Application.Branch a)
      (Application.ComposePath a) (Application.RemoteDirectory a) (Application.Domain a)
      (Application.HealthCheckUrl a) (Application.DopplerProject a) (Application.DopplerConfig a)
      (Application.ComposeServices a) (Application.ConfigurationRevision a)
      (ProjectRow.ConfigurationRevision p) (ProjectRow.RepositoryConnectorID p) (Server.ID s)
      (Server.Name s) (Server.Hostname s) (Server.SshUser s) (Server.SshPort s) (Server.SshKeyPath s)
      (Server.ConnectionMode s) (Server.ProxyType s)) in
  match join with Some t => inl (t, db) | None => inr ErrNoRows end.

(** ** CreateDeployment and the configuration snapshot *)

Definition json_text (t : pgText) : json := if Valid t then JStr (String' t) else JNull.
Definition json_bytes (b : bytes) : json := match b with Some j => j | None => JNull end.
Definition json_uuid (u : pgUUID_t) : json := if uuid_valid u then JStr (uuid_bytes u) else JNull.

(** The SQL function application_configuration_state of
    src/internal/migrations/sql/034_service_configuration.sql: a canonical
    description of what a deployment of the application would use. *)
Definition application_configuration_state (db : database) (a : Application.t) : json :=
  let vars := match find_row (fun e => uuid_eqb (Environment.ID e) (Application.EnvironmentID a))
                     (environments db) with
    | Some e => List.filter (fun v => uuid_eqb (ProjectVariable.ProjectID v) (Environment.ProjectID e))
                  (project_variables db)
    | None => [] end in
  let configs := List.filter (fun c => uuid_eqb (ServiceConfig.ApplicationID c) (Application.ID a))
                   (service_configs db) in
  JObj [
    (lit "application", JObj [
       (lit "environment_id", json_uuid (Application.EnvironmentID a));
       (lit "server_id", json_uuid (Application.ServerID a));
       (lit "name", JStr (Application.Name a));
       (lit "repository_url", json_text (Application.RepositoryUrl a));
       (lit "branch", JStr (Application.Branch a));
       (lit "compose_path", JStr (Application.ComposePath a));
       (lit "remote_directory", JStr (Application.RemoteDirectory a));
       (lit "health_check_url", json_text (Application.HealthCheckUrl a));
       (lit "doppler_project", json_text (Application.DopplerProject a));
       (lit "doppler_config", json_text (Application.DopplerConfig a));
       (lit "compose_services", json_bytes (Application.ComposeServices a))]);
    (lit "project_variables", JArr (map (fun v => JObj [(lit "key", JStr (ProjectVariable.Key v));
                                                   (lit "value", JStr (ProjectVariable.Value v))])
       (merge_sort (by_key ProjectVariable.Key) vars)));
    (lit "service_runtime_configs", JArr (map (fun c => JObj [
         (lit "compose_service", JStr (ServiceConfig.ComposeService c));
         (lit "doppler_project", json_text (ServiceConfig.DopplerProject c));
         (lit "doppler_config", json_text (ServiceConfig.DopplerConfig c));
         (lit "variables", json_bytes (ServiceConfig.Variables c))])
       (merge_sort (by_key ServiceConfig.ComposeService) configs)))].

Module CreateDeploymentParams.
Record t := mk {
  Trigger : str; Strategy : str; CommitSha : pgText; ImageRef : pgText; ImageDigest : pgText;
  Actor : pgText; ApplicationID : pgUUID_t }.
End CreateDeploymentParams.

(** [gen_random_uuid] of PostgreSQL draws a fresh identifier each time. *)
Class UuidSource := {
  gen_uuid : nat -> str;
  gen_uuid_inj : Inj (=) (=) gen_uuid;
}.

Definition deployment_snapshot (db : database) (a : Application.t) (p : ProjectRow.t) : json :=
  JObj [
    (lit "application_revision", JNum (Application.ConfigurationRevision a));
    (lit "project_revision", JNum (ProjectRow.ConfigurationRevision p));
    (lit "repository_url", json_text (Application.RepositoryUrl a));
    (lit "branch", JStr (Application.Branch a));
    (lit "compose_path", JStr (Application.ComposePath a));
    (lit "health_check_url", json_text (Application.HealthCheckUrl a));
    (lit "doppler_project", json_text (Application.DopplerProject a));
    (lit "doppler_config", json_text (Application.DopplerConfig a));
    (lit "configuration_state", application_configuration_state db a)].

Definition CreateDeployment `{UuidSource} (arg : CreateDeploymentParams.t) : query Deployment.t := fun db =>
  if negb (text_ok (CreateDeploymentParams.Trigger arg) && text_ok (CreateDeploymentParams.Strategy arg)
           && forallb text_param_ok [CreateDeploymentParams.CommitSha arg; CreateDeploymentParams.ImageRef arg;
                                     CreateDeploymentParams.ImageDigest arg; CreateDeploymentParams.Actor arg])
  then inr encoding_error else
  let join :=
    a ← find_row (fun a => uuid_eqb (Application.ID a) (CreateDeploymentParams.ApplicationID arg)) (applications db);
    e ← find_row (fun e => uuid_eqb (Environment.ID e) (Application.EnvironmentID a)) (environments db);
    p ← find_row (fun p => uuid_eqb (ProjectRow.ID p) (Environment.ProjectID e)) (projects db);
    Some (a, p) in
  match join with
  | None => inr ErrNoRows
  | Some (a, p) =>
      let d := Deployment.mk (PgUUID (gen_uuid (uuid_supply db)) true) (Application.ID a)
        (Application.ServerID a) (CreateDeploymentParams.Trigger arg) (CreateDeploymentParams.Strategy arg)
        (lit "queued") (norm_text (CreateDeploymentParams.CommitSha arg))
        (norm_text (CreateDeploymentParams.Actor arg)) None None (Some (clock db))
        (norm_text (CreateDeploymentParams.ImageRef arg)) (norm_text (CreateDeploymentParams.ImageDigest arg))
        (Application.RepositoryUrl a)
        (if Valid (Application.RepositoryUrl a) then someText (Application.Branch a) else textNull)
        textNull (Some (deployment_snapshot db a p)) in
      let? db' := store_deployments db (deployments db ++ [d]) [d] in
      inl (d, with_uuid_supply db' (S (uuid_supply db)))
  end.

(** ** Blue-green slots *)

Module SlotRow.
Import Slot.
Definition set_status (s : t) (status : str) (promoted updated : timestamptz) : t :=
  mk (ID s) (ApplicationID s) (ServerID s) (Color s) (DeploymentID s) (ImageRef s) (ImageDigest s)
     status promoted (CreatedAt s) updated.
Definition replace (s : t) (dep : pgUUID_t) (ref : str) (digest : pgText) (status : str)
    (promoted updated : timestamptz) : t :=
  mk (ID s) (ApplicationID s) (ServerID s) (Color s) dep ref digest status promoted (CreatedAt s) updated.
End SlotRow.

Definition slot_of (app server : pgUUID_t) (s : Slot.t) : bool :=
  uuid_eqb (Slot.ApplicationID s) app && uuid_eqb (Slot.ServerID s) server.

(** WHERE ... AND status = $3 ORDER BY updated_at DESC LIMIT 1 *)
Definition slot_with_status (app server : pgUUID_t) (status : str) (db : database) : list Slot.t :=
  take 1 (merge_sort (time_desc Slot.UpdatedAt)
    (List.filter (fun s => slot_of app server s && (Slot.Status s =s status)) (slots db))).

Definition GetActiveDeploymentSlot (app server : pgUUID_t) : query Slot.t := fun db =>
  let? s := one_row (slot_with_status app server (lit "active") db) in inl (s, db).
Definition GetStandbyDeploymentSlot (app server : pgUUID_t) : query Slot.t := fun db =>
  let? s := one_row (slot_with_status app server (lit "standby") db) in inl (s, db).

Definition ActivateDeploymentSlot (color : str) (app server : pgUUID_t) : query (list Slot.t) := fun db =>
  let '(t, rows) := sql_update
    (fun s => slot_of app server s && ((Slot.Status s =s lit "active") || (Slot.Status s =s lit "standby")))
    (fun s => if Slot.Color s =s color
              then SlotRow.set_status s (lit "active") (Some (clock db)) (Some (clock db))
              else SlotRow.set_status s (lit "standby") (Slot.PromotedAt s) (Some (clock db)))
    (slots db) in
  inl (rows, with_slots db t).

(** The CHECK constraints of application_deployment_slots. *)
Definition slot_check (s : Slot.t) : bool :=
  ((Slot.Color s =s lit "blue") || (Slot.Color s =s lit "green"))
  && ((Slot.Status s =s lit "active") || (Slot.Status s =s lit "standby") || (Slot.Status s =s lit "failed"))
  && negb (btrim (Slot.ImageRef s) =s []) && (char_length (Slot.ImageRef s) <=? 512)%nat
  && forallb (fun r => negb (is_space r || is_control r)) (runes (Slot.ImageRef s))
  && digest_check (Slot.ImageDigest s).

Module UpsertDeploymentSlotParams.
Record t := mk {
  ApplicationID : pgUUID_t; ServerID : pgUUID_t; Color : str; DeploymentID : pgUUID_t;
  ImageRef : str; ImageDigest : pgText; Status : str }.
End UpsertDeploymentSlotParams.

Definition UpsertDeploymentSlot `{UuidSource} (arg : UpsertDeploymentSlotParams.t) : query Slot.t := fun db =>
  let app := UpsertDeploymentSlotParams.ApplicationID arg in
  let server := UpsertDeploymentSlotParams.ServerID arg in
  let color := UpsertDeploymentSlotParams.Color arg in
  let status := UpsertDeploymentSlotParams.Status arg in
  let promoted := if status =s lit "active" then Some (clock db) else None in
  let conflict := fun s => slot_of app server s && (Slot.Color s =s color) in
  let fresh := Slot.mk (PgUUID (gen_uuid (uuid_supply db)) true) app server color
    (UpsertDeploymentSlotParams.DeploymentID arg) (UpsertDeploymentSlotParams.ImageRef arg)
    (norm_text (UpsertDeploymentSlotParams.ImageDigest arg)) status promoted (Some (clock db)) (Some (clock db)) in
  if negb (uuid_valid app && uuid_valid server) then inr (ErrPg "23502" [] (lit "null value in column violates not-null constraint"))
  else if negb (slot_check fresh) then inr (check_violation "application_deployment_slots_check")
  else if existsb conflict (slots db) then
    let '(t, rows) := sql_update conflict
      (fun s => SlotRow.replace s (UpsertDeploymentSlotParams.DeploymentID arg)
         (UpsertDeploymentSlotParams.ImageRef arg) (norm_text (UpsertDeploymentSlotParams.ImageDigest arg))
         status promoted (Some (clock db))) (slots db) in
    let? s := one_row rows in inl (s, with_slots db t)
  else inl (fresh, with_uuid_supply (with_slots db (slots db ++ [fresh])) (S (uuid_supply db))).

(** ** Proxy routes *)

Module ProxyRouteRow.
Import ProxyRoute.
Definition set_status (r : t) (url status : str) (applied updated : timestamptz) : t :=
  mk (ID r) (ServerID r) (ApplicationID r) (Domain r) url (TlsEnabled r) status applied (CreatedAt r)
     updated (BlueUpstreamUrl r) (GreenUpstreamUrl r) (ComposeService r) (ContainerPort r) (PortVariable r).
End ProxyRouteRow.

Definition ListProxyRouteTargetsForApplication (app server : pgUUID_t) : query (list RouteTarget.t) := fun db =>
  let rows := merge_sort (by_key ProxyRoute.Domain)
    (List.filter (fun r => uuid_eqb (ProxyRoute.ApplicationID r) app && uuid_eqb (ProxyRoute.ServerID r) server)
       (routes db)) in
  inl (omap (fun r =>
      s ← find_row (fun s => uuid_eqb (Server.ID s) (ProxyRoute.ServerID r)) (servers db);
      Some (RouteTarget.mk (ProxyRoute.ID r) (ProxyRoute.ServerID r) (ProxyRoute.ApplicationID r)
        (ProxyRoute.Domain r) (ProxyRoute.UpstreamUrl r) (ProxyRoute.TlsEnabled r) (ProxyRoute.Status r)
        (ProxyRoute.BlueUpstreamUrl r) (ProxyRoute.GreenUpstreamUrl r) (ProxyRoute.ComposeService r)
        (ProxyRoute.ContainerPort r) (ProxyRoute.PortVariable r) (Server.Name s) (Server.Hostname s)
        (Server.SshUser s) (Server.SshPort s) (Server.SshKeyPath s) (Server.ProxyType s))) rows, db).

Definition mark_route (id : pgUUID_t) (set : ProxyRoute.t -> ProxyRoute.t) : query ProxyRoute.t := fun db =>
  let '(t, rows) := sql_update (fun r => uuid_eqb (ProxyRoute.ID r) id) set (routes db) in
  let? r := one_row rows in inl (r, with_routes db t).

Definition MarkProxyRouteApplied (id : pgUUID_t) : query ProxyRoute.t := fun db =>
  mark_route id (fun r => ProxyRouteRow.set_status r (ProxyRoute.UpstreamUrl r) (lit "applied")
    (Some (clock db)) (Some (clock db))) db.

Definition MarkProxyRouteFailed (id : pgUUID_t) : query ProxyRoute.t := fun db =>
  mark_route id (fun r => ProxyRouteRow.set_status r (ProxyRoute.UpstreamUrl r) (lit "failed")
    (ProxyRoute.LastAppliedAt r) (Some (clock db))) db.

(** UPDATE ... FROM unnest(ids), unnest(urls): the first pair with the route's id. *)
Definition PromoteProxyRoutes (ids : list pgUUID_t) (urls : list str) : query (list ProxyRoute.t) := fun db =>
  let desired := zip ids urls in
  let pair := fun r => List.find (fun p : pgUUID_t * str => uuid_eqb (ProxyRoute.ID r) p.1) desired in
  let '(t, rows) := sql_update (fun r => is_some (pair r))
    (fun r => match pair r with
              | Some (_, url) => ProxyRouteRow.set_status r url (lit "applied") (Some (clock db)) (Some (clock db))
              | None => r end) (routes db) in
  inl (rows, with_routes db t).

(** ** Applications, configuration, logs, audit *)

Definition update_application (id : pgUUID_t) (set : Application.t -> Application.t) : query Application.t :=
  fun db =>
  let '(t, rows) := sql_update (fun a => uuid_eqb (Application.ID a) id) set (applications db) in
  let? a := one_row rows in inl (a, with_applications db t).

Definition UpdateApplicationStatus (id : pgUUID_t) (status : str) (version : pgText) : query Application.t :=
  fun db =>
  if negb (existsb (str_eqb status) [lit "idle"; lit "deploying"; lit "healthy"; lit "failed"])
  then inr (check_violation "applications_status_check") else
  update_application id (fun a => ApplicationRow.set_status a status
    (if status =s lit "healthy" then coalesce_text version (Application.CurrentVersion a)
     else Application.CurrentVersion a)
    (if status =s lit "deploying" then coalesce_text version (Application.TargetVersion a)
     else if status =s lit "healthy" then textNull else Application.TargetVersion a)
    (Some (clock db))) db.

Definition MarkApplicationConfigurationDeployed (id : pgUUID_t) (rev prev : Z) : query Application.t := fun db =>
  update_application id (fun a => ApplicationRow.set_deployed a
    (Z.max (Application.DeployedConfigurationRevision a) rev)
    (Z.max (Application.DeployedProjectConfigurationRevision a) prev)) db.

Definition GetApplication (id : pgUUID_t) : query Application.t := fun db =>
  let? a := one_row (List.filter (fun a => uuid_eqb (Application.ID a) id) (applications db)) in inl (a, db).

Definition ListApplicationServiceRuntimeConfigs (app : pgUUID_t) : query (list ServiceConfig.t) := fun db =>
  inl (merge_sort (by_key ServiceConfig.ComposeService)
    (List.filter (fun c => uuid_eqb (ServiceConfig.ApplicationID c) app) (service_configs db)), db).

Definition ListProjectRuntimeVariablesForApplication (app : pgUUID_t) : query (list ProjectVariable.t) :=
  fun db =>
  let envs := List.filter (fun e => existsb (fun a => uuid_eqb (Application.ID a) app
                && uuid_eqb (Application.EnvironmentID a) (Environment.ID e)) (applications db)) (environments db) in
  inl (merge_sort (by_key ProjectVariable.Key)
    (List.filter (fun v => existsb (fun e => uuid_eqb (Environment.ProjectID e) (ProjectVariable.ProjectID v)) envs)
       (project_variables db)), db).

Definition stream_ok (s : str) : bool :=
  (s =s lit "stdout") || (s =s lit "stderr") || (s =s lit "system").

Definition AppendDeploymentLog (id : pgUUID_t) (stream message : str) : query DeploymentLog.t := fun db =>
  if negb (text_ok message) then inr encoding_error
  else if negb (stream_ok stream && negb (btrim message =s []) && (char_length message <=? 32768)%nat)
  then inr (check_violation "deployment_logs_check")
  else if negb (existsb (fun d => uuid_eqb (Deployment.ID d) id) (deployments db))
  then inr (ErrPg "23503" "deployment_logs_deployment_id_fkey" (lit "insert or update violates foreign key constraint"))
  else
    let l := DeploymentLog.mk (Z.of_nat (S (length (logs db)))) id stream message (Some (clock db)) in
    inl (l, with_logs db (logs db ++ [l])).

Module AppendAuditEventParams.
Record t := mk { Actor : str; Action : str; TargetType : str; TargetID : str; TargetName : str; Metadata : str }.
End AppendAuditEventParams.

(** CHECK constraints of audit_events on the identity columns. *)
Definition audit_identity_ok (s : str) : bool := text_ok s && negb (btrim s =s []) && negb (has_cntrl s).

Definition AppendAuditEvent (arg : AppendAuditEventParams.t) : query AuditEvent.t := fun db =>
  if negb (forallb audit_identity_ok [AppendAuditEventParams.Actor arg; AppendAuditEventParams.Action arg;
     AppendAuditEventParams.TargetType arg; AppendAuditEventParams.TargetID arg; AppendAuditEventParams.TargetName arg])
  then inr (check_violation "audit_events_check")
  else
    let e := AuditEvent.mk (Z.of_nat (S (length (audit_events db)))) (AppendAuditEventParams.Actor arg)
      (AppendAuditEventParams.Action arg) (AppendAuditEventParams.TargetType arg)
      (AppendAuditEventParams.TargetID arg) (AppendAuditEventParams.TargetName arg)
      (AppendAuditEventParams.Metadata arg) (Some (clock db)) in
    inl (e, with_audit_events db (audit_events db ++ [e])).
