(* ===== verification/DbHttp.v ===== *)
(** * internal/db: the statements of the HTTP handlers

    Reads of deployments, slots, logs and audit events, the candidates for a
    redeployment, and the statements that remove an application; same
    conventions as Db. *)

From S2P Require Import Prelude GoStrings GoRegexp GoJson Db.

(** The row of ListDeployments: a deployment with two names. *)
Module DeploymentListRow.
Record t := mk { Row : Deployment.t; ApplicationName : str; ServerName : str }.
End DeploymentListRow.

Definition ListDeployments (limit : Z) : query (list DeploymentListRow.t) := fun db =>
  let joined := omap (fun d =>
    a ← find_row (fun a => uuid_eqb (Application.ID a) (Deployment.ApplicationID d)) (applications db);
    s ← find_row (fun s => uuid_eqb (Server.ID s) (Deployment.ServerID d)) (servers db);
    Some (DeploymentListRow.mk d (Application.Name a) (Server.Name s))) (deployments db) in
  inl (take (Z.to_nat limit)
         (merge_sort (time_desc (fun r => Deployment.CreatedAt (DeploymentListRow.Row r))) joined), db).

Definition slot_rank (s : Slot.t) : Z :=
  if Slot.Status s =s lit "active" then 0 else if Slot.Status s =s lit "standby" then 1 else 2.
Definition slot_order (x y : Slot.t) : Prop :=
  (slot_rank x < slot_rank y)%Z \/ (slot_rank x = slot_rank y /\ time_desc Slot.UpdatedAt x y).
#[export] Instance slot_order_dec : RelDecision slot_order.
Proof. intros x y. unfold slot_order. apply _. Defined.

Definition ListDeploymentSlotsForApplication (app : pgUUID_t) : query (list Slot.t) := fun db =>
  inl (merge_sort slot_order (List.filter (fun s => uuid_eqb (Slot.ApplicationID s) app) (slots db)), db).

Definition ListAuditEvents (limit : Z) : query (list AuditEvent.t) := fun db =>
  inl (take (Z.to_nat limit) (merge_sort (time_desc AuditEvent.CreatedAt) (audit_events db)), db).

(** ** Deployment logs *)

Definition log_order (x y : DeploymentLog.t) : Prop := (DeploymentLog.ID x <= DeploymentLog.ID y)%Z.
#[export] Instance log_order_dec : RelDecision log_order.
Proof. intros x y. unfold log_order. apply _. Defined.

Definition logs_of (id : pgUUID_t) (db : database) : list DeploymentLog.t :=
  merge_sort log_order (List.filter (fun l => uuid_eqb (DeploymentLog.DeploymentID l) id) (logs db)).

Definition ListDeploymentLogsAfter (id : pgUUID_t) (lastLogID limit : Z) : query (list DeploymentLog.t) := fun db =>
  inl (take (Z.to_nat limit) (List.filter (fun l => (lastLogID <? DeploymentLog.ID l)%Z) (logs_of id db)), db).

Definition ListRecentDeploymentLogs (id : pgUUID_t) (limit : Z) : query (list DeploymentLog.t) := fun db =>
  let l := logs_of id db in inl (drop (length l - Z.to_nat limit) l, db).

(** ** Configuration *)

Definition GetProject (id : pgUUID_t) : query ProjectRow.t := fun db =>
  let? p := one_row (List.filter (fun p => uuid_eqb (ProjectRow.ID p) id) (projects db)) in inl (p, db).

Definition GetServer (id : pgUUID_t) : query Server.t := fun db =>
  let? s := one_row (List.filter (fun s => uuid_eqb (Server.ID s) id) (servers db)) in inl (s, db).

(** The row lock has no effect on the values read. *)
Definition GetApplicationForUpdate (id : pgUUID_t) : query Application.t := fun db =>
  let? a := one_row (List.filter (fun a => uuid_eqb (Application.ID a) id) (applications db)) in inl (a, db).

Module RedeployCandidate.
Record t := mk {
  ApplicationID : pgUUID_t; ApplicationName : str; RedeployRequired : option bool;
  DeploymentInProgress : bool; SourceDeploymentID : pgUUID_t; SourceCommitSha : pgText;
  SourceImageRef : pgText; SourceImageDigest : pgText; SourceRepositoryUrl : pgText; SourceBranch : pgText }.
End RedeployCandidate.

(** The successful deployment that runs now: of an active slot first, then the
    latest. *)
Definition active_order (x y : Deployment.t * option Slot.t) : Prop :=
  match x.2, y.2 with
  | Some _, None => True
  | None, Some _ => False
  | Some s, Some s' => opt_Z_leb (Slot.UpdatedAt s') (Slot.UpdatedAt s)
                       /\ (opt_Z_leb (Slot.UpdatedAt s) (Slot.UpdatedAt s') -> time_desc Deployment.CreatedAt x.1 y.1)
  | None, None => time_desc Deployment.CreatedAt x.1 y.1
  end.
#[export] Instance active_order_dec : RelDecision active_order.
Proof. intros [d [s|]] [d' [s'|]]; unfold active_order; cbn [fst snd]; apply _. Defined.

Definition active_deployment (a : Application.t) (db : database) : option Deployment.t :=
  let rows := flat_map (fun d =>
      let joined := List.filter (fun s => uuid_eqb (Slot.DeploymentID s) (Deployment.ID d)
        && slot_of (Application.ID a) (Application.ServerID a) s && (Slot.Status s =s lit "active")) (slots db) in
      match joined with [] => [(d, None)] | l => map (fun s => (d, Some s)) l end)
    (List.filter (fun d => uuid_eqb (Deployment.ApplicationID d) (Application.ID a)
                           && (Deployment.Status d =s lit "succeeded")) (deployments db)) in
  fst <$> head (merge_sort active_order rows).

(** [snapshot -> 'configuration_state'], when the key is there. *)
Definition snapshot_state (snapshot : bytes) : option json :=
  match snapshot with
  | Some (JObj l) => snd <$> List.find (fun p => p.1 =s lit "configuration_state") l
  | _ => None
  end.

(** Whether the configuration differs from the one the active deployment ran
    with; old snapshots fall back to the revision counters. *)
Definition configuration_changed (a : Application.t) (p : ProjectRow.t) (d : option Deployment.t) (db : database) : bool :=
  match d ≫= (fun d => snapshot_state (Deployment.ConfigurationSnapshot d)) with
  | Some state => negb (json_eqb (application_configuration_state db a) state)
  | None => (Application.DeployedConfigurationRevision a <? Application.ConfigurationRevision a)%Z
            || (Application.DeployedProjectConfigurationRevision a <? ProjectRow.ConfigurationRevision p)%Z
  end.

Definition project_of (a : Application.t) (db : database) : option ProjectRow.t :=
  e ← find_row (fun e => uuid_eqb (Environment.ID e) (Application.EnvironmentID a)) (environments db);
  find_row (fun p => uuid_eqb (ProjectRow.ID p) (Environment.ProjectID e)) (projects db).

Definition app_in_progress (a : Application.t) (db : database) : bool :=
  existsb (fun d => uuid_eqb (Deployment.ApplicationID d) (Application.ID a) && in_progress (Deployment.Status d))
    (deployments db).

Definition no_uuid : pgUUID_t := PgUUID [] false.
Definition candidate_row (a : Application.t) (p : ProjectRow.t) (db : database) : RedeployCandidate.t :=
  let d := active_deployment a db in
  let col {A} (f : Deployment.t -> A) (null : A) := match d with Some d => f d | None => null end in
  RedeployCandidate.mk (Application.ID a) (Application.Name a)
    (Some (is_some d && configuration_changed a p d db)) (app_in_progress a db)
    (col Deployment.ID no_uuid) (col Deployment.CommitSha textNull) (col Deployment.ImageRef textNull)
    (col Deployment.ImageDigest textNull) (col Deployment.SourceRepositoryUrl textNull) (col Deployment.SourceBranch textNull).

Definition GetApplicationConfigurationRedeployCandidate (id : pgUUID_t) : query RedeployCandidate.t := fun db =>
  let rows := omap (fun a => p ← project_of a db; Some (candidate_row a p db))
    (List.filter (fun a => uuid_eqb (Application.ID a) id) (applications db)) in
  let? c := one_row rows in inl (c, db).

(** ORDER BY application.name, application.id; the second key is by bytes. *)
Definition name_id_order (x y : Application.t) : Prop :=
  Application.Name x <> Application.Name y /\ str_le (Application.Name x) (Application.Name y)
  \/ Application.Name x = Application.Name y /\ str_le (uuid_bytes (Application.ID x)) (uuid_bytes (Application.ID y)).
#[export] Instance name_id_order_dec : RelDecision name_id_order.
Proof. intros x y. unfold name_id_order. apply _. Defined.

Definition ListProjectConfigurationRedeployCandidates (project : pgUUID_t) : query (list RedeployCandidate.t) := fun db =>
  inl (omap (fun a =>
      p ← project_of a db;
      if uuid_eqb (ProjectRow.ID p) project && is_some (active_deployment a db)
         && configuration_changed a p (active_deployment a db) db
      then Some (candidate_row a p db) else None)
    (merge_sort name_id_order (applications db)), db).

(** ** Applications *)

Definition ListApplicationsForGitHubPush (branch : str) (urls : list str) : query (list Application.t) := fun db =>
  inl (merge_sort (by_key Application.Name)
    (List.filter (fun a => (Application.Branch a =s branch) && Application.GithubAutoDeploy a
        && Valid (Application.RepositoryUrl a)
        && existsb (str_eqb (String' (Application.RepositoryUrl a))) urls) (applications db)), db).

Module DeletionState.
Record t := mk { HasDeployments : bool; DeploymentInProgress : bool }.
End DeletionState.

Definition GetApplicationDeletionState (id : pgUUID_t) : query DeletionState.t := fun db =>
  let of_app d := uuid_eqb (Deployment.ApplicationID d) id in
  inl (DeletionState.mk (existsb of_app (deployments db))
         (existsb (fun d => of_app d && in_progress (Deployment.Status d)) (deployments db)), db).

Definition DeleteProxyRoute (id : pgUUID_t) : query unit := fun db =>
  inl (tt, with_routes db (List.filter (fun r => negb (uuid_eqb (ProxyRoute.ID r) id)) (routes db))).

Definition with_service_configs (db : database) l := Database (applications db) (deployments db) (slots db) (routes db)
  (logs db) (audit_events db) l (project_variables db) (environments db) (projects db) (servers db) (build_runs db) (connector_accounts db) (inventory db) (clock db)
  (uuid_supply db).

Definition build_without_application (b : BuildRun.t) : BuildRun.t :=
  BuildRun.mk (BuildRun.ID b) (BuildRun.Provider b) (BuildRun.ConnectorID b) no_uuid (BuildRun.Repository b)
    (BuildRun.Branch b) (BuildRun.WorkflowID b) (BuildRun.Status b) (BuildRun.CommitSha b) (BuildRun.ImageRef b)
    (BuildRun.ImageDigest b) (BuildRun.ExternalUrl b) (BuildRun.ErrorMessage b) (BuildRun.StartedAt b)
    (BuildRun.CompletedAt b) (BuildRun.CreatedAt b) (BuildRun.UpdatedAt b).

(** Deletes the application; its deployments with their logs, its slots and its
    service configurations go with it, its routes and its builds lose their
    application. *)
Definition DeleteApplication (id : pgUUID_t) : query unit := fun db =>
  let gone (a : pgUUID_t) := uuid_eqb a id in
  let dead := List.filter (fun d => gone (Deployment.ApplicationID d)) (deployments db) in
  let db := with_applications db (List.filter (fun a => negb (gone (Application.ID a))) (applications db)) in
  let db := with_deployments db (List.filter (fun d => negb (gone (Deployment.ApplicationID d))) (deployments db)) in
  let db := with_logs db (List.filter (fun l =>
      negb (existsb (fun d => uuid_eqb (DeploymentLog.DeploymentID l) (Deployment.ID d)) dead)) (logs db)) in
  let db := with_slots db (List.filter (fun s => negb (gone (Slot.ApplicationID s))) (slots db)) in
  let db := with_service_configs db (List.filter (fun c => negb (gone (ServiceConfig.ApplicationID c))) (service_configs db)) in
  let db := with_routes db (map (fun r => if gone (ProxyRoute.ApplicationID r)
      then ProxyRoute.mk (ProxyRoute.ID r) (ProxyRoute.ServerID r) no_uuid (ProxyRoute.Domain r) (ProxyRoute.UpstreamUrl r)
             (ProxyRoute.TlsEnabled r) (ProxyRoute.Status r) (ProxyRoute.LastAppliedAt r) (ProxyRoute.CreatedAt r)
             (ProxyRoute.UpdatedAt r) (ProxyRoute.BlueUpstreamUrl r) (ProxyRoute.GreenUpstreamUrl r)
             (ProxyRoute.ComposeService r) (ProxyRoute.ContainerPort r) (ProxyRoute.PortVariable r)
      else r) (routes db)) in
  let db := with_build_runs db (map (fun b => if gone (BuildRun.ApplicationID b) then build_without_application b else b)
      (build_runs db)) in
  inl (tt, db).
