(* ===== verification/AuditLog.v ===== *)
(** * internal/auditlog: audit events without secrets

    auditlog.go.  The [map[string]any] of the source is a [json] object whose keys are
    distinct; the cases of [sanitizeValue] are the constructors.  The second part shows
    what reaches the audit table. *)

From S2P Require Import Prelude GoStrings GoStringsFacts GoRegexp GoJson StringUtil.

Definition MaxStringLength : nat := 512.
Definition MaxMetadataLength : nat := 4096.
Definition MaxIdentityLength : nat := 128.

Section AuditLog.
Context `{UnicodeTables}.

Definition IdentityField (value fallback : str) : str :=
  let value := TrimSpace value in
  if value =s [] then fallback
  else
    let value := go_map (fun char => if class (byte 13 ++ newline ++ tabulator) char then None else Some char) value in
    let value := TrimSpace value in
    if value =s [] then fallback
    else if (MaxIdentityLength <? length value)%nat then take MaxIdentityLength value else value.

Definition StringField (value : str) : str :=
  let value := go_map (fun char => if ((char <? 32) || (char =? 127))%N then None else Some char)
                 (TrimSpace value) in
  let value := RedactSensitiveText value in
  if (MaxStringLength <? length value)%nat then take MaxStringLength value else value.

Definition secret_parts : list str :=
  [lit "secret"; lit "token"; lit "password"; lit "private_key"; lit "api_key"; lit "client_secret";
   lit "access_key"; lit "access_key_id"].

Definition IsSecretKey (key : str) : bool :=
  let normalized := ToLower (ReplaceAll (TrimSpace key) (lit "-") (lit "_")) in
  if normalized =s [] then false
  else
    let compact := ReplaceAll normalized (lit "_") [] in
    existsb (fun part => Contains normalized part || Contains compact (ReplaceAll part (lit "_") []))
      secret_parts.

Fixpoint sanitizeValue (value : json) : json :=
  match value with
  | JObj l => JObj (map (fun p => (p.1, if IsSecretKey p.1 then JStr (lit "[redacted]") else sanitizeValue p.2)) l)
  | JArr l => JArr (map sanitizeValue l)
  | JStr s => JStr (StringField s)
  | _ => value
  end.
Definition sanitizeMap (l : list (str * json)) : list (str * json) :=
  map (fun p => (p.1, if IsSecretKey p.1 then JStr (lit "[redacted]") else sanitizeValue p.2)) l.

(** Marshalling a map sorts the keys of every level. *)
Fixpoint sort_keys (j : json) : json :=
  match j with
  | JObj l => json_map (map (fun p => (p.1, sort_keys p.2)) l)
  | JArr l => JArr (map sort_keys l)
  | _ => j
  end.

(** [None] is the nil map. *)
Definition Metadata (metadata : option (list (str * json))) : str :=
  match metadata with
  | None => lit "{}"
  | Some m =>
      let data := json_Marshal (sort_keys (sanitizeValue (JObj m))) in
      if (MaxMetadataLength <? length data)%nat then lit "{" ++ dquote ++ lit "truncated" ++ dquote ++ lit ":true}"
      else data
  end.
End AuditLog.

(** * What reaches the audit table

    Identity fields are short, never blank and free of CR, LF and tab; metadata
    is bounded and carries no value under a secret key. *)

(** ** Small runes are bytes *)

Definition small (p : N -> bool) : Prop := forall r, p r = true -> (r < 128)%N.

Lemma small_large p x : small p -> (128 <= x)%N -> p x = false.
Proof. intros Hp Hx. destruct (p x) eqn:Ep; [|done]. apply Hp in Ep. lia. Qed.

Lemma good_seg_bytes p g : small p -> good_seg g -> existsb (fun c => p (b2n c)) g.2 = p g.1.
Proof.
  intros Hp [c Hc|c0 c1 r Hd|c0 c1 c2 r Hd|c0 c1 c2 c3 r Hd]; cbn [fst snd existsb]; [by rewrite orb_false_r| | |].
  - pose proof (dec2_large _ _ _ Hd). apply dec2_range in Hd. by rewrite !(small_large p) by (done || lia).
  - pose proof (dec3_large _ _ _ _ Hd). apply dec3_range in Hd. by rewrite !(small_large p) by (done || lia).
  - pose proof (dec4_large _ _ _ _ _ Hd). apply dec4_range in Hd. by rewrite !(small_large p) by (done || lia).
Qed.

Lemma decode_cons_bad c t : decode (c :: t) = (rune_error, [c]) :: decode t -> (128 <= b2n c)%N.
Proof.
  intros Hd. destruct (N.lt_ge_cases (b2n c) 128) as [Hc|Hc]; [|done].
  cbn [decode] in Hd. rewrite (proj2 (N.ltb_lt _ _) Hc) in Hd. injection Hd as Hr.
  rewrite Hr in Hc. by apply N.ltb_lt in Hc.
Qed.

Lemma existsb_runes_bytes p s : small p -> existsb p (runes s) = existsb (fun c => p (b2n c)) s.
Proof.
  intros Hp. induction s as [s IH] using str_len_ind.
  destruct (decide (s = [])) as [->|Hne]; [done|]. unfold runes.
  destruct (decode_cases s Hne) as [(c & t & -> & E)|(g & t & Hg & -> & E)]; rewrite E; cbn [map existsb fst].
  - rewrite (small_large p rune_error) by (done || (unfold rune_error; lia)).
    rewrite (small_large p (b2n c)) by (try done; exact (decode_cons_bad c t E)).
    apply (IH t). cbn [length]. lia.
  - rewrite existsb_app, (good_seg_bytes p g Hp Hg). f_equal. apply (IH t). destruct Hg; cbn [snd app length]; lia.
Qed.

(** ** Dropping runes with [strings.Map] *)

Definition drop_runes (p : N -> bool) (r : rune) : option rune := if p r then None else Some r.

Lemma go_map_drop_bytes p s : small p -> existsb (fun c => p (b2n c)) (go_map (drop_runes p) s) = false.
Proof.
  intros Hp. unfold go_map, runes. induction s as [s IH] using str_len_ind.
  destruct (decide (s = [])) as [->|Hne]; [done|].
  destruct (decode_cases s Hne) as [(c & t & -> & E)|(g & t & Hg & -> & E)]; rewrite E;
    cbn [map concat fst]; rewrite existsb_app; unfold drop_runes at 1.
  - rewrite (small_large p rune_error) by (done || (unfold rune_error; lia)).
    apply orb_false_iff. split; [|apply (IH t); cbn [length]; lia].
    change (encode_rune rune_error) with [ascii_of_N 239; ascii_of_N 191; ascii_of_N 189]. cbn [existsb].
    rewrite !b2n_ascii_of_N by done. by rewrite !(small_large p) by (done || lia).
  - apply orb_false_iff. split; [|apply (IH t); destruct Hg; cbn [snd app length]; lia].
    destruct (p g.1) eqn:Ep; [done|]. by rewrite encode_good, (good_seg_bytes p g Hp Hg).
Qed.

(** ** Identity fields *)

Definition line_break (r : N) : bool := existsb (N.eqb r) (runes (byte 13 ++ newline ++ tabulator)).
Definition breaks (s : str) : bool := existsb (fun c => line_break (b2n c)) s.

Lemma line_break_small : small line_break.
Proof.
  intros r Hr. unfold line_break in Hr. apply existsb_exists in Hr as (y & Hy & Heq). apply N.eqb_eq in Heq. subst y.
  change (runes (byte 13 ++ newline ++ tabulator)) with [13%N; 10%N; 9%N] in Hy.
  repeat (destruct Hy as [<-|Hy]; [done|]). by destruct Hy.
Qed.

Lemma ContainsAny_breaks s : ContainsAny s (byte 13 ++ newline ++ tabulator) = breaks s.
Proof. exact (existsb_runes_bytes line_break s line_break_small). Qed.

Lemma breaks_app s t : breaks (s ++ t) = breaks s || breaks t.
Proof. apply existsb_app. Qed.

Lemma breaks_trim s : breaks s = false -> breaks (TrimSpace s) = false.
Proof.
  destruct (TrimFunc_split is_space s) as (a & b & Hs & _ & _). rewrite Hs at 1. rewrite !breaks_app.
  intros [_ [Hm _]%orb_false_iff]%orb_false_iff. exact Hm.
Qed.

Lemma breaks_take n s : breaks s = false -> breaks (take n s) = false.
Proof. rewrite <- (take_drop n s) at 1. rewrite breaks_app. by intros [Ht _]%orb_false_iff. Qed.

Lemma class_line_break r : class (byte 13 ++ newline ++ tabulator) r = line_break r.
Proof.
  unfold class, line_break. change (runes (byte 13 ++ newline ++ tabulator)) with [13%N; 10%N; 9%N].
  cbn [app byte newline tabulator existsb]. rewrite !b2n_ascii_of_N by done.
  by rewrite (N.eqb_sym 13), (N.eqb_sym 10), (N.eqb_sym 9).
Qed.

Lemma go_map_ext f g s : (forall r, f r = g r) -> go_map f s = go_map g s.
Proof. intros Hfg. unfold go_map. f_equal. apply map_ext. intros r. by rewrite Hfg. Qed.

Lemma IdentityField_shape value fallback :
  IdentityField value fallback = fallback
  \/ (IdentityField value fallback <> [] /\ (length (IdentityField value fallback) <= MaxIdentityLength)%nat
      /\ breaks (IdentityField value fallback) = false).
Proof.
  unfold IdentityField. cbv zeta. destruct (_ =s []); [by left|].
  rewrite (go_map_ext _ (drop_runes line_break)) by (intros r; unfold drop_runes; by rewrite class_line_break).
  set (v := go_map _ _). assert (Hv : breaks (TrimSpace v) = false).
  { apply breaks_trim, go_map_drop_bytes, line_break_small. }
  destruct (TrimSpace v =s []) eqn:E; [by left|]. bool_simp. right.
  destruct (MaxIdentityLength <? length (TrimSpace v))%nat eqn:El.
  - apply Nat.ltb_lt in El. rewrite length_take. split; [|split; [lia|by apply breaks_take]].
    destruct (TrimSpace v); [done|]. by unfold MaxIdentityLength.
  - apply Nat.ltb_ge in El. by split.
Qed.

(** ** Metadata *)

Section Metadata.
Context `{UnicodeTables}.

(** Every member under a secret key is replaced, and no string is long. *)
Definition hidden (v : json) : bool := match v with JStr s => s =s lit "[redacted]" | _ => false end.

Fixpoint redacted (j : json) : bool :=
  match j with
  | JObj l => forallb (fun p => (negb (IsSecretKey p.1) || hidden p.2) && redacted p.2) l
  | JArr l => forallb redacted l
  | JStr s => (length s <=? MaxStringLength)%nat
  | _ => true
  end.

Lemma StringField_length s : (length (StringField s) <= MaxStringLength)%nat.
Proof.
  unfold StringField. cbv zeta. destruct (MaxStringLength <? _)%nat eqn:El.
  - rewrite length_take. lia.
  - by apply Nat.ltb_ge in El.
Qed.

Lemma sanitize_redacted j : redacted (sanitizeValue j) = true.
Proof.
  induction j as [| | | |s|l IH|l IH] using json_nested_ind; cbn [sanitizeValue redacted]; try done.
  - apply Nat.leb_le, StringField_length.
  - rewrite forallb_map. induction IH as [|x t Hx _ IHt]; [done|]. cbn [forallb]. by rewrite Hx.
  - rewrite forallb_map. induction IH as [|x t Hx _ IHt]; [done|]. cbn [forallb fst snd] in *.
    rewrite IHt, andb_true_r. destruct (IsSecretKey x.1); [done|]. exact Hx.
Qed.

Lemma forallb_perm {A} (p : A -> bool) l l' : l ≡ₚ l' -> forallb p l = forallb p l'.
Proof.
  intros Hp. induction Hp as [|x t t' _ IH|x y t|t t' t'' _ IH1 _ IH2]; cbn [forallb]; [done|by rewrite IH| |congruence].
  by rewrite !andb_assoc, (andb_comm (p y)).
Qed.

Lemma hidden_sort j : hidden (sort_keys j) = hidden j.
Proof. by destruct j. Qed.

Lemma sort_keys_redacted j : redacted (sort_keys j) = redacted j.
Proof.
  induction j as [| | | |s|l IH|l IH] using json_nested_ind; try done; cbn [sort_keys redacted].
  - rewrite forallb_map. induction IH as [|x t Hx _ IHt]; [done|]. cbn [forallb]. by rewrite Hx, IHt.
  - unfold json_map. cbn [redacted]. rewrite (forallb_perm _ _ _ (merge_sort_Permutation (by_key fst) _)).
    rewrite forallb_map. induction IH as [|x t Hx _ IHt]; [done|]. cbn [forallb fst snd] in *.
    by rewrite Hx, IHt, hidden_sort.
Qed.

(** audit metadata never carries a value under a key that names a secret: what
    is stored is the marshalled form of an object whose members under secret keys
    are all replaced, at every depth, whose strings are at most 512 bytes, and
    whose keys are those that were given; or, when that text would exceed 4096
    bytes, the fixed marker. *)
Theorem metadata_hides_secrets m :
  (length (Metadata (Some m)) <= MaxMetadataLength)%nat
  /\ ((exists l, Metadata (Some m) = json_Marshal (JObj l) /\ redacted (JObj l) = true /\ map fst l ≡ₚ map fst m)
      \/ Metadata (Some m) = lit "{" ++ dquote ++ lit "truncated" ++ dquote ++ lit ":true}").
Proof.
  unfold Metadata. cbv zeta. set (j := sort_keys (sanitizeValue (JObj m))).
  destruct (MaxMetadataLength <? length (json_Marshal j))%nat eqn:El.
  - split; [vm_compute; lia|by right].
  - apply Nat.ltb_ge in El. split; [exact El|]. left.
    pose proof (sort_keys_redacted (sanitizeValue (JObj m))) as Hr. rewrite sanitize_redacted in Hr.
    unfold j in *. cbn [sanitizeValue sort_keys] in *. unfold json_map in *. eexists. split; [reflexivity|].
    split; [exact Hr|]. rewrite merge_sort_Permutation, !map_map. by apply reflexive_eq, map_ext.
Qed.
End Metadata.
