(* ===== verification/DbApplications.v ===== *)
(** * Statements on applications (internal/db/core.sql.go)

    Creating and updating an application, with the constraints of the table
    (db/migrations/001, 004, 011, 017 and 034) and the configuration revision
    that an update of the deployed configuration increments. *)

From S2P Require Import Prelude GoStrings GoRegexp GoJson GoNet StringUtil AuditLog Db.
From S2P Require Import DbHttp.

Module CreateApplicationParams.
Record t := mk {
  EnvironmentID : pgUUID_t; ServerID : pgUUID_t; Name : str; RepositoryUrl : pgText; Branch : str; ComposePath : str;
  RemoteDirectory : str; Domain : pgText; HealthCheckUrl : pgText; DopplerProject : pgText; DopplerConfig : pgText;
  GithubAutoDeploy : bool }.
End CreateApplicationParams.

Module UpdateApplicationParams.
Record t := mk {
  EnvironmentID : pgUUID_t; ServerID : pgUUID_t; Name : str; RepositoryUrl : pgText; Branch : str; ComposePath : str;
  RemoteDirectory : str; Domain : pgText; HealthCheckUrl : pgText; DopplerProject : pgText; DopplerConfig : pgText;
  GithubAutoDeploy : bool; ComposeServices : bytes; ID : pgUUID_t }.
End UpdateApplicationParams.

(** ** Constraints *)

Definition repo_char (r : rune) : bool := is_alnum r || class (lit "_.-") r.
Definition repo_part : regex := RRep repo_char 1 None true.

(** [[A-Za-z0-9_.-]+/[A-Za-z0-9_.-]+] *)
Definition full_name_body : regex := RSeqs [repo_part; RLit false (lit "/"); repo_part].

(** [git@github[.]com:[A-Za-z0-9_.-]+/[A-Za-z0-9_.-]+[.]git] *)
Definition ssh_remote : regex :=
  RSeqs [RLit false (lit "git@github.com:"); repo_part; RLit false (lit "/"); repo_part; RLit false (lit ".git")].
(** [https://github[.]com/[A-Za-z0-9_.-]+/[A-Za-z0-9_.-]+([.]git)?] *)
Definition https_remote : regex :=
  RSeqs [RLit false (lit "https://github.com/"); repo_part; RLit false (lit "/"); repo_part;
         RAlt (RLit false (lit ".git")) REmpty].
Definition repository_pattern : regex := RSeqs [RBol; RAlt ssh_remote https_remote; REol].

(** [^https?://] *)
Definition http_prefix : regex := RSeqs [RLit false (lit "http"); RAlt (RLit false (lit "s")) REmpty; RLit false (lit "://")].
(** [^https?://[^/@]+@] *)
Definition http_credentials : regex :=
  RSeqs [RBol; http_prefix; RRep (fun r => negb (class (lit "/@") r)) 1 None true; RLit false (lit "@")].

(** [(^|/)\.\.(/|$)] *)
Definition parent_segment_pattern : regex :=
  RSeqs [RAlt RBol (RLit false (lit "/")); RLit false (lit ".."); RAlt (RLit false (lit "/")) REol].

Definition nullable (p : str -> bool) (t : pgText) : bool := negb (Valid t) || p (String' t).

Definition repository_check (t : pgText) : bool := nullable (MatchString repository_pattern) t.
Definition branch_check (branch : str) : bool :=
  let b := btrim branch in
  negb (b =s []) && negb (HasPrefix b (lit "-"))
  && negb (HasPrefix b (lit "/") || HasSuffix b (lit "/") || Contains b (lit "//"))
  && negb (Contains b (lit "..") || HasSuffix b (lit ".lock") || HasSuffix b (lit "."))
  && forallb (fun r => is_alnum r || class (lit "._/-") r) (runes b).
Definition compose_path_check (path : str) : bool :=
  let p := btrim path in
  negb (p =s []) && negb (p =s lit ".") && negb (HasPrefix p (lit "/")) && negb (MatchString parent_segment_pattern p).
Definition remote_directory_check (dir : str) : bool :=
  let d := btrim dir in
  negb (d =s []) && HasPrefix d (lit "/") && negb (d =s lit "/") && negb (Contains d (lit "//"))
  && negb (MatchString parent_segment_pattern d).
Definition health_check_check (t : pgText) : bool :=
  nullable (fun u => negb (btrim u =s []) && MatchString (RSeqs [RBol; http_prefix]) u && negb (has_cntrl u)
                     && negb (MatchString http_credentials u)) t.
Definition doppler_check (t : pgText) : bool := nullable (fun v => negb (btrim v =s []) && negb (has_cntrl v)) t.

Definition application_check (a : Application.t) : bool :=
  existsb (str_eqb (Application.Status a)) [lit "idle"; lit "deploying"; lit "healthy"; lit "failed"]
  && negb (btrim (Application.Name a) =s [])
  && repository_check (Application.RepositoryUrl a) && branch_check (Application.Branch a)
  && compose_path_check (Application.ComposePath a) && remote_directory_check (Application.RemoteDirectory a)
  && health_check_check (Application.HealthCheckUrl a)
  && doppler_check (Application.DopplerProject a) && doppler_check (Application.DopplerConfig a)
  && Bool.eqb (Valid (Application.DopplerProject a)) (Valid (Application.DopplerConfig a))
  && match Application.ComposeServices a with Some (JArr _) => true | _ => false end.

Definition foreign_key_violation (name : str) : goerror :=
  ErrPg "23503" name (lit "violates foreign key constraint").

(** The environment and the server of a row exist. *)
Definition application_keys (a : Application.t) (db : database) : option goerror :=
  if negb (existsb (fun e => uuid_eqb (Environment.ID e) (Application.EnvironmentID a)) (environments db))
  then Some (foreign_key_violation "applications_environment_id_fkey")
  else if negb (existsb (fun s => uuid_eqb (Server.ID s) (Application.ServerID a)) (servers db))
  then Some (foreign_key_violation "applications_server_id_fkey")
  else None.

Definition store_application (a : Application.t) (db : database) (t : list Application.t) : result (Application.t * database) :=
  if negb (application_check a) then inr (check_violation "applications_check")
  else match application_keys a db with
       | Some err => inr err
       | None => inl (a, with_applications db t)
       end.

(** ** Statements *)

Definition GetEnvironment (id : pgUUID_t) : query Environment.t := fun db =>
  let? e := one_row (List.filter (fun e => uuid_eqb (Environment.ID e) id) (environments db)) in inl (e, db).

Definition CreateApplication `{UuidSource} (arg : CreateApplicationParams.t) : query Application.t := fun db =>
  let '(CreateApplicationParams.mk env server name repo branch compose dir domain health dproject dconfig auto) := arg in
  if negb (forallb text_ok [name; branch; compose; dir] && forallb text_param_ok [repo; domain; health; dproject; dconfig])
  then inr encoding_error
  else
    let a := Application.mk (PgUUID (gen_uuid (uuid_supply db)) true) env server name (norm_text repo) branch compose dir
      (norm_text domain) (norm_text health) (norm_text dproject) (norm_text dconfig) (lit "idle") textNull textNull
      (Some (clock db)) (Some (clock db)) auto 0 0 0 (Some (JArr [])) in
    let? (a, db') := store_application a db (applications db ++ [a]) in
    inl (a, with_uuid_supply db' (S (uuid_supply db))).

(** [IS DISTINCT FROM] on the columns that a deployment uses. *)
Definition text_eqb (x y : pgText) : bool :=
  if Valid x then Valid y && (String' x =s String' y) else negb (Valid y).
Definition bytes_eqb (x y : bytes) : bool :=
  match x, y with Some a, Some b => json_eqb a b | None, None => true | _, _ => false end.
Definition same_configuration (a b : Application.t) : bool :=
  uuid_eqb (Application.EnvironmentID a) (Application.EnvironmentID b)
  && uuid_eqb (Application.ServerID a) (Application.ServerID b)
  && (Application.Name a =s Application.Name b)
  && text_eqb (Application.RepositoryUrl a) (Application.RepositoryUrl b)
  && (Application.Branch a =s Application.Branch b) && (Application.ComposePath a =s Application.ComposePath b)
  && (Application.RemoteDirectory a =s Application.RemoteDirectory b)
  && text_eqb (Application.HealthCheckUrl a) (Application.HealthCheckUrl b)
  && text_eqb (Application.DopplerProject a) (Application.DopplerProject b)
  && text_eqb (Application.DopplerConfig a) (Application.DopplerConfig b)
  && bytes_eqb (Application.ComposeServices a) (Application.ComposeServices b).

Definition updated_application (arg : UpdateApplicationParams.t) (now : timestamptz) (a : Application.t) : Application.t :=
  let '(UpdateApplicationParams.mk env server name repo branch compose dir domain health dproject dconfig auto services _) := arg in
  let row rev := Application.mk (Application.ID a) env server name (norm_text repo) branch compose dir (norm_text domain)
    (norm_text health) (norm_text dproject) (norm_text dconfig) (Application.Status a) (Application.CurrentVersion a)
    (Application.TargetVersion a) (Application.CreatedAt a) now auto rev (Application.DeployedConfigurationRevision a)
    (Application.DeployedProjectConfigurationRevision a) services in
  row (if same_configuration a (row 0%Z) then Application.ConfigurationRevision a
       else Application.ConfigurationRevision a + 1)%Z.

Definition update_texts (arg : UpdateApplicationParams.t) : bool :=
  let '(UpdateApplicationParams.mk _ _ name repo branch compose dir domain health dproject dconfig _ _ _) := arg in
  forallb text_ok [name; branch; compose; dir] && forallb text_param_ok [repo; domain; health; dproject; dconfig].

Definition UpdateApplication (arg : UpdateApplicationParams.t) : query Application.t := fun db =>
  if negb (update_texts arg) then inr encoding_error
  else
    let '(t, rows) := sql_update (fun a => uuid_eqb (Application.ID a) (UpdateApplicationParams.ID arg))
      (updated_application arg (Some (clock db))) (applications db) in
    let? a := one_row rows in
    store_application a db t.

(** * Statements on build runs (internal/db/core.sql.go)

    Build runs with the constraints of db/migrations/030 and 031, the applications
    that a finished build is deployed to, and the connector accounts. *)

(** ** SQL LIKE

    [%] stands for any text and [_] for any character; a backslash takes the next
    character literally.  A pattern that ends in a backslash is an error in SQL; the
    names of repositories that patterns are built from contain none. *)
Fixpoint like (p : list rune) : list rune -> bool :=
  match p with
  | [] => fun s => match s with [] => true | _ => false end
  | c :: p' =>
      if (c =? 37)%N then
        (fix any (s : list rune) : bool := like p' s || match s with [] => false | _ :: t => any t end)
      else if (c =? 95)%N then fun s => match s with [] => false | _ :: t => like p' t end
      else if (c =? 92)%N then
        match p' with
        | [] => fun _ => false
        | d :: p'' => fun s => match s with [] => false | x :: t => (x =? d)%N && like p'' t end
        end
      else fun s => match s with [] => false | x :: t => (x =? c)%N && like p' t end
  end.

Definition LIKE (s pattern : str) : bool := like (runes pattern) (runes s).

(** ** Build runs *)

Module CompleteBuildRunParams.
Record t := mk {
  ID : pgUUID_t; Status : str; ImageRef : pgText; ImageDigest : pgText; ExternalUrl : pgText; ErrorMessage : pgText }.
End CompleteBuildRunParams.

Module CreateBuildRunParams.
Record t := mk {
  Provider : str; ConnectorID : pgUUID_t; ApplicationID : pgUUID_t; Repository : str; Branch : str; WorkflowID : str;
  CommitSha : pgText }.
End CreateBuildRunParams.

(** [^[A-Za-z0-9_.-]+/[A-Za-z0-9_.-]+$] *)
Definition full_name_pattern : regex := RSeqs [RBol; full_name_body; REol].

Definition build_ended (status : str) : bool :=
  (status =s lit "succeeded") || (status =s lit "failed") || (status =s lit "cancelled").

Definition build_check (b : BuildRun.t) : bool :=
  ((BuildRun.Provider b =s lit "github_actions") || (BuildRun.Provider b =s lit "cloud_build"))
  && ((BuildRun.Status b =s lit "dispatched") || (BuildRun.Status b =s lit "running") || build_ended (BuildRun.Status b))
  && negb (btrim (BuildRun.Repository b) =s []) && MatchString full_name_pattern (BuildRun.Repository b)
  && branch_check (BuildRun.Branch b)
  && negb (btrim (BuildRun.WorkflowID b) =s [])
  && forallb (fun r => negb (class (lit "/\") r || is_space r || is_control r)) (runes (BuildRun.WorkflowID b))
  && nullable (fun s => forallb is_hex (runes s) && within 7 (Some 40%nat) (char_length s)) (BuildRun.CommitSha b)
  && nullable (fun s => negb (btrim s =s []) && (char_length s <=? 512)%nat
                        && forallb (fun r => negb (is_space r || is_control r)) (runes s)) (BuildRun.ImageRef b)
  && digest_check (BuildRun.ImageDigest b)
  && nullable (fun s => negb (btrim s =s []) && HasPrefix s (lit "https://") && negb (has_cntrl s)
                        && negb (MatchString http_credentials s)) (BuildRun.ExternalUrl b)
  && nullable (fun s => negb (btrim s =s []) && (char_length s <=? 512)%nat && negb (has_cntrl s)) (BuildRun.ErrorMessage b)
  && (negb (build_ended (BuildRun.Status b)) || is_some (BuildRun.CompletedAt b))
  && (negb (BuildRun.Status b =s lit "succeeded") || Valid (BuildRun.ImageRef b)).

(** A reference is NULL or the identifier of a row. *)
Definition reference_ok {R} (key : R -> pgUUID_t) (id : pgUUID_t) (rows : list R) : bool :=
  negb (uuid_valid id) || existsb (fun r => uuid_eqb (key r) id) rows.

Definition store_build (b : BuildRun.t) (db : database) (t : list BuildRun.t) : result (BuildRun.t * database) :=
  if negb (build_check b) then inr (check_violation "build_runs_check")
  else if negb (reference_ok ConnectorAccount.ID (BuildRun.ConnectorID b) (connector_accounts db))
  then inr (foreign_key_violation "build_runs_connector_id_fkey")
  else if negb (reference_ok Application.ID (BuildRun.ApplicationID b) (applications db))
  then inr (foreign_key_violation "build_runs_application_id_fkey")
  else inl (b, with_build_runs db t).

Definition CreateBuildRun `{UuidSource} (arg : CreateBuildRunParams.t) : query BuildRun.t := fun db =>
  let '(CreateBuildRunParams.mk provider connector application repository branch workflow sha) := arg in
  if negb (forallb text_ok [provider; repository; branch; workflow] && text_param_ok sha) then inr encoding_error
  else
    let now := Some (clock db) in
    let b := BuildRun.mk (PgUUID (gen_uuid (uuid_supply db)) true) provider connector application repository branch workflow
      (lit "dispatched") (norm_text sha) textNull textNull textNull textNull now None now now in
    let? (b, db') := store_build b db (build_runs db ++ [b]) in
    inl (b, with_uuid_supply db' (S (uuid_supply db))).

Definition completed_build (arg : CompleteBuildRunParams.t) (now : timestamptz) (b : BuildRun.t) : BuildRun.t :=
  BuildRun.mk (BuildRun.ID b) (BuildRun.Provider b) (BuildRun.ConnectorID b) (BuildRun.ApplicationID b)
    (BuildRun.Repository b) (BuildRun.Branch b) (BuildRun.WorkflowID b) (CompleteBuildRunParams.Status arg)
    (BuildRun.CommitSha b) (norm_text (CompleteBuildRunParams.ImageRef arg))
    (norm_text (CompleteBuildRunParams.ImageDigest arg)) (norm_text (CompleteBuildRunParams.ExternalUrl arg))
    (norm_text (CompleteBuildRunParams.ErrorMessage arg)) (BuildRun.StartedAt b) now (BuildRun.CreatedAt b) now.

(** A build that succeeded is not changed any more. *)
Definition CompleteBuildRun (arg : CompleteBuildRunParams.t) : query BuildRun.t := fun db =>
  let '(CompleteBuildRunParams.mk id status ref digest url message) := arg in
  if negb (text_ok status && forallb text_param_ok [ref; digest; url; message]) then inr encoding_error
  else
    let '(t, rows) := sql_update
      (fun b => uuid_eqb (BuildRun.ID b) id && negb (BuildRun.Status b =s lit "succeeded"))
      (completed_build arg (Some (clock db))) (build_runs db) in
    let? b := one_row rows in
    if negb (build_check b) then inr (check_violation "build_runs_check") else inl (b, with_build_runs db t).

Definition GetBuildRun (id : pgUUID_t) : query BuildRun.t := fun db =>
  let? b := one_row (List.filter (fun b => uuid_eqb (BuildRun.ID b) id) (build_runs db)) in inl (b, db).

Definition ListBuildRuns (limit : Z) : query (list BuildRun.t) := fun db =>
  inl (take (Z.to_nat limit) (merge_sort (time_desc BuildRun.CreatedAt) (build_runs db)), db).

(** ** Where a build is deployed *)

(** The name of the repository is part of the pattern. *)
Definition of_repository (repository url : str) : bool :=
  LIKE url (lit "%/" ++ repository ++ lit ".git") || LIKE url (lit "%/" ++ repository)
  || LIKE url (lit "%:" ++ repository ++ lit ".git") || LIKE url (lit "%:" ++ repository).

Definition ListApplicationsForBuildComplete (branch repository : str) : query (list Application.t) := fun db =>
  if negb (text_ok branch && text_ok repository) then inr encoding_error
  else inl (merge_sort (by_key Application.Name)
    (List.filter (fun a => (Application.Branch a =s branch) && Application.GithubAutoDeploy a
        && Valid (Application.RepositoryUrl a) && of_repository repository (String' (Application.RepositoryUrl a)))
      (applications db)), db).

(** ORDER BY provider, name *)
Definition provider_name_order (x y : ConnectorAccount.t) : Prop :=
  ConnectorAccount.Provider x <> ConnectorAccount.Provider y
    /\ str_le (ConnectorAccount.Provider x) (ConnectorAccount.Provider y)
  \/ ConnectorAccount.Provider x = ConnectorAccount.Provider y
    /\ str_le (ConnectorAccount.Name x) (ConnectorAccount.Name y).
#[export] Instance provider_name_order_dec : RelDecision provider_name_order.
Proof. intros x y. unfold provider_name_order. apply _. Defined.

Definition ListConnectorAccounts : query (list ConnectorAccount.t) := fun db =>
  inl (merge_sort provider_name_order (connector_accounts db), db).

(** * Statements on runtime variables (internal/db/core.sql.go)

    The variables of a project, the configurations of the services of an
    application, and the revisions that a change increments; the constraints are
    those of db/migrations/034.  The compose files run PostgreSQL on Alpine, whose
    collation orders text by its bytes. *)

Definition with_projects (db : database) l := Database (applications db) (deployments db) (slots db)
  (routes db) (logs db) (audit_events db) (service_configs db) (project_variables db) (environments db) l
  (servers db) (build_runs db) (connector_accounts db) (inventory db) (clock db) (uuid_supply db).
Definition with_project_variables (db : database) l := Database (applications db) (deployments db) (slots db)
  (routes db) (logs db) (audit_events db) (service_configs db) l (environments db) (projects db)
  (servers db) (build_runs db) (connector_accounts db) (inventory db) (clock db) (uuid_supply db).

(** ** Variables of a project *)

Definition of_project (project : pgUUID_t) (v : ProjectVariable.t) : bool := uuid_eqb (ProjectVariable.ProjectID v) project.

(** The row lock of FOR UPDATE is held by the transaction. *)
Definition GetProjectForUpdate (id : pgUUID_t) : query ProjectRow.t := GetProject id.

Definition ListProjectRuntimeVariables (project : pgUUID_t) : query (list ProjectVariable.t) := fun db =>
  inl (merge_sort (by_key ProjectVariable.Key) (List.filter (of_project project) (project_variables db)), db).

Definition DeleteProjectRuntimeVariables (project : pgUUID_t) : query unit := fun db =>
  inl (tt, with_project_variables db (List.filter (fun v => negb (of_project project v)) (project_variables db))).

Module UpsertProjectRuntimeVariableParams.
Record t := mk { ProjectID : pgUUID_t; Key : str; Value : str }.
End UpsertProjectRuntimeVariableParams.

(** [^[A-Za-z_][A-Za-z0-9_]*$] *)
Definition variable_check (v : ProjectVariable.t) : bool :=
  ValidRuntimeVariableKey (ProjectVariable.Key v)
  && (char_length (ProjectVariable.Key v) <=? 128)%nat && (char_length (ProjectVariable.Value v) <=? N.to_nat 8192)%nat
  && negb (has_cntrl (ProjectVariable.Value v)).

Definition UpsertProjectRuntimeVariable (arg : UpsertProjectRuntimeVariableParams.t) : query ProjectVariable.t := fun db =>
  let '(UpsertProjectRuntimeVariableParams.mk project key value) := arg in
  let now := Some (clock db) in
  let fresh := ProjectVariable.mk project key value now now in
  let conflict v := of_project project v && (ProjectVariable.Key v =s key) in
  if negb (text_ok key && text_ok value) then inr encoding_error
  else if negb (uuid_valid project) then inr (ErrPg "23502" [] (lit "null value in column violates not-null constraint"))
  else if negb (variable_check fresh) then inr (check_violation "project_runtime_variables_check")
  else if existsb conflict (project_variables db) then
    let '(t, rows) := sql_update conflict
      (fun v => ProjectVariable.mk (ProjectVariable.ProjectID v) (ProjectVariable.Key v) value (ProjectVariable.CreatedAt v) now)
      (project_variables db) in
    let? v := one_row rows in inl (v, with_project_variables db t)
  else if negb (reference_ok ProjectRow.ID project (projects db))
  then inr (foreign_key_violation "project_runtime_variables_project_id_fkey")
  else inl (fresh, with_project_variables db (project_variables db ++ [fresh])).

Definition set_revision (p : ProjectRow.t) (now : timestamptz) (revision : Z) : ProjectRow.t :=
  ProjectRow.mk (ProjectRow.ID p) (ProjectRow.Name p) (ProjectRow.Slug p) (ProjectRow.Description p) (ProjectRow.CreatedAt p)
    now (ProjectRow.DefaultRegistryID p) (ProjectRow.RepositoryConnectorID p) (ProjectRow.RepositoryFullName p)
    (ProjectRow.RepositoryBranch p) revision.

(** A bigint that overflows is an error. *)
Definition max_int64 : Z := 2 ^ 63 - 1.
Definition bigint_overflow : goerror := ErrPg "22003" [] (lit "bigint out of range").

Definition IncrementProjectConfigurationRevision (id : pgUUID_t) : query Z := fun db =>
  let '(t, rows) := sql_update (fun p => uuid_eqb (ProjectRow.ID p) id)
    (fun p => set_revision p (Some (clock db)) (ProjectRow.ConfigurationRevision p + 1)%Z) (projects db) in
  let? p := one_row rows in
  if (max_int64 <? ProjectRow.ConfigurationRevision p)%Z then inr bigint_overflow
  else inl (ProjectRow.ConfigurationRevision p, with_projects db t).

(** ** Configurations of services *)

Definition config_of (application : pgUUID_t) (service : str) (c : ServiceConfig.t) : bool :=
  uuid_eqb (ServiceConfig.ApplicationID c) application && (ServiceConfig.ComposeService c =s service).

Definition GetApplicationServiceRuntimeConfig (application : pgUUID_t) (service : str) : query ServiceConfig.t := fun db =>
  if negb (text_ok service) then inr encoding_error
  else let? c := one_row (List.filter (config_of application service) (service_configs db)) in inl (c, db).

Definition DeleteApplicationServiceRuntimeConfig (application : pgUUID_t) (service : str) : query unit := fun db =>
  if negb (text_ok service) then inr encoding_error
  else inl (tt, with_service_configs db (List.filter (fun c => negb (config_of application service c)) (service_configs db))).

Module UpsertConfigParams.
Record t := mk { ApplicationID : pgUUID_t; ComposeService : str; DopplerProject : pgText; DopplerConfig : pgText;
  Variables : bytes }.
End UpsertConfigParams.

(** [^[A-Za-z0-9_.-]+$] *)
Definition service_name_pattern : regex := RSeqs [RBol; repo_part; REol].

Definition config_check (c : ServiceConfig.t) : bool :=
  negb (btrim (ServiceConfig.ComposeService c) =s []) && (char_length (ServiceConfig.ComposeService c) <=? 128)%nat
  && MatchString service_name_pattern (ServiceConfig.ComposeService c)
  && doppler_check (ServiceConfig.DopplerProject c) && doppler_check (ServiceConfig.DopplerConfig c)
  && Bool.eqb (Valid (ServiceConfig.DopplerProject c)) (Valid (ServiceConfig.DopplerConfig c))
  && match ServiceConfig.Variables c with Some (JArr _) => true | _ => false end.

Definition updated_config (project config : pgText) (variables : bytes) (now : timestamptz) (c : ServiceConfig.t) : ServiceConfig.t :=
  ServiceConfig.mk (ServiceConfig.ApplicationID c) (ServiceConfig.ComposeService c) (norm_text project) (norm_text config)
    variables (ServiceConfig.CreatedAt c) now.

(** The variables are JSON that [json.Marshal] wrote. *)
Definition UpsertApplicationServiceRuntimeConfig (arg : UpsertConfigParams.t) : query ServiceConfig.t := fun db =>
  let '(UpsertConfigParams.mk application service project config variables) := arg in
  let now := Some (clock db) in
  let fresh := ServiceConfig.mk application service (norm_text project) (norm_text config) variables now now in
  let conflict := config_of application service in
  if negb (text_ok service && text_param_ok project && text_param_ok config) then inr encoding_error
  else if negb (uuid_valid application) then inr (ErrPg "23502" [] (lit "null value in column violates not-null constraint"))
  else if negb (config_check fresh) then inr (check_violation "application_service_runtime_configs_check")
  else if existsb conflict (service_configs db) then
    let '(t, rows) := sql_update conflict (updated_config project config variables now) (service_configs db) in
    let? c := one_row rows in inl (c, with_service_configs db t)
  else if negb (reference_ok Application.ID application (applications db))
  then inr (foreign_key_violation "application_service_runtime_configs_application_id_fkey")
  else inl (fresh, with_service_configs db (service_configs db ++ [fresh])).

Definition bumped (now : timestamptz) (a : Application.t) : Application.t :=
  Application.mk (Application.ID a) (Application.EnvironmentID a) (Application.ServerID a) (Application.Name a)
    (Application.RepositoryUrl a) (Application.Branch a) (Application.ComposePath a) (Application.RemoteDirectory a)
    (Application.Domain a) (Application.HealthCheckUrl a) (Application.DopplerProject a) (Application.DopplerConfig a)
    (Application.Status a) (Application.CurrentVersion a) (Application.TargetVersion a) (Application.CreatedAt a) now
    (Application.GithubAutoDeploy a) (Application.ConfigurationRevision a + 1) (Application.DeployedConfigurationRevision a)
    (Application.DeployedProjectConfigurationRevision a) (Application.ComposeServices a).

Definition BumpApplicationConfigurationRevision (id : pgUUID_t) : query unit := fun db =>
  let '(t, rows) := sql_update (fun a => uuid_eqb (Application.ID a) id) (bumped (Some (clock db))) (applications db) in
  if existsb (fun a => max_int64 <? Application.ConfigurationRevision a)%Z rows then inr bigint_overflow
  else inl (tt, with_applications db t).
