(* ===== verification/DbServers.v ===== *)
(** * Statements on servers, their users and their routes (internal/db/core.sql.go)

    Servers with their health, the users with sudo rights on a server, and the
    proxy routes, with the constraints of db/migrations 001, 009, 012, 014, 015,
    018, 025, 027, 028, 032 and 034. *)

From S2P Require Import Prelude GoStrings GoRegexp GoJson StringUtil AuditLog Db DbHttp.
From S2P Require Import DbApplications.

Definition with_servers (db : database) l := Database (applications db) (deployments db) (slots db)
  (routes db) (logs db) (audit_events db) (service_configs db) (project_variables db) (environments db) (projects db)
  l (build_runs db) (connector_accounts db) (inventory db) (clock db) (uuid_supply db).
Definition with_inventory (db : database) i := Database (applications db) (deployments db) (slots db)
  (routes db) (logs db) (audit_events db) (service_configs db) (project_variables db) (environments db) (projects db)
  (servers db) (build_runs db) (connector_accounts db) i (clock db) (uuid_supply db).
Definition with_dev_users (db : database) l :=
  with_inventory db (Inventory (credentials (inventory db)) (permissions (inventory db)) (usages (inventory db))
    (registries (inventory db)) l).

(** INSERT ... ON CONFLICT DO UPDATE: the table and the row that was written. *)
Definition sql_upsert {R} (conflict : R -> bool) (set : R -> R) (fresh : R) (t : list R) : list R * R :=
  match List.filter conflict t with
  | r :: _ => (map (fun r => if conflict r then set r else r) t, set r)
  | [] => (t ++ [fresh], fresh)
  end.

Definition not_null_violation : goerror := ErrPg "23502" [] (lit "null value in column violates not-null constraint").

(** ** Servers *)

Definition server_path_check (p : str) : bool :=
  let p := btrim p in
  (HasPrefix p (lit "/") || HasPrefix p (lit "~/")) && negb (Contains p (lit "//"))
  && negb (MatchString parent_segment_pattern p).

(** A percentage in hundredths. *)
Definition percentage_check (v : option Z) : bool :=
  match v with Some z => (0 <=? z)%Z && (z <=? 10000)%Z | None => true end.

Definition server_check (s : Server.t) : bool :=
  let key := Server.SshKeyPath s in
  let mode := Server.ConnectionMode s in
  forallb (fun v => negb (btrim v =s [])) [Server.Name s; Server.Hostname s; Server.SshUser s]
  && forallb (fun v => negb (has_cntrl v)) [Server.Name s; Server.Hostname s; Server.SshUser s; mode]
  && nullable (fun v => negb (has_cntrl v)) key
  && existsb (str_eqb mode) [lit "direct_ssh"; lit "tailscale_ssh"; lit "cloud_tunnel"]
  && existsb (str_eqb (Server.ProxyType s)) [lit "caddy"; lit "traefik"; lit "none"]
  && existsb (str_eqb (Server.Status s)) [lit "healthy"; lit "degraded"; lit "unreachable"; lit "unknown"]
  && ((1 <=? Server.SshPort s)%Z && (Server.SshPort s <=? 65535)%Z)
  && (negb (mode =s lit "direct_ssh") || (Valid key && negb (btrim (String' key) =s [])))
  && (negb (mode =s lit "tailscale_ssh") || negb (Valid key))
  && nullable server_path_check key
  && percentage_check (Server.CpuUsage s) && percentage_check (Server.MemoryUsage s) && percentage_check (Server.DiskUsage s).

Module CreateServerParams.
Record t := mk {
  Name : str; Hostname : str; SshUser : str; SshPort : Z; SshKeyPath : pgText; ConnectionMode : str; ProxyType : str }.
End CreateServerParams.

Definition server_texts (arg : CreateServerParams.t) : bool :=
  let '(CreateServerParams.mk name host user _ key mode proxy) := arg in
  forallb text_ok [name; host; user; mode; proxy] && text_param_ok key.

Definition CreateServer `{UuidSource} (arg : CreateServerParams.t) : query Server.t := fun db =>
  let '(CreateServerParams.mk name host user port key mode proxy) := arg in
  let now := Some (clock db) in
  let s := Server.mk (PgUUID (gen_uuid (uuid_supply db)) true) name host user port (norm_text key) mode proxy (lit "unknown")
    None None None None now now in
  if negb (server_texts arg) then inr encoding_error
  else if negb (server_check s) then inr (check_violation "servers_check")
  else inl (s, with_uuid_supply (with_servers db (servers db ++ [s])) (S (uuid_supply db))).

Definition ListServers : query (list Server.t) := fun db =>
  inl (merge_sort (by_key Server.Name) (servers db), db).

(** The row lock has no effect on the values read. *)
Definition GetServerForUpdate (id : pgUUID_t) : query Server.t := GetServer id.

Module UpdateServerHealthParams.
Record t := mk { ID : pgUUID_t; Status : str; CpuUsage : option Z; MemoryUsage : option Z; DiskUsage : option Z }.
End UpdateServerHealthParams.

Definition updated_health (arg : UpdateServerHealthParams.t) (now : timestamptz) (s : Server.t) : Server.t :=
  let '(UpdateServerHealthParams.mk _ status cpu memory disk) := arg in
  Server.mk (Server.ID s) (Server.Name s) (Server.Hostname s) (Server.SshUser s) (Server.SshPort s)
    (if Server.ConnectionMode s =s lit "tailscale_ssh" then textNull else Server.SshKeyPath s) (Server.ConnectionMode s)
    (Server.ProxyType s) status cpu memory disk now (Server.CreatedAt s) now.

Definition UpdateServerHealth (arg : UpdateServerHealthParams.t) : query Server.t := fun db =>
  if negb (text_ok (UpdateServerHealthParams.Status arg)) then inr encoding_error
  else
    let '(t, rows) := sql_update (fun s => uuid_eqb (Server.ID s) (UpdateServerHealthParams.ID arg))
      (updated_health arg (Some (clock db))) (servers db) in
    let? s := one_row rows in
    if negb (server_check s) then inr (check_violation "servers_check") else inl (s, with_servers db t).

(** ** Users with sudo rights *)

(** [^[a-z_][a-z0-9_-]{0,31}$] *)
Definition username_pattern : regex :=
  RSeqs [RBol; RClass (fun r => is_lower_ascii r || (r =? 95)%N);
         RRep (fun r => is_lower_ascii r || is_digit r || class (lit "_-") r) 0 (Some 31%nat) true; REol].

Definition user_of (server : pgUUID_t) (u : DevUser.t) : bool := uuid_eqb (DevUser.ServerID u) server.
Definition user_is (server : pgUUID_t) (username : str) (u : DevUser.t) : bool :=
  user_of server u && (DevUser.Username u =s username).

Definition ListServerDevSudoUsers (server : pgUUID_t) : query (list DevUser.t) := fun db =>
  inl (merge_sort (by_key DevUser.Username) (List.filter (user_of server) (dev_users (inventory db))), db).

Definition touched (now : timestamptz) (u : DevUser.t) : DevUser.t :=
  DevUser.mk (DevUser.ID u) (DevUser.ServerID u) (DevUser.Username u) (DevUser.CreatedAt u) now.

Definition UpsertServerDevSudoUser `{UuidSource} (server : pgUUID_t) (username : str) : query DevUser.t := fun db =>
  let now := Some (clock db) in
  let fresh := DevUser.mk (PgUUID (gen_uuid (uuid_supply db)) true) server username now now in
  if negb (text_ok username) then inr encoding_error
  else if negb (uuid_valid server) then inr not_null_violation
  else if negb (MatchString username_pattern username) then inr (check_violation "server_dev_sudo_users_username_check")
  else if negb (existsb (user_is server username) (dev_users (inventory db))) && negb (reference_ok Server.ID server (servers db))
  then inr (foreign_key_violation "server_dev_sudo_users_server_id_fkey")
  else
    let '(t, u) := sql_upsert (user_is server username) (touched now) fresh (dev_users (inventory db)) in
    inl (u, with_uuid_supply (with_dev_users db t) (S (uuid_supply db))).

Definition DeleteServerDevSudoUser (server : pgUUID_t) (username : str) : query unit := fun db =>
  if negb (text_ok username) then inr encoding_error
  else inl (tt, with_dev_users db (List.filter (fun u => negb (user_is server username u)) (dev_users (inventory db)))).

Definition renamed (username : str) (now : timestamptz) (u : DevUser.t) : DevUser.t :=
  DevUser.mk (DevUser.ID u) (DevUser.ServerID u) username (DevUser.CreatedAt u) now.

Definition RenameServerDevSudoUser (server : pgUUID_t) (old new : str) : query DevUser.t := fun db =>
  if negb (text_ok old && text_ok new) then inr encoding_error
  else
    let '(t, rows) := sql_update (user_is server old) (renamed new (Some (clock db))) (dev_users (inventory db)) in
    let? u := one_row rows in
    if negb (MatchString username_pattern new) then inr (check_violation "server_dev_sudo_users_username_check")
    else if negb (old =s new) && existsb (user_is server new) (dev_users (inventory db))
    then inr (unique_violation "server_dev_sudo_users_server_id_username_key")
    else inl (u, with_dev_users db t).

(** One user after the other; the identifiers of the new ones come from the supply. *)
Fixpoint insert_users `{UuidSource} (server : pgUUID_t) (usernames : list str) (db : database) : database :=
  match usernames with
  | [] => db
  | username :: t =>
      let now := Some (clock db) in
      let fresh := DevUser.mk (PgUUID (gen_uuid (uuid_supply db)) true) server username now now in
      let '(l, _) := sql_upsert (user_is server username) (touched now) fresh (dev_users (inventory db)) in
      insert_users server t (with_uuid_supply (with_dev_users db l) (S (uuid_supply db)))
  end.

(** The statement deletes the users that are not desired and inserts the desired
    ones; a row may not be written twice. *)
Definition ReplaceServerDevSudoUsers `{UuidSource} (server : pgUUID_t) (usernames : list str) : query unit := fun db =>
  let kept := List.filter (fun u => negb (user_of server u) || existsb (str_eqb (DevUser.Username u)) usernames)
    (dev_users (inventory db)) in
  if negb (forallb text_ok usernames) then inr encoding_error
  else match usernames with
  | [] => inl (tt, with_dev_users db kept)
  | _ =>
      if negb (uuid_valid server) then inr not_null_violation
      else if negb (forallb (MatchString username_pattern) usernames)
      then inr (check_violation "server_dev_sudo_users_username_check")
      else if negb (bool_decide (NoDup usernames))
      then inr (ErrPg "21000" [] (lit "ON CONFLICT DO UPDATE command cannot affect row a second time"))
      else if negb (reference_ok Server.ID server (servers db))
      then inr (foreign_key_violation "server_dev_sudo_users_server_id_fkey")
      else inl (tt, insert_users server usernames (with_dev_users db kept))
  end.

(** ** Proxy routes *)

(** [^https?://[^/?#]+/?$] *)
Definition origin_pattern : regex :=
  RSeqs [RBol; http_prefix; RRep (fun r => negb (class (lit "/?#") r)) 1 None true;
         RAlt (RLit false (lit "/")) REmpty; REol].
Definition upstream_check (url : str) : bool :=
  negb (btrim url =s []) && MatchString origin_pattern url && negb (has_cntrl url)
  && negb (MatchString http_credentials url).

(** [(^|[.])-|-(\.|$)|[.]{2}] *)
Definition label_boundary_pattern : regex :=
  RAlts [RSeqs [RAlt RBol (RLit false (lit ".")); RLit false (lit "-")];
         RSeqs [RLit false (lit "-"); RAlt (RLit false (lit ".")) REol]; RLit false (lit "..")].
Definition domain_check (domain : str) : bool :=
  negb (btrim domain =s []) && (char_length domain <=? 253)%nat
  && forallb (fun r => is_lower_ascii r || is_digit r || class (lit ".-") r) (runes domain)
  && negb (MatchString label_boundary_pattern domain).

(** [^[A-Z_][A-Z0-9_]{0,127}$] *)
Definition port_variable_pattern : regex :=
  RSeqs [RBol; RClass (fun r => is_upper_ascii r || (r =? 95)%N);
         RRep (fun r => is_upper_ascii r || is_digit r || (r =? 95)%N) 0 (Some 127%nat) true; REol].

(** [^[A-Za-z0-9_.-]+$] *)
Definition compose_service_pattern : regex := RSeqs [RBol; repo_part; REol].

Definition proxy_route_check (r : ProxyRoute.t) : bool :=
  domain_check (ProxyRoute.Domain r) && upstream_check (ProxyRoute.UpstreamUrl r)
  && existsb (str_eqb (ProxyRoute.Status r)) [lit "pending"; lit "applied"; lit "failed"]
  && nullable upstream_check (ProxyRoute.BlueUpstreamUrl r) && nullable upstream_check (ProxyRoute.GreenUpstreamUrl r)
  && nullable (fun v => negb (btrim v =s []) && (char_length v <=? 128)%nat && MatchString compose_service_pattern v)
       (ProxyRoute.ComposeService r)
  && match ProxyRoute.ContainerPort r with Some p => (1 <=? p)%Z && (p <=? 65535)%Z | None => true end
  && nullable (MatchString port_variable_pattern) (ProxyRoute.PortVariable r).

Module CreateProxyRouteParams.
Record t := mk {
  ServerID : pgUUID_t; ApplicationID : pgUUID_t; Domain : str; UpstreamUrl : str; TlsEnabled : bool;
  BlueUpstreamUrl : pgText; GreenUpstreamUrl : pgText; ComposeService : pgText; ContainerPort : option Z;
  PortVariable : pgText }.
End CreateProxyRouteParams.

Definition route_is (server : pgUUID_t) (domain : str) (r : ProxyRoute.t) : bool :=
  uuid_eqb (ProxyRoute.ServerID r) server && (ProxyRoute.Domain r =s domain).

Definition replaced_route (fresh r : ProxyRoute.t) : ProxyRoute.t :=
  ProxyRoute.mk (ProxyRoute.ID r) (ProxyRoute.ServerID r) (ProxyRoute.ApplicationID fresh) (ProxyRoute.Domain r)
    (ProxyRoute.UpstreamUrl fresh) (ProxyRoute.TlsEnabled fresh) (lit "pending") (ProxyRoute.LastAppliedAt r)
    (ProxyRoute.CreatedAt r) (ProxyRoute.UpdatedAt fresh) (ProxyRoute.BlueUpstreamUrl fresh)
    (ProxyRoute.GreenUpstreamUrl fresh) (ProxyRoute.ComposeService fresh) (ProxyRoute.ContainerPort fresh)
    (ProxyRoute.PortVariable fresh).

Definition route_texts (arg : CreateProxyRouteParams.t) : bool :=
  let '(CreateProxyRouteParams.mk _ _ domain url _ blue green service _ variable) := arg in
  text_ok domain && text_ok url && forallb text_param_ok [blue; green; service; variable].

Definition CreateProxyRoute `{UuidSource} (arg : CreateProxyRouteParams.t) : query ProxyRoute.t := fun db =>
  let '(CreateProxyRouteParams.mk server app domain url tls blue green service port variable) := arg in
  let now := Some (clock db) in
  let fresh := ProxyRoute.mk (PgUUID (gen_uuid (uuid_supply db)) true) server app domain url tls (lit "pending") None now now
    (norm_text blue) (norm_text green) (norm_text service) port (norm_text variable) in
  if negb (route_texts arg) then inr encoding_error
  else if negb (uuid_valid server) then inr not_null_violation
  else if negb (proxy_route_check fresh) then inr (check_violation "proxy_routes_check")
  else if negb (reference_ok Server.ID server (servers db)) then inr (foreign_key_violation "proxy_routes_server_id_fkey")
  else if negb (reference_ok Application.ID app (applications db))
  then inr (foreign_key_violation "proxy_routes_application_id_fkey")
  else
    let '(t, r) := sql_upsert (route_is server domain) (replaced_route fresh) fresh (routes db) in
    inl (r, with_uuid_supply (with_routes db t) (S (uuid_supply db))).

Definition route_target (r : ProxyRoute.t) (s : Server.t) : RouteTarget.t :=
  RouteTarget.mk (ProxyRoute.ID r) (ProxyRoute.ServerID r) (ProxyRoute.ApplicationID r) (ProxyRoute.Domain r)
    (ProxyRoute.UpstreamUrl r) (ProxyRoute.TlsEnabled r) (ProxyRoute.Status r) (ProxyRoute.BlueUpstreamUrl r)
    (ProxyRoute.GreenUpstreamUrl r) (ProxyRoute.ComposeService r) (ProxyRoute.ContainerPort r) (ProxyRoute.PortVariable r)
    (Server.Name s) (Server.Hostname s) (Server.SshUser s) (Server.SshPort s) (Server.SshKeyPath s) (Server.ProxyType s).

Definition GetProxyRouteTarget (id : pgUUID_t) : query RouteTarget.t := fun db =>
  let? t := one_row (omap (fun r =>
      s ← find_row (fun s => uuid_eqb (Server.ID s) (ProxyRoute.ServerID r)) (servers db); Some (route_target r s))
    (List.filter (fun r => uuid_eqb (ProxyRoute.ID r) id) (routes db))) in
  inl (t, db).

(** The row of ListProxyRoutes: a route with the names of its server and application. *)
Module ProxyRouteListRow.
Record t := mk { Row : ProxyRoute.t; ServerName : str; ProxyType : str; ApplicationName : pgText }.
End ProxyRouteListRow.

Definition ListProxyRoutes : query (list ProxyRouteListRow.t) := fun db =>
  inl (merge_sort (by_key (fun r => ProxyRoute.Domain (ProxyRouteListRow.Row r)))
    (omap (fun r =>
      s ← find_row (fun s => uuid_eqb (Server.ID s) (ProxyRoute.ServerID r)) (servers db);
      Some (ProxyRouteListRow.mk r (Server.Name s) (Server.ProxyType s)
        (match find_row (fun a => uuid_eqb (Application.ID a) (ProxyRoute.ApplicationID r)) (applications db) with
         | Some a => someText (Application.Name a) | None => textNull end))) (routes db)), db).

Definition ListProxyRoutesForServer (server : pgUUID_t) : query (list ProxyRoute.t) := fun db =>
  inl (merge_sort (by_key ProxyRoute.Domain)
    (List.filter (fun r => uuid_eqb (ProxyRoute.ServerID r) server) (routes db)), db).

Definition UpdateProxyRouteUpstream (id : pgUUID_t) (url : str) : query ProxyRoute.t := fun db =>
  if negb (text_ok url) then inr encoding_error
  else
    let '(t, rows) := sql_update (fun r => uuid_eqb (ProxyRoute.ID r) id)
      (fun r => ProxyRouteRow.set_status r url (lit "pending") (ProxyRoute.LastAppliedAt r) (Some (clock db))) (routes db) in
    let? r := one_row rows in
    if negb (proxy_route_check r) then inr (check_violation "proxy_routes_check") else inl (r, with_routes db t).
