(* ===== verification/DbInventory.v ===== *)
(** * Statements on credentials, registries and connectors (internal/db/core.sql.go)

    The inventory of credentials with their permissions and usages, the container
    registries, the connector accounts, and the registration of a server together
    with its SSH key; the constraints are those of db/migrations 001, 006, 019 and
    026.  A jsonb value is kept as the value that was written: the Go code reads
    it into maps and structs, where the order of keys does not matter. *)

From S2P Require Import Prelude GoStrings GoRegexp GoJson StringUtil AuditLog Db DbHttp.
From S2P Require Import DbApplications DbServers.

Definition with_credentials (db : database) l :=
  with_inventory db (Inventory l (permissions (inventory db)) (usages (inventory db)) (registries (inventory db))
    (dev_users (inventory db))).
Definition with_permissions (db : database) l :=
  with_inventory db (Inventory (credentials (inventory db)) l (usages (inventory db)) (registries (inventory db))
    (dev_users (inventory db))).
Definition with_usages (db : database) l :=
  with_inventory db (Inventory (credentials (inventory db)) (permissions (inventory db)) l (registries (inventory db))
    (dev_users (inventory db))).
Definition with_registries (db : database) l :=
  with_inventory db (Inventory (credentials (inventory db)) (permissions (inventory db)) (usages (inventory db)) l
    (dev_users (inventory db))).
Definition with_connector_accounts (db : database) l := Database (applications db) (deployments db) (slots db)
  (routes db) (logs db) (audit_events db) (service_configs db) (project_variables db) (environments db) (projects db)
  (servers db) (build_runs db) l (inventory db) (clock db) (uuid_supply db).

(** ORDER BY several text columns. *)
Fixpoint strs_leb (a b : list str) : bool :=
  match a, b with
  | [], _ => true
  | _, [] => false
  | x :: a, y :: b => if x =s y then strs_leb a b else str_leb x y
  end.
Definition by_keys {R} (key : R -> list str) (x y : R) : Prop := strs_leb (key x) (key y) = true.
#[export] Instance by_keys_dec {R} (key : R -> list str) : RelDecision (by_keys key).
Proof. intros x y. unfold by_keys. apply _. Defined.

Definition plain (s : str) : bool := negb (btrim s =s []) && negb (has_cntrl s).

(** The identifier of the next row. *)
Definition new_uuid `{UuidSource} (db : database) : pgUUID_t := PgUUID (gen_uuid (uuid_supply db)) true.
Definition issue_uuid (db : database) : database := with_uuid_supply db (S (uuid_supply db)).

(** ** Credentials *)

Definition credential_check (c : Credential.t) : bool :=
  plain (Credential.Name c) && plain (Credential.ExternalRef c) && plain (Credential.CredentialType c)
  && existsb (str_eqb (Credential.Provider c))
       [lit "github"; lit "doppler"; lit "s3"; lit "gcs"; lit "slack"; lit "resend"; lit "ssh"]
  && existsb (str_eqb (Credential.Status c)) [lit "active"; lit "rotating"; lit "revoked"; lit "unknown"].

Module UpsertCredentialParams.
Record t := mk { Name : str; Provider : str; ExternalRef : str; CredentialType : str; Status : str }.
End UpsertCredentialParams.

Definition same_reference (provider ref : str) (c : Credential.t) : bool :=
  (Credential.Provider c =s provider) && (Credential.ExternalRef c =s ref).

Definition seen_credential (fresh c : Credential.t) : Credential.t :=
  Credential.mk (Credential.ID c) (Credential.Name fresh) (Credential.Provider c) (Credential.ExternalRef c)
    (Credential.CredentialType fresh) (Credential.Status fresh) (Credential.LastSeenAt fresh) (Credential.CreatedAt c)
    (Credential.UpdatedAt fresh).

Definition UpsertCredential `{UuidSource} (arg : UpsertCredentialParams.t) : query Credential.t := fun db =>
  let '(UpsertCredentialParams.mk name provider ref type status) := arg in
  let now := Some (clock db) in
  let fresh := Credential.mk (new_uuid db) name provider ref type status now now now in
  if negb (forallb text_ok [name; provider; ref; type; status]) then inr encoding_error
  else if negb (credential_check fresh) then inr (check_violation "credentials_check")
  else
    let '(t, c) := sql_upsert (same_reference provider ref) (seen_credential fresh) fresh (credentials (inventory db)) in
    inl (c, issue_uuid (with_credentials db t)).

Definition permission_of (credential : pgUUID_t) (p : PermissionRow.t) : bool :=
  uuid_eqb (PermissionRow.CredentialID p) credential.
Definition usage_of_row (credential : pgUUID_t) (u : UsageRow.t) : bool := uuid_eqb (UsageRow.CredentialID u) credential.

Definition DeleteCredentialPermissions (credential : pgUUID_t) : query unit := fun db =>
  inl (tt, with_permissions db (List.filter (fun p => negb (permission_of credential p)) (permissions (inventory db)))).
Definition DeleteCredentialUsages (credential : pgUUID_t) : query unit := fun db =>
  inl (tt, with_usages db (List.filter (fun u => negb (usage_of_row credential u)) (usages (inventory db)))).

Module UpsertCredentialPermissionParams.
Record t := mk { CredentialID : pgUUID_t; ResourceType : str; ResourceName : str; Permission : str; Source : str }.
End UpsertCredentialPermissionParams.

Definition permission_check (p : PermissionRow.t) : bool :=
  plain (PermissionRow.ResourceType p) && plain (PermissionRow.ResourceName p) && plain (PermissionRow.Permission p)
  && plain (PermissionRow.Source p).

Definition permission_is (credential : pgUUID_t) (type name permission : str) (p : PermissionRow.t) : bool :=
  permission_of credential p && (PermissionRow.ResourceType p =s type) && (PermissionRow.ResourceName p =s name)
  && (PermissionRow.Permission p =s permission).

Definition with_source (source : str) (p : PermissionRow.t) : PermissionRow.t :=
  PermissionRow.mk (PermissionRow.ID p) (PermissionRow.CredentialID p) (PermissionRow.ResourceType p)
    (PermissionRow.ResourceName p) (PermissionRow.Permission p) source (PermissionRow.CreatedAt p).

Definition UpsertCredentialPermission `{UuidSource} (arg : UpsertCredentialPermissionParams.t) : query PermissionRow.t := fun db =>
  let '(UpsertCredentialPermissionParams.mk credential type name permission source) := arg in
  let fresh := PermissionRow.mk (new_uuid db) credential type name permission source (Some (clock db)) in
  if negb (forallb text_ok [type; name; permission; source]) then inr encoding_error
  else if negb (uuid_valid credential) then inr not_null_violation
  else if negb (permission_check fresh) then inr (check_violation "credential_permissions_check")
  else if negb (reference_ok Credential.ID credential (credentials (inventory db)))
  then inr (foreign_key_violation "credential_permissions_credential_id_fkey")
  else
    let '(t, p) := sql_upsert (permission_is credential type name permission) (with_source source) fresh (permissions (inventory db)) in
    inl (p, issue_uuid (with_permissions db t)).

Module UpsertCredentialUsageParams.
Record t := mk { CredentialID : pgUUID_t; UsedByType : str; UsedByName : str; UsageContext : str }.
End UpsertCredentialUsageParams.

Definition usage_check (u : UsageRow.t) : bool :=
  plain (UsageRow.UsedByType u) && plain (UsageRow.UsedByName u) && plain (UsageRow.UsageContext u).

Definition usage_is (credential : pgUUID_t) (type name context : str) (u : UsageRow.t) : bool :=
  usage_of_row credential u && (UsageRow.UsedByType u =s type) && (UsageRow.UsedByName u =s name)
  && (UsageRow.UsageContext u =s context).

Definition UpsertCredentialUsage `{UuidSource} (arg : UpsertCredentialUsageParams.t) : query UsageRow.t := fun db =>
  let '(UpsertCredentialUsageParams.mk credential type name context) := arg in
  let fresh := UsageRow.mk (new_uuid db) credential type name context (Some (clock db)) in
  if negb (forallb text_ok [type; name; context]) then inr encoding_error
  else if negb (uuid_valid credential) then inr not_null_violation
  else if negb (usage_check fresh) then inr (check_violation "credential_usages_check")
  else if negb (reference_ok Credential.ID credential (credentials (inventory db)))
  then inr (foreign_key_violation "credential_usages_credential_id_fkey")
  else
    let '(t, u) := sql_upsert (usage_is credential type name context) (fun u => u) fresh (usages (inventory db)) in
    inl (u, issue_uuid (with_usages db t)).

Definition GetCredential (id : pgUUID_t) : query Credential.t := fun db =>
  let? c := one_row (List.filter (fun c => uuid_eqb (Credential.ID c) id) (credentials (inventory db))) in inl (c, db).

(** A credential with the numbers of its permissions and usages. *)
Module CredentialCounts.
Record t := mk { Row : Credential.t; PermissionCount : Z; UsageCount : Z }.
End CredentialCounts.

Definition counted (db : database) (c : Credential.t) : CredentialCounts.t :=
  CredentialCounts.mk c
    (Z.of_nat (length (List.filter (permission_of (Credential.ID c)) (permissions (inventory db)))))
    (Z.of_nat (length (List.filter (usage_of_row (Credential.ID c)) (usages (inventory db))))).

Definition GetCredentialWithCounts (id : pgUUID_t) : query CredentialCounts.t := fun db =>
  let? c := one_row (List.filter (fun c => uuid_eqb (Credential.ID c) id) (credentials (inventory db))) in inl (counted db c, db).

Definition ListCredentials : query (list CredentialCounts.t) := fun db =>
  inl (map (counted db) (merge_sort (by_keys (fun c => [Credential.Provider c; Credential.Name c])) (credentials (inventory db))), db).

Definition ListCredentialPermissions (credential : pgUUID_t) : query (list PermissionRow.t) := fun db =>
  inl (merge_sort (by_keys (fun p => [PermissionRow.ResourceType p; PermissionRow.ResourceName p; PermissionRow.Permission p]))
    (List.filter (permission_of credential) (permissions (inventory db))), db).

Definition ListCredentialUsages (credential : pgUUID_t) : query (list UsageRow.t) := fun db =>
  inl (merge_sort (by_keys (fun u => [UsageRow.UsedByType u; UsageRow.UsedByName u]))
    (List.filter (usage_of_row credential) (usages (inventory db))), db).

(** ** A server with its SSH key *)

(** One statement: the server, and for a server with a key the credential, its
    permission and its usage. *)
Definition CreateServerWithSSHInventory `{UuidSource} (arg : CreateServerParams.t) : query Server.t := fun db =>
  let? (server, db) := CreateServer arg db in
  if negb (Valid (Server.SshKeyPath server)) then inl (server, db)
  else
    let? (credential, db) := UpsertCredential (UpsertCredentialParams.mk (Server.Name server ++ lit " SSH key") (lit "ssh")
      (String' (Server.SshKeyPath server)) (lit "ssh_key") (lit "active")) db in
    let? (_, db) := UpsertCredentialPermission (UpsertCredentialPermissionParams.mk (Credential.ID credential) (lit "server")
      (Server.Name server) (lit "ssh:connect") (lit "server registration")) db in
    let? (_, db) := UpsertCredentialUsage (UpsertCredentialUsageParams.mk (Credential.ID credential) (lit "server")
      (Server.Name server) (lit "remote access for deployments and health checks")) db in
    inl (server, db).

(** ** Container registries *)

Module UpsertContainerRegistryParams.
Record t := mk {
  Name : str; Provider : str; RegistryHost : str; Namespace : str; Repository : str; DefaultImage : str; Enabled : bool }.
End UpsertContainerRegistryParams.

(** [s !~ '(^/|/$|//|[[:space:]])'] *)
Definition path_part_check (s : str) : bool :=
  negb (HasPrefix s (lit "/")) && negb (HasSuffix s (lit "/")) && negb (Contains s (lit "//"))
  && forallb (fun r => negb (is_space r)) (runes s).

Definition registry_check (r : ContainerRegistry.t) : bool :=
  let '(ContainerRegistry.mk _ name provider host namespace repository image _ _ _) := r in
  existsb (str_eqb provider) [lit "gcp_artifact_registry"; lit "docker_hub"; lit "ghcr"; lit "ecr"; lit "custom"]
  && forallb (fun s => negb (btrim s =s [])) [name; host; repository]
  && forallb (fun s => negb (has_cntrl s)) [name; host; namespace; repository; image]
  && forallb (fun r => negb (class (lit "/:") r || is_space r)) (runes host)
  && ((namespace =s []) || path_part_check namespace) && path_part_check repository
  && ((image =s []) || path_part_check image).

Definition replaced_registry (fresh r : ContainerRegistry.t) : ContainerRegistry.t :=
  ContainerRegistry.mk (ContainerRegistry.ID r) (ContainerRegistry.Name r) (ContainerRegistry.Provider fresh)
    (ContainerRegistry.RegistryHost fresh) (ContainerRegistry.Namespace fresh) (ContainerRegistry.Repository fresh)
    (ContainerRegistry.DefaultImage fresh) (ContainerRegistry.Enabled fresh) (ContainerRegistry.CreatedAt r)
    (ContainerRegistry.UpdatedAt fresh).

Definition UpsertContainerRegistry `{UuidSource} (arg : UpsertContainerRegistryParams.t) : query ContainerRegistry.t := fun db =>
  let '(UpsertContainerRegistryParams.mk name provider host namespace repository image enabled) := arg in
  let now := Some (clock db) in
  let fresh := ContainerRegistry.mk (new_uuid db) name provider host namespace repository image enabled now now in
  if negb (forallb text_ok [name; provider; host; namespace; repository; image]) then inr encoding_error
  else if negb (registry_check fresh) then inr (check_violation "container_registries_check")
  else
    let '(t, r) := sql_upsert (fun r => ContainerRegistry.Name r =s name) (replaced_registry fresh) fresh (registries (inventory db)) in
    inl (r, issue_uuid (with_registries db t)).

Definition GetContainerRegistry (id : pgUUID_t) : query ContainerRegistry.t := fun db =>
  let? r := one_row (List.filter (fun r => uuid_eqb (ContainerRegistry.ID r) id) (registries (inventory db))) in inl (r, db).

(** ORDER BY enabled DESC, name *)
Definition ListContainerRegistries : query (list ContainerRegistry.t) := fun db =>
  inl (merge_sort (by_keys (fun r => [if ContainerRegistry.Enabled r then lit "0" else lit "1"; ContainerRegistry.Name r]))
    (registries (inventory db)), db).

(** ** Connector accounts *)

Definition connector_check (c : ConnectorAccount.t) : bool :=
  existsb (str_eqb (ConnectorAccount.Provider c)) [lit "github"; lit "doppler"; lit "s3"; lit "gcs"; lit "slack"; lit "resend"]
  && plain (ConnectorAccount.Name c)
  && match ConnectorAccount.Config c with Some (JObj _) => true | _ => false end
  && nullable (fun s => (s =s lit "ok") || (s =s lit "failed")) (ConnectorAccount.LastSyncStatus c)
  && nullable (fun s => plain s && (char_length s <=? 512)%nat) (ConnectorAccount.LastSyncMessage c).

Definition account_is (provider name : str) (c : ConnectorAccount.t) : bool :=
  (ConnectorAccount.Provider c =s provider) && (ConnectorAccount.Name c =s name).

Definition GetConnectorAccount (id : pgUUID_t) : query ConnectorAccount.t := fun db =>
  let? c := one_row (List.filter (fun c => uuid_eqb (ConnectorAccount.ID c) id) (connector_accounts db)) in inl (c, db).

Module UpsertConnectorAccountParams.
Record t := mk { Provider : str; Name : str; Enabled : bool; Config : bytes }.
End UpsertConnectorAccountParams.

(** A change of the configuration forgets the last synchronisation. *)
Definition reconfigured (fresh c : ConnectorAccount.t) : ConnectorAccount.t :=
  let changed := negb (Bool.eqb (ConnectorAccount.Enabled c) (ConnectorAccount.Enabled fresh))
                 || negb (bytes_eqb (ConnectorAccount.Config c) (ConnectorAccount.Config fresh)) in
  ConnectorAccount.mk (ConnectorAccount.ID c) (ConnectorAccount.Provider c) (ConnectorAccount.Name c)
    (ConnectorAccount.Enabled fresh) (ConnectorAccount.Config fresh)
    (if changed then textNull else ConnectorAccount.LastSyncStatus c)
    (if changed then textNull else ConnectorAccount.LastSyncMessage c)
    (if changed then None else ConnectorAccount.LastSyncedAt c) (ConnectorAccount.CreatedAt c) (ConnectorAccount.UpdatedAt fresh).

Definition store_account `{UuidSource} (set : ConnectorAccount.t -> ConnectorAccount.t) (fresh : ConnectorAccount.t)
    : query ConnectorAccount.t := fun db =>
  let '(t, c) := sql_upsert (account_is (ConnectorAccount.Provider fresh) (ConnectorAccount.Name fresh)) set fresh (connector_accounts db) in
  if negb (connector_check fresh && connector_check c) then inr (check_violation "connector_accounts_check")
  else inl (c, issue_uuid (with_connector_accounts db t)).

Definition UpsertConnectorAccount `{UuidSource} (arg : UpsertConnectorAccountParams.t) : query ConnectorAccount.t := fun db =>
  let '(UpsertConnectorAccountParams.mk provider name enabled config) := arg in
  let now := Some (clock db) in
  let fresh := ConnectorAccount.mk (new_uuid db) provider name enabled config textNull textNull None now now in
  if negb (text_ok provider && text_ok name) then inr encoding_error
  else store_account (reconfigured fresh) fresh db.

Module MarkConnectorSyncParams.
Record t := mk { Provider : str; Name : str; LastSyncStatus : pgText; LastSyncMessage : pgText }.
End MarkConnectorSyncParams.

Definition synced (fresh c : ConnectorAccount.t) : ConnectorAccount.t :=
  ConnectorAccount.mk (ConnectorAccount.ID c) (ConnectorAccount.Provider c) (ConnectorAccount.Name c)
    (ConnectorAccount.Enabled c) (ConnectorAccount.Config c) (ConnectorAccount.LastSyncStatus fresh)
    (ConnectorAccount.LastSyncMessage fresh) (ConnectorAccount.LastSyncedAt fresh) (ConnectorAccount.CreatedAt c)
    (ConnectorAccount.UpdatedAt fresh).

Definition MarkConnectorSync `{UuidSource} (arg : MarkConnectorSyncParams.t) : query ConnectorAccount.t := fun db =>
  let '(MarkConnectorSyncParams.mk provider name status message) := arg in
  let now := Some (clock db) in
  let fresh := ConnectorAccount.mk (new_uuid db) provider name true (Some (JObj [])) (norm_text status) (norm_text message)
    now now now in
  if negb (text_ok provider && text_ok name && text_param_ok status && text_param_ok message) then inr encoding_error
  else store_account (synced fresh) fresh db.
