(* ===== verification/DbProjects.v ===== *)
(** * Statements on projects and environments (internal/db/core.sql.go)

    Projects with their registry and repository, environments, and the list of
    applications with the names of what they belong to; the constraints are those
    of db/migrations 001, 023, 026, 033 and 034. *)

From S2P Require Import Prelude GoStrings GoRegexp GoJson StringUtil AuditLog Db DbHttp.
From S2P Require Import DbApplications DbServers DbInventory.

Definition with_environments (db : database) l := Database (applications db) (deployments db) (slots db)
  (routes db) (logs db) (audit_events db) (service_configs db) (project_variables db) l (projects db)
  (servers db) (build_runs db) (connector_accounts db) (inventory db) (clock db) (uuid_supply db).

(** ** Projects *)

Definition slug_rune (r : rune) : bool := is_lower_ascii r || is_digit r || (r =? 45)%N.
Definition slug_end (r : rune) : bool := is_lower_ascii r || is_digit r.
(** [^[a-z0-9][a-z0-9-]*[a-z0-9]$] or [^[a-z0-9]$]; a slug of these characters is lower case. *)
Definition slug_check (slug : str) : bool :=
  MatchString (RSeqs [RBol; RClass slug_end; RStar slug_rune; RClass slug_end; REol]) slug
  || MatchString (RSeqs [RBol; RClass slug_end; REol]) slug.

Definition project_check (p : ProjectRow.t) : bool :=
  negb (btrim (ProjectRow.Name p) =s []) && slug_check (ProjectRow.Slug p)
  && negb (has_cntrl (ProjectRow.Name p)) && negb (has_cntrl (ProjectRow.Description p))
  && nullable (MatchString full_name_pattern) (ProjectRow.RepositoryFullName p)
  && nullable (fun b => branch_check b && (btrim b =s b) && negb (has_cntrl b)) (ProjectRow.RepositoryBranch p)
  && Bool.eqb (Valid (ProjectRow.RepositoryFullName p)) (Valid (ProjectRow.RepositoryBranch p)).

(** Two projects with one slug are refused. *)
Definition store_projects (p : ProjectRow.t) (db : database) (t : list ProjectRow.t) : result (ProjectRow.t * database) :=
  if negb (project_check p) then inr (check_violation "projects_check")
  else if negb (bool_decide (NoDup (map ProjectRow.Slug t))) then inr (unique_violation "projects_slug_key")
  else if negb (reference_ok ContainerRegistry.ID (ProjectRow.DefaultRegistryID p) (registries (inventory db)))
  then inr (foreign_key_violation "projects_default_registry_id_fkey")
  else if negb (reference_ok ConnectorAccount.ID (ProjectRow.RepositoryConnectorID p) (connector_accounts db))
  then inr (foreign_key_violation "projects_repository_connector_id_fkey")
  else inl (p, with_projects db t).

Definition update_project (id : pgUUID_t) (set : ProjectRow.t -> ProjectRow.t) : query ProjectRow.t := fun db =>
  let '(t, rows) := sql_update (fun p => uuid_eqb (ProjectRow.ID p) id) set (projects db) in
  let? p := one_row rows in store_projects p db t.

(** ORDER BY name; the name of the registry is [NULL] without one. *)
Module ProjectListRow.
Record t := mk { Row : ProjectRow.t; DefaultRegistryName : pgText }.
End ProjectListRow.

Definition registry_name (id : pgUUID_t) (db : database) : pgText :=
  match find_row (fun r => uuid_eqb (ContainerRegistry.ID r) id) (registries (inventory db)) with
  | Some r => someText (ContainerRegistry.Name r)
  | None => textNull
  end.

Definition ListProjects : query (list ProjectListRow.t) := fun db =>
  inl (map (fun p => ProjectListRow.mk p (registry_name (ProjectRow.DefaultRegistryID p) db))
         (merge_sort (by_key ProjectRow.Name) (projects db)), db).

Module UpdateProjectParams.
Record t := mk { ID : pgUUID_t; Name : str; Slug : str; Description : str }.
End UpdateProjectParams.

Definition updated_project (name slug description : str) (now : timestamptz) (p : ProjectRow.t) : ProjectRow.t :=
  ProjectRow.mk (ProjectRow.ID p) name slug description (ProjectRow.CreatedAt p) now (ProjectRow.DefaultRegistryID p)
    (ProjectRow.RepositoryConnectorID p) (ProjectRow.RepositoryFullName p) (ProjectRow.RepositoryBranch p)
    (ProjectRow.ConfigurationRevision p).

Definition UpdateProject (arg : UpdateProjectParams.t) : query ProjectRow.t := fun db =>
  let '(UpdateProjectParams.mk id name slug description) := arg in
  if negb (forallb text_ok [name; slug; description]) then inr encoding_error
  else update_project id (updated_project name slug description (Some (clock db))) db.

Definition with_registry (registry : pgUUID_t) (now : timestamptz) (p : ProjectRow.t) : ProjectRow.t :=
  ProjectRow.mk (ProjectRow.ID p) (ProjectRow.Name p) (ProjectRow.Slug p) (ProjectRow.Description p) (ProjectRow.CreatedAt p)
    now registry (ProjectRow.RepositoryConnectorID p) (ProjectRow.RepositoryFullName p) (ProjectRow.RepositoryBranch p)
    (ProjectRow.ConfigurationRevision p).

Definition UpdateProjectRegistry (registry id : pgUUID_t) : query ProjectRow.t := fun db =>
  update_project id (with_registry registry (Some (clock db))) db.

Module UpdateProjectRepositoryParams.
Record t := mk { RepositoryConnectorID : pgUUID_t; RepositoryFullName : pgText; RepositoryBranch : pgText; ID : pgUUID_t }.
End UpdateProjectRepositoryParams.

Definition with_repository (connector : pgUUID_t) (name branch : pgText) (now : timestamptz) (p : ProjectRow.t) : ProjectRow.t :=
  ProjectRow.mk (ProjectRow.ID p) (ProjectRow.Name p) (ProjectRow.Slug p) (ProjectRow.Description p) (ProjectRow.CreatedAt p)
    now (ProjectRow.DefaultRegistryID p) connector (norm_text name) (norm_text branch) (ProjectRow.ConfigurationRevision p).

Definition UpdateProjectRepository (arg : UpdateProjectRepositoryParams.t) : query ProjectRow.t := fun db =>
  let '(UpdateProjectRepositoryParams.mk connector name branch id) := arg in
  if negb (text_param_ok name && text_param_ok branch) then inr encoding_error
  else update_project id (with_repository connector name branch (Some (clock db))) db.

(** ** Environments *)

Definition environment_check (e : Environment.t) : bool :=
  negb (btrim (Environment.Name e) =s []) && slug_check (Environment.Slug e)
  && negb (has_cntrl (Environment.Name e)) && nullable (fun b => negb (has_cntrl b)) (Environment.Branch e)
  && existsb (str_eqb (Environment.Kind e)) [lit "production"; lit "development"; lit "preview"]
  && Bool.eqb (Environment.Kind e =s lit "preview") (Environment.IsEphemeral e)
  && match Environment.PullRequestNumber e with Some n => (0 <? n)%Z | None => true end.

Definition same_slug (e f : Environment.t) : bool :=
  uuid_eqb (Environment.ProjectID e) (Environment.ProjectID f) && (Environment.Slug e =s Environment.Slug f).

Definition insert_environment (e : Environment.t) : query Environment.t := fun db =>
  if negb (uuid_valid (Environment.ProjectID e)) then inr not_null_violation
  else if negb (environment_check e) then inr (check_violation "environments_check")
  else if existsb (same_slug e) (environments db) then inr (unique_violation "environments_project_id_slug_key")
  else if negb (reference_ok ProjectRow.ID (Environment.ProjectID e) (projects db))
  then inr (foreign_key_violation "environments_project_id_fkey")
  else inl (e, issue_uuid (with_environments db (environments db ++ [e]))).

Module CreateEnvironmentParams.
Record t := mk {
  ProjectID : pgUUID_t; Name : str; Slug : str; Kind : str; IsEphemeral : bool; PullRequestNumber : option Z;
  Branch : pgText; ExpiresAt : timestamptz }.
End CreateEnvironmentParams.

Definition CreateEnvironment `{UuidSource} (arg : CreateEnvironmentParams.t) : query Environment.t := fun db =>
  let '(CreateEnvironmentParams.mk project name slug kind ephemeral number branch expires) := arg in
  let now := Some (clock db) in
  if negb (forallb text_ok [name; slug; kind] && text_param_ok branch) then inr encoding_error
  else insert_environment (Environment.mk (new_uuid db) project name slug kind ephemeral number (norm_text branch) expires now now) db.

(** The identifier of the deleted environment; none when an application is in it. *)
Definition DeleteEnvironment (id : pgUUID_t) : query pgUUID_t := fun db =>
  let gone e := uuid_eqb (Environment.ID e) id
                && negb (existsb (fun a => uuid_eqb (Application.EnvironmentID a) (Environment.ID e)) (applications db)) in
  let? e := one_row (List.filter gone (environments db)) in
  inl (Environment.ID e, with_environments db (List.filter (fun e => negb (gone e)) (environments db))).

Definition kind_rank (e : Environment.t) : str :=
  if Environment.Kind e =s lit "production" then lit "1" else if Environment.Kind e =s lit "development" then lit "2" else lit "3".

Definition ListEnvironmentsForProject (project : pgUUID_t) : query (list Environment.t) := fun db =>
  inl (merge_sort (by_keys (fun e => [kind_rank e; Environment.Name e]))
    (List.filter (fun e => uuid_eqb (Environment.ProjectID e) project) (environments db)), db).

Module EnvironmentListRow.
Record t := mk { Row : Environment.t; ProjectName : str; ProjectSlug : str }.
End EnvironmentListRow.

Definition ListEnvironments : query (list EnvironmentListRow.t) := fun db =>
  inl (merge_sort (by_keys (fun e => [EnvironmentListRow.ProjectName e; kind_rank (EnvironmentListRow.Row e);
                                      Environment.Name (EnvironmentListRow.Row e)]))
    (omap (fun e =>
      p ← find_row (fun p => uuid_eqb (ProjectRow.ID p) (Environment.ProjectID e)) (projects db);
      Some (EnvironmentListRow.mk e (ProjectRow.Name p) (ProjectRow.Slug p))) (environments db)), db).

(** ** Projects with their environments *)

Module CreateProjectParams.
Record t := mk { Name : str; Slug : str; Description : str }.
End CreateProjectParams.

(** One statement: the project and its production environment. *)
Definition CreateProjectWithDefaultEnvironments `{UuidSource} (arg : CreateProjectParams.t) : query ProjectRow.t := fun db =>
  let '(CreateProjectParams.mk name slug description) := arg in
  let now := Some (clock db) in
  let p := ProjectRow.mk (new_uuid db) name slug description now now no_uuid no_uuid textNull textNull 0 in
  if negb (forallb text_ok [name; slug; description]) then inr encoding_error
  else
    let? (p, db) := store_projects p db (projects db ++ [p]) in
    let db := issue_uuid db in
    let? (_, db) := insert_environment (Environment.mk (new_uuid db) (ProjectRow.ID p) (lit "Production") (lit "production")
      (lit "production") false None textNull None now now) db in
    inl (p, db).

(** Deleting a project deletes its environments and variables; an application in
    one of the environments forbids it. *)
Definition DeleteProject (id : pgUUID_t) : query unit := fun db =>
  let inside e := uuid_eqb (Environment.ProjectID e) id in
  let used e := existsb (fun a => uuid_eqb (Application.EnvironmentID a) (Environment.ID e)) (applications db) in
  if existsb (fun e => inside e && used e) (environments db)
  then inr (foreign_key_violation "applications_environment_id_fkey")
  else inl (tt, with_project_variables
         (with_environments (with_projects db (List.filter (fun p => negb (uuid_eqb (ProjectRow.ID p) id)) (projects db)))
            (List.filter (fun e => negb (inside e)) (environments db)))
         (List.filter (fun v => negb (of_project id v)) (project_variables db))).

(** ** Applications with the names of what they belong to *)

Module ApplicationListRow.
Record t := mk {
  Row : Application.t; ServerName : str; Environment' : Environment.t; Project : ProjectRow.t; RedeployRequired : option bool;
  DefaultRegistryName : pgText }.
End ApplicationListRow.

Definition ListApplications : query (list ApplicationListRow.t) := fun db =>
  inl (omap (fun a =>
      s ← find_row (fun s => uuid_eqb (Server.ID s) (Application.ServerID a)) (servers db);
      e ← find_row (fun e => uuid_eqb (Environment.ID e) (Application.EnvironmentID a)) (environments db);
      p ← find_row (fun p => uuid_eqb (ProjectRow.ID p) (Environment.ProjectID e)) (projects db);
      Some (ApplicationListRow.mk a (Server.Name s) e p
        (RedeployCandidate.RedeployRequired (candidate_row a p db)) (registry_name (ProjectRow.DefaultRegistryID p) db)))
    (merge_sort (by_key Application.Name) (applications db)), db).

(** ** The services of an application *)

Definition with_services (services : bytes) (now : timestamptz) (a : Application.t) : Application.t :=
  Application.mk (Application.ID a) (Application.EnvironmentID a) (Application.ServerID a) (Application.Name a)
    (Application.RepositoryUrl a) (Application.Branch a) (Application.ComposePath a) (Application.RemoteDirectory a)
    (Application.Domain a) (Application.HealthCheckUrl a) (Application.DopplerProject a) (Application.DopplerConfig a)
    (Application.Status a) (Application.CurrentVersion a) (Application.TargetVersion a) (Application.CreatedAt a) now
    (Application.GithubAutoDeploy a) (Application.ConfigurationRevision a + 1) (Application.DeployedConfigurationRevision a)
    (Application.DeployedProjectConfigurationRevision a) services.

(** No row when the services are what they were. *)
Definition UpdateApplicationComposeServices (services : bytes) (id : pgUUID_t) : query Application.t := fun db =>
  let '(t, rows) := sql_update
    (fun a => uuid_eqb (Application.ID a) id && negb (bytes_eqb (Application.ComposeServices a) services))
    (with_services services (Some (clock db))) (applications db) in
  let? a := one_row rows in
  if (max_int64 <? Application.ConfigurationRevision a)%Z then inr bigint_overflow else store_application a db t.
