(* ===== verification/RemoteSteps.v ===== *)
(** * internal/deployments/remote_steps.go: the remote command plan

    Everything a deployment runs on the target host is computed here, as text:
    the validation of the target, the repository sync, the environment files,
    the compose override, the blue-green steps, and the port and name
    derivations they use. *)

From S2P Require Import Prelude GoStrings GoStringsFacts GoRegexp GoJson GoNet StringUtil Db.

Record remoteStep := { label : str; command : str; input : str; resolvesCommit : bool }.

Record composePortVariable := {
  name : str; bluePort' : str; greenPort' : str; serviceName : str; containerPort : Z }.
#[export] Instance composePortVariable_eq_dec : EqDecision composePortVariable.
Proof. solve_decision. Defined.

Record remoteStepOptions := {
  targetColor : str; imageRef : str; bluePort : str; greenPort : str;
  portVariables : list composePortVariable;
  serviceVariables : gmap str (list RuntimeVariable);
  sourceAuthorizationHeader : str; singletonServices : list str }.

Definition noOptions : remoteStepOptions := Build_remoteStepOptions [] [] [] [] [] ∅ [] [].

Record blueGreenPorts := { blue : str; green : str; variables : list composePortVariable }.

Definition maxRuntimeVariableValueLength : nat := 8192.
Definition maxRuntimeEnvFileLength : N := 65536.
Definition maxComposeProjectSlugLength : nat := 48.

Definition str_lenN (s : str) : N := N.of_nat (length s).

Section RemoteSteps.
Context `{UnicodeTables}.

(** ** Names and hashes *)

(** FNV-1a over 32-bit words. *)
Definition hashProjectName (value : str) : N :=
  fold_left (fun h c => (N.lxor h (b2n c) * 16777619) mod 4294967296)%N value 2166136261%N.

Definition projectSlugPattern : regex := RPlus (fun r => negb (is_lower_ascii r || is_digit r)).
Definition composeServiceNamePattern : regex :=
  RSeqs [RBol; RPlus (fun r => is_alnum r || class (lit "_.-") r); REol].

Definition projectSlug (value : str) : str :=
  let original := value in
  let value := ToLower (TrimSpace value) in
  let value := ReplaceAllString projectSlugPattern value (lit "-") in
  let value := Trim value (lit "-") in
  if value =s [] then lit "deploy-manager-app"
  else if (maxComposeProjectSlugLength <? length value)%nat then
    let suffix := fmt_08x (hashProjectName original) in
    let prefix := Trim (take (maxComposeProjectSlugLength - length suffix - 1) value) (lit "-") in
    if prefix =s [] then suffix else prefix ++ lit "-" ++ suffix
  else value.

Fixpoint managed_name_loop (l : list rune) (acc : str) : str :=
  match l with
  | [] => acc
  | char :: t =>
      let acc := acc ++ (if is_upper_ascii char || is_digit char then encode_rune char else lit "_") in
      if (length acc =? 48)%nat then acc else managed_name_loop t acc
  end.

Definition managedComposePortName (service : str) (port : Z) : str :=
  lit "DEPLOY_MANAGER_" ++ Trim (managed_name_loop (runes (ToUpper service)) []) (lit "_") ++ lit "_"
  ++ fmt_d port ++ lit "_" ++ fmt_08X (hashProjectName service) ++ lit "_PORT".

Definition imageTag (ref : str) : str :=
  let ref := TrimSpace ref in
  if (ref =s []) || Contains ref (lit "@sha256:") then []
  else
    let lastSlash := LastIndexByte ref "/"%char in
    let lastColon := LastIndexByte ref ":"%char in
    if (lastColon <=? lastSlash)%Z || (lastColon =? Z.of_nat (length ref) - 1)%Z then []
    else slice_from ref (lastColon + 1).

Fixpoint tag_key_loop (l : list rune) (lastUnderscore : bool) (acc : str) : str :=
  match l with
  | [] => acc
  | char :: t =>
      if is_upper_ascii char || is_digit char then tag_key_loop t false (acc ++ encode_rune char)
      else if negb lastUnderscore && (0 <? length acc)%nat
      then tag_key_loop t true (acc ++ lit "_")
      else tag_key_loop t lastUnderscore acc
  end.

Definition applicationImageTagKey (name : str) : str :=
  let name := TrimSpace name in
  if name =s [] then []
  else
    let key := Trim (tag_key_loop (runes (ToUpper name)) false []) (lit "_") in
    if key =s [] then [] else key ++ lit "_IMAGE_TAG".

(** ** Validation *)

Definition has_parent_segment (s : str) : bool :=
  existsb (fun segment => segment =s lit "..") (SplitByte slash s).

Definition ValidateComposePath (composePath : str) : option goerror :=
  let composePath := TrimSpace composePath in
  if composePath =s [] then Some (ErrText "compose_path is required")
  else if IsAbs composePath then Some (ErrText "compose_path must be relative to remote_directory")
  else if HasControlCharacter composePath then Some (ErrText "compose_path cannot contain control characters")
  else if has_parent_segment composePath then Some (ErrText "compose_path cannot traverse parent directories")
  else if path_Clean composePath =s lit "." then Some (ErrText "compose_path must point to a compose file")
  else None.

Definition ref_char_ok (char : rune) : bool := is_alnum char || class (lit "/._-") char.

Definition ValidateGitRefName (value : str) : option goerror :=
  let value := TrimSpace value in
  if value =s [] then Some (ErrText "branch is required")
  else if HasPrefix value (lit "-") then Some (ErrText "branch cannot start with hyphen")
  else if HasPrefix value (lit "/") || HasSuffix value (lit "/") || Contains value (lit "//")
  then Some (ErrText "branch cannot contain empty path segments")
  else if HasSuffix value (lit ".") || Contains value (lit "..") || Contains value (lit "@{")
       || HasSuffix value (lit ".lock")
  then Some (ErrText "branch is not a safe git ref")
  else if negb (forallb ref_char_ok (runes value)) then Some (ErrText "branch contains unsupported characters")
  else None.

Definition validRemoteStrategy (strategy : str) : bool :=
  let strategy := TrimSpace strategy in
  (strategy =s []) || (strategy =s lit "rolling") || (strategy =s lit "blue_green").

Definition validate_remote_directory (remoteDir : str) : option goerror :=
  if remoteDir =s [] then Some (ErrText "remote_directory is required")
  else if negb (IsAbs remoteDir) then Some (ErrText "remote_directory must be an absolute path")
  else if path_Clean remoteDir =s lit "/" then Some (ErrText "remote_directory cannot be root")
  else if HasControlCharacter remoteDir then Some (ErrText "remote_directory cannot contain control characters")
  else if Contains remoteDir (lit "//") then Some (ErrText "remote_directory cannot contain empty path segments")
  else if has_parent_segment remoteDir
  then Some (ErrText "remote_directory cannot contain parent directory segments")
  else None.

Definition validateRemoteTarget (target : Target.t) : option goerror :=
  match validate_remote_directory (TrimSpace (Target.RemoteDirectory target)) with
  | Some e => Some e
  | None =>
    if TrimSpace (Target.ComposePath target) =s [] then Some (ErrText "compose_path is required") else
    match ValidateComposePath (Target.ComposePath target) with
    | Some e => Some e
    | None =>
      match (if Valid (Target.RepositoryUrl target)
                && negb (TrimSpace (String' (Target.RepositoryUrl target)) =s [])
             then ValidateGitRefName (Target.Branch target) else None) with
      | Some e => Some e
      | None =>
        if negb (validRemoteStrategy (Target.Strategy target))
        then Some (ErrText "deployment strategy must be rolling or blue_green")
        else if TrimSpace (Target.Strategy target) =s lit "blue_green" then
          let healthCheckURL := TrimSpace (String' (Target.HealthCheckUrl target)) in
          if negb (Valid (Target.HealthCheckUrl target)) || (healthCheckURL =s [])
          then Some (ErrText "blue_green deployments require a health_check_url")
          else if negb (Contains healthCheckURL (lit "{color}"))
          then Some (ErrText "blue_green health_check_url must include {color}")
          else None
        else None
      end
    end
  end.

(** [^[0-9a-fA-F]{7,40}$] *)
Definition gitCommitSHAPattern : regex := RSeqs [RBol; RRep is_hex 7 (Some 40%nat) true; REol].
Definition ValidCommitSHA (value : str) : bool := MatchString gitCommitSHAPattern (TrimSpace value).

(** ** Source and image selection *)

Definition deploymentCommit (target : Target.t) : str :=
  if negb (Valid (Target.CommitSha target)) then [] else String' (Target.CommitSha target).

Definition deploymentImageRef (target : Target.t) : str :=
  if negb (Valid (Target.ImageRef target)) then [] else TrimSpace (String' (Target.ImageRef target)).

Definition has_repository (target : Target.t) : bool :=
  Valid (Target.RepositoryUrl target) && negb (TrimSpace (String' (Target.RepositoryUrl target)) =s []).

Definition isSourceDeploy (target : Target.t) : bool :=
  if negb (deploymentImageRef target =s []) then false else has_repository target.

Definition isSourceDeployWithOptions (target : Target.t) (options : remoteStepOptions) : bool :=
  (TrimSpace (imageRef options) =s []) && isSourceDeploy target.

Definition shouldSyncRepository (target : Target.t) (ref : str) : bool :=
  if negb (has_repository target) then false
  else (TrimSpace ref =s []) || negb (TrimSpace (deploymentCommit target) =s []).

Definition set_imageRef (o : remoteStepOptions) (ref : str) : remoteStepOptions :=
  Build_remoteStepOptions (targetColor o) ref (bluePort o) (greenPort o) (portVariables o)
    (serviceVariables o) (sourceAuthorizationHeader o) (singletonServices o).
Definition set_serviceVariables (o : remoteStepOptions) v : remoteStepOptions :=
  Build_remoteStepOptions (targetColor o) (imageRef o) (bluePort o) (greenPort o) (portVariables o)
    v (sourceAuthorizationHeader o) (singletonServices o).

Definition resolveRemoteStepOptions (target : Target.t) (options : list remoteStepOptions) : remoteStepOptions :=
  match options with
  | resolved :: _ => if imageRef resolved =s [] then set_imageRef resolved (deploymentImageRef target) else resolved
  | [] => set_imageRef noOptions (deploymentImageRef target)
  end.

(** ** Runtime variables *)

Definition runtimeVar (k v : str) : RuntimeVariable := Build_RuntimeVariable k v false.

(** [mergeRuntimeVariables] of runner.go: later lists win, sorted by key. *)
Definition by_key_map (l : list RuntimeVariable) (m : gmap str RuntimeVariable) : gmap str RuntimeVariable :=
  fold_left (fun m v => <[Key v := v]> m) l m.
Definition mergeRuntimeVariables (projectVariables dopplerVariables : list RuntimeVariable)
    : list RuntimeVariable :=
  let byKey := by_key_map dopplerVariables (by_key_map projectVariables ∅) in
  omap (fun key => byKey !! key) (sort_Strings (map fst (map_to_list byKey))).

Definition appendArtifactVariables (vars : list RuntimeVariable) (target : Target.t)
    (options : remoteStepOptions) : list RuntimeVariable :=
  let tag := imageTag (imageRef options) in
  let key := applicationImageTagKey (Target.ApplicationName target) in
  vars ++ [runtimeVar (lit "DEPLOY_IMAGE") (imageRef options)]
  ++ (if negb (tag =s []) then
        runtimeVar (lit "DEPLOY_IMAGE_TAG") tag :: (if negb (key =s []) then [runtimeVar key tag] else [])
      else [])
  ++ (if negb (targetColor options =s []) then [runtimeVar (lit "DEPLOY_COLOR") (targetColor options)] else []).

Definition isValidRuntimeVariable (v : RuntimeVariable) : bool := ValidRuntimeVariableKey (Key v).
Definition validRuntimeVariableCount (l : list RuntimeVariable) : nat :=
  length (List.filter isValidRuntimeVariable l).

Definition quoteEnvValue (value : str) : str :=
  let bs := byte 92 in
  let value := ReplaceAll value bs (bs ++ bs) in
  let value := ReplaceAll value newline (bs ++ lit "n") in
  let value := ReplaceAll value (byte 13) [] in
  let value := ReplaceAll value dquote (bs ++ dquote) in
  let value := ReplaceAll value (lit "$") (bs ++ lit "$") in
  let value := ReplaceAll value (lit "`") (bs ++ lit "`") in
  dquote ++ value ++ dquote.

Definition env_line (v : RuntimeVariable) : str := Key v ++ lit "=" ++ quoteEnvValue (Value v).

Definition renderEnvFile (l : list RuntimeVariable) : str :=
  let lines := sort_Strings (map env_line (List.filter isValidRuntimeVariable l)) in
  if bool_decide (lines = []) then [] else Join lines newline ++ newline.

Definition validateRuntimeVariable (v : RuntimeVariable) : option goerror :=
  if negb (ValidRuntimeVariableKey (Key v)) then None
  else if ContainsByte (Value v) (ascii_of_N 0)
  then Some (ErrText (lit "runtime variable " ++ Key v ++ lit " cannot contain null bytes"))
  else if (N.of_nat maxRuntimeVariableValueLength <? str_lenN (Value v))%N
  then Some (ErrText (lit "runtime variable " ++ Key v ++ lit " cannot exceed 8192 bytes"))
  else None.

Definition renderRuntimeEnvFile (l : list RuntimeVariable) : result str :=
  guard? (first_error validateRuntimeVariable l) in
  let envFile := renderEnvFile l in
  if (maxRuntimeEnvFileLength <? str_lenN envFile)%N
  then inr (ErrText "runtime environment cannot exceed 65536 bytes") else inl envFile.

(** ** Compose files *)

Definition hasManagedComposePorts (ports : list composePortVariable) : bool :=
  existsb (fun p => negb (serviceName p =s [])) ports.

Definition runtimeComposePath (composePath : str) : str :=
  path_Join [path_Dir composePath; lit ".deploy-manager.runtime.yml"].

Definition composeFileArguments (composePath : str) (services : gmap str (list RuntimeVariable))
    (ports : list composePortVariable) : str :=
  let arguments := lit "-f " ++ ShellQuote composePath in
  if (0 <? size services)%nat || hasManagedComposePorts ports
  then arguments ++ lit " -f " ++ ShellQuote (runtimeComposePath composePath) else arguments.

Definition containerPort_le (a b : composePortVariable) : Prop := (containerPort a <= containerPort b)%Z.
#[export] Instance containerPort_le_dec : RelDecision containerPort_le.
Proof. intros a b. unfold containerPort_le. apply _. Defined.

(** The ports a service manages, in the order of the argument. *)
Definition managed_ports (ports : list composePortVariable) (service : str) : list composePortVariable :=
  List.filter (fun p => negb (serviceName p =s []) && (serviceName p =s service)) ports.

Definition service_names (services : gmap str (list RuntimeVariable)) (ports : list composePortVariable)
    : list str :=
  let managed := remove_dups (map serviceName (List.filter (fun p => negb (serviceName p =s [])) ports)) in
  map fst (map_to_list services) ++ List.filter (fun n => negb (is_some (services !! n))) managed.

Definition binding_line (bindHost : str) (p : composePortVariable) : str :=
  lit "      - " ++ dquote ++ bindHost ++ lit ":${" ++ name p ++ lit ":?" ++ name p ++ lit " is required}:"
  ++ fmt_d (containerPort p) ++ dquote ++ newline.

(** What one service adds: its step (if it has variables) and its part of the
    override file. *)
Definition service_entry (target : Target.t) (services : gmap str (list RuntimeVariable))
    (ports : list composePortVariable) (n : str) : result (list remoteStep * str) :=
  let remoteDir := ShellQuote (Target.RemoteDirectory target) in
  let runtimeDirectory := path_Join [path_Dir (Target.ComposePath target); lit ".deploy-manager"] in
  let bindHost := if TrimSpace (Target.Hostname target) =s lit "playground"
                  then lit "0.0.0.0" else lit "127.0.0.1" in
  let? (steps, env) := match services !! n with
    | Some vars =>
        match renderRuntimeEnvFile vars with
        | inr err => inr (ErrWrap (lit "render runtime variables for compose service " ++ n ++ lit ": ") err [])
        | inl envFile =>
            let envPath := path_Join [runtimeDirectory; n ++ lit ".env"] in
            inl ([{| label := lit "Writing runtime environment for " ++ n;
                     command := lit "cd " ++ remoteDir ++ lit " && umask 077 && mkdir -p "
                       ++ ShellQuote runtimeDirectory ++ lit " && printf %s " ++ ShellQuote envFile
                       ++ lit " > " ++ ShellQuote envPath;
                     input := []; resolvesCommit := false |}],
                 lit "    env_file:" ++ newline ++ lit "      - .deploy-manager/" ++ n ++ lit ".env" ++ newline)
        end
    | None => inl ([], [])
    end in
  let bindings := merge_sort containerPort_le (managed_ports ports n) in
  inl (steps, lit "  " ++ n ++ lit ":" ++ newline ++ env
    ++ (if bool_decide (bindings = []) then []
        else lit "    ports: !override" ++ newline ++ concat (map (binding_line bindHost) bindings))).

Fixpoint service_entries (target : Target.t) services ports (names : list str) : result (list remoteStep * str) :=
  match names with
  | [] => inl ([], [])
  | n :: t =>
      let? (s1, o1) := service_entry target services ports n in
      let? (s2, o2) := service_entries target services ports t in
      inl (s1 ++ s2, o1 ++ o2)
  end.

(** Go iterates the two maps in an unspecified order: which invalid name is
    reported first is not determined, that one is reported is. *)
Definition service_name_error (services : gmap str (list RuntimeVariable)) (ports : list composePortVariable)
    : option goerror :=
  let bad := fun n => negb (MatchString composeServiceNamePattern n) in
  match List.find bad (map fst (map_to_list services)) with
  | Some n => Some (ErrText (lit "compose service runtime target " ++ fmt_q n ++ lit " is invalid"))
  | None =>
      match List.find bad (map serviceName (List.filter (fun p => negb (serviceName p =s [])) ports)) with
      | Some n => Some (ErrText (lit "compose service port target " ++ fmt_q n ++ lit " is invalid"))
      | None => None
      end
  end.

Definition serviceRuntimeSteps (target : Target.t) (services : gmap str (list RuntimeVariable))
    (ports : list composePortVariable) : result (list remoteStep) :=
  if (size services =? 0)%nat && negb (hasManagedComposePorts ports) then inl []
  else
    guard? (service_name_error services ports) in
    let? (steps, override) := service_entries target services ports
                                (sort_Strings (service_names services ports)) in
    inl (steps ++ [{|
      label := lit "Writing compose runtime override";
      command := lit "cd " ++ ShellQuote (Target.RemoteDirectory target) ++ lit " && umask 077 && printf %s "
        ++ ShellQuote (lit "services:" ++ newline ++ override) ++ lit " > "
        ++ ShellQuote (runtimeComposePath (Target.ComposePath target));
      input := []; resolvesCommit := false |}]).

(** ** Ports *)

Definition upstreamPort (value : pgText) : str :=
  if negb (Valid value) then []
  else match url_Parse (TrimSpace (String' value)) with
       | None => []
       | Some parsed => Port parsed
       end.

Definition colorPort (color : str) (ports : blueGreenPorts) : str :=
  if color =s lit "green" then (if negb (green ports =s []) then green ports else lit "3102")
  else if negb (blue ports =s []) then blue ports else lit "3101".

(** One route of [routePorts]: [None] leaves everything unchanged. *)
Definition route_variable (route : RouteTarget.t) (ports : blueGreenPorts)
    (seen : gmap str composePortVariable) : result (blueGreenPorts * gmap str composePortVariable) :=
  let b := upstreamPort (RouteTarget.BlueUpstreamUrl route) in
  let g := upstreamPort (RouteTarget.GreenUpstreamUrl route) in
  if (b =s []) && (g =s []) then inl (ports, seen)
  else
    let b := if b =s [] then lit "3101" else b in
    let g := if g =s [] then lit "3102" else g in
    let n := TrimSpace (String' (RouteTarget.PortVariable route)) in
    if Valid (RouteTarget.PortVariable route) && negb (ValidRuntimeVariableKey n)
    then inr (ErrText (lit "proxy route port variable " ++ fmt_q n ++ lit " is invalid"))
    else
      let ports := if (blue ports =s []) || (n =s lit "DEPLOY_PORT")
                   then Build_blueGreenPorts b g (variables ports) else ports in
      let v := match n, Valid (RouteTarget.ComposeService route), RouteTarget.ContainerPort route with
        | [], true, Some p =>
            let svc := String' (RouteTarget.ComposeService route) in
            Build_composePortVariable (managedComposePortName svc p) b g svc p
        | _, _, _ => Build_composePortVariable n b g [] 0
        end in
      let n := name v in
      if n =s [] then inl (ports, seen)
      else match seen !! n with
           | Some existing =>
               if negb (bluePort' existing =s b) || negb (greenPort' existing =s g)
               then inr (ErrText (lit "proxy route port variable " ++ n ++ lit " has conflicting port pairs"))
               else inl (ports, seen)
           | None => inl (ports, <[n := v]> seen)
           end.

Fixpoint routePorts_loop (routes : list RouteTarget.t) (ports : blueGreenPorts)
    (seen : gmap str composePortVariable) : result (blueGreenPorts * gmap str composePortVariable) :=
  match routes with
  | [] => inl (ports, seen)
  | route :: t =>
      let? (ports', seen') := route_variable route ports seen in routePorts_loop t ports' seen'
  end.

Definition routePorts (routes : list RouteTarget.t) : result blueGreenPorts :=
  let? (ports, seen) := routePorts_loop routes (Build_blueGreenPorts [] [] []) ∅ in
  let '(b, g) := if blue ports =s [] then (lit "3101", lit "3102") else (blue ports, green ports) in
  inl (Build_blueGreenPorts b g (merge_sort (by_key name) (map snd (map_to_list seen)))).

(** ** Source repository *)

Record sourceGitCommandSet := { prefix : str; fetch : str; clone : str; suffix : str; git_input : str }.

Definition sourceGitCommands (remoteDir authorizationHeader : str) : result sourceGitCommandSet :=
  let fetch := lit "git -c safe.directory=" ++ remoteDir in
  let authorizationHeader := TrimSpace authorizationHeader in
  if authorizationHeader =s [] then inl (Build_sourceGitCommandSet [] fetch (lit "git") [] [])
  else if (4096 <? length authorizationHeader)%nat || HasControlCharacter authorizationHeader
  then inr (ErrText "source authorization header is invalid")
  else inl (Build_sourceGitCommandSet
    (lit "IFS= read -r GIT_CONFIG_VALUE_0; export GIT_CONFIG_COUNT=1 GIT_CONFIG_KEY_0=http.extraHeader GIT_CONFIG_VALUE_0 GIT_CONFIG_NOSYSTEM=1 GIT_TERMINAL_PROMPT=0; ")
    fetch (lit "git") [] (authorizationHeader ++ newline)).

Definition gitCommitCheckout (remoteDir commit : str) : result str :=
  let commit := TrimSpace commit in
  if commit =s [] then inl []
  else if negb (ValidCommitSHA commit)
  then inr (ErrText "commit_sha must be a 7 to 40 character hexadecimal SHA")
  else inl (Sprintf (lit " && cd %[1]s && git -c safe.directory=%[1]s checkout --detach %s")
              [remoteDir; ShellQuote commit]).

Definition syncFormat : str :=
  lit "if [ -d %[1]s/.git ]; then cd %[1]s && %[5]s fetch --prune origin %[2]s && git -c safe.directory=%[1]s reset --hard && git -c safe.directory=%[1]s checkout %[2]s && git -c safe.directory=%[1]s reset --hard origin/%[2]s; else find %[1]s -mindepth 1 -maxdepth 1 -exec rm -rf {} + && %[6]s clone --branch %[2]s %[3]s %[1]s; fi%[4]s".

Definition plainStep (l c : str) : remoteStep := Build_remoteStep l c [] false.

(** The part of [remoteSteps] that prepares the checkout. *)
Definition sourceSteps (target : Target.t) (options : remoteStepOptions) : result (list remoteStep) :=
  if negb (shouldSyncRepository target (imageRef options)) then inl []
  else
    let remoteDir := ShellQuote (Target.RemoteDirectory target) in
    let repository := ShellQuote (String' (Target.RepositoryUrl target)) in
    let branch := ShellQuote (Target.Branch target) in
    let? gitCommands := sourceGitCommands remoteDir (sourceAuthorizationHeader options) in
    let? commitCheckout := gitCommitCheckout remoteDir (deploymentCommit target) in
    let syncCommand := Sprintf syncFormat
      [remoteDir; branch; repository; commitCheckout; fetch gitCommands; clone gitCommands] in
    inl [{| label := lit "Syncing repository";
            command := prefix gitCommands ++ syncCommand ++ suffix gitCommands;
            input := git_input gitCommands; resolvesCommit := true |}].

(** ** Blue-green commands *)

Definition deploymentHealthCheckURL (target : Target.t) (healthCheckURL : str) : str :=
  if TrimSpace (Target.Hostname target) =s lit "playground"
  then ReplaceFirst healthCheckURL (lit "://127.0.0.1") (lit "://host.docker.internal")
  else healthCheckURL.

Definition shellQuoteColorURL (healthCheckURL color : str) (ports : blueGreenPorts) : str :=
  let healthCheckURL := ReplaceAll healthCheckURL (lit "{color}") color in
  let healthCheckURL := ReplaceAll healthCheckURL (lit "{port}") (colorPort color ports) in
  ShellQuote healthCheckURL.

Definition composeServiceArguments (services : list str) : str := Join (map ShellQuote services) (lit " ").

Definition if_blue : str :=
  lit "if [ " ++ dquote ++ lit "$color" ++ dquote ++ lit " = " ++ dquote ++ lit "blue" ++ dquote
  ++ lit " ]; then ".

Definition colorPortPairCommand (bluePort greenPort : str) : str :=
  let bluePort := TrimSpace bluePort in
  let bluePort := if bluePort =s [] then lit "3101" else bluePort in
  let greenPort := TrimSpace greenPort in
  let greenPort := if greenPort =s [] then lit "3102" else greenPort in
  Sprintf (if_blue ++ lit "printf %%s " ++ dquote ++ lit "${BLUE_DEPLOY_PORT:-%s}" ++ dquote
    ++ lit "; else printf %%s " ++ dquote ++ lit "${GREEN_DEPLOY_PORT:-%s}" ++ dquote ++ lit "; fi")
    [bluePort; greenPort].

Definition fixedColorPortCommand (bluePort greenPort : str) : str :=
  Sprintf (if_blue ++ lit "printf %%s %s; else printf %%s %s; fi") [ShellQuote bluePort; ShellQuote greenPort].

Definition colorPortCommand (options : remoteStepOptions) : str :=
  colorPortPairCommand (bluePort options) (greenPort options).

Definition defaultTargetColor (color : str) : str :=
  let color := TrimSpace color in if color =s lit "green" then lit "green" else lit "blue".

(** The variables both assignment builders use. *)
Definition assignable (v : composePortVariable) : bool :=
  negb ((name v =s lit "DEPLOY_PORT") || negb (ValidRuntimeVariableKey (name v))).

Definition composePortVariableAssignments (variables : list composePortVariable) : str :=
  Join (map (fun v => Sprintf (lit " %s=$(%s)") [name v; fixedColorPortCommand (bluePort' v) (greenPort' v)])
          (List.filter assignable variables)) [].

Definition composePortVariableValues (variables : list composePortVariable) (color : str) : str :=
  Join (map (fun v => Sprintf (lit " %s=%s")
                 [name v; ShellQuote (if color =s lit "green" then greenPort' v else bluePort' v)])
          (List.filter assignable variables)) [].

Definition composeConfigStep (remoteDir composeFiles : str) : remoteStep :=
  plainStep (lit "Validating compose config")
    (Sprintf (lit "cd %s && docker compose %s config --quiet") [remoteDir; composeFiles]).

(** The closure [composeCommand] of [blueGreenSteps]. *)
Definition nextColorCommand (target : Target.t) (options : remoteStepOptions) (action : str) : str :=
  Sprintf (lit "cd %s && color=$(cat .deploy-manager-next-color) && port=$(%s) && COMPOSE_PROJECT_NAME=%s-$color DEPLOY_COLOR=$color DEPLOY_PORT=$port%s docker compose %s %s")
    [ShellQuote (Target.RemoteDirectory target); colorPortCommand options;
     ShellQuote (projectSlug (Target.ApplicationName target));
     composePortVariableAssignments (portVariables options);
     composeFileArguments (Target.ComposePath target) (serviceVariables options) (portVariables options);
     action].

Definition healthCheckCommand (target : Target.t) (options : remoteStepOptions) : str :=
  Sprintf (lit "cd %s && color=$(cat .deploy-manager-next-color) && port=$(%s) && url=$(printf %%s %s | sed "
    ++ dquote ++ lit "s/{color}/$color/g" ++ dquote ++ lit " | sed " ++ dquote ++ lit "s/{port}/$port/g" ++ dquote
    ++ lit ") && curl -fsS --retry 10 --retry-delay 2 --retry-all-errors " ++ dquote ++ lit "$url" ++ dquote
    ++ lit " >/dev/null")
    [ShellQuote (Target.RemoteDirectory target); colorPortCommand options;
     ShellQuote (deploymentHealthCheckURL target (String' (Target.HealthCheckUrl target)))].

Definition startAction (options : remoteStepOptions) : str :=
  fold_left (fun a service => a ++ lit " --scale " ++ ShellQuote (service ++ lit "=0"))
    (singletonServices options) (lit "up -d --remove-orphans").

Definition blueGreenSteps (target : Target.t) (options : remoteStepOptions) : list remoteStep :=
  let remoteDir := ShellQuote (Target.RemoteDirectory target) in
  let color := ShellQuote (defaultTargetColor (targetColor options)) in
  let composeCommand := nextColorCommand target options in
  [ plainStep (lit "Selecting blue-green target")
      (Sprintf (lit "cd %s && printf %%s %s > .deploy-manager-next-color") [remoteDir; color]);
    plainStep (lit "Validating compose config") (composeCommand (lit "config --quiet")) ]
  ++ [ if isSourceDeployWithOptions target options
       then plainStep (lit "Building next color images") (composeCommand (lit "build --pull"))
       else plainStep (lit "Pulling next color images") (composeCommand (lit "pull")) ]
  ++ [ plainStep (lit "Starting next color stack") (composeCommand (startAction options)) ]
  ++ (if (0 <? length (singletonServices options))%nat
      then [ plainStep (lit "Preparing singleton services")
               (composeCommand (lit "up --no-start --no-deps --no-build --force-recreate "
                                ++ composeServiceArguments (singletonServices options))) ]
      else [])
  ++ [ plainStep (lit "Checking next color health") (healthCheckCommand target options) ].

Definition fixedColorComposeServiceCommand (target : Target.t) (options : remoteStepOptions)
    (color action : str) (services : list str) : str :=
  let color := defaultTargetColor color in
  Sprintf (lit "cd %s && color=%s && port=$(%s) && COMPOSE_PROJECT_NAME=%s DEPLOY_COLOR=$color DEPLOY_PORT=$port%s docker compose %s %s %s")
    [ShellQuote (Target.RemoteDirectory target); ShellQuote color; colorPortCommand options;
     ShellQuote (projectSlug (Target.ApplicationName target) ++ lit "-" ++ color);
     composePortVariableAssignments (portVariables options);
     composeFileArguments (Target.ComposePath target) (serviceVariables options) (portVariables options);
     action; composeServiceArguments services].

(** ** The whole plan *)

Definition rollingSteps (target : Target.t) (options : remoteStepOptions) : list remoteStep :=
  let remoteDir := ShellQuote (Target.RemoteDirectory target) in
  let project := ShellQuote (projectSlug (Target.ApplicationName target)) in
  let composeFiles :=
    composeFileArguments (Target.ComposePath target) (serviceVariables options) (portVariables options) in
  let compose := fun action =>
    Sprintf (lit "cd %s && COMPOSE_PROJECT_NAME=%s docker compose %s " ++ action)
      [remoteDir; project; composeFiles] in
  [ composeConfigStep remoteDir composeFiles;
    (if isSourceDeployWithOptions target options
     then plainStep (lit "Building compose images") (compose (lit "build --pull"))
     else plainStep (lit "Pulling compose images") (compose (lit "pull")));
    plainStep (lit "Starting compose stack") (compose (lit "up -d --remove-orphans")) ].

Definition envStep (target : Target.t) (envFile : str) : remoteStep :=
  plainStep (lit "Writing runtime environment")
    (Sprintf (lit "cd %s && umask 077 && printf %%s %s > %s")
       [ShellQuote (Target.RemoteDirectory target); ShellQuote envFile;
        ShellQuote (path_Join [path_Dir (Target.ComposePath target); lit ".env"])]).

(** The variables and options after the generated artifact variables are
    merged in. *)
Definition withArtifactVariables (target : Target.t) (variables : list RuntimeVariable)
    (options : remoteStepOptions) : list RuntimeVariable * remoteStepOptions :=
  if negb (imageRef options =s []) then
    let generated := appendArtifactVariables [] target options in
    (mergeRuntimeVariables variables generated,
     set_serviceVariables options
       ((fun scoped => mergeRuntimeVariables scoped generated) <$> serviceVariables options))
  else (variables, options).

Definition remoteSteps (target : Target.t) (variables : list RuntimeVariable)
    (options : list remoteStepOptions) : result (list remoteStep) :=
  guard? (validateRemoteTarget target) in
  let stepOptions := resolveRemoteStepOptions target options in
  let '(variables, stepOptions) := withArtifactVariables target variables stepOptions in
  let remoteDir := ShellQuote (Target.RemoteDirectory target) in
  let steps := [plainStep (lit "Preparing remote directory") (Sprintf (lit "mkdir -p %s") [remoteDir])] in
  let? source := sourceSteps target stepOptions in
  let? envFile := renderRuntimeEnvFile variables in
  let? serviceSteps := serviceRuntimeSteps target (serviceVariables stepOptions) (portVariables stepOptions) in
  inl (steps ++ source ++ [envStep target envFile] ++ serviceSteps
       ++ (if Target.Strategy target =s lit "blue_green"
           then blueGreenSteps target stepOptions else rollingSteps target stepOptions)).

(** [BuildComposeDownCommand]: only the fields the function copies from the
    application are set in the target it validates. *)
Definition zeroUUID : pgUUID_t := PgUUID (repeat (ascii_of_N 0) 16) false.
Definition downTarget (a : Application.t) : Target.t :=
  {| Target.DeploymentID := zeroUUID; Target.Strategy := []; Target.CommitSha := textNull;
     Target.ImageRef := textNull; Target.ImageDigest := textNull;
     Target.ApplicationID := Application.ID a; Target.ApplicationName := Application.Name a;
     Target.RepositoryUrl := Application.RepositoryUrl a; Target.Branch := Application.Branch a;
     Target.ComposePath := Application.ComposePath a; Target.RemoteDirectory := Application.RemoteDirectory a;
     Target.Domain := textNull; Target.HealthCheckUrl := textNull; Target.DopplerProject := textNull;
     Target.DopplerConfig := textNull; Target.ComposeServices := None;
     Target.ConfigurationRevision := 0; Target.ProjectConfigurationRevision := 0;
     Target.RepositoryConnectorID := zeroUUID; Target.ServerID := zeroUUID; Target.ServerName := [];
     Target.Hostname := []; Target.SshUser := []; Target.SshPort := 0; Target.SshKeyPath := textNull;
     Target.ConnectionMode := []; Target.ProxyType := [] |}.

Definition downCommand (composePath : str) (ports : blueGreenPorts) (n color port : str) : str :=
  Sprintf (lit "COMPOSE_PROJECT_NAME=%s DEPLOY_COLOR=%s DEPLOY_PORT=%s%s docker compose -f %s down --remove-orphans")
    [ShellQuote n; ShellQuote color; ShellQuote port; composePortVariableValues (variables ports) color; composePath].

Definition BuildComposeDownCommand (application : Application.t) (routes : list RouteTarget.t) : result str :=
  guard? (validateRemoteTarget (downTarget application)) in
  let remoteDir := ShellQuote (Application.RemoteDirectory application) in
  let composePath := ShellQuote (Application.ComposePath application) in
  let project := projectSlug (Application.Name application) in
  let? ports := routePorts routes in
  let down := downCommand composePath ports in
  inl (Sprintf (lit "test -d %s && cd %s && test -f %s && %s")
    [remoteDir; remoteDir; composePath;
     Join [ down project (lit "blue") (blue ports);
            down (project ++ lit "-blue") (lit "blue") (blue ports);
            down (project ++ lit "-green") (lit "green") (green ports) ] (lit " && ")]).

End RemoteSteps.
