(* ===== verification/EnvFile.v ===== *)
(** * The environment files a deployment writes can be read back

    A reader of Docker Compose environment files (KEY=dquoted-value lines)
    is the specification of [renderEnvFile] and [quoteEnvValue] of
    remote_steps.go: whatever the values hold, every variable occupies one line
    and reads back as it was, up to the carriage returns the writer drops. *)

From S2P Require Import Prelude GoStrings GoStringsFacts GoRegexp StringUtil RemoteSteps.

(** ** The reader *)

Definition unescape_env (c : ascii) : ascii := if bool_decide (c = "n"%char) then ascii_of_N 10 else c.

(** A value after its opening quote: an unescaped [$] or [`] would be expanded,
    so it is not a literal value. *)
Fixpoint read_dquoted (s : str) : option (str * str) :=
  match s with
  | [] => None
  | c :: t =>
      if (b2n c =? 34)%N then Some ([], t)
      else if (b2n c =? 92)%N then
        match t with
        | [] => None
        | d :: u => '(v, r) ← read_dquoted u; Some (unescape_env d :: v, r)
        end
      else if (b2n c =? 36)%N || (b2n c =? 96)%N || (b2n c =? 10)%N then None
      else '(v, r) ← read_dquoted t; Some (c :: v, r)
  end.

Definition read_env_line (line : str) : option (str * str) :=
  match CutByte "="%char line with
  | (key, Some (q :: body)) =>
      if (b2n q =? 34)%N then
        match read_dquoted body with
        | Some (value, []) => Some (key, value)
        | _ => None
        end
      else None
  | _ => None
  end.

(** Every line is terminated by a newline. *)
Definition read_env_file (file : str) : option (list (str * str)) :=
  mapM read_env_line (removelast (SplitByte (ascii_of_N 10) file)).

Definition drop_cr (v : str) : str := List.filter (fun c => negb (b2n c =? 13)%N) v.

(** ** Lemmas *)

Definition escape_env (c : ascii) : str :=
  let bs := byte 92 in
  if (b2n c =? 92)%N || (b2n c =? 34)%N || (b2n c =? 36)%N || (b2n c =? 96)%N then bs ++ [c]
  else if (b2n c =? 10)%N then bs ++ lit "n" else if (b2n c =? 13)%N then [] else [c].

Lemma quoteEnvValue_flat_map v : quoteEnvValue v = dquote ++ flat_map escape_env v ++ dquote.
Proof.
  unfold quoteEnvValue, newline, dquote, byte. cbn [lit String.list_ascii_of_string app].
  do 2 f_equal. induction v as [|c v IH]; [done|].
  change (c :: v) with ([c] ++ v). rewrite !replace_byte_app, flat_map_app, <- IH. f_equal.
  clear IH. by destruct c as [[] [] [] [] [] [] [] []].
Qed.

Lemma read_escape c t :
  (b2n c =? 13)%N = false ->
  read_dquoted (escape_env c ++ t) = ('(v, r) ← read_dquoted t; Some (c :: v, r)).
Proof. by destruct c as [[] [] [] [] [] [] [] []]. Qed.

Lemma read_quoted_body v t :
  read_dquoted (flat_map escape_env v ++ dquote ++ t) = Some (drop_cr v, t).
Proof.
  induction v as [|c v IH]; [done|]. cbn [flat_map drop_cr List.filter]. rewrite <- app_assoc.
  destruct (b2n c =? 13)%N eqn:E.
  - apply N.eqb_eq in E. assert (c = ascii_of_N 13) as -> by (by rewrite <- E, ascii_of_b2n).
    change (escape_env (ascii_of_N 13)) with (@nil ascii). cbn [app]. by rewrite IH.
  - rewrite read_escape by done. cbn [negb]. by rewrite IH.
Qed.

Lemma escape_env_no_newline c : ascii_of_N 10 ∉ escape_env c.
Proof.
  rewrite list_elem_of_In. destruct c as [[] [] [] [] [] [] [] []]; vm_compute; intuition discriminate.
Qed.

Lemma quoteEnvValue_one_line v : ascii_of_N 10 ∉ quoteEnvValue v.
Proof.
  rewrite quoteEnvValue_flat_map. unfold dquote, byte. rewrite !elem_of_app, !list_elem_of_singleton.
  intros [H|[H|H]]; [done| |done].
  apply list_elem_of_In, in_flat_map in H as (c & _ & H).
  by apply list_elem_of_In, escape_env_no_newline in H.
Qed.

Definition key_rune (r : rune) : bool := is_alnum r || (r =? 95)%N.

Lemma key_rune_ascii r : key_rune r = true -> (r < 128)%N.
Proof.
  unfold key_rune, is_alnum, is_alpha, is_upper_ascii, is_lower_ascii, is_digit, in_range.
  rewrite !orb_true_iff, !andb_true_iff, !N.leb_le, N.eqb_eq. lia.
Qed.

Lemma valid_key_bytes key c : ValidRuntimeVariableKey key = true -> c ∈ key -> key_rune (b2n c) = true.
Proof.
  rewrite ValidRuntimeVariableKey_runes. intros H Hc.
  assert (Hall : forallb key_rune (runes key) = true).
  { destruct (runes key) as [|x t]; [done|]. apply andb_true_iff in H as [Hx Ht]. simpl.
    rewrite (Ht : forallb key_rune t = true), andb_true_r. unfold key_rune, is_alnum.
    apply orb_true_iff in Hx as [->| ->]; [done|by rewrite !orb_true_r]. }
  rewrite (runes_bytes _ _ key_rune_ascii) in Hall. by apply (forallb_elem _ _ _ Hall).
Qed.

Lemma valid_key_no key c : ValidRuntimeVariableKey key = true -> key_rune (b2n c) = false -> c ∉ key.
Proof. intros H Hc Hin. by rewrite (valid_key_bytes _ _ H Hin) in Hc. Qed.

Lemma CutByte_app c w s : c ∉ w -> CutByte c (w ++ c :: s) = (w, Some s).
Proof.
  induction w as [|d w IH]; simpl.
  - intros _. by rewrite bool_decide_true.
  - rewrite not_elem_of_cons. intros [Hd Hw]. rewrite bool_decide_false by congruence. by rewrite IH.
Qed.

Lemma read_env_line_env_line v :
  isValidRuntimeVariable v = true -> read_env_line (env_line v) = Some (Key v, drop_cr (Value v)).
Proof.
  intros H. unfold read_env_line, env_line. change (lit "=" ++ ?x) with ("="%char :: x).
  rewrite CutByte_app by (by apply (valid_key_no _ _ H)).
  rewrite quoteEnvValue_flat_map. unfold dquote at 1, byte. cbn [app].
  change (b2n (ascii_of_N 34) =? 34)%N with true. cbn iota.
  rewrite <- (app_nil_r dquote), read_quoted_body. done.
Qed.

Lemma env_line_one_line v : isValidRuntimeVariable v = true -> ascii_of_N 10 ∉ env_line v.
Proof.
  intros H. unfold env_line. rewrite !elem_of_app. intros [Hk|[Hk|Hk]].
  - by apply (valid_key_no _ _ H) in Hk.
  - by apply list_elem_of_singleton in Hk.
  - by apply quoteEnvValue_one_line in Hk.
Qed.

Definition sorted_env_lines (l : list RuntimeVariable) : list str :=
  sort_Strings (map env_line (List.filter isValidRuntimeVariable l)).

Lemma sorted_env_lines_valid l line :
  line ∈ sorted_env_lines l -> exists v, v ∈ l /\ isValidRuntimeVariable v = true /\ line = env_line v.
Proof.
  unfold sorted_env_lines. rewrite sort_Strings_perm, list_elem_of_In, in_map_iff.
  intros (v & <- & Hv). apply filter_In in Hv as [Hv ?]. exists v. by rewrite list_elem_of_In.
Qed.

Lemma split_renderEnvFile l :
  removelast (SplitByte (ascii_of_N 10) (renderEnvFile l)) = sorted_env_lines l.
Proof.
  unfold renderEnvFile. fold (sorted_env_lines l). case_bool_decide as E; [by rewrite E|].
  assert (Hlines : Forall (fun w => ascii_of_N 10 ∉ w) (sorted_env_lines l ++ [[]])).
  { apply Forall_app. split; [|by repeat constructor; apply not_elem_of_nil].
    apply Forall_forall. intros w Hw. apply sorted_env_lines_valid in Hw as (v & _ & Hv & ->).
    by apply env_line_one_line. }
  assert (Hjoin : Join (sorted_env_lines l) newline ++ newline = Join (sorted_env_lines l ++ [[]]) newline).
  { clear Hlines. induction (sorted_env_lines l) as [|x [|y t] IH]; [done|done|].
    cbn [Join app] in *. rewrite <- !app_assoc. do 2 f_equal. apply IH. done. }
  rewrite Hjoin. unfold newline, byte. rewrite SplitByte_Join; [by rewrite removelast_last| |].
  - by destruct (sorted_env_lines l).
  - by apply Forall_forall.
Qed.

Lemma mapM_read_lines l :
  (forall v, v ∈ l -> isValidRuntimeVariable v = true) ->
  mapM read_env_line (map env_line l) = Some (map (fun v => (Key v, drop_cr (Value v))) l).
Proof.
  induction l as [|v l IH]; intros H; [done|]. cbn [map mapM].
  rewrite read_env_line_env_line by (apply H; left). simpl.
  rewrite IH by (intros; apply H; by right). done.
Qed.

Lemma sorted_env_lines_perm l :
  exists vs, vs ≡ₚ List.filter isValidRuntimeVariable l /\ sorted_env_lines l = map env_line vs.
Proof.
  pose proof (sort_Strings_perm (map env_line (List.filter isValidRuntimeVariable l))) as H.
  apply Permutation_map_inv in H as (vs & E & Hp). exists vs. by split.
Qed.

(** ** Properties *)

(** C34: the environment file of a deployment is faithful: reading the rendered
    file gives exactly the variables with a valid key, each with its value (its
    carriage returns aside), whatever bytes the values hold.  In particular no
    value can add a line, end its own quoting or trigger an expansion. *)
Theorem renderEnvFile_faithful (l : list RuntimeVariable) :
  exists vs, vs ≡ₚ List.filter isValidRuntimeVariable l
    /\ read_env_file (renderEnvFile l) = Some (map (fun v => (Key v, drop_cr (Value v))) vs).
Proof.
  destruct (sorted_env_lines_perm l) as (vs & Hp & E). exists vs. split; [done|].
  unfold read_env_file. rewrite split_renderEnvFile, E. apply mapM_read_lines.
  intros v Hv. rewrite Hp in Hv. apply list_elem_of_In, filter_In in Hv as [_ Hv]. done.
Qed.
