(* ===== verification/ProxyCommands.v ===== *)
(** * internal/proxy: commands that install and remove proxy routes

    commands.go (validation of domains and upstreams, the Caddy and Traefik
    command builders) and manager.go (applying one route).  In the three
    templates the character [~] stands for a double quote, which a literal
    cannot hold; [quotes] puts it back.  Name resolution is not part of the
    repository and is the parameter [LookupIP]. *)

From S2P Require Import Prelude GoStrings GoStringsFacts GoRegexp GoNet StringUtil.

Module ProxyTarget.
Record t := mk { Domain : str; Upstream : str; TLSEnabled : bool; ProxyType : str }.
End ProxyTarget.

(** [net.LookupIP]: the addresses of a host as byte slices, or an error. *)
Class Resolver := { LookupIP : str -> option (list (list N)) }.

Definition quotes (s : str) : str := ReplaceAll s (lit "~") dquote.

Definition caddyScript : str := quotes "set -e
if command -v caddy >/dev/null 2>&1 && command -v systemctl >/dev/null 2>&1 && systemctl list-unit-files caddy.service >/dev/null 2>&1; then
  sudo mkdir -p /etc/caddy/conf.d
  printf %%s %s | sudo tee %s >/dev/null
  sudo caddy validate --config /etc/caddy/Caddyfile
  sudo systemctl reload caddy
elif command -v docker >/dev/null 2>&1 && docker ps --format '{{.Names}}' | grep -Fxq caddy && test -f /opt/infrastructure/Caddyfile; then
  DM_CADDY_ADDRESS=%s DM_CADDY_CONFIG=%s python3 - <<'PY'
import os
import pathlib
import re
import shutil
import time

path = pathlib.Path(~/opt/infrastructure/Caddyfile~)
address = os.environ[~DM_CADDY_ADDRESS~].strip()
config = os.environ[~DM_CADDY_CONFIG~].rstrip() + ~\n~
content = path.read_text()
start = f~# deploy-manager route {address}\n~
end = f~# deploy-manager route end {address}\n~
managed = start + config + end

content = re.sub(
    r~(?ms)^~ + re.escape(start) + r~.*?^~ + re.escape(end) + r~\n?~,
    ~~,
    content,
)

lines = content.splitlines(keepends=True)
cleaned = []
i = 0
while i < len(lines):
    if lines[i].strip() == f~{address} {{~:
        depth = lines[i].count(~{~) - lines[i].count(~}~)
        i += 1
        while i < len(lines) and depth > 0:
            depth += lines[i].count(~{~) - lines[i].count(~}~)
            i += 1
        continue
    cleaned.append(lines[i])
    i += 1

content = ~~.join(cleaned).rstrip() + ~\n\n~ + managed
backup = path.with_name(path.name + ~.deploy-manager-backup.~ + time.strftime(~%%Y%%m%%d%%H%%M%%S~))
shutil.copy2(path, backup)
path.write_text(content)
PY
  docker exec caddy caddy validate --config /etc/caddy/Caddyfile
  docker exec caddy caddy reload --config /etc/caddy/Caddyfile
else
  echo ~no supported caddy runtime found~ >&2
  exit 1
fi".

Definition caddyRemoveScript : str := quotes "set -e
if command -v caddy >/dev/null 2>&1 && command -v systemctl >/dev/null 2>&1 && systemctl list-unit-files caddy.service >/dev/null 2>&1; then
  sudo rm -f %s
  sudo caddy validate --config /etc/caddy/Caddyfile
  sudo systemctl reload caddy
elif command -v docker >/dev/null 2>&1 && docker ps --format '{{.Names}}' | grep -Fxq caddy && test -f /opt/infrastructure/Caddyfile; then
  DM_CADDY_ADDRESS=%s python3 - <<'PY'
import os
import pathlib
import re

path = pathlib.Path(~/opt/infrastructure/Caddyfile~)
address = os.environ[~DM_CADDY_ADDRESS~].strip()
content = path.read_text()
start = f~# deploy-manager route {address}\n~
end = f~# deploy-manager route end {address}\n~

content = re.sub(
    r~(?ms)^~ + re.escape(start) + r~.*?^~ + re.escape(end) + r~\n?~,
    ~~,
    content,
)

lines = content.splitlines(keepends=True)
cleaned = []
i = 0
while i < len(lines):
    if lines[i].strip() == f~{address} {{~:
        depth = lines[i].count(~{~) - lines[i].count(~}~)
        i += 1
        while i < len(lines) and depth > 0:
            depth += lines[i].count(~{~) - lines[i].count(~}~)
            i += 1
        continue
    cleaned.append(lines[i])
    i += 1

path.write_text(~~.join(cleaned).rstrip() + ~\n~)
PY
  docker exec caddy caddy validate --config /etc/caddy/Caddyfile
  docker exec caddy caddy reload --config /etc/caddy/Caddyfile
else
  echo ~no supported caddy runtime found~ >&2
  exit 1
fi".

Definition traefikTemplate : str := quotes "http:
  routers:
    %s:
      rule: ~Host(%s)~
      service: %s
      entryPoints:
        - %s
%s  services:
    %s:
      loadBalancer:
        servers:
          - url: ~%s~
".

Section Commands.
Context `{UnicodeTables} `{Resolver}.

(** ** Domains *)

Definition domain_char_ok (char : rune) : bool :=
  is_lower_ascii char || is_digit char || class (lit ".-") char.

Definition domain_label_error (label : str) : option goerror :=
  if label =s [] then Some (ErrText "domain labels cannot be empty")
  else if (63 <? length label)%nat then Some (ErrText "domain label is too long")
  else if HasPrefix label (lit "-") || HasSuffix label (lit "-")
  then Some (ErrText "domain labels cannot start or end with hyphen") else None.

Definition validateDomainLabels (domain : str) : option goerror :=
  if domain =s [] then Some (ErrText "domain is required")
  else if (253 <? length domain)%nat then Some (ErrText "domain is too long")
  else first_error domain_label_error (SplitByte "."%char domain).

Definition ValidateDomain (domain : str) : option goerror :=
  let domain := ToLower (TrimSpace domain) in
  if negb (forallb domain_char_ok (runes domain)) then Some (ErrText "domain contains unsupported characters")
  else validateDomainLabels domain.

Definition routeSlugPattern : regex :=
  RPlus (fun r => negb (is_lower_ascii r || is_digit r || class (lit "-") r)).

Definition routeSlug (domain : str) : result str :=
  let domain := ToLower (TrimSpace domain) in
  guard? (ValidateDomain domain) in
  let slug := Trim (ReplaceAllString routeSlugPattern (ReplaceAll domain (lit ".") (lit "-")) (lit "-")) (lit "-") in
  if slug =s [] then inr (ErrText "domain is required") else inl slug.

(** ** Upstreams *)

Definition unsafe_proxy_rune (char : rune) : bool :=
  class (squote ++ dquote ++ lit "`") char || (is_space char && negb (char =? 32)%N).
Definition containsUnsafeProxyRune (value : str) : bool := existsb unsafe_proxy_rune (runes value).

(** [netip.AddrFromSlice] *)
Definition AddrFromSlice (b : list N) : option netaddr :=
  if (length b =? 4)%nat then Some (Addr4 b)
  else if (length b =? 16)%nat then
    Some (Addr6 (map (fun i => nth (2 * i) b 0 * 256 + nth (2 * i + 1) b 0)%N (seq 0 8)) [])
  else None.

(** The address 169.254.169.254 is itself link-local. *)
Definition metadata_address : netaddr := Addr4 [169; 254; 169; 254]%N.
#[export] Instance netaddr_eq_dec : EqDecision netaddr.
Proof. solve_decision. Defined.
Definition forbidden_address (a : netaddr) : bool :=
  bool_decide (a = metadata_address) || IsLinkLocalUnicast a || IsLinkLocalMulticast a.

Definition validateUpstreamHost (host : str) : option goerror :=
  let host := ToLower (Trim host (lit "[]")) in
  if host =s lit "metadata.google.internal"
  then Some (ErrText "upstream_url cannot target cloud metadata services")
  else match ParseAddr host with
    | Some addr =>
        if forbidden_address addr then Some (ErrText "upstream_url cannot target link-local addresses") else None
    | None =>
        match LookupIP host with
        | None => None
        | Some ips =>
            if existsb (fun ip => match AddrFromSlice ip with Some a => forbidden_address a | None => false end) ips
            then Some (ErrText "upstream_url cannot target link-local addresses") else None
        end
    end.

Definition validateUpstreamURL (value : str) : option goerror :=
  if HasControlCharacter value then Some (ErrText "upstream_url cannot contain control characters")
  else if containsUnsafeProxyRune value then Some (ErrText "upstream_url contains unsupported characters")
  else match url_Parse value with
    | None => Some (ErrText "upstream_url must be an absolute HTTP URL")
    | Some parsed =>
        if Host parsed =s [] then Some (ErrText "upstream_url must be an absolute HTTP URL")
        else if is_some (User parsed) then Some (ErrText "upstream_url cannot include credentials")
        else if negb (RawQuery parsed =s []) || negb (Fragment parsed =s [])
             || (negb (Path parsed =s []) && negb (Path parsed =s lit "/"))
        then Some (ErrText "upstream_url must be an origin URL without path, query, or fragment")
        else match validateUpstreamHost (Hostname parsed) with
          | Some e => Some e
          | None => if (Scheme parsed =s lit "http") || (Scheme parsed =s lit "https") then None
                    else Some (ErrText "upstream_url must use http or https")
          end
    end.

(** ** Commands *)

Definition ValidateTarget (target : ProxyTarget.t) : option goerror :=
  if containsUnsafeProxyRune (ProxyTarget.Upstream target)
  then Some (ErrText "upstream_url contains unsupported characters")
  else
    let domain := TrimSpace (ProxyTarget.Domain target) in
    let upstream := TrimSpace (ProxyTarget.Upstream target) in
    let proxyType := ProxyTarget.ProxyType target in
    if domain =s [] then Some (ErrText "domain is required")
    else if upstream =s [] then Some (ErrText "upstream_url is required")
    else match validateUpstreamURL upstream with
      | Some e => Some e
      | None =>
          if (proxyType =s lit "caddy") || (proxyType =s lit "traefik")
          then match routeSlug domain with inr e => Some e | inl _ => None end
          else if proxyType =s lit "none" then Some (ErrText "server proxy type is none")
          else Some (ErrText (lit "unsupported proxy type " ++ fmt_q proxyType))
      end.

Definition caddyConfig (target : ProxyTarget.t) : str :=
  let address := if negb (ProxyTarget.TLSEnabled target)
                 then lit "http://" ++ ProxyTarget.Domain target else ProxyTarget.Domain target in
  Sprintf (lit "%s {" ++ newline ++ tabulator ++ lit "reverse_proxy %s" ++ newline ++ lit "}" ++ newline)
    [address; ProxyTarget.Upstream target].

Definition caddyHostPath (slug : str) : str :=
  lit "/etc/caddy/conf.d/deploy-manager-" ++ slug ++ lit ".caddy".

(** The script [caddyCommand] formats. *)
Definition caddy_script (target : ProxyTarget.t) (slug : str) : str :=
  let config := caddyConfig target in
  Sprintf caddyScript
    [ShellQuote config; ShellQuote (caddyHostPath slug); ShellQuote (ProxyTarget.Domain target); ShellQuote config].

Definition caddyCommand (target : ProxyTarget.t) (slug : str) : str :=
  lit "bash -lc " ++ ShellQuote (caddy_script target slug).

Definition caddyRemoveCommand (domain slug : str) : str :=
  lit "bash -lc " ++ ShellQuote (Sprintf caddyRemoveScript [ShellQuote (caddyHostPath slug); ShellQuote domain]).

Definition traefikConfig (target : ProxyTarget.t) (slug : str) : str :=
  let '(entryPoint, tls) := if negb (ProxyTarget.TLSEnabled target) then (lit "web", [])
                            else (lit "websecure", lit "    tls: {}" ++ newline) in
  Sprintf traefikTemplate
    [slug; lit "`" ++ ProxyTarget.Domain target ++ lit "`"; slug; entryPoint; tls; slug; ProxyTarget.Upstream target].

Definition traefikPath (slug : str) : str :=
  lit "/etc/traefik/dynamic/deploy-manager-" ++ slug ++ lit ".yml".

Definition BuildCommand (target : ProxyTarget.t) : result str :=
  guard? (ValidateTarget target) in
  let target := ProxyTarget.mk (TrimSpace (ProxyTarget.Domain target)) (TrimSpace (ProxyTarget.Upstream target))
                  (ProxyTarget.TLSEnabled target) (ProxyTarget.ProxyType target) in
  let? slug := routeSlug (ProxyTarget.Domain target) in
  if ProxyTarget.ProxyType target =s lit "caddy" then inl (caddyCommand target slug)
  else if ProxyTarget.ProxyType target =s lit "traefik" then
    inl (Join [ lit "sudo mkdir -p /etc/traefik/dynamic";
                lit "printf %s " ++ ShellQuote (traefikConfig target slug) ++ lit " | sudo tee "
                ++ ShellQuote (traefikPath slug) ++ lit " >/dev/null" ] (lit " && "))
  else inr (ErrText (lit "unsupported proxy type " ++ fmt_q (ProxyTarget.ProxyType target))).

Definition BuildRemoveCommand (domain proxyType : str) : result str :=
  let domain := ToLower (TrimSpace domain) in
  let? slug := routeSlug domain in
  if proxyType =s lit "caddy" then inl (caddyRemoveCommand domain slug)
  else if proxyType =s lit "traefik" then inl (lit "sudo rm -f " ++ ShellQuote (traefikPath slug))
  else inr (ErrText (lit "unsupported proxy type " ++ fmt_q proxyType)).

Definition maxRemoteProxyOutputLength : nat := 2048.

Definition remoteProxyOutput (output : str) : str :=
  let output := TrimSpace output in
  if output =s [] then []
  else
    let output := go_map (fun char => Some (if is_control char then 32%N else char)) output in
    let output := Join (Fields output) (lit " ") in
    if (length output <=? maxRemoteProxyOutputLength)%nat then output
    else take maxRemoteProxyOutputLength output ++ lit "...[truncated]".

End Commands.
