(* ===== verification/Runner.v ===== *)
(** * internal/deployments/runner.go: one deployment from queue to result

    The methods of [Runner] are programs over the calls of its interfaces:
    [runnerQueries], [RuntimeVariableSource], [SourceAuthenticator], the
    notifier, the log bus, the SSH signer and the SSH client.  Nothing is
    assumed of the answers. *)

From S2P Require Import Prelude GoStrings GoStringsFacts GoRegexp GoJson GoNet StringUtil AuditLog.
From S2P Require Import Db RemoteSteps ProxyCommands Effects.

Module LogEvent.
Record t := mk { ID : Z; DeploymentID : str; Stream : str; Message : str; CreatedAt : timestamptz }.
End LogEvent.

Module DeploymentEvent.
Record t := mk {
  DeploymentID : str; ApplicationName : str; ServerName : str; Status : str; Trigger : str;
  CommitSHA : str; Error : str }.
End DeploymentEvent.

(** The type of signers belongs to golang.org/x/crypto/ssh. *)
Class SshLib := { Signer : Type }.

Section Calls.
Context `{SshLib}.

(** [sshutil.Client], by the constructor that built it. *)
Inductive Client :=
| NewLocalDockerHostClient (user : str)
| NewTailscaleSSHClient (host : str) (port : Z) (user : str)
| NewClient (host : str) (port : Z) (user : str) (signer : Signer).

(** The calls the runner issues, with the type of their answers. *)
Inductive runnerE : Type -> Type :=
| QAppendAuditEvent (arg : AppendAuditEventParams.t) : runnerE (result AuditEvent.t)
| QAppendDeploymentLog (id : pgUUID_t) (stream message : str) : runnerE (result DeploymentLog.t)
| QActivateDeploymentSlot (color : str) (app server : pgUUID_t) : runnerE (result (list Slot.t))
| QGetDeploymentTarget (id : pgUUID_t) : runnerE (result Target.t)
| QGetActiveDeploymentSlot (app server : pgUUID_t) : runnerE (result Slot.t)
| QGetStandbyDeploymentSlot (app server : pgUUID_t) : runnerE (result Slot.t)
| QListApplicationServiceRuntimeConfigs (app : pgUUID_t) : runnerE (result (list ServiceConfig.t))
| QListProjectRuntimeVariablesForApplication (app : pgUUID_t) : runnerE (result (list ProjectVariable.t))
| QListProxyRouteTargetsForApplication (app server : pgUUID_t) : runnerE (result (list RouteTarget.t))
| QMarkApplicationConfigurationDeployed (id : pgUUID_t) (rev prev : Z) : runnerE (result Application.t)
| QMarkProxyRouteFailed (id : pgUUID_t) : runnerE (result ProxyRoute.t)
| QPromoteProxyRoutes (ids : list pgUUID_t) (urls : list str) : runnerE (result (list ProxyRoute.t))
| QSetDeploymentCommitSHA (id : pgUUID_t) (sha message : str) : runnerE (result Deployment.t)
| QStartQueuedDeployment (id : pgUUID_t) : runnerE (result Deployment.t)
| QUpdateApplicationStatus (id : pgUUID_t) (status : str) (version : pgText) : runnerE (result Application.t)
| QUpdateDeploymentStatus (id : pgUUID_t) (status : str) : runnerE (result Deployment.t)
| QUpsertDeploymentSlot (arg : UpsertDeploymentSlotParams.t) : runnerE (result Slot.t)
| CRuntimeVariables (scope : RuntimeVariableScope) : runnerE (result (list RuntimeVariable))
| CAuthorizationHeader (connector : pgUUID_t) (url : str) : runnerE (result str)
| CIsLocalTailscaleHost (host : str) : runnerE bool
| CSigner (host : str) (port : Z) (user keyPath : str) : runnerE (result Signer)
| CRun (client : Client) (command : str) : runnerE (str * option goerror)
| CRunWithInput (client : Client) (command input : str) : runnerE (str * option goerror)
| CPublish (e : LogEvent.t) : runnerE unit
| CNotifyDeployment (e : DeploymentEvent.t) : runnerE (option goerror).
End Calls.

(** The optional collaborators of a [Runner]: whether [runtime] and [source]
    are set. *)
Record Runner := { has_runtime : bool; has_source : bool }.

Record preparedProxyRoute := {
  route : RouteTarget.t; upstream : str; route_command : str; rollbackCommand : str }.

Definition maxDeploymentLogMessageLength : nat := N.to_nat 32768.
Definition deploymentLogTruncatedMarker : str := newline ++ lit "...[truncated]".
Definition maxCommitMessageLength : nat := 500.
Definition stackRuntimeConfigName : str := lit "__stack__".

Section Pure.
Context `{UnicodeTables} `{UuidLib}.

(** ** Log messages *)

(** [string([]rune)]: invalid sequences become U+FFFD. *)
Definition string_of_runes (l : list rune) : str := concat (map encode_rune l).

Definition normalizeDeploymentLogMessage (message : str) : option str :=
  let message := RedactSensitiveText message in
  if TrimSpace message =s [] then None
  else if (length (runes message) <=? maxDeploymentLogMessageLength)%nat then Some message
  else
    let maxBodyLength := (maxDeploymentLogMessageLength - length (runes deploymentLogTruncatedMarker))%nat in
    Some (string_of_runes (take maxBodyLength (runes message)) ++ deploymentLogTruncatedMarker).

Definition deploymentLogEvent (entry : DeploymentLog.t) : LogEvent.t :=
  LogEvent.mk (DeploymentLog.ID entry) (UUIDString (DeploymentLog.DeploymentID entry))
    (DeploymentLog.Stream entry) (DeploymentLog.Message entry) (DeploymentLog.CreatedAt entry).

(** ** Decoding configuration *)

Definition runtimeConfigVariables (config : ServiceConfig.t) : result (list RuntimeVariable) :=
  let? inputs := unmarshal_structs [lit "key"; lit "value"] (ServiceConfig.Variables config) in
  inl (map (fun input => runtimeVar (field input 0) (field input 1)) inputs).

Definition deploymentComposeServiceNames (raw : bytes) : list str :=
  match unmarshal_structs [lit "name"] raw with
  | inr _ => []
  | inl services => List.filter (fun n => negb (n =s [])) (map (fun s => field s 0) services)
  end.

Fixpoint singleton_loop (services : list (list str)) (names : list str) (seen : gset str) : result (list str) :=
  match services with
  | [] => inl names
  | service :: t =>
      let n := field service 0 in
      let mode := TrimSpace (field service 1) in
      if (mode =s []) || (mode =s lit "follow_stack") then singleton_loop t names seen
      else if negb (mode =s lit "singleton")
      then inr (ErrText (lit "compose service " ++ fmt_q n ++ lit " has invalid execution mode " ++ fmt_q mode))
      else if negb (MatchString composeServiceNamePattern n)
      then inr (ErrText (lit "compose service runtime target " ++ fmt_q n ++ lit " is invalid"))
      else if bool_decide (n ∈ seen) then singleton_loop t names seen
      else singleton_loop t (names ++ [n]) ({[n]} ∪ seen)
  end.

Definition singletonComposeServiceNames (raw : bytes) : result (list str) :=
  match raw with
  | None => inl []
  | Some _ =>
      let? services := wrap_err (lit "decode compose service execution modes: ")
                         (unmarshal_structs [lit "name"; lit "execution_mode"] raw) in
      let? names := singleton_loop services [] ∅ in
      inl (sort_Strings names)
  end.

Definition allComposeServicesRunning (output : str) (services : list str) : bool :=
  let running := Fields output in
  forallb (fun service => bool_decide (service ∈ running)) services.

(** ** Target attributes *)

Definition slotRollbackRef (target : Target.t) : str :=
  let ref := deploymentImageRef target in
  if negb (ref =s []) then ref else TrimSpace (String' (Target.CommitSha target)).

Definition blueGreenSlotTracked (target : Target.t) : bool := negb (slotRollbackRef target =s []).

Definition runtimeScope (target : Target.t) : RuntimeVariableScope :=
  Build_RuntimeVariableScope (Target.ApplicationName target)
    (TrimSpace (String' (Target.DopplerProject target))) (TrimSpace (String' (Target.DopplerConfig target))).

Definition deploymentVersion (target : Target.t) : pgText :=
  let nonblank t := Valid t && negb (TrimSpace (String' t) =s []) in
  if nonblank (Target.ImageDigest target) then someText (TrimSpace (String' (Target.ImageDigest target)))
  else if nonblank (Target.ImageRef target) then someText (TrimSpace (String' (Target.ImageRef target)))
  else Target.CommitSha target.

Definition deploymentActor (d : Deployment.t) : str :=
  let actor := TrimSpace (String' (Deployment.Actor d)) in
  if Valid (Deployment.Actor d) && negb (actor =s []) then actor else lit "system".

Definition proxyRouteUpstream (r : RouteTarget.t) (color : str) : result str :=
  let required := inr (ErrText (color ++ lit "_upstream_url is required")) in
  let value u := if Valid u && negb (TrimSpace (String' u) =s []) then inl (TrimSpace (String' u)) else required in
  if color =s lit "blue" then value (RouteTarget.BlueUpstreamUrl r)
  else if color =s lit "green" then value (RouteTarget.GreenUpstreamUrl r)
  else if color =s [] then inl (RouteTarget.UpstreamUrl r)
  else required.

Context `{Resolver}.

Definition prepareProxyRoute (r : RouteTarget.t) (color : str) : result preparedProxyRoute :=
  let? upstream := proxyRouteUpstream r color in
  let? command := BuildCommand (ProxyTarget.mk (RouteTarget.Domain r) upstream (RouteTarget.TlsEnabled r)
                                  (RouteTarget.ProxyType r)) in
  let? rollbackCommand := BuildCommand (ProxyTarget.mk (RouteTarget.Domain r) (RouteTarget.UpstreamUrl r)
                                  (RouteTarget.TlsEnabled r) (RouteTarget.ProxyType r)) in
  inl (Build_preparedProxyRoute r upstream command rollbackCommand).
End Pure.

Section Methods.
Context `{UnicodeTables} `{UuidLib} `{Resolver} `{SshLib}.

Abbreviation M := (prog runnerE).
Implicit Types (r : Runner) (d : Deployment.t) (target : Target.t) (client : Client)
  (options : remoteStepOptions) (color : str).

Definition append d (stream message : str) : M unit :=
  match normalizeDeploymentLogMessage message with
  | None => Ret tt
  | Some message =>
      let! entry := call (QAppendDeploymentLog (Deployment.ID d) stream message) in
      match entry with
      | inl entry => call (CPublish (deploymentLogEvent entry))
      | inr _ => call (CPublish (LogEvent.mk 0 (UUIDString (Deployment.ID d)) stream message None))
      end
  end.

Definition audit d target (action : str) (metadata : list (str * json)) : M unit :=
  let! _ := call (QAppendAuditEvent (AppendAuditEventParams.mk (deploymentActor d) action (lit "deployment")
    (UUIDString (Deployment.ID d)) (Target.ApplicationName target) (Metadata (Some metadata)))) in
  Ret tt.

Definition notify d target (failure : str) : M unit :=
  let! err := call (CNotifyDeployment (DeploymentEvent.mk (UUIDString (Deployment.ID d))
    (Target.ApplicationName target) (Target.ServerName target) (Deployment.Status d) (Deployment.Trigger d)
    (String' (Target.CommitSha target)) failure)) in
  match err with
  | Some e => append d (lit "system") (lit "Deployment notification failed: " ++ Error e)
  | None => Ret tt
  end.

Definition fail d (label : str) (err : goerror) : M Deployment.t :=
  let! _ := append d (lit "stderr") (label ++ lit ": " ++ Error err) in
  let! failed := call (QUpdateDeploymentStatus (Deployment.ID d) (lit "failed")) in
  match failed with
  | inr _ => Ret (DeploymentRow.set_status d (lit "failed") (Deployment.StartedAt d) (Deployment.FinishedAt d))
  | inl failed => Ret failed
  end.

(** ** Configuration *)

Definition sourceAuthorization r target (imageRef : str) : M (result str) :=
  if negb (has_source r) || negb (shouldSyncRepository target imageRef) then Ret (inl [])
  else call_or (lit "authenticate source repository: ")
         (CAuthorizationHeader (Target.RepositoryConnectorID target) (String' (Target.RepositoryUrl target))).

Definition deploymentRuntimeVariables r target : M (result (list RuntimeVariable)) :=
  let!? projectVariables := call_or (lit "load project runtime variables: ")
    (QListProjectRuntimeVariablesForApplication (Target.ApplicationID target)) in
  let variables := map (fun v => runtimeVar (ProjectVariable.Key v) (ProjectVariable.Value v)) projectVariables in
  if negb (has_runtime r) then Ret (inl variables)
  else
    let!? dopplerVariables := call_or (lit "sync runtime variables: ") (CRuntimeVariables (runtimeScope target)) in
    Ret (inl (mergeRuntimeVariables variables dopplerVariables)).

(** The Doppler part of one configuration, merged over [variables]. *)
Definition withDoppler r target (config : ServiceConfig.t) (n label : str) (variables : list RuntimeVariable)
    : M (result (list RuntimeVariable)) :=
  if has_runtime r && Valid (ServiceConfig.DopplerProject config) && Valid (ServiceConfig.DopplerConfig config) then
    let!? dopplerVariables := call_or (lit "sync runtime variables for " ++ label ++ lit ": ")
      (CRuntimeVariables (Build_RuntimeVariableScope (Target.ApplicationName target ++ lit "/" ++ n)
         (TrimSpace (String' (ServiceConfig.DopplerProject config)))
         (TrimSpace (String' (ServiceConfig.DopplerConfig config))))) in
    Ret (inl (mergeRuntimeVariables variables dopplerVariables))
  else Ret (inl variables).

Fixpoint stack_loop r target (shared : list RuntimeVariable) (configs : list ServiceConfig.t)
    (stackVariables : list RuntimeVariable) : M (result (list RuntimeVariable)) :=
  match configs with
  | [] => Ret (inl stackVariables)
  | config :: t =>
      if negb (ServiceConfig.ComposeService config =s stackRuntimeConfigName)
      then stack_loop r target shared t stackVariables
      else
        let!? variables := Ret (wrap_err (lit "decode stack runtime variables: ") (runtimeConfigVariables config)) in
        let!? merged := withDoppler r target config (lit "stack") (lit "stack")
                          (mergeRuntimeVariables shared variables) in
        stack_loop r target shared t merged
  end.

Fixpoint service_loop r target (stackVariables : list RuntimeVariable) (configs : list ServiceConfig.t)
    (services : gmap str (list RuntimeVariable)) : M (result (gmap str (list RuntimeVariable))) :=
  match configs with
  | [] => Ret (inl services)
  | config :: t =>
      let n := ServiceConfig.ComposeService config in
      if n =s stackRuntimeConfigName then service_loop r target stackVariables t services
      else
        let!? direct := Ret (wrap_err (lit "decode runtime variables for compose service " ++ n ++ lit ": ")
                               (runtimeConfigVariables config)) in
        let!? merged := withDoppler r target config n (lit "compose service " ++ n)
                          (mergeRuntimeVariables stackVariables direct) in
        service_loop r target stackVariables t (<[n := merged]> services)
  end.

Definition deploymentServiceRuntimeVariables r target (shared : list RuntimeVariable)
    : M (result (gmap str (list RuntimeVariable))) :=
  let!? configs := call_or (lit "load compose service runtime configuration: ")
    (QListApplicationServiceRuntimeConfigs (Target.ApplicationID target)) in
  let!? stackVariables := stack_loop r target shared configs shared in
  let services := fold_left (fun m n => <[n := stackVariables]> m)
                    (deploymentComposeServiceNames (Target.ComposeServices target)) ∅ in
  service_loop r target stackVariables configs services.

Definition nextDeploymentColors target : M (result (str * str)) :=
  if negb (Target.Strategy target =s lit "blue_green") then Ret (inl ([], []))
  else
    let! slot := call (QGetActiveDeploymentSlot (Target.ApplicationID target) (Target.ServerID target)) in
    Ret (match slot with
         | inr err => if is_no_rows err then inl (lit "blue", [])
                      else inr (ErrWrap (lit "load active deployment slot: ") err [])
         | inl slot => if Slot.Color slot =s lit "blue" then inl (lit "green", lit "blue")
                       else inl (lit "blue", lit "green")
         end).

Definition getBlueGreenPorts target : M (result blueGreenPorts) :=
  if negb (Target.Strategy target =s lit "blue_green") then Ret (inl (Build_blueGreenPorts [] [] []))
  else
    let!? routes := call_or (lit "load proxy route ports: ")
      (QListProxyRouteTargetsForApplication (Target.ApplicationID target) (Target.ServerID target)) in
    Ret (routePorts routes).

Definition deploymentSSHClient target : M (result Client) :=
  if Target.ConnectionMode target =s lit "tailscale_ssh" then
    let! isLocal := call (CIsLocalTailscaleHost (Target.Hostname target)) in
    Ret (inl match isLocal with
             | true => NewLocalDockerHostClient (Target.SshUser target)
             | false => NewTailscaleSSHClient (Target.Hostname target) (Target.SshPort target) (Target.SshUser target)
             end)
  else
    let!? signer := call (CSigner (Target.Hostname target) (Target.SshPort target) (Target.SshUser target)
                            (String' (Target.SshKeyPath target))) in
    Ret (inl (NewClient (Target.Hostname target) (Target.SshPort target) (Target.SshUser target) signer)).

(** ** Steps on the target host *)

(** [hex.DecodeString] succeeds with 20 bytes. *)
Definition hex_sha (commit : str) : bool := forallb is_hex_byte commit && (length commit =? 40)%nat.

Definition commitMessage (line : option str) : str :=
  match line with
  | None => []
  | Some line =>
      let message := TrimSpace line in
      if negb (valid_utf8 message) || HasControlCharacter message then []
      else if (maxCommitMessageLength <? length (runes message))%nat
      then string_of_runes (take maxCommitMessageLength (runes message)) else message
  end.

Definition resolveCommand target : str :=
  lit "cd " ++ ShellQuote (Target.RemoteDirectory target) ++ lit " && git log -1 --format="
  ++ squote ++ lit "%H%n%s" ++ squote.

(** The target comes back with the recorded commit. *)
Definition resolveSourceCommit d target client : M (result Target.t) :=
  let! (output, err) := call (CRun client (resolveCommand target)) in
  match err with
  | Some err => Ret (inr (ErrWrap (lit "resolve source commit: ") err []))
  | None =>
      let '(first, rest) := CutByte (ascii_of_N 10) (TrimRight output (byte 13 ++ newline)) in
      let commit := TrimSpace first in
      if negb (hex_sha commit) then Ret (inr (ErrText "resolve source commit: git returned an invalid SHA"))
      else
        let!? pinned := call_or (lit "record source commit: ")
          (QSetDeploymentCommitSHA (Deployment.ID d) commit (commitMessage rest)) in
        let target := Target.set_CommitSha target (Deployment.CommitSha pinned) in
        let! _ := append d (lit "system") (lit "Source commit: " ++ take 12 commit) in
        Ret (inl target)
  end.

Definition log_output d (output : str) : M unit :=
  if negb (TrimSpace output =s []) then append d (lit "stdout") output else Ret tt.

Definition run_step client (step : remoteStep) : M (str * option goerror) :=
  if input step =s [] then call (CRun client (command step))
  else call (CRunWithInput client (command step) (input step)).

(** The loop over the steps: the target it leaves and the error that stopped it. *)
Fixpoint run_steps d client (steps : list remoteStep) target : M (Target.t * option goerror) :=
  match steps with
  | [] => Ret (target, None)
  | step :: rest =>
      let! _ := append d (lit "system") (label step) in
      let! (output, err) := run_step client step in
      let! _ := log_output d output in
      match err with
      | Some err => Ret (target, Some (ErrWrap (label step ++ lit ": ") err []))
      | None =>
          if resolvesCommit step then
            let! resolved := resolveSourceCommit d target client in
            match resolved with
            | inr err => Ret (target, Some err)
            | inl target => run_steps d client rest target
            end
          else run_steps d client rest target
      end
  end.

(** ** Singleton services *)

Definition serviceCommand target options color (action : str) : str :=
  fixedColorComposeServiceCommand target options color action (singletonServices options).

Definition skips_singletons target options : bool :=
  (length (singletonServices options) =? 0)%nat || negb (Target.Strategy target =s lit "blue_green").

Definition run_unless_empty client target options color (action : str) : M (list str) :=
  if negb (color =s []) then
    let! (_, err) := call (CRun client (serviceCommand target options color action)) in
    Ret (match err with
         | Some e => [action ++ lit " " ++ color ++ lit ": " ++ Error e]
         | None => []
         end)
  else Ret [].

Definition restoreSingletonServices target client (fromColor toColor : str) options : M (result unit) :=
  if skips_singletons target options then Ret (inl tt)
  else
    let! stopped := run_unless_empty client target options fromColor (lit "stop") in
    let! started := run_unless_empty client target options toColor (lit "start") in
    let restoreErrors := stopped ++ started in
    Ret (match restoreErrors with
         | [] => inl tt
         | _ => inr (ErrText (Join restoreErrors (lit "; ")))
         end).

Definition restore_suffix (r : result unit) : str :=
  match r with inr e => lit "; restore: " ++ Error e | inl _ => [] end.

Definition switchSingletonServices d target client (fromColor toColor : str) options : M (result unit) :=
  if skips_singletons target options then Ret (inl tt)
  else
    let! _ := append d (lit "system") (lit "Switching singleton services to " ++ toColor) in
    let!? _ :=
      (if negb (fromColor =s []) then
         let! (output, err) := call (CRun client (serviceCommand target options fromColor (lit "stop"))) in
         match err with
         | Some err =>
             let! _ := call (CRun client (serviceCommand target options fromColor (lit "start"))) in
             Ret (inr (ErrWrap (lit "stop singleton services for " ++ fromColor ++ lit ": ") err
                         (lit ": " ++ TrimSpace output)))
         | None => Ret (inl tt)
         end
       else Ret (inl tt)) in
    let! (output, err) := call (CRun client (serviceCommand target options toColor (lit "start"))) in
    match err with
    | Some err =>
        let! restored := restoreSingletonServices target client toColor fromColor options in
        Ret (inr (ErrWrap (lit "start singleton services for " ++ toColor ++ lit ": ") err
                    (lit ": " ++ TrimSpace output ++ restore_suffix restored)))
    | None =>
        let! (running, err) :=
          call (CRun client (serviceCommand target options toColor (lit "ps --status running --services"))) in
        if is_some err || negb (allComposeServicesRunning running (singletonServices options)) then
          let! restored := restoreSingletonServices target client toColor fromColor options in
          let err := default (ErrText "one or more singleton services did not stay running") err in
          Ret (inr (ErrWrap (lit "verify singleton services for " ++ toColor ++ lit ": ") err
                      (restore_suffix restored)))
        else Ret (inl tt)
    end.

(** ** Proxy routes *)

Fixpoint rollback_in_order client (items : list preparedProxyRoute) : M unit :=
  match items with
  | [] => Ret tt
  | item :: t => let! _ := call (CRun client (rollbackCommand item)) in rollback_in_order client t
  end.
Definition rollbackProxyRoutes client (applied : list preparedProxyRoute) : M unit :=
  rollback_in_order client (rev applied).

Fixpoint prepare_routes (routes : list RouteTarget.t) color : M (result (list preparedProxyRoute)) :=
  match routes with
  | [] => Ret (inl [])
  | r :: t =>
      match prepareProxyRoute r color with
      | inr err =>
          let! _ := call (QMarkProxyRouteFailed (RouteTarget.ID r)) in
          Ret (inr (ErrWrap (lit "prepare proxy route " ++ RouteTarget.Domain r ++ lit ": ") err []))
      | inl item => let!? items := prepare_routes t color in Ret (inl (item :: items))
      end
  end.

Fixpoint apply_routes d client (items applied : list preparedProxyRoute) : M (result unit) :=
  match items with
  | [] => Ret (inl tt)
  | item :: t =>
      let! _ := append d (lit "system") (lit "Applying proxy route " ++ RouteTarget.Domain (route item)) in
      let! (output, err) := call (CRun client (route_command item)) in
      let! _ := log_output d output in
      match err with
      | Some err =>
          let! _ := call (QMarkProxyRouteFailed (RouteTarget.ID (route item))) in
          let! _ := rollbackProxyRoutes client applied in
          Ret (inr (ErrWrap (lit "apply proxy route " ++ RouteTarget.Domain (route item) ++ lit ": ") err []))
      | None => apply_routes d client t (applied ++ [item])
      end
  end.

Definition record_routes client (prepared : list preparedProxyRoute) : M (result unit) :=
  let ids := map (fun item => RouteTarget.ID (route item)) prepared in
  let upstreams := map upstream prepared in
  if (0 <? length ids)%nat then
    let! promoted := call (QPromoteProxyRoutes ids upstreams) in
    match promoted with
    | inr err =>
        let! _ := rollbackProxyRoutes client prepared in
        Ret (inr (ErrWrap (lit "record promoted proxy routes: ") err []))
    | inl promoted =>
        if negb (length promoted =? length prepared)%nat then
          let! _ := rollbackProxyRoutes client prepared in
          Ret (inr (ErrText (lit "record promoted proxy routes: updated " ++ fmt_d (Z.of_nat (length promoted))
                             ++ lit " of " ++ fmt_d (Z.of_nat (length prepared)) ++ lit " routes")))
        else Ret (inl tt)
    end
  else Ret (inl tt).

Definition applyProxyRoutes d target client color : M (result unit) :=
  if Target.ProxyType target =s lit "none" then Ret (inl tt)
  else
    let!? routes := call_or (lit "load proxy routes: ")
      (QListProxyRouteTargetsForApplication (Target.ApplicationID target) (Target.ServerID target)) in
    let!? prepared := prepare_routes routes color in
    let!? _ := apply_routes d client prepared [] in
    record_routes client prepared.

(** ** Slots, health and rollback *)

Definition upsertSlot d target color (status : str) : M (result unit) :=
  let! res := call (QUpsertDeploymentSlot (UpsertDeploymentSlotParams.mk (Target.ApplicationID target)
    (Target.ServerID target) color (Deployment.ID d) (slotRollbackRef target) (Target.ImageDigest target) status)) in
  Ret (match res with inr err => inr (ErrWrap (lit "record deployment slot: ") err []) | inl _ => inl tt end).

Definition healthCommand target color (ports : blueGreenPorts) : str :=
  Sprintf (lit "curl -fsS --retry 3 --retry-delay 1 %s >/dev/null")
    [shellQuoteColorURL (deploymentHealthCheckURL target (TrimSpace (String' (Target.HealthCheckUrl target)))) color ports].

Definition checkColorHealth target client color : M (result unit) :=
  if negb (Target.Strategy target =s lit "blue_green") then Ret (inl tt)
  else if negb (Valid (Target.HealthCheckUrl target)) || (TrimSpace (String' (Target.HealthCheckUrl target)) =s [])
  then Ret (inr (ErrText "blue_green deployments require a health_check_url"))
  else
    let!? ports := getBlueGreenPorts target in
    let! (output, err) := call (CRun client (healthCommand target color ports)) in
    Ret (match err with
         | None => inl tt
         | Some err =>
             inr (ErrWrap (lit "rollback health check failed: ") err
                    (if negb (TrimSpace output =s []) then lit ": " ++ TrimSpace output else []))
         end).

Definition activate target color : runnerE (result (list Slot.t)) :=
  QActivateDeploymentSlot color (Target.ApplicationID target) (Target.ServerID target).

(** What [deploy] and [rollback] share after the proxy switch failed. *)
Definition failed_switch target client (fromColor toColor : str) options (err : goerror) : M (result unit) :=
  let! restored := restoreSingletonServices target client fromColor toColor options in
  Ret (inr (match restored with
            | inr e => ErrWrap [] err (lit "; restore singleton services: " ++ Error e)
            | inl _ => err
            end)).

(** The colour whose services a rollback stops, with the options it stops them
    with. *)
Definition rollback_singletons d target client color : M (result (str * remoteStepOptions)) :=
  let!? singletons := Ret (singletonComposeServiceNames (Target.ComposeServices target)) in
  if (0 <? length singletons)%nat then
    let!? activeSlot := call_or (lit "load active deployment slot: ")
      (QGetActiveDeploymentSlot (Target.ApplicationID target) (Target.ServerID target)) in
    let activeColor := Slot.Color activeSlot in
    let!? ports := getBlueGreenPorts target in
    let options := Build_remoteStepOptions [] [] (blue ports) (green ports) (variables ports)
      (list_to_map (map (fun s => (s, [])) singletons)) [] singletons in
    let!? _ := switchSingletonServices d target client activeColor color options in
    Ret (inl (activeColor, options))
  else Ret (inl ([], noOptions)).

Definition rollback d target client : M (result unit) :=
  let! slot := call (QGetStandbyDeploymentSlot (Target.ApplicationID target) (Target.ServerID target)) in
  match slot with
  | inr err =>
      Ret (inr (if is_no_rows err then ErrText "no standby blue-green slot is available for rollback"
                else ErrWrap (lit "load rollback slot: ") err []))
  | inl slot =>
      let color := Slot.Color slot in
      let! _ := append d (lit "system") (lit "Rolling back traffic to " ++ color) in
      let!? _ := checkColorHealth target client color in
      let!? (activeColor, options) := rollback_singletons d target client color in
      let! switched := applyProxyRoutes d target client color in
      match switched with
      | inr err => failed_switch target client color activeColor options err
      | inl _ =>
          let! activated := call (activate target color) in
          match activated with
          | inr err =>
              let! _ := (if negb (activeColor =s []) then
                           let! _ := applyProxyRoutes d target client activeColor in Ret tt
                         else Ret tt) in
              let! _ := restoreSingletonServices target client color activeColor options in
              Ret (inr (ErrWrap (lit "mark rollback slot active: ") err []))
          | inl _ => Ret (inl tt)
          end
      end
  end.

(** ** deploy *)

Record plan := { targetColor' : str; currentColor : str; planOptions : remoteStepOptions;
                 planSteps : list remoteStep }.

(** From loading the variables to the list of steps. *)
Definition prepare_deploy r d target : M (result plan) :=
  let!? vars := deploymentRuntimeVariables r target in
  let!? services := deploymentServiceRuntimeVariables r target vars in
  let! _ := (if (0 <? length vars)%nat || (0 <? size services)%nat
             then append d (lit "system") (lit "Runtime variables synced: "
                    ++ fmt_d (Z.of_nat (validRuntimeVariableCount vars)) ++ lit " shared, "
                    ++ fmt_d (Z.of_nat (size services)) ++ lit " service environments")
             else Ret tt) in
  let!? (color, current) := nextDeploymentColors target in
  let!? singletons := Ret (singletonComposeServiceNames (Target.ComposeServices target)) in
  let singletons := if negb (Target.Strategy target =s lit "blue_green") then [] else singletons in
  let!? ports := getBlueGreenPorts target in
  let imageRef := String' (Deployment.ImageRef d) in
  let!? header := sourceAuthorization r target imageRef in
  let options := Build_remoteStepOptions color imageRef (blue ports) (green ports) (variables ports)
    services header singletons in
  let!? steps := Ret (remoteSteps target vars [options]) in
  Ret (inl (Build_plan color current options steps)).

Definition tracked target : bool := (Target.Strategy target =s lit "blue_green") && blueGreenSlotTracked target.

(** From the standby slot to the activation. *)
Definition finish_deploy d target client (p : plan) : M (result unit) :=
  let color := targetColor' p in
  let options := planOptions p in
  let!? _ := (if tracked target then upsertSlot d target color (lit "standby") else Ret (inl tt)) in
  let!? _ := switchSingletonServices d target client (currentColor p) color options in
  let! switched := applyProxyRoutes d target client color in
  match switched with
  | inr err => failed_switch target client color (currentColor p) options err
  | inl _ =>
      if tracked target then
        let! activated := call (activate target color) in
        match activated with
        | inr err =>
            let! _ := (if negb (currentColor p =s []) then
                         let! _ := applyProxyRoutes d target client (currentColor p) in Ret tt
                       else Ret tt) in
            let! _ := restoreSingletonServices target client color (currentColor p) options in
            Ret (inr (ErrWrap (lit "mark active deployment slot: ") err []))
        | inl _ => Ret (inl tt)
        end
      else Ret (inl tt)
  end.

Definition as_error (r : result unit) : option goerror := match r with inl _ => None | inr e => Some e end.

(** The error, if any, and the target as the steps left it. *)
Definition deploy r d target : M (option goerror * Target.t) :=
  if negb (Target.ConnectionMode target =s lit "tailscale_ssh")
     && (negb (Valid (Target.SshKeyPath target)) || (TrimSpace (String' (Target.SshKeyPath target)) =s []))
  then Ret (Some (ErrText (lit "server " ++ Target.ServerName target ++ lit " has no ssh key path configured")), target)
  else
    let! connected := deploymentSSHClient target in
    match connected with
    | inr err => Ret (Some (ErrWrap (lit "prepare ssh client: ") err []), target)
    | inl client =>
        let! _ := append d (lit "system")
          (lit "Connecting to " ++ Target.SshUser target ++ lit "@" ++ Target.Hostname target) in
        let! _ := append d (lit "system") (lit "Strategy: " ++ Target.Strategy target) in
        if Deployment.Trigger d =s lit "rollback" then
          let! res := rollback d target client in Ret (as_error res, target)
        else
          let! prepared := prepare_deploy r d target in
          match prepared with
          | inr err => Ret (Some err, target)
          | inl p =>
              let! (target, err) := run_steps d client (planSteps p) target in
              match err with
              | Some err => Ret (Some err, target)
              | None => let! res := finish_deploy d target client p in Ret (as_error res, target)
              end
          end
    end.

(** ** Run *)

Definition json_str (s : string) (v : str) : str * json := (lit s, JStr v).

Definition complete d target : M unit :=
  let! completed := call (QUpdateDeploymentStatus (Deployment.ID d) (lit "succeeded")) in
  match completed with
  | inr err =>
      let! _ := append d (lit "stderr") (lit "mark deployment succeeded: " ++ Error err) in
      notify d target (lit "mark deployment succeeded: " ++ Error err)
  | inl completed =>
      let! _ := call (QUpdateApplicationStatus (Target.ApplicationID target) (lit "healthy") (deploymentVersion target)) in
      let! _ :=
        (if negb (Deployment.Trigger d =s lit "rollback") then
           let! marked := call (QMarkApplicationConfigurationDeployed (Target.ApplicationID target)
             (Target.ConfigurationRevision target) (Target.ProjectConfigurationRevision target)) in
           match marked with
           | inr err => append d (lit "stderr") (lit "mark deployed configuration: " ++ Error err)
           | inl _ => Ret tt
           end
         else Ret tt) in
      let! _ := append d (lit "system") (lit "Deployment completed") in
      let! _ := audit completed target (lit "deployment.succeeded") [json_str "status" (lit "succeeded")] in
      notify completed target []
  end.

Definition run_failed d target (err : goerror) : M unit :=
  let! failed := fail d (lit "remote deployment failed") err in
  let! _ := audit failed target (lit "deployment.failed")
              [json_str "status" (lit "failed"); json_str "error" (Error err)] in
  let! _ := call (QUpdateApplicationStatus (Target.ApplicationID target) (lit "failed") textNull) in
  notify failed target (Error err).

Definition Run r d : M unit :=
  let! running := call (QStartQueuedDeployment (Deployment.ID d)) in
  match running with
  | inr err =>
      if is_no_rows err then append d (lit "system") (lit "Deployment is no longer queued; skipping")
      else append d (lit "stderr") (lit "mark deployment running: " ++ Error err)
  | inl d =>
      let! _ := append d (lit "system") (lit "Deployment picked up by runner") in
      let! row := call (QGetDeploymentTarget (Deployment.ID d)) in
      match row with
      | inr err => let! _ := fail d (lit "load deployment target") err in Ret tt
      | inl target =>
          let! _ := audit d target (lit "deployment.running")
            [json_str "status" (lit "running"); json_str "trigger" (Deployment.Trigger d);
             json_str "strategy" (Deployment.Strategy d)] in
          let! _ := call (QUpdateApplicationStatus (Target.ApplicationID target) (lit "deploying")
                            (deploymentVersion target)) in
          let! (err, target) := deploy r d target in
          match err with
          | Some err => run_failed d target err
          | None => complete d target
          end
      end
  end.
End Methods.
