(* ===== verification/Queue.v ===== *)
(** * internal/deployments/queue.go: the deployment queue

    Deployments wait in a Redis list.  [Enqueue] appends to it, the worker takes
    the head of it and runs the deployment if its row is still queued, and two
    recovery steps run when the server starts (cmd/server/main.go).  Logging to
    the process log is left out. *)

From S2P Require Import Prelude GoStrings GoRegexp GoJson GoNet StringUtil AuditLog Db.
From S2P Require Import RemoteSteps ProxyCommands Effects Runner.

Definition deploymentQueueKey : str := lit "deployments:queue".
Definition defaultRecoveryLimit : Z := 100.
Definition interruptedDeploymentLogMessage : str :=
  lit "Deployment was interrupted by server restart; marked failed".

Record queuePayload := { DeploymentID : str }.

Section Queue.
Context `{UnicodeTables} `{UuidLib} `{Resolver} `{SshLib}.

(** ** Payloads *)

Definition encodeDeployment (deployment : Deployment.t) : result str :=
  let id := UUIDString (Deployment.ID deployment) in
  if id =s [] then inr (ErrText "deployment id is required")
  else inl (json_Marshal (JObj [(lit "deployment_id", JStr id)])).

(** Nothing but blanks may follow the object. *)
Definition trailing (rest : str) : option goerror :=
  match Decode rest with
  | inr ErrEOF => None
  | inr err => Some err
  | inl (v, _) =>
      match decode_struct_strict [] v with
      | inl _ => Some (ErrText "queue payload must contain one JSON object")
      | inr err => Some err
      end
  end.

Definition decodePayload (encoded : str) : result queuePayload :=
  let? (v, rest) := Decode encoded in
  let? fields := decode_struct_strict [lit "deployment_id"] v in
  guard? (trailing rest) in
  let id := TrimSpace (field fields 0) in
  if id =s [] then inr (ErrText "deployment_id is required") else inl {| DeploymentID := id |}.

Definition shouldRunDeployment (status : str) : bool := status =s lit "queued".

(** ** Calls *)

(** What [BLPop] answers, by the cases the worker distinguishes. *)
Inductive pop_result :=
| PopItem (item : list str)
| PopCanceled                  (* context.Canceled *)
| PopNil                       (* redis.Nil: nothing within the timeout *)
| PopError (err : goerror).

Inductive queueE : Type -> Type :=
| QRunner {X : Type} (e : runnerE X) : queueE X
| QGetDeployment (id : pgUUID_t) : queueE (result Deployment.t)
| QListQueuedDeploymentsForRecovery (limit : Z) : queueE (result (list Deployment.t))
| QFailRunningDeploymentsForRecovery : queueE (result (list Deployment.t))
| CRPush (key payload : str) : queueE (option goerror)
| CBLPop (key : str) : queueE pop_result.

Abbreviation M := (prog queueE).

(** ** Operations *)

Definition Enqueue (deployment : Deployment.t) : M (option goerror) :=
  match encodeDeployment deployment with
  | inr err => Ret (Some err)
  | inl payload => call (CRPush deploymentQueueKey payload)
  end.

(** The loop of [recoverQueued]: how many were enqueued, and the error that
    stopped it. *)
Fixpoint enqueue_loop (enqueue : Deployment.t -> M (option goerror)) (deployments : list Deployment.t)
    (index : Z) : M (Z * option goerror) :=
  match deployments with
  | [] => Ret (index, None)
  | deployment :: t =>
      let! err := enqueue deployment in
      match err with
      | Some err => Ret (index, Some err)
      | None => enqueue_loop enqueue t (index + 1)
      end
  end.

Definition recoverQueued (limit : Z) (list_ : Z -> M (result (list Deployment.t)))
    (enqueue : Deployment.t -> M (option goerror)) : M (Z * option goerror) :=
  let limit := if (limit <=? 0)%Z then defaultRecoveryLimit else limit in
  let! deployments := list_ limit in
  match deployments with
  | inr err => Ret (0%Z, Some err)
  | inl deployments => enqueue_loop enqueue deployments 0
  end.

Definition RecoverQueued (limit : Z) : M (Z * option goerror) :=
  let limit := if (limit <=? 0)%Z then defaultRecoveryLimit else limit in
  recoverQueued limit (fun limit => call (QListQueuedDeploymentsForRecovery limit)) Enqueue.

Fixpoint log_loop (appendLog : pgUUID_t -> str -> str -> M (result DeploymentLog.t))
    (deployments : list Deployment.t) : M (option goerror) :=
  match deployments with
  | [] => Ret None
  | deployment :: t =>
      let! res := appendLog (Deployment.ID deployment) (lit "system") interruptedDeploymentLogMessage in
      match res with
      | inr err => Ret (Some err)
      | inl _ => log_loop appendLog t
      end
  end.

Definition recoverInterrupted (failRunning : M (result (list Deployment.t)))
    (appendLog : pgUUID_t -> str -> str -> M (result DeploymentLog.t)) : M (Z * option goerror) :=
  let! deployments := failRunning in
  match deployments with
  | inr err => Ret (0%Z, Some err)
  | inl deployments =>
      let! err := log_loop appendLog deployments in
      Ret (Z.of_nat (length deployments), err)
  end.

Definition RecoverInterrupted : M (Z * option goerror) :=
  recoverInterrupted (call QFailRunningDeploymentsForRecovery)
    (fun id stream message => call (QRunner (QAppendDeploymentLog id stream message))).

(** ** The worker *)

Definition handle (r : Runner) (encoded : str) : M (option goerror) :=
  match decodePayload encoded with
  | inr err => Ret (Some err)
  | inl payload =>
      match PgUUID' (DeploymentID payload) with
      | inr err => Ret (Some err)
      | inl deploymentID =>
          let! deployment := call (QGetDeployment deploymentID) in
          match deployment with
          | inr err => Ret (Some err)
          | inl deployment =>
              if negb (shouldRunDeployment (Deployment.Status deployment)) then Ret None
              else let! _ := pmap (@QRunner) (Run r deployment) in Ret None
          end
      end
  end.

(** One turn of the loop of [work]: [true] when the worker returns. *)
Definition work_once (r : Runner) : M bool :=
  let! popped := call (CBLPop deploymentQueueKey) in
  match popped with
  | PopCanceled => Ret true
  | PopNil | PopError _ => Ret false
  | PopItem [_; encoded] => let! _ := handle r encoded in Ret false
  | PopItem _ => Ret false
  end.

(** The first [n] turns of the worker, which loops until it is cancelled. *)
Fixpoint work (n : nat) (r : Runner) : M unit :=
  match n with
  | O => Ret tt
  | S n => let! stop := work_once r in if stop then Ret tt else work n r
  end.

(** ** Start-up (cmd/server/main.go) *)

(** What [newApplication] does with the queue when the worker is enabled. *)
Definition recover_at_start : M (option goerror) :=
  let! (_, err) := RecoverInterrupted in
  match err with
  | Some err => Ret (Some (ErrWrap (lit "recover interrupted deployments: ") err []))
  | None =>
      let! (_, err) := RecoverQueued 0 in
      Ret (match err with
           | Some err => Some (ErrWrap (lit "recover queued deployments: ") err [])
           | None => None
           end)
  end.
End Queue.
