(* ===== verification/LogBus.v ===== *)
(** * internal/deployments/logbus.go: streaming log lines to subscribers

    Every subscriber has a channel of 32 events.  Without Redis, [Publish]
    offers the event to every channel of its deployment and drops it where the
    channel is full; the end of a subscription removes and closes the channel.
    With Redis the events travel as JSON over one Redis channel per deployment.
    A step is what the code does under the bus's lock, so executions of [steps]
    are the interleavings of publishers, subscribers and readers. *)

From S2P Require Import Prelude GoStrings GoJson GoNet StringUtil AuditLog Db RemoteSteps.
From S2P Require Import ProxyCommands Effects Runner.

Definition channelCapacity : nat := 32.

(** ** Channels and the bus *)

Record channel := { buffered : list LogEvent.t; open : bool }.

(** [subscribers] is the map of the source; [channels] are the channels that
    exist, by the order in which they were made. *)
Record LogBus := { subscribers : gmap str (gset nat); channels : gmap nat channel; made : nat }.

Definition NewLogBus : LogBus := {| subscribers := ∅; channels := ∅; made := 0 |}.

Definition subscribed (b : LogBus) (id : str) : gset nat := default ∅ (subscribers b !! id).

(** [select { case ch <- event: default: }]: a send on a closed channel panics,
    which is [None]. *)
Definition offer (event : LogEvent.t) (c : channel) : option channel :=
  if negb (open c) then None
  else Some (if (length (buffered c) <? channelCapacity)%nat
             then {| buffered := buffered c ++ [event]; open := true |} else c).

Definition offer_to (event : LogEvent.t) (n : nat) (cs : option (gmap nat channel)) : option (gmap nat channel) :=
  cs ← cs; c ← cs !! n; c' ← offer event c; Some (<[n := c']> cs).

Definition Publish (event : LogEvent.t) (b : LogBus) : option LogBus :=
  cs ← foldr (offer_to event) (Some (channels b)) (elements (subscribed b (LogEvent.DeploymentID event)));
  Some {| subscribers := subscribers b; channels := cs; made := made b |}.

Definition subscribeLocal (deploymentID : str) (b : LogBus) : nat * LogBus :=
  let ch := made b in
  (ch, {| subscribers := <[deploymentID := {[ch]} ∪ subscribed b deploymentID]> (subscribers b);
          channels := <[ch := {| buffered := []; open := true |}]> (channels b);
          made := S ch |}).

(** The goroutine of [subscribeLocal] after [<-ctx.Done()]; closing a closed
    channel panics. *)
Definition unsubscribe (deploymentID : str) (ch : nat) (b : LogBus) : option LogBus :=
  let rest := subscribed b deploymentID ∖ {[ch]} in
  c ← channels b !! ch;
  if negb (open c) then None
  else Some {| subscribers := if decide (rest = ∅) then delete deploymentID (subscribers b)
                              else <[deploymentID := rest]> (subscribers b);
               channels := <[ch := {| buffered := buffered c; open := false |}]> (channels b);
               made := made b |}.

(** A reader takes the oldest event. *)
Definition receive (ch : nat) (b : LogBus) : option (LogEvent.t * LogBus) :=
  c ← channels b !! ch;
  match buffered c with
  | [] => None
  | e :: t => Some (e, {| subscribers := subscribers b;
                          channels := <[ch := {| buffered := t; open := open c |}]> (channels b);
                          made := made b |})
  end.

(** ** Executions *)

(** The bus and the goroutines that wait for their subscription to end, by the
    channel they will close. *)
Record world := { bus : LogBus; pending : gmap nat str }.

Definition start : world := {| bus := NewLogBus; pending := ∅ |}.

Inductive action :=
| APublish (event : LogEvent.t)
| ASubscribe (deploymentID : str)
| ADone (ch : nat)                   (* the context of the subscription is done *)
| AReceive (ch : nat) (event : LogEvent.t).   (* the reader gets this event *)

#[export] Instance LogEvent_eq_dec : EqDecision LogEvent.t.
Proof. solve_decision. Defined.

(** [None]: the action is not possible, or it panics. *)
Definition run_action (w : world) (a : action) : option world :=
  match a with
  | APublish event => b ← Publish event (bus w); Some {| bus := b; pending := pending w |}
  | ASubscribe id => let '(n, b) := subscribeLocal id (bus w) in
                     Some {| bus := b; pending := <[n := id]> (pending w) |}
  | ADone ch => id ← pending w !! ch; b ← unsubscribe id ch (bus w);
                Some {| bus := b; pending := delete ch (pending w) |}
  | AReceive ch event => '(e, b) ← receive ch (bus w);
                         if decide (e = event) then Some {| bus := b; pending := pending w |} else None
  end.

Definition run_actions (l : list action) (w : world) : option world :=
  fold_left (fun o a => w ← o; run_action w a) l (Some w).

(** ** Redis *)

Definition logChannel (deploymentID : str) : str := Sprintf (lit "deployments:%s:logs") [deploymentID].

Definition shouldDeliverLogEvent (deploymentID : str) (event : LogEvent.t) : bool :=
  LogEvent.DeploymentID event =s deploymentID.

(** [pgtype.Timestamptz] brings its own JSON form. *)
Class TimestamptzJson := {
  time_MarshalJSON : timestamptz -> json;
  time_UnmarshalJSON : json -> result timestamptz }.

Section Redis.
Context `{TimestamptzJson}.

(** [json.Marshal] of a [LogEvent]: [omitempty] drops a zero id and has no effect
    on the struct [created_at]. *)
Definition event_json (e : LogEvent.t) : json :=
  JObj ((if (LogEvent.ID e =? 0)%Z then [] else [(lit "id", JNum (LogEvent.ID e))])
        ++ [(lit "deployment_id", JStr (LogEvent.DeploymentID e)); (lit "stream", JStr (LogEvent.Stream e));
            (lit "message", JStr (LogEvent.Message e)); (lit "created_at", time_MarshalJSON (LogEvent.CreatedAt e))]).

Definition int64_ok (z : Z) : bool := ((- 9223372036854775808 <=? z) && (z <=? 9223372036854775807))%Z.

(** [json.Unmarshal] of one member into the struct. *)
Definition set_event_field (key : str) (v : json) (e : LogEvent.t) : result LogEvent.t :=
  let '(LogEvent.mk id dep stream message created) := e in
  let named n := field_match n key in
  let text (k : str -> LogEvent.t) := match v with JStr s => inl (k s) | JNull => inl e | _ => inr unmarshal_error end in
  if named (lit "id") then
    match v with
    | JNum z => if int64_ok z then inl (LogEvent.mk z dep stream message created) else inr unmarshal_error
    | JNull => inl e
    | _ => inr unmarshal_error
    end
  else if named (lit "deployment_id") then text (fun s => LogEvent.mk id s stream message created)
  else if named (lit "stream") then text (fun s => LogEvent.mk id dep s message created)
  else if named (lit "message") then text (fun s => LogEvent.mk id dep stream s created)
  else if named (lit "created_at") then
    let? t := time_UnmarshalJSON v in inl (LogEvent.mk id dep stream message t)
  else inl e.

Fixpoint set_event_fields (l : list (str * json)) (e : LogEvent.t) : result LogEvent.t :=
  match l with
  | [] => inl e
  | (key, v) :: t => let? e' := set_event_field key v e in set_event_fields t e'
  end.

Definition zeroEvent : LogEvent.t := LogEvent.mk 0 [] [] [] None.

Definition unmarshal_event (payload : str) : result LogEvent.t :=
  let? (v, rest) := Decode payload in
  if negb (skip_ws rest =s []) then inr (ErrText "invalid character after top-level value")
  else match v with
       | JObj fields => set_event_fields fields zeroEvent
       | JNull => inl zeroEvent
       | _ => inr unmarshal_error
       end.

(** What [Publish] hands to Redis: the channel and the payload. *)
Definition redis_publish (event : LogEvent.t) : str * str :=
  (logChannel (LogEvent.DeploymentID event), json_Marshal (event_json event)).

(** One message of the loop of [subscribeRedis]: the event it sends on, if any. *)
Definition redis_deliver (deploymentID payload : str) : option LogEvent.t :=
  match unmarshal_event payload with
  | inr _ => None
  | inl event => if shouldDeliverLogEvent deploymentID event then Some event else None
  end.
End Redis.
