(* ===== verification/GoJsonFacts.v ===== *)
(** * Lemmas on reading and writing JSON

    The parser never runs out of the fuel [Decode] gives it, and a string that
    is valid UTF-8 is read back as it was marshalled. *)

From S2P Require Import Prelude GoStrings GoStringsFacts GoJson.

(** ** Fuel *)

Lemma skip_ws_length s : (length (skip_ws s) <= length s)%nat.
Proof.
  unfold skip_ws. destruct (drop_while_suffix is_ws s) as (d & E & _). rewrite E at 2. rewrite length_app. lia.
Qed.

Lemma scan_string_length st s body rest :
  scan_string st s = SDone body rest -> (length rest < length s)%nat.
Proof.
  revert st body. induction s as [|c t IH]; intros st body; [done|]. cbn [scan_string length].
  assert (Hc : forall st', match scan_string st' t with SDone b r => SDone (c :: b) r | r => r end = SDone body rest ->
                 (length rest < S (length t))%nat).
  { intros st'. destruct (scan_string st' t) eqn:E; try done. intros [= <- <-]. apply IH in E. lia. }
  destruct st as [| |n].
  - destruct (_ =? _)%N; [intros [= <- <-]; lia|]. destruct (_ =? _)%N; [apply Hc|].
    destruct (_ <? _)%N; [done|apply Hc].
  - destruct (escape_char _); [apply Hc|]. destruct (_ =? _)%N; [apply Hc|done].
  - destruct (hex_rune _); [|done]. apply Hc.
Qed.

Lemma drop_while_le {A} (p : A -> bool) l : (length (drop_while p l) <= length l)%nat.
Proof. destruct (drop_while_suffix p l) as (d & E & _). rewrite E at 2. rewrite length_app. lia. Qed.

Lemma scan_exponent_length i b s v rest :
  scan_exponent i b s = NDone v rest -> (length rest <= length s)%nat.
Proof.
  destruct s as [|e t]; cbn [scan_exponent length]; [intros [= _ <-]; simpl; lia|].
  destruct (_ || _); [|intros [= _ <-]; cbn [length]; lia].
  assert (Hsign : forall sign t1, (match t with
      | c :: u => if ((b2n c =? 43) || (b2n c =? 45))%N then ([c], u) else ([], t) | [] => ([], t) end) = (sign, t1) ->
      (length t1 <= length t)%nat).
  { intros sign t1. destruct t as [|c u]; [intros [= _ <-]; lia|]. destruct (_ || _); intros [= _ <-]; cbn [length]; lia. }
  destruct (match t with [] => _ | _ => _ end) as [sign t1] eqn:E. specialize (Hsign _ _ eq_refl).
  destruct t1 as [|d u]; [done|]. destruct (is_dig d) eqn:Ed; [|done]. cbn [drop_while]. rewrite Ed. intros [= _ <-].
  pose proof (drop_while_le is_dig u) as Hle. cbn [length] in *. lia.
Qed.

Lemma scan_fraction_length z b s v rest :
  scan_fraction z b s = NDone v rest -> (length rest <= length s)%nat.
Proof.
  destruct s as [|p t]; cbn [scan_fraction]; [apply scan_exponent_length|].
  destruct (_ =? _)%N; [|apply scan_exponent_length]. destruct t as [|d u]; [done|].
  destruct (is_dig d); [|done]. intros Hs. apply scan_exponent_length in Hs.
  pose proof (drop_while_le is_dig (d :: u)) as Hle. cbn [length] in *. lia.
Qed.

Lemma scan_number_length s v rest : scan_number s = NDone v rest -> (length rest < length s)%nat.
Proof.
  unfold scan_number.
  assert (Ht : forall neg t, (match s with c :: u => if (b2n c =? 45)%N then (true, u) else (false, s) | [] => (false, s) end)
                 = (neg, t) -> (length t <= length s)%nat).
  { intros neg t. destruct s as [|c u]; [intros [= _ <-]; lia|]. destruct (_ =? _)%N; intros [= _ <-]; cbn [length]; lia. }
  destruct (match s with [] => _ | _ => _ end) as [neg t] eqn:E. specialize (Ht _ _ eq_refl). cbv zeta.
  destruct t as [|d u]; [done|]. destruct (b2n d =? 48)%N.
  - intros Hs. apply scan_fraction_length in Hs. cbn [length] in Ht. lia.
  - destruct (is_dig d) eqn:Ed; [|done]. intros Hs. apply scan_fraction_length in Hs.
    cbn [drop_while] in Hs. rewrite Ed in Hs. pose proof (drop_while_le is_dig u) as Hle. cbn [length] in *. lia.
Qed.

Lemma scan_literal_length w v s v' rest :
  scan_literal w v s = PVal v' rest -> (length rest + length w = length s)%nat.
Proof.
  revert s. induction w as [|c w IH]; intros s; cbn [scan_literal]; [intros [= _ <-]; simpl; lia|].
  destruct s as [|d t]; [done|]. case_bool_decide; [|done]. intros Hs. apply IH in Hs. cbn [length]. lia.
Qed.

Lemma scan_literal_fuel w v s : scan_literal w v s <> PFuel.
Proof. revert s. induction w as [|c w IH]; intros s; [done|]. destruct s; [done|]. cbn. by case_bool_decide. Qed.

(** A result that used up at least one byte and did not run out of fuel. *)
Definition progress (r : parse_result) (s : str) : Prop :=
  match r with PFuel => False | PVal _ rest => (length rest < length s)%nat | _ => True end.

Lemma progress_weaken r s s' : progress r s -> (length s <= length s')%nat -> progress r s'.
Proof. destruct r; cbn; try done. lia. Qed.

Lemma progress_literal c w v s : progress (scan_literal (c :: w) v s) s.
Proof.
  destruct (scan_literal (c :: w) v s) eqn:E; cbn; try done; [|by apply scan_literal_fuel in E].
  apply scan_literal_length in E. cbn [length] in E. lia.
Qed.

Lemma parse_progress fuel :
  (forall depth s, (2 * length s < fuel)%nat -> progress (parse_value fuel depth s) s)
  /\ (forall depth acc s, (2 * length s < fuel)%nat -> progress (parse_members fuel depth acc s) s)
  /\ (forall depth acc s, (2 * length s + 1 < fuel)%nat -> progress (parse_elements fuel depth acc s) s).
Proof.
  induction fuel as [|fuel (IHv & IHm & IHe)]; [repeat split; lia|]. split; [|split].
  - intros depth s Hf. cbn [parse_value]. pose proof (skip_ws_length s) as Hs.
    destruct (skip_ws s) as [|c t]; [done|]. cbv zeta. apply progress_weaken with (c :: t); [|done].
    cbn [length] in Hs. pose proof (skip_ws_length t) as Ht.
    destruct (b2n c =? 34)%N.
    { destruct (scan_string SText t) eqn:E; try done. apply scan_string_length in E. cbn. lia. }
    destruct (b2n c =? 123)%N.
    { destruct (_ <? _)%N; [done|]. destruct (skip_ws t) as [|c1 t1]; [done|]. cbn [length] in Ht.
      destruct (_ =? _)%N; [cbn; lia|]. apply progress_weaken with (c1 :: t1); [apply IHm|]; cbn [length]; lia. }
    destruct (b2n c =? 91)%N.
    { destruct (_ <? _)%N; [done|]. destruct (skip_ws t) as [|c1 t1]; [done|]. cbn [length] in Ht.
      destruct (_ =? _)%N; [cbn; lia|]. apply progress_weaken with (c1 :: t1); [apply IHe|]; cbn [length]; lia. }
    destruct (_ || _).
    { destruct (scan_number (c :: t)) eqn:E; try done. by apply scan_number_length in E. }
    destruct (_ =? _)%N; [apply progress_literal|]. destruct (_ =? _)%N; [apply progress_literal|].
    destruct (_ =? _)%N; [apply progress_literal|done].
  - intros depth acc s Hf. cbn [parse_members]. pose proof (skip_ws_length s) as Hs.
    destruct (skip_ws s) as [|q t]; [done|]. cbn [length] in Hs. destruct (_ =? _)%N; [|done].
    destruct (scan_string SText t) as [body t1| |] eqn:E; try done. apply scan_string_length in E.
    pose proof (skip_ws_length t1) as H1. destruct (skip_ws t1) as [|colon t2]; [done|]. cbn [length] in H1.
    destruct (_ =? _)%N; [|done]. assert (Hv : progress (parse_value fuel depth t2) t2) by (apply IHv; lia).
    destruct (parse_value fuel depth t2) as [v t3| | |]; try done. cbn in Hv.
    pose proof (skip_ws_length t3) as H3. destruct (skip_ws t3) as [|c t4]; [done|]. cbn [length] in H3.
    destruct (_ =? _)%N; [apply progress_weaken with t4; [apply IHm; lia|lia]|].
    destruct (_ =? _)%N; [cbn; lia|done].
  - intros depth acc s Hf. cbn [parse_elements]. assert (Hv : progress (parse_value fuel depth s) s) by (apply IHv; lia).
    destruct (parse_value fuel depth s) as [v t| | |]; try done. cbn in Hv.
    pose proof (skip_ws_length t) as Ht. destruct (skip_ws t) as [|c t1]; [done|]. cbn [length] in Ht.
    destruct (_ =? _)%N; [apply progress_weaken with t1; [apply IHe; lia|lia]|].
    destruct (_ =? _)%N; [cbn; lia|done].
Qed.

(** [Decode] gives the parser enough fuel for every text. *)
Lemma parse_enough s : parse_value (parse_fuel s) 0 s <> PFuel.
Proof.
  intros E. pose proof (proj1 (parse_progress (parse_fuel s)) 0%N s) as Hp. rewrite E in Hp. apply Hp.
  unfold parse_fuel. lia.
Qed.

(** ** Strings *)

Lemma runes_app_ascii a t : is_ascii a = true -> runes (a ++ t) = map b2n a ++ runes t.
Proof.
  induction a as [|c a IH]; [done|]. intros Ha. cbn [is_ascii forallb] in Ha. apply andb_true_iff in Ha as [Hc Ha].
  unfold runes. cbn [app decode]. rewrite Hc. cbn [map app fst]. f_equal. by apply IH.
Qed.

(** Computes the scanner on known bytes. *)
Ltac scan_step :=
  repeat match goal with
  | |- context [json_escape_byte ?c] => let v := eval vm_compute in (json_escape_byte c) in change (json_escape_byte c) with v
  end;
  simpl.

(** A byte escape is ASCII, scans as part of the text and reads back. *)
Lemma escape_byte_reads c :
  (b2n c < 128)%N ->
  is_ascii (json_escape_byte c) = true
  /\ (forall t, scan_string SText (json_escape_byte c ++ t)
        = match scan_string SText t with SDone b r => SDone (json_escape_byte c ++ b) r | r => r end)
  /\ (forall rest, unquote_runes (map b2n (json_escape_byte c) ++ rest) = b2n c :: unquote_runes rest).
Proof.
  intros Hc. destruct c as [b0 b1 b2 b3 b4 b5 b6 [|]]; [exfalso; destruct b0, b1, b2, b3, b4, b5, b6; done|].
  destruct b0, b1, b2, b3, b4, b5, b6; (split; [reflexivity|split; [|reflexivity]]);
    intros t; scan_step; destruct (scan_string SText t); reflexivity.
Qed.

Lemma scan_large bytes t :
  forallb (fun c => 128 <=? b2n c)%N bytes = true ->
  scan_string SText (bytes ++ t) = match scan_string SText t with SDone b r => SDone (bytes ++ b) r | r => r end.
Proof.
  induction bytes as [|c l IH]; [by simpl; destruct (scan_string SText t)|]. cbn [forallb]. intros Hb.
  apply andb_true_iff in Hb as [Hc Hl]. apply N.leb_le in Hc. cbn [app scan_string].
  assert ((b2n c =? 34)%N = false) as -> by (apply N.eqb_neq; lia).
  assert ((b2n c =? 92)%N = false) as -> by (apply N.eqb_neq; lia).
  assert ((b2n c <? 32)%N = false) as -> by (apply N.ltb_ge; lia).
  rewrite IH by done. by destruct (scan_string SText t).
Qed.

Definition reads_seg (g : seg) (esc : str) : Prop :=
  (forall t, scan_string SText (esc ++ t) = match scan_string SText t with SDone b r => SDone (esc ++ b) r | r => r end)
  /\ exists l, (forall t, runes (esc ++ t) = l ++ runes t)
               /\ forall rest, unquote_runes (l ++ rest) = g.1 :: unquote_runes rest.

Lemma reads_large g : good_seg g -> forallb (fun c => 128 <=? b2n c)%N g.2 = true -> (128 <= g.1)%N ->
  reads_seg g g.2.
Proof.
  intros Hg Hb Hr. split; [intros t; by apply scan_large|]. exists [g.1]. split.
  - intros t. unfold runes. by rewrite decode_good.
  - intros rest. cbn [app unquote_runes].
    assert ((g.1 =? 92)%N = false) as -> by (apply N.eqb_neq; lia). done.
Qed.

Lemma escape_seg_reads g : good_seg g -> reads_seg g (json_escape_seg g).
Proof.
  intros Hg. pose proof Hg as Hg'. destruct Hg as [c Hc|c0 c1 r Hd|c0 c1 c2 r Hd|c0 c1 c2 c3 r Hd].
  - unfold json_escape_seg. cbn [fst snd]. apply N.ltb_lt in Hc as Hc'. rewrite Hc'.
    destruct (escape_byte_reads c Hc) as (Ha & Hs & Hu). split; [exact Hs|].
    exists (map b2n (json_escape_byte c)). split; [|exact Hu]. intros t. by apply runes_app_ascii.
  - apply dec2_range in Hd as (H0 & H1 & Hr).
    replace (json_escape_seg (r, [c0; c1])) with (snd (r, [c0; c1])).
    + apply reads_large; [done| |cbn; lia]. cbn [snd forallb]. rewrite !andb_true_iff, !N.leb_le. lia.
    + unfold json_escape_seg. cbn [fst snd].
      assert ((r =? 8232)%N = false) as -> by (apply N.eqb_neq; lia).
      assert ((r =? 8233)%N = false) as -> by (apply N.eqb_neq; lia). done.
  - unfold json_escape_seg. cbn [fst snd]. apply dec3_range in Hd as (H0 & H1 & H2 & H3 & _ & Hr).
    destruct (N.eqb_spec r 8232) as [->|N1].
    { split; [intros t; simpl; by destruct (scan_string SText t)|]. exists (map b2n (byte 92 ++ lit "u2028")).
      split; [intros t; by apply runes_app_ascii|reflexivity]. }
    destruct (N.eqb_spec r 8233) as [->|N2].
    { split; [intros t; simpl; by destruct (scan_string SText t)|]. exists (map b2n (byte 92 ++ lit "u2029")).
      split; [intros t; by apply runes_app_ascii|reflexivity]. }
    apply (reads_large (r, [c0; c1; c2])); [done| |cbn [fst]; lia].
    cbn [snd forallb]. rewrite !andb_true_iff, !N.leb_le. lia.
  - apply dec4_range in Hd as (H0 & H1 & H2 & H3 & H4 & _ & Hr).
    replace (json_escape_seg (r, [c0; c1; c2; c3])) with (snd (r, [c0; c1; c2; c3])).
    + apply reads_large; [done| |cbn; lia]. cbn [snd forallb]. rewrite !andb_true_iff, !N.leb_le. lia.
    + unfold json_escape_seg. cbn [fst snd].
      assert ((r =? 8232)%N = false) as -> by (apply N.eqb_neq; lia).
      assert ((r =? 8233)%N = false) as -> by (apply N.eqb_neq; lia). done.
Qed.

Lemma escape_segs_read l :
  Forall good_seg l ->
  (forall t, scan_string SText (concat (map json_escape_seg l) ++ dquote ++ t) = SDone (concat (map json_escape_seg l)) t)
  /\ unquote_runes (runes (concat (map json_escape_seg l))) = map fst l.
Proof.
  induction 1 as [|g l Hg _ [IHs IHu]]; [by split|]. destruct (escape_seg_reads g Hg) as [Hs (rs & Hr & Hu)].
  cbn [map concat]. split.
  - intros t. rewrite <- app_assoc, Hs. by rewrite IHs.
  - by rewrite Hr, Hu, IHu.
Qed.

(** A marshalled string is a quote, a body the scanner accepts, and the string
    again after unquoting. *)
Lemma json_string_reads s t :
  valid_utf8 s = true ->
  exists body, json_string s = dquote ++ body ++ dquote
    /\ scan_string SText (body ++ dquote ++ t) = SDone body t /\ unquote body = s.
Proof.
  intros Hv. apply valid_utf8_good in Hv as Hg. destruct (escape_segs_read _ Hg) as [Hs Hu].
  exists (concat (map json_escape_seg (decode s))). split; [done|]. split; [apply Hs|].
  unfold unquote. rewrite Hu. by apply encode_runes.
Qed.

Lemma parse_string s t fuel depth :
  valid_utf8 s = true -> parse_value (S fuel) depth (json_string s ++ t) = PVal (JStr s) t.
Proof.
  intros Hv. destruct (json_string_reads s t Hv) as (body & -> & Hs & Hu).
  rewrite <- !app_assoc. set (u := body ++ dquote ++ t) in *. cbn [parse_value app dquote byte skip_ws drop_while].
  change (is_ws (ascii_of_N 34)) with false. change (b2n (ascii_of_N 34)) with 34%N. cbn iota.
  change (34 =? 34)%N with true. cbn iota. rewrite Hs. by rewrite Hu.
Qed.

(** One member of an object. *)
Lemma parse_member_last key v w t fuel depth acc :
  valid_utf8 key = true -> parse_value fuel depth (w ++ lit "}" ++ t) = PVal v (lit "}" ++ t) ->
  parse_members (S fuel) depth acc (json_string key ++ lit ":" ++ w ++ lit "}" ++ t)
  = PVal (JObj (acc ++ [(key, v)])) t.
Proof.
  intros Hk Hv. destruct (json_string_reads key (lit ":" ++ w ++ lit "}" ++ t) Hk) as (body & -> & Hs & Hu).
  rewrite <- !app_assoc. set (u := body ++ dquote ++ _) in *. cbn [parse_members app dquote byte skip_ws drop_while].
  change (is_ws (ascii_of_N 34)) with false. change (b2n (ascii_of_N 34)) with 34%N. cbn iota.
  change (34 =? 34)%N with true. cbn iota. rewrite Hs.
  cbn [lit String.list_ascii_of_string app skip_ws drop_while].
  change (is_ws ":"%char) with false. cbn iota. change (b2n ":"%char =? 58)%N with true. cbn iota.
  change (w ++ "}"%char :: t) with (w ++ lit "}" ++ t). rewrite Hv.
  cbn [lit String.list_ascii_of_string app skip_ws drop_while].
  change (is_ws "}"%char) with false. cbn iota. change (b2n "}"%char =? 44)%N with false.
  change (b2n "}"%char =? 125)%N with true. cbn iota. by rewrite Hu.
Qed.

(** * Marshalling and reading back JSON values

    A value whose strings are valid UTF-8, whose numbers are integers and whose
    nesting is within the limit is read back from its own text, in any context
    that can follow a value. *)

(** ** Integers *)

Definition single_digits : list N := [0; 1; 2; 3; 4; 5; 6; 7; 8; 9]%N.

Lemma single_digit (p : N -> bool) n : forallb p single_digits = true -> (n < 10)%N -> p n = true.
Proof.
  intros Hp Hn. rewrite forallb_forall in Hp. apply Hp. cbn. lia.
Qed.

Lemma is_dig_pretty_char n : (n < 10)%N -> is_dig (pretty_N_char n) = true.
Proof. by apply (single_digit (fun n => is_dig (pretty_N_char n))). Qed.

Lemma digits_value_app ds c : digits_value (ds ++ [c]) = (digits_value ds * 10 + Z.of_N (b2n c - 48))%Z.
Proof. unfold digits_value. by rewrite fold_left_app. Qed.

Lemma pretty_char_value n : (n < 10)%N -> (b2n (pretty_N_char n) - 48 = n)%N.
Proof.
  intros Hn. apply N.eqb_eq.
  by apply (single_digit (fun n => (b2n (pretty_N_char n) - 48 =? n)%N)).
Qed.

(** The decimal digits of a positive number: no leading zero. *)
Definition decimal (n : N) (ds : str) : Prop :=
  forallb is_dig ds = true /\ digits_value ds = Z.of_N n
  /\ exists c t, ds = c :: t /\ (b2n c =? 48)%N = false.

Lemma pretty_go_decimal n :
  (0 < n)%N -> exists ds, decimal n ds /\ forall s, lit (pretty_N_go n s) = ds ++ lit s.
Proof.
  induction n as [n IH] using (well_founded_induction N.lt_wf_0). intros Hn.
  assert (Hm : (n mod 10 < 10)%N) by (apply N.mod_lt; lia).
  destruct (N.eq_dec (n / 10) 0) as [E|E].
  - exists [pretty_N_char n]. assert (n < 10)%N as Hlt by (apply N.div_small_iff in E; lia).
    split.
    + split; [cbn [forallb]; by rewrite is_dig_pretty_char|].
      split; [unfold digits_value; cbn [fold_left]; rewrite pretty_char_value by done; lia|].
      exists (pretty_N_char n), []. split; [done|]. apply N.eqb_neq. intros Hx.
      assert (Hv := pretty_char_value n Hlt). rewrite Hx in Hv. lia.
    + intros s. rewrite pretty_N_go_step by lia. rewrite E, N.mod_small by lia.
      replace (pretty_N_go 0 _) with (String (pretty_N_char n) s) by (symmetry; apply pretty_N_go_0). done.
  - destruct (IH (n / 10)%N) as (ds & (Hd & Hv & c & t & Ed & Hc) & Hs); [by apply N.div_lt|by apply N.neq_0_lt_0|].
    exists (ds ++ [pretty_N_char (n mod 10)]). split.
    + split; [rewrite forallb_app, Hd; cbn [forallb]; by rewrite is_dig_pretty_char|].
      split; [rewrite digits_value_app, Hv, pretty_char_value by done; rewrite (N.Div0.div_mod n 10) at 3; lia|].
      exists c, (t ++ [pretty_N_char (n mod 10)]). by rewrite Ed.
    + intros s. rewrite pretty_N_go_step by lia. rewrite Hs. by rewrite <- app_assoc.
Qed.

(** What may follow a value: nothing, a blank or a separator. *)
Definition ends_value (rest : str) : bool :=
  match rest with
  | [] => true
  | c :: _ => is_ws c || (b2n c =? 44)%N || (b2n c =? 93)%N || (b2n c =? 125)%N
  end.

Lemma ends_value_char c t :
  ends_value (c :: t) = true ->
  is_dig c = false /\ (b2n c =? 46)%N = false /\ ((b2n c =? 101)%N || (b2n c =? 69)%N) = false.
Proof.
  intros He. destruct c as [b0 b1 b2 b3 b4 b5 b6 b7].
  destruct b0, b1, b2, b3, b4, b5, b6, b7; first [discriminate He|by repeat split].
Qed.

Lemma scan_fraction_ends z b rest : ends_value rest = true -> scan_fraction z b rest = NDone (JNum z) rest.
Proof.
  destruct rest as [|c t]; [done|]. intros He. apply ends_value_char in He as (_ & Hp & Hx).
  cbn [scan_fraction scan_exponent]. by rewrite Hp, Hx.
Qed.

Lemma take_drop_while_app {A} (p : A -> bool) ds rest :
  forallb p ds = true -> (match rest with [] => True | c :: _ => p c = false end) ->
  take_while p (ds ++ rest) = ds /\ drop_while p (ds ++ rest) = rest.
Proof.
  intros Hd Hr. induction ds as [|x ds IH].
  - destruct rest as [|c t]; [done|]. cbn. by rewrite Hr.
  - cbn in Hd. apply andb_true_iff in Hd as [Hx Hd]. cbn. rewrite Hx. destruct (IH Hd) as [-> ->]. done.
Qed.

Lemma scan_decimal (neg : bool) n ds rest :
  decimal n ds -> ends_value rest = true ->
  scan_number ((if neg then lit "-" else []) ++ ds ++ rest)
  = NDone (JNum (if neg then - Z.of_N n else Z.of_N n)) rest.
Proof.
  intros (Hd & Hv & c & t & Ed & Hc) He.
  destruct (take_drop_while_app is_dig ds rest Hd) as [Ht Hr].
  { destruct rest as [|x u]; [done|]. by apply ends_value_char in He as [-> _]. }
  assert (Hdig : is_dig c = true) by (rewrite Ed in Hd; cbn in Hd; by apply andb_true_iff in Hd as [? _]).
  assert (Hminus : (b2n c =? 45)%N = false).
  { apply N.eqb_neq. intros Hx. unfold is_dig in Hdig. by rewrite Hx in Hdig. }
  unfold scan_number.
  assert (Hsplit : (match (if neg then lit "-" else []) ++ ds ++ rest with
      | c :: u => if (b2n c =? 45)%N then (true, u) else (false, (if neg then lit "-" else []) ++ ds ++ rest)
      | [] => (false, (if neg then lit "-" else []) ++ ds ++ rest) end) = (neg, ds ++ rest)).
  { destruct neg; [reflexivity|]. rewrite Ed. cbn [app]. by rewrite Hminus. }
  rewrite Hsplit. cbv zeta. rewrite Ht, Hr. rewrite Ed at 1. cbn [app]. rewrite Hc, Hdig, Hv.
  by rewrite scan_fraction_ends.
Qed.

Lemma scan_fmt_d z rest : ends_value rest = true -> scan_number (fmt_d z ++ rest) = NDone (JNum z) rest.
Proof.
  intros He. unfold fmt_d. destruct z as [|p|p].
  - change (lit (pretty 0%Z)) with (lit "0"). unfold scan_number. cbn [lit String.list_ascii_of_string app].
    change (b2n "0"%char =? 45)%N with false. change (b2n "0"%char =? 48)%N with true. cbn iota. cbv zeta.
    by apply scan_fraction_ends.
  - destruct (pretty_go_decimal (N.pos p)) as (ds & Hd & Hs); [lia|].
    change (lit (pretty (Z.pos p))) with (lit (pretty_N_go (N.pos p) "")). rewrite Hs. cbn [lit String.list_ascii_of_string].
    rewrite app_nil_r. exact (scan_decimal false (N.pos p) ds rest Hd He).
  - destruct (pretty_go_decimal (N.pos p)) as (ds & Hd & Hs); [lia|].
    change (lit (pretty (Z.neg p))) with (lit "-" ++ lit (pretty_N_go (N.pos p) "")). rewrite Hs. cbn [lit String.list_ascii_of_string].
    rewrite app_nil_r, <- app_assoc. exact (scan_decimal true (N.pos p) ds rest Hd He).
Qed.

(** The first byte of a number. *)
Lemma fmt_d_head z : exists c t, fmt_d z = c :: t /\ ((b2n c =? 45)%N || is_dig c) = true.
Proof.
  unfold fmt_d. destruct z as [|p|p]; [by exists "0"%char, []| |].
  - destruct (pretty_go_decimal (N.pos p)) as (ds & (Hd & _ & c & t & -> & _) & Hs); [lia|].
    change (lit (pretty (Z.pos p))) with (lit (pretty_N_go (N.pos p) "")). rewrite Hs. eexists _, _. split; [done|].
    cbn in Hd. apply andb_true_iff in Hd as [-> _]. apply orb_true_r.
  - by eexists _, _.
Qed.

(** ** Values *)

Fixpoint json_ok (depth : N) (j : json) : bool :=
  match j with
  | JStr s => valid_utf8 s
  | JReal _ => false
  | JArr l => (depth + 1 <=? maxNestingDepth)%N && forallb (json_ok (depth + 1)) l
  | JObj l => (depth + 1 <=? maxNestingDepth)%N && forallb (fun p => valid_utf8 p.1 && json_ok (depth + 1) p.2) l
  | JNull | JBool _ | JNum _ => true
  end.

Section JsonInd.
Variable P : json -> Prop.
Hypothesis Hnull : P JNull.
Hypothesis Hbool : forall b, P (JBool b).
Hypothesis Hnum : forall z, P (JNum z).
Hypothesis Hreal : forall s, P (JReal s).
Hypothesis Hstr : forall s, P (JStr s).
Hypothesis Harr : forall l, Forall P l -> P (JArr l).
Hypothesis Hobj : forall l, Forall (fun p => P p.2) l -> P (JObj l).

Fixpoint json_nested_ind (j : json) : P j :=
  match j with
  | JNull => Hnull
  | JBool b => Hbool b
  | JNum z => Hnum z
  | JReal s => Hreal s
  | JStr s => Hstr s
  | JArr l => Harr l ((fix go l := match l return Forall P l with
                       | [] => Forall_nil_2 _ | x :: t => Forall_cons_2 _ _ _ (json_nested_ind x) (go t) end) l)
  | JObj l => Hobj l ((fix go l := match l return Forall (fun p => P p.2) l with
                       | [] => Forall_nil_2 _ | x :: t => Forall_cons_2 _ _ _ (json_nested_ind x.2) (go t) end) l)
  end.
End JsonInd.

Definition starts_value (s : str) : Prop :=
  exists c t, s = c :: t /\ is_ws c = false /\ (b2n c =? 93)%N = false /\ (b2n c =? 125)%N = false.

Lemma marshal_starts depth j : json_ok depth j = true -> starts_value (json_Marshal j).
Proof.
  destruct j as [|[]|z|s|s|l|l]; intros Hj; try (eexists _, _; split; [reflexivity|by repeat split]); [|done].
  destruct (fmt_d_head z) as (c & t & E & Hc). cbn [json_Marshal]. exists c, t. split; [done|].
  destruct c as [b0 b1 b2 b3 b4 b5 b6 b7]. destruct b0, b1, b2, b3, b4, b5, b6, b7; first [discriminate Hc|by repeat split].
Qed.

Lemma skip_ws_starts s rest : starts_value s -> skip_ws (s ++ rest) = s ++ rest.
Proof. intros (c & t & -> & Hc & _). unfold skip_ws. cbn. by rewrite Hc. Qed.

Definition reads_back (depth : N) (j : json) : Prop :=
  forall rest fuel, ends_value rest = true -> (2 * length (json_Marshal j ++ rest) < fuel)%nat ->
    parse_value fuel depth (json_Marshal j ++ rest) = PVal j rest.

Lemma ends_comma t : ends_value (lit "," ++ t) = true. Proof. done. Qed.
Lemma ends_bracket t : ends_value (lit "]" ++ t) = true. Proof. done. Qed.
Lemma ends_brace t : ends_value (lit "}" ++ t) = true. Proof. done. Qed.

Lemma marshal_nonempty depth j : json_ok depth j = true -> (1 <= length (json_Marshal j))%nat.
Proof. intros Hj. destruct (marshal_starts _ _ Hj) as (c & t & -> & _). simpl. lia. Qed.

Lemma parse_elements_back depth l : forall acc rest fuel,
  l <> [] -> Forall (reads_back depth) l -> forallb (json_ok depth) l = true ->
  (2 * length (Join (map json_Marshal l) (lit ",") ++ lit "]" ++ rest) + 1 < fuel)%nat ->
  parse_elements fuel depth acc (Join (map json_Marshal l) (lit ",") ++ lit "]" ++ rest) = PVal (JArr (acc ++ l)) rest.
Proof.
  induction l as [|j l IH]; intros acc rest fuel Hne Hf Hok Hfuel; [done|].
  apply Forall_cons in Hf as [Hj Hf]. cbn [forallb] in Hok. apply andb_true_iff in Hok as [Hokj Hok].
  destruct fuel as [|fuel]; [lia|]. destruct l as [|k l].
  - cbn [map Join] in *. cbn [parse_elements]. rewrite (Hj (lit "]" ++ rest) fuel) by (done || lia).
    cbn [lit String.list_ascii_of_string app]. change (skip_ws ("]"%char :: rest)) with ("]"%char :: rest).
    change (b2n "]"%char =? 44)%N with false. change (b2n "]"%char =? 93)%N with true. reflexivity.
  - assert (HJ : Join (map json_Marshal (j :: k :: l)) (lit ",") ++ lit "]" ++ rest
             = json_Marshal j ++ lit "," ++ Join (map json_Marshal (k :: l)) (lit ",") ++ lit "]" ++ rest).
    { cbn [map Join]. by rewrite <- !app_assoc. }
    rewrite HJ in *. set (more := Join (map json_Marshal (k :: l)) (lit ",") ++ lit "]" ++ rest) in *.
    cbn [parse_elements]. rewrite (Hj (lit "," ++ more) fuel) by (done || lia).
    cbn [lit String.list_ascii_of_string app]. change (skip_ws (","%char :: more)) with (","%char :: more).
    change (b2n ","%char =? 44)%N with true. cbn iota. unfold more. rewrite (IH (acc ++ [j])); try done.
    + by rewrite <- app_assoc.
    + fold more. rewrite !length_app in Hfuel. pose proof (marshal_nonempty _ _ Hokj). simpl in Hfuel. lia.
Qed.

Definition member_text (p : str * json) : str := json_string p.1 ++ lit ":" ++ json_Marshal p.2.

Lemma parse_members_back depth l : forall acc rest fuel,
  l <> [] -> Forall (fun p => reads_back depth p.2) l ->
  forallb (fun p => valid_utf8 p.1 && json_ok depth p.2) l = true ->
  (2 * length (Join (map member_text l) (lit ",") ++ lit "}" ++ rest) < fuel)%nat ->
  parse_members fuel depth acc (Join (map member_text l) (lit ",") ++ lit "}" ++ rest) = PVal (JObj (acc ++ l)) rest.
Proof.
  induction l as [|[key j] l IH]; intros acc rest fuel Hne Hf Hok Hfuel; [done|].
  apply Forall_cons in Hf as [Hj Hf]. cbn [forallb fst snd] in *. apply andb_true_iff in Hok as [Hokj Hok].
  apply andb_true_iff in Hokj as [Hkey Hokj].
  destruct fuel as [|fuel]; [lia|].
  set (more := match l with [] => lit "}" ++ rest | _ => lit "," ++ Join (map member_text l) (lit ",") ++ lit "}" ++ rest end).
  assert (HJ : Join (map member_text ((key, j) :: l)) (lit ",") ++ lit "}" ++ rest
           = json_string key ++ lit ":" ++ json_Marshal j ++ more).
  { unfold more. destruct l; cbn [map Join]; unfold member_text; cbn [fst snd]; by rewrite <- !app_assoc. }
  rewrite HJ in *. clear HJ.
  destruct (json_string_reads key (lit ":" ++ json_Marshal j ++ more) Hkey) as (body & Hstr & Hscan & Hun).
  rewrite Hstr in *. rewrite <- !app_assoc in *.
  assert (Hlen : (2 * length (json_Marshal j ++ more) < fuel)%nat).
  { rewrite !length_app in Hfuel. rewrite length_app. simpl in Hfuel. lia. }
  assert (Hends : ends_value more = true) by (unfold more; by destruct l).
  set (u := body ++ dquote ++ _) in *. cbn [parse_members app dquote byte skip_ws drop_while].
  change (is_ws (ascii_of_N 34)) with false. change (b2n (ascii_of_N 34)) with 34%N. cbn iota.
  change (34 =? 34)%N with true. cbn iota. rewrite Hscan.
  cbn [lit String.list_ascii_of_string app skip_ws drop_while].
  change (is_ws ":"%char) with false. cbn iota. change (b2n ":"%char =? 58)%N with true. cbn iota.
  rewrite (Hj more fuel Hends Hlen). unfold more. destruct l as [|p l].
  - cbn [lit String.list_ascii_of_string app]. change (skip_ws ("}"%char :: rest)) with ("}"%char :: rest).
    change (b2n "}"%char =? 44)%N with false. change (b2n "}"%char =? 125)%N with true. cbn iota. by rewrite Hun.
  - set (tail := Join (map member_text (p :: l)) (lit ",") ++ lit "}" ++ rest).
    change (skip_ws (lit "," ++ tail)) with (","%char :: tail).
    change (b2n ","%char =? 44)%N with true. cbn iota. rewrite Hun. unfold tail. rewrite (IH (acc ++ [(key, j)])); try done.
    + by rewrite <- app_assoc.
    + unfold more in Hlen. rewrite !length_app in Hlen. pose proof (marshal_nonempty _ _ Hokj).
      rewrite !length_app. simpl in Hlen |- *. lia.
Qed.

(** Values read back from their text. *)
Lemma parse_marshal j : forall depth, json_ok depth j = true -> reads_back depth j.
Proof.
  induction j as [|b|z|s|s|l IH|l IH] using json_nested_ind; intros depth Hok rest fuel He Hf;
    (destruct fuel as [|fuel]; [lia|]).
  - reflexivity.
  - by destruct b.
  - cbn [json_Marshal] in *. destruct (fmt_d_head z) as (c & t & E & Hc). pose proof (scan_fmt_d z rest He) as Hs.
    rewrite E in *. cbn [app] in *. cbn [parse_value].
    assert (Hw : skip_ws (c :: t ++ rest) = c :: t ++ rest /\ (b2n c =? 34)%N = false /\ (b2n c =? 123)%N = false
                 /\ (b2n c =? 91)%N = false /\ ((b2n c =? 45)%N || is_digit (b2n c)) = true).
    { destruct c as [b0 b1 b2 b3 b4 b5 b6 b7]. destruct b0, b1, b2, b3, b4, b5, b6, b7; first [discriminate Hc|by repeat split]. }
    destruct Hw as (-> & -> & -> & -> & Hd). cbv zeta. rewrite Hd, Hs. done.
  - done.
  - by apply parse_string.
  - cbn [json_ok] in Hok. apply andb_true_iff in Hok as [Hdep Hl]. cbn [json_Marshal] in *. rewrite <- !app_assoc in *.
    destruct l as [|j l]; [cbn; apply N.leb_le in Hdep; by rewrite (proj2 (N.ltb_ge _ _) Hdep)|].
    set (body := Join (map json_Marshal (j :: l)) (lit ",") ++ lit "]" ++ rest) in *.
    assert (Hst : exists c t, body = c :: t /\ is_ws c = false /\ (b2n c =? 93)%N = false).
    { cbn [forallb] in Hl. apply andb_true_iff in Hl as [Hj _]. destruct (marshal_starts _ _ Hj) as (c & t & Em & Hw & Hb & _).
      unfold body. destruct l; cbn [map Join]; rewrite Em; by eexists _, _. }
    destruct Hst as (c & t & Eb & Hw & Hb).
    change (lit "[" ++ body) with ("["%char :: body) in *. cbn [parse_value].
    change (skip_ws ("["%char :: body)) with ("["%char :: body). cbv zeta.
    change (b2n "["%char =? 34)%N with false. change (b2n "["%char =? 123)%N with false.
    change (b2n "["%char =? 91)%N with true. cbn iota. apply N.leb_le in Hdep. rewrite (proj2 (N.ltb_ge _ _) Hdep).
    assert (Hskip : skip_ws body = c :: t) by (rewrite Eb; unfold skip_ws; cbn; by rewrite Hw).
    rewrite Hskip. rewrite Hb, <- Eb. unfold body. rewrite parse_elements_back; try done.
    + rewrite Forall_forall in IH |- *. rewrite forallb_forall in Hl. intros x Hx. apply IH; [done|].
      apply Hl. by apply list_elem_of_In.
    + fold body. cbn [length] in Hf. lia.
  - cbn [json_ok] in Hok. apply andb_true_iff in Hok as [Hdep Hl]. cbn [json_Marshal] in *. rewrite <- !app_assoc in *.
    destruct l as [|p l]; [cbn; apply N.leb_le in Hdep; by rewrite (proj2 (N.ltb_ge _ _) Hdep)|].
    change (map (fun p => json_string p.1 ++ lit ":" ++ json_Marshal p.2) (p :: l)) with (map member_text (p :: l)) in *.
    set (body := Join (map member_text (p :: l)) (lit ",") ++ lit "}" ++ rest) in *.
    assert (Hst : exists t, body = ascii_of_N 34 :: t).
    { unfold body. destruct l; cbn [map Join]; unfold member_text, json_string; by eexists. }
    destruct Hst as (t & Eb).
    change (lit "{" ++ body) with ("{"%char :: body) in *. cbn [parse_value].
    change (skip_ws ("{"%char :: body)) with ("{"%char :: body). cbv zeta.
    change (b2n "{"%char =? 34)%N with false. change (b2n "{"%char =? 123)%N with true.
    cbn iota. apply N.leb_le in Hdep. rewrite (proj2 (N.ltb_ge _ _) Hdep).
    assert (Hskip : skip_ws body = ascii_of_N 34 :: t) by (rewrite Eb; reflexivity).
    rewrite Hskip. change (b2n (ascii_of_N 34) =? 125)%N with false. cbn iota. rewrite <- Eb.
    unfold body. rewrite parse_members_back; try done.
    + rewrite Forall_forall in IH |- *. rewrite forallb_forall in Hl. intros x Hx. apply IH; [done|].
      apply list_elem_of_In, Hl, andb_true_iff in Hx as [_ Hx]. done.
    + fold body. cbn [length] in Hf. lia.
Qed.

(** A stream that holds one marshalled value. *)
Lemma Decode_marshal j rest :
  json_ok 0 j = true -> ends_value rest = true -> Decode (json_Marshal j ++ rest) = inl (j, rest).
Proof.
  intros Hok He. unfold Decode. rewrite skip_ws_starts by by apply (marshal_starts 0).
  rewrite (parse_marshal j 0 Hok rest) by (done || (unfold parse_fuel; lia)).
  destruct (marshal_starts _ _ Hok) as (c & t & -> & _). done.
Qed.
