(* ===== verification/LogBusFacts.v ===== *)
(** * What subscribers of the log bus see

    No execution of the bus panics; a subscriber receives events of its own
    deployment only, in the order they were published and none twice; and an
    event sent through Redis arrives as it was published. *)

From S2P Require Import Prelude GoStrings GoStringsFacts GoJson GoJsonFacts GoNet StringUtil AuditLog.
From S2P Require Import Db RemoteSteps ProxyCommands Effects Runner LogBus.

(** ** One publication *)

Lemma offer_to_lookup event ns cs cs' :
  NoDup ns -> foldr (offer_to event) (Some cs) ns = Some cs' ->
  forall n, cs' !! n = if bool_decide (n ∈ ns) then c ← cs !! n; offer event c else cs !! n.
Proof.
  revert cs'. induction ns as [|m ns IH]; intros cs' Hnd Hf n; cbn [foldr] in Hf.
  - injection Hf as <-. rewrite bool_decide_false; [done|]. apply not_elem_of_nil.
  - apply NoDup_cons in Hnd as [Hm Hnd]. unfold offer_to in Hf at 1.
    destruct (foldr (offer_to event) (Some cs) ns) as [cs1|] eqn:E; [|done]. cbn in Hf.
    specialize (IH cs1 Hnd eq_refl). apply bind_Some in Hf as (c & Hc & Hf). apply bind_Some in Hf as (c' & Hoff & Hf).
    injection Hf as <-. destruct (decide (n = m)) as [->|Hne].
    + rewrite lookup_insert_eq. rewrite bool_decide_true by left. rewrite IH in Hc.
      rewrite bool_decide_false in Hc by done. rewrite Hc. cbn. by rewrite Hoff.
    + rewrite lookup_insert_ne by done. rewrite IH.
      replace (bool_decide (n ∈ m :: ns)) with (bool_decide (n ∈ ns)); [done|]. apply bool_decide_ext. set_solver.
Qed.

(** Everything that can be sent to is open: the publication goes through. *)
Lemma offer_to_total event ns cs :
  (forall n, n ∈ ns -> exists c, cs !! n = Some c /\ open c = true) -> NoDup ns ->
  exists cs', foldr (offer_to event) (Some cs) ns = Some cs'.
Proof.
  induction ns as [|m ns IH]; intros Hopen Hnd; [by exists cs|]. apply NoDup_cons in Hnd as [Hm Hnd].
  destruct IH as (cs1 & E); [by intros n Hn; apply Hopen; right|done|]. cbn [foldr]. rewrite E.
  unfold offer_to. cbn. destruct (Hopen m ltac:(by left)) as (c & Hc & Ho).
  assert (Hc1 : cs1 !! m = Some c).
  { rewrite (offer_to_lookup _ _ _ _ Hnd E). by rewrite bool_decide_false. }
  rewrite Hc1. cbn. unfold offer. rewrite Ho. by eexists.
Qed.

(** ** Reachable worlds *)

Record world_ok (w : world) : Prop := {
  ok_subscribed : forall id ch, ch ∈ subscribed (bus w) id <-> pending w !! ch = Some id;
  ok_open : forall ch id, pending w !! ch = Some id -> exists c, channels (bus w) !! ch = Some c /\ open c = true;
  ok_made : forall ch c, channels (bus w) !! ch = Some c -> (ch < made (bus w))%nat;
  ok_capacity : forall ch c, channels (bus w) !! ch = Some c -> (length (buffered c) <= channelCapacity)%nat }.

Lemma start_ok : world_ok start.
Proof.
  split; cbn; try by intros ? ? ?%lookup_empty_Some.
  intros id ch. unfold subscribed. cbn. rewrite lookup_empty. cbn. split; [set_solver|by intros ?%lookup_empty_Some].
Qed.

Lemma offer_open event c c' : offer event c = Some c' ->
  open c' = true /\ (length (buffered c) <= channelCapacity -> length (buffered c') <= channelCapacity)%nat.
Proof.
  unfold offer. destruct (open c) eqn:Eo; [|done]. cbn [negb].
  destruct (length (buffered c) <? channelCapacity)%nat eqn:El; intros [= <-]; [|done].
  cbn [buffered open]. split; [done|]. intros _. apply Nat.ltb_lt in El. rewrite length_app. cbn. lia.
Qed.

Lemma publish_spec event b b' :
  Publish event b = Some b' ->
  subscribers b' = subscribers b /\ made b' = made b
  /\ forall n, channels b' !! n
       = if bool_decide (n ∈ subscribed b (LogEvent.DeploymentID event)) then c ← channels b !! n; offer event c else channels b !! n.
Proof.
  unfold Publish. intros Hp. apply bind_Some in Hp as (cs & Hf & Hp). injection Hp as <-. split; [done|]. split; [done|].
  intros n. cbn [channels]. rewrite (offer_to_lookup _ _ _ _ (NoDup_elements _) Hf n).
  replace (bool_decide (n ∈ elements (subscribed b (LogEvent.DeploymentID event))))
    with (bool_decide (n ∈ subscribed b (LogEvent.DeploymentID event))); [done|].
  apply bool_decide_ext. by rewrite elem_of_elements.
Qed.

Lemma publish_total w event : world_ok w -> exists b, Publish event (bus w) = Some b.
Proof.
  intros [Hsub Hopen _ _]. unfold Publish.
  destruct (offer_to_total event (elements (subscribed (bus w) (LogEvent.DeploymentID event))) (channels (bus w))) as (cs & ->).
  - intros n Hn. apply elem_of_elements, Hsub in Hn. by apply (Hopen _ _ Hn).
  - apply NoDup_elements.
  - by eexists.
Qed.

Lemma unsubscribe_total w ch id : world_ok w -> pending w !! ch = Some id -> exists b, unsubscribe id ch (bus w) = Some b.
Proof.
  intros [_ Hopen _ _] Hp. destruct (Hopen _ _ Hp) as (c & Hc & Ho). unfold unsubscribe. rewrite Hc. cbn. rewrite Ho. by eexists.
Qed.

Lemma unsubscribe_spec id ch b b' :
  unsubscribe id ch b = Some b' ->
  made b' = made b
  /\ (forall id', subscribed b' id' = if decide (id' = id) then subscribed b id ∖ {[ch]} else subscribed b id')
  /\ exists c, channels b !! ch = Some c /\ channels b' = <[ch := {| buffered := buffered c; open := false |}]> (channels b).
Proof.
  unfold unsubscribe. intros Hu. apply bind_Some in Hu as (c & Hc & Hu). destruct (negb (open c)); [done|].
  injection Hu as <-. split; [done|]. split; [|by exists c]. intros id'. unfold subscribed at 1. cbn [subscribers].
  destruct (decide (id' = id)) as [->|Hne].
  - destruct (decide (_ = ∅)) as [E|E]; [rewrite lookup_delete_eq; cbn; by rewrite E|by rewrite lookup_insert_eq].
  - destruct (decide (_ = ∅)); [by rewrite lookup_delete_ne|by rewrite lookup_insert_ne].
Qed.

Lemma subscribe_spec id b :
  let '(n, b') := subscribeLocal id b in
  n = made b /\ made b' = S n
  /\ (forall id', subscribed b' id' = if decide (id' = id) then {[n]} ∪ subscribed b id else subscribed b id')
  /\ channels b' = <[n := {| buffered := []; open := true |}]> (channels b).
Proof.
  unfold subscribeLocal. split; [done|]. split; [done|]. split; [|done]. intros id'. unfold subscribed at 1. cbn [subscribers].
  destruct (decide (id' = id)) as [->|Hne]; [by rewrite lookup_insert_eq|by rewrite lookup_insert_ne].
Qed.

Lemma receive_spec ch b e b' :
  receive ch b = Some (e, b') ->
  subscribers b' = subscribers b /\ made b' = made b
  /\ exists c t, channels b !! ch = Some c /\ buffered c = e :: t
       /\ channels b' = <[ch := {| buffered := t; open := open c |}]> (channels b).
Proof.
  unfold receive. intros Hr. apply bind_Some in Hr as (c & Hc & Hr). destruct (buffered c) as [|e' t] eqn:Eb; [done|].
  injection Hr as <- <-. split; [done|]. split; [done|]. by exists c, t.
Qed.

Lemma world_publish_ok w event w' : world_ok w -> run_action w (APublish event) = Some w' -> world_ok w'.
Proof.
  intros Hw Hr. pose proof Hw as [Hsub Hopen Hmade Hcap]. cbn [run_action] in Hr.
  apply bind_Some in Hr as (b & Hp & Hr). injection Hr as <-. apply publish_spec in Hp as (Es & Em & Hch).
  assert (Hold : forall n c', channels b !! n = Some c' -> exists c, channels (bus w) !! n = Some c /\ (c' = c \/ offer event c = Some c')).
  { intros n c' Hn. rewrite Hch in Hn. destruct (bool_decide _); [|exists c'; by split; [|left]].
    apply bind_Some in Hn as (c & Hc & Ho). exists c. by split; [|right]. }
  split; cbn [bus pending].
  + intros id ch. unfold subscribed. rewrite Es. apply Hsub.
  + intros ch id Hp. destruct (Hopen ch id Hp) as (c & Hc & Ho). rewrite Hch, Hc. cbn.
    destruct (bool_decide _); [|by exists c]. destruct (offer event c) as [c'|] eqn:Eo.
    * exists c'. split; [done|]. by apply (offer_open event c).
    * unfold offer in Eo. by rewrite Ho in Eo.
  + intros ch c' Hn. destruct (Hold _ _ Hn) as (c & Hc' & _). rewrite Em. by apply (Hmade ch c).
  + intros ch c' Hn. destruct (Hold _ _ Hn) as (c & Hc' & [->|Ho]); [by apply (Hcap ch)|].
    apply (offer_open event c); [done|]. by apply (Hcap ch).
Qed.

Lemma world_subscribe_ok w id w' : world_ok w -> run_action w (ASubscribe id) = Some w' -> world_ok w'.
Proof.
  intros Hw Hr. pose proof Hw as [Hsub Hopen Hmade Hcap]. cbn [run_action] in Hr.
  pose proof (subscribe_spec id (bus w)) as Hs. destruct (subscribeLocal id (bus w)) as [n b].
  destruct Hs as (-> & Em & Es & Ec). injection Hr as <-.
  assert (Hfresh : pending w !! made (bus w) = None).
  { destruct (pending w !! made (bus w)) as [id'|] eqn:E; [|done]. destruct (Hopen _ _ E) as (c & Hc & _).
    apply Hmade in Hc. lia. }
  split; cbn [bus pending].
  + intros id' ch. rewrite Es. destruct (decide (ch = made (bus w))) as [->|Hne].
    * rewrite lookup_insert_eq. destruct (decide (id' = id)) as [->|Hid]; [set_solver|].
      rewrite Hsub. rewrite Hfresh. split; [done|congruence].
    * rewrite lookup_insert_ne by done. destruct (decide (id' = id)) as [->|Hid]; rewrite <- Hsub; set_solver.
  + intros ch id'. rewrite Ec. destruct (decide (ch = made (bus w))) as [->|Hne].
    * intros _. rewrite lookup_insert_eq. by eexists.
    * rewrite !lookup_insert_ne by done. apply Hopen.
  + intros ch c. rewrite Ec, Em. destruct (decide (ch = made (bus w))) as [->|Hne]; [lia|].
    rewrite lookup_insert_ne by done. intros Hc. apply Hmade in Hc. lia.
  + intros ch c. rewrite Ec. destruct (decide (ch = made (bus w))) as [->|Hne].
    * rewrite lookup_insert_eq. intros [= <-]. cbn. lia.
    * rewrite lookup_insert_ne by done. apply Hcap.
Qed.

Lemma world_done_ok w ch w' : world_ok w -> run_action w (ADone ch) = Some w' -> world_ok w'.
Proof.
  intros Hw Hr. pose proof Hw as [Hsub Hopen Hmade Hcap]. cbn [run_action] in Hr.
  apply bind_Some in Hr as (id & Hid & Hr). apply bind_Some in Hr as (b & Hu & Hr). injection Hr as <-.
  apply unsubscribe_spec in Hu as (Em & Es & c & Hc & Ec). split; cbn [bus pending].
  + intros id' ch'. rewrite Es. destruct (decide (ch' = ch)) as [->|Hne].
    * rewrite lookup_delete_eq. destruct (decide (id' = id)) as [->|Hne]; [set_solver|].
      rewrite Hsub, Hid. split; congruence.
    * rewrite lookup_delete_ne by done. destruct (decide (id' = id)) as [->|]; rewrite <- Hsub; set_solver.
  + intros ch' id' Hp. destruct (decide (ch' = ch)) as [->|Hne]; [by rewrite lookup_delete_eq in Hp|].
    rewrite lookup_delete_ne in Hp by done. rewrite Ec, lookup_insert_ne by done. by apply (Hopen _ id').
  + intros ch' c'. rewrite Ec, Em. destruct (decide (ch' = ch)) as [->|Hne]; [intros _; by apply (Hmade ch c)|].
    rewrite lookup_insert_ne by done. apply Hmade.
  + intros ch' c'. rewrite Ec. destruct (decide (ch' = ch)) as [->|Hne].
    * rewrite lookup_insert_eq. intros [= <-]. cbn. by apply (Hcap ch).
    * rewrite lookup_insert_ne by done. apply Hcap.
Qed.

Lemma world_receive_ok w ch event w' : world_ok w -> run_action w (AReceive ch event) = Some w' -> world_ok w'.
Proof.
  intros Hw Hr. pose proof Hw as [Hsub Hopen Hmade Hcap]. cbn [run_action] in Hr.
  apply bind_Some in Hr as ([e b] & Hrec & Hr). destruct (decide (e = event)) as [->|]; [|done]. injection Hr as <-.
  apply receive_spec in Hrec as (Es & Em & c & t & Hc & Eb & Ec). split; cbn [bus pending].
  + intros id ch'. unfold subscribed. rewrite Es. apply Hsub.
  + intros ch' id Hp. destruct (Hopen _ _ Hp) as (c' & Hc' & Ho). rewrite Ec. destruct (decide (ch' = ch)) as [->|Hne].
    * rewrite lookup_insert_eq. eexists. split; [done|]. cbn. congruence.
    * rewrite lookup_insert_ne by done. by exists c'.
  + intros ch' c'. rewrite Ec, Em. destruct (decide (ch' = ch)) as [->|Hne]; [intros _; by apply (Hmade ch c)|].
    rewrite lookup_insert_ne by done. apply Hmade.
  + intros ch' c'. rewrite Ec. destruct (decide (ch' = ch)) as [->|Hne].
    * rewrite lookup_insert_eq. intros [= <-]. cbn. pose proof (Hcap ch c Hc) as Hl. rewrite Eb in Hl. cbn in Hl. lia.
    * rewrite lookup_insert_ne by done. apply Hcap.
Qed.

Lemma run_action_ok w a w' : world_ok w -> run_action w a = Some w' -> world_ok w'.
Proof. destruct a; [apply world_publish_ok|apply world_subscribe_ok|apply world_done_ok|apply world_receive_ok]. Qed.

Lemma run_actions_snoc l a w : run_actions (l ++ [a]) w = (w' ← run_actions l w; run_action w' a).
Proof. unfold run_actions. by rewrite fold_left_app. Qed.

Lemma reachable_ok l w : run_actions l start = Some w -> world_ok w.
Proof.
  revert w. induction l as [|a l IH] using rev_ind; intros w Hr; [injection Hr as <-; apply start_ok|].
  rewrite run_actions_snoc in Hr. apply bind_Some in Hr as (w0 & Hr0 & Hr). by apply (run_action_ok w0 a); [apply IH|].
Qed.

(** The bus never panics.  However publishers, subscribers, ended
    subscriptions and readers interleave, publishing never sends on a closed
    channel and the end of a subscription never closes a channel twice. *)
Theorem bus_never_panics l w (Hreach : run_actions l start = Some w) :
  (forall event, run_action w (APublish event) <> None)
  /\ (forall ch id, pending w !! ch = Some id -> run_action w (ADone ch) <> None).
Proof.
  pose proof (reachable_ok l w Hreach) as Hok. split.
  - intros event. cbn. by destruct (publish_total w event Hok) as (b & ->).
  - intros ch id Hp. cbn. rewrite Hp. cbn. by destruct (unsubscribe_total w ch id Hok Hp) as (b & ->).
Qed.

(** ** What a subscriber receives *)

(** The life of channel [ch] as the actions tell it: how many channels were
    made, the deployment it follows, the events published for that deployment
    while it did, and the events its reader received. *)
Record history := { h_made : nat; h_follows : option str; h_published : list LogEvent.t; h_received : list LogEvent.t }.

Definition track (ch : nat) (h : history) (a : action) : history :=
  match a with
  | APublish event =>
      if bool_decide (h_follows h = Some (LogEvent.DeploymentID event))
      then {| h_made := h_made h; h_follows := h_follows h; h_published := h_published h ++ [event]; h_received := h_received h |}
      else h
  | ASubscribe id =>
      {| h_made := S (h_made h); h_follows := if decide (h_made h = ch) then Some id else h_follows h;
         h_published := h_published h; h_received := h_received h |}
  | ADone ch' =>
      {| h_made := h_made h; h_follows := if decide (ch' = ch) then None else h_follows h;
         h_published := h_published h; h_received := h_received h |}
  | AReceive ch' event =>
      if decide (ch' = ch)
      then {| h_made := h_made h; h_follows := h_follows h; h_published := h_published h; h_received := h_received h ++ [event] |}
      else h
  end.

Definition history_of (ch : nat) (l : list action) : history :=
  fold_left (track ch) l {| h_made := 0; h_follows := None; h_published := []; h_received := [] |}.

Definition waiting_events (w : world) (ch : nat) : list LogEvent.t :=
  match channels (bus w) !! ch with Some c => buffered c | None => [] end.

Definition tells (ch : nat) (h : history) (w : world) : Prop :=
  h_made h = made (bus w) /\ h_follows h = pending w !! ch
  /\ (h_received h ++ waiting_events w ch) `sublist_of` h_published h
  /\ ((length (h_published h) <= channelCapacity)%nat -> h_received h ++ waiting_events w ch = h_published h).

Lemma track_tells ch h w a w' : world_ok w -> tells ch h w -> run_action w a = Some w' -> tells ch (track ch h a) w'.
Proof.
  intros Hw (Hm & Hf & Hs & Hall) Hr. pose proof Hw as [Hsub Hopen Hmade _].
  destruct a as [event|id|ch'|ch' event]; cbn [run_action track] in *.
  - apply bind_Some in Hr as (b & Hp & Hr). injection Hr as <-. apply publish_spec in Hp as (_ & Em & Hch).
    unfold tells, waiting_events in *. cbn [bus pending]. rewrite Em, Hch.
    destruct (bool_decide (ch ∈ subscribed (bus w) (LogEvent.DeploymentID event))) eqn:Ein.
    + apply bool_decide_eq_true, Hsub in Ein. rewrite bool_decide_true by congruence. cbn [h_made h_follows h_published h_received].
      split; [done|]. split; [done|]. destruct (Hopen _ _ Ein) as (c & Hc & Ho). rewrite Hc in *. cbn.
      unfold offer. rewrite Ho. cbn [negb]. destruct (_ <? _)%nat eqn:El; cbn [buffered].
      * rewrite app_assoc. split; [by apply sublist_app|]. rewrite length_app. intros Hl. f_equal. apply Hall. lia.
      * split; [by apply sublist_inserts_r|]. rewrite length_app. intros Hl. apply Nat.ltb_ge in El.
        apply sublist_length in Hs. rewrite length_app in Hs. cbn in Hl. lia.
    + apply bool_decide_eq_false in Ein. rewrite bool_decide_false; [done|]. intros E. apply Ein, Hsub. congruence.
  - pose proof (subscribe_spec id (bus w)) as Hspec. destruct (subscribeLocal id (bus w)) as [n b].
    destruct Hspec as (-> & Em & _ & Ec). injection Hr as <-. unfold tells, waiting_events in *.
    cbn [bus pending h_made h_follows h_published h_received]. rewrite Em, Ec, Hm. split; [done|].
    destruct (decide (made (bus w) = ch)) as [<-|Hne].
    + rewrite !lookup_insert_eq. split; [done|]. cbn [buffered].
      assert (Hn : channels (bus w) !! made (bus w) = None).
      { destruct (channels (bus w) !! made (bus w)) as [c|] eqn:E; [|done]. apply Hmade in E. lia. }
      rewrite Hn in *. by split.
    + by rewrite !lookup_insert_ne.
  - apply bind_Some in Hr as (id & Hid & Hr). apply bind_Some in Hr as (b & Hu & Hr). injection Hr as <-.
    apply unsubscribe_spec in Hu as (Em & _ & c & Hc & Ec). unfold tells, waiting_events in *.
    cbn [bus pending h_made h_follows h_published h_received]. rewrite Em, Ec. split; [done|].
    destruct (decide (ch' = ch)) as [->|Hne].
    + rewrite lookup_delete_eq, lookup_insert_eq. split; [done|]. rewrite Hc in *. by split.
    + by rewrite lookup_delete_ne, lookup_insert_ne.
  - apply bind_Some in Hr as ([e b] & Hrec & Hr). destruct (decide (e = event)) as [->|]; [|done]. injection Hr as <-.
    apply receive_spec in Hrec as (_ & Em & c & t & Hc & Eb & Ec). unfold tells, waiting_events in *.
    cbn [bus pending]. rewrite Em, Ec. destruct (decide (ch' = ch)) as [->|Hne].
    + cbn [h_made h_follows h_published h_received]. split; [done|]. split; [done|]. rewrite lookup_insert_eq. cbn [buffered].
      rewrite Hc, Eb in *. by rewrite <- app_assoc.
    + by rewrite lookup_insert_ne.
Qed.

Lemma history_tells ch l w : run_actions l start = Some w -> tells ch (history_of ch l) w.
Proof.
  revert w. induction l as [|a l IH] using rev_ind; intros w Hr.
  - injection Hr as <-. unfold tells, waiting_events. cbn. by rewrite !lookup_empty.
  - rewrite run_actions_snoc in Hr. apply bind_Some in Hr as (w0 & Hr0 & Hr).
    unfold history_of. rewrite fold_left_app. cbn [fold_left]. apply (track_tells ch _ w0); [by apply (reachable_ok l)|by apply IH|done].
Qed.

(** a subscriber receives, in publication order and each at most once, only
    events that were published for the deployment it subscribed to while its
    subscription lasted; at most [channelCapacity] of them wait unread, and none
    is lost as long as no more than [channelCapacity] were published. *)
Theorem subscriber_sees_published_in_order l w ch (Hreach : run_actions l start = Some w) :
  h_received (history_of ch l) `sublist_of` h_published (history_of ch l)
  /\ (length (waiting_events w ch) <= channelCapacity)%nat
  /\ ((length (h_published (history_of ch l)) <= channelCapacity)%nat ->
      h_received (history_of ch l) ++ waiting_events w ch = h_published (history_of ch l)).
Proof.
  pose proof (reachable_ok l w Hreach) as Hok. destruct (history_tells ch l w Hreach) as (_ & _ & Hs & Hall). split; [|split].
  - etrans; [|exact Hs]. by apply sublist_inserts_r.
  - unfold waiting_events. destruct (channels (bus w) !! ch) as [c|] eqn:E; [by apply (ok_capacity _ Hok ch)|cbn; lia].
  - exact Hall.
Qed.

(** ** Through Redis *)

Section Redis.
Context `{TimestamptzJson}.

(** Timestamps survive their own JSON form, which is an ordinary value. *)
Class TimestamptzLaws := {
  time_roundtrip t : time_UnmarshalJSON (time_MarshalJSON t) = inl t;
  time_json_ok t : json_ok 1 (time_MarshalJSON t) = true }.

Definition event_text_ok (e : LogEvent.t) : Prop :=
  int64_ok (LogEvent.ID e) = true /\ valid_utf8 (LogEvent.DeploymentID e) = true
  /\ valid_utf8 (LogEvent.Stream e) = true /\ valid_utf8 (LogEvent.Message e) = true.

Lemma event_json_back `{!TimestamptzLaws} e :
  event_text_ok e -> unmarshal_event (json_Marshal (event_json e)) = inl e.
Proof.
  intros (Hid & Hdep & Hstream & Hmsg). unfold unmarshal_event.
  assert (Hdec : Decode (json_Marshal (event_json e) ++ []) = inl (event_json e, [])).
  { apply Decode_marshal; [|done]. unfold event_json. destruct (LogEvent.ID e =? 0)%Z;
      cbn [app json_ok forallb fst snd]; change (0 + 1)%N with 1%N; rewrite Hdep, Hstream, Hmsg, (time_json_ok (LogEvent.CreatedAt e)); reflexivity. }
  rewrite app_nil_r in Hdec. rewrite Hdec. cbn [rbind]. change (negb (skip_ws [] =s [])) with false. cbn iota.
  unfold event_json. destruct e as [id dep stream msg created]. cbn [LogEvent.ID LogEvent.DeploymentID LogEvent.Stream LogEvent.Message LogEvent.CreatedAt] in *.
  assert (Hrest : set_event_fields
     [(lit "deployment_id", JStr dep); (lit "stream", JStr stream); (lit "message", JStr msg); (lit "created_at", time_MarshalJSON created)]
     (LogEvent.mk id [] [] [] None) = inl (LogEvent.mk id dep stream msg created)).
  { cbn [set_event_fields]. unfold set_event_field.
    repeat match goal with |- context [field_match ?a ?b] => let v := eval vm_compute in (field_match a b) in change (field_match a b) with v end.
    cbn [rbind]. by rewrite time_roundtrip. }
  destruct (Z.eqb_spec id 0) as [->|Hne]; [exact Hrest|]. cbn [app set_event_fields]. unfold set_event_field at 1, zeroEvent.
  change (field_match (lit "id") (lit "id")) with true. cbn iota. rewrite Hid. cbn [rbind]. exact Hrest.
Qed.

(** an event published through Redis reaches the subscribers of its own
    deployment exactly as it was published, and no other subscriber. *)
Theorem redis_delivers_to_own_deployment `{!TimestamptzLaws} e id (Hok : event_text_ok e) :
  redis_deliver id (redis_publish e).2 = if LogEvent.DeploymentID e =s id then Some e else None.
Proof. unfold redis_deliver, redis_publish. cbn [snd]. by rewrite event_json_back. Qed.
End Redis.

(** ** A concrete history *)

Module BusDemo.
Definition event (n : Z) (id : string) : LogEvent.t := LogEvent.mk n (lit id) (lit "stdout") (lit "line <1> & " ++ dquote) (Some n).
Definition story : list action :=
  [ASubscribe (lit "a"); APublish (event 1 "a"); ASubscribe (lit "b"); APublish (event 2 "b"); APublish (event 3 "a");
   AReceive 0 (event 1 "a"); ADone 0; APublish (event 4 "a"); AReceive 0 (event 3 "a"); AReceive 1 (event 2 "b"); ADone 1].

Example story_runs : is_some (run_actions story start) = true.
Proof. vm_compute. reflexivity. Qed.

Lemma story_world : exists w, run_actions story start = Some w.
Proof. destruct (run_actions story start) eqn:E; [by eexists|vm_compute in E; discriminate E]. Qed.

Lemma bus_never_panics_witness : exists w, run_actions story start = Some w /\ run_action w (APublish (event 5 "b")) <> None.
Proof.
  destruct story_world as (w & E). exists w. split; [exact E|].
  exact (proj1 (bus_never_panics story w E) (event 5 "b")).
Defined.

Lemma subscriber_sees_published_in_order_witness :
  h_received (history_of 0 story) = [event 1 "a"; event 3 "a"]
  /\ h_received (history_of 0 story) `sublist_of` h_published (history_of 0 story).
Proof.
  split; [vm_compute; reflexivity|]. destruct story_world as (w & E).
  exact (proj1 (subscriber_sees_published_in_order story w 0 E)).
Defined.

(** Seconds as a number, or null. *)
#[local] Instance number_time : TimestamptzJson := {|
  time_MarshalJSON t := match t with Some z => JNum z | None => JNull end;
  time_UnmarshalJSON j := match j with JNum z => inl (Some z) | JNull => inl None | _ => inr unmarshal_error end |}.
#[local] Instance number_time_laws : TimestamptzLaws.
Proof. split; by intros [z|]. Defined.

Lemma redis_delivers_to_own_deployment_witness :
  redis_deliver (lit "a") (redis_publish (event 7 "a")).2 = Some (event 7 "a").
Proof.
  assert (Hok : event_text_ok (event 7 "a")) by (repeat split; vm_compute; reflexivity).
  rewrite (redis_delivers_to_own_deployment (event 7 "a") (lit "a") Hok). reflexivity.
Defined.
End BusDemo.
