(* ===== verification/PlanFacts.v ===== *)
(** * The remote plan: paths, configuration and shape

    Paths: [path.Clean] on elements without [..], and what the validation of
    remote_steps.go guarantees about the files a deployment reads and writes.  Then the
    precedence of variables and the ports of the routes, and the order of the steps. *)

From S2P Require Import Prelude GoStrings GoStringsFacts GoRegexp StringUtil Db RemoteSteps GoNet.

(** ** Cleaning without parent elements *)

Definition kept (e : str) : bool := negb ((e =s []) || (e =s lit ".")).
Definition no_parent (p : str) : Prop := lit ".." ∉ SplitByte slash p.

Lemma has_parent_segment_false p : has_parent_segment p = false -> no_parent p.
Proof.
  unfold has_parent_segment, no_parent. intros H Hin.
  assert (Ht : existsb (fun segment => segment =s lit "..") (SplitByte slash p) = true).
  { apply existsb_exists. exists (lit ".."). split; [by apply list_elem_of_In|apply str_eqb_refl]. }
  congruence.
Qed.

Lemma clean_elems_no_parent rooted elems out :
  lit ".." ∉ elems -> clean_elems rooted elems out = rev out ++ List.filter kept elems.
Proof.
  revert out. induction elems as [|e t IH]; intros out H; cbn [clean_elems List.filter].
  - by rewrite app_nil_r.
  - apply not_elem_of_cons in H as [He Ht]. unfold kept at 1.
    destruct ((e =s []) || (e =s lit ".")); cbn [negb]; [by apply IH|].
    destruct (e =s lit "..") eqn:E; [bool_simp; congruence|].
    rewrite IH by done. cbn [rev]. by rewrite <- app_assoc.
Qed.

Lemma SplitByte_concat c a b : SplitByte c (a ++ c :: b) = SplitByte c a ++ SplitByte c b.
Proof.
  induction a as [|d a IH]; simpl.
  - by rewrite bool_decide_true.
  - case_bool_decide; [by rewrite IH|]. rewrite IH.
    destruct (SplitByte c a) eqn:E; [by apply SplitByte_nonempty in E|done].
Qed.

Lemma no_parent_concat a b : no_parent a -> no_parent b -> no_parent (a ++ slash :: b).
Proof. unfold no_parent. rewrite SplitByte_concat, elem_of_app. tauto. Qed.

Lemma Join_app a b sep : a <> [] -> b <> [] -> Join (a ++ b) sep = Join a sep ++ sep ++ Join b sep.
Proof.
  intros Ha Hb. induction a as [|x [|y a] IH]; [done| |].
  - simpl. by destruct b.
  - change ((x :: y :: a) ++ b) with (x :: (y :: a) ++ b).
    change (Join (x :: (y :: a) ++ b) sep) with (x ++ sep ++ Join ((y :: a) ++ b) sep).
    rewrite IH by done. cbn [Join]. by rewrite <- !app_assoc.
Qed.

Lemma kept_no_sep p w : w ∈ List.filter kept (SplitByte slash p) -> slash ∉ w.
Proof.
  intros H. apply list_elem_of_In, filter_In in H as [H _].
  by apply (SplitByte_no_sep _ p), list_elem_of_In.
Qed.

Lemma path_Clean_rooted p :
  IsAbs p = true -> no_parent p ->
  path_Clean p = lit "/" ++ Join (List.filter kept (SplitByte slash p)) (lit "/").
Proof. intros Ha Hp. unfold path_Clean. rewrite Ha, clean_elems_no_parent by done. done. Qed.

Lemma path_Clean_relative p :
  IsAbs p = false -> no_parent p -> path_Clean p <> lit "." ->
  path_Clean p = Join (List.filter kept (SplitByte slash p)) (lit "/")
  /\ List.filter kept (SplitByte slash p) <> [].
Proof.
  intros Ha Hp. unfold path_Clean. rewrite Ha, clean_elems_no_parent by done. cbn [rev app].
  destruct (Join _ _ =s []) eqn:E; [done|]. bool_simp. intros _. split; [done|].
  intros E2. by rewrite E2 in E.
Qed.

(** A relative path that names something at or below the current directory. *)
Definition inside (p : str) : Prop := IsAbs p = false /\ no_parent p.

Lemma IsAbs_filter_kept p : IsAbs (Join (List.filter kept (SplitByte slash p)) (lit "/")) = false.
Proof.
  pose proof (kept_no_sep p) as Hk. destruct (List.filter kept (SplitByte slash p)) as [|w l] eqn:E; [done|].
  assert (Hw : kept w = true).
  { assert (In w (List.filter kept (SplitByte slash p))) as Hin by (rewrite E; left; reflexivity).
    apply filter_In in Hin as [_ Hin]. exact Hin. }
  specialize (Hk w ltac:(by left)). destruct w as [|c w]; [done|].
  apply not_elem_of_cons in Hk as [Hc _].
  assert (Hhead : exists u, Join ((c :: w) :: l) (lit "/") = c :: u) by (destruct l; by eexists).
  destruct Hhead as [u ->]. unfold IsAbs. cbn [HasPrefix lit String.list_ascii_of_string].
  by rewrite bool_decide_false by done.
Qed.

Lemma path_Clean_inside p : inside p -> inside (path_Clean p).
Proof.
  intros [Ha Hp]. unfold path_Clean. rewrite Ha, clean_elems_no_parent by done. cbn [rev app].
  destruct (Join _ _ =s []) eqn:E; [by split; [|apply not_elem_of_cons; split; [|apply not_elem_of_nil]]|].
  split; [apply IsAbs_filter_kept|]. bool_simp. unfold no_parent.
  rewrite (SplitByte_Join slash).
  - intros Hin. apply Hp. apply list_elem_of_In, filter_In in Hin as [Hin _]. by apply list_elem_of_In.
  - intros E2. by rewrite E2 in E.
  - intros w. apply kept_no_sep.
Qed.

Lemma inside_concat a b : a <> [] -> inside a -> no_parent b -> inside (a ++ slash :: b).
Proof.
  intros Hne [Ha Hp] Hb. split; [|by apply no_parent_concat]. by destruct a.
Qed.

Lemma LastIndexByte_take p c :
  (LastIndexByte p c = -1)%Z \/
  exists a b, p = a ++ c :: b /\ LastIndexByte p c = Z.of_nat (length a).
Proof.
  induction p as [|d p IH]; [by left|]. cbn [LastIndexByte].
  destruct IH as [E|(a & b & -> & E)]; rewrite E.
  - change (0 <=? -1)%Z with false. cbn iota. case_bool_decide; [subst; right|by left].
    by exists [], p.
  - right. exists (d :: a), b. split; [done|]. destruct (Z.leb_spec 0 (Z.of_nat (length a))); [|lia].
    simpl length. lia.
Qed.

Lemma path_Dir_inside p : inside p -> inside (path_Dir p).
Proof.
  intros [Ha Hp]. unfold path_Dir, slice_to. apply path_Clean_inside.
  destruct (LastIndexByte_take p slash) as [E|(a & b & -> & E)]; rewrite E.
  - change (Z.to_nat (-1 + 1)) with 0%nat. split; [done|].
    apply not_elem_of_cons. split; [done|apply not_elem_of_nil].
  - replace (Z.to_nat (Z.of_nat (length a) + 1)) with (length (a ++ [slash]))
      by (rewrite length_app; simpl; lia).
    change (slash :: b) with ([slash] ++ b). rewrite app_assoc, take_app_length.
    unfold no_parent in Hp. rewrite SplitByte_concat, elem_of_app in Hp.
    split.
    + by destruct a.
    + change [slash] with (slash :: []). apply no_parent_concat; [tauto|].
      apply not_elem_of_cons. split; [done|apply not_elem_of_nil].
Qed.

Lemma path_Clean_nonempty p : path_Clean p <> [].
Proof. unfold path_Clean. destruct (IsAbs p); [done|]. destruct (_ =s []) eqn:E; [done|]. by bool_simp. Qed.

Lemma path_Join_inside a b :
  a <> [] -> b <> [] -> inside a -> no_parent b -> inside (path_Join [a; b]).
Proof.
  intros Ha Hb Hi Hn. unfold path_Join. rewrite filter_cons_True, filter_cons_True, filter_nil by done.
  apply path_Clean_inside. cbn [Join]. by apply inside_concat.
Qed.

(** ** Validation *)

Lemma ValidateComposePath_inside p :
  ValidateComposePath p = None -> TrimSpace p = p -> p <> [] /\ inside p /\ path_Clean p <> lit ".".
Proof.
  unfold ValidateComposePath. intros H Ht. rewrite Ht in H.
  destruct (p =s []) eqn:E1; [done|]. destruct (IsAbs p) eqn:E2; [done|].
  destruct (HasControlCharacter p); [done|]. destruct (has_parent_segment p) eqn:E3; [done|].
  destruct (path_Clean p =s lit ".") eqn:E4; [done|]. bool_simp.
  split; [done|]. split; [|done]. split; [done|]. by apply has_parent_segment_false.
Qed.

Lemma validate_remote_directory_ok d :
  validate_remote_directory d = None -> IsAbs d = true /\ no_parent d /\ path_Clean d <> lit "/".
Proof.
  unfold validate_remote_directory. intros H.
  destruct (d =s []); [done|]. destruct (IsAbs d) eqn:E2; [|done]. cbn [negb] in H.
  destruct (path_Clean d =s lit "/") eqn:E; [done|]. destruct (HasControlCharacter d); [done|].
  destruct (Contains d _); [done|]. destruct (has_parent_segment d) eqn:E3; [done|]. bool_simp.
  split; [done|]. split; [by apply has_parent_segment_false|done].
Qed.

Lemma clean_under d p :
  IsAbs d = true -> no_parent d -> path_Clean d <> lit "/" ->
  inside p -> path_Clean p <> lit "." ->
  path_Clean (d ++ slash :: p) = path_Clean d ++ slash :: path_Clean p.
Proof.
  intros Hd Hdp Hroot [Hp Hpp] Hdot.
  destruct (path_Clean_relative p Hp Hpp Hdot) as [-> Hne].
  rewrite (path_Clean_rooted d) in * by done.
  rewrite path_Clean_rooted; [|by destruct d|by apply no_parent_concat].
  rewrite SplitByte_concat, List.filter_app, Join_app; [by rewrite <- app_assoc| |done].
  intros E. by rewrite E in Hroot.
Qed.

Lemma validateRemoteTarget_ok target :
  validateRemoteTarget target = None ->
  validate_remote_directory (TrimSpace (Target.RemoteDirectory target)) = None
  /\ ValidateComposePath (Target.ComposePath target) = None
  /\ validRemoteStrategy (Target.Strategy target) = true.
Proof.
  unfold validateRemoteTarget. intros H.
  destruct (validate_remote_directory _); [done|]. destruct (_ =s []); [done|].
  destruct (ValidateComposePath _); [done|].
  destruct (if Valid _ && _ then ValidateGitRefName _ else None); [done|].
  by destruct (validRemoteStrategy _).
Qed.

(** ** Properties *)

(** a target that passes validation confines the deployment to its remote
    directory: the compose file cleans to a path below the (non-root) directory,
    and the environment file and the compose override are relative paths without
    a parent element. *)
Theorem target_files_contained (target : Target.t)
    (Hvalid : validateRemoteTarget target = None)
    (Hdir : TrimSpace (Target.RemoteDirectory target) = Target.RemoteDirectory target)
    (Hpath : TrimSpace (Target.ComposePath target) = Target.ComposePath target) :
  let dir := Target.RemoteDirectory target in
  let compose := Target.ComposePath target in
  path_Clean dir <> lit "/"
  /\ path_Clean (dir ++ slash :: compose) = path_Clean dir ++ slash :: path_Clean compose
  /\ inside (path_Join [path_Dir compose; lit ".env"])
  /\ inside (runtimeComposePath compose).
Proof.
  intros dir compose. apply validateRemoteTarget_ok in Hvalid as (Hd & Hp & _). rewrite Hdir in Hd.
  destruct (validate_remote_directory_ok _ Hd) as (Habs & Hnp & Hroot).
  destruct (ValidateComposePath_inside _ Hp Hpath) as (Hne & Hin & Hdot).
  split; [done|]. split; [by apply clean_under|].
  pose proof (path_Dir_inside _ Hin) as Hdin.
  assert (Hname : forall n, slash ∉ n -> n <> lit ".." -> no_parent n).
  { intros n Hn Hx. unfold no_parent. rewrite SplitByte_single by done.
    rewrite list_elem_of_singleton. congruence. }
  split; apply path_Join_inside; try done; try (by apply path_Clean_nonempty); apply Hname; try done;
    by apply (bool_decide_eq_false_1 _).
Qed.

Definition contained_target : Target.t :=
  Target.mk zeroUUID (lit "rolling") textNull textNull textNull zeroUUID (lit "api") textNull (lit "main")
    (lit "deploy/compose.yml") (lit "/srv/apps/api") textNull textNull textNull textNull None 0 0 zeroUUID
    zeroUUID [] [] [] 22 textNull [] [].

Lemma target_files_contained_witness :
  path_Clean (lit "/srv/apps/api/deploy/compose.yml") = lit "/srv/apps/api/deploy/compose.yml"
  /\ inside (runtimeComposePath (Target.ComposePath contained_target)).
Proof.
  split; [vm_compute; reflexivity|].
  refine (proj2 (proj2 (proj2 (target_files_contained contained_target _ _ _)))); vm_compute; reflexivity.
Defined.

(** * Configuration of a deployment: variable precedence and port pairs

    [mergeRuntimeVariables] (runner.go) is a sorted map union in which the later
    source wins; [routePorts] (remote_steps.go) collects one port pair per
    variable and refuses conflicting ones. *)

(** ** Merging *)

(** The last variable of a list with a given key. *)
Definition last_with (k : str) (l : list RuntimeVariable) : option RuntimeVariable :=
  List.find (fun v => Key v =s k) (rev l).

Lemma find_app {A} (p : A -> bool) l1 l2 :
  List.find p (l1 ++ l2) = match List.find p l1 with Some x => Some x | None => List.find p l2 end.
Proof. induction l1 as [|x l1 IH]; [done|]. simpl. by destruct (p x). Qed.

Lemma by_key_map_lookup l m k :
  by_key_map l m !! k = match last_with k l with Some v => Some v | None => m !! k end.
Proof.
  unfold by_key_map, last_with. revert m. induction l as [|v l IH]; intros m; [done|].
  cbn [fold_left rev]. rewrite IH, find_app. destruct (List.find _ (rev l)); [done|]. simpl.
  destruct (Key v =s k) eqn:E; bool_simp; [subst; by rewrite lookup_insert_eq|by rewrite lookup_insert_ne].
Qed.

Lemma last_with_app k l1 l2 :
  last_with k (l1 ++ l2) = match last_with k l2 with Some v => Some v | None => last_with k l1 end.
Proof. unfold last_with. by rewrite rev_app_distr, find_app. Qed.

Lemma last_with_key k l v : last_with k l = Some v -> Key v = k /\ v ∈ l.
Proof.
  unfold last_with. intros H. apply List.find_some in H as [Hin Hk]. bool_simp.
  split; [done|]. by apply list_elem_of_In, in_rev.
Qed.

Section Merge.
Context (p d : list RuntimeVariable).
Let m := by_key_map d (by_key_map p ∅).

Lemma merge_map_lookup k : m !! k = last_with k (p ++ d).
Proof.
  unfold m. rewrite !by_key_map_lookup, last_with_app, lookup_empty.
  destruct (last_with k d); [done|]. by destruct (last_with k p).
Qed.

Lemma merge_map_key k v : m !! k = Some v -> Key v = k.
Proof. rewrite merge_map_lookup. by intros [? ?]%last_with_key. Qed.

Let keys := sort_Strings (map fst (map_to_list m)).

Lemma merge_keys_elem k : k ∈ keys <-> is_Some (m !! k).
Proof.
  unfold keys. rewrite sort_Strings_perm, list_elem_of_In, in_map_iff. split.
  - intros ([k' v] & <- & Hin). apply list_elem_of_In, elem_of_map_to_list in Hin. by exists v.
  - intros [v Hv]. exists (k, v). split; [done|]. by apply list_elem_of_In, elem_of_map_to_list.
Qed.

Lemma merge_keys_NoDup : NoDup keys.
Proof. unfold keys. rewrite sort_Strings_perm. apply NoDup_fst_map_to_list. Qed.

Lemma omap_keys ks :
  (forall k, k ∈ ks -> is_Some (m !! k)) -> map Key (omap (fun k => m !! k) ks) = ks.
Proof.
  induction ks as [|k ks IH]; intros H; [done|]. simpl.
  destruct (H k ltac:(by left)) as [v Hv]. rewrite Hv. simpl. f_equal; [by apply merge_map_key|].
  apply IH. intros k' Hk'. apply H. by right.
Qed.

Lemma merge_keys : map Key (mergeRuntimeVariables p d) = keys.
Proof. apply omap_keys. intros k. by rewrite merge_keys_elem. Qed.

Lemma merge_elem v : v ∈ mergeRuntimeVariables p d <-> last_with (Key v) (p ++ d) = Some v.
Proof.
  unfold mergeRuntimeVariables. fold m. fold keys. rewrite list_elem_of_omap. split.
  - intros (k & _ & Hv). rewrite <- (merge_map_lookup (Key v)). by rewrite (merge_map_key _ _ Hv).
  - intros H. rewrite <- merge_map_lookup in H. exists (Key v). split; [|done].
    apply merge_keys_elem. by eexists.
Qed.
End Merge.

(** Merging two variable lists keeps, for every key of either, exactly the
    last variable with that key of the concatenation (so the second source
    overrides the first), once, in byte order of the keys; the result does not
    depend on the iteration order of the map. *)
Theorem mergeRuntimeVariables_spec (p d : list RuntimeVariable) :
  (forall v, v ∈ mergeRuntimeVariables p d <-> last_with (Key v) (p ++ d) = Some v)
  /\ NoDup (map Key (mergeRuntimeVariables p d))
  /\ Sorted str_le (map Key (mergeRuntimeVariables p d)).
Proof.
  split; [apply merge_elem|]. rewrite merge_keys.
  split; [apply merge_keys_NoDup|apply sort_Strings_sorted].
Qed.

(** ** Port pairs of the routes *)

Section Ports.
Context `{UnicodeTables}.

(** The pair and variable a route asks for, if it has an upstream port. *)
Definition route_ports (r : RouteTarget.t) : option (str * str) :=
  let b := upstreamPort (RouteTarget.BlueUpstreamUrl r) in
  let g := upstreamPort (RouteTarget.GreenUpstreamUrl r) in
  if (b =s []) && (g =s []) then None
  else Some (if b =s [] then lit "3101" else b, if g =s [] then lit "3102" else g).

Definition route_variable_name (r : RouteTarget.t) : str :=
  let n := TrimSpace (String' (RouteTarget.PortVariable r)) in
  match n, Valid (RouteTarget.ComposeService r), RouteTarget.ContainerPort r with
  | [], true, Some p => managedComposePortName (String' (RouteTarget.ComposeService r)) p
  | _, _, _ => n
  end.

Definition seen_ok (seen : gmap str composePortVariable) : Prop :=
  forall n v, seen !! n = Some v -> name v = n /\ n <> [].

(** What one iteration adds to the map. *)
Lemma route_variable_spec r ports seen ports' seen' :
  route_variable r ports seen = inl (ports', seen') ->
  seen_ok seen ->
  seen_ok seen' /\ seen ⊆ seen'
  /\ (forall b g, route_ports r = Some (b, g) -> route_variable_name r <> [] ->
        exists v, seen' !! route_variable_name r = Some v /\ bluePort' v = b /\ greenPort' v = g).
Proof.
  unfold route_variable, route_ports. intros Hr Hok.
  destruct ((_ =s []) && (_ =s [])) eqn:Eb.
  { injection Hr as <- <-. by split; [|split]. }
  set (b := if upstreamPort (RouteTarget.BlueUpstreamUrl r) =s [] then lit "3101" else _) in *.
  set (g := if upstreamPort (RouteTarget.GreenUpstreamUrl r) =s [] then lit "3102" else _) in *.
  destruct (Valid (RouteTarget.PortVariable r) && _); [done|].
  set (v := match TrimSpace _ with [] => _ | _ => _ end) in Hr.
  assert (Hv : name v = route_variable_name r /\ bluePort' v = b /\ greenPort' v = g).
  { unfold v, route_variable_name. destruct (TrimSpace _); [|done].
    destruct (Valid (RouteTarget.ComposeService r)); [|done]. by destruct (RouteTarget.ContainerPort r). }
  clearbody v. destruct Hv as (Hn & Hvb & Hvg). rewrite Hn in Hr.
  destruct (route_variable_name r =s []) eqn:En.
  { injection Hr as <- <-. bool_simp. by split; [|split]. }
  bool_simp. destruct (seen !! route_variable_name r) as [x|] eqn:Ex.
  - destruct (negb _ || negb _) eqn:Ec; [done|]. injection Hr as <- <-.
    split; [done|]. split; [done|]. intros b' g' [= <- <-] _. exists x. bool_simp. by split.
  - injection Hr as <- <-. split; [|split].
    + intros n w. destruct (decide (n = route_variable_name r)) as [->|Hne].
      * rewrite lookup_insert_eq. intros [= <-]. by split.
      * rewrite lookup_insert_ne by done. apply Hok.
    + by apply insert_subseteq.
    + intros b' g' [= <- <-] _. exists v. by rewrite lookup_insert_eq.
Qed.

Lemma routePorts_loop_spec rs ports seen ports' seen' :
  routePorts_loop rs ports seen = inl (ports', seen') -> seen_ok seen ->
  seen_ok seen' /\ seen ⊆ seen'
  /\ (forall r b g, r ∈ rs -> route_ports r = Some (b, g) -> route_variable_name r <> [] ->
        exists v, seen' !! route_variable_name r = Some v /\ bluePort' v = b /\ greenPort' v = g).
Proof.
  revert ports seen. induction rs as [|r rs IH]; intros ports seen; cbn [routePorts_loop].
  { intros [= <- <-] Hok. split; [done|]. split; [done|]. intros r b g Hr. by apply not_elem_of_nil in Hr. }
  intros Hl Hok. apply rbind_ok in Hl as ([p1 s1] & H1 & Hl).
  destruct (route_variable_spec _ _ _ _ _ H1 Hok) as (Hok1 & Hsub1 & Hr1).
  destruct (IH _ _ Hl Hok1) as (Hok2 & Hsub2 & Hr2).
  split; [done|]. split; [by etrans|]. intros x b g Hx Hp Hn.
  apply elem_of_cons in Hx as [->|Hx]; [|by apply Hr2].
  destruct (Hr1 _ _ Hp Hn) as (v & Hv & ?). exists v. split; [|done].
  by apply (lookup_weaken _ _ _ _ Hv).
Qed.

Lemma seen_values_unique seen v w :
  seen_ok seen -> v ∈ map snd (map_to_list seen) -> w ∈ map snd (map_to_list seen) -> name v = name w -> v = w.
Proof.
  intros Hok. rewrite !list_elem_of_In, !in_map_iff.
  intros ([n1 v1] & <- & H1) ([n2 v2] & <- & H2). simpl.
  apply list_elem_of_In, elem_of_map_to_list in H1, H2.
  destruct (Hok _ _ H1) as [-> _], (Hok _ _ H2) as [-> _]. intros ->. congruence.
Qed.

Lemma by_name_sorted l : Sorted (by_key name) (merge_sort (by_key name) l).
Proof.
  apply by_key_sorted.
Qed.

(** When the ports of an application's routes are accepted, every route with
    an upstream port and a variable finds its own blue and green port under that
    variable, each variable is listed once (so two routes that share a variable
    agree on both ports), and the list is in byte order whatever order the map
    was iterated in. *)
Theorem routePorts_spec (routes : list RouteTarget.t) (ports : blueGreenPorts)
    (Hok : routePorts routes = inl ports) :
  (forall r b g, r ∈ routes -> route_ports r = Some (b, g) -> route_variable_name r <> [] ->
     exists v, v ∈ variables ports /\ name v = route_variable_name r /\ bluePort' v = b /\ greenPort' v = g)
  /\ (forall v w, v ∈ variables ports -> w ∈ variables ports -> name v = name w -> v = w)
  /\ Sorted (by_key name) (variables ports).
Proof.
  unfold routePorts in Hok. apply rbind_ok in Hok as ([p seen] & Hl & Hok).
  destruct (if blue p =s [] then _ else _) as [b0 g0]. injection Hok as <-. cbn [variables].
  assert (Hempty : seen_ok ∅) by (intros n v; by rewrite lookup_empty).
  destruct (routePorts_loop_spec _ _ _ _ _ Hl Hempty) as (Hseen & _ & Hr).
  assert (Hperm : forall v, v ∈ merge_sort (by_key name) (map snd (map_to_list seen))
                            <-> v ∈ map snd (map_to_list seen)).
  { intros v. by rewrite merge_sort_Permutation. }
  split; [|split; [|apply by_name_sorted]].
  - intros r b g Hin Hp Hn. destruct (Hr r b g Hin Hp Hn) as (v & Hv & Hb & Hg).
    exists v. destruct (Hseen _ _ Hv) as [Hname _]. split; [|by rewrite Hname].
    apply Hperm, list_elem_of_In, in_map_iff. exists (route_variable_name r, v).
    split; [done|]. by apply list_elem_of_In, elem_of_map_to_list.
  - intros v w. rewrite !Hperm. by apply seen_values_unique.
Qed.
End Ports.

#[local] Existing Instance ascii_tables.
Definition demo_route (variable url : str) : RouteTarget.t :=
  RouteTarget.mk zeroUUID zeroUUID zeroUUID (lit "api.example.com") url true (lit "applied")
    (someText url) textNull textNull None (someText variable) [] [] [] 22 textNull (lit "caddy").

Lemma routePorts_spec_witness :
  exists ports, routePorts [demo_route (lit "WEB_PORT") (lit "http://127.0.0.1:8080")] = inl ports
    /\ exists v, v ∈ variables ports /\ name v = lit "WEB_PORT" /\ bluePort' v = lit "8080" /\ greenPort' v = lit "3102".
Proof.
  eexists. split; [vm_compute; reflexivity|].
  refine (proj1 (routePorts_spec [demo_route (lit "WEB_PORT") (lit "http://127.0.0.1:8080")] _ _)
            (demo_route (lit "WEB_PORT") (lit "http://127.0.0.1:8080")) _ _ _ _ _);
    [vm_compute; reflexivity|by left|vm_compute; reflexivity|by vm_compute].
Defined.

(** * The shape of the remote plan

    What [remoteSteps] of remote_steps.go puts into a plan: the health check is
    the last thing a blue-green plan does, the source credential travels on
    standard input only, and the recorded commit comes from the sync step. *)

Section Plan.
Context `{UnicodeTables}.
Implicit Types (target : Target.t) (options : remoteStepOptions).

(** The options the steps are built from. *)
Definition plan_options target (vars : list RuntimeVariable) options : remoteStepOptions :=
  (withArtifactVariables target vars (resolveRemoteStepOptions target [options])).2.

Lemma plan_options_color target vars options :
  targetColor (plan_options target vars options) = targetColor options
  /\ singletonServices (plan_options target vars options) = singletonServices options
  /\ sourceAuthorizationHeader (plan_options target vars options) = sourceAuthorizationHeader options.
Proof.
  unfold plan_options, withArtifactVariables, resolveRemoteStepOptions.
  destruct (imageRef options =s []); destruct (negb _); done.
Qed.

Lemma remoteSteps_shape target vars options steps :
  remoteSteps target vars [options] = inl steps ->
  let o := plan_options target vars options in
  validateRemoteTarget target = None
  /\ exists source env svc,
       sourceSteps target o = inl source
       /\ serviceRuntimeSteps target (serviceVariables o) (portVariables o) = inl svc
       /\ steps = plainStep (lit "Preparing remote directory")
                    (Sprintf (lit "mkdir -p %s") [ShellQuote (Target.RemoteDirectory target)])
                  :: source ++ [envStep target env] ++ svc
                  ++ (if Target.Strategy target =s lit "blue_green"
                      then blueGreenSteps target o else rollingSteps target o).
Proof.
  unfold remoteSteps, plan_options. intros Hs. apply rbind_check_ok in Hs as [Hv Hs].
  destruct (withArtifactVariables _ _ _) as [vars' o] eqn:E. cbn [snd]. split; [done|].
  inv_ok Hs. injection Hs as <-. exists a, a0, a1. split; [done|]. split; [done|]. done.
Qed.

(** The part of a blue-green plan before its last step. *)
Definition blueGreenInit target options : list remoteStep := removelast (blueGreenSteps target options).

Definition healthStep target options : remoteStep :=
  plainStep (lit "Checking next color health") (healthCheckCommand target options).
Definition startStep target options : remoteStep :=
  plainStep (lit "Starting next color stack") (nextColorCommand target options (startAction options)).

Lemma blueGreenSteps_last target options :
  exists pre, blueGreenSteps target options = pre ++ [healthStep target options]
    /\ startStep target options ∈ pre.
Proof.
  unfold blueGreenSteps, healthStep, startStep. cbv zeta.
  match goal with |- exists pre, ?A ++ ?B ++ ?C ++ ?D ++ ?E = _ /\ _ => exists (A ++ B ++ C ++ D) end.
  split; [rewrite <- !app_assoc; exact eq_refl|].
  rewrite !elem_of_app. right; right; left. by left.
Qed.

(** An accepted blue-green plan ends with the health check of the colour it
    was asked to deploy, after the step that starts that colour's stack. *)
Theorem blue_green_plan_ends_with_health_check target vars options steps
    (Hplan : remoteSteps target vars [options] = inl steps)
    (Hstrategy : Target.Strategy target = lit "blue_green") :
  exists pre o, steps = pre ++ [healthStep target o] /\ startStep target o ∈ pre
    /\ targetColor o = targetColor options /\ singletonServices o = singletonServices options.
Proof.
  destruct (remoteSteps_shape _ _ _ _ Hplan) as (_ & source & env & svc & _ & _ & ->).
  rewrite Hstrategy, str_eqb_refl.
  set (o := plan_options target vars options).
  destruct (blueGreenSteps_last target o) as (pre & -> & Hin).
  eexists (_ :: source ++ [envStep target env] ++ svc ++ pre), o.
  split; [cbn [app]; repeat (rewrite <- app_assoc; cbn [app]); reflexivity|]. split; [|by destruct (plan_options_color target vars options) as (? & ? & _)].
  apply elem_of_cons. right. rewrite !elem_of_app. by do 3 right.
Qed.

(** ** The source credential *)

Definition with_header options (h : str) : remoteStepOptions :=
  Build_remoteStepOptions (targetColor options) (imageRef options) (bluePort options) (greenPort options)
    (portVariables options) (serviceVariables options) h (singletonServices options).

Lemma plan_with_header target vars options h :
  plan_options target vars (with_header options h) = with_header (plan_options target vars options) h.
Proof.
  unfold plan_options, withArtifactVariables, resolveRemoteStepOptions. simpl imageRef.
  destruct (imageRef options =s []); destruct (negb _); done.
Qed.

Lemma remoteSteps_vars_header target vars options h :
  (withArtifactVariables target vars (resolveRemoteStepOptions target [with_header options h])).1
  = (withArtifactVariables target vars (resolveRemoteStepOptions target [options])).1.
Proof.
  unfold withArtifactVariables, resolveRemoteStepOptions. simpl imageRef.
  destruct (imageRef options =s []); destruct (negb _); done.
Qed.

(** A header that git is given: not blank, short, without control characters. *)
Definition usable_header (h : str) : Prop :=
  TrimSpace h <> [] /\ (length (TrimSpace h) <= 4096)%nat /\ HasControlCharacter (TrimSpace h) = false.

Lemma sourceGitCommands_header dir h :
  usable_header h ->
  exists c, sourceGitCommands dir h = inl (Build_sourceGitCommandSet c (lit "git -c safe.directory=" ++ dir)
                                     (lit "git") [] (TrimSpace h ++ newline))
    /\ forall h', usable_header h' ->
       sourceGitCommands dir h' = inl (Build_sourceGitCommandSet c (lit "git -c safe.directory=" ++ dir)
                                     (lit "git") [] (TrimSpace h' ++ newline)).
Proof.
  assert (Hall : forall h, usable_header h -> sourceGitCommands dir h =
    inl (Build_sourceGitCommandSet
      (lit "IFS= read -r GIT_CONFIG_VALUE_0; export GIT_CONFIG_COUNT=1 GIT_CONFIG_KEY_0=http.extraHeader GIT_CONFIG_VALUE_0 GIT_CONFIG_NOSYSTEM=1 GIT_TERMINAL_PROMPT=0; ")
      (lit "git -c safe.directory=" ++ dir) (lit "git") [] (TrimSpace h ++ newline))).
  { intros x (Hne & Hlen & Hctl). unfold sourceGitCommands.
    destruct (TrimSpace x =s []) eqn:E; [by bool_simp|]. rewrite Hctl, orb_false_r.
    destruct (Nat.ltb_spec 4096 (length (TrimSpace x))); [lia|done]. }
  intros Hh. eexists. split; [by apply Hall|]. exact Hall.
Qed.

Definition sync_step_of (cmd header : str) : remoteStep :=
  {| label := lit "Syncing repository"; command := cmd; input := TrimSpace header ++ newline; resolvesCommit := true |}.

Lemma sourceSteps_header target options h h' steps :
  usable_header h -> usable_header h' -> sourceSteps target (with_header options h) = inl steps ->
  exists steps', sourceSteps target (with_header options h') = inl steps'
    /\ map command steps' = map command steps
    /\ ((steps = [] /\ steps' = []) \/
        exists cmd, steps = [sync_step_of cmd h] /\ steps' = [sync_step_of cmd h']).
Proof.
  intros Hh Hh'. unfold sourceSteps. cbn [imageRef with_header sourceAuthorizationHeader].
  destruct (negb _). { intros [= <-]. exists []. split; [done|]. split; [done|by left]. }
  destruct (sourceGitCommands_header (ShellQuote (Target.RemoteDirectory target)) h Hh) as (c & E1 & E2).
  rewrite E1, (E2 h' Hh'). cbn [rbind].
  destruct (gitCommitCheckout _ _) as [co|e]; [|done]. cbn [rbind fetch clone prefix suffix git_input].
  intros [= <-]. eexists. split; [done|]. split; [done|]. right. eexists. by split.
Qed.
Definition plan_vars target (vars : list RuntimeVariable) options : list RuntimeVariable :=
  (withArtifactVariables target vars (resolveRemoteStepOptions target [options])).1.

Lemma remoteSteps_eq target vars options :
  let o := plan_options target vars options in
  remoteSteps target vars [options] =
  (guard? (validateRemoteTarget target) in
   let? source := sourceSteps target o in
   let? env := renderRuntimeEnvFile (plan_vars target vars options) in
   let? svc := serviceRuntimeSteps target (serviceVariables o) (portVariables o) in
   inl ([plainStep (lit "Preparing remote directory")
           (Sprintf (lit "mkdir -p %s") [ShellQuote (Target.RemoteDirectory target)])]
        ++ source ++ [envStep target env] ++ svc
        ++ (if Target.Strategy target =s lit "blue_green" then blueGreenSteps target o else rollingSteps target o))).
Proof.
  unfold remoteSteps, plan_options, plan_vars. by destruct (withArtifactVariables _ _ _) as [v o].
Qed.

Lemma tail_header target o h :
  (if Target.Strategy target =s lit "blue_green"
   then blueGreenSteps target (with_header o h) else rollingSteps target (with_header o h))
  = (if Target.Strategy target =s lit "blue_green" then blueGreenSteps target o else rollingSteps target o).
Proof.
  unfold blueGreenSteps, rollingSteps, nextColorCommand, healthCheckCommand, startAction,
    isSourceDeployWithOptions, colorPortCommand.
  cbn [with_header targetColor imageRef bluePort greenPort portVariables serviceVariables singletonServices].
  reflexivity.
Qed.

(** The credential for the source repository never reaches a command line:
    with any other usable credential the plan has the same labels and the same
    commands, and only the standard input of the sync step differs, which is the
    trimmed credential and a newline. *)
Theorem credential_only_on_stdin target vars options h h' steps
    (Hh : usable_header h) (Hh' : usable_header h')
    (Hplan : remoteSteps target vars [with_header options h] = inl steps) :
  exists steps', remoteSteps target vars [with_header options h'] = inl steps'
    /\ map command steps' = map command steps /\ map label steps' = map label steps
    /\ Forall2 (fun s s' => (input s = input s')
                 \/ (input s = TrimSpace h ++ newline /\ input s' = TrimSpace h' ++ newline)) steps steps'.
Proof.
  rewrite remoteSteps_eq in *. cbv zeta in *. unfold plan_vars in *.
  rewrite remoteSteps_vars_header in *. rewrite !plan_with_header in *.
  apply rbind_check_ok in Hplan as [Hv Hplan]. rewrite Hv. cbn [check rbind].
  apply rbind_ok in Hplan as (source & Hs & Hplan).
  destruct (sourceSteps_header _ _ _ _ _ Hh Hh' Hs) as (source' & -> & Hcmd & Hcases).
  cbn [rbind]. cbn [serviceVariables portVariables with_header] in *.
  apply rbind_ok in Hplan as (env & -> & Hplan). apply rbind_ok in Hplan as (svc & -> & Hplan).
  cbn [rbind]. rewrite !tail_header in *. apply (inj inl) in Hplan. subst steps.
  eexists. split; [done|]. rewrite !map_app, Hcmd.
  assert (Hself : forall l : list remoteStep, Forall2 (fun s s' => (input s = input s')
       \/ (input s = TrimSpace h ++ newline /\ input s' = TrimSpace h' ++ newline)) l l).
  { induction l; constructor; [by left|done]. }
  split; [done|]. destruct Hcases as [[-> ->]|(cmd & -> & ->)]; (split; [done|]).
  - apply Hself.
  - apply Forall2_app; [apply Hself|]. apply Forall2_app; [|apply Hself].
    constructor; [by right|constructor].
Qed.
End Plan.

#[local] Existing Instance ascii_tables.
Definition plan_target : Target.t :=
  Target.mk zeroUUID (lit "blue_green") textNull textNull textNull zeroUUID (lit "api")
    (someText (lit "https://github.com/acme/api")) (lit "main") (lit "compose.yml") (lit "/srv/api") textNull
    (someText (lit "http://127.0.0.1:{port}/health?color={color}")) textNull textNull None 0 0 zeroUUID zeroUUID
    [] [] [] 22 textNull [] [].
Definition plan_opts : remoteStepOptions :=
  Build_remoteStepOptions (lit "green") [] [] [] [] ∅ [] [lit "worker"].

Lemma blue_green_plan_ends_with_health_check_witness :
  exists steps, remoteSteps plan_target [] [plan_opts] = inl steps
    /\ exists pre o, steps = pre ++ [healthStep plan_target o] /\ startStep plan_target o ∈ pre
         /\ targetColor o = lit "green" /\ singletonServices o = [lit "worker"].
Proof.
  destruct (remoteSteps plan_target [] [plan_opts]) as [steps|e] eqn:E; [|vm_compute in E; discriminate E].
  exists steps. split; [done|].
  apply (blue_green_plan_ends_with_health_check plan_target [] plan_opts steps E). vm_compute. reflexivity.
Defined.

Lemma usable_demo : usable_header (lit "AUTHORIZATION: basic abc") /\ usable_header (lit "AUTHORIZATION: basic xyz").
Proof. repeat split; try (vm_compute; congruence); apply Nat.leb_le; vm_compute; reflexivity. Qed.

Lemma credential_only_on_stdin_witness :
  exists steps steps',
    remoteSteps plan_target [] [with_header plan_opts (lit "AUTHORIZATION: basic abc")] = inl steps
    /\ remoteSteps plan_target [] [with_header plan_opts (lit "AUTHORIZATION: basic xyz")] = inl steps'
    /\ map command steps' = map command steps /\ existsb (fun s => negb (input s =s [])) steps = true.
Proof.
  destruct (remoteSteps plan_target [] [with_header plan_opts (lit "AUTHORIZATION: basic abc")]) as [steps|e] eqn:E;
    [|vm_compute in E; discriminate E].
  destruct (credential_only_on_stdin _ _ _ _ _ _ (proj1 usable_demo) (proj2 usable_demo) E)
    as (steps' & E' & Hc & _).
  exists steps, steps'. split; [done|]. split; [exact E'|]. split; [exact Hc|].
  vm_compute in E. injection E as <-. vm_compute. reflexivity.
Defined.
