(* ===== verification/RunnerFacts.v ===== *)
(** * What every run of the deployment runner does

    Statements on the traces of runner.go: they hold for any answers of the
    database, the host and the other collaborators. *)

From S2P Require Import Prelude GoStrings GoStringsFacts GoRegexp GoJson GoNet StringUtil AuditLog.
From S2P Require Import Db RemoteSteps ProxyCommands PlanFacts Effects Runner.

(** ** Kinds of calls *)

Inductive kind := KLog | KRead | KRemote | KCommit | KSlot | KRoute | KStatus | KStart | KReport.
#[export] Instance kind_eq_dec : EqDecision kind.
Proof. solve_decision. Defined.

Section Kinds.
Context `{SshLib}.

(** Logs; reads; commands on the host; the commit record; slots; proxy routes;
    the deployment's status; taking it from the queue; application status, audit
    and notifications. *)
Definition kind_of {X} (e : runnerE X) : kind :=
  match e with
  | QAppendDeploymentLog _ _ _ | CPublish _ => KLog
  | QSetDeploymentCommitSHA _ _ _ => KCommit
  | QActivateDeploymentSlot _ _ _ | QUpsertDeploymentSlot _ => KSlot
  | QMarkProxyRouteFailed _ | QPromoteProxyRoutes _ _ => KRoute
  | QStartQueuedDeployment _ => KStart
  | QUpdateDeploymentStatus _ _ => KStatus
  | QUpdateApplicationStatus _ _ _ | QMarkApplicationConfigurationDeployed _ _ _
  | QAppendAuditEvent _ | CNotifyDeployment _ => KReport
  | CRun _ _ | CRunWithInput _ _ _ => KRemote
  | _ => KRead
  end.

Definition kinds (l : list kind) (X : Type) (e : runnerE X) : Prop := In (kind_of e) l.
Definition ev_kind (ev : event runnerE) : kind := match ev with Ev e _ => kind_of e end.
Definition traffic (ev : event runnerE) : Prop := In (ev_kind ev) [KSlot; KRoute].

Lemma kinds_weaken {A} l l' (p : prog runnerE A) :
  incl l l' -> only (kinds l) p -> only (kinds l') p.
Proof. intros Hl. apply only_weaken. intros X e. apply Hl. Qed.

Lemma kinds_runs {A} l (p : prog runnerE A) tr a :
  only (kinds l) p -> runs p tr a -> Forall (fun ev => In (ev_kind ev) l) tr.
Proof.
  intros Hp Hr. pose proof (only_runs _ _ _ _ Hp Hr) as Hf.
  eapply Forall_impl; [exact Hf|]. by intros [X e x].
Qed.
End Kinds.

Ltac in_kinds := unfold kinds, ev_kind; cbn [kind_of]; repeat first [apply in_eq | apply in_cons].
Ltac only_step :=
  lazymatch goal with
  | |- only _ (pbind _ _) => apply only_bind; [|intros ?]
  | |- only _ (pbind_ok _ _) => apply only_bind_ok; [|intros ?]
  | |- only _ (call _) => apply only_call; in_kinds
  | |- only _ (call_or _ _) => apply only_call_or; in_kinds
  | |- only _ (Ret _) => exact I
  | |- only _ (match ?x with _ => _ end) => destruct x
  end.
Ltac solve_only := repeat (cbv zeta; only_step).

Section Only.
Context `{UnicodeTables} `{UuidLib} `{Resolver} `{SshLib}.
Implicit Types (r : Runner) (d : Deployment.t) (target : Target.t) (client : Client)
  (options : remoteStepOptions) (color : str).

Lemma append_only d stream message l : In KLog l -> only (kinds l) (append d stream message).
Proof.
  intros Hl. apply (kinds_weaken [KLog]); [intros k [<-|[]]; exact Hl|]. unfold append. solve_only.
Qed.

Lemma log_output_only d o l : In KLog l -> only (kinds l) (log_output d o).
Proof. intros Hl. unfold log_output. destruct (negb _); [by apply append_only|done]. Qed.
End Only.

Ltac only_lemma :=
  lazymatch goal with
  | |- only _ (append _ _ _) => apply append_only; in_kinds
  | |- only _ (log_output _ _) => apply log_output_only; in_kinds
  end.
Ltac solve_only' := repeat (cbv zeta; first [only_lemma | only_step]).

Section Only2.
Context `{UnicodeTables} `{UuidLib} `{Resolver} `{SshLib}.
Implicit Types (r : Runner) (d : Deployment.t) (target : Target.t) (client : Client)
  (options : remoteStepOptions) (color : str).

Lemma withDoppler_only r target config n label vars :
  only (kinds [KLog; KRead]) (withDoppler r target config n label vars).
Proof. unfold withDoppler. solve_only'. Qed.

Lemma stack_loop_only r target shared configs vars :
  only (kinds [KLog; KRead]) (stack_loop r target shared configs vars).
Proof.
  revert vars. induction configs as [|c t IH]; intros vars; cbn [stack_loop]; [done|].
  solve_only'; first [apply IH | apply withDoppler_only].
Qed.

Lemma service_loop_only r target vars configs services :
  only (kinds [KLog; KRead]) (service_loop r target vars configs services).
Proof.
  revert services. induction configs as [|c t IH]; intros services; cbn [service_loop]; [done|].
  solve_only'; first [apply IH | apply withDoppler_only].
Qed.

Lemma getBlueGreenPorts_only target : only (kinds [KLog; KRead]) (getBlueGreenPorts target).
Proof. unfold getBlueGreenPorts. solve_only'. Qed.

Lemma prepare_deploy_only r d target : only (kinds [KLog; KRead]) (prepare_deploy r d target).
Proof.
  unfold prepare_deploy, deploymentRuntimeVariables, deploymentServiceRuntimeVariables, nextDeploymentColors,
    sourceAuthorization.
  solve_only'; first [apply stack_loop_only | apply service_loop_only | apply getBlueGreenPorts_only].
Qed.

Lemma run_steps_only d client steps target :
  only (kinds [KLog; KRemote; KCommit]) (run_steps d client steps target).
Proof.
  revert target. induction steps as [|s t IH]; intros target; cbn [run_steps]; [done|].
  unfold run_step, resolveSourceCommit. solve_only'; apply IH.
Qed.

Lemma restore_only target client c1 c2 options :
  only (kinds [KLog; KRemote]) (restoreSingletonServices target client c1 c2 options).
Proof. unfold restoreSingletonServices, run_unless_empty. solve_only'. Qed.

Lemma switch_only d target client c1 c2 options :
  only (kinds [KLog; KRemote]) (switchSingletonServices d target client c1 c2 options).
Proof. unfold switchSingletonServices. solve_only'; apply restore_only. Qed.

Lemma rollback_in_order_only client items : only (kinds [KLog; KRemote; KRead; KRoute]) (rollback_in_order client items).
Proof. induction items as [|i t IH]; cbn [rollback_in_order]; [done|]. solve_only'. apply IH. Qed.

Lemma prepare_routes_only routes color : only (kinds [KLog; KRemote; KRead; KRoute]) (prepare_routes routes color).
Proof. induction routes as [|x t IH]; cbn [prepare_routes]; [done|]. solve_only'. apply IH. Qed.

Lemma apply_routes_only d client items applied :
  only (kinds [KLog; KRemote; KRead; KRoute]) (apply_routes d client items applied).
Proof.
  revert applied. induction items as [|i t IH]; intros applied; cbn [apply_routes]; [done|].
  unfold rollbackProxyRoutes. solve_only'; first [apply IH | apply rollback_in_order_only].
Qed.

Lemma applyProxyRoutes_only d target client color :
  only (kinds [KLog; KRemote; KRead; KRoute]) (applyProxyRoutes d target client color).
Proof.
  unfold applyProxyRoutes, record_routes, rollbackProxyRoutes.
  solve_only'; first [apply prepare_routes_only | apply apply_routes_only | apply rollback_in_order_only].
Qed.
Lemma checkColorHealth_only target client color : only (kinds [KLog; KRemote; KRead]) (checkColorHealth target client color).
Proof.
  unfold checkColorHealth. solve_only'.
  apply (kinds_weaken [KLog; KRead]); [intros k; cbn; tauto|apply getBlueGreenPorts_only].
Qed.

Lemma rollback_singletons_only d target client color :
  only (kinds [KLog; KRemote; KRead]) (rollback_singletons d target client color).
Proof.
  unfold rollback_singletons. solve_only'.
  - apply (kinds_weaken [KLog; KRead]); [intros k; cbn; tauto|apply getBlueGreenPorts_only].
  - apply (kinds_weaken [KLog; KRemote]); [intros k; cbn; tauto|apply switch_only].
Qed.

(** Everything the deployment proper may do: it never touches its own status. *)
Definition deploy_kinds : list kind := [KLog; KRead; KRemote; KCommit; KSlot; KRoute].

Ltac weaken_with L := eapply kinds_weaken; [|apply L]; intros k; cbn; tauto.

Lemma rollback_only d target client : only (kinds deploy_kinds) (rollback d target client).
Proof.
  unfold rollback, failed_switch. solve_only';
    first [ weaken_with checkColorHealth_only | weaken_with rollback_singletons_only
          | weaken_with applyProxyRoutes_only | weaken_with restore_only ].
Qed.

Lemma finish_deploy_only d target client p : only (kinds deploy_kinds) (finish_deploy d target client p).
Proof.
  unfold finish_deploy, upsertSlot, failed_switch. solve_only';
    first [ weaken_with switch_only | weaken_with applyProxyRoutes_only | weaken_with restore_only ].
Qed.

Lemma deploy_only r d target : only (kinds deploy_kinds) (deploy r d target).
Proof.
  unfold deploy, deploymentSSHClient. solve_only';
    first [ apply rollback_only | apply finish_deploy_only | weaken_with prepare_deploy_only
          | weaken_with run_steps_only ].
Qed.

Lemma notify_only d target m l : In KLog l -> In KReport l -> only (kinds l) (notify d target m).
Proof.
  intros Hl Hrep. apply (kinds_weaken [KLog; KReport]); [intros k [<-|[<-|[]]]; done|].
  unfold notify. solve_only'.
Qed.

Lemma audit_only d target a m : only (kinds [KLog; KReport]) (audit d target a m).
Proof. unfold audit. solve_only'. Qed.

(** ** The status of a deployment *)

Definition final_status (s : str) : Prop := s = lit "succeeded" \/ s = lit "failed".

(** A trace with exactly one status call, which ends the deployment [id] and is
    followed by reports only. *)
Definition ends_once (id : pgUUID_t) (tr : list (event runnerE)) : Prop :=
  exists tr1 status ans tr2,
    tr = tr1 ++ Ev (QUpdateDeploymentStatus id status) ans :: tr2
    /\ final_status status
    /\ Forall (fun ev => In (ev_kind ev) (KReport :: deploy_kinds)) tr1
    /\ Forall (fun ev => In (ev_kind ev) [KLog; KReport]) tr2.

Ltac report_only :=
  solve_only';
  lazymatch goal with
  | |- only _ (notify _ _ _) => apply notify_only; in_kinds
  | |- only _ (audit _ _ _ _) => apply audit_only
  end.

Lemma complete_ends d target tr u : runs (complete d target) tr u -> ends_once (Deployment.ID d) tr.
Proof.
  unfold complete. intros Hr. apply runs_bind in Hr as (t1 & ans & t2 & -> & Hcall & Hr).
  apply runs_call in Hcall as ->. exists [], (lit "succeeded"), ans, t2.
  split; [done|]. split; [by left|]. split; [constructor|].
  refine (kinds_runs [KLog; KReport] _ _ _ _ Hr). report_only.
Qed.

Lemma fail_trace d label err tr d' :
  runs (fail d label err) tr d' ->
  exists tr1 ans, tr = tr1 ++ [Ev (QUpdateDeploymentStatus (Deployment.ID d) (lit "failed")) ans]
    /\ Forall (fun ev => In (ev_kind ev) [KLog]) tr1.
Proof.
  unfold fail. intros Hr. apply runs_bind in Hr as (t1 & [] & t2 & -> & Hlog & Hr).
  apply runs_bind in Hr as (t3 & ans & t4 & -> & Hcall & Hr). apply runs_call in Hcall as ->.
  assert (t4 = []) as -> by (destruct ans; destruct Hr as [Ht _]; exact Ht).
  exists t1, ans. split; [done|]. refine (kinds_runs _ _ _ _ _ Hlog). apply append_only. in_kinds.
Qed.

Lemma Forall_kinds_incl l l' (tr : list (event runnerE)) :
  incl l l' -> Forall (fun ev => In (ev_kind ev) l) tr -> Forall (fun ev => In (ev_kind ev) l') tr.
Proof. intros Hi Hf. apply (Forall_impl _ _ _ Hf). intros ev. apply Hi. Qed.

Lemma ends_once_after id pre tr :
  Forall (fun ev => In (ev_kind ev) (KReport :: deploy_kinds)) pre -> ends_once id tr -> ends_once id (pre ++ tr).
Proof.
  intros Hpre (t1 & st & ans & t2 & -> & Hst & Hf1 & Hf2). exists (pre ++ t1), st, ans, t2.
  rewrite <- app_assoc. split; [done|]. split; [done|]. split; [by apply Forall_app|done].
Qed.

Lemma fail_ends d label err tr d' : runs (fail d label err) tr d' -> ends_once (Deployment.ID d) tr.
Proof.
  intros Hr. apply fail_trace in Hr as (t1 & ans & -> & Hf). exists t1, (lit "failed"), ans, [].
  split; [done|]. split; [by right|]. split; [|constructor].
  revert Hf. apply Forall_kinds_incl. intros k. cbn. tauto.
Qed.

Lemma ends_once_before id tr post :
  ends_once id tr -> Forall (fun ev => In (ev_kind ev) [KLog; KReport]) post -> ends_once id (tr ++ post).
Proof.
  intros (t1 & st & ans & t2 & -> & Hst & Hf1 & Hf2) Hpost. exists t1, st, ans, (t2 ++ post).
  rewrite <- app_assoc. split; [done|]. split; [done|]. split; [done|by apply Forall_app].
Qed.

Lemma run_failed_ends d target err tr u : runs (run_failed d target err) tr u -> ends_once (Deployment.ID d) tr.
Proof.
  unfold run_failed. intros Hr. apply runs_bind in Hr as (t1 & d' & t2 & -> & Hfail & Hr).
  apply ends_once_before; [by apply (fail_ends _ _ _ _ _ Hfail)|].
  refine (kinds_runs [KLog; KReport] _ _ _ _ Hr). report_only.
Qed.

Lemma Run_trace r d tr u :
  runs (Run r d) tr u ->
  exists ans rest, tr = Ev (QStartQueuedDeployment (Deployment.ID d)) ans :: rest
    /\ match ans with
       | inr _ => Forall (fun ev => In (ev_kind ev) [KLog]) rest
       | inl taken => ends_once (Deployment.ID taken) rest
       end.
Proof.
  intros Hrun. unfold Run in Hrun. apply runs_bind in Hrun as (t1 & ans & t2 & -> & Hcall & Hr).
  apply runs_call in Hcall as ->. exists ans, t2. split; [done|]. destruct ans as [taken|err].
  - apply runs_bind in Hr as (l1 & [] & t3 & -> & Hlog & Hr).
    apply ends_once_after.
    { refine (kinds_runs _ _ _ _ _ Hlog). apply append_only. in_kinds. }
    apply runs_bind in Hr as (l2 & row & t4 & -> & Hcall & Hr). apply runs_call in Hcall as ->.
    apply ends_once_after; [constructor; [in_kinds|constructor]|].
    destruct row as [target|err].
    + apply runs_bind in Hr as (l3 & [] & t5 & -> & Haudit & Hr). apply ends_once_after.
      { refine (Forall_kinds_incl _ _ _ _ (kinds_runs _ _ _ _ (audit_only _ _ _ _) Haudit)).
        intros k. cbn. tauto. }
      apply runs_bind in Hr as (l4 & app & t6 & -> & Hcall & Hr). apply runs_call in Hcall as ->.
      apply ends_once_after; [constructor; [in_kinds|constructor]|].
      apply runs_bind in Hr as (l5 & [err target'] & t7 & -> & Hdep & Hr). apply ends_once_after.
      { refine (Forall_kinds_incl _ _ _ _ (kinds_runs _ _ _ _ (deploy_only _ _ _) Hdep)). intros k. cbn. tauto. }
      destruct err; [by apply run_failed_ends in Hr|by apply complete_ends in Hr].
    + apply runs_bind in Hr as (l3 & d' & t5 & -> & Hfail & Hr). destruct Hr as [-> _].
      apply ends_once_before; [by apply (fail_ends _ _ _ _ _ Hfail)|constructor].
  - refine (kinds_runs [KLog] _ _ _ _ Hr). solve_only'.
Qed.

(** C1: every run of the runner, whatever its environment answers, first tries to
    take the deployment from the queue.  If that fails the run does nothing but
    log.  If it succeeds, the run writes the status of the deployment it took
    exactly once, as succeeded or failed, and after that only logs and reports:
    no command, slot or route call follows the final status. *)
Theorem Run_takes_then_ends_once r d tr u (Hrun : runs (Run r d) tr u) :
  exists ans rest, tr = Ev (QStartQueuedDeployment (Deployment.ID d)) ans :: rest
    /\ match ans with
       | inr _ => Forall (fun ev => In (ev_kind ev) [KLog]) rest
       | inl taken => ends_once (Deployment.ID taken) rest
       end.
Proof. exact (Run_trace _ _ _ _ Hrun). Qed.

(** ** Traffic moves only after a health check *)

(** Every event of class [Q] comes after one of class [P]. *)
Definition guarded (P Q : event runnerE -> Prop) (tr : list (event runnerE)) : Prop :=
  forall pre ev post, tr = pre ++ ev :: post -> Q ev -> Exists P pre.

Lemma guarded_none P (Q : event runnerE -> Prop) tr : Forall (fun ev => ~ Q ev) tr -> guarded P Q tr.
Proof. intros Hf pre ev post -> Hq. apply Forall_app in Hf as [_ Hf]. by apply Forall_inv in Hf. Qed.

Lemma guarded_nil P (Q : event runnerE -> Prop) : guarded P Q [].
Proof. intros [|? ?] ev post Heq; discriminate Heq. Qed.

Lemma app_eq_cons_cases {A} (l1 l2 pre : list A) x post :
  l1 ++ l2 = pre ++ x :: post ->
  (exists m, l1 = pre ++ x :: m) \/ (exists m, pre = l1 ++ m /\ l2 = m ++ x :: post).
Proof.
  revert pre. induction l1 as [|y l1 IH]; intros pre Heq.
  - right. by exists pre.
  - destruct pre as [|z pre]; injection Heq as -> Heq.
    + left. by exists l1.
    + destruct (IH _ Heq) as [(m & ->)|(m & -> & ->)]; [left; by exists m|right; by exists m].
Qed.

Lemma guarded_app P Q t1 t2 :
  guarded P Q t1 -> (guarded P Q t2 \/ Exists P t1) -> guarded P Q (t1 ++ t2).
Proof.
  intros Hg1 Hg2 pre ev post Heq Hq. destruct (app_eq_cons_cases _ _ _ _ _ Heq) as [(m & ->)|(m & -> & ->)].
  - by apply (Hg1 pre ev m).
  - apply Exists_app. destruct Hg2 as [Hg2|He]; [right; by apply (Hg2 m ev post)|by left].
Qed.

Lemma no_traffic l tr :
  Forall (fun ev => In (ev_kind ev) l) tr -> (forall k, In k l -> ~ In k [KSlot; KRoute]) ->
  Forall (fun ev => ~ traffic ev) tr.
Proof. intros Hf Hl. apply (Forall_impl _ _ _ Hf). intros ev Hk Ht. by apply (Hl _ Hk). Qed.

Ltac not_traffic := intros ? Hk Hn; cbn in Hk, Hn; intuition congruence.
Ltac not_traffic_ev := unfold traffic; cbn; intuition congruence.

(** A successful health check of a colour: at the end of the plan, or before a
    rollback. *)
Definition health_command target (cmd : str) : Prop :=
  (exists o, cmd = healthCheckCommand target o) \/ (exists color ports, cmd = healthCommand target color ports).
Definition healthy target (ev : event runnerE) : Prop :=
  exists client cmd out, ev = Ev (CRun client cmd) (out, None) /\ health_command target cmd.

(** The successful call of a step. *)
Definition step_event client (step : remoteStep) (ev : event runnerE) : Prop :=
  exists out, ev = if input step =s [] then Ev (CRun client (command step)) (out, None)
                   else Ev (CRunWithInput client (command step) (input step)) (out, None).

Lemma run_step_trace client step tr out err :
  runs (run_step client step) tr (out, err) -> err = None -> exists ev, tr = [ev] /\ step_event client step ev.
Proof.
  unfold run_step, step_event. intros Hr ->.
  destruct (input step =s []); apply runs_call in Hr as ->; eexists; (split; [done|by exists out]).
Qed.

(** When the loop reports no error, every step succeeded, in order. *)
Lemma run_steps_all d client steps target tr target' :
  runs (run_steps d client steps target) tr (target', None) ->
  exists evs, Forall2 (step_event client) steps evs /\ evs `sublist_of` tr.
Proof.
  revert target tr. induction steps as [|s t IH]; intros target tr; cbn [run_steps].
  { intros [-> _]. exists []. by split. }
  intros Hr. apply runs_bind in Hr as (t1 & [] & t2 & -> & _ & Hr).
  apply runs_bind in Hr as (t3 & [out err] & t4 & -> & Hstep & Hr).
  apply runs_bind in Hr as (t5 & [] & t6 & -> & _ & Hr).
  destruct err as [err|]; [by destruct Hr|].
  destruct (run_step_trace _ _ _ _ _ Hstep eq_refl) as (ev & -> & Hev).
  assert (Hrest : exists evs, Forall2 (step_event client) t evs /\ evs `sublist_of` t6).
  { destruct (resolvesCommit s); [|by apply IH in Hr].
    apply runs_bind in Hr as (t7 & res & t8 & -> & _ & Hr). destruct res as [target1|e]; [|by destruct Hr].
    apply IH in Hr as (evs & Hf & Hsub). exists evs. split; [done|]. by apply sublist_inserts_l. }
  destruct Hrest as (evs & Hf & Hsub). exists (ev :: evs). split; [by constructor|].
  apply sublist_inserts_l. cbn [app]. constructor. by apply sublist_inserts_l.
Qed.

Lemma checkColorHealth_checked target client color tr u :
  Target.Strategy target = lit "blue_green" -> runs (checkColorHealth target client color) tr (inl u) ->
  Exists (healthy target) tr.
Proof.
  unfold checkColorHealth. intros -> Hr. rewrite str_eqb_refl in Hr. cbn [negb] in Hr.
  destruct (negb _ || _); [by destruct Hr|].
  apply runs_bind_ok in Hr as [(e & _ & ?)|(t1 & ports & t2 & -> & _ & Hr)]; [done|].
  apply runs_bind in Hr as (t3 & [out err] & t4 & -> & Hcall & Hr). apply runs_call in Hcall as ->.
  destruct Hr as [-> Hr]. destruct err; [done|].
  apply Exists_app. right. rewrite app_nil_r. constructor.
  exists client, (healthCommand target color ports), out. split; [done|]. right. by eexists _, _.
Qed.

Lemma prepare_deploy_plan r d target tr p :
  runs (prepare_deploy r d target) tr (inl p) ->
  exists vars, remoteSteps target vars [planOptions p] = inl (planSteps p)
    /\ targetColor (planOptions p) = targetColor' p.
Proof.
  unfold prepare_deploy. intros Hr.
  apply runs_bind_ok in Hr as [(e & _ & ?)|(t1 & vars & t2 & -> & _ & Hr)]; [done|].
  apply runs_bind_ok in Hr as [(e & _ & ?)|(t3 & services & t4 & -> & _ & Hr)]; [done|].
  apply runs_bind in Hr as (t5 & [] & t6 & -> & _ & Hr).
  apply runs_bind_ok in Hr as [(e & _ & ?)|(t7 & [color current] & t8 & -> & _ & Hr)]; [done|].
  apply runs_bind_ok in Hr as [(e & _ & ?)|(t9 & singletons & t10 & -> & _ & Hr)]; [done|].
  apply runs_bind_ok in Hr as [(e & _ & ?)|(t11 & ports & t12 & -> & _ & Hr)]; [done|].
  apply runs_bind_ok in Hr as [(e & _ & ?)|(t13 & header & t14 & -> & _ & Hr)]; [done|].
  apply runs_bind_ok in Hr as [(e & _ & ?)|(t15 & steps & t16 & -> & Hsteps & Hr)]; [done|].
  destruct Hsteps as [_ Hsteps]. destruct Hr as [_ Hr]. injection Hr as ->. exists vars. by split.
Qed.

Lemma plan_checks_health target vars p tr client d target0 target' :
  Target.Strategy target = lit "blue_green" -> remoteSteps target vars [planOptions p] = inl (planSteps p) ->
  runs (run_steps d client (planSteps p) target0) tr (target', None) -> Exists (healthy target) tr.
Proof.
  intros Hs Hplan Hr. destruct (remoteSteps_shape _ _ _ _ Hplan) as (_ & source & env & svc & _ & _ & E).
  rewrite Hs, str_eqb_refl in E.
  destruct (blueGreenSteps_last target (plan_options target vars (planOptions p))) as (pre & Epre & _).
  rewrite Epre in E. apply run_steps_all in Hr as (evs & Hf & Hsub).
  assert (Hin : healthStep target (plan_options target vars (planOptions p)) ∈ planSteps p).
  { rewrite E. apply elem_of_cons. right. rewrite !elem_of_app. do 4 right. by left. }
  apply list_elem_of_lookup in Hin as [i Hi].
  destruct (Forall2_lookup_l _ _ _ _ _ Hf Hi) as (ev & Hev & out & ->).
  apply Exists_exists. eexists. split.
  - eapply elem_of_sublist; [|exact Hsub]. by eapply list_elem_of_lookup_2.
  - simpl. eexists client, _, out. split; [done|]. left. by eexists.
Qed.

Lemma quiet {A} l (p : prog runnerE A) target tr a :
  only (kinds l) p -> (forall k, In k l -> ~ In k [KSlot; KRoute]) -> runs p tr a ->
  guarded (healthy target) traffic tr.
Proof. intros Ho Hl Hr. apply guarded_none. exact (no_traffic _ _ (kinds_runs _ _ _ _ Ho Hr) Hl). Qed.

Lemma quiet_log target d stream m tr u : runs (append d stream m) tr u -> guarded (healthy target) traffic tr.
Proof. intros Hr. refine (quiet [KLog] _ target _ _ _ _ Hr); [apply append_only; in_kinds|not_traffic]. Qed.

Lemma rollback_guarded d target client tr res :
  Target.Strategy target = lit "blue_green" -> runs (rollback d target client) tr res ->
  guarded (healthy target) traffic tr.
Proof.
  unfold rollback. intros Hs Hr.
  apply runs_bind in Hr as (t1 & slot & t2 & -> & Hcall & Hr). apply runs_call in Hcall as ->.
  apply guarded_app; [apply guarded_none; constructor; [not_traffic_ev|constructor]|left].
  destruct slot as [slot|err]; [|destruct Hr as [-> _]; apply guarded_nil].
  apply runs_bind in Hr as (t3 & [] & t4 & -> & Hlog & Hr).
  apply guarded_app; [by apply (quiet_log _ _ _ _ _ _ Hlog)|left].
  assert (Hq : forall tr c, runs (checkColorHealth target client (Slot.Color slot)) tr c ->
                 guarded (healthy target) traffic tr).
  { intros tr c Hc. refine (quiet _ _ target _ _ (checkColorHealth_only _ _ _) _ Hc). not_traffic. }
  apply runs_bind_ok in Hr as [(e & Hc & _)|(t5 & [] & t6 & -> & Hc & Hr)]; [by apply (Hq _ _ Hc)|].
  apply guarded_app; [by apply (Hq _ _ Hc)|right]. by apply (checkColorHealth_checked _ _ _ _ _ Hs Hc).
Qed.


(** a deployment (that is not a rollback) reports success only if it computed
    a plan for its target and every command of the plan succeeded on the host, in
    the order of the plan. *)
Theorem deploy_success_runs_whole_plan r d target tr target'
    (Hrun : runs (deploy r d target) tr (None, target')) (Htrigger : Deployment.Trigger d <> lit "rollback") :
  exists client vars options steps evs,
    remoteSteps target vars [options] = inl steps
    /\ Forall2 (step_event client) steps evs /\ evs `sublist_of` tr.
Proof.
  unfold deploy in Hrun. destruct (negb _ && _); [by destruct Hrun|].
  apply runs_bind in Hrun as (t1 & connected & t2 & -> & _ & Hr).
  destruct connected as [client|e]; [|by destruct Hr].
  apply runs_bind in Hr as (t3 & [] & t4 & -> & _ & Hr).
  apply runs_bind in Hr as (t5 & [] & t6 & -> & _ & Hr).
  destruct (Deployment.Trigger d =s lit "rollback") eqn:E; [by bool_simp|].
  apply runs_bind in Hr as (t7 & prepared & t8 & -> & Hprep & Hr).
  destruct prepared as [p|e]; [|by destruct Hr].
  apply runs_bind in Hr as (t9 & [target1 err] & t10 & -> & Hsteps & Hr).
  destruct err as [err|]; [by destruct Hr|].
  destruct (prepare_deploy_plan _ _ _ _ _ Hprep) as (vars & Hplan & _).
  apply run_steps_all in Hsteps as (evs & Hf & Hsub).
  exists client, vars, (planOptions p), (planSteps p), evs. split; [done|]. split; [done|].
  do 4 apply sublist_inserts_l. by apply sublist_inserts_r.
Qed.
End Only2.
