(* ===== verification/SwitchFacts.v ===== *)
(** * Switching: proxy routes and singleton services

    Traces of [applyProxyRoutes], [switchSingletonServices] and
    [restoreSingletonServices] of runner.go. *)

From S2P Require Import Prelude GoStrings GoStringsFacts GoRegexp GoJson GoNet StringUtil AuditLog.
From S2P Require Import Db RemoteSteps ProxyCommands PlanFacts Effects Runner RunnerFacts.

Section Switch.
Context `{UnicodeTables} `{UuidLib} `{Resolver} `{SshLib}.
Implicit Types (d : Deployment.t) (target : Target.t) (client : Client)
  (options : remoteStepOptions) (color : str) (items : list preparedProxyRoute).

(** The commands sent to the host, each with whether it succeeded. *)
Definition remote_of (ev : event runnerE) : option (str * bool) :=
  match ev with
  | Ev e x =>
      match e in runnerE X return X -> option (str * bool) with
      | CRun _ cmd => fun r => Some (cmd, negb (is_some r.2))
      | CRunWithInput _ cmd _ => fun r => Some (cmd, negb (is_some r.2))
      | _ => fun _ => None
      end x
  end.
Definition remote (tr : list (event runnerE)) : list (str * bool) := omap remote_of tr.

Lemma remote_app t1 t2 : remote (t1 ++ t2) = remote t1 ++ remote t2.
Proof. apply omap_app. Qed.

Lemma remote_none tr : Forall (fun ev => ev_kind ev <> KRemote) tr -> remote tr = [].
Proof.
  induction 1 as [|[X e x] tr Hev _ IH]; [done|]. unfold remote in *. cbn [omap list_omap].
  assert (remote_of (Ev e x) = None) as -> by (destruct e; done). exact IH.
Qed.

Lemma remote_silent {A} l (p : prog runnerE A) tr a :
  only (kinds l) p -> ~ In KRemote l -> runs p tr a -> remote tr = [].
Proof.
  intros Ho Hl Hr. apply remote_none. pose proof (kinds_runs _ _ _ _ Ho Hr) as Hf.
  apply (Forall_impl _ _ _ Hf). intros ev Hk E. rewrite E in Hk. exact (Hl Hk).
Qed.

Lemma append_remote d stream m tr u : runs (append d stream m) tr u -> remote tr = [].
Proof. intros Hr. refine (remote_silent [KLog] _ _ _ _ _ Hr); [apply append_only; in_kinds|cbn; intuition congruence]. Qed.

Lemma log_output_remote d o tr u : runs (log_output d o) tr u -> remote tr = [].
Proof. intros Hr. refine (remote_silent [KLog] _ _ _ _ _ Hr); [apply log_output_only; in_kinds|cbn; intuition congruence]. Qed.

Lemma run_remote client cmd tr out err :
  runs (call (CRun client cmd)) tr (out, err) -> remote tr = [(cmd, negb (is_some err))].
Proof. intros Hr. by apply runs_call in Hr as ->. Qed.

(** ** Proxy routes *)

Definition applied_ok items : list (str * bool) := map (fun i => (route_command i, true)) items.

Lemma rollback_in_order_remote client items tr u :
  runs (rollback_in_order client items) tr u -> map fst (remote tr) = map rollbackCommand items.
Proof.
  revert tr. induction items as [|i t IH]; intros tr; cbn [rollback_in_order].
  - by intros [-> _].
  - intros Hr. apply runs_bind in Hr as (t1 & [out err] & t2 & -> & Hcall & Hr).
    rewrite remote_app, (run_remote _ _ _ _ _ Hcall). simpl. f_equal. exact (IH _ Hr).
Qed.

Lemma rollbackProxyRoutes_remote client items tr u :
  runs (rollbackProxyRoutes client items) tr u -> map fst (remote tr) = map rollbackCommand (rev items).
Proof. apply rollback_in_order_remote. Qed.

(** The commands of an attempt that failed: the routes applied so far, the
    command that failed (if it was a command), and the restoring commands of the
    applied routes, last one first. *)
Definition undone items (cmds : list (str * bool)) : Prop :=
  exists failed undo, cmds = applied_ok items ++ failed ++ undo
    /\ (failed = [] \/ exists cmd, failed = [(cmd, false)])
    /\ map fst undo = map rollbackCommand (rev items).

Lemma apply_routes_remote d client items applied tr res :
  runs (apply_routes d client items applied) tr res ->
  match res with
  | inl _ => remote tr = applied_ok items
  | inr _ => exists before after, items = before ++ after
               /\ undone (applied ++ before) (applied_ok applied ++ remote tr)
  end.
Proof.
  revert applied tr. induction items as [|i t IH]; intros applied tr; cbn [apply_routes].
  { by intros [-> ->]. }
  intros Hr. apply runs_bind in Hr as (t1 & [] & t2 & -> & Hlog & Hr).
  apply runs_bind in Hr as (t3 & [out err] & t4 & -> & Hcall & Hr).
  apply runs_bind in Hr as (t5 & [] & t6 & -> & Hlog2 & Hr).
  rewrite !remote_app, (append_remote _ _ _ _ _ Hlog), (run_remote _ _ _ _ _ Hcall),
    (log_output_remote _ _ _ _ Hlog2). cbn [app].
  destruct err as [err|]; cbn [is_some negb].
  - apply runs_bind in Hr as (t7 & [x|x] & t8 & -> & Hm & Hr); apply runs_call in Hm as ->;
      apply runs_bind in Hr as (t9 & [] & t10 & -> & Hroll & [-> ->]);
      apply rollbackProxyRoutes_remote in Hroll;
      exists [], (i :: t); (split; [reflexivity|]); rewrite app_nil_r;
      exists [(route_command i, false)], (remote t9);
      (split; [rewrite !remote_app; cbn; by rewrite app_nil_r|]); (split; [by right; eexists|exact Hroll]).
  - specialize (IH _ _ Hr). destruct res as [[]|e]; [by rewrite IH|].
    destruct IH as (before & after & -> & Hu). exists (i :: before), after. split; [done|].
    assert (Ha : applied_ok (applied ++ [i]) = applied_ok applied ++ [(route_command i, true)])
      by (unfold applied_ok; by rewrite map_app).
    rewrite Ha, <- !app_assoc in Hu. exact Hu.
Qed.

Lemma record_routes_remote client items tr res :
  runs (record_routes client items) tr res ->
  match res with
  | inl _ => remote tr = []
  | inr _ => map fst (remote tr) = map rollbackCommand (rev items)
  end.
Proof.
  unfold record_routes. destruct (_ <? _)%nat; [|by intros [-> ->]].
  intros Hr. apply runs_bind in Hr as (t1 & promoted & t2 & -> & Hcall & Hr). apply runs_call in Hcall as ->.
  rewrite remote_app. cbn [app remote omap list_omap remote_of].
  destruct promoted as [rows|e].
  - destruct (negb _); [|by destruct Hr as [-> ->]].
    apply runs_bind in Hr as (t3 & [] & t4 & -> & Hroll & [-> ->]). rewrite app_nil_r.
    by apply rollbackProxyRoutes_remote in Hroll.
  - apply runs_bind in Hr as (t3 & [] & t4 & -> & Hroll & [-> ->]). rewrite app_nil_r.
    by apply rollbackProxyRoutes_remote in Hroll.
Qed.

Lemma prepare_routes_spec routes color tr res :
  runs (prepare_routes routes color) tr res ->
  remote tr = [] /\ match res with
                    | inl items => Forall2 (fun r i => prepareProxyRoute r color = inl i) routes items
                    | inr _ => True end.
Proof.
  revert tr res. induction routes as [|r t IH]; intros tr res; cbn [prepare_routes].
  { intros [-> ->]. split; [done|constructor]. }
  destruct (prepareProxyRoute r color) as [item|err] eqn:E; intros Hr.
  - apply runs_bind_ok in Hr as [(e & Hr & ->)|(t1 & items & t2 & -> & Hr & [-> ->])].
    + by destruct (IH _ _ Hr).
    + destruct (IH _ _ Hr) as [Hrem Hf]. rewrite app_nil_r. split; [done|]. by constructor.
  - apply runs_bind in Hr as (t1 & x & t2 & -> & Hcall & [-> ->]). apply runs_call in Hcall as ->. done.
Qed.

(** The two commands of a prepared route: one installs the colour's upstream, the
    other the upstream the database records. *)
Definition proxy_target (r : RouteTarget.t) (u : str) : ProxyTarget.t :=
  ProxyTarget.mk (RouteTarget.Domain r) u (RouteTarget.TlsEnabled r) (RouteTarget.ProxyType r).
Definition prepared_for color (i : preparedProxyRoute) : Prop :=
  proxyRouteUpstream (route i) color = inl (upstream i)
  /\ BuildCommand (proxy_target (route i) (upstream i)) = inl (route_command i)
  /\ BuildCommand (proxy_target (route i) (RouteTarget.UpstreamUrl (route i))) = inl (rollbackCommand i).

Lemma prepareProxyRoute_ok r color i : prepareProxyRoute r color = inl i -> route i = r /\ prepared_for color i.
Proof.
  unfold prepareProxyRoute. intros Hp. inv_ok Hp. injection Hp as <-. split; [done|]. by split.
Qed.

Lemma prepared_all routes items color :
  Forall2 (fun r i => prepareProxyRoute r color = inl i) routes items -> Forall (prepared_for color) items.
Proof.
  induction 1 as [|r i rs its Hp _ IH]; [constructor|].
  constructor; [by apply prepareProxyRoute_ok in Hp as [_ ?]|done].
Qed.


(** ** Singleton services *)

Definition is_color (c : str) : Prop := c = lit "blue" \/ c = lit "green".

Lemma defaultTargetColor_color c : is_color c -> defaultTargetColor c = c.
Proof. intros [->| ->]; vm_compute; reflexivity. Qed.

Definition service_rest target options color (action : str) : str :=
  lit " && port=$(" ++ colorPortCommand options ++ lit ") && COMPOSE_PROJECT_NAME="
  ++ ShellQuote (projectSlug (Target.ApplicationName target) ++ lit "-" ++ defaultTargetColor color)
  ++ lit " DEPLOY_COLOR=$color DEPLOY_PORT=$port" ++ composePortVariableAssignments (portVariables options)
  ++ lit " docker compose "
  ++ composeFileArguments (Target.ComposePath target) (serviceVariables options) (portVariables options)
  ++ lit " " ++ action ++ lit " " ++ composeServiceArguments (singletonServices options) ++ [].

Lemma serviceCommand_split target options color action :
  serviceCommand target options color action
  = lit "cd " ++ ShellQuote (Target.RemoteDirectory target) ++ lit " && color="
    ++ ShellQuote (defaultTargetColor color) ++ service_rest target options color action.
Proof. reflexivity. Qed.

(** Commands for different colours are different. *)
Lemma serviceCommand_color target options c1 c2 a1 a2 :
  is_color c1 -> is_color c2 ->
  serviceCommand target options c1 a1 = serviceCommand target options c2 a2 -> c1 = c2.
Proof.
  intros Hc1 Hc2 Heq.
  rewrite !serviceCommand_split, !defaultTargetColor_color in Heq by done.
  do 3 apply app_inv_head in Heq.
  apply (f_equal (sh_word false)) in Heq. rewrite !sh_word_ShellQuote in Heq by reflexivity.
  exact (f_equal (fun o : option (str * str) => match o with Some p => p.1 | None => [] end) Heq).
Qed.

Definition only_after (first second : str) (cmds : list (str * bool)) : Prop :=
  forall pre ok post, cmds = pre ++ (second, ok) :: post -> (first, true) ∈ pre.

Lemma only_after_cons first second x cmds :
  x.1 <> second -> (x = (first, true) \/ only_after first second cmds) -> only_after first second (x :: cmds).
Proof.
  intros Hx Hc pre ok post E. destruct pre as [|y pre]; injection E as E1 E2.
  - rewrite E1 in Hx. by destruct Hx.
  - subst y. destruct Hc as [->|Hc]; [by left|right]. by apply (Hc pre ok post).
Qed.

Lemma only_after_nil first second : only_after first second [].
Proof. intros [|? ?] ok post E; discriminate E. Qed.

(** a normal switch of the singleton services starts them in the new colour
    only after stopping them in the old colour has succeeded, so the two never run
    together; and it reports success only after exactly stop, start and a check
    that they are running, all successful. *)
Theorem singletons_stop_before_start d target client fromColor toColor options tr res
    (Hrun : runs (switchSingletonServices d target client fromColor toColor options) tr res)
    (Hfrom : is_color fromColor) (Hto : is_color toColor) (Hdiff : fromColor <> toColor) :
  let cmd c a := serviceCommand target options c (lit a) in
  only_after (cmd fromColor "stop") (cmd toColor "start") (remote tr)
  /\ (res = inl tt -> skips_singletons target options = false ->
      remote tr = [(cmd fromColor "stop", true); (cmd toColor "start", true);
                   (cmd toColor "ps --status running --services", true)]).
Proof.
  intros cmd. unfold switchSingletonServices in Hrun.
  assert (Hne : forall a, cmd fromColor a <> cmd toColor "start").
  { intros a E. apply Hdiff. by apply (serviceCommand_color target options _ _ (lit a) (lit "start")). }
  destruct (skips_singletons target options).
  { destruct Hrun as [-> ->]. split; [apply only_after_nil|intros _ Hx; discriminate Hx]. }
  apply runs_bind in Hrun as (t1 & [] & t2 & -> & Hlog & Hr).
  rewrite remote_app, (append_remote _ _ _ _ _ Hlog). cbn [app].
  assert (Hcolor : negb (fromColor =s []) = true) by (by destruct Hfrom as [->| ->]).
  rewrite Hcolor in Hr. apply runs_bind_ok in Hr as [(e & Hs & ->)|(t3 & [] & t4 & -> & Hs & Hr)].
  - split; [|intros Hx; discriminate Hx]. apply runs_bind in Hs as (t3 & [out err] & t4 & -> & Hstop & Hs).
    rewrite remote_app, (run_remote _ _ _ _ _ Hstop). destruct err as [err|]; [|destruct Hs as [_ Hx]; discriminate Hx].
    apply runs_bind in Hs as (t5 & [out2 err2] & t6 & -> & Hstart & [-> _]).
    rewrite remote_app, (run_remote _ _ _ _ _ Hstart). cbn [app].
    apply only_after_cons; [apply Hne|right]. apply only_after_cons; [apply Hne|right]. apply only_after_nil.
  - apply runs_bind in Hs as (t5 & [out err] & t6 & -> & Hstop & Hs).
    destruct err as [err|].
    { apply runs_bind in Hs as (t7 & [out2 err2] & t8 & _ & _ & [_ Hx]). discriminate Hx. }
    destruct Hs as [-> _].
    rewrite !remote_app, (run_remote _ _ _ _ _ Hstop). cbn [app is_some negb remote omap list_omap].
    split; [apply only_after_cons; [apply Hne|by left]|]. intros -> _. f_equal.
    apply runs_bind in Hr as (t7 & [out2 err2] & t8 & -> & Hstart & Hr).
    rewrite remote_app, (run_remote _ _ _ _ _ Hstart).
    destruct err2 as [err2|]; [apply runs_bind in Hr as (t11 & x & t12 & _ & _ & [_ Hx]); discriminate Hx|].
    apply runs_bind in Hr as (t9 & [out3 err3] & t10 & -> & Hps & Hr).
    rewrite remote_app, (run_remote _ _ _ _ _ Hps).
    destruct (is_some err3 || _) eqn:Ee; [apply runs_bind in Hr as (t11 & x & t12 & _ & _ & [_ Hx]); discriminate Hx|].
    destruct Hr as [-> _]. apply orb_false_iff in Ee as [Ee _]. by rewrite Ee.
Qed.
End Switch.
