(* ===== verification/Lifecycle.v ===== *)
(** * The life of a deployment, and of the slots it switches

    Workers, the API and the recovery at start-up change the deployments table only
    through the statements of core.sql.go.  [step] is one such statement (or anything
    that leaves the table alone), taken by anyone at any time, so the executions of
    [steps] contain every interleaving of workers, requests and restarts.  The invariant
    and the theorems hold along all of them.  The second part follows the blue-green
    slots of an application: at most one is active, and a roll back returns to the
    previous one. *)

From S2P Require Import Prelude GoStrings GoStringsFacts GoRegexp GoJson Db.

(** ** Updating tables *)

Definition row_id (d : Deployment.t) : str := uuid_bytes (Deployment.ID d).

Lemma uuid_eqb_true a b : uuid_eqb a b = true <-> a = b /\ uuid_valid a = true.
Proof.
  unfold uuid_eqb. destruct a as [x p], b as [y q]; simpl. rewrite !andb_true_iff, str_eqb_eq. split.
  - intros [[-> ->] ->]. done.
  - intros [[= -> ->] ->]. done.
Qed.

Section SqlUpdate.
Context {R : Type} (cond : R -> bool) (set : R -> R).

Lemma sql_update_elem t x :
  x ∈ (sql_update cond set t).1 <->
  exists y, y ∈ t /\ x = (if cond y then set y else y).
Proof.
  unfold sql_update. simpl. rewrite list_elem_of_In, in_map_iff. setoid_rewrite list_elem_of_In. naive_solver.
Qed.

Lemma sql_update_rows t x :
  x ∈ (sql_update cond set t).2 <-> exists y, y ∈ t /\ cond y = true /\ x = set y.
Proof.
  unfold sql_update. simpl. rewrite list_elem_of_In, in_map_iff. setoid_rewrite list_elem_of_In.
  setoid_rewrite filter_In. naive_solver.
Qed.

Lemma sql_update_map {B} (f : R -> B) t :
  (forall x, f (set x) = f x) -> map f (sql_update cond set t).1 = map f t.
Proof.
  intros Hf. unfold sql_update. simpl. rewrite map_map. apply map_ext. intros x. by destruct (cond x).
Qed.
End SqlUpdate.

Lemma one_row_elem {R} (l : list R) r : one_row l = inl r -> r ∈ l.
Proof. destruct l; [done|]. intros [= ->]. by left. Qed.

Lemma one_row_unique {R} (l : list R) r : one_row l = inl r -> exists l', l = r :: l'.
Proof. destruct l; [done|]. intros [= ->]. by eexists. Qed.

Lemma NoDup_map_inj_elem {A B} (f : A -> B) l x y :
  NoDup (map f l) -> x ∈ l -> y ∈ l -> f x = f y -> x = y.
Proof.
  induction l as [|z l IH]; [by intros _ ?%not_elem_of_nil|]. cbn [map]. intros [Hz Hn]%NoDup_cons Hx Hy E.
  assert (Hin : forall w, w ∈ l -> f w ∈ map f l) by (intros w Hw; apply list_elem_of_In, in_map, list_elem_of_In, Hw).
  apply elem_of_cons in Hx as [->|Hx]; apply elem_of_cons in Hy as [->|Hy]; [done| | |by apply IH].
  - destruct Hz. rewrite E. by apply Hin.
  - destruct Hz. rewrite <- E. by apply Hin.
Qed.

(** ** Invariant of the deployments table *)

Section Lifecycle.
Context `{UuidSource}.

Record deployments_ok (db : database) : Prop := {
  ok_ids : NoDup (map row_id (deployments db));
  ok_issued : forall d, d ∈ deployments db ->
                uuid_valid (Deployment.ID d) = true /\ exists n, (n < uuid_supply db)%nat /\ row_id d = gen_uuid n;
  ok_checks : forallb deployment_check (deployments db) = true;
  ok_one : one_in_progress (deployments db) = true }.

Lemma store_ok db t rows db' :
  store_deployments db t rows = inl db' ->
  db' = with_deployments db t /\ forallb deployment_check rows = true /\ one_in_progress t = true.
Proof.
  unfold store_deployments. destruct (forallb deployment_check rows); [|done].
  destruct (one_in_progress t); [|done]. by intros [= <-].
Qed.

(** An update that keeps identifiers. *)
Definition keeps_id (set : Deployment.t -> Deployment.t) : Prop :=
  forall d, Deployment.ID (set d) = Deployment.ID d.

Lemma update_checks cond set t :
  forallb deployment_check t = true -> forallb deployment_check (sql_update cond set t).2 = true ->
  forallb deployment_check (sql_update cond set t).1 = true.
Proof.
  intros Ht Hrows. apply forallb_intro. intros x Hx. apply sql_update_elem in Hx as (y & Hy & ->).
  destruct (cond y) eqn:E; [|by apply (forallb_elem _ _ _ Ht)].
  apply (forallb_elem _ _ _ Hrows). apply sql_update_rows. by exists y.
Qed.

Lemma update_table_ok db cond set :
  keeps_id set -> deployments_ok db ->
  forallb deployment_check (sql_update cond set (deployments db)).2 = true ->
  one_in_progress (sql_update cond set (deployments db)).1 = true ->
  deployments_ok (with_deployments db (sql_update cond set (deployments db)).1).
Proof.
  intros Hk [Hids Hissued Hchk Hone] Hrows Hprog.
  assert (Hmap : map row_id (sql_update cond set (deployments db)).1 = map row_id (deployments db)).
  { apply sql_update_map. intros x. unfold row_id. by rewrite Hk. }
  split; cbn [deployments uuid_supply with_deployments].
  - by rewrite Hmap.
  - intros d Hd. apply sql_update_elem in Hd as (y & Hy & ->). destruct (Hissued y Hy) as [Hv Hn].
    unfold row_id in *. destruct (cond y); rewrite ?Hk; done.
  - by apply update_checks.
  - done.
Qed.

Lemma update_deployment_spec cond set db d db' :
  update_deployment cond set db = inl (d, db') ->
  db' = with_deployments db (sql_update cond set (deployments db)).1
  /\ forallb deployment_check (sql_update cond set (deployments db)).2 = true
  /\ one_in_progress (sql_update cond set (deployments db)).1 = true
  /\ exists y, y ∈ deployments db /\ cond y = true /\ d = set y.
Proof.
  unfold update_deployment. destruct (sql_update cond set (deployments db)) as [t rows] eqn:E.
  intros Hu. apply rbind_ok in Hu as (db1 & Hs & Hu). apply rbind_ok in Hu as (r & Ho & [= <- <-]).
  apply store_ok in Hs as (-> & Hc & Hp). split; [done|]. split; [done|]. split; [done|].
  apply one_row_elem in Ho. apply sql_update_rows. by rewrite E.
Qed.

Lemma update_deployment_ok cond set db d db' :
  keeps_id set -> deployments_ok db -> update_deployment cond set db = inl (d, db') -> deployments_ok db'.
Proof.
  intros Hk Hok Hu. apply update_deployment_spec in Hu as (-> & Hc & Hp & _). by apply update_table_ok.
Qed.

(** ** Steps *)

Inductive label := LStart (id : pgUUID_t) | LCancel (id : pgUUID_t) | LFinish (id : pgUUID_t) (status : str)
  | LCommit (id : pgUUID_t) | LCreate (id : pgUUID_t) | LRecover | LOther.

Inductive step : database -> label -> database -> Prop :=
| step_start id d db db' :
    StartQueuedDeployment id db = inl (d, db') -> step db (LStart id) db'
| step_cancel id d db db' :
    CancelQueuedDeployment id db = inl (d, db') -> step db (LCancel id) db'
| step_finish id status d db db' :
    status = lit "succeeded" \/ status = lit "failed" ->
    UpdateDeploymentStatus id status db = inl (d, db') -> step db (LFinish id status) db'
| step_commit id sha message d db db' :
    SetDeploymentCommitSHA id sha message db = inl (d, db') -> step db (LCommit id) db'
| step_create arg d db db' :
    CreateDeployment arg db = inl (d, db') -> step db (LCreate (Deployment.ID d)) db'
| step_recover rows db db' :
    FailRunningDeploymentsForRecovery db = inl (rows, db') -> step db LRecover db'
| step_other db db' :
    deployments db' = deployments db -> (uuid_supply db <= uuid_supply db')%nat -> step db LOther db'.

Inductive steps : database -> list label -> database -> Prop :=
| steps_nil db : steps db [] db
| steps_cons db l db1 ls db2 : step db l db1 -> steps db1 ls db2 -> steps db (l :: ls) db2.

(** Every step is an update that keeps identifiers, or adds one fresh queued row,
    or leaves the table alone. *)
Lemma recover_spec db rows db' :
  FailRunningDeploymentsForRecovery db = inl (rows, db') ->
  exists cond set, keeps_id set /\ deployments db' = (sql_update cond set (deployments db)).1
    /\ (forall d, Deployment.Status (set d) = lit "failed")
    /\ uuid_supply db' = uuid_supply db
    /\ forallb deployment_check (sql_update cond set (deployments db)).2 = true
    /\ one_in_progress (sql_update cond set (deployments db)).1 = true.
Proof.
  unfold FailRunningDeploymentsForRecovery.
  set (cond := fun d => Deployment.Status d =s lit "running"). set (set := fun d => DeploymentRow.set_status d _ _ _).
  destruct (sql_update cond set (deployments db)) as [t rs] eqn:E. intros Hr.
  apply rbind_ok in Hr as (db1 & Hs & Hr). apply store_ok in Hs as (-> & Hc & Hp).
  destruct (sql_update _ _ (applications _)) as [apps xs]. injection Hr as <- <-.
  exists cond, set. split; [done|]. rewrite E. by repeat split.
Qed.

Lemma create_spec arg db d db' :
  CreateDeployment arg db = inl (d, db') ->
  deployments db' = deployments db ++ [d] /\ uuid_supply db' = S (uuid_supply db)
  /\ Deployment.ID d = PgUUID (gen_uuid (uuid_supply db)) true /\ Deployment.Status d = lit "queued"
  /\ deployment_check d = true /\ one_in_progress (deployments db ++ [d]) = true.
Proof.
  unfold CreateDeployment. destruct (negb _); [done|]. destruct (_ ≫= _) as [[a p]|]; [|done]. intros Hc.
  apply rbind_ok in Hc as (db1 & Hs & Hc). apply store_ok in Hs as (-> & Hchk & Hone).
  injection Hc as <- <-. simpl in Hchk. rewrite andb_true_r in Hchk. by repeat split.
Qed.

Lemma other_ok db db' :
  deployments_ok db -> deployments db' = deployments db -> (uuid_supply db <= uuid_supply db')%nat ->
  deployments_ok db'.
Proof.
  intros [H1 H2 H3 H4] Heq Hle. split; rewrite ?Heq; try done.
  intros d Hd. destruct (H2 d Hd) as (Hv & n & Hn & He). split; [done|]. exists n. split; [lia|done].
Qed.

Lemma step_preserves_deployments_ok' db l db' : deployments_ok db -> step db l db' -> deployments_ok db'.
Proof.
  intros Hok Hstep. destruct Hstep as [id d db db' E|id d db db' E|id st d db db' _ E|id sha m d db db' E|arg d db db' E|rows db db' E
                    |db db' E Hle].
  1-3: by apply (update_deployment_ok _ _ _ _ _) in E.
  - unfold SetDeploymentCommitSHA in E. destruct (negb _); [done|].
    by apply (update_deployment_ok _ _ _ _ _) in E.
  - apply create_spec in E as (Ed & Es & Eid & _ & Hchk & Hone). destruct Hok as [H1 H2 H3 H4].
    split; rewrite Ed.
    + rewrite map_app. apply NoDup_app. split; [done|]. split; [|by apply NoDup_singleton].
      intros x Hx Hin. apply list_elem_of_singleton in Hin as ->. apply list_elem_of_In, in_map_iff in Hx as (y & Hy & Hin).
      apply list_elem_of_In in Hin. destruct (H2 y Hin) as (_ & n & Hn & Hr). unfold row_id in *. rewrite Eid in Hy.
      cbn [uuid_bytes] in Hy. rewrite Hr in Hy. apply gen_uuid_inj in Hy. lia.
    + intros y Hy. rewrite Es. apply elem_of_app in Hy as [Hy|Hy].
      * destruct (H2 y Hy) as (Hv & n & Hn & Hr). split; [done|]. exists n. split; [lia|done].
      * apply list_elem_of_singleton in Hy as ->. rewrite Eid. split; [done|]. exists (uuid_supply db).
        split; [lia|]. unfold row_id. by rewrite Eid.
    + by rewrite forallb_app, H3; simpl; rewrite Hchk.
    + done.
  - apply recover_spec in E as (cond & set & Hk & Ed & _ & Es & Hc & Hp).
    apply (other_ok (with_deployments db (sql_update cond set (deployments db)).1)); [by apply update_table_ok|done|].
    rewrite Es. simpl. lia.
  - by apply (other_ok db).
Qed.

Lemma steps_preserve_ok db ls db' : steps db ls db' -> deployments_ok db -> deployments_ok db'.
Proof. induction 1 as [|db l db1 ls db2 Hs _ IH]; [done|]. intros Hok. by apply IH, (step_preserves_deployments_ok' _ _ _ Hok Hs). Qed.


(** ** What a step does to a row *)

Definition rank (status : str) : nat :=
  if status =s lit "queued" then 0 else if status =s lit "running" then 1 else 2.

(** Later versions of a row: the same deployment of the same application, never
    back in the queue, never running again after its end. *)
Definition evolves (d d' : Deployment.t) : Prop :=
  Deployment.ID d' = Deployment.ID d /\ Deployment.ApplicationID d' = Deployment.ApplicationID d
  /\ Deployment.Trigger d' = Deployment.Trigger d /\ (rank (Deployment.Status d) <= rank (Deployment.Status d'))%nat.

Lemma evolves_refl d : evolves d d.
Proof. by repeat split. Qed.

Lemma evolves_trans a b c : evolves a b -> evolves b c -> evolves a c.
Proof.
  intros (E1 & E2 & E3 & L1) (F1 & F2 & F3 & L2).
  repeat split; [by rewrite F1|by rewrite F2|by rewrite F3|by etrans].
Qed.

(** The rows of the next table are later versions of rows, or one new row. *)
Definition table_step (t t' : list Deployment.t) : Prop :=
  exists fresh f, t' = map f t ++ fresh /\ (forall d, d ∈ t -> evolves d (f d)).

Lemma update_table_step cond set t :
  (forall d, d ∈ t -> cond d = true -> evolves d (set d)) -> table_step t (sql_update cond set t).1.
Proof.
  intros Hs. exists [], (fun d => if cond d then set d else d). split; [by rewrite app_nil_r|].
  intros d Hd. destruct (cond d) eqn:E; [by apply Hs|apply evolves_refl].
Qed.

Lemma set_status_evolves d status started finished :
  (rank (Deployment.Status d) <= rank status)%nat -> evolves d (DeploymentRow.set_status d status started finished).
Proof. by repeat split. Qed.

Lemma rank_final status : status = lit "succeeded" \/ status = lit "failed" -> rank status = 2%nat.
Proof. by intros [->| ->]. Qed.
Lemma rank_le status : (rank status <= 2)%nat.
Proof. unfold rank. destruct (_ =s _); [lia|]. destruct (_ =s _); lia. Qed.

Lemma queued_cond id d :
  uuid_eqb (Deployment.ID d) id && (Deployment.Status d =s lit "queued") = true ->
  Deployment.ID d = id /\ Deployment.Status d = lit "queued".
Proof. intros E. apply andb_true_iff in E as [E1 E2]. apply uuid_eqb_true in E1 as [E1 _]. by bool_simp. Qed.

Lemma step_table db l db' : step db l db' -> table_step (deployments db) (deployments db').
Proof.
  assert (Hu : forall cond set db d db', update_deployment cond set db = inl (d, db') ->
    (forall d, cond d = true -> evolves d (set d)) -> table_step (deployments db) (deployments db')).
  { intros cond set db0 d db1 E Hs. apply update_deployment_spec in E as (-> & _). apply update_table_step. auto. }
  intros [id d db0 db1 E|id d db0 db1 E|id st d db0 db1 Hst E|id sha m d db0 db1 E|arg d db0 db1 E|rows db0 db1 E
         |db0 db1 E Hle].
  - apply (Hu _ _ _ _ _ E). intros x Hx. apply queued_cond in Hx as [_ Hx]. apply set_status_evolves.
    rewrite Hx. vm_compute. lia.
  - apply (Hu _ _ _ _ _ E). intros x Hx. apply queued_cond in Hx as [_ Hx]. apply set_status_evolves.
    rewrite Hx. vm_compute. lia.
  - apply (Hu _ _ _ _ _ E). intros x _. apply set_status_evolves. rewrite (rank_final _ Hst). apply rank_le.
  - unfold SetDeploymentCommitSHA in E. destruct (negb _); [done|]. apply (Hu _ _ _ _ _ E). by repeat split.
  - apply create_spec in E as (-> & _). exists [d], id. split; [by rewrite map_id|]. intros x _. apply evolves_refl.
  - unfold FailRunningDeploymentsForRecovery in E.
    destruct (sql_update _ _ (deployments db0)) as [t rs] eqn:Eu.
    apply rbind_ok in E as (db2 & Hs & E). apply store_ok in Hs as (-> & _).
    destruct (sql_update _ _ (applications _)) as [apps xs]. injection E as _ <-. simpl.
    replace t with ((t, rs).1) by done. rewrite <- Eu. apply update_table_step.
    intros x _ _. apply set_status_evolves. apply rank_le.
  - rewrite E. exists [], (fun d => d). rewrite map_id, app_nil_r. split; [done|]. intros d _. apply evolves_refl.
Qed.

(** along every execution a deployment keeps its identity, application and
    trigger, never returns to the queue, and never runs again once it has ended;
    no row disappears. *)
Theorem status_never_goes_back db ls db' (Hsteps : steps db ls db') :
  forall d, d ∈ deployments db -> exists d', d' ∈ deployments db' /\ evolves d d'.
Proof.
  induction Hsteps as [db|db l db1 ls db2 Hs _ IH]; intros d Hd.
  - exists d. split; [done|apply evolves_refl].
  - destruct (step_table _ _ _ Hs) as (fresh & f & E & Hf).
    assert (Hin : f d ∈ deployments db1).
    { rewrite E. apply elem_of_app. left. apply list_elem_of_In, in_map, list_elem_of_In, Hd. }
    destruct (IH _ Hin) as (d' & Hd' & He). exists d'. split; [done|]. by apply (evolves_trans _ (f d)); [apply Hf|].
Qed.

(** ** At most once *)

(** Taking a deployment out of the queue: by a worker, or by a cancellation. *)
Definition takes (id : pgUUID_t) (l : label) : bool :=
  match l with
  | LStart id' | LCancel id' => bool_decide (id' = id)
  | _ => false
  end.

Definition left_queue (id : pgUUID_t) (db : database) : Prop :=
  (exists d, d ∈ deployments db /\ Deployment.ID d = id)
  /\ forall d, d ∈ deployments db -> Deployment.ID d = id -> Deployment.Status d <> lit "queued".

Lemma taking_step id db l db' :
  step db l db' -> takes id l = true ->
  (exists d, d ∈ deployments db /\ Deployment.ID d = id /\ Deployment.Status d = lit "queued")
  /\ left_queue id db'.
Proof.
  assert (Hu : forall st started finished d0 db0 db1,
    update_deployment (fun d => uuid_eqb (Deployment.ID d) id && (Deployment.Status d =s lit "queued"))
      (fun d => DeploymentRow.set_status d st (started d) (finished d)) db0 = inl (d0, db1) -> st <> lit "queued" ->
    (exists d, d ∈ deployments db0 /\ Deployment.ID d = id /\ Deployment.Status d = lit "queued")
    /\ left_queue id db1).
  { intros st started finished d0 db0 db1 E Hst.
    apply update_deployment_spec in E as (-> & _ & _ & y & Hy & Hc & ->). pose proof (queued_cond _ _ Hc) as [Hid Hq].
    split; [by exists y|]. split.
    - exists (DeploymentRow.set_status y st (started y) (finished y)). split; [|done].
      cbn [deployments with_deployments]. apply sql_update_elem. exists y. by rewrite Hc.
    - cbn [deployments with_deployments]. intros d Hd Hidd. apply sql_update_elem in Hd as (z & Hz & ->).
      revert Hidd. destruct (uuid_eqb (Deployment.ID z) id && _) eqn:Ez; intros Hidd; [exact Hst|].
      apply andb_true_iff in Hc as [Hc _]. apply uuid_eqb_true in Hc as [_ Hv].
      assert (Ht : uuid_eqb (Deployment.ID z) id = true). { apply uuid_eqb_true. split; congruence. }
      rewrite Ht in Ez. cbn [andb] in Ez. by apply str_eqb_neq in Ez. }
  intros Hs Ht. destruct Hs as [id' d db0 db1 E|id' d db0 db1 E| | | | |]; try discriminate Ht;
    cbn [takes] in Ht; apply bool_decide_eq_true in Ht as ->; refine (Hu _ _ _ _ _ _ E _); intros Hx; discriminate Hx.
Qed.

Lemma left_queue_step id db l db' :
  deployments_ok db -> step db l db' -> left_queue id db -> left_queue id db'.
Proof.
  intros Hok Hs [(d & Hd & Hid) Hq]. pose proof (step_preserves_deployments_ok' _ _ _ Hok Hs) as Hok'.
  destruct (step_table _ _ _ Hs) as (fresh & f & E & Hf).
  assert (Hin : f d ∈ deployments db').
  { rewrite E. apply elem_of_app. left. apply list_elem_of_In, in_map, list_elem_of_In, Hd. }
  destruct (Hf d Hd) as (Hfid & _ & _ & Hr). split; [exists (f d); split; [done|congruence]|].
  intros x Hx Hxid.
  assert (x = f d) as ->.
  { apply (NoDup_map_inj_elem row_id _ _ _ (ok_ids _ Hok')); [done|done|]. unfold row_id. congruence. }
  intros Ex. rewrite Ex in Hr. apply (Hq d Hd Hid).
  unfold rank in Hr. destruct (Deployment.Status d =s lit "queued") eqn:Eq; [by bool_simp|].
  change (lit "queued" =s lit "queued") with true in Hr. cbn iota in Hr. destruct (_ =s lit "running"); lia.
Qed.

Lemma left_queue_no_taking id db ls db' :
  deployments_ok db -> steps db ls db' -> left_queue id db -> List.filter (takes id) ls = [].
Proof.
  intros Hok Hs. induction Hs as [|db l db1 ls db2 Hs Hss IH]; intros Hl; [done|].
  pose proof (left_queue_step _ _ _ _ Hok Hs Hl) as Hl1.
  pose proof (step_preserves_deployments_ok' _ _ _ Hok Hs) as Hok1.
  cbn [List.filter]. destruct (takes id l) eqn:Et; [|by apply IH].
  destruct (taking_step _ _ _ _ Hs Et) as [(d & Hd & Hid & Hq) _]. by destruct (proj2 Hl d Hd Hid).
Qed.

(** C32: along every execution, with any number of workers, duplicate queue
    entries, cancellations, retries and restarts, a deployment leaves the queue at
    most once: it is started by at most one worker, and a cancelled deployment is
    never started. *)
Theorem taken_at_most_once id db ls db' (Hok : deployments_ok db) (Hsteps : steps db ls db') :
  (length (List.filter (takes id) ls) <= 1)%nat.
Proof.
  induction Hsteps as [|db l db1 ls db2 Hs Hss IH]; [simpl; lia|].
  pose proof (step_preserves_deployments_ok' _ _ _ Hok Hs) as Hok1.
  cbn [List.filter]. destruct (takes id l) eqn:Et; [|by apply IH].
  destruct (taking_step _ _ _ _ Hs Et) as [_ Hl]. cbn [length].
  rewrite (left_queue_no_taking _ _ _ _ Hok1 Hss Hl). simpl. lia.
Qed.

Lemma steps_app db1 ls1 db2 ls2 db3 : steps db1 ls1 db2 -> steps db2 ls2 db3 -> steps db1 (ls1 ++ ls2) db3.
Proof. induction 1 as [|db l dbx ls dby Hs _ IH]; [done|]. intros Hss. econstructor; [done|by apply IH]. Qed.

(** Executable form of an execution, for examples. *)
Definition run_label (arg : CreateDeploymentParams.t) (l : label) (db : database) : option database :=
  let keep {A} (r : result (A * database)) := match r with inl (_, db') => Some db' | inr _ => None end in
  match l with
  | LStart id => keep (StartQueuedDeployment id db)
  | LCancel id => keep (CancelQueuedDeployment id db)
  | LFinish id st => if (st =s lit "succeeded") || (st =s lit "failed") then keep (UpdateDeploymentStatus id st db) else None
  | LCommit id => None
  | LCreate id => match CreateDeployment arg db with
                  | inl (d, db') => if bool_decide (Deployment.ID d = id) then Some db' else None
                  | inr _ => None end
  | LRecover => keep (FailRunningDeploymentsForRecovery db)
  | LOther => Some db
  end.

Fixpoint run_labels (arg : CreateDeploymentParams.t) (ls : list label) (db : database) : option database :=
  match ls with [] => Some db | l :: t => db' ← run_label arg l db; run_labels arg t db' end.

Lemma run_label_step arg l db db' : run_label arg l db = Some db' -> step db l db'.
Proof.
  destruct l as [id|id|id st|id|id| |]; cbn [run_label]; intros Hr; try discriminate Hr.
  - destruct (StartQueuedDeployment id db) as [[d db1]|e] eqn:E; [|done]. injection Hr as <-. by eapply step_start.
  - destruct (CancelQueuedDeployment id db) as [[d db1]|e] eqn:E; [|done]. injection Hr as <-. by eapply step_cancel.
  - destruct (_ || _) eqn:Es; [|done]. apply orb_true_iff in Es. rewrite !str_eqb_eq in Es.
    destruct (UpdateDeploymentStatus id st db) as [[d db1]|e] eqn:E; [|done]. injection Hr as <-.
    by apply (step_finish _ _ d).
  - destruct (CreateDeployment arg db) as [[d db1]|e] eqn:E; [|done]. case_bool_decide as Hid; [|done].
    injection Hr as <-. subst id. by eapply step_create.
  - destruct (FailRunningDeploymentsForRecovery db) as [[d db1]|e] eqn:E; [|done]. injection Hr as <-. by eapply step_recover.
  - injection Hr as <-. by apply step_other.
Qed.

Lemma run_labels_steps arg ls db db' : run_labels arg ls db = Some db' -> steps db ls db'.
Proof.
  revert db. induction ls as [|l ls IH]; intros db; cbn [run_labels].
  - intros [= <-]. constructor.
  - intros Hr. apply bind_Some in Hr as (db1 & Hl & Hr). econstructor; [by apply (run_label_step arg)|by apply IH].
Qed.
End Lifecycle.

(** ** A concrete database *)

Module Demo.
#[local] Instance unary_uuids : UuidSource.
Proof.
  refine {| gen_uuid n := repeat "u"%char n |}.
  intros a b E. apply (f_equal length) in E. by rewrite !repeat_length in E.
Defined.

Definition id (s : string) : pgUUID_t := PgUUID (lit s) true.
Definition app : Application.t :=
  Application.mk (id "app") (id "env") (id "srv") (lit "api") (someText (lit "https://github.com/acme/api"))
    (lit "main") (lit "compose.yml") (lit "/srv/api") textNull
    (someText (lit "http://127.0.0.1:{port}/health?color={color}")) textNull textNull (lit "idle") textNull textNull
    (Some 0%Z) (Some 0%Z) true 1 0 0 None.
Definition server : Server.t :=
  Server.mk (id "srv") (lit "srv-1") (lit "10.0.0.5") (lit "deploy") 22 textNull (lit "tailscale_ssh") (lit "caddy")
    (lit "healthy") None None None None (Some 0%Z) (Some 0%Z).
Definition db : database :=
  Database [app] [] [] [] [] [] [] [] [Environment.mk (id "env") (id "prj") (lit "prod") (lit "prod") (lit "production") false None textNull None (Some 0%Z) (Some 0%Z)]
    [ProjectRow.mk (id "prj") (lit "acme") (lit "acme") [] (Some 0%Z) (Some 0%Z) (PgUUID [] false) (PgUUID [] false) textNull textNull 1] [server] [] [] (Inventory [] [] [] [] []) 5 0.
Definition manual : CreateDeploymentParams.t :=
  CreateDeploymentParams.mk (lit "manual") (lit "blue_green") textNull textNull textNull textNull (id "app").

Lemma db_ok : deployments_ok db.
Proof. split; try (vm_compute; reflexivity); [constructor|by intros d ?%not_elem_of_nil]. Qed.

Definition d0 : pgUUID_t := PgUUID [] true.
Definition d1 : pgUUID_t := PgUUID (lit "u") true.
Definition history : list label := [LCreate d0; LStart d0; LRecover; LCreate d1; LStart d1; LFinish d0 (lit "succeeded")].


Lemma taken_at_most_once_witness :
  exists db', steps db history db' /\ (length (List.filter (takes d0) history) <= 1)%nat.
Proof.
  destruct (run_labels manual history db) as [db'|] eqn:E; [|vm_compute in E; discriminate E].
  exists db'. split; [by apply (run_labels_steps manual)|].
  apply (taken_at_most_once d0 db history db' db_ok). by apply (run_labels_steps manual).
Defined.

Lemma status_never_goes_back_witness :
  exists dbq db' d d', run_labels manual [LCreate d0] db = Some dbq /\ d ∈ deployments dbq
    /\ d' ∈ deployments db' /\ Deployment.Status d = lit "queued" /\ Deployment.Status d' = lit "running" /\ evolves d d'.
Proof.
  destruct (run_labels manual [LCreate d0] db) as [dbq|] eqn:E; [|vm_compute in E; discriminate E].
  destruct (run_labels manual [LStart d0] dbq) as [db'|] eqn:E'; [|vm_compute in E; injection E as <-; vm_compute in E'; discriminate E'].
  assert (Hin : exists d, d ∈ deployments dbq /\ Deployment.Status d = lit "queued"
                 /\ forall d', d' ∈ deployments db' -> Deployment.Status d' = lit "running").
  { vm_compute in E. injection E as <-. vm_compute in E'. injection E' as <-.
    eexists. split; [by left|]. split; [reflexivity|]. intros d' Hd'. apply list_elem_of_singleton in Hd' as ->. reflexivity. }
  destruct Hin as (d & Hd & Hq & Hr).
  destruct (status_never_goes_back dbq [LStart d0] db' (run_labels_steps manual _ _ _ E') d Hd) as (d' & Hd' & He).
  exists dbq, db', d, d'. split; [done|]. split; [done|]. split; [done|]. split; [done|]. split; [by apply Hr|done].
Defined.

(** The write of the final status does not look at the current one.  After a
    restart has marked a running deployment as failed, a second deployment of the
    same application can be started, and the first worker, which is still running,
    can then turn its failed deployment into a succeeded one. *)
Theorem ended_status_is_overwritten :
  exists db1 db2 db3,
    run_labels manual [LCreate d0; LStart d0; LRecover] db = Some db1
    /\ run_labels manual [LCreate d1; LStart d1] db1 = Some db2
    /\ run_labels manual [LFinish d0 (lit "succeeded")] db2 = Some db3
    /\ map Deployment.Status (deployments db1) = [lit "failed"]
    /\ map Deployment.Status (deployments db2) = [lit "failed"; lit "running"]
    /\ map Deployment.Status (deployments db3) = [lit "succeeded"; lit "running"].
Proof. do 3 eexists. repeat (split; [vm_compute; reflexivity|]). vm_compute. reflexivity. Qed.
End Demo.

(** * Blue-green slots: which colour serves an application

    The invariant of application_deployment_slots and the effect of the slot
    statements of core.sql.go in the order the runner issues them. *)

Definition slot_key (s : Slot.t) : str * str * str :=
  (uuid_bytes (Slot.ApplicationID s), uuid_bytes (Slot.ServerID s), Slot.Color s).
Definition two_color (c : str) : Prop := c = lit "blue" \/ c = lit "green".
Definition is_active (s : Slot.t) : Prop := Slot.Status s = lit "active".
Definition tracked_status (s : Slot.t) : bool :=
  (Slot.Status s =s lit "active") || (Slot.Status s =s lit "standby").

(** One row per application, server and colour, and at most one active row per
    application and server. *)
Record slots_ok (db : database) : Prop := {
  slots_unique : NoDup (map slot_key (slots db));
  slots_valid : forall s, s ∈ slots db -> uuid_valid (Slot.ApplicationID s) = true
                  /\ uuid_valid (Slot.ServerID s) = true /\ two_color (Slot.Color s);
  slots_one_active : forall s1 s2, s1 ∈ slots db -> s2 ∈ slots db -> is_active s1 -> is_active s2 ->
      Slot.ApplicationID s1 = Slot.ApplicationID s2 -> Slot.ServerID s1 = Slot.ServerID s2 -> s1 = s2 }.

Lemma slot_of_true app server s :
  slot_of app server s = true <->
  Slot.ApplicationID s = app /\ Slot.ServerID s = server /\ uuid_valid app = true /\ uuid_valid server = true.
Proof.
  unfold slot_of. rewrite andb_true_iff, !uuid_eqb_true. split.
  - intros [[<- H1] [<- H2]]. done.
  - intros (<- & <- & H1 & H2). done.
Qed.

Lemma same_key t s1 s2 :
  NoDup (map slot_key t) -> s1 ∈ t -> s2 ∈ t -> slot_key s1 = slot_key s2 -> s1 = s2.
Proof. apply NoDup_map_inj_elem. Qed.

(** A list whose only element with [p] is [x]. *)
Lemma filter_singleton {A} (p : A -> bool) (l : list A) x :
  NoDup l -> x ∈ l -> p x = true -> (forall y, y ∈ l -> p y = true -> y = x) -> List.filter p l = [x].
Proof.
  induction l as [|y l IH]; [by intros _ ?%not_elem_of_nil|]. intros [Hy Hn]%NoDup_cons Hx Hp Hu. cbn [List.filter].
  assert (Hnone : forall l', (forall z, z ∈ l' -> z ∈ l) -> x ∉ l -> List.filter p l' = []).
  { induction l' as [|z l' IH']; [done|]. intros Hin Hxl. cbn [List.filter].
    destruct (p z) eqn:Ez; [|apply IH'; [|done]; intros w Hw; apply Hin; by right].
    destruct Hxl. rewrite <- (Hu z); [apply Hin; by left|right; apply Hin; by left|done]. }
  destruct (p y) eqn:Ey.
  - assert (y = x) as -> by (apply Hu; [by left|done]). f_equal. by apply Hnone.
  - apply elem_of_cons in Hx as [->|Hx]; [congruence|]. apply IH; try done. intros z Hz. apply Hu. by right.
Qed.

Lemma slot_with_status_unique db app server status s :
  slots_ok db -> s ∈ slots db -> slot_of app server s = true -> Slot.Status s = status ->
  (forall s', s' ∈ slots db -> slot_of app server s' = true -> Slot.Status s' = status -> s' = s) ->
  slot_with_status app server status db = [s].
Proof.
  intros Hok Hs Hof Hst Hu. unfold slot_with_status.
  rewrite (filter_singleton _ _ s).
  - done.
  - apply (NoDup_fmap_1 slot_key). apply Hok.
  - done.
  - by rewrite Hof, Hst, str_eqb_refl.
  - intros y Hy E. bool_simp. by apply Hu.
Qed.

Lemma one_row_status db app server status s :
  one_row (slot_with_status app server status db) = inl s ->
  s ∈ slots db /\ slot_of app server s = true /\ Slot.Status s = status.
Proof.
  intros H. apply one_row_elem in H. unfold slot_with_status in H.
  assert (Hin : s ∈ merge_sort (time_desc Slot.UpdatedAt)
            (List.filter (fun s => slot_of app server s && (Slot.Status s =s status)) (slots db))).
  { rewrite <- (take_drop 1 (merge_sort _ _)). apply elem_of_app. by left. }
  rewrite merge_sort_Permutation in Hin. apply list_elem_of_In, filter_In in Hin as [Hin Hc].
  rewrite list_elem_of_In. by bool_simp.
Qed.

(** ** Activation *)

Definition activated (color : str) (now : Z) (s : Slot.t) : Slot.t :=
  if Slot.Color s =s color then SlotRow.set_status s (lit "active") (Some now) (Some now)
  else SlotRow.set_status s (lit "standby") (Slot.PromotedAt s) (Some now).

Lemma activate_elem color app server db rows db' s' :
  ActivateDeploymentSlot color app server db = inl (rows, db') ->
  s' ∈ slots db' <-> exists s, s ∈ slots db /\
     s' = (if slot_of app server s && tracked_status s then activated color (clock db) s else s).
Proof.
  unfold ActivateDeploymentSlot. destruct (sql_update _ _ (slots db)) as [t rs] eqn:E. intros [= _ <-].
  cbn [slots with_slots]. replace t with ((t, rs).1) by done. rewrite <- E. apply sql_update_elem.
Qed.

Lemma activate_keys color app server db rows db' :
  ActivateDeploymentSlot color app server db = inl (rows, db') -> map slot_key (slots db') = map slot_key (slots db).
Proof.
  unfold ActivateDeploymentSlot. destruct (sql_update _ _ (slots db)) as [t rs] eqn:E. intros [= _ <-].
  cbn [slots with_slots]. replace t with ((t, rs).1) by done. rewrite <- E. apply sql_update_map.
  intros s. unfold slot_key. by destruct (Slot.Color s =s color).
Qed.

Lemma activated_fields color now s :
  Slot.ApplicationID (activated color now s) = Slot.ApplicationID s
  /\ Slot.ServerID (activated color now s) = Slot.ServerID s
  /\ Slot.Color (activated color now s) = Slot.Color s
  /\ Slot.DeploymentID (activated color now s) = Slot.DeploymentID s
  /\ Slot.ImageRef (activated color now s) = Slot.ImageRef s
  /\ Slot.Status (activated color now s) = (if Slot.Color s =s color then lit "active" else lit "standby").
Proof. unfold activated. by destruct (_ =s _). Qed.

Section Activate.
Context (color : str) (app server : pgUUID_t) (db : database) (rows : list Slot.t) (db' : database).
Hypothesis (Hact : ActivateDeploymentSlot color app server db = inl (rows, db')).
Hypothesis (Hok : slots_ok db).

(** Rows of another application or server are untouched; active rows of this one
    have the activated colour. *)
Lemma activate_other s' : s' ∈ slots db' -> slot_of app server s' = false -> s' ∈ slots db.
Proof.
  intros Hs Hof. apply (activate_elem _ _ _ _ _ _ _ Hact) in Hs as (s & Hs & ->).
  destruct (slot_of app server s) eqn:Eo; [|exact Hs]. destruct (tracked_status s) eqn:Et; [|exact Hs].
  cbn [andb] in Hof. apply slot_of_true in Eo as (<- & <- & Ha & Hv).
  assert (Ht : slot_of (Slot.ApplicationID s) (Slot.ServerID s) (activated color (clock db) s) = true).
  { apply slot_of_true. by destruct (activated_fields color (clock db) s) as (-> & -> & _). }
  congruence.
Qed.

Lemma activate_color s' : s' ∈ slots db' -> slot_of app server s' = true -> is_active s' -> Slot.Color s' = color.
Proof.
  intros Hs Hof Ha. apply (activate_elem _ _ _ _ _ _ _ Hact) in Hs as (s & Hs & ->).
  destruct (slot_of app server s) eqn:Eo; cbn [andb] in *; [|congruence].
  destruct (tracked_status s) eqn:Et.
  - unfold is_active in Ha. destruct (activated_fields color (clock db) s) as (_ & _ & -> & _ & _ & E).
    rewrite E in Ha. destruct (Slot.Color s =s color) eqn:Ec; [by bool_simp|done].
  - unfold is_active, tracked_status in *. rewrite Ha in Et. done.
Qed.

Lemma activate_ok : slots_ok db'.
Proof.
  destruct Hok as [Hu Hv Ho].
  assert (Hu' : NoDup (map slot_key (slots db'))) by (by rewrite (activate_keys _ _ _ _ _ _ Hact)).
  split; [done| |].
  - intros s' Hs'. apply (activate_elem _ _ _ _ _ _ _ Hact) in Hs' as (s & Hs & ->).
    destruct (slot_of app server s && tracked_status s); [|by apply Hv].
    destruct (activated_fields color (clock db) s) as (-> & -> & -> & _). by apply Hv.
  - intros s1 s2 H1 H2 A1 A2 Ea Es. destruct (slot_of app server s1) eqn:O1.
    + assert (O2 : slot_of app server s2 = true).
      { apply slot_of_true in O1. apply slot_of_true. rewrite <- Ea, <- Es. exact O1. }
      apply (same_key _ _ _ Hu' H1 H2). unfold slot_key. rewrite Ea, Es.
      by rewrite (activate_color _ H1 O1 A1), (activate_color _ H2 O2 A2).
    + assert (O2 : slot_of app server s2 = false).
      { unfold slot_of in *. by rewrite <- Ea, <- Es. }
      apply Ho; try done; by apply activate_other.
Qed.

(** A tracked row of the application becomes active if it has the colour, standby
    otherwise, and keeps its deployment. *)
Lemma activate_row s :
  s ∈ slots db -> slot_of app server s = true -> tracked_status s = true ->
  activated color (clock db) s ∈ slots db'.
Proof. intros Hs Ho Ht. apply (activate_elem _ _ _ _ _ _ _ Hact). exists s. by rewrite Ho, Ht. Qed.
End Activate.

(** ** Recording a standby slot *)

Section Upsert.
Context `{UuidSource} (arg : UpsertDeploymentSlotParams.t) (db : database) (r : Slot.t) (db' : database).
Let app := UpsertDeploymentSlotParams.ApplicationID arg.
Let server := UpsertDeploymentSlotParams.ServerID arg.
Let color := UpsertDeploymentSlotParams.Color arg.
Hypothesis (Hup : UpsertDeploymentSlot arg db = inl (r, db')).
Hypothesis (Hstandby : UpsertDeploymentSlotParams.Status arg = lit "standby").
Hypothesis (Hok : slots_ok db).

Definition replaced (s : Slot.t) : Slot.t :=
  SlotRow.replace s (UpsertDeploymentSlotParams.DeploymentID arg) (UpsertDeploymentSlotParams.ImageRef arg)
    (norm_text (UpsertDeploymentSlotParams.ImageDigest arg)) (lit "standby") None (Some (clock db)).
Definition conflicts (s : Slot.t) : bool := slot_of app server s && (Slot.Color s =s color).

(** The table after the statement, with the row that was written. *)
Lemma upsert_table :
  uuid_valid app = true /\ uuid_valid server = true /\ two_color color
  /\ Slot.ApplicationID r = app /\ Slot.ServerID r = server /\ Slot.Color r = color
  /\ Slot.DeploymentID r = UpsertDeploymentSlotParams.DeploymentID arg
  /\ Slot.ImageRef r = UpsertDeploymentSlotParams.ImageRef arg
  /\ Slot.Status r = lit "standby" /\ clock db' = clock db
  /\ ((slots db' = map (fun s => if conflicts s then replaced s else s) (slots db)
        /\ exists s, s ∈ slots db /\ conflicts s = true /\ r = replaced s)
      \/ ((forall s, s ∈ slots db -> conflicts s = false) /\ slots db' = slots db ++ [r])).
Proof.
  unfold UpsertDeploymentSlot in Hup. fold app server color in Hup. rewrite Hstandby in Hup.
  destruct (negb (uuid_valid app && uuid_valid server)) eqn:Ev; [done|]. bool_simp.
  destruct (slot_check _) eqn:Ec; [|done]. cbn [negb] in Hup.
  assert (Hcolor : two_color color).
  { unfold slot_check in Ec. cbn [Slot.Color] in Ec. do 5 (apply andb_true_iff in Ec as [Ec _]).
    apply orb_true_iff in Ec. by rewrite !str_eqb_eq in Ec. }
  change (lit "standby" =s lit "active") with false in Hup. cbn iota in Hup.
  destruct (existsb _ (slots db)) eqn:Ex.
  - destruct (sql_update _ _ (slots db)) as [t rs] eqn:Eu. apply rbind_ok in Hup as (s0 & Ho & [= <- <-]).
    apply one_row_elem in Ho. injection Eu as Et Er. subst rs.
    apply list_elem_of_In, in_map_iff in Ho as (s & Hr & Hs). apply filter_In in Hs as [Hs Hc].
    pose proof Hc as Hc2. apply andb_true_iff in Hc2 as [Hof Hcol]. apply slot_of_true in Hof as (Ha & Hb & _).
    apply str_eqb_eq in Hcol. subst s0. cbn [SlotRow.replace Slot.ApplicationID Slot.ServerID Slot.Color Slot.DeploymentID Slot.ImageRef Slot.Status clock with_slots].
    repeat (split; [done|]). left. split; [by rewrite <- Et|]. exists s. split; [by apply list_elem_of_In|]. by split.
  - injection Hup as <- <-. cbn [Slot.ApplicationID Slot.ServerID Slot.Color Slot.DeploymentID Slot.ImageRef Slot.Status clock with_slots with_uuid_supply slots].
    repeat (split; [done|]). right. split; [|done]. intros s Hs. destruct (conflicts s) eqn:Ecs; [|done].
    rewrite <- Ex. symmetry. apply existsb_exists. exists s. split; [by apply list_elem_of_In|exact Ecs].
Qed.

Lemma conflicts_key s s2 : conflicts s = true -> conflicts s2 = true -> slot_key s = slot_key s2.
Proof.
  unfold conflicts, slot_key. intros H1 H2.
  apply andb_true_iff in H1 as [H1 E1], H2 as [H2 E2]. apply slot_of_true in H1 as (-> & -> & _), H2 as (-> & -> & _).
  apply str_eqb_eq in E1, E2. by rewrite E1, E2.
Qed.

(** The written row replaces the one of its colour; the others stay. *)
Lemma slot_upsert_elem s' : s' ∈ slots db' <-> s' = r \/ (s' ∈ slots db /\ conflicts s' = false).
Proof.
  destruct upsert_table as (_ & _ & _ & _ & _ & _ & _ & _ & _ & _ & [[-> (s0 & Hs0 & Hc0 & Hr)]|[Hno ->]]).
  - rewrite list_elem_of_In, in_map_iff. split.
    + intros (s & E & Hs). apply list_elem_of_In in Hs. destruct (conflicts s) eqn:Ec; [|right; by subst].
      left. assert (s = s0) as ->; [|by rewrite <- E, Hr].
      apply (same_key _ _ _ (slots_unique _ Hok)); [done|done|by apply conflicts_key].
    + intros [->|[Hs Hc]].
      * exists s0. rewrite Hc0, list_elem_of_In in *. by split.
      * exists s'. rewrite Hc. split; [done|by apply list_elem_of_In].
  - rewrite elem_of_app, list_elem_of_singleton. split.
    + intros [Hs|Hs]; [right; by split; [|apply Hno]|by left].
    + intros [Hs|[Hs _]]; [by right|by left].
Qed.

Lemma upsert_keys : NoDup (map slot_key (slots db')).
Proof.
  destruct Hok as [Hu Hv _].
  destruct upsert_table as (_ & _ & _ & Ha & Hs & Hc & _ & _ & _ & _ & [[-> _]|[Hno ->]]).
  - rewrite map_map. erewrite map_ext; [exact Hu|]. intros s. by destruct (conflicts s).
  - rewrite map_app. apply NoDup_app. split; [done|]. split; [|by apply NoDup_singleton].
    intros k Hk Hin. apply list_elem_of_singleton in Hin as ->.
    apply list_elem_of_In, in_map_iff in Hk as (s & Ek & Hin). apply list_elem_of_In in Hin.
    specialize (Hno s Hin). destruct (Hv s Hin) as (V1 & V2 & _).
    unfold slot_key in Ek. injection Ek as E1 E2 E3. rewrite Ha in E1. rewrite Hs in E2. rewrite Hc in E3.
    assert (conflicts s = true); [|congruence]. unfold conflicts.
    destruct upsert_table as (V3 & V4 & _). apply andb_true_iff. split; [|by apply str_eqb_eq].
    apply slot_of_true. destruct (Slot.ApplicationID s), (Slot.ServerID s), app, server. simpl in *. subst. done.
Qed.

Lemma upsert_ok : slots_ok db'.
Proof.
  destruct upsert_table as (V1 & V2 & Hcol & Ha & Hs & Hc & _ & _ & Hst & _). split; [apply upsert_keys| |].
  - intros s Hin. apply slot_upsert_elem in Hin as [->|[Hin _]]; [|by apply (slots_valid _ Hok)].
    rewrite Ha, Hs, Hc. done.
  - intros s1 s2 H1 H2 A1 A2 Ea Es. unfold is_active in *.
    apply slot_upsert_elem in H1 as [->|[H1 _]]; [rewrite Hst in A1; discriminate A1|].
    apply slot_upsert_elem in H2 as [->|[H2 _]]; [rewrite Hst in A2; discriminate A2|].
    by apply (slots_one_active _ Hok).
Qed.
End Upsert.

(** ** Deploy, then roll back *)

Definition other_color (c : str) : str := if c =s lit "blue" then lit "green" else lit "blue".

Lemma two_color_cases c1 c2 c : two_color c1 -> two_color c2 -> two_color c -> c1 <> c2 -> c = c1 \/ c = c2.
Proof. intros [->| ->] [->| ->] [->| ->]; naive_solver. Qed.

(** After activating one of two tracked colours, the reads return them. *)
Lemma activate_reads color app server db rows db' s1 s2 :
  slots_ok db -> ActivateDeploymentSlot color app server db = inl (rows, db') ->
  s1 ∈ slots db -> s2 ∈ slots db -> slot_of app server s1 = true -> slot_of app server s2 = true ->
  tracked_status s1 = true -> tracked_status s2 = true -> Slot.Color s1 = color -> Slot.Color s2 <> color ->
  slot_with_status app server (lit "active") db' = [activated color (clock db) s1]
  /\ slot_with_status app server (lit "standby") db' = [activated color (clock db) s2].
Proof.
  intros Hok Hact H1 H2 O1 O2 T1 T2 C1 C2. pose proof (activate_ok _ _ _ _ _ _ Hact Hok) as Hok'.
  pose proof (activate_row _ _ _ _ _ _ Hact _ H1 O1 T1) as R1. pose proof (activate_row _ _ _ _ _ _ Hact _ H2 O2 T2) as R2.
  destruct (activated_fields color (clock db) s1) as (A1 & B1 & D1 & _ & _ & S1).
  destruct (activated_fields color (clock db) s2) as (A2 & B2 & D2 & _ & _ & S2).
  rewrite C1, str_eqb_refl in S1. destruct (Slot.Color s2 =s color) eqn:E2; [bool_simp; congruence|].
  pose proof O1 as P1. pose proof O2 as P2. apply slot_of_true in P1 as (Ia & Is & Va & Vs), P2 as (Ja & Js & _).
  assert (Ho : forall s, Slot.ApplicationID s = app -> Slot.ServerID s = server -> slot_of app server s = true).
  { intros s <- <-. by apply slot_of_true. }
  split; apply (slot_with_status_unique _ _ _ _ _ Hok'); try done; try (apply Ho; congruence).
  - intros s Hs Hof Hst. apply slot_of_true in Hof as (Ka & Ks & _).
    apply (slots_one_active _ Hok'); try done; congruence.
  - intros s Hs Hof Hst. apply (same_key _ _ _ (slots_unique _ Hok')); [done|done|].
    pose proof Hof as Hof2. apply slot_of_true in Hof as (Ka & Ks & _). unfold slot_key. rewrite A2, B2, Ka, Ks, Ja, Js. f_equal.
    destruct (slots_valid _ Hok' _ Hs) as (_ & _ & Hc). destruct (slots_valid _ Hok' _ R1) as (_ & _ & Hc1).
    destruct (slots_valid _ Hok' _ R2) as (_ & _ & Hc2).
    destruct (two_color_cases _ _ _ Hc1 Hc2 Hc) as [E|E]; [congruence| |done].
    assert (s = activated color (clock db) s1) as ->; [|rewrite S1 in Hst; discriminate Hst].
    apply (same_key _ _ _ (slots_unique _ Hok')); [done|done|]. unfold slot_key. congruence.
Qed.

(** The slot statements keep the slot table consistent: activating a colour and
    recording a standby slot both preserve one row per application, server and
    colour and at most one active row per application and server. *)
Theorem slot_statements_preserve_slots_ok `{UuidSource} db (Hok : slots_ok db) :
  (forall color app server rows db', ActivateDeploymentSlot color app server db = inl (rows, db') -> slots_ok db')
  /\ (forall arg r db', UpsertDeploymentSlotParams.Status arg = lit "standby" ->
        UpsertDeploymentSlot arg db = inl (r, db') -> slots_ok db').
Proof.
  split.
  - intros color app server rows db' E. by apply (activate_ok _ _ _ _ _ _ E).
  - intros arg r db' Hs E. by apply (upsert_ok _ _ _ _ E Hs).
Qed.

(** A blue-green deployment followed by a rollback.  With colour [c0] active,
    recording the new deployment in the other colour and activating it makes the
    new deployment active and leaves the old one, unchanged, as the standby; so
    the rollback, which activates the standby colour, makes the old deployment
    active again. *)
Theorem rollback_restores_previous_deployment `{UuidSource} db app server s0 arg r db1 rows db2 rows' db3
    (Hok : slots_ok db)
    (Hactive : GetActiveDeploymentSlot app server db = inl (s0, db))
    (Harg : UpsertDeploymentSlotParams.ApplicationID arg = app /\ UpsertDeploymentSlotParams.ServerID arg = server
            /\ UpsertDeploymentSlotParams.Color arg = other_color (Slot.Color s0)
            /\ UpsertDeploymentSlotParams.Status arg = lit "standby")
    (Hrecord : UpsertDeploymentSlot arg db = inl (r, db1))
    (Hpromote : ActivateDeploymentSlot (other_color (Slot.Color s0)) app server db1 = inl (rows, db2))
    (Hrollback : ActivateDeploymentSlot (Slot.Color s0) app server db2 = inl (rows', db3)) :
  exists new old back,
    GetActiveDeploymentSlot app server db2 = inl (new, db2)
    /\ Slot.DeploymentID new = UpsertDeploymentSlotParams.DeploymentID arg
    /\ GetStandbyDeploymentSlot app server db2 = inl (old, db2)
    /\ Slot.Color old = Slot.Color s0 /\ Slot.DeploymentID old = Slot.DeploymentID s0 /\ Slot.ImageRef old = Slot.ImageRef s0
    /\ GetActiveDeploymentSlot app server db3 = inl (back, db3)
    /\ Slot.DeploymentID back = Slot.DeploymentID s0.
Proof.
  destruct Harg as (Ea & Es & Ec & Est). unfold GetActiveDeploymentSlot in Hactive.
  apply rbind_ok in Hactive as (s0' & Hone & [= ->]).
  apply one_row_status in Hone as (Hin & Hof & Hst).
  pose proof (upsert_table _ _ _ _ Hrecord Est) as (_ & _ & Hcol & Ra & Rs & Rc & Rd & _ & Rst & _ & _).
  pose proof (upsert_ok _ _ _ _ Hrecord Est Hok) as Hok1.
  destruct (slots_valid _ Hok _ Hin) as (_ & _ & Hcol0).
  assert (Hneq : other_color (Slot.Color s0) <> Slot.Color s0) by (destruct Hcol0 as [->| ->]; discriminate).
  assert (Hr1 : r ∈ slots db1) by (apply (slot_upsert_elem _ _ _ _ Hrecord Est Hok); by left).
  assert (Hs1 : s0 ∈ slots db1).
  { apply (slot_upsert_elem _ _ _ _ Hrecord Est Hok). right. split; [done|]. unfold conflicts.
    apply andb_false_iff. right. apply str_eqb_neq. congruence. }
  pose proof Hof as Hof'. apply slot_of_true in Hof' as (Ia & Is & Va & Vs).
  assert (Ho_r : slot_of app server r = true) by (apply slot_of_true; repeat split; congruence).
  assert (T0 : tracked_status s0 = true) by (unfold tracked_status; by rewrite Hst).
  assert (Tr : tracked_status r = true) by (unfold tracked_status; by rewrite Rst).
  assert (Cr : Slot.Color r = other_color (Slot.Color s0)) by congruence.
  destruct (activate_reads _ _ _ _ _ _ r s0 Hok1 Hpromote Hr1 Hs1 Ho_r Hof Tr T0 Cr (not_eq_sym Hneq)) as [HA HS].
  destruct (activated_fields (other_color (Slot.Color s0)) (clock db1) r) as (A1 & A2 & A3 & A4 & _ & A5).
  destruct (activated_fields (other_color (Slot.Color s0)) (clock db1) s0) as (B1 & B2 & B3 & B4 & B6 & B5).
  set (new := activated _ _ r) in *. set (old := activated _ _ s0) in *.
  pose proof (activate_ok _ _ _ _ _ _ Hpromote Hok1) as Hok2.
  assert (Hn2 : new ∈ slots db2) by exact (activate_row _ _ _ _ _ _ Hpromote _ Hr1 Ho_r Tr).
  assert (Ho2 : old ∈ slots db2) by exact (activate_row _ _ _ _ _ _ Hpromote _ Hs1 Hof T0).
  assert (Hof_old : slot_of app server old = true) by (apply slot_of_true; repeat split; congruence).
  assert (Hof_new : slot_of app server new = true) by (apply slot_of_true; repeat split; congruence).
  assert (Told : tracked_status old = true).
  { unfold tracked_status. rewrite B5. destruct (Slot.Color s0 =s other_color (Slot.Color s0)); reflexivity. }
  assert (Tnew : tracked_status new = true).
  { unfold tracked_status. rewrite A5. destruct (Slot.Color r =s other_color (Slot.Color s0)); reflexivity. }
  assert (Cnew : Slot.Color new <> Slot.Color s0) by congruence.
  destruct (activate_reads _ _ _ _ _ _ old new Hok2 Hrollback Ho2 Hn2 Hof_old Hof_new Told Tnew B3 Cnew) as [HB _].
  exists new, old, (activated (Slot.Color s0) (clock db2) old).
  unfold GetActiveDeploymentSlot, GetStandbyDeploymentSlot. rewrite HA, HS, HB. cbn [one_row rbind].
  destruct (activated_fields (Slot.Color s0) (clock db2) old) as (_ & _ & _ & D4 & _).
  repeat split; congruence.
Qed.

Module SlotDemo.
#[local] Existing Instance Lifecycle.Demo.unary_uuids.
Definition app : pgUUID_t := Lifecycle.Demo.id "app".
Definition srv : pgUUID_t := Lifecycle.Demo.id "srv".
Definition blue_slot : Slot.t :=
  Slot.mk (Lifecycle.Demo.id "s") app srv (lit "blue") (Lifecycle.Demo.id "old") (lit "api:1") textNull (lit "active")
    (Some 1%Z) (Some 1%Z) (Some 1%Z).
Definition db : database := with_slots Lifecycle.Demo.db [blue_slot].
Definition arg : UpsertDeploymentSlotParams.t :=
  UpsertDeploymentSlotParams.mk app srv (lit "green") (Lifecycle.Demo.id "new") (lit "api:2") textNull (lit "standby").

Lemma db_slots_ok : slots_ok db.
Proof.
  split.
  - apply NoDup_singleton.
  - intros s Hs. apply list_elem_of_singleton in Hs as ->. split; [done|]. split; [done|]. by left.
  - intros s1 s2 H1 H2 _ _ _ _. apply list_elem_of_singleton in H1 as ->, H2 as ->. done.
Qed.

Lemma activate_total color a s db0 : exists rows db', ActivateDeploymentSlot color a s db0 = inl (rows, db').
Proof. unfold ActivateDeploymentSlot. destruct (sql_update _ _ _). by eexists _, _. Qed.

Lemma rollback_restores_previous_deployment_witness :
  exists db1 db2 db3 r rows rows' back,
    UpsertDeploymentSlot arg db = inl (r, db1)
    /\ ActivateDeploymentSlot (lit "green") app srv db1 = inl (rows, db2)
    /\ ActivateDeploymentSlot (lit "blue") app srv db2 = inl (rows', db3)
    /\ GetActiveDeploymentSlot app srv db3 = inl (back, db3)
    /\ Slot.DeploymentID back = Lifecycle.Demo.id "old".
Proof.
  destruct (UpsertDeploymentSlot arg db) as [[r db1]|e] eqn:E; [|vm_compute in E; discriminate E].
  destruct (activate_total (lit "green") app srv db1) as (rows & db2 & E2).
  destruct (activate_total (lit "blue") app srv db2) as (rows' & db3 & E3).
  destruct (rollback_restores_previous_deployment db app srv blue_slot arg r db1 rows db2 rows' db3 db_slots_ok
              ltac:(vm_compute; reflexivity) ltac:(repeat split; vm_compute; reflexivity) E E2 E3)
    as (new & old & back & _ & _ & _ & _ & _ & _ & Hb & Hd).
  exists db1, db2, db3, r, rows, rows', back. split; [reflexivity|]. split; [exact E2|]. split; [exact E3|].
  split; [exact Hb|exact Hd].
Defined.

Lemma slot_statements_preserve_slots_ok_witness :
  exists rows db', ActivateDeploymentSlot (lit "green") app srv db = inl (rows, db') /\ slots_ok db'.
Proof.
  destruct (activate_total (lit "green") app srv db) as (rows & db' & E). exists rows, db'. split; [exact E|].
  exact (proj1 (slot_statements_preserve_slots_ok db db_slots_ok) _ _ _ _ _ E).
Defined.
End SlotDemo.
