(* ===== verification/Engine.v ===== *)
(** * The runner on the SQL database

    [sql_handler] answers the runner's queries with the statements of Db and the
    other calls with arbitrary collaborators.  Running the runner against it
    refines the abstract life cycle of Lifecycle, and a deployment that was taken
    from the queue reaches its end. *)

From S2P Require Import Prelude GoStrings GoStringsFacts GoRegexp GoJson GoNet StringUtil AuditLog.
From S2P Require Import Db Lifecycle RemoteSteps ProxyCommands PlanFacts Effects Runner RunnerFacts.

(** Everything that is not the database: functions of a state [Host]. *)
Class Collaborators `{SshLib} (Host : Type) := {
  do_runtime : RuntimeVariableScope -> Host -> result (list RuntimeVariable) * Host;
  do_authorization : pgUUID_t -> str -> Host -> result str * Host;
  do_local : str -> Host -> bool * Host;
  do_signer : str -> Z -> str -> str -> Host -> result Signer * Host;
  do_run : Client -> str -> str -> Host -> (str * option goerror) * Host;
  do_publish : LogEvent.t -> Host -> Host;
  do_notify : DeploymentEvent.t -> Host -> option goerror * Host;
}.

(** ** Replaying a trace *)

(** Decomposes a statement that only reads, or writes other tables. *)
Ltac quiet_read :=
  let db := fresh "db" in let a := fresh "a" in let db' := fresh "db'" in let Hq := fresh "Hq" in
  intros db a db' Hq;
  cbv zeta in Hq;
  repeat match type of Hq with
  | rbind _ _ = inl _ => let x := fresh "x" in let Hx := fresh "Hx" in apply rbind_ok in Hq as (x & Hx & Hq)
  | match ?x with _ => _ end = inl _ => destruct x; try discriminate Hq
  end;
  try discriminate Hq; injection Hq as _ <-; cbn; (split; [reflexivity|lia]).

Section Replay.
Context {E : Type -> Type} {S : Type} (h : handler E S).

Fixpoint replays (s : S) (tr : list (event E)) (s' : S) : Prop :=
  match tr with
  | [] => s' = s
  | Ev e x :: t => exists s1, h _ e s = (x, s1) /\ replays s1 t s'
  end.

Lemma exec_replays {A} (p : prog E A) s a tr s' : exec h p s = (a, tr, s') -> replays s tr s'.
Proof.
  revert s tr. induction p as [b|X e k IH]; intros s tr; simpl.
  - by intros [= _ <- <-].
  - destruct (h X e s) as [x s1] eqn:Eh. destruct (exec h (k x) s1) as [[a' tr'] s2] eqn:Ex.
    intros [= -> <- ->]. exists s1. split; [exact Eh|]. by eapply IH.
Qed.

Lemma replays_app s t1 t2 s2 : replays s (t1 ++ t2) s2 <-> exists s1, replays s t1 s1 /\ replays s1 t2 s2.
Proof.
  revert s. induction t1 as [|[X e x] t1 IH]; intros s; cbn [app replays].
  - split; [intros Hr; by exists s|by intros (s1 & -> & Hr)].
  - split.
    + intros (s1 & He & Hr). apply IH in Hr as (s3 & H1 & H2). exists s3. split; [by exists s1|done].
    + intros (s3 & (s1 & He & H1) & H2). exists s1. split; [done|]. apply IH. by exists s3.
Qed.

Lemma replays_invariant (I : S -> Prop) (P : event E -> Prop) s tr s' :
  (forall X (e : E X) x s s1, P (Ev e x) -> h X e s = (x, s1) -> I s -> I s1) ->
  replays s tr s' -> Forall P tr -> I s -> I s'.
Proof.
  intros Hh. revert s. induction tr as [|[X e x] t IH]; intros s; cbn [replays]; [by intros ->|].
  intros (s1 & He & Hr) [Hp Hf]%Forall_cons Hs. apply (IH s1 Hr Hf). by apply (Hh X e x s).
Qed.
End Replay.

Section Engine.
Context `{UnicodeTables} `{UuidLib} `{Resolver} `{SshLib} `{UuidSource} {Host : Type} `{!Collaborators Host}.

Definition lift {A} (q : query A) (s : database * Host) : result A * (database * Host) :=
  match q s.1 with
  | inl (a, db') => (inl a, (tick db', s.2))
  | inr e => (inr e, (tick s.1, s.2))
  end.

Definition on_host {A} (f : Host -> A * Host) (s : database * Host) : A * (database * Host) :=
  let '(a, h') := f s.2 in (a, (s.1, h')).

Definition sql_handler : handler runnerE (database * Host) := fun X e s =>
  match e in runnerE X return X * (database * Host) with
  | QAppendAuditEvent arg => lift (AppendAuditEvent arg) s
  | QAppendDeploymentLog id stream message => lift (AppendDeploymentLog id stream message) s
  | QActivateDeploymentSlot color app server => lift (ActivateDeploymentSlot color app server) s
  | QGetDeploymentTarget id => lift (GetDeploymentTarget id) s
  | QGetActiveDeploymentSlot app server => lift (GetActiveDeploymentSlot app server) s
  | QGetStandbyDeploymentSlot app server => lift (GetStandbyDeploymentSlot app server) s
  | QListApplicationServiceRuntimeConfigs app => lift (ListApplicationServiceRuntimeConfigs app) s
  | QListProjectRuntimeVariablesForApplication app => lift (ListProjectRuntimeVariablesForApplication app) s
  | QListProxyRouteTargetsForApplication app server => lift (ListProxyRouteTargetsForApplication app server) s
  | QMarkApplicationConfigurationDeployed id rev prev => lift (MarkApplicationConfigurationDeployed id rev prev) s
  | QMarkProxyRouteFailed id => lift (MarkProxyRouteFailed id) s
  | QPromoteProxyRoutes ids urls => lift (PromoteProxyRoutes ids urls) s
  | QSetDeploymentCommitSHA id sha message => lift (SetDeploymentCommitSHA id sha message) s
  | QStartQueuedDeployment id => lift (StartQueuedDeployment id) s
  | QUpdateApplicationStatus id status version => lift (UpdateApplicationStatus id status version) s
  | QUpdateDeploymentStatus id status => lift (UpdateDeploymentStatus id status) s
  | QUpsertDeploymentSlot arg => lift (UpsertDeploymentSlot arg) s
  | CRuntimeVariables scope => on_host (do_runtime scope) s
  | CAuthorizationHeader connector url => on_host (do_authorization connector url) s
  | CIsLocalTailscaleHost host => on_host (do_local host) s
  | CSigner host port user key => on_host (do_signer host port user key) s
  | CRun client command => on_host (do_run client command []) s
  | CRunWithInput client command input => on_host (do_run client command input) s
  | CPublish e => on_host (fun h => (tt, do_publish e h)) s
  | CNotifyDeployment e => on_host (do_notify e) s
  end.

(** ** Statements that leave the deployments table alone *)

Definition quiet_query {A} (q : query A) : Prop :=
  forall db a db', q db = inl (a, db') ->
    deployments db' = deployments db /\ (uuid_supply db <= uuid_supply db')%nat.

Lemma quiet_AppendAuditEvent arg : quiet_query (AppendAuditEvent arg).
Proof. unfold AppendAuditEvent. quiet_read. Qed.
Lemma quiet_AppendDeploymentLog id stream m : quiet_query (AppendDeploymentLog id stream m).
Proof. unfold AppendDeploymentLog. quiet_read. Qed.
Lemma quiet_ActivateDeploymentSlot c a s : quiet_query (ActivateDeploymentSlot c a s).
Proof. unfold ActivateDeploymentSlot. quiet_read. Qed.
Lemma quiet_GetDeploymentTarget id : quiet_query (GetDeploymentTarget id).
Proof. unfold GetDeploymentTarget. quiet_read. Qed.
Lemma quiet_GetActiveDeploymentSlot a s : quiet_query (GetActiveDeploymentSlot a s).
Proof. unfold GetActiveDeploymentSlot. quiet_read. Qed.
Lemma quiet_GetStandbyDeploymentSlot a s : quiet_query (GetStandbyDeploymentSlot a s).
Proof. unfold GetStandbyDeploymentSlot. quiet_read. Qed.
Lemma quiet_ListApplicationServiceRuntimeConfigs a : quiet_query (ListApplicationServiceRuntimeConfigs a).
Proof. unfold ListApplicationServiceRuntimeConfigs. quiet_read. Qed.
Lemma quiet_ListProjectRuntimeVariablesForApplication a : quiet_query (ListProjectRuntimeVariablesForApplication a).
Proof. unfold ListProjectRuntimeVariablesForApplication. quiet_read. Qed.
Lemma quiet_ListProxyRouteTargetsForApplication a s : quiet_query (ListProxyRouteTargetsForApplication a s).
Proof. unfold ListProxyRouteTargetsForApplication. quiet_read. Qed.
Lemma quiet_MarkApplicationConfigurationDeployed id r p : quiet_query (MarkApplicationConfigurationDeployed id r p).
Proof. unfold MarkApplicationConfigurationDeployed, update_application. quiet_read. Qed.
Lemma quiet_MarkProxyRouteFailed id : quiet_query (MarkProxyRouteFailed id).
Proof. unfold MarkProxyRouteFailed, mark_route. quiet_read. Qed.
Lemma quiet_PromoteProxyRoutes ids urls : quiet_query (PromoteProxyRoutes ids urls).
Proof. unfold PromoteProxyRoutes. quiet_read. Qed.
Lemma quiet_UpdateApplicationStatus id st v : quiet_query (UpdateApplicationStatus id st v).
Proof. unfold UpdateApplicationStatus, update_application. quiet_read. Qed.
Lemma quiet_UpsertDeploymentSlot arg : quiet_query (UpsertDeploymentSlot arg).
Proof. unfold UpsertDeploymentSlot. quiet_read. Qed.


Definition same_table (db db' : database) : Prop :=
  deployments db' = deployments db /\ (uuid_supply db <= uuid_supply db')%nat.

Lemma quiet_lift {A} (q : query A) s x s1 : quiet_query q -> lift q s = (x, s1) -> same_table s.1 s1.1.
Proof.
  intros Hq. unfold lift. destruct (q s.1) as [[a db']|e] eqn:E; intros [= _ <-]; cbn; [|by split].
  by apply (Hq _ _ _ E).
Qed.

Lemma on_host_same {A} (f : Host -> A * Host) s x s1 : on_host f s = (x, s1) -> same_table s.1 s1.1.
Proof. unfold on_host. destruct (f s.2). intros [= _ <-]. by split. Qed.

Lemma lift_case {A} (q : query A) s x s1 :
  lift q s = (x, s1) ->
  match x with
  | inl a => exists db', q s.1 = inl (a, db') /\ same_table db' s1.1
  | inr _ => same_table s.1 s1.1
  end.
Proof.
  unfold lift. destruct (q s.1) as [[a db']|e] eqn:E; intros [= <- <-]; [|by split].
  exists db'. by split.
Qed.

(** The calls that write the deployments table. *)
Definition writes_deployments {X} (e : runnerE X) : bool :=
  match e with
  | QStartQueuedDeployment _ | QUpdateDeploymentStatus _ _ | QSetDeploymentCommitSHA _ _ _ => true
  | _ => false
  end.

Lemma other_call_same X (e : runnerE X) s x s1 :
  writes_deployments e = false -> sql_handler X e s = (x, s1) -> same_table s.1 s1.1.
Proof.
  intros Hw He. destruct e; try discriminate Hw; cbn [sql_handler] in He;
    first [ exact (on_host_same _ _ _ _ He)
          | refine (quiet_lift _ _ _ _ _ He);
            first [ apply quiet_AppendAuditEvent | apply quiet_AppendDeploymentLog | apply quiet_ActivateDeploymentSlot
                  | apply quiet_GetDeploymentTarget | apply quiet_GetActiveDeploymentSlot | apply quiet_GetStandbyDeploymentSlot
                  | apply quiet_ListApplicationServiceRuntimeConfigs | apply quiet_ListProjectRuntimeVariablesForApplication
                  | apply quiet_ListProxyRouteTargetsForApplication | apply quiet_MarkApplicationConfigurationDeployed
                  | apply quiet_MarkProxyRouteFailed | apply quiet_PromoteProxyRoutes | apply quiet_UpdateApplicationStatus
                  | apply quiet_UpsertDeploymentSlot ] ].
Qed.

(** ** Refinement of the life cycle *)

(** A successful start of [id] in a trace. *)
Definition ev_start (id : pgUUID_t) (ev : event runnerE) : bool :=
  match ev with
  | Ev e x =>
      match e in runnerE X return X -> bool with
      | QStartQueuedDeployment id' => fun r => is_ok r && bool_decide (id' = id)
      | _ => fun _ => false
      end x
  end.

Definition final_call (ev : event runnerE) : Prop :=
  match ev with
  | Ev (QUpdateDeploymentStatus _ status) _ => final_status status
  | _ => True
  end.

Lemma same_table_step db db' : same_table db db' -> step db LOther db'.
Proof. intros [Heq Hle]. by apply step_other. Qed.

Lemma call_steps X (e : runnerE X) s x s1 :
  final_call (Ev e x) -> sql_handler X e s = (x, s1) ->
  exists ls, steps s.1 ls s1.1
    /\ forall id, length (List.filter (takes id) ls) = (if ev_start id (Ev e x) then 1 else 0)%nat.
Proof.
  intros Hf He.
  assert (Hother : forall l db1, step s.1 l db1 -> same_table db1 s1.1 -> steps s.1 [l; LOther] s1.1).
  { intros l db1 Hl Hsame. econstructor; [exact Hl|]. econstructor; [by apply same_table_step|constructor]. }
  destruct (writes_deployments e) eqn:Ew.
  - destruct e as [| | | | | | | | | | | |cid sha m|sid| |uid st| | | | | | | | |]; try discriminate Ew;
      cbn [sql_handler] in He; pose proof (lift_case _ _ _ _ He) as Hc; destruct x as [d|err];
      try (exists [LOther]; split; [econstructor; [by apply same_table_step|constructor]|done]);
      destruct Hc as (db1 & Hq & Hs).
    + exists [LCommit cid; LOther]. split; [apply (Hother _ db1); [by eapply step_commit|done]|done].
    + exists [LStart sid; LOther]. split; [apply (Hother _ db1); [by eapply step_start|done]|].
      intros id. cbn. by destruct (bool_decide (sid = id)).
    + exists [LFinish uid st; LOther]. split; [|done]. apply (Hother _ db1); [|done].
      by apply (step_finish _ _ d).
  - exists [LOther]. split.
    + econstructor; [|constructor]. apply same_table_step. exact (other_call_same _ _ _ _ _ Ew He).
    + intros id. cbn [List.filter takes length]. by destruct e; try discriminate Ew.
Qed.

Lemma replays_steps s tr s' :
  replays sql_handler s tr s' -> Forall final_call tr ->
  exists ls, steps s.1 ls s'.1
    /\ forall id, length (List.filter (takes id) ls) = length (List.filter (ev_start id) tr).
Proof.
  revert s. induction tr as [|[X e x] tr IH]; intros s; cbn [replays].
  - intros -> _. exists []. split; [constructor|done].
  - intros (s1 & He & Hr) Hf. apply Forall_cons in Hf as [Hc Hf]. destruct (call_steps _ _ _ _ _ Hc He) as (l1 & Hl1 & C1).
    destruct (IH _ Hr Hf) as (l2 & Hl2 & C2). exists (l1 ++ l2). split; [by apply (steps_app _ _ s1.1)|].
    intros id. rewrite List.filter_app, length_app, C1, C2. cbn [List.filter].
    by destruct (ev_start id (Ev e x)).
Qed.

Lemma no_status_final l (tr : list (event runnerE)) :
  Forall (fun ev => In (ev_kind ev) l) tr -> ~ In KStatus l -> Forall final_call tr.
Proof.
  intros Hf Hl. apply (Forall_impl _ _ _ Hf). intros [X e x] Hk. destruct e; try exact I. exact (False_ind _ (Hl Hk)).
Qed.

Lemma Run_final_calls r d tr u : runs (Run r d) tr u -> Forall final_call tr.
Proof.
  intros Hr. apply Run_trace in Hr as (ans & rest & -> & Hrest). constructor; [exact I|].
  destruct ans as [taken|err].
  - destruct Hrest as (t1 & st & a & t2 & -> & Hst & Hf1 & Hf2). apply Forall_app. split.
    + apply (no_status_final _ _ Hf1). cbn. intuition congruence.
    + constructor; [exact Hst|]. apply (no_status_final _ _ Hf2). cbn. intuition congruence.
  - apply (no_status_final _ _ Hrest). cbn. intuition congruence.
Qed.

(** C35: run against the SQL database (and any host), the runner refines the
    abstract life cycle: its run is an execution of [Lifecycle.steps] that takes
    deployments out of the queue exactly as often as the run's start calls
    succeeded.  Everything proved of executions therefore holds of runners. *)
Theorem Run_refines_lifecycle r d db host u tr db' host'
    (Hexec : exec sql_handler (Run r d) (db, host) = (u, tr, (db', host'))) :
  exists ls, steps db ls db'
    /\ forall id, length (List.filter (takes id) ls) = length (List.filter (ev_start id) tr).
Proof.
  pose proof (exec_replays _ _ _ _ _ _ Hexec) as Hrep.
  apply (replays_steps _ _ _ Hrep), (Run_final_calls r d tr u). exact (exec_runs _ _ _ _ _ _ Hexec).
Qed.

(** ** A taken deployment ends *)

Definition row_with (id : pgUUID_t) (P : str -> Prop) (db : database) : Prop :=
  exists d, d ∈ deployments db /\ Deployment.ID d = id /\ P (Deployment.Status d).

(** Ending a row keeps the table's constraints. *)
Lemma final_check d status started now :
  final_status status -> deployment_check d = true ->
  deployment_check (DeploymentRow.set_status d status started (Some now)) = true.
Proof.
  unfold deployment_check. cbn. intros Hst Hc. rewrite !andb_true_iff in *.
  destruct Hc as ((((((((((_ & _) & _) & _) & C0) & C1) & C2) & C3) & C4) & C5) & C6).
  repeat split; try assumption; destruct Hst as [->| ->]; reflexivity.
Qed.

Lemma running_check d now :
  deployment_check d = true -> Deployment.Status d = lit "queued" ->
  deployment_check (DeploymentRow.set_status d (lit "running") (coalesce_time (Deployment.StartedAt d) (Some now))
                      (Deployment.FinishedAt d)) = true.
Proof.
  unfold deployment_check. cbn. intros Hc Hq. rewrite !andb_true_iff in *.
  destruct Hc as ((((((((((_ & Hn) & _) & _) & C0) & C1) & C2) & C3) & C4) & C5) & C6).
  rewrite Hq in Hn. change (lit "queued" =s lit "queued") with true in Hn. cbn iota in Hn.
  apply andb_true_iff in Hn as [Hs Hf].
  destruct (Deployment.StartedAt d); [discriminate Hs|]. destruct (Deployment.FinishedAt d); [discriminate Hf|].
  repeat split; assumption.
Qed.

Lemma in_progress_sublist (f : Deployment.t -> Deployment.t) t :
  (forall d, d ∈ t -> Deployment.ApplicationID (f d) = Deployment.ApplicationID d
               /\ (in_progress (Deployment.Status (f d)) = true -> in_progress (Deployment.Status d) = true)) ->
  in_progress_apps (map f t) `sublist_of` in_progress_apps t.
Proof.
  unfold in_progress_apps. induction t as [|d t IH]; intros Hf; [constructor|].
  destruct (Hf d ltac:(by left)) as [Ha Hp]. assert (Hsub := IH (fun x Hx => Hf x ltac:(by right))). clear IH.
  cbn [map List.filter]. destruct (in_progress (Deployment.Status (f d))).
  - rewrite Hp by done. cbn [map]. rewrite Ha. by constructor.
  - destruct (in_progress (Deployment.Status d)); [by apply sublist_cons|exact Hsub].
Qed.

Lemma update_succeeds cond set db y :
  one_in_progress (deployments db) = true -> y ∈ deployments db -> cond y = true ->
  (forall d, d ∈ deployments db -> cond d = true ->
     deployment_check (set d) = true /\ Deployment.ApplicationID (set d) = Deployment.ApplicationID d
     /\ (in_progress (Deployment.Status (set d)) = true -> in_progress (Deployment.Status d) = true)) ->
  exists d db', update_deployment cond set db = inl (d, db').
Proof.
  intros Hone Hy Hc Hset. unfold update_deployment, sql_update, store_deployments.
  assert (Hrows : forallb deployment_check (map set (List.filter cond (deployments db))) = true).
  { apply forallb_intro. intros x Hx. apply list_elem_of_In, in_map_iff in Hx as (d & <- & Hd).
    apply filter_In in Hd as [Hd Hcd]. apply list_elem_of_In in Hd. by apply Hset. }
  rewrite Hrows. cbn [negb].
  assert (Hprog : one_in_progress (map (fun r => if cond r then set r else r) (deployments db)) = true).
  { unfold one_in_progress in *. apply bool_decide_eq_true in Hone. apply bool_decide_eq_true.
    eapply sublist_NoDup; [exact Hone|]. apply in_progress_sublist. intros d Hd. destruct (cond d) eqn:E; [|done].
    by apply Hset. }
  rewrite Hprog. cbn [negb rbind].
  destruct (map set (List.filter cond (deployments db))) as [|d l] eqn:E; [|by eexists _, _].
  assert (Hin : In (set y) (map set (List.filter cond (deployments db)))).
  { apply in_map, filter_In. split; [by apply list_elem_of_In|done]. }
  rewrite E in Hin. destruct Hin.
Qed.

(** The queue's row can be taken, and a taken row can be ended. *)
Lemma start_succeeds db d :
  deployments_ok db -> d ∈ deployments db -> Deployment.Status d = lit "queued" ->
  exists d' db', StartQueuedDeployment (Deployment.ID d) db = inl (d', db')
    /\ Deployment.ID d' = Deployment.ID d
    /\ row_with (Deployment.ID d) (fun st => st = lit "running") db' /\ deployments_ok db'.
Proof.
  intros Hok Hd Hq. unfold StartQueuedDeployment.
  set (cond := fun x => uuid_eqb (Deployment.ID x) (Deployment.ID d) && (Deployment.Status x =s lit "queued")).
  set (set_ := fun x => DeploymentRow.set_status x (lit "running") _ _).
  assert (Hc : cond d = true).
  { unfold cond. rewrite Hq, str_eqb_refl, andb_true_r. apply uuid_eqb_true. split; [done|].
    by apply (ok_issued _ Hok). }
  destruct (update_succeeds cond set_ db d (ok_one _ Hok) Hd Hc) as (d' & db' & E).
  { intros x Hx Hcx. apply queued_cond in Hcx as [_ Hqx]. split; [|split; [done|]].
    - apply running_check; [by apply (forallb_elem _ _ _ (ok_checks _ Hok))|done].
    - intros _. by rewrite Hqx. }
  exists d', db'. split; [exact E|]. assert (Hok' : deployments_ok db') by (refine (update_deployment_ok _ _ _ _ _ _ Hok E); by intros x).
  apply update_deployment_spec in E as (-> & _ & _ & y & Hy & Hcy & ->).
  assert (Hyid : Deployment.ID y = Deployment.ID d) by (by apply queued_cond in Hcy as [? _]).
  split; [exact Hyid|]. split; [|exact Hok']. exists (set_ y). split; [|by split].
  cbn [deployments with_deployments]. apply sql_update_elem. exists y. by rewrite Hcy.
Qed.

Lemma finish_succeeds db id status P :
  deployments_ok db -> row_with id P db -> final_status status ->
  exists d' db', UpdateDeploymentStatus id status db = inl (d', db') /\ row_with id final_status db'.
Proof.
  intros Hok (d & Hd & Hid & _) Hst. unfold UpdateDeploymentStatus.
  assert (Hterm : is_terminal status = true) by (destruct Hst as [->| ->]; reflexivity).
  rewrite Hterm. set (cond := fun x => uuid_eqb (Deployment.ID x) id).
  set (set_ := fun x => DeploymentRow.set_status x status _ _).
  assert (Hc : cond d = true).
  { unfold cond. apply uuid_eqb_true. split; [done|]. by apply (ok_issued _ Hok). }
  destruct (update_succeeds cond set_ db d (ok_one _ Hok) Hd Hc) as (d' & db' & E).
  { intros x Hx _. split; [|split; [done|]].
    - apply final_check; [done|]. by apply (forallb_elem _ _ _ (ok_checks _ Hok)).
    - cbn. destruct Hst as [->| ->]; intros Hx2; discriminate Hx2. }
  exists d', db'. split; [exact E|]. apply update_deployment_spec in E as (-> & _ & _ & _).
  exists (set_ d). split; [|by split]. cbn [deployments with_deployments]. apply sql_update_elem. exists d. by rewrite Hc.
Qed.

(** Calls other than status changes keep the row's status. *)
Lemma call_keeps_row id P X (e : runnerE X) x s s1 :
  ~ In (kind_of e) [KStatus; KStart] -> sql_handler X e s = (x, s1) ->
  deployments_ok s.1 /\ row_with id P s.1 -> deployments_ok s1.1 /\ row_with id P s1.1.
Proof.
  intros Hk He [Hok (d & Hd & Hid & HP)].
  assert (Hsame : forall a b, same_table a b -> deployments_ok a -> row_with id P a -> deployments_ok b /\ row_with id P b).
  { intros a b [E1 E2] Ha (y & Hy & Hrow). split; [by apply (other_ok a)|]. exists y. by rewrite E1. }
  destruct (writes_deployments e) eqn:Ew.
  - destruct e as [| | | | | | | | | | | |cid sha m|sid| |uid st| | | | | | | | |]; try discriminate Ew;
      try (exfalso; apply Hk; cbn; tauto).
    cbn [sql_handler] in He. apply lift_case in He. destruct x as [row|err]; [|by apply (Hsame s.1); [|done|exists d]].
    destruct He as (db1 & Hq & Hs). unfold SetDeploymentCommitSHA in Hq. destruct (negb _); [done|].
    apply (Hsame db1); [done| |].
    + refine (update_deployment_ok _ _ _ _ _ _ Hok Hq). by intros y.
    + apply update_deployment_spec in Hq as (-> & _). 
      eexists. split; [cbn [deployments with_deployments]; apply sql_update_elem; by exists d|].
      destruct (uuid_eqb (Deployment.ID d) cid); by split.
  - apply (Hsame s.1); [exact (other_call_same _ _ _ _ _ Ew He)|done|by exists d].
Qed.

Lemma replays_keep_row id P l s tr s' :
  ~ In KStatus l -> ~ In KStart l -> replays sql_handler s tr s' ->
  Forall (fun ev => In (ev_kind ev) l) tr ->
  deployments_ok s.1 /\ row_with id P s.1 -> deployments_ok s'.1 /\ row_with id P s'.1.
Proof.
  intros Hl1 Hl2 Hr Hf.
  refine (replays_invariant sql_handler (fun s => deployments_ok s.1 /\ row_with id P s.1) _ _ _ _ _ Hr Hf).
  intros X e x s0 s1 Hk He. refine (call_keeps_row id P X e x s0 s1 _ He).
  cbn in Hk. intros [Hx|[Hx|[]]]; rewrite <- Hx in Hk; tauto.
Qed.

(** ** What a run leaves of the other deployments *)

(** Every row but [id]'s was there before with the same status. *)
Definition others_same (id : pgUUID_t) (db db' : database) : Prop :=
  forall y', y' ∈ deployments db' -> Deployment.ID y' <> id ->
    exists y, y ∈ deployments db /\ Deployment.ID y = Deployment.ID y' /\ Deployment.Status y = Deployment.Status y'.

Lemma others_same_table id db db' : same_table db db' -> others_same id db db'.
Proof. intros [E _] y' Hy _. rewrite E in Hy. by exists y'. Qed.

Lemma others_same_trans id db1 db2 db3 : others_same id db1 db2 -> others_same id db2 db3 -> others_same id db1 db3.
Proof.
  intros H12 H23 z Hz Hid. destruct (H23 z Hz Hid) as (y & Hy & Ey & Sy).
  destruct (H12 y Hy) as (x & Hx & Ex & Sx); [congruence|]. exists x. split; [done|]. split; congruence.
Qed.

Lemma update_others id cond set db d db' :
  keeps_id set -> (forall x, cond x = true -> Deployment.ID x = id \/ Deployment.Status (set x) = Deployment.Status x) ->
  update_deployment cond set db = inl (d, db') -> others_same id db db'.
Proof.
  intros Hk Hc Hu y' Hy Hid. apply update_deployment_spec in Hu as (-> & _).
  cbn [deployments with_deployments] in Hy. apply sql_update_elem in Hy as (y & Hy & ->). exists y.
  split; [done|]. destruct (cond y) eqn:E; [|done]. rewrite Hk in *. split; [done|].
  destruct (Hc y E) as [Hx|Hx]; [done|by symmetry].
Qed.

(** The status calls of a run are about its own deployment. *)
Definition touches (id : pgUUID_t) (ev : event runnerE) : Prop :=
  match ev with
  | Ev (QStartQueuedDeployment id') _ | Ev (QUpdateDeploymentStatus id' _) _ => id' = id
  | _ => True
  end.

Lemma call_others id X (e : runnerE X) x s s1 :
  touches id (Ev e x) -> sql_handler X e s = (x, s1) -> others_same id s.1 s1.1.
Proof.
  intros Ht He. destruct (writes_deployments e) eqn:Ew.
  2: { apply others_same_table. exact (other_call_same _ _ _ _ _ Ew He). }
  destruct e as [| | | | | | | | | | | |cid sha m|sid| |uid st| | | | | | | | |]; try discriminate Ew;
    cbn [sql_handler] in He; pose proof (lift_case _ _ _ _ He) as Hc; destruct x as [d|err];
    try (by apply others_same_table); destruct Hc as (db1 & Hq & Hs);
    (eapply others_same_trans; [|by apply others_same_table]).
  - unfold SetDeploymentCommitSHA in Hq. destruct (negb _); [done|].
    refine (update_others _ _ _ _ _ _ _ _ Hq); [by intros y|]. intros y _. by right.
  - cbn in Ht. subst sid. refine (update_others _ _ _ _ _ _ _ _ Hq); [by intros y|].
    intros y Hy. apply queued_cond in Hy as [Hy _]. by left.
  - cbn in Ht. subst uid. refine (update_others _ _ _ _ _ _ _ _ Hq); [by intros y|].
    intros y Hy. apply uuid_eqb_true in Hy as [Hy _]. by left.
Qed.

Lemma replays_others id s tr s' :
  replays sql_handler s tr s' -> Forall (touches id) tr -> others_same id s.1 s'.1.
Proof.
  intros Hr Hf.
  refine (replays_invariant sql_handler (fun x => others_same id s.1 x.1) (touches id) _ _ _ _ Hr Hf _).
  - intros X e x s0 s1 Ht He Ho. apply (others_same_trans _ _ _ _ Ho). by apply (call_others _ _ _ _ _ _ Ht He).
  - by apply others_same_table.
Qed.

Lemma kinds_touch id l (tr : list (event runnerE)) :
  ~ In KStatus l -> ~ In KStart l -> Forall (fun ev => In (ev_kind ev) l) tr -> Forall (touches id) tr.
Proof.
  intros Hn1 Hn2 Hf. apply (Forall_impl _ _ _ Hf). intros [X e x] Hk.
  destruct e; try exact I; [destruct (Hn2 Hk)|destruct (Hn1 Hk)].
Qed.

(** A run on a queued deployment ends it and touches no other. *)
Lemma Run_ends r d d0 db host :
  deployments_ok db -> d0 ∈ deployments db -> Deployment.ID d0 = Deployment.ID d ->
  Deployment.Status d0 = lit "queued" ->
  let db' := (exec sql_handler (Run r d) (db, host)).2.1 in
  row_with (Deployment.ID d) final_status db' /\ others_same (Deployment.ID d) db db' /\ deployments_ok db'.
Proof.
  intros Hok Hin Hid Hqueued.
  destruct (exec sql_handler (Run r d) (db, host)) as [[u tr] s'] eqn:Hexec. cbn [snd]. cbv zeta.
  pose proof (exec_replays _ _ _ _ _ _ Hexec) as Hrep.
  pose proof Hrep as Hwhole.
  destruct (Run_trace _ _ _ _ (exec_runs _ _ _ _ _ _ Hexec)) as (ans & rest & -> & Hrest).
  destruct Hrep as (s1 & Hstart & Hrep). cbn [sql_handler] in Hstart. unfold lift in Hstart. cbn [fst snd] in Hstart.
  destruct (start_succeeds db d0 Hok Hin Hqueued) as (taken & db1 & Eq & Htid & Hrow & Hok1).
  rewrite Hid in Eq, Htid, Hrow. rewrite Eq in Hstart. injection Hstart as <- <-.
  destruct Hrest as (t1 & st & a & t2 & -> & Hst & Hf1 & Hf2). rewrite Htid in Hrep.
  apply replays_app in Hrep as (s2 & Hr1 & Hr2). destruct Hr2 as (s3 & He & Hr2).
  assert (H0_ok : deployments_ok (tick db1) /\ row_with (Deployment.ID d) (fun st => st = lit "running") (tick db1)).
  { split; [|exact Hrow]. by apply (other_ok db1). }
  assert (Hno : forall k, k = KStatus \/ k = KStart -> ~ In k (KReport :: deploy_kinds) /\ ~ In k [KLog; KReport]).
  { intros k [->| ->]; cbn; intuition congruence. }
  destruct (replays_keep_row (Deployment.ID d) _ (KReport :: deploy_kinds) _ _ _ (proj1 (Hno _ (or_introl eq_refl)))
              (proj1 (Hno _ (or_intror eq_refl))) Hr1 Hf1 H0_ok) as [Hok2 Hrow2].
  destruct (finish_succeeds s2.1 (Deployment.ID d) st _ Hok2 Hrow2 Hst) as (d' & db2 & Ef & Hfin).
  cbn [sql_handler] in He. unfold lift in He. rewrite Ef in He. injection He as <- <-.
  assert (Hok3 : deployments_ok (tick db2)).
  { apply (other_ok db2); [|done|done]. unfold UpdateDeploymentStatus in Ef.
    refine (update_deployment_ok _ _ _ _ _ _ Hok2 Ef). by intros x. }
  split; [|split].
  2: { apply (replays_others _ _ _ _ Hwhole). constructor; [reflexivity|]. rewrite Htid. apply Forall_app. split.
       - exact (kinds_touch _ _ _ (proj1 (Hno _ (or_introl eq_refl))) (proj1 (Hno _ (or_intror eq_refl))) Hf1).
       - constructor; [reflexivity|].
         exact (kinds_touch _ _ _ (proj2 (Hno _ (or_introl eq_refl))) (proj2 (Hno _ (or_intror eq_refl))) Hf2). }
  2: { destruct (replays_steps _ _ _ Hwhole (Run_final_calls _ _ _ _ (exec_runs _ _ _ _ _ _ Hexec))) as (ls & Hls & _).
       by apply (steps_preserve_ok _ _ _ Hls). }
  exact (proj2 (replays_keep_row (Deployment.ID d) final_status _ _ _ _ (proj2 (Hno _ (or_introl eq_refl)))
                  (proj2 (Hno _ (or_intror eq_refl))) Hr2 Hf2 (conj Hok3 Hfin))).
Qed.

(** C2: no deployment is left running.  Whatever the hosts, the notifier and the
    configuration sources answer, when the runner runs a queued deployment on the
    SQL database the run comes to its end and leaves the deployment succeeded or
    failed. *)
Theorem Run_reaches_end r d d0 db host
    (Hok : deployments_ok db) (Hin : d0 ∈ deployments db) (Hid : Deployment.ID d0 = Deployment.ID d)
    (Hqueued : Deployment.Status d0 = lit "queued") :
  row_with (Deployment.ID d) final_status (exec sql_handler (Run r d) (db, host)).2.1.
Proof. exact (proj1 (Run_ends r d d0 db host Hok Hin Hid Hqueued)). Qed.

End Engine.
