(* ===== verification/QueueFacts.v ===== *)
(** * The queue on the SQL database and a Redis list

    What is put into the queue is what is taken out of it; a queue item runs a
    deployment exactly when the row is still queued; and after a restart the two
    recovery steps and the worker bring every deployment in progress to an
    end, whatever else the list held. *)

From S2P Require Import Prelude GoStrings GoStringsFacts GoRegexp GoJson GoJsonFacts GoNet StringUtil.
From S2P Require Import AuditLog Db Lifecycle RemoteSteps ProxyCommands Effects Runner Queue.
From S2P Require Import RunnerFacts Engine.

(** ** Payloads *)

Definition uuid_char (c : ascii) : bool :=
  let x := b2n c in is_digit x || in_range 97 102 x || (x =? 45)%N.

(** What the package google/uuid documents of [UUID.String] and [Parse]. *)
Class UuidLaws `{UuidLib} := {
  uuid_Parse_String id : length id = 16%nat -> uuid_Parse (uuid_String id) = inl id;
  uuid_String_chars id : length id = 16%nat -> uuid_String id <> [] /\ forallb uuid_char (uuid_String id) = true }.

Definition uuid_sized (id : pgUUID_t) : Prop := uuid_valid id = true /\ length (uuid_bytes id) = 16%nat.

Lemma uuid_char_ascii c : uuid_char c = true -> (b2n c < 128)%N /\ is_space (b2n c) = false.
Proof.
  intros Hc. destruct c as [b0 b1 b2 b3 b4 b5 b6 b7].
  destruct b0, b1, b2, b3, b4, b5, b6, b7; first [discriminate Hc|by split].
Qed.

Lemma uuid_text s : forallb uuid_char s = true -> is_ascii s = true /\ valid_utf8 s = true /\ TrimSpace s = s.
Proof.
  intros Hs. rewrite forallb_forall in Hs.
  assert (Ha : is_ascii s = true).
  { apply forallb_forall. intros c Hc. apply N.ltb_lt. by apply (uuid_char_ascii c), Hs. }
  split; [done|]. split.
  - unfold valid_utf8. rewrite decode_ascii by done. rewrite forallb_map. apply forallb_forall. intros c Hc.
    apply negb_true_iff, andb_false_iff. left. apply N.eqb_neq. cbn [fst]. pose proof (proj1 (uuid_char_ascii c (Hs c Hc))).
    unfold rune_error. lia.
  - assert (Hn : forall l : list seg, (forall g, g ∈ l -> is_space g.1 = false) -> drop_while (fun sg : seg => is_space sg.1) l = l).
    { intros [|g l] Hl; [done|]. apply drop_while_none, Hl. by left. }
    assert (Hsegs : forall g, g ∈ decode s -> is_space g.1 = false).
    { intros g Hg. rewrite decode_ascii in Hg by done. apply list_elem_of_In, in_map_iff in Hg as (c & <- & Hc).
      by apply uuid_char_ascii, Hs. }
    unfold TrimSpace, TrimFunc, trim_segs, drop_while_end. rewrite (Hn (decode s)) by exact Hsegs.
    rewrite Hn by (intros g Hg; apply Hsegs, list_elem_of_In, in_rev, list_elem_of_In, Hg). rewrite rev_involutive. apply raw_decode.
Qed.

Section QueueFacts.
Context `{UnicodeTables} `{UuidLib} `{!UuidLaws} `{Resolver} `{SshLib} `{UuidSource} {Host : Type} `{!Collaborators Host}.

Lemma decode_payload_text id :
  valid_utf8 id = true -> TrimSpace id = id -> id <> [] ->
  decodePayload (json_Marshal (JObj [(lit "deployment_id", JStr id)])) = inl {| DeploymentID := id |}.
Proof.
  intros Hv Ht Hne.
  assert (Hdec : Decode (json_Marshal (JObj [(lit "deployment_id", JStr id)]) ++ [])
                 = inl (JObj [(lit "deployment_id", JStr id)], [])).
  { apply Decode_marshal; [|done]. change (json_ok 0 (JObj [(lit "deployment_id", JStr id)])) with (valid_utf8 id && true).
    by rewrite Hv. }
  rewrite app_nil_r in Hdec.
  unfold decodePayload. rewrite Hdec. cbn [rbind].
  change (decode_struct_strict [lit "deployment_id"] (JObj [(lit "deployment_id", JStr id)])) with (inl [id] : result (list str)).
  cbn [rbind]. change (trailing []) with (@None goerror). cbn [check rbind field nth]. rewrite Ht.
  destruct (id =s []) eqn:E; [by bool_simp|done].
Qed.

Lemma decode_encode d :
  uuid_sized (Deployment.ID d) ->
  exists s, encodeDeployment d = inl s
    /\ decodePayload s = inl {| DeploymentID := UUIDString (Deployment.ID d) |}
    /\ PgUUID' (UUIDString (Deployment.ID d)) = inl (Deployment.ID d).
Proof.
  intros [Hv Hlen]. destruct (uuid_String_chars _ Hlen) as [Hne Hch]. destruct (uuid_text _ Hch) as (_ & Hutf & Htrim).
  assert (Hs : UUIDString (Deployment.ID d) = uuid_String (uuid_bytes (Deployment.ID d))) by (unfold UUIDString; by rewrite Hv).
  rewrite Hs. unfold encodeDeployment. rewrite Hs.
  destruct (uuid_String _ =s []) eqn:E; [by bool_simp|]. eexists. split; [done|]. split; [by apply decode_payload_text|].
  unfold PgUUID'. rewrite uuid_Parse_String by done. destruct (Deployment.ID d) as [b v]. cbn in *. by subst v.
Qed.

(** a deployment survives the queue: the payload that [Enqueue] pushes is
    accepted by the worker, whatever bytes its identifier has, and gives back
    exactly the identifier of that deployment. *)
Theorem queue_payload_roundtrip d (Hid : uuid_sized (Deployment.ID d)) :
  exists s p, encodeDeployment d = inl s /\ decodePayload s = inl p /\ PgUUID' (DeploymentID p) = inl (Deployment.ID d).
Proof.
  destruct (decode_encode d Hid) as (s & Hs1 & Hs2 & Hs3). by eexists _, _.
Qed.

(** ** The queue's environment *)

Record queue_state := { q_db : database; q_host : Host; q_list : list str }.

Definition put_engine (s : queue_state) (e : database * Host) : queue_state :=
  {| q_db := e.1; q_host := e.2; q_list := q_list s |}.

Definition on_engine {A} (f : database * Host -> A * (database * Host)) (s : queue_state) : A * queue_state :=
  let '(x, e) := f (q_db s, q_host s) in (x, put_engine s e).

(** Redis holds the list under one key; pushes succeed and a pop returns the
    head, or [redis.Nil] when the list stays empty. *)
Definition queue_handler : handler queueE queue_state := fun X e s =>
  match e in queueE X return X * queue_state with
  | QRunner e => on_engine (sql_handler _ e) s
  | QGetDeployment id => on_engine (lift (GetDeployment id)) s
  | QListQueuedDeploymentsForRecovery limit => on_engine (lift (ListQueuedDeploymentsForRecovery limit)) s
  | QFailRunningDeploymentsForRecovery => on_engine (lift FailRunningDeploymentsForRecovery) s
  | CRPush _ payload => (None, {| q_db := q_db s; q_host := q_host s; q_list := q_list s ++ [payload] |})
  | CBLPop key =>
      match q_list s with
      | [] => (PopNil, s)
      | x :: t => (PopItem [key; x], {| q_db := q_db s; q_host := q_host s; q_list := t |})
      end
  end.

Definition after {A} (p : prog queueE A) (s : queue_state) : queue_state := (exec queue_handler p s).2.

Lemma after_bind {A B} (p : prog queueE A) (f : A -> prog queueE B) s :
  after (pbind p f) s = after (f (exec queue_handler p s).1.1) (after p s).
Proof.
  unfold after. rewrite exec_bind. destruct (exec queue_handler p s) as [[a tr] s1].
  cbn [fst snd]. by destruct (exec queue_handler (f a) s1) as [[b tr2] s2].
Qed.

Lemma after_run r d s :
  after (pmap (@QRunner _) (Run r d)) s = put_engine s (exec sql_handler (Run r d) (q_db s, q_host s)).2.
Proof.
  unfold after. rewrite exec_pmap.
  rewrite (exec_lens sql_handler _ (fun s => (q_db s, q_host s)) put_engine).
  - by destruct (exec sql_handler (Run r d) (q_db s, q_host s)) as [[a tr] e].
  - intros X e t. unfold queue_handler, on_engine. by destruct (sql_handler X e (q_db t, q_host t)).
  - by intros t [db h].
  - done.
  - by intros [db h l].
Qed.

(** The deployment a queue item names. *)
Definition item_id (x : str) : option pgUUID_t :=
  match decodePayload x with
  | inr _ => None
  | inl p => match PgUUID' (DeploymentID p) with inl id => Some id | inr _ => None end
  end.

Lemma one_row_filter id db d :
  one_row (List.filter (fun d => uuid_eqb (Deployment.ID d) id) (deployments db)) = inl d ->
  d ∈ deployments db /\ Deployment.ID d = id.
Proof.
  intros Ho. apply one_row_elem, list_elem_of_In, filter_In in Ho as [Hd Hid].
  apply uuid_eqb_true in Hid as [Hid _]. split; [by apply list_elem_of_In|done].
Qed.

Definition ticked (s : queue_state) : queue_state :=
  {| q_db := tick (q_db s); q_host := q_host s; q_list := q_list s |}.

Definition found (id : pgUUID_t) (db : database) : result Deployment.t :=
  one_row (List.filter (fun d => uuid_eqb (Deployment.ID d) id) (deployments db)).

Lemma after_get {B} id (f : result Deployment.t -> prog queueE B) s :
  after (pbind (call (QGetDeployment id)) f) s = after (f (found id (q_db s))) (ticked s).
Proof.
  rewrite after_bind. unfold after. cbn. unfold on_engine, lift, GetDeployment, found. cbn.
  by destruct (one_row _) as [d|e].
Qed.

Lemma found_inl id db d : found id db = inl d -> d ∈ deployments db /\ Deployment.ID d = id.
Proof.
  intros Ho. apply one_row_elem, list_elem_of_In, filter_In in Ho as [Hd Hid].
  apply uuid_eqb_true in Hid as [Hid _]. split; [by apply list_elem_of_In|done].
Qed.

Lemma found_inr id db e d :
  deployments_ok db -> found id db = inr e -> d ∈ deployments db -> Deployment.ID d <> id.
Proof.
  intros Hok Hf Hd <-. unfold found in Hf.
  assert (Hin : In d (List.filter (fun d' => uuid_eqb (Deployment.ID d') (Deployment.ID d)) (deployments db))).
  { apply filter_In. split; [by apply list_elem_of_In|]. apply uuid_eqb_true. split; [done|]. by apply (ok_issued _ Hok). }
  destruct (List.filter _ _); [done|discriminate Hf].
Qed.

Definition leaves_alone (x : str) (s s' : queue_state) : Prop :=
  same_table (q_db s) (q_db s')
  /\ forall d, d ∈ deployments (q_db s) -> item_id x = Some (Deployment.ID d) -> Deployment.Status d <> lit "queued".

Definition ends_item (x : str) (s s' : queue_state) : Prop :=
  exists d, d ∈ deployments (q_db s) /\ item_id x = Some (Deployment.ID d) /\ Deployment.Status d = lit "queued"
    /\ row_with (Deployment.ID d) final_status (q_db s') /\ others_same (Deployment.ID d) (q_db s) (q_db s')
    /\ deployments_ok (q_db s').

Lemma item_id_none x s : item_id x = None -> leaves_alone x s s.
Proof. intros Hx. split; [by split|]. intros d _ Hid. congruence. Qed.

Lemma same_row db d d' :
  deployments_ok db -> d ∈ deployments db -> d' ∈ deployments db -> Deployment.ID d = Deployment.ID d' -> d = d'.
Proof.
  intros Hok Hd Hd' Hid. apply (NoDup_map_inj_elem row_id _ _ _ (ok_ids _ Hok)); [done|done|].
  unfold row_id. by rewrite Hid.
Qed.

(** Handling one item ends the queued deployment it names, or leaves the table
    alone. *)
Lemma handle_effect r x s :
  deployments_ok (q_db s) ->
  let s' := after (handle r x) s in
  q_list s' = q_list s /\ (ends_item x s s' \/ leaves_alone x s s').
Proof.
  intros Hok. cbv zeta. unfold handle.
  destruct (decodePayload x) as [p|err] eqn:Ep.
  2: { split; [done|]. right. apply item_id_none. unfold item_id. by rewrite Ep. }
  destruct (PgUUID' (DeploymentID p)) as [id|err] eqn:Eid.
  2: { split; [done|]. right. apply item_id_none. unfold item_id. by rewrite Ep, Eid. }
  assert (Hitem : item_id x = Some id) by (unfold item_id; by rewrite Ep, Eid).
  rewrite after_get. assert (Htick : same_table (q_db s) (q_db (ticked s))) by by split.
  destruct (found id (q_db s)) as [d|e] eqn:Ef.
  2: { split; [done|]. right. split; [done|]. intros d Hd Hx. rewrite Hitem in Hx. injection Hx as Hx.
       by destruct (found_inr _ _ _ _ Hok Ef Hd). }
  apply found_inl in Ef as [Hd Hid]. unfold shouldRunDeployment.
  destruct (Deployment.Status d =s lit "queued") eqn:Es; bool_simp; cbn [negb].
  - rewrite after_bind, after_run.
    assert (Hok1 : deployments_ok (tick (q_db s))) by by apply (other_ok (q_db s)).
    destruct (Run_ends r d d (tick (q_db s)) (q_host s) Hok1 Hd eq_refl Es) as (Hrow & Hoth & Hok').
    split; [done|]. left. exists d. split; [done|]. split; [by rewrite Hitem, Hid|]. by split.
  - split; [done|]. right. split; [done|]. intros d' Hd' Hx. rewrite Hitem in Hx. injection Hx as Hx.
    by rewrite <- (same_row (q_db s) d d' Hok Hd Hd' ltac:(congruence)).
Qed.

(** ** The worker drains the queue *)

(** No row is running, and every queued row is named by an item of the list. *)
Definition waiting (db : database) (items : list str) : Prop :=
  forall y, y ∈ deployments db ->
    Deployment.Status y <> lit "running"
    /\ (Deployment.Status y = lit "queued" -> exists x, x ∈ items /\ item_id x = Some (Deployment.ID y)).

Lemma final_not_waiting st : final_status st -> st <> lit "running" /\ st <> lit "queued".
Proof. intros [->| ->]; split; intros Hx; discriminate Hx. Qed.

Lemma handle_keeps_waiting r x items s :
  deployments_ok (q_db s) -> waiting (q_db s) (x :: items) ->
  let s' := after (handle r x) s in
  q_list s' = q_list s /\ deployments_ok (q_db s') /\ waiting (q_db s') items.
Proof.
  intros Hok Hw. cbv zeta. destruct (handle_effect r x s Hok) as [Hl He]. split; [exact Hl|].
  destruct He as [(d & Hd & Hx & Hq & (z & Hz & Hzid & Hzst) & Hoth & Hok')|[[Es Hle] Hnone]].
  - split; [exact Hok'|]. intros y Hy. destruct (decide (Deployment.ID y = Deployment.ID d)) as [Hid|Hid].
    + assert (y = z) as -> by (apply (same_row _ _ _ Hok' Hy Hz); congruence).
      apply final_not_waiting in Hzst as [Hr Hn]. by split.
    + destruct (Hoth y Hy Hid) as (y0 & Hy0 & Eid & Est). rewrite <- Est, <- Eid.
      destruct (Hw y0 Hy0) as [Hr Hin]. split; [exact Hr|]. intros Hq0.
      destruct (Hin Hq0) as (w & Hw1 & Hw2). apply elem_of_cons in Hw1 as [->|Hw1]; [congruence|by exists w].
  - split; [by apply (other_ok (q_db s))|]. intros y Hy. rewrite Es in Hy. destruct (Hw y Hy) as [Hr Hin].
    split; [exact Hr|]. intros Hq0. destruct (Hin Hq0) as (w & Hw1 & Hw2).
    apply elem_of_cons in Hw1 as [->|Hw1]; [by destruct (Hnone y Hy Hw2)|by exists w].
Qed.

Lemma after_pop {B} (f : pop_result -> prog queueE B) s :
  after (pbind (call (CBLPop deploymentQueueKey)) f) s
  = match q_list s with
    | [] => after (f PopNil) s
    | x :: t => after (f (PopItem [deploymentQueueKey; x])) {| q_db := q_db s; q_host := q_host s; q_list := t |}
    end.
Proof. rewrite after_bind. unfold after. cbn. by destruct (q_list s). Qed.

Lemma work_step n r s :
  after (work (S n) r) s
  = match q_list s with
    | [] => after (work n r) s
    | x :: t => after (work n r) (after (handle r x) {| q_db := q_db s; q_host := q_host s; q_list := t |})
    end.
Proof.
  cbn [work]. unfold work_once. rewrite after_bind, after_pop. unfold after at 2. rewrite exec_bind. cbn [exec call queue_handler].
  destruct (q_list s) as [|x t]; [done|]. cbn [fst snd exec].
  set (s1 := {| q_db := q_db s; q_host := q_host s; q_list := t |}).
  rewrite after_bind. unfold after. rewrite exec_bind. destruct (exec queue_handler (handle r x) s1) as [[e tr] s2]. done.
Qed.

Lemma work_drains n r s :
  deployments_ok (q_db s) -> waiting (q_db s) (q_list s) -> (length (q_list s) <= n)%nat ->
  waiting (q_db (after (work n r) s)) [] /\ deployments_ok (q_db (after (work n r) s)).
Proof.
  revert s. induction n as [|n IH]; intros s Hok Hw Hn.
  - destruct (q_list s) as [|x t] eqn:E; [by split|]. simpl in Hn. lia.
  - rewrite work_step. destruct (q_list s) as [|x t] eqn:E.
    + apply IH; rewrite ?E; [done|done|simpl; lia].
    + destruct (handle_keeps_waiting r x t {| q_db := q_db s; q_host := q_host s; q_list := t |} Hok Hw) as (El & Hok' & Hw').
      apply IH; [done| |]; rewrite El; [exact Hw'|]. simpl in Hn |- *. lia.
Qed.

Lemma waiting_nothing db y :
  deployments_ok db -> waiting db [] -> y ∈ deployments db -> is_terminal (Deployment.Status y) = true.
Proof.
  intros Hok Hw Hy. destruct (Hw y Hy) as [Hr Hq].
  pose proof (forallb_elem _ _ _ (ok_checks _ Hok) Hy) as Hc. unfold deployment_check in Hc. cbv zeta in Hc.
  repeat (apply andb_true_iff in Hc as [Hc _]). apply orb_true_iff in Hc as [Hc|Hc]; [|done].
  unfold in_progress in Hc. apply orb_true_iff in Hc as [Hc|Hc]; apply str_eqb_eq in Hc; [|by destruct (Hr Hc)].
  destruct (Hq Hc) as (x & Hx & _). by apply not_elem_of_nil in Hx.
Qed.

(** ** Start-up *)

Definition is_queued (d : Deployment.t) : bool := Deployment.Status d =s lit "queued".

Lemma fail_running_succeeds db :
  deployments_ok db ->
  exists rows db', FailRunningDeploymentsForRecovery db = inl (rows, db') /\ deployments_ok db'
    /\ (forall d, d ∈ rows -> exists y, y ∈ deployments db' /\ Deployment.ID y = Deployment.ID d)
    /\ (forall y', y' ∈ deployments db' -> Deployment.Status y' <> lit "running"
          /\ exists y, y ∈ deployments db /\ Deployment.ID y = Deployment.ID y')
    /\ List.filter is_queued (deployments db') = List.filter is_queued (deployments db).
Proof.
  intros Hok.
  set (cond := fun d => Deployment.Status d =s lit "running").
  set (set_ := fun d => DeploymentRow.set_status d (lit "failed") (Deployment.StartedAt d) (Some (clock db))).
  assert (Hrows : forallb deployment_check (sql_update cond set_ (deployments db)).2 = true).
  { apply forallb_intro. intros x Hx. apply sql_update_rows in Hx as (y & Hy & _ & ->).
    apply final_check; [by right|]. by apply (forallb_elem _ _ _ (ok_checks _ Hok)). }
  assert (Hone : one_in_progress (sql_update cond set_ (deployments db)).1 = true).
  { unfold one_in_progress. pose proof (ok_one _ Hok) as Ho. unfold one_in_progress in Ho.
    apply bool_decide_eq_true in Ho. apply bool_decide_eq_true. eapply sublist_NoDup; [exact Ho|].
    apply in_progress_sublist. intros d _. by destruct (cond d). }
  destruct (FailRunningDeploymentsForRecovery db) as [[rows db']|e] eqn:E.
  2: { exfalso. unfold FailRunningDeploymentsForRecovery in E. fold cond set_ in E.
       destruct (sql_update cond set_ (deployments db)) as [t rs] eqn:Eu. cbn [fst snd] in *.
       unfold store_deployments in E. rewrite Hrows, Hone in E. cbn [negb rbind] in E.
       by destruct (sql_update _ _ (applications _)). }
  exists rows, db'. split; [done|].
  assert (Hok' : deployments_ok db') by (by apply (step_preserves_deployments_ok' _ _ _ Hok (step_recover _ _ _ E))).
  split; [exact Hok'|].
  assert (Htab : deployments db' = (sql_update cond set_ (deployments db)).1 /\ rows = (sql_update cond set_ (deployments db)).2).
  { unfold FailRunningDeploymentsForRecovery in E. fold cond set_ in E.
    destruct (sql_update cond set_ (deployments db)) as [t rs] eqn:Eu. cbn [fst snd] in *.
    apply rbind_ok in E as (db1 & Hs & E). apply store_ok in Hs as (-> & _).
    destruct (sql_update _ _ (applications _)) as [apps xs]. injection E as <- <-. done. }
  destruct Htab as [Htab ->]. rewrite Htab. split; [|split].
  - intros d Hd. apply sql_update_rows in Hd as (y & Hy & Hc & ->). exists (set_ y). split; [|done].
    apply sql_update_elem. exists y. by rewrite Hc.
  - intros y' Hy. apply sql_update_elem in Hy as (y & Hy & ->). unfold cond.
    destruct (Deployment.Status y =s lit "running") eqn:Es; split; try (exists y; by split).
    + intros Hx. discriminate Hx.
    + by bool_simp.
  - unfold sql_update. cbn [fst]. clear. induction (deployments db) as [|d l IH]; [done|]. cbn [map List.filter]. rewrite IH.
    destruct (cond d) eqn:Ec; [|done]. unfold is_queued, cond in *. apply str_eqb_eq in Ec. rewrite Ec. reflexivity.
Qed.

Definition append_log (id : pgUUID_t) (stream message : str) : prog queueE (result DeploymentLog.t) :=
  call (QRunner (QAppendDeploymentLog id stream message)).

Lemma append_interrupted_log id db y :
  y ∈ deployments db -> uuid_valid id = true -> Deployment.ID y = id ->
  exists l, AppendDeploymentLog id (lit "system") interruptedDeploymentLogMessage db
            = inl (l, with_logs db (logs db ++ [l])).
Proof.
  intros Hy Hv Hid. unfold AppendDeploymentLog.
  assert (Ht : text_ok interruptedDeploymentLogMessage = true) by (vm_compute; reflexivity).
  assert (Hs : stream_ok (lit "system") && negb (btrim interruptedDeploymentLogMessage =s [])
               && (char_length interruptedDeploymentLogMessage <=? 32768)%nat = true).
  { assert (Hl : char_length interruptedDeploymentLogMessage = 59%nat) by (vm_compute; reflexivity).
    rewrite Hl. assert ((59 <=? 32768)%nat = true) as -> by (vm_compute; reflexivity). vm_compute. reflexivity. }
  rewrite Ht, Hs. cbn [negb].
  assert (existsb (fun d => uuid_eqb (Deployment.ID d) id) (deployments db) = true) as ->.
  { apply existsb_exists. exists y. split; [by apply list_elem_of_In|]. apply uuid_eqb_true. split; [done|by rewrite Hid]. }
  by eexists.
Qed.

Lemma log_loop_succeeds rows s :
  deployments_ok (q_db s) ->
  (forall d, d ∈ rows -> exists y, y ∈ deployments (q_db s) /\ Deployment.ID y = Deployment.ID d) ->
  (exec queue_handler (log_loop append_log rows) s).1.1 = None
  /\ same_table (q_db s) (q_db (after (log_loop append_log rows) s))
  /\ q_list (after (log_loop append_log rows) s) = q_list s.
Proof.
  unfold after. revert s. induction rows as [|d rows IH]; intros s Hok Hrows; [by split|].
  destruct (Hrows d ltac:(by left)) as (y & Hy & Hid).
  assert (Hv : uuid_valid (Deployment.ID d) = true) by (rewrite <- Hid; by apply (ok_issued _ Hok)).
  destruct (append_interrupted_log _ _ _ Hy Hv Hid) as (l & El).
  set (s1 := put_engine s (tick (with_logs (q_db s) (logs (q_db s) ++ [l])), q_host s)).
  assert (Hex : exists ev, exec queue_handler (append_log (Deployment.ID d) (lit "system") interruptedDeploymentLogMessage) s
                           = (inl l, [ev], s1)).
  { eexists. unfold append_log. cbn [exec call queue_handler]. unfold on_engine. cbn [sql_handler]. unfold lift.
    cbn [fst snd]. rewrite El. reflexivity. }
  destruct Hex as (ev & Hex). cbn [log_loop]. rewrite !exec_bind, Hex.
  assert (Hsame : same_table (q_db s) (q_db s1)) by by split.
  assert (Hok1 : deployments_ok (q_db s1)) by (by apply (other_ok (q_db s))).
  destruct (IH s1 Hok1) as (IH1 & IH2 & IH3).
  { intros d' Hd'. destruct (Hrows d' ltac:(by right)) as (y' & Hy' & Hid'). by exists y'. }
  destruct (exec queue_handler (log_loop append_log rows) s1) as [[err tr] s2]. cbn [fst snd] in *.
  split; [exact IH1|]. split; [|exact IH3]. destruct Hsame as [E1 E2], IH2 as [E3 E4]. split; [congruence|lia].
Qed.

(** Every identifier survives the queue. *)
Definition sized (db : database) : Prop := forall d, d ∈ deployments db -> uuid_sized (Deployment.ID d).

Lemma enqueue_loop_succeeds ds i s :
  (forall d, d ∈ ds -> uuid_sized (Deployment.ID d)) ->
  let s' := after (enqueue_loop Enqueue ds i) s in
  (exec queue_handler (enqueue_loop Enqueue ds i) s).1.1.2 = None
  /\ q_db s' = q_db s
  /\ exists new, q_list s' = q_list s ++ new /\ forall d, d ∈ ds -> exists x, x ∈ new /\ item_id x = Some (Deployment.ID d).
Proof.
  unfold after. cbv zeta. revert i s. induction ds as [|d ds IH]; intros i s Hs.
  { split; [done|]. split; [done|]. exists []. rewrite app_nil_r. split; [done|]. by intros d ?%not_elem_of_nil. }
  destruct (decode_encode d (Hs d ltac:(by left))) as (x & Ex & Edec & Eid).
  set (s1 := {| q_db := q_db s; q_host := q_host s; q_list := q_list s ++ [x] |}).
  assert (Hex : exists ev, exec queue_handler (Enqueue d) s = (None, [ev], s1)).
  { eexists. unfold Enqueue. rewrite Ex. reflexivity. }
  destruct Hex as (ev & Hex). cbn [enqueue_loop]. rewrite !exec_bind, Hex.
  destruct (IH (i + 1)%Z s1) as (IH1 & IH2 & new & IH3 & IH4); [by intros d' Hd'; apply Hs; right|].
  destruct (exec queue_handler (enqueue_loop Enqueue ds (i + 1)) s1) as [[err tr] s2]. cbn [fst snd] in *.
  split; [exact IH1|]. split; [exact IH2|]. exists (x :: new).
  split; [rewrite IH3; unfold s1; cbn [q_list]; by rewrite <- app_assoc|].
  intros d' Hd'. apply elem_of_cons in Hd' as [->|Hd'].
  - exists x. split; [by left|]. unfold item_id. rewrite Edec. cbn [DeploymentID]. by rewrite Eid.
  - destruct (IH4 d' Hd') as (w & Hw & Hwid). exists w. split; [by right|done].
Qed.

(** A start-up on a table with at most [defaultRecoveryLimit] queued rows
    succeeds and leaves every row ended or waiting in the list. *)
Lemma recover_leaves_waiting db host items :
  deployments_ok db -> sized db ->
  (Z.of_nat (length (List.filter is_queued (deployments db))) <= defaultRecoveryLimit)%Z ->
  let s0 := {| q_db := db; q_host := host; q_list := items |} in
  let s1 := after recover_at_start s0 in
  (exec queue_handler recover_at_start s0).1.1 = None /\ deployments_ok (q_db s1) /\ waiting (q_db s1) (q_list s1).
Proof.
  intros Hok Hsized Hfew. cbv zeta. unfold after.
  destruct (fail_running_succeeds db Hok) as (rows & db1 & Efail & Hok1 & Hrows & Hnone & Hq).
  set (s0 := {| q_db := db; q_host := host; q_list := items |}).
  set (s1 := {| q_db := tick db1; q_host := host; q_list := items |}).
  assert (H1x : exists ev, exec queue_handler (call QFailRunningDeploymentsForRecovery) s0 = (inl rows, [ev], s1)).
  { eexists. cbn [exec call queue_handler]. unfold on_engine, lift. cbn [fst snd q_db s0]. rewrite Efail. reflexivity. }
  destruct H1x as (ev1 & Hex1).
  assert (Hok1' : deployments_ok (q_db s1)) by (by apply (other_ok db1)).
  destruct (log_loop_succeeds rows s1 Hok1') as (Hlog1 & Hlog2 & Hlog3); [exact Hrows|]. unfold after in Hlog2, Hlog3.
  destruct (exec queue_handler (log_loop append_log rows) s1) as [[err1 tr1] s2] eqn:Hex2. cbn [fst snd] in *. subst err1.
  set (ds := take 100 (merge_sort (time_asc Deployment.CreatedAt) (List.filter is_queued (deployments (q_db s2))))).
  set (s3 := {| q_db := tick (q_db s2); q_host := q_host s2; q_list := q_list s2 |}).
  assert (Htab : deployments (q_db s3) = deployments db1) by (destruct Hlog2 as [E _]; exact E).
  assert (Hds : forall d, d ∈ deployments (q_db s3) -> Deployment.Status d = lit "queued" -> d ∈ ds).
  { intros d Hd Hst. unfold ds. rewrite firstn_all2.
    - rewrite merge_sort_Permutation. apply list_elem_of_In, filter_In. split; [by apply list_elem_of_In|].
      unfold is_queued. by rewrite Hst.
    - rewrite merge_sort_Permutation. change (deployments (q_db s2)) with (deployments (q_db s3)). rewrite Htab, Hq.
      unfold defaultRecoveryLimit in Hfew. lia. }
  assert (Hsz : forall d, d ∈ ds -> uuid_sized (Deployment.ID d)).
  { intros d Hd. unfold ds in Hd. apply list_elem_of_In in Hd.
    assert (Hd' : d ∈ deployments (q_db s3)).
    { apply list_elem_of_In in Hd. apply elem_of_take in Hd as (k & Hk & _). apply list_elem_of_lookup_2 in Hk.
      rewrite merge_sort_Permutation in Hk. apply list_elem_of_In, filter_In in Hk as [Hk _]. by apply list_elem_of_In. }
    rewrite Htab in Hd'. destruct (Hnone d Hd') as (_ & y & Hy & <-). by apply Hsized. }
  destruct (enqueue_loop_succeeds ds 0 s3 Hsz) as (Henq1 & Henq2 & new & Henq3 & Henq4). unfold after in Henq2, Henq3.
  destruct (exec queue_handler (enqueue_loop Enqueue ds 0) s3) as [[[k err2] tr2] s4] eqn:Hex4. cbn [fst snd] in *. subst err2.
  assert (H3x : exists ev, exec queue_handler (call (QListQueuedDeploymentsForRecovery 100)) s2 = (inl ds, [ev], s3)).
  { eexists. reflexivity. }
  destruct H3x as (ev3 & Hex3).
  assert (Hall : exists tr, exec queue_handler recover_at_start s0 = (None, tr, s4)).
  { eexists. unfold recover_at_start, RecoverInterrupted, recoverInterrupted. fold append_log.
    rewrite !exec_bind, Hex1. change (fun id stream message => call (QRunner (QAppendDeploymentLog id stream message))) with append_log.
    rewrite exec_bind, Hex2. cbn [exec]. rewrite exec_bind. unfold RecoverQueued, recoverQueued.
    change (if (0 <=? 0)%Z then defaultRecoveryLimit else 0%Z) with 100%Z. cbv zeta.
    change (if (100 <=? 0)%Z then defaultRecoveryLimit else 100%Z) with 100%Z.
    rewrite exec_bind, Hex3, Hex4. reflexivity. }
  destruct Hall as (tr & ->). cbn [fst snd]. split; [done|].
  split; [rewrite Henq2; apply (other_ok db1); [done|exact Htab|destruct Hlog2 as [_ Hle]; exact Hle]|].
  intros y Hy. rewrite Henq2 in Hy. rewrite Htab in Hy. destruct (Hnone y Hy) as [Hnr _]. split; [exact Hnr|].
  intros Hqy. destruct (Henq4 y) as (x & Hx & Hxid); [apply Hds; [by rewrite Htab|done]|].
  exists x. split; [|done]. rewrite Henq3. apply elem_of_app. by right.
Qed.

(** C4: nothing stays in progress across a restart.  When the server starts with
    any consistent table (running rows of the interrupted process, up to
    [defaultRecoveryLimit] queued rows) and any Redis list (stale, duplicate or
    malformed items), the recovery steps succeed, and once the worker has worked
    through the list every deployment has ended, whatever the hosts answer. *)
Theorem restart_settles_all r db host items n
    (Hok : deployments_ok db) (Hsized : sized db)
    (Hfew : (Z.of_nat (length (List.filter is_queued (deployments db))) <= defaultRecoveryLimit)%Z) :
  let s0 := {| q_db := db; q_host := host; q_list := items |} in
  let s1 := after recover_at_start s0 in
  (exec queue_handler recover_at_start s0).1.1 = None
  /\ ((length (q_list s1) <= n)%nat ->
      forall d, d ∈ deployments (q_db (after (work n r) s1)) -> is_terminal (Deployment.Status d) = true).
Proof.
  destruct (recover_leaves_waiting db host items Hok Hsized Hfew) as (Herr & Hok1 & Hw). split; [exact Herr|].
  intros Hn d Hd. destruct (work_drains n r _ Hok1 Hw Hn) as [Hw2 Hok2]. by apply (waiting_nothing _ _ Hok2 Hw2).
Qed.

(** a queue item runs at most the deployment it names: an item that is not a
    payload, names no row or names a row that has left the queue changes no
    deployment, and an item that names a queued row ends exactly that row and
    keeps the status of every other. *)
Theorem handle_runs_only_queued r x s (Hok : deployments_ok (q_db s)) :
  ends_item x s (after (handle r x) s) \/ leaves_alone x s (after (handle r x) s).
Proof. exact (proj2 (handle_effect r x s Hok)). Qed.
End QueueFacts.
