(* ===== verification/GoCrypto.v ===== *)
(** * encoding/base64, crypto/sha256, crypto/hmac and encoding/hex

    The standard encoding with padding and the URL encoding without, with what is
    encoded decoding to itself; SHA-256 on 32-bit words with their wrap-around, HMAC,
    and hexadecimal. *)

From S2P Require Import Prelude GoStrings GoStringsFacts GoJson.

Definition std_digits : str := lit "ABCDEFGHIJKLMNOPQRSTUVWXYZabcdefghijklmnopqrstuvwxyz0123456789+/".
Definition url_digits : str := lit "ABCDEFGHIJKLMNOPQRSTUVWXYZabcdefghijklmnopqrstuvwxyz0123456789-_".
Definition pad_char : ascii := "="%char.

Definition digit_of (digits : str) (x : N) : ascii := nth (N.to_nat x) digits pad_char.
Definition padding (padded : bool) (n : nat) : str := if padded then repeat pad_char n else [].

Fixpoint encode_with (digits : str) (padded : bool) (s : str) : str :=
  let digit x := digit_of digits x in
  (match s with
   | [] => []
   | [a] => let a := b2n a in [digit (a / 4); digit (a mod 4 * 16)] ++ padding padded 2
   | [a; b] =>
       let a := b2n a in let b := b2n b in
       [digit (a / 4); digit (a mod 4 * 16 + b / 16); digit (b mod 16 * 4)] ++ padding padded 1
   | a :: b :: c :: t =>
       let a := b2n a in let b := b2n b in let c := b2n c in
       digit (a / 4) :: digit (a mod 4 * 16 + b / 16) :: digit (b mod 16 * 4 + c / 64) :: digit (c mod 64)
       :: encode_with digits padded t
   end)%N.

(** [base64.StdEncoding] and [base64.RawURLEncoding] *)
Definition StdEncodeToString (s : str) : str := encode_with std_digits true s.
Definition RawURLEncodeToString (s : str) : str := encode_with url_digits false s.

Fixpoint position (c : ascii) (l : str) : option N :=
  match l with
  | [] => None
  | d :: t => if bool_decide (c = d) then Some 0%N else N.succ <$> position c t
  end.

(** On a text without line breaks; the bits that a padded quantum leaves over are
    ignored. *)
Fixpoint decode_quanta (s : str) : option str :=
  match s with
  | [] => Some []
  | a :: b :: c :: d :: t =>
      x ← position a std_digits; y ← position b std_digits;
      let first := ascii_of_N (x * 4 + y / 16)%N in
      if bool_decide (c = pad_char) then if bool_decide (d = pad_char) && (t =s []) then Some [first] else None
      else
        z ← position c std_digits;
        let second := ascii_of_N (y mod 16 * 16 + z / 4)%N in
        if bool_decide (d = pad_char) then if t =s [] then Some [first; second] else None
        else
          w ← position d std_digits;
          rest ← decode_quanta t;
          Some (first :: second :: ascii_of_N (z mod 4 * 64 + w)%N :: rest)
  | _ => None
  end.

Definition base64_break (c : ascii) : bool := bool_decide (c = ascii_of_N 10) || bool_decide (c = ascii_of_N 13).
Definition corrupt_input : goerror := ErrText "illegal base64 data".
(** The position in the error is left out. *)
Definition StdDecodeString (s : str) : result str :=
  match decode_quanta (List.filter (fun c => negb (base64_break c)) s) with Some x => inl x | None => inr corrupt_input end.

(** ** What is encoded decodes to itself *)

Lemma digit_position x : (x < 64)%N ->
  position (digit_of std_digits x) std_digits = Some x /\ digit_of std_digits x <> pad_char
  /\ base64_break (digit_of std_digits x) = false.
Proof.
  intros Hx. assert (Hall : forallb (fun n => let c := digit_of std_digits (N.of_nat n) in
    bool_decide (position c std_digits = Some (N.of_nat n)) && negb (bool_decide (c = pad_char)) && negb (base64_break c)) (seq 0 64) = true)
    by (vm_compute; reflexivity).
  rewrite forallb_forall in Hall. specialize (Hall (N.to_nat x)). rewrite N2Nat.id in Hall. cbv zeta in Hall.
  rewrite !andb_true_iff, !negb_true_iff in Hall. destruct Hall as [[Hp Hc] Hb]; [apply in_seq; lia|].
  split; [by apply bool_decide_eq_true in Hp|]. split; [by apply bool_decide_eq_false in Hc|done].
Qed.

Lemma b2n_lt (c : ascii) : (b2n c < 256)%N.
Proof. destruct c as [[] [] [] [] [] [] [] []]; vm_compute; reflexivity. Qed.
Lemma ascii_b2n c : ascii_of_N (b2n c) = c.
Proof. apply ascii_N_embedding. Qed.

Ltac bytes_small := repeat match goal with |- context [b2n ?c] => lazymatch goal with K : (b2n c < 256)%N |- _ => fail | _ => pose proof (b2n_lt c) end end.
Ltac quotients := bytes_small; zify; Z.to_euclidean_division_equations; lia.
Ltac base64_digits :=
  bytes_small;
  repeat match goal with |- context [digit_of std_digits ?x] =>
    let Hx := fresh "Hx" in assert (Hx : (x < 64)%N) by quotients;
    destruct (digit_position x Hx) as (? & ? & ?); clear Hx; let d := fresh "d" in set (d := digit_of std_digits x) in *; clearbody d
  end.

Lemma by_threes (P : str -> Prop) :
  P [] -> (forall a, P [a]) -> (forall a b, P [a; b]) -> (forall a b c t, P t -> P (a :: b :: c :: t)) -> forall s, P s.
Proof.
  intros K0 K1 K2 K3 s. enough (P s /\ (forall a, P (a :: s)) /\ (forall a b, P (a :: b :: s))) by tauto.
  induction s as [|x t (Kt & Ka & Kb)]; auto.
Qed.

(** What a base-64 group carries comes back. *)
Lemma same_byte x c : x = b2n c -> ascii_of_N x = c.
Proof. intros ->. apply ascii_b2n. Qed.

Lemma encoded_breaks s : List.filter (fun c => negb (base64_break c)) (StdEncodeToString s) = StdEncodeToString s.
Proof.
  unfold StdEncodeToString. assert (Kp : base64_break pad_char = false) by reflexivity.
  induction s as [|a|a b|a b c t IH] using by_threes; cbn [encode_with padding repeat app]; base64_digits;
    cbn [List.filter]; repeat match goal with K : base64_break _ = false |- _ => rewrite K end; cbn [negb]; [done..|].
  by rewrite IH.
Qed.

Lemma decode_encoded s : decode_quanta (StdEncodeToString s) = Some s.
Proof.
  unfold StdEncodeToString.
  induction s as [|a|a b|a b c t IH] using by_threes; [done|..]; cbn [encode_with padding repeat app]; base64_digits;
    cbn [decode_quanta]; repeat match goal with K : position _ _ = Some _ |- _ => rewrite K end; cbn [mbind option_bind];
    rewrite ?bool_decide_eq_false_2 by done; rewrite ?bool_decide_eq_true_2 by done; cbn [andb str_eqb].
  - do 2 f_equal. (apply same_byte; quotients).
  - do 2 f_equal; [|f_equal]; (apply same_byte; quotients).
  - rewrite IH. cbn [mbind option_bind]. do 2 f_equal; [|f_equal; [|f_equal]]; (apply same_byte; quotients).
Qed.

Lemma StdDecode_encoded s : StdDecodeString (StdEncodeToString s) = inl s.
Proof. unfold StdDecodeString. by rewrite encoded_breaks, decode_encoded. Qed.

(** * crypto/sha256, crypto/hmac and encoding/hex

    SHA-256 on 32-bit words as FIPS 180-4 defines it, HMAC over it, and the
    hexadecimal form of byte strings. *)

(** ** SHA-256 *)

Abbreviation word := N.
Definition mask32 : N := 4294967295.
Definition add32 (x y : word) : word := N.land (x + y) mask32.
Definition rotr (n : N) (x : word) : word := N.lor (N.shiftr x n) (N.land (N.shiftl x (32 - n)) mask32).
Definition not32 (x : word) : word := N.lxor x mask32.

Definition Ch (x y z : word) : word := N.lxor (N.land x y) (N.land (not32 x) z).
Definition Maj (x y z : word) : word := N.lxor (N.lxor (N.land x y) (N.land x z)) (N.land y z).
Definition Sigma0 (x : word) : word := N.lxor (N.lxor (rotr 2 x) (rotr 13 x)) (rotr 22 x).
Definition Sigma1 (x : word) : word := N.lxor (N.lxor (rotr 6 x) (rotr 11 x)) (rotr 25 x).
Definition sigma0 (x : word) : word := N.lxor (N.lxor (rotr 7 x) (rotr 18 x)) (N.shiftr x 3).
Definition sigma1 (x : word) : word := N.lxor (N.lxor (rotr 17 x) (rotr 19 x)) (N.shiftr x 10).

(** The constants are the first 32 bits of the fractional parts of the cube roots of
    the first 64 primes, the initial digest those of the square roots of the first
    eight; here they are computed. *)
Definition is_prime (n : nat) : bool := forallb (fun d => negb (n mod d =? 0)%nat) (seq 2 (n - 2)).
Definition primes : list N := map N.of_nat (List.filter is_prime (seq 2 310)).

(** The greatest [r < acc + 2 ^ n] above [acc] with [r ^ 3 <= x]. *)
Fixpoint cube_root (n : nat) (x acc : N) : N :=
  match n with
  | O => acc
  | S n => let r := (acc + 2 ^ N.of_nat n)%N in cube_root n x (if (r ^ 3 <=? x)%N then r else acc)
  end.
Definition round_constants : list word :=
  Eval vm_compute in map (fun p => N.land (cube_root 36 (p * 2 ^ 96) 0) mask32) primes.

Record digest := Digest { ha : word; hb : word; hc : word; hd : word; he : word; hf : word; hg : word; hh : word }.

Definition initial_digest : digest :=
  Eval vm_compute in
    match map (fun p => N.land (N.sqrt (p * 2 ^ 64)) mask32) primes with
    | a :: b :: c :: d :: e :: f :: g :: h :: _ => Digest a b c d e f g h
    | _ => Digest 0 0 0 0 0 0 0 0
    end.

(** The message with a one bit, zeros and its length in bits. *)
Definition word_bytes (x : word) : str :=
  map (fun n => ascii_of_N (N.land (N.shiftr x n) 255)) [24; 16; 8; 0]%N.
Definition padded (m : str) : str :=
  let bits := N.land (8 * N.of_nat (length m)) 18446744073709551615 in
  let zeros := ((64 - (length m + 9) mod 64) mod 64)%nat in
  m ++ ascii_of_N 128 :: repeat Ascii.zero zeros ++ word_bytes (N.shiftr bits 32) ++ word_bytes (N.land bits mask32).

Fixpoint words (s : str) : list word :=
  match s with
  | a :: b :: c :: d :: t => (N.shiftl (b2n a) 24 + N.shiftl (b2n b) 16 + N.shiftl (b2n c) 8 + b2n d)%N :: words t
  | _ => []
  end.

(** The message schedule, the latest word first. *)
Definition next_word (w : list word) : word :=
  let at_ i := nth i w 0%N in
  add32 (add32 (sigma1 (at_ 1%nat)) (at_ 6%nat)) (add32 (sigma0 (at_ 14%nat)) (at_ 15%nat)).
Fixpoint extend (n : nat) (w : list word) : list word :=
  match n with O => w | S n => extend n (next_word w :: w) end.
Definition schedule (block : list word) : list word := rev (extend 48 (rev block)).

Definition round (s : digest) (kw : word * word) : digest :=
  let '(Digest a b c d e f g h) := s in
  let t1 := add32 (add32 (add32 h (Sigma1 e)) (add32 (Ch e f g) (fst kw))) (snd kw) in
  let t2 := add32 (Sigma0 a) (Maj a b c) in
  Digest (add32 t1 t2) a b c (add32 d t1) e f g.

Definition compress (s : digest) (block : list word) : digest :=
  let '(Digest a b c d e f g h) := s in
  let '(Digest a' b' c' d' e' f' g' h') := fold_left round (combine round_constants (schedule block)) s in
  Digest (add32 a a') (add32 b b') (add32 c c') (add32 d d') (add32 e e') (add32 f f') (add32 g g') (add32 h h').

Fixpoint compress_all (fuel : nat) (s : digest) (w : list word) : digest :=
  match fuel, w with
  | S fuel, _ :: _ => compress_all fuel (compress s (take 16 w)) (drop 16 w)
  | _, _ => s
  end.

Definition digest_bytes (s : digest) : str :=
  let '(Digest a b c d e f g h) := s in concat (map word_bytes [a; b; c; d; e; f; g; h]).

(** One turn of [compress_all] takes sixteen words. *)
Definition sha256 (m : str) : str :=
  let w := words (padded m) in digest_bytes (compress_all (length w) initial_digest w).

(** ** HMAC *)

Definition xor_pad (x : N) (key : str) : str := map (fun c => ascii_of_N (N.lxor (b2n c) x)) key.

Definition hmac_sha256 (key message : str) : str :=
  let key := if (64 <? length key)%nat then sha256 key else key in
  let key := key ++ repeat Ascii.zero (64 - length key) in
  sha256 (xor_pad 92 key ++ sha256 (xor_pad 54 key ++ message)).

(** [hmac.Equal] *)
Definition hmac_Equal (a b : str) : bool := a =s b.

(** ** Hexadecimal *)

Definition hex_EncodeToString (s : str) : str := concat (map (fun c => hex_fixed false 2 (b2n c)) s).

Fixpoint hex_DecodeString (s : str) : option str :=
  match s with
  | [] => Some []
  | a :: b :: t =>
      x ← hex_rune (b2n a); y ← hex_rune (b2n b); rest ← hex_DecodeString t; Some (ascii_of_N (x * 16 + y) :: rest)
  | _ => None
  end.

(** Test vectors of FIPS 180-4 and RFC 4231. *)
Example sha256_abc :
  hex_EncodeToString (sha256 (lit "abc")) = lit "ba7816bf8f01cfea414140de5dae2223b00361a396177a9cb410ff61f20015ad".
Proof. vm_compute. reflexivity. Qed.

Example sha256_two_blocks :
  hex_EncodeToString (sha256 (lit "abcdbcdecdefdefgefghfghighijhijkijkljklmklmnlmnomnopnopq"))
  = lit "248d6a61d20638b8e5c026930c3e6039a33ce45964ff2167f6ecedd419db06c1".
Proof. vm_compute. reflexivity. Qed.

Example hmac_rfc4231_2 :
  hex_EncodeToString (hmac_sha256 (lit "Jefe") (lit "what do ya want for nothing?"))
  = lit "5bdcc146bf60754e6a042426089575c75a003f089d2739839dec58b964ec3843".
Proof. vm_compute. reflexivity. Qed.

(** ** Facts *)

Lemma sha256_length m : length (sha256 m) = 32%nat.
Proof. unfold sha256, digest_bytes. by destruct (compress_all _ _ _). Qed.

Definition pair_decodes (c : ascii) : bool :=
  match hex_fixed false 2 (b2n c) with
  | [a; b] => match hex_rune (b2n a), hex_rune (b2n b) with
              | Some x, Some y => bool_decide (ascii_of_N (x * 16 + y) = c)
              | _, _ => false
              end
  | _ => false
  end.

Lemma pairs_decode c : pair_decodes c = true.
Proof. destruct c as [b0 b1 b2 b3 b4 b5 b6 b7]; destruct b0, b1, b2, b3, b4, b5, b6, b7; reflexivity. Qed.

Lemma hex_pair c : exists a b x y,
  hex_fixed false 2 (b2n c) = [a; b] /\ hex_rune (b2n a) = Some x /\ hex_rune (b2n b) = Some y /\ ascii_of_N (x * 16 + y) = c.
Proof.
  pose proof (pairs_decode c) as Hp. unfold pair_decodes in Hp. destruct (hex_fixed _ _ _) as [|a [|b [|? ?]]]; try done.
  destruct (hex_rune (b2n a)) as [x|] eqn:Ex; [|done]. destruct (hex_rune (b2n b)) as [y|] eqn:Ey; [|done].
  apply bool_decide_eq_true in Hp. by exists a, b, x, y.
Qed.

Lemma hex_decode_encode s : hex_DecodeString (hex_EncodeToString s) = Some s.
Proof.
  induction s as [|c s IH]; [done|]. unfold hex_EncodeToString in *. cbn [map concat].
  destruct (hex_pair c) as (a & b & x & y & -> & Hx & Hy & Hc). cbn [app hex_DecodeString].
  rewrite Hx, Hy, IH. cbn [mbind option_bind]. by rewrite Hc.
Qed.

(** The lower-case form of a byte of hexadecimal text. *)
Definition lower_byte (c : ascii) : ascii := if is_upper_ascii (b2n c) then ascii_of_N (b2n c + 32) else c.

Definition pair_canonical (a b : ascii) : bool :=
  match hex_rune (b2n a), hex_rune (b2n b) with
  | Some x, Some y => hex_fixed false 2 (b2n (ascii_of_N (x * 16 + y))) =s [lower_byte a; lower_byte b]
  | _, _ => true
  end.
Definition all_bytes : list ascii := map ascii_of_nat (seq 0 256).

Lemma all_bytes_in c : c ∈ all_bytes.
Proof.
  apply list_elem_of_In, in_map_iff. exists (nat_of_ascii c). split; [apply ascii_nat_embedding|].
  apply in_seq. pose proof (nat_ascii_bounded c). lia.
Qed.

Lemma pairs_canonical : forallb (fun a => forallb (pair_canonical a) all_bytes) all_bytes = true.
Proof. vm_compute. reflexivity. Qed.

Lemma hex_pair_canonical a b x y :
  hex_rune (b2n a) = Some x -> hex_rune (b2n b) = Some y ->
  hex_fixed false 2 (b2n (ascii_of_N (x * 16 + y))) = [lower_byte a; lower_byte b].
Proof.
  intros Hx Hy. pose proof pairs_canonical as Hall. rewrite forallb_forall in Hall.
  specialize (Hall a (proj1 (list_elem_of_In _ _) (all_bytes_in a))). rewrite forallb_forall in Hall.
  specialize (Hall b (proj1 (list_elem_of_In _ _) (all_bytes_in b))). unfold pair_canonical in Hall.
  rewrite Hx, Hy in Hall. by apply str_eqb_eq in Hall.
Qed.

(** A text that decodes is the canonical one up to the case of its letters. *)
Lemma hex_decode_canonical h s : hex_DecodeString h = Some s -> map lower_byte h = hex_EncodeToString s.
Proof.
  revert s. assert (Hn : forall n h s, (length h <= n)%nat -> hex_DecodeString h = Some s -> map lower_byte h = hex_EncodeToString s).
  2: by intros s; apply (Hn (length h)).
  clear h. induction n as [|n IH]; intros [|a [|b h]] s Hl Hd; try done; try (by injection Hd as <-); cbn [length] in Hl; [lia|].
  cbn [hex_DecodeString] in Hd. apply bind_Some in Hd as (x & Hx & Hd). apply bind_Some in Hd as (y & Hy & Hd).
  apply bind_Some in Hd as (rest & Hr & [= <-]). cbn [map]. rewrite (IH h rest ltac:(lia) Hr).
  unfold hex_EncodeToString. cbn [map concat]. by rewrite (hex_pair_canonical a b x y Hx Hy).
Qed.
