(* ===== verification/GoHttp.v ===== *)
(** * net/http, net and strconv, as far as the handlers use them

    Requests as the handlers see them, splitting and printing of addresses,
    decimal numbers, caseless comparison, and reading one JSON value from a body
    whose size is limited. *)

From S2P Require Import Prelude GoStrings GoJson GoNet.

(** ** Requests

    [net/http] and the router have parsed the request: header values by their
    canonical name, cookies, query parameters and path parameters by name; an
    absent one is empty, except that [Cookie] tells an absent one apart. *)

Record Request := {
  Method : str;
  RemoteAddr : str;
  Host' : str;
  URLPath : str;
  TLS : bool;
  Header : str -> str;
  Cookie : str -> option str;
  Query : str -> str;
  URLParam : str -> str;
  Body : str }.

(** [http.Cookie] as the program sets it; every cookie is SameSite=Lax. *)
Record SetCookie := {
  CookieName : str; CookieValue : str; CookiePath : str; MaxAge : Z; HttpOnly : bool; Secure : bool }.

(** ** Numbers *)

(** [strconv.ParseInt(s, 10, bits)], by the least and the greatest value. *)
Definition ParseInt (lo hi : Z) (s : str) : option Z :=
  let '(neg, t) := match s with
    | c :: u => if (b2n c =? 45)%N then (true, u) else if (b2n c =? 43)%N then (false, u) else (false, s)
    | [] => (false, s) end in
  if (t =s []) || negb (forallb is_dig t) then None
  else
    let z := if neg : bool then (- digits_value t)%Z else digits_value t in
    if (lo <=? z)%Z && (z <=? hi)%Z then Some z else None.

(** 64-bit signed arithmetic. *)
Definition maxInt64 : Z := 9223372036854775807.
Definition minInt64 : Z := -9223372036854775808.
Definition ParseInt32 : str -> option Z := ParseInt (-2147483648) 2147483647.
Definition ParseInt64 : str -> option Z := ParseInt minInt64 maxInt64.
Definition wrap64 (z : Z) : Z := ((z + 9223372036854775808) mod 18446744073709551616 - 9223372036854775808)%Z.

(** ** Caseless comparison *)

(** The least rune of an orbit of [unicode.SimpleFold]. *)
Class FoldTable := { fold_least : rune -> rune }.

Definition EqualFold `{FoldTable} (s t : str) : bool :=
  bool_decide (map fold_least (runes s) = map fold_least (runes t)).

(** ** Addresses *)

(** [net.SplitHostPort] *)
Definition SplitHostPort (hostport : str) : option (str * str) :=
  let i := LastIndexByte hostport ":"%char in
  if (i <? 0)%Z then None
  else if HasPrefix hostport (lit "[") then
    let e := IndexByte hostport "]"%char in
    if (e <? 0)%Z || negb (e + 1 =? i)%Z then None
    else if ContainsByte (drop 1 hostport) "["%char || ContainsByte (slice_from hostport (e + 1)) "]"%char then None
    else Some (slice_to (drop 1 hostport) (e - 1), slice_from hostport (i + 1))
  else
    let host := slice_to hostport i in
    if ContainsByte host ":"%char || ContainsByte hostport "["%char || ContainsByte hostport "]"%char then None
    else Some (host, slice_from hostport (i + 1)).

(** [net.ParseIP]: a zone is not an IP address. *)
Definition ParseIP (s : str) : option netaddr :=
  match ParseAddr s with
  | Some (Addr6 g zone) => if zone =s [] then Some (Addr6 g []) else None
  | a => a
  end.

Definition fmt_x (n : N) : str :=
  let s := hex_fixed false 4 n in
  match drop_while (fun c => (b2n c =? 48)%N) s with [] => lit "0" | t => t end.

Definition zero_run (g : list N) : nat := length (take_while (fun x => (x =? 0)%N) g).

(** The first longest run of at least two zero groups: its start and length. *)
Fixpoint best_run (i : nat) (g : list N) : option (nat * nat) :=
  match g with
  | [] => None
  | _ :: t =>
      let l := zero_run g in
      match best_run (S i) t with
      | Some (j, m) => if (2 <=? l)%nat && (m <=? l)%nat then Some (i, l) else Some (j, m)
      | None => if (2 <=? l)%nat then Some (i, l) else None
      end
  end.

Definition fmt_v4 (a : list N) : str := Join (map (fun x => fmt_d (Z.of_N x)) a) (lit ".").
Definition fmt_v6 (g : list N) : str :=
  let groups l := Join (map fmt_x l) (lit ":") in
  match best_run 0 g with
  | Some (i, l) => groups (take i g) ++ lit "::" ++ groups (drop (i + l) g)
  | None => groups g
  end.

(** [net.IP.String]: addresses mapped from IPv4 print as IPv4. *)
Definition IPString (a : netaddr) : str :=
  match a with
  | Addr4 a => fmt_v4 a
  | Addr6 g _ => match v4_mapped g with Some a => fmt_v4 a | None => fmt_v6 g end
  end.

(** ** Limited bodies

    A decoder that reads through [http.MaxBytesReader] sees the first bytes of
    the body and then an error; it meets the error when it needs more input,
    and a number or a literal at the very end needs it. *)

Definition scalar (v : json) : bool := match v with JObj _ | JArr _ => false | _ => true end.

Definition Decode_limited (truncated : bool) (s : str) : result (json * str) :=
  match skip_ws s with
  | [] => inr (if truncated then ErrTooLarge else ErrEOF)
  | _ :: _ =>
      match parse_value (parse_fuel s) 0 s with
      | PVal v rest => if truncated && scalar v && (rest =s []) then inr ErrTooLarge else inl (v, rest)
      | PEnd => inr (if truncated then ErrTooLarge else ErrText "unexpected EOF")
      | PBad | PFuel => inr (ErrText "invalid character")
      end
  end.

Definition is_eof (e : goerror) : bool := match e with ErrEOF => true | _ => false end.

(** * json.Unmarshal and json.Marshal on structs, slices and maps

    The decoders of the source's types are put together from these; a struct is
    given by the function that assigns one field. *)

(** The text of one JSON value, with nothing but white space after it. *)
Definition Unmarshal (s : str) : result json :=
  match Decode s with
  | inl (v, rest) => if skip_ws rest =s [] then inl v else inr (ErrText "invalid character after top-level value")
  | inr ErrEOF => inr syntax_error
  | inr err => inr err
  end.

(** [json.Unmarshal] into the fields of a struct: a field without a match is
    ignored, null leaves a field as it is.  A key that is
    repeated assigns twice. *)
Definition set_string {S} (v : json) (s : S) (k : str -> S) : result S :=
  match v with JStr x => inl (k x) | JNull => inl s | _ => inr unmarshal_error end.
Definition set_int {S} (v : json) (s : S) (k : Z -> S) : result S :=
  match v with
  | JNum z => if (minInt64 <=? z)%Z && (z <=? maxInt64)%Z then inl (k z) else inr unmarshal_error
  | JNull => inl s
  | _ => inr unmarshal_error
  end.

Fixpoint set_fields {S} (set : str -> json -> S -> result S) (l : list (str * json)) (s : S) : result S :=
  match l with
  | [] => inl s
  | (key, v) :: t => let? s' := set key v s in set_fields set t s'
  end.

Definition unmarshal_struct {S} (set : str -> json -> S -> result S) (zero : S) (v : json) : result S :=
  match v with JObj l => set_fields set l zero | JNull => inl zero | _ => inr unmarshal_error end.

Fixpoint unmarshal_elems {S} (elem : json -> result S) (l : list json) : result (list S) :=
  match l with
  | [] => inl []
  | v :: t => let? x := elem v in let? xs := unmarshal_elems elem t in inl (x :: xs)
  end.

Definition unmarshal_slice {S} (elem : json -> result S) (v : json) : result (option (list S)) :=
  match v with
  | JArr l => let? xs := unmarshal_elems elem l in inl (Some xs)
  | JNull => inl None
  | _ => inr unmarshal_error
  end.

Definition unmarshal_string (v : json) : result str :=
  match v with JStr s => inl s | JNull => inl [] | _ => inr unmarshal_error end.

Definition set_bool {S} (v : json) (s : S) (k : bool -> S) : result S :=
  match v with JBool b => inl (k b) | JNull => inl s | _ => inr unmarshal_error end.

(** [json.Marshal]: [omitempty] drops empty strings and zeros. *)
Definition omit_string (key : string) (s : str) : list (str * json) := if s =s [] then [] else [(lit key, JStr s)].
Definition omit_int (key : string) (z : Z) : list (str * json) := if (z =? 0)%Z then [] else [(lit key, JNum z)].
Definition marshal_slice {S} (f : S -> json) (l : option (list S)) : json :=
  match l with Some l => JArr (map f l) | None => JNull end.

(** A map of strings: an object adds its entries to the map, null clears it. *)
Fixpoint set_map_fields (l : list (str * json)) (m : gmap str str) : result (gmap str str) :=
  match l with
  | [] => inl m
  | (key, v) :: t => let? s := unmarshal_string v in set_map_fields t (<[key := s]> m)
  end.
Definition unmarshal_map (v : json) (m : gmap str str) : result (gmap str str) :=
  match v with JObj l => set_map_fields l m | JNull => inl ∅ | _ => inr unmarshal_error end.

(** ** Facts *)

(** Decides the field names of a goal. *)
Ltac match_fields :=
  repeat match goal with |- context [field_match ?a ?b] =>
    let v := eval vm_compute in (field_match a b) in change (field_match a b) with v end; cbn iota.

Lemma set_fields_app {S} (set : str -> json -> S -> result S) a b s :
  set_fields set (a ++ b) s = let? s' := set_fields set a s in set_fields set b s'.
Proof.
  revert s. induction a as [|[k v] a IH]; intros s; [done|]. cbn [app set_fields].
  destruct (set k v s) as [s'|e]; [exact (IH s')|done].
Qed.
