(* ===== verification/GithubConnector.v ===== *)
(** * internal/githubhook and internal/githubconnector/connector.go

    The first part is hook.go: the payload of a push and its signature.  The second is
    connector.go: the configuration of a connector account, the normalization and the
    validation of its repositories, and the credentials it reports. *)

From S2P Require Import Prelude GoStrings GoRegexp GoJson GoCrypto GoHttp Db DbApplications.
From S2P Require Import StringUtil Effects.

(** ** The payload *)

Module PushRepository.
Record t := mk { FullName : str; HTMLURL : str; CloneURL : str; SSHURL : str }.
Definition zero : t := mk [] [] [] [].
End PushRepository.

(** The slices of file names: nil and empty are not told apart. *)
Module PushCommit.
Record t := mk { Added : list str; Modified : list str; Removed : list str }.
Definition zero : t := mk [] [] [].
End PushCommit.

Module PushPayload.
Record t := mk {
  Ref : str; After : str; Deleted : bool; Repository : PushRepository.t; PusherName : str; SenderLogin : str;
  Commits : list PushCommit.t }.
Definition zero : t := mk [] [] false PushRepository.zero [] [] [].
End PushPayload.

Definition set_repository_field (key : str) (v : json) (r : PushRepository.t) : result PushRepository.t :=
  let '(PushRepository.mk full html clone ssh) := r in
  let named n := field_match n key in
  if named (lit "full_name") then set_string v r (fun s => PushRepository.mk s html clone ssh)
  else if named (lit "html_url") then set_string v r (fun s => PushRepository.mk full s clone ssh)
  else if named (lit "clone_url") then set_string v r (fun s => PushRepository.mk full html s ssh)
  else if named (lit "ssh_url") then set_string v r (fun s => PushRepository.mk full html clone s)
  else inl r.

(** A struct with one string field. *)
Definition set_name_field (name key : str) (v : json) (s : str) : result str :=
  if field_match name key then set_string v s id else inl s.

Definition unmarshal_strings (v : json) : result (list str) := let? l := unmarshal_slice unmarshal_string v in inl (default [] l).

Definition set_commit_field (key : str) (v : json) (c : PushCommit.t) : result PushCommit.t :=
  let '(PushCommit.mk added modified removed) := c in
  let named n := field_match n key in
  if named (lit "added") then let? l := unmarshal_strings v in inl (PushCommit.mk l modified removed)
  else if named (lit "modified") then let? l := unmarshal_strings v in inl (PushCommit.mk added l removed)
  else if named (lit "removed") then let? l := unmarshal_strings v in inl (PushCommit.mk added modified l)
  else inl c.

Definition set_payload_field (key : str) (v : json) (p : PushPayload.t) : result PushPayload.t :=
  let '(PushPayload.mk ref after deleted repository pusher sender commits) := p in
  let named n := field_match n key in
  if named (lit "ref") then set_string v p (fun s => PushPayload.mk s after deleted repository pusher sender commits)
  else if named (lit "after") then set_string v p (fun s => PushPayload.mk ref s deleted repository pusher sender commits)
  else if named (lit "deleted") then set_bool v p (fun b => PushPayload.mk ref after b repository pusher sender commits)
  else if named (lit "repository") then
    let? r := unmarshal_struct set_repository_field repository v in
    inl (PushPayload.mk ref after deleted r pusher sender commits)
  else if named (lit "pusher") then
    let? s := unmarshal_struct (set_name_field (lit "name")) pusher v in
    inl (PushPayload.mk ref after deleted repository s sender commits)
  else if named (lit "sender") then
    let? s := unmarshal_struct (set_name_field (lit "login")) sender v in
    inl (PushPayload.mk ref after deleted repository pusher s commits)
  else if named (lit "commits") then
    let? l := unmarshal_slice (unmarshal_struct set_commit_field PushCommit.zero) v in
    inl (PushPayload.mk ref after deleted repository pusher sender (default [] l))
  else inl p.

Definition unmarshal_payload (body : str) : result PushPayload.t :=
  let? v := Unmarshal body in unmarshal_struct set_payload_field PushPayload.zero v.

(** ** Repositories and paths *)

Definition githubFullNamePattern : regex := RSeqs [RBol; full_name_body; REol].
Definition githubRemotePattern : regex := RSeqs [RBol; RAlt ssh_remote https_remote; REol].

Definition validGitHubFullName (value : str) : bool := MatchString githubFullNamePattern value.

(** The aliases so far are the keys of the set that was seen. *)
Definition appendGitHubAlias (aliases : list str) (value : str) : list str :=
  if negb (MatchString githubRemotePattern value) then aliases
  else if bool_decide (value ∈ aliases) then aliases else aliases ++ [value].

Definition repositoryAliases (payload : PushPayload.t) : list str :=
  let repository := PushPayload.Repository payload in
  let fullName := TrimSpace (PushRepository.FullName repository) in
  let aliases := if validGitHubFullName fullName
    then fold_left appendGitHubAlias [lit "git@github.com:" ++ fullName ++ lit ".git"; lit "https://github.com/" ++ fullName;
                                      lit "https://github.com/" ++ fullName ++ lit ".git"] []
    else [] in
  fold_left appendGitHubAlias
    [TrimSpace (PushRepository.SSHURL repository); TrimSpace (PushRepository.CloneURL repository);
     TrimSpace (PushRepository.HTMLURL repository)] aliases.

Definition add_path (paths : list str) (value : str) : list str :=
  let value := TrimSpace value in
  if (value =s []) || bool_decide (value ∈ paths) then paths else paths ++ [value].

Definition commit_paths (c : PushCommit.t) : list str := PushCommit.Added c ++ PushCommit.Modified c ++ PushCommit.Removed c.

Definition changedPaths (payload : PushPayload.t) : list str :=
  fold_left add_path (flat_map commit_paths (PushPayload.Commits payload)) [].

(** ** Pushes *)

Module Push.
Record t := mk {
  Branch : str; CommitSHA : str; Actor : str; Deleted : bool; Repositories : list str; ChangedPaths : list str }.
End Push.

Definition push_of (payload : PushPayload.t) : result Push.t :=
  let branch := TrimSpace (TrimPrefix (PushPayload.Ref payload) (lit "refs/heads/")) in
  if (branch =s []) || (branch =s PushPayload.Ref payload) then inr (ErrText "push ref must be a branch") else
  let repositories := repositoryAliases payload in
  if (length repositories =? 0)%nat then inr (ErrText "repository is required") else
  let actor := TrimSpace (PushPayload.SenderLogin payload) in
  let actor := if actor =s [] then TrimSpace (PushPayload.PusherName payload) else actor in
  inl (Push.mk branch (TrimSpace (PushPayload.After payload)) actor (PushPayload.Deleted payload) repositories
         (changedPaths payload)).

Definition ParsePush (body : str) : result Push.t := let? payload := unmarshal_payload body in push_of payload.

(** ** Signatures *)

Definition VerifySignature (secret body signature : str) : bool :=
  let secret := TrimSpace secret in
  let signature := TrimSpace signature in
  if (secret =s []) || (signature =s []) then false
  else
    let prefix := lit "sha256=" in
    if negb (HasPrefix signature prefix) then false
    else
      let expected := hmac_sha256 secret body in
      match hex_DecodeString (TrimPrefix signature prefix) with
      | None => false
      | Some actual => hmac_Equal actual expected
      end.

(** The example of GitHub's documentation of webhook signatures. *)
Example github_documentation_signature :
  VerifySignature (lit "It's a Secret to Everybody") (lit "Hello, World!")
    (lit "sha256=757107ea0eb2509fc211221cce984b8a37570b6d7586c22c46f4379c8b043e17") = true.
Proof. vm_compute. reflexivity. Qed.

(** * internal/githubconnector/connector.go: the configuration of the GitHub connector

    The repositories of a connector account: decoding, normalisation, validation
    and the credential inventory.  A nil slice and an empty one are not told apart:
    they are only ranged over and counted. *)

Module CredentialPermission.
Record t := mk { ResourceType : str; ResourceName : str; Permission : str; Source : str }.
End CredentialPermission.

Module CredentialUsage.
Record t := mk { UsedByType : str; UsedByName : str; UsageContext : str }.
Definition zero : t := mk [] [] [].
End CredentialUsage.

Module CredentialInventory.
Record t := mk {
  Name : str; Provider : str; ExternalRef : str; Kind : str; Status : str;
  Permissions : list CredentialPermission.t; Usages : list CredentialUsage.t }.
End CredentialInventory.

Module Repository.
Record t := mk {
  InstallationID : str; ApplicationID : str; ApplicationName : str; RepositoryID : str; Repository : str;
  Branch : str; WorkflowID : str; BuildContext : str; Dockerfile : str; ImageRef : str; BuildMatrix : str;
  Runner : str; PathFilters : list str; CredentialName : str; ExternalRef : str; CredentialType : str;
  Status : str; Permissions : list str; Usages : list CredentialUsage.t }.
Definition zero : t := mk [] [] [] [] [] [] [] [] [] [] [] [] [] [] [] [] [] [] [].
Definition set_InstallationID (r : t) (id : str) : t :=
  mk id (ApplicationID r) (ApplicationName r) (RepositoryID r) (Repository r) (Branch r) (WorkflowID r) (BuildContext r)
    (Dockerfile r) (ImageRef r) (BuildMatrix r) (Runner r) (PathFilters r) (CredentialName r) (ExternalRef r)
    (CredentialType r) (Status r) (Permissions r) (Usages r).
Definition set_Branch (r : t) (branch : str) : t :=
  mk (InstallationID r) (ApplicationID r) (ApplicationName r) (RepositoryID r) (Repository r) branch (WorkflowID r)
    (BuildContext r) (Dockerfile r) (ImageRef r) (BuildMatrix r) (Runner r) (PathFilters r) (CredentialName r)
    (ExternalRef r) (CredentialType r) (Status r) (Permissions r) (Usages r).
Definition set_PathFilters (r : t) (filters : list str) : t :=
  mk (InstallationID r) (ApplicationID r) (ApplicationName r) (RepositoryID r) (Repository r) (Branch r) (WorkflowID r)
    (BuildContext r) (Dockerfile r) (ImageRef r) (BuildMatrix r) (Runner r) filters (CredentialName r)
    (ExternalRef r) (CredentialType r) (Status r) (Permissions r) (Usages r).
End Repository.

Module Config.
Record t := mk { InstallationID : str; Repositories : list Repository.t }.
Definition zero : t := mk [] [].
End Config.

(** ** Decoding *)

Definition set_usage_field (key : str) (v : json) (u : CredentialUsage.t) : result CredentialUsage.t :=
  let '(CredentialUsage.mk type name context) := u in
  let named n := field_match n key in
  if named (lit "used_by_type") then set_string v u (fun s => CredentialUsage.mk s name context)
  else if named (lit "used_by_name") then set_string v u (fun s => CredentialUsage.mk type s context)
  else if named (lit "usage_context") then set_string v u (fun s => CredentialUsage.mk type name s)
  else inl u.

Definition set_connector_field (key : str) (v : json) (r : Repository.t) : result Repository.t :=
  let '(Repository.mk inst appid appname repoid repo branch workflow context dockerfile ref matrix runner filters
          cred external type status perms usages) := r in
  let named n := field_match n key in
  if named (lit "installation_id") then
    set_string v r (fun s => Repository.mk s appid appname repoid repo branch workflow context dockerfile ref matrix runner filters cred external type status perms usages)
  else if named (lit "application_id") then
    set_string v r (fun s => Repository.mk inst s appname repoid repo branch workflow context dockerfile ref matrix runner filters cred external type status perms usages)
  else if named (lit "application_name") then
    set_string v r (fun s => Repository.mk inst appid s repoid repo branch workflow context dockerfile ref matrix runner filters cred external type status perms usages)
  else if named (lit "repository_id") then
    set_string v r (fun s => Repository.mk inst appid appname s repo branch workflow context dockerfile ref matrix runner filters cred external type status perms usages)
  else if named (lit "repository") then
    set_string v r (fun s => Repository.mk inst appid appname repoid s branch workflow context dockerfile ref matrix runner filters cred external type status perms usages)
  else if named (lit "branch") then
    set_string v r (fun s => Repository.mk inst appid appname repoid repo s workflow context dockerfile ref matrix runner filters cred external type status perms usages)
  else if named (lit "workflow_id") then
    set_string v r (fun s => Repository.mk inst appid appname repoid repo branch s context dockerfile ref matrix runner filters cred external type status perms usages)
  else if named (lit "build_context") then
    set_string v r (fun s => Repository.mk inst appid appname repoid repo branch workflow s dockerfile ref matrix runner filters cred external type status perms usages)
  else if named (lit "dockerfile") then
    set_string v r (fun s => Repository.mk inst appid appname repoid repo branch workflow context s ref matrix runner filters cred external type status perms usages)
  else if named (lit "image_ref") then
    set_string v r (fun s => Repository.mk inst appid appname repoid repo branch workflow context dockerfile s matrix runner filters cred external type status perms usages)
  else if named (lit "build_matrix") then
    set_string v r (fun s => Repository.mk inst appid appname repoid repo branch workflow context dockerfile ref s runner filters cred external type status perms usages)
  else if named (lit "runner") then
    set_string v r (fun s => Repository.mk inst appid appname repoid repo branch workflow context dockerfile ref matrix s filters cred external type status perms usages)
  else if named (lit "path_filters") then
    let? l := unmarshal_strings v in inl (Repository.mk inst appid appname repoid repo branch workflow context dockerfile ref matrix runner l cred external type status perms usages)
  else if named (lit "credential_name") then
    set_string v r (fun s => Repository.mk inst appid appname repoid repo branch workflow context dockerfile ref matrix runner filters s external type status perms usages)
  else if named (lit "external_ref") then
    set_string v r (fun s => Repository.mk inst appid appname repoid repo branch workflow context dockerfile ref matrix runner filters cred s type status perms usages)
  else if named (lit "credential_type") then
    set_string v r (fun s => Repository.mk inst appid appname repoid repo branch workflow context dockerfile ref matrix runner filters cred external s status perms usages)
  else if named (lit "status") then
    set_string v r (fun s => Repository.mk inst appid appname repoid repo branch workflow context dockerfile ref matrix runner filters cred external type s perms usages)
  else if named (lit "permissions") then
    let? l := unmarshal_strings v in inl (Repository.mk inst appid appname repoid repo branch workflow context dockerfile ref matrix runner filters cred external type status l usages)
  else if named (lit "usages") then
    let? l := unmarshal_slice (unmarshal_struct set_usage_field CredentialUsage.zero) v in
    inl (Repository.mk inst appid appname repoid repo branch workflow context dockerfile ref matrix runner filters cred external type status perms (default [] l))
  else inl r.

Definition set_config_field (key : str) (v : json) (c : Config.t) : result Config.t :=
  let '(Config.mk id repositories) := c in
  let named n := field_match n key in
  if named (lit "installation_id") then set_string v c (fun s => Config.mk s repositories)
  else if named (lit "repositories") then
    let? l := unmarshal_slice (unmarshal_struct set_connector_field Repository.zero) v in inl (Config.mk id (default [] l))
  else inl c.

Definition unmarshal_config (raw : bytes) : result Config.t :=
  match raw with
  | None => inr syntax_error
  | Some v => unmarshal_struct set_config_field Config.zero v
  end.

(** ** Validation *)

Definition repositoryPattern : regex := RSeqs [RBol; full_name_body; REol].
(** [^[A-Za-z0-9][A-Za-z0-9._/-]{0,255}$] *)
Definition branchPattern : regex :=
  RSeqs [RBol; RClass is_alnum; RRep (fun r => is_alnum r || class (lit "._/-") r) 0 (Some 255%nat) true; REol].
Definition numericIDPattern : regex := RSeqs [RBol; RPlus is_digit; REol].
Definition hex_run (n : nat) : regex := RRep is_hex n (Some n) true.
Definition uuidPattern : regex :=
  RSeqs [RBol; hex_run 8; RLit false (lit "-"); hex_run 4; RLit false (lit "-"); hex_run 4; RLit false (lit "-");
         hex_run 4; RLit false (lit "-"); hex_run 12; REol].
(** [[:space:]] and [[:cntrl:]] are ASCII classes. *)
Definition space_or_control (r : rune) : bool := (r <=? 32)%N || (r =? 127)%N.
Definition imageRefPattern : regex :=
  RSeqs [RBol; RRep (fun r => negb (space_or_control r)) 1 (Some 512%nat) true; REol].

Definition DefaultBuildWorkflowID : str := lit "deploy-manager-build.yml".
Definition line_controls : str := byte 13 ++ newline ++ tabulator.

Definition validRepository (value : str) : bool := MatchString repositoryPattern value.
Definition validBranch (value : str) : bool :=
  MatchString branchPattern value && negb (Contains value (lit "..")) && negb (Contains value (lit "//")).
Definition validNumericID (value : str) : bool := MatchString numericIDPattern value.
Definition validUUID (value : str) : bool := MatchString uuidPattern value.
Definition validWorkflowID (value : str) : bool :=
  negb (value =s []) && negb (ContainsAny value (lit "/" ++ byte 92 ++ line_controls)).
Definition validBuildPath (value : str) : bool :=
  negb (value =s []) && negb (ContainsAny value line_controls) && negb (Contains value (lit "..")).
Definition validImageRef (value : str) : bool := MatchString imageRefPattern value.
Definition validBuildMatrix (value : str) : bool :=
  negb (value =s []) && (N.of_nat (length value) <=? 8192)%N && negb (ContainsAny value line_controls).
Definition validRunner (value : str) : bool := negb (value =s []) && negb (ContainsAny value line_controls).

(** The filters so far are the keys of the set that was seen. *)
Definition add_filter (filters : list str) (value : str) : list str :=
  let value := Trim (TrimSpace value) (lit "/") in
  if (value =s []) || bool_decide (value ∈ filters) then filters else filters ++ [value].
Definition normalizePathFilters (values : list str) : list str := fold_left add_filter values [].

Definition githubAppExternalRef (installationID repository : str) : str :=
  if negb (installationID =s []) then lit "github-app:" ++ installationID ++ lit ":" ++ repository
  else lit "github-app:" ++ repository.

Definition or_default (value fallback : str) : str := if value =s [] then fallback else value.

(** Trimmed, and with the defaults filled in. *)
Definition filled_repository (input : Repository.t) (status : str) : Repository.t :=
  let '(Repository.mk inst appid appname repoid repo branch workflow context dockerfile ref matrix runner filters
          cred external type _ perms usages) := input in
  let repo := TrimSpace repo in
  let inst := TrimSpace inst in
  Repository.mk inst (TrimSpace appid) (TrimSpace appname) (TrimSpace repoid) repo
    (or_default (TrimSpace branch) (lit "main")) (or_default (TrimSpace workflow) DefaultBuildWorkflowID)
    (or_default (TrimSpace context) (lit ".")) (or_default (TrimSpace dockerfile) (lit "Dockerfile"))
    (TrimSpace ref) (TrimSpace matrix) (TrimSpace runner) (normalizePathFilters filters)
    (or_default (TrimSpace cred) (repo ++ lit " GitHub App"))
    (or_default (TrimSpace external) (githubAppExternalRef inst repo))
    (or_default (TrimSpace type) (lit "github_app_installation")) status perms usages.

Definition checked_repository (r : Repository.t) : option goerror :=
  let fails (c : bool) (msg : string) (k : option goerror) := if c then Some (ErrText (lit msg)) else k in
  let set v := negb (v =s []) in
  fails ((Repository.Repository r =s []) || (Repository.CredentialName r =s []) || (Repository.ExternalRef r =s []))
    "repository is required" (
  fails (negb (validRepository (Repository.Repository r))) "repository must be owner/name" (
  fails (set (Repository.InstallationID r) && negb (validNumericID (Repository.InstallationID r)))
    "installation_id must be numeric" (
  fails (set (Repository.RepositoryID r) && negb (validNumericID (Repository.RepositoryID r)))
    "repository_id must be numeric" (
  fails (set (Repository.ApplicationID r) && negb (validUUID (Repository.ApplicationID r)))
    "application_id must be a uuid" (
  fails (negb (validBranch (Repository.Branch r))) "branch contains unsupported characters" (
  fails (negb (validWorkflowID (Repository.WorkflowID r))) "workflow_id must be a workflow file name or numeric id" (
  fails (negb (validBuildPath (Repository.BuildContext r))) "build_context contains unsupported characters" (
  fails (negb (validBuildPath (Repository.Dockerfile r))) "dockerfile contains unsupported characters" (
  fails (set (Repository.ImageRef r) && negb (validImageRef (Repository.ImageRef r)))
    "image_ref must not contain whitespace or control characters" (
  fails (set (Repository.BuildMatrix r) && negb (validBuildMatrix (Repository.BuildMatrix r)))
    "build_matrix must be a compact JSON string without control characters" (
  fails (set (Repository.Runner r) && negb (validRunner (Repository.Runner r))) "runner contains unsupported characters" (
  fails (existsb (fun f => negb (validBuildPath f)) (Repository.PathFilters r))
    "path_filters contains unsupported characters" None)))))))))))).

Definition normalizeRepository (input : Repository.t) : result Repository.t :=
  let '(status, ok) := NormalizeCredentialStatus (Repository.Status input) in
  if negb ok then inr (ErrText "credential status must be active, rotating, revoked, or unknown")
  else
    let output := filled_repository input status in
    match checked_repository output with Some err => inr err | None => inl output end.

(** The repositories take the installation of the connector when they have none. *)
Definition with_installation (id : str) (r : Repository.t) : Repository.t :=
  if Repository.InstallationID r =s [] then Repository.set_InstallationID r id else r.

Fixpoint normalize_all (id : str) (l : list Repository.t) : result (list Repository.t) :=
  match l with
  | [] => inl []
  | r :: t => let? n := normalizeRepository (with_installation id r) in let? rest := normalize_all id t in inl (n :: rest)
  end.

Definition ParseConfig (raw : bytes) : result Config.t :=
  let? cfg := wrap_err (lit "parse github connector config: ") (unmarshal_config raw) in
  let installationID := TrimSpace (Config.InstallationID cfg) in
  if negb (installationID =s []) && negb (validNumericID installationID) then inr (ErrText "installation_id must be numeric")
  else let? repositories := normalize_all installationID (Config.Repositories cfg) in
       inl (Config.mk installationID repositories).

Section Keys.
Context `{UnicodeTables}.

Definition repositoryKey (r : Repository.t) : str :=
  Join [ToLower (Repository.Repository r); Repository.Branch r; ToLower (Repository.ApplicationID r);
        ToLower (Repository.ApplicationName r); Join (Repository.PathFilters r) (lit ",")] (lit "#").

(** The first repository of every key. *)
Fixpoint unique_repositories (id : str) (l : list Repository.t) (seen : gset str) : result (list Repository.t) :=
  match l with
  | [] => inl []
  | r :: t =>
      let? n := normalizeRepository (with_installation id r) in
      if bool_decide (repositoryKey n ∈ seen) then unique_repositories id t seen
      else let? rest := unique_repositories id t ({[repositoryKey n]} ∪ seen) in inl (n :: rest)
  end.

Definition requires_repositories : goerror := ErrText "github connector config requires repositories".

Definition RepositoriesFromConfig (raw : bytes) : result (list Repository.t) :=
  let? cfg := ParseConfig raw in
  match Config.Repositories cfg with
  | [] => inr requires_repositories
  | l =>
      let? repositories := unique_repositories (Config.InstallationID cfg) l ∅ in
      match repositories with [] => inr requires_repositories | _ => inl repositories end
  end.

(** ** Credential inventory *)

Definition permission_of (repository permission : str) : option CredentialPermission.t :=
  let permission := TrimSpace permission in
  if permission =s [] then None
  else Some (CredentialPermission.mk (lit "repository") repository permission (lit "github")).

Definition usage_of (usage : CredentialUsage.t) : option CredentialUsage.t :=
  let '(CredentialUsage.mk type name context) := usage in
  let type := TrimSpace type in
  let name := TrimSpace name in
  let context := TrimSpace context in
  if (type =s []) || (name =s []) || (context =s []) then None else Some (CredentialUsage.mk type name context).

Definition toCredentialInventory (input : Repository.t) : CredentialInventory.t :=
  let usages := omap usage_of (Repository.Usages input) in
  CredentialInventory.mk (Repository.CredentialName input) (lit "github") (Repository.ExternalRef input)
    (Repository.CredentialType input) (Repository.Status input)
    (omap (permission_of (Repository.Repository input)) (Repository.Permissions input))
    (match usages with
     | [] => [CredentialUsage.mk (lit "repository") (Repository.Repository input)
                (lit "repository access for deployment builds")]
     | _ => usages
     end).

Definition SyncCredentials (config : bytes) : result (list CredentialInventory.t) :=
  let? repositories := RepositoriesFromConfig config in inl (map toCredentialInventory repositories).
End Keys.
