(* ===== verification/GithubApp.v ===== *)
(** * internal/githubconnector: the client of the GitHub API

    app_client.go and source_authenticator.go as programs over the calls they make:
    the clock, one HTTP exchange, and the connector account of the database.  A page
    loop makes at most [fuel] requests; [None] says that there is a further page.
    Timeouts and redirects belong to the exchange. *)

From S2P Require Import Prelude GoStrings GoStringsFacts GoRegexp GoJson GoJsonFacts GoNet GoCrypto.
From S2P Require Import GoHttp Db Effects GithubConnector StringUtil.

(** ** crypto/rsa

    [rsa.SignPKCS1v15] with SHA-256: the padded digest to the power of the private
    exponent.  The checks of the key's size and consistency are those of the parser. *)

Record PrivateKey := { Modulus : N; Exponent : N }.

Definition key_bytes (key : PrivateKey) : nat := N.to_nat ((N.size (Modulus key) + 7) / 8).

(** The digest info of SHA-256 in DER. *)
Definition sha256_prefix : str :=
  map ascii_of_N [48; 49; 48; 13; 6; 9; 96; 134; 72; 1; 101; 3; 4; 2; 1; 5; 0; 4; 32]%N.

Definition from_bytes (s : str) : N := fold_left (fun acc c => acc * 256 + b2n c)%N s 0%N.
Fixpoint to_bytes (n : nat) (x : N) : str :=
  match n with O => [] | S n => to_bytes n (x / 256) ++ [ascii_of_N (x mod 256)] end.

Fixpoint powmod (x : N) (e : positive) (m : N) : N :=
  match e with
  | xH => x mod m
  | xO e => powmod (x * x mod m) e m
  | xI e => x * powmod (x * x mod m) e m mod m
  end%N.
Definition power (x e m : N) : N := match e with N0 => 1 mod m | Npos e => powmod x e m end%N.

Definition message_too_long : goerror := ErrText "crypto/rsa: message too long for RSA key size".

Definition SignPKCS1v15 (key : PrivateKey) (hashed : str) : result str :=
  let k := key_bytes key in
  let t := sha256_prefix ++ hashed in
  if (k <? length t + 11)%nat then inr message_too_long
  else
    let em := [ascii_of_N 0; ascii_of_N 1] ++ repeat (ascii_of_N 255) (k - length t - 3) ++ [ascii_of_N 0] ++ t in
    inl (to_bytes k (power (from_bytes em) (Exponent key) (Modulus key))).

(** encoding/pem and crypto/x509: the key of a text. *)
Class PemKeys := { pem_rsa_key : str -> result PrivateKey }.

(** ** HTTP *)

Record GitHubRequest := {
  ReqMethod : str; ReqURL : str; ReqHeader : list (str * str); ReqBody : option str }.

(** [ResponseBody] is what reading at most 2^20 bytes of it gives. *)
Record GitHubResponse := { StatusCode : Z; Status : str; Link : str; ResponseBody : result str }.

Inductive githubE : Type -> Type :=
| CUnixNow : githubE Z                                                     (* time.Now().Unix() *)
| CDo (request : GitHubRequest) : githubE (result GitHubResponse)
| CAccount (id : pgUUID_t) : githubE (result ConnectorAccount.t).

Abbreviation G A := (prog githubE A).

Definition defaultGitHubAPIURL : str := lit "https://api.github.com".

Module AppClient.
Record t := mk { appID : str; privateKey : PrivateKey; baseURL : str }.
End AppClient.

Module AppRepository.
Record t := mk { ID : Z; FullName : str; DefaultBranch : str; CloneURL : str; HTMLURL : str }.
Definition zero : t := mk 0 [] [] [] [].
End AppRepository.

Module RepositoryContent.
Record t := mk { Name : str; Path : str; Type' : str }.
Definition zero : t := mk [] [] [].
End RepositoryContent.

Module RepositoryCommit.
Record t := mk { SHA : str; Message : str; AuthorName : str; AuthorLogin : str; AuthorAvatarURL : str; HTMLURL : str }.
Definition zero : t := mk [] [] [] [] [] [].
End RepositoryCommit.

Module repositoryFile.
Record t := mk { Type' : str; Encoding : str; Content : str }.
Definition zero : t := mk [] [] [].
End repositoryFile.

(** ** Decoding *)

Definition set_app_repository_field (key : str) (v : json) (r : AppRepository.t) : result AppRepository.t :=
  let '(AppRepository.mk id full branch clone html) := r in
  let named n := field_match n key in
  if named (lit "id") then set_int v r (fun z => AppRepository.mk z full branch clone html)
  else if named (lit "full_name") then set_string v r (fun s => AppRepository.mk id s branch clone html)
  else if named (lit "default_branch") then set_string v r (fun s => AppRepository.mk id full s clone html)
  else if named (lit "clone_url") then set_string v r (fun s => AppRepository.mk id full branch s html)
  else if named (lit "html_url") then set_string v r (fun s => AppRepository.mk id full branch clone s)
  else inl r.

(** The answer of the installation's repositories. *)
Definition decode_repositories (v : json) : result (list AppRepository.t) :=
  unmarshal_struct (fun key v l =>
    if field_match (lit "repositories") key
    then let? l := unmarshal_slice (unmarshal_struct set_app_repository_field AppRepository.zero) v in inl (default [] l)
    else inl l) [] v.

Definition set_content_field (key : str) (v : json) (c : RepositoryContent.t) : result RepositoryContent.t :=
  let '(RepositoryContent.mk name path type) := c in
  if field_match (lit "name") key then set_string v c (fun s => RepositoryContent.mk s path type)
  else if field_match (lit "path") key then set_string v c (fun s => RepositoryContent.mk name s type)
  else if field_match (lit "type") key then set_string v c (fun s => RepositoryContent.mk name path s)
  else inl c.
Definition decode_contents (v : json) : result (list RepositoryContent.t) :=
  let? l := unmarshal_slice (unmarshal_struct set_content_field RepositoryContent.zero) v in inl (default [] l).

Definition set_file_field (key : str) (v : json) (f : repositoryFile.t) : result repositoryFile.t :=
  let '(repositoryFile.mk type encoding content) := f in
  if field_match (lit "type") key then set_string v f (fun s => repositoryFile.mk s encoding content)
  else if field_match (lit "encoding") key then set_string v f (fun s => repositoryFile.mk type s content)
  else if field_match (lit "content") key then set_string v f (fun s => repositoryFile.mk type encoding s)
  else inl f.

(** A struct with one field that is a string. *)
Definition decode_one_string (name : string) (v : json) : result str :=
  unmarshal_struct (fun key v s => if field_match (lit name) key then set_string v s id else inl s) [] v.

Definition decode_branches (v : json) : result (list str) :=
  let? l := unmarshal_slice (decode_one_string "name") v in inl (List.filter (fun name => negb (name =s [])) (default [] l)).

(** A field that is a struct of its own: null leaves it as it is. *)
Definition set_struct {S T} (set : str -> json -> T -> result T) (get : S -> T) (put : T -> S) (v : json) (s : S) : result S :=
  let? t := unmarshal_struct set (get s) v in inl (put t).

(** The fields of the commit that are kept as they come; the texts are cut afterwards. *)
Definition set_commit_part (key : str) (v : json) (c : RepositoryCommit.t) : result RepositoryCommit.t :=
  let '(RepositoryCommit.mk sha message name login avatar html) := c in
  if field_match (lit "message") key then set_string v c (fun s => RepositoryCommit.mk sha s name login avatar html)
  else if field_match (lit "author") key then
    set_struct (fun key v s => if field_match (lit "name") key then set_string v s id else inl s)
      RepositoryCommit.AuthorName (fun s => RepositoryCommit.mk sha message s login avatar html) v c
  else inl c.
Definition set_commit_author (key : str) (v : json) (c : RepositoryCommit.t) : result RepositoryCommit.t :=
  let '(RepositoryCommit.mk sha message name login avatar html) := c in
  if field_match (lit "login") key then set_string v c (fun s => RepositoryCommit.mk sha message name s avatar html)
  else if field_match (lit "avatar_url") key then set_string v c (fun s => RepositoryCommit.mk sha message name login s html)
  else inl c.
Definition set_repository_commit_field (key : str) (v : json) (c : RepositoryCommit.t) : result RepositoryCommit.t :=
  let '(RepositoryCommit.mk sha message name login avatar html) := c in
  if field_match (lit "sha") key then set_string v c (fun s => RepositoryCommit.mk s message name login avatar html)
  else if field_match (lit "html_url") key then set_string v c (fun s => RepositoryCommit.mk sha message name login avatar s)
  else if field_match (lit "commit") key then set_struct set_commit_part id id v c
  else if field_match (lit "author") key then set_struct set_commit_author id id v c
  else inl c.

Section AppClient.
Context `{UnicodeTables} `{FoldTable} `{PemKeys}.

(** ** Construction *)

Definition parsePrivateKey (value : str) : result PrivateKey :=
  let value := TrimSpace (ReplaceAll value (lit "\n") newline) in
  if value =s [] then inr (ErrText "github app private key is required") else pem_rsa_key value.

Definition NewAppClient (appID privateKeyPEM : str) : result AppClient.t :=
  let appID := TrimSpace appID in
  if appID =s [] then inr (ErrText "github app id is required")
  else let? key := parsePrivateKey privateKeyPEM in inl (AppClient.mk appID key defaultGitHubAPIURL).

(** ** Requests and answers *)

Definition encodeSegment (value : json) : str := RawURLEncodeToString (json_Marshal value).

(** The claims hold from one minute ago until nine minutes from now. *)
Definition jwt (c : AppClient.t) (now : Z) : result str :=
  let header := JObj [(lit "alg", JStr (lit "RS256")); (lit "typ", JStr (lit "JWT"))] in
  let claims := JObj [(lit "exp", JNum (now + 540)); (lit "iat", JNum (now - 60)); (lit "iss", JStr (AppClient.appID c))] in
  let signingInput := encodeSegment header ++ lit "." ++ encodeSegment claims in
  let? signature := wrap_err (lit "sign github app jwt: ") (SignPKCS1v15 (AppClient.privateKey c) (sha256 signingInput)) in
  inl (signingInput ++ lit "." ++ RawURLEncodeToString signature).

(** From the zero value: a blank body leaves it. *)
Definition decodeGitHubResponse {A} (response : GitHubResponse) (zero : A) (decode : json -> result A) : result A :=
  let? body := ResponseBody response in
  if (StatusCode response <? 200)%Z || (300 <=? StatusCode response)%Z then
    let message := TrimSpace body in
    inr (ErrText (if message =s [] then lit "github api returned " ++ Status response
                  else lit "github api returned " ++ Status response ++ lit ": " ++ message))
  else if TrimSpace body =s [] then inl zero
  else wrap_err (lit "decode github api response: ") (let? v := Unmarshal body in decode v).

(** The address in angle brackets of a part with rel=next. *)
Definition next_link (part : str) : option str :=
  let part := TrimSpace part in
  if negb (Contains part (lit "rel=" ++ dquote ++ lit "next" ++ dquote)) then None
  else
    let start := IndexByte part "<"%char in
    let stop := IndexByte part ">"%char in
    if (start <? 0)%Z || (stop <=? start)%Z then None
    else
      let next := slice_from (slice_to part stop) (start + 1) in
      if HasPrefix next defaultGitHubAPIURL then Some (TrimPrefix next defaultGitHubAPIURL) else None.

Fixpoint first_next (parts : list str) : str :=
  match parts with [] => [] | part :: t => match next_link part with Some next => next | None => first_next t end end.
Definition nextGitHubPage (linkHeader : str) : str := first_next (SplitByte ","%char linkHeader).

Definition request_of (c : AppClient.t) (method path bearer : str) (body : option str) : GitHubRequest :=
  {| ReqMethod := method; ReqURL := AppClient.baseURL c ++ path;
     ReqHeader := (match body with Some _ => [(lit "Content-Type", lit "application/json")] | None => [] end)
                  ++ [(lit "Authorization", lit "Bearer " ++ bearer); (lit "Accept", lit "application/vnd.github+json");
                      (lit "X-GitHub-Api-Version", lit "2022-11-28")];
     ReqBody := body |}.

(** [http.NewRequest] and [Client.Do] *)
Definition send (request : GitHubRequest) : G (result GitHubResponse) :=
  match url_Parse (ReqURL request) with
  | None => Ret (inr (ErrText (lit "parse " ++ fmt_q (ReqURL request))))
  | Some _ => let! response := call (CDo request) in Ret (wrap_err (lit "call github api: ") response)
  end.

Definition postJSONBody {A} (c : AppClient.t) (path bearer : str) (body : option json) (zero : A) (decode : json -> result A) : G (result A) :=
  let!? response := send (request_of c (lit "POST") path bearer (json_Marshal <$> body)) in
  Ret (decodeGitHubResponse response zero decode).

Definition getJSON {A} (c : AppClient.t) (path token : str) (zero : A) (decode : json -> result A) : G (result (A * str)) :=
  let!? response := send (request_of c (lit "GET") path token None) in
  Ret (let? out := decodeGitHubResponse response zero decode in inl (out, nextGitHubPage (Link response))).

Definition createInstallationToken (c : AppClient.t) (installationID : str) (scope : option json) : G (result str) :=
  let! now := call CUnixNow in
  match jwt c now with
  | inr err => Ret (inr err)
  | inl jwt =>
      let!? token := postJSONBody c (lit "/app/installations/" ++ installationID ++ lit "/access_tokens") jwt scope
                       [] (decode_one_string "token") in
      Ret (if TrimSpace token =s [] then inr (ErrText "github installation token response was empty") else inl token)
  end.

Definition installationToken (c : AppClient.t) (installationID : str) : G (result str) :=
  createInstallationToken c installationID None.

Definition repository_scope (id : Z) : json :=
  JObj [(lit "repository_ids", JArr [JNum id]); (lit "permissions", JObj [(lit "contents", JStr (lit "read"))])].

Definition InstallationToken (c : AppClient.t) (installationID repositoryID : str) : G (result str) :=
  let installationID := TrimSpace installationID in
  if negb (validNumericID installationID) then Ret (inr (ErrText "installation_id must be numeric"))
  else
    let repositoryID := TrimSpace repositoryID in
    if negb (validNumericID repositoryID) then Ret (inr (ErrText "repository_id must be numeric"))
    else match ParseInt64 repositoryID with
    | None => Ret (inr (ErrText "repository_id must fit in an int64"))
    | Some id => createInstallationToken c installationID (Some (repository_scope id))
    end.

(** ** Pages *)

Fixpoint pages {A} (fuel : nat) (c : AppClient.t) (path token : str) (decode : json -> result (list A)) : G (option (result (list A))) :=
  if path =s [] then Ret (Some (inl []))
  else match fuel with
  | O => Ret None
  | S fuel =>
      let! page := getJSON c path token [] decode in
      match page with
      | inr err => Ret (Some (inr err))
      | inl (items, next) =>
          let! rest := pages fuel c next token decode in
          Ret (match rest with Some (inl more) => Some (inl (items ++ more)) | r => r end)
      end
  end.

(** A token of the installation, and then the pages. *)
Definition with_token {A} (c : AppClient.t) (installationID : str) (k : str -> G (option (result A))) : G (option (result A)) :=
  let! token := installationToken c installationID in
  match token with inr err => Ret (Some (inr err)) | inl token => k token end.

Definition bad_installation : goerror := ErrText "installation_id must be numeric".
Definition bad_repository : goerror := ErrText "repository must be owner/name".
Definition bad_ref : goerror := ErrText "ref contains unsupported characters".

Definition ListInstallationRepositories (fuel : nat) (c : AppClient.t) (installationID : str) : G (option (result (list AppRepository.t))) :=
  let installationID := TrimSpace installationID in
  if negb (validNumericID installationID) then Ret (Some (inr bad_installation))
  else with_token c installationID (fun token =>
    pages fuel c (lit "/installation/repositories?per_page=100") token decode_repositories).

(** The installation and the repository, trimmed and checked. *)
Definition checked_names (installationID repository : str) : result (str * str) :=
  let installationID := TrimSpace installationID in
  if negb (validNumericID installationID) then inr bad_installation
  else
    let repository := TrimSpace repository in
    if negb (validRepository repository) then inr bad_repository else inl (installationID, repository).

Definition ListRepositoryBranches (fuel : nat) (c : AppClient.t) (installationID repository : str) : G (option (result (list str))) :=
  match checked_names installationID repository with
  | inr err => Ret (Some (inr err))
  | inl (installationID, repository) => with_token c installationID (fun token =>
      pages fuel c (lit "/repos/" ++ repository ++ lit "/branches?per_page=100") token decode_branches)
  end.

(** ** Single requests *)

Definition workflow_name_ok (workflowID : str) : bool :=
  negb (workflowID =s []) && negb (ContainsAny workflowID (lit "/\" ++ line_controls)).

(** [json:"inputs,omitempty"]; the keys are sorted. *)
Definition dispatch_body (ref : str) (inputs : gmap str str) : json :=
  JObj ((lit "ref", JStr ref)
        :: (if bool_decide (inputs = ∅) then []
            else [(lit "inputs", json_map (map (fun p => (p.1, JStr p.2)) (map_to_list inputs)))])).

(** No target for the answer: only a blank one is accepted. *)
Definition no_target (v : json) : result unit := inr (ErrText "json: Unmarshal(nil)").

Definition DispatchWorkflow (c : AppClient.t) (installationID repository workflowID ref : str) (inputs : gmap str str) : G (result unit) :=
  match checked_names installationID repository with
  | inr err => Ret (inr err)
  | inl (installationID, repository) =>
      let workflowID := TrimSpace workflowID in
      if negb (workflow_name_ok workflowID) then Ret (inr (ErrText "workflow_id must be a workflow file name or numeric id"))
      else
        let ref := TrimSpace ref in
        if negb (validBranch ref) then Ret (inr bad_ref)
        else
          let!? token := installationToken c installationID in
          postJSONBody c (lit "/repos/" ++ repository ++ lit "/actions/workflows/" ++ PathEscape workflowID ++ lit "/dispatches")
            token (Some (dispatch_body ref inputs)) tt no_target
  end.

Definition bad_path_text (p : str) : bool := ContainsAny p line_controls || Contains p (lit "..").
Definition ref_query (ref : str) : str := if ref =s [] then [] else lit "?ref=" ++ QueryEscape ref.

Definition ListRepositoryContents (c : AppClient.t) (installationID repository dir ref : str) : G (result (list RepositoryContent.t)) :=
  match checked_names installationID repository with
  | inr err => Ret (inr err)
  | inl (installationID, repository) =>
      let dir := Trim (TrimSpace dir) (lit "/") in
      if bad_path_text dir then Ret (inr (ErrText "dir contains unsupported characters"))
      else
        let ref := TrimSpace ref in
        if negb (ref =s []) && negb (validBranch ref) then Ret (inr bad_ref)
        else
          let!? token := installationToken c installationID in
          let!? (contents, _) := getJSON c (lit "/repos/" ++ repository ++ lit "/contents"
                                            ++ (if dir =s [] then [] else lit "/" ++ PathEscape dir) ++ ref_query ref)
                                   token [] decode_contents in
          Ret (inl contents)
  end.

(** The text of a file that was sent in base 64. *)
Definition file_content (f : repositoryFile.t) : result str :=
  if negb (repositoryFile.Type' f =s lit "file") || negb (repositoryFile.Encoding f =s lit "base64")
  then inr (ErrText "github content response was not a base64 file")
  else wrap_err (lit "decode github file content: ") (StdDecodeString (ReplaceAll (repositoryFile.Content f) newline [])).

Definition GetRepositoryFile (c : AppClient.t) (installationID repository filePath ref : str) : G (result str) :=
  match checked_names installationID repository with
  | inr err => Ret (inr err)
  | inl (installationID, repository) =>
      let filePath := Trim (TrimSpace filePath) (lit "/") in
      if (filePath =s []) || bad_path_text filePath then Ret (inr (ErrText "file path contains unsupported characters"))
      else
        let ref := TrimSpace ref in
        if negb (ref =s []) && negb (validBranch ref) then Ret (inr bad_ref)
        else
          let!? token := installationToken c installationID in
          let!? (file, _) := getJSON c (lit "/repos/" ++ repository ++ lit "/contents/" ++ PathEscape filePath ++ ref_query ref)
                               token repositoryFile.zero (unmarshal_struct set_file_field repositoryFile.zero) in
          Ret (file_content file)
  end.

(** The first line of the message; names and addresses trimmed. *)
Definition commit_of_response (c : RepositoryCommit.t) : RepositoryCommit.t :=
  let '(RepositoryCommit.mk sha message name login avatar html) := c in
  let message := TrimSpace (CutByte (ascii_of_N 10) (ReplaceAll message [ascii_of_N 13; ascii_of_N 10] newline)).1 in
  RepositoryCommit.mk sha message (TrimSpace name) (TrimSpace login) (TrimSpace avatar) (TrimSpace html).

Definition GetRepositoryCommit (c : AppClient.t) (installationID repository ref : str) : G (result RepositoryCommit.t) :=
  match checked_names installationID repository with
  | inr err => Ret (inr err)
  | inl (installationID, repository) =>
      let ref := TrimSpace ref in
      if negb (validBranch ref) then Ret (inr bad_ref)
      else
        let!? token := installationToken c installationID in
        let!? (response, _) := getJSON c (lit "/repos/" ++ repository ++ lit "/commits/" ++ PathEscape ref) token
                                 RepositoryCommit.zero (unmarshal_struct set_repository_commit_field RepositoryCommit.zero) in
        Ret (inl (commit_of_response response))
  end.

(** ** source_authenticator.go *)

Definition httpsGitHubRepository (sourceURL : str) : option str :=
  match url_Parse (TrimSpace sourceURL) with
  | None => None
  | Some u =>
      if negb (Scheme u =s lit "https") || negb (EqualFold (Host u) (lit "github.com"))
         || (match User u with Some _ => true | None => false end) || negb (RawQuery u =s []) || negb (Fragment u =s [])
      then None
      else
        let repository := TrimSuffix (Trim (Path u) (lit "/")) (lit ".git") in
        if validRepository repository then Some repository else None
  end.

Definition basic_credentials (token : str) : str :=
  lit "Authorization: Basic " ++ StdEncodeToString (lit "x-access-token:" ++ token).

Definition configured_for (repository : str) (r : Repository.t) : bool :=
  EqualFold (Repository.Repository r) repository && negb (Repository.InstallationID r =s [])
  && negb (Repository.RepositoryID r =s []).

(** [app] is the client, when one is configured. *)
Definition AuthorizationHeader (app : option AppClient.t) (connectorID : pgUUID_t) (sourceURL : str) : G (result str) :=
  match httpsGitHubRepository sourceURL, app with
  | Some repository, Some c =>
      if negb (uuid_valid connectorID) then Ret (inl [])
      else
        let! account := call (CAccount connectorID) in
        match account with
        | inr err => Ret (inr (ErrWrap (lit "load github connector: ") err []))
        | inl account =>
            if negb (ConnectorAccount.Enabled account) || negb (EqualFold (ConnectorAccount.Provider account) (lit "github"))
            then Ret (inl [])
            else match ParseConfig (ConnectorAccount.Config account) with
            | inr err => Ret (inr (ErrWrap (lit "parse enabled github connector " ++ fmt_q (ConnectorAccount.Name account) ++ lit ": ") err []))
            | inl cfg =>
                match List.find (configured_for repository) (Config.Repositories cfg) with
                | None => Ret (inl [])
                | Some configured =>
                    let! token := InstallationToken c (Repository.InstallationID configured) (Repository.RepositoryID configured) in
                    Ret (match token with
                         | inr err => inr (ErrWrap (lit "create github installation token: ") err [])
                         | inl token => inl (basic_credentials token)
                         end)
                end
            end
        end
  | _, _ => Ret (inl [])
  end.
End AppClient.
