(* ===== verification/GithubAppFacts.v ===== *)
(** * The client of the GitHub API: pages and tokens

    A listing is the pages of the service, one after the other, and the loop ends
    when they do; a token for a source is asked for one repository, to read it. *)

From S2P Require Import Prelude GoStrings GoStringsFacts GoRegexp GoJson GoJsonFacts GoNet GoCrypto.
From S2P Require Import GoHttp Db Effects GithubConnector GithubApp StringUtil.

(** ** A service

    Its answers depend on the request only. *)

Record GitHubService := {
  sv_now : Z; sv_do : GitHubRequest -> result GitHubResponse; sv_account : pgUUID_t -> result ConnectorAccount.t }.

Definition service_handler (sv : GitHubService) : handler githubE unit := fun X e s =>
  (match e in githubE X return X with
   | CUnixNow => sv_now sv
   | CDo request => sv_do sv request
   | CAccount id => sv_account sv id
   end, s).

Definition answer {A} (sv : GitHubService) (p : G A) : A := (exec (service_handler sv) p tt).1.1.

Lemma answer_bind {A B} sv (p : G A) (f : A -> G B) : answer sv (pbind p f) = answer sv (f (answer sv p)).
Proof.
  unfold answer. rewrite exec_bind. destruct (exec _ p tt) as [[a tr] []]. cbn.
  by destruct (exec _ (f a) tt) as [[b tr2] []].
Qed.
Lemma answer_bind_ok {A B} sv (p : G (result A)) (f : A -> G (result B)) :
  answer sv (pbind_ok p f) = match answer sv p with inl a => answer sv (f a) | inr err => inr err end.
Proof. unfold pbind_ok. rewrite answer_bind. by destruct (answer sv p). Qed.

Section Pages.
Context `{UnicodeTables} (sv : GitHubService) (c : AppClient.t) (token : str).
Context {A : Type} (decode : json -> result (list A)).

(** The page that the service has at a path. *)
Definition page_at (path : str) : result (list A * str) := answer sv (getJSON c path token [] decode).

(** The pages from a path on, to the last. *)
Inductive serves : str -> list (list A) -> Prop :=
| serves_end : serves [] []
| serves_page path items next rest :
    path <> [] -> page_at path = inl (items, next) -> serves next rest -> serves path (items :: rest).

Lemma pages_step fuel path : path <> [] ->
  answer sv (pages (S fuel) c path token decode)
  = match page_at path with
    | inr err => Some (inr err)
    | inl (items, next) =>
        match answer sv (pages fuel c next token decode) with Some (inl more) => Some (inl (items ++ more)) | r => r end
    end.
Proof.
  intros Hp. cbn [pages]. rewrite (proj2 (str_eqb_neq _ _) Hp), answer_bind. fold (page_at path).
  destruct (page_at path) as [[items next]|err]; [|done]. rewrite answer_bind. by destruct (answer sv (pages _ _ _ _ _)) as [[]|].
Qed.

Lemma pages_end fuel : answer sv (pages fuel c [] token decode) = Some (inl []).
Proof. by destruct fuel. Qed.

Lemma pages_enough path ps : serves path ps -> forall fuel, (length ps <= fuel)%nat ->
  answer sv (pages fuel c path token decode) = Some (inl (concat ps)).
Proof.
  induction 1 as [|path items next rest Hp Hat Hs IH]; intros fuel Hf; [apply pages_end|].
  destruct fuel as [|fuel]; cbn in Hf; [lia|]. rewrite (pages_step _ _ Hp), Hat, IH by lia. done.
Qed.

Lemma pages_only path fuel l : answer sv (pages fuel c path token decode) = Some (inl l) ->
  exists ps, serves path ps /\ concat ps = l.
Proof.
  revert path l. induction fuel as [|fuel IH]; intros path l Hl.
  - destruct path; [|done]. injection Hl as <-. exists []. split; [constructor|done].
  - destruct (decide (path = [])) as [->|Hp].
    { rewrite pages_end in Hl. injection Hl as <-. exists []. split; [constructor|done]. }
    rewrite (pages_step _ _ Hp) in Hl. destruct (page_at path) as [[items next]|err] eqn:Hat; [|done].
    destruct (answer _ _) as [[more|]|] eqn:Er; [|done..]. injection Hl as <-.
    destruct (IH _ _ Er) as (ps & Hs & <-). exists (items :: ps). split; [by eapply serves_page|done].
Qed.
End Pages.


(** ** Tokens *)

(** The HTTP requests of a trace. *)
Fixpoint sent_requests (tr : list (event githubE)) : list GitHubRequest :=
  match tr with [] => [] | Ev (CDo request) _ :: t => request :: sent_requests t | _ :: t => sent_requests t end.

Lemma Unmarshal_marshal j : json_ok 0 j = true -> Unmarshal (json_Marshal j) = inl j.
Proof.
  intros Hj. unfold Unmarshal. pose proof (Decode_marshal j [] Hj eq_refl) as K. rewrite app_nil_r in K. by rewrite K.
Qed.

Section Tokens.
Context `{UnicodeTables} `{FoldTable}.

(** One request that asks for a token with [body]. *)
Definition asks_token (c : AppClient.t) (installationID : str) (body : option json) (r : GitHubRequest) : Prop :=
  ReqMethod r = lit "POST"
  /\ ReqURL r = AppClient.baseURL c ++ lit "/app/installations/" ++ installationID ++ lit "/access_tokens"
  /\ ReqBody r = json_Marshal <$> body.

Lemma createInstallationToken_runs c installationID scope tr token :
  runs (createInstallationToken c installationID scope) tr (inl token) ->
  TrimSpace token <> [] /\ exists r, sent_requests tr = [r] /\ asks_token c installationID scope r.
Proof.
  unfold createInstallationToken. cbn [pbind call runs]. intros (now & tr1 & -> & Hr).
  destruct (jwt c now) as [jwt|err]; [|by destruct Hr as [_ [=]]].
  apply runs_bind_ok in Hr as [(err & _ & [=])|(tr2 & t & tr3 & -> & Hp & [-> Ht])].
  destruct (TrimSpace t =s []) eqn:Et; [done|]. injection Ht as ->. apply str_eqb_neq in Et. split; [exact Et|].
  unfold postJSONBody in Hp. apply runs_bind_ok in Hp as [(err & _ & [=])|(tr3 & response & tr4 & -> & Hs & [-> _])].
  unfold send in Hs. destruct (url_Parse _); [|by destruct Hs as [_ [=]]].
  destruct Hs as (x & tr5 & -> & -> & _). eexists. split; [done|]. by repeat split.
Qed.

Lemma InstallationToken_runs c installationID repositoryID tr token :
  runs (InstallationToken c installationID repositoryID) tr (inl token) ->
  TrimSpace token <> [] /\ exists id r, ParseInt64 (TrimSpace repositoryID) = Some id /\ sent_requests tr = [r]
    /\ asks_token c (TrimSpace installationID) (Some (repository_scope id)) r.
Proof.
  unfold InstallationToken. destruct (negb _); [by intros [_ [=]]|]. destruct (negb _); [by intros [_ [=]]|].
  destruct (ParseInt64 _) as [id|]; [|by intros [_ [=]]]. intros Hr.
  apply createInstallationToken_runs in Hr as (Ht & r & Hs & Ha). split; [exact Ht|]. by exists id, r.
Qed.

End Tokens.

(** ** A service with two pages *)

Module AppDemo.
#[local] Existing Instance ascii_tables.
#[local] Instance demo_fold : FoldTable := {| fold_least := fold_rune |}.

Definition demo_key : PrivateKey := {| Modulus := N.pow 2 512 - 1; Exponent := 1 |}.
Definition client : AppClient.t := AppClient.mk (lit "42") demo_key defaultGitHubAPIURL.

Definition quoted (s : str) : str := dquote ++ s ++ dquote.
Definition ok_response (link : str) (body : json) : GitHubResponse :=
  {| StatusCode := 200; Status := lit "200 OK"; Link := link; ResponseBody := inl (json_Marshal body) |}.
Definition repository_json (id : Z) (name : str) : json := JObj [(lit "id", JNum id); (lit "full_name", JStr name)].
Definition repository_page (l : list json) : json := JObj [(lit "repositories", JArr l)].

Definition demo_do (r : GitHubRequest) : result GitHubResponse :=
  let path := TrimPrefix (ReqURL r) defaultGitHubAPIURL in
  if ReqMethod r =s lit "POST" then inl (ok_response [] (JObj [(lit "token", JStr (lit "ghs_secret"))]))
  else if path =s lit "/installation/repositories?per_page=100" then
    inl (ok_response (lit "<https://api.github.com/page2>; rel=" ++ quoted (lit "next"))
           (repository_page [repository_json 1 (lit "acme/api"); repository_json 2 (lit "acme/web")]))
  else inl (ok_response [] (repository_page [repository_json 3 (lit "acme/docs")])).

Definition demo_account : ConnectorAccount.t :=
  ConnectorAccount.mk (PgUUID (lit "c") true) (lit "GitHub") (lit "main") true
    (Some (JObj [(lit "installation_id", JStr (lit "7"));
                 (lit "repositories", JArr [JObj [(lit "repository", JStr (lit "acme/api")); (lit "repository_id", JStr (lit "1"));
                                                  (lit "branch", JStr (lit "main"))]])]))
    textNull textNull None None None.
Definition demo_service : GitHubService := {| sv_now := 1000000; sv_do := demo_do; sv_account _ := inl demo_account |}.

Definition first_page : list AppRepository.t :=
  [AppRepository.mk 1 (lit "acme/api") [] [] []; AppRepository.mk 2 (lit "acme/web") [] [] []].
Definition second_page : list AppRepository.t := [AppRepository.mk 3 (lit "acme/docs") [] [] []].


Definition source_run : result str * list (event githubE) * unit :=
  exec (service_handler demo_service) (AuthorizationHeader (Some client) (PgUUID (lit "c") true) (lit "https://github.com/Acme/api.git")) tt.

End AppDemo.
