(* ===== verification/Connectors.v ===== *)
(** * The connectors that report credentials

    internal/objectstorage, internal/notificationconnector and internal/doppler:
    what they make of the configuration of a connector account.  The doppler command
    is a call; its output is an argument here. *)

From Stdlib Require Import SpecFloat.
From S2P Require Import Prelude GoStrings GoStringsFacts GoRegexp GoJson GoFloat StringUtil Effects.
From S2P Require Import GoHttp GithubConnector.

(** ** JSON values of type any

    A Go map has one value for each key, the last one of the text; the order of the
    list stands for nothing. *)

Fixpoint last_wins {A} (l : list (str * A)) : list (str * A) :=
  match l with
  | [] => []
  | (k, v) :: t => if existsb (fun p => p.1 =s k) t then last_wins t else (k, v) :: last_wins t
  end.

Definition on_values (f : json -> result json) : list (str * json) -> result (list (str * json)) :=
  fix go l := match l with [] => inl [] | (k, v) :: t => let? v := f v in let? t := go t in inl ((k, v) :: t) end.
Definition on_items (f : json -> result json) : list json -> result (list json) :=
  fix go l := match l with [] => inl [] | v :: t => let? v := f v in let? t := go t in inl (v :: t) end.

(** [json.Unmarshal] into an any; a number that is no float64 is an error. *)
Fixpoint unmarshal_any (v : json) : result json :=
  match v with
  | JObj l => let? l := on_values unmarshal_any l in inl (JObj (last_wins l))
  | JArr l => let? l := on_items unmarshal_any l in inl (JArr l)
  | JNum _ | JReal _ => float_number v
  | _ => inl v
  end.

(** Into a [map[string]any]; the null leaves a nil map. *)
Definition unmarshal_any_map (raw : bytes) : result (option (list (str * json))) :=
  match raw with
  | None => inr syntax_error
  | Some (JObj l) => let? l := on_values unmarshal_any l in inl (Some (last_wins l))
  | Some JNull => inl None
  | Some _ => inr unmarshal_error
  end.

Definition unmarshal_bytes {A} (decode : json -> result A) (raw : bytes) : result A :=
  match raw with Some v => decode v | None => inr syntax_error end.

Definition bad_credential_status : goerror := ErrText "credential status must be active, rotating, revoked, or unknown".

Module BucketInventory.
Record t := mk {
  Provider : str; CredentialName : str; ExternalRef : str; CredentialType : str; Status : str; Bucket : str;
  Permissions : list str; Usages : list CredentialUsage.t }.
Definition zero : t := mk [] [] [] [] [] [] [] [].
End BucketInventory.

(** slackConfig and resendConfig in one: a provider reads its own fields. *)
Module NotificationConfig.
Record t := mk {
  CredentialName : str; CredentialRef : str; Status : str; Channels : list str; Domains : list str; Senders : list str;
  Applications : list str; Usages : list CredentialUsage.t }.
Definition zero : t := mk [] [] [] [] [] [] [] [].
End NotificationConfig.

Module SyncConfig.
Record t := mk { Project : str; Config : str; Applications : list str }.
Definition zero : t := mk [] [] [].
End SyncConfig.

Section Connectors.
Context `{UnicodeTables}.

(** ** internal/objectstorage *)

(** [strict]: unknown fields are refused, as the request bodies are read. *)
Definition other_field {S} (strict : bool) (key : str) (s : S) : result S :=
  if strict then inr (ErrText (lit "json: unknown field " ++ fmt_q key)) else inl s.

Definition decode_usage (strict : bool) (v : json) : result CredentialUsage.t :=
  unmarshal_struct (fun key v u =>
    if existsb (fun n => field_match n key) [lit "used_by_type"; lit "used_by_name"; lit "usage_context"]
    then set_usage_field key v u else other_field strict key u) CredentialUsage.zero v.

Definition set_bucket_field (strict : bool) (key : str) (v : json) (b : BucketInventory.t) : result BucketInventory.t :=
  let '(BucketInventory.mk provider name ref type status bucket permissions usages) := b in
  let named n := field_match n key in
  if named (lit "provider") then set_string v b (fun s => BucketInventory.mk s name ref type status bucket permissions usages)
  else if named (lit "credential_name") then set_string v b (fun s => BucketInventory.mk provider s ref type status bucket permissions usages)
  else if named (lit "external_ref") then set_string v b (fun s => BucketInventory.mk provider name s type status bucket permissions usages)
  else if named (lit "credential_type") then set_string v b (fun s => BucketInventory.mk provider name ref s status bucket permissions usages)
  else if named (lit "status") then set_string v b (fun s => BucketInventory.mk provider name ref type s bucket permissions usages)
  else if named (lit "bucket") then set_string v b (fun s => BucketInventory.mk provider name ref type status s permissions usages)
  else if named (lit "permissions") then let? l := unmarshal_strings v in
    inl (BucketInventory.mk provider name ref type status bucket l usages)
  else if named (lit "usages") then let? l := unmarshal_slice (decode_usage strict) v in
    inl (BucketInventory.mk provider name ref type status bucket permissions (default [] l))
  else other_field strict key b.

Definition decode_buckets (strict : bool) (v : json) : result (list BucketInventory.t) :=
  unmarshal_struct (fun key v l =>
    if field_match (lit "buckets") key
    then let? l := unmarshal_slice (unmarshal_struct (set_bucket_field strict) BucketInventory.zero) v in inl (default [] l)
    else other_field strict key l) [] v.

Definition normalizeProvider (provider : str) : str := ToLower (TrimSpace provider).

Definition bucketResourceName (provider bucket : str) : str :=
  if provider =s lit "gcs" then lit "gs://" ++ bucket else provider ++ lit "://" ++ bucket.

Definition bucket_permission (provider bucket permission : str) : option CredentialPermission.t :=
  let permission := TrimSpace permission in
  if permission =s [] then None
  else Some (CredentialPermission.mk (lit "bucket") (bucketResourceName provider bucket) permission provider).

Definition ToCredentialInventory (input : BucketInventory.t) : result CredentialInventory.t :=
  let '(BucketInventory.mk provider name ref type status bucket permissions usages) := input in
  let provider := normalizeProvider provider in
  let name := TrimSpace name in
  let ref := TrimSpace ref in
  let type := TrimSpace type in
  let bucket := TrimSpace bucket in
  let '(status, ok) := NormalizeCredentialStatus status in
  if negb ok then inr bad_credential_status
  else
    let type := or_default type (lit "service_account") in
    if negb (provider =s lit "s3") && negb (provider =s lit "gcs") then inr (ErrText "provider must be s3 or gcs")
    else if (name =s []) || (ref =s []) || (bucket =s [])
    then inr (ErrText "credential_name, external_ref, and bucket are required")
    else
      let usages := match omap usage_of usages with
        | [] => [CredentialUsage.mk (lit "bucket") (bucketResourceName provider bucket) (lit "object storage access")]
        | l => l end in
      inl (CredentialInventory.mk name provider ref type status (omap (bucket_permission provider bucket) permissions) usages).

(** The buckets of a connector; a bucket without a provider takes the connector's. *)
Definition own_bucket (provider : str) (b : BucketInventory.t) : BucketInventory.t :=
  let '(BucketInventory.mk p name ref type status bucket permissions usages) := b in
  BucketInventory.mk (if TrimSpace p =s [] then provider else p) name ref type status bucket permissions usages.

Fixpoint sync_buckets (provider : str) (buckets : list BucketInventory.t) : result (list CredentialInventory.t) :=
  match buckets with
  | [] => inl []
  | b :: t =>
      let b := own_bucket provider b in
      if negb (normalizeProvider (BucketInventory.Provider b) =s provider)
      then inr (ErrText (lit "bucket provider must match " ++ provider ++ lit " connector"))
      else let? item := ToCredentialInventory b in let? rest := sync_buckets provider t in inl (item :: rest)
  end.

Definition storage_SyncCredentials (provider : str) (config : bytes) : result (list CredentialInventory.t) :=
  if negb (provider =s lit "s3") && negb (provider =s lit "gcs") then inr (ErrText "provider must be s3 or gcs")
  else
    let? buckets := wrap_err (lit "parse object storage connector config: ") (unmarshal_bytes (decode_buckets false) config) in
    match buckets with
    | [] => inr (ErrText "object storage connector config requires buckets")
    | _ => sync_buckets provider buckets
    end.

(** ** internal/notificationconnector *)

Definition set_notification_field (slack : bool) (key : str) (v : json) (c : NotificationConfig.t) : result NotificationConfig.t :=
  let '(NotificationConfig.mk name ref status channels domains senders applications usages) := c in
  let named n := field_match n key in
  if named (lit "credential_name") then set_string v c (fun s => NotificationConfig.mk s ref status channels domains senders applications usages)
  else if named (lit "credential_ref") then set_string v c (fun s => NotificationConfig.mk name s status channels domains senders applications usages)
  else if named (lit "status") then set_string v c (fun s => NotificationConfig.mk name ref s channels domains senders applications usages)
  else if slack && named (lit "channels") then let? l := unmarshal_strings v in
    inl (NotificationConfig.mk name ref status l domains senders applications usages)
  else if negb slack && named (lit "domains") then let? l := unmarshal_strings v in
    inl (NotificationConfig.mk name ref status channels l senders applications usages)
  else if negb slack && named (lit "senders") then let? l := unmarshal_strings v in
    inl (NotificationConfig.mk name ref status channels domains l applications usages)
  else if named (lit "applications") then let? l := unmarshal_strings v in
    inl (NotificationConfig.mk name ref status channels domains senders l usages)
  else if named (lit "usages") then let? l := unmarshal_slice (decode_usage false) v in
    inl (NotificationConfig.mk name ref status channels domains senders applications (default [] l))
  else inl c.

Definition notificationUsages (explicit : list CredentialUsage.t) (applications : list str) (context : str) : list CredentialUsage.t :=
  let usages := omap usage_of explicit
                ++ map (fun application => CredentialUsage.mk (lit "application") application context) (UniqueTrimmed applications) in
  match usages with [] => [CredentialUsage.mk (lit "deployment") (lit "all") context] | _ => usages end.

Definition syncSlack (name : str) (config : bytes) : result (list CredentialInventory.t) :=
  let? cfg := wrap_err (lit "parse slack connector config: ")
    (unmarshal_bytes (unmarshal_struct (set_notification_field true) NotificationConfig.zero) config) in
  let '(status, ok) := NormalizeCredentialStatus (NotificationConfig.Status cfg) in
  if negb ok then inr bad_credential_status
  else match UniqueTrimmed (NotificationConfig.Channels cfg) with
  | [] => inr (ErrText "slack connector config requires channels")
  | channels =>
      inl [CredentialInventory.mk
             (FirstNonBlank [NotificationConfig.CredentialName cfg; TrimSpace name; lit "Slack deployment notifications"])
             (lit "slack") (FirstNonBlank [NotificationConfig.CredentialRef cfg; lit "env:SLACK_WEBHOOK_URL"])
             (lit "incoming_webhook") status
             (map (fun channel => CredentialPermission.mk (lit "slack_channel") channel (lit "chat:write") (lit "slack")) channels)
             (notificationUsages (NotificationConfig.Usages cfg) (NotificationConfig.Applications cfg)
                (lit "send Slack deployment notifications"))]
  end.

Definition syncResend (name : str) (config : bytes) : result (list CredentialInventory.t) :=
  let? cfg := wrap_err (lit "parse resend connector config: ")
    (unmarshal_bytes (unmarshal_struct (set_notification_field false) NotificationConfig.zero) config) in
  let '(status, ok) := NormalizeCredentialStatus (NotificationConfig.Status cfg) in
  if negb ok then inr bad_credential_status
  else match UniqueTrimmed (NotificationConfig.Domains cfg) ++ UniqueTrimmed (NotificationConfig.Senders cfg) with
  | [] => inr (ErrText "resend connector config requires domains or senders")
  | resources =>
      inl [CredentialInventory.mk
             (FirstNonBlank [NotificationConfig.CredentialName cfg; TrimSpace name; lit "Resend deployment notifications"])
             (lit "resend") (FirstNonBlank [NotificationConfig.CredentialRef cfg; lit "env:RESEND_API_KEY"])
             (lit "api_key") status
             (map (fun resource => CredentialPermission.mk (lit "email_sender") resource (lit "email:send") (lit "resend")) resources)
             (notificationUsages (NotificationConfig.Usages cfg) (NotificationConfig.Applications cfg)
                (lit "send email deployment notifications"))]
  end.

(** ** internal/doppler *)

Definition set_doppler_field (key : str) (v : json) (c : SyncConfig.t) : result SyncConfig.t :=
  let '(SyncConfig.mk project config applications) := c in
  if field_match (lit "project") key then set_string v c (fun s => SyncConfig.mk s config applications)
  else if field_match (lit "config") key then set_string v c (fun s => SyncConfig.mk project s applications)
  else if field_match (lit "applications") key then let? l := unmarshal_strings v in inl (SyncConfig.mk project config l)
  else inl c.

(** The project and the config of the server stand in for blank ones. *)
Definition syncConfig (project config : str) (raw : bytes) : result SyncConfig.t :=
  let? cfg := match raw with
    | None => inl SyncConfig.zero
    | Some v => wrap_err (lit "parse doppler connector config: ") (unmarshal_struct set_doppler_field SyncConfig.zero v)
    end in
  let project := FirstNonBlank [SyncConfig.Project cfg; project] in
  let config := FirstNonBlank [SyncConfig.Config cfg; config] in
  if (project =s []) || (config =s []) then inr (ErrText "doppler connector config requires project and config")
  else inl (SyncConfig.mk project config (UniqueTrimmed (SyncConfig.Applications cfg))).

Definition doppler_SyncCredentials (project config name : str) (raw : bytes) : result (list CredentialInventory.t) :=
  let? cfg := syncConfig project config raw in
  let resource := SyncConfig.Project cfg ++ lit "/" ++ SyncConfig.Config cfg in
  let usages := match SyncConfig.Applications cfg with
    | [] => [CredentialUsage.mk (lit "connector") (TrimSpace name) (lit "runtime variables available from Doppler " ++ resource)]
    | l => map (fun application => CredentialUsage.mk (lit "application") application
                                     (lit "sync runtime variables from Doppler " ++ resource)) l
    end in
  inl [CredentialInventory.mk (lit "Doppler " ++ resource ++ lit " runtime scope") (lit "doppler") (lit "doppler://" ++ resource)
         (lit "runtime_scope") (lit "active")
         [CredentialPermission.mk (lit "doppler_config") resource (lit "secrets:download") (lit "doppler")] usages].

Definition scalarString (v : json) : option str :=
  match v with
  | JStr s => Some s
  | JBool b => Some (if b then lit "true" else lit "false")
  | JNum _ | JReal _ => match float_of_number v with inl x => Some (sprint_float x) | inr _ => None end
  | _ => None
  end.

Definition hasPublicPrefix (key : str) : bool :=
  existsb (fun prefix => HasPrefix key prefix) [lit "NEXT_PUBLIC_"; lit "PUBLIC_"; lit "VITE_PUBLIC_"].
Definition isMetadataKey (key : str) : bool :=
  existsb (str_eqb key) [lit "DOPPLER_PROJECT"; lit "DOPPLER_CONFIG"; lit "DOPPLER_ENVIRONMENT"].

Definition secret_variable (p : str * json) : option RuntimeVariable :=
  let '(key, raw) := p in
  match scalarString raw with
  | Some value => if isMetadataKey key || negb (ValidRuntimeVariableKey key) then None
                  else Some {| Key := key; Value := value; IsPublic := hasPublicPrefix key |}
  | None => None
  end.

(** The output of the command as variables, in the order of their keys. *)
Definition variables_of_secrets (output : str) : result (list RuntimeVariable) :=
  let? v := Unmarshal output in
  let? values := unmarshal_any_map (Some v) in
  inl (merge_sort (by_key Key) (omap secret_variable (default [] values))).

Definition commandPath (command : str) : str := or_default (TrimSpace command) (lit "doppler").

(** The arguments of the command for a scope; none when no scope is configured. *)
Definition download_args (command project config : str) (scope : RuntimeVariableScope) : result (option (list str)) :=
  let project := or_default (TrimSpace (Project scope)) project in
  let config := or_default (TrimSpace (Config scope)) config in
  if (project =s []) && (config =s []) then inl None
  else if (project =s []) || (config =s []) then inr (ErrText "doppler project and config are required")
  else inl (Some [commandPath command; lit "secrets"; lit "download"; lit "--no-file"; lit "--format"; lit "json";
                  lit "--project"; project; lit "--config"; config]).

(** The names in a list of objects, sorted and without duplicates. *)
Definition listed_names (field what output : str) : result (list str) :=
  let? names := wrap_err (lit "parse Doppler " ++ what ++ lit ": ")
    (let? v := Unmarshal output in
     let? l := unmarshal_slice (unmarshal_struct (fun key v s =>
       if field_match field key then set_string v s (fun s => s) else inl s) []) v in
     inl (default [] l)) in
  inl (sort_Strings (UniqueTrimmed names)).

Definition projects_args (command : str) : list str := [commandPath command; lit "projects"; lit "--json"; lit "--no-check-version"].
Definition configs_args (command project : str) : list str :=
  [commandPath command; lit "configs"; lit "--json"; lit "--no-check-version"; lit "--project"; project].

(** ** The sources of the server (cmd/server/main.go)

    By the provider of the account; [project] and [config] are the settings of the server. *)
Definition connector_sources (project config provider : str) : option (str -> bytes -> result (list CredentialInventory.t)) :=
  if provider =s lit "github" then Some (fun _ => SyncCredentials)
  else if provider =s lit "doppler" then Some (doppler_SyncCredentials project config)
  else if provider =s lit "slack" then Some syncSlack
  else if provider =s lit "resend" then Some syncResend
  else if (provider =s lit "s3") || (provider =s lit "gcs") then Some (fun _ => storage_SyncCredentials provider)
  else None.
End Connectors.
