(* ===== verification/HttpCore.v ===== *)
(** * internal/httpapi: requests, responses, identifiers and the audit trail

    responses.go, ids.go, audit.go and the deployment queries of the handlers.
    A handler is a program over [apiE]: the queries it makes, the queue, and the
    response it writes.  The value of a response is the Go value that is handed
    to the JSON encoder; the process log is left out. *)

From S2P Require Import Prelude GoStrings GoStringsFacts GoRegexp GoJson GoNet StringUtil AuditLog.
From S2P Require Import Db DbHttp DbApplications DbServers DbInventory DbProjects RemoteSteps ProxyCommands.
From S2P Require Import Effects Runner GoHttp GithubConnector GithubApp.

(** ** Reading bodies (responses.go) *)

Definition maxJSONBodyBytes : nat := N.to_nat 2097152.

Definition isRequestBodyTooLarge (err : goerror) : bool :=
  (fix go (e : goerror) : bool :=
     match e with ErrTooLarge => true | ErrWrap _ c _ => go c | _ => false end) err.

Definition body_too_large : goerror := ErrValidation (lit "JSON request body must be 2 MiB or smaller").
Definition multiple_values : goerror :=
  ErrValidation (lit "invalid JSON request body: multiple JSON values are not allowed").

(** [decode] assigns the value to the target; it rejects unknown fields. *)
Definition readJSON {A} (decode : json -> result A) (body : str) : result A :=
  let limited := take maxJSONBodyBytes body in
  let truncated := (maxJSONBodyBytes <? length body)%nat in
  let first := let? (v, rest) := Decode_limited truncated limited in
               let? target := decode v in inl (target, rest) in
  match first with
  | inr err =>
      if isRequestBodyTooLarge err then inr body_too_large
      else inr (ErrValidation (lit "invalid JSON request body: " ++ Error err))
  | inl (target, rest) =>
      match Decode_limited truncated rest with
      | inr ErrEOF => inl target
      | inr err => if isRequestBodyTooLarge err then inr body_too_large else inr multiple_values
      | inl _ => inr multiple_values
      end
  end.

(** ** Writing responses *)

Definition StatusOK : Z := 200.
Definition StatusCreated : Z := 201.
Definition StatusAccepted : Z := 202.
Definition StatusNoContent : Z := 204.
Definition StatusMultiStatus : Z := 207.
Definition StatusBadRequest : Z := 400.
Definition StatusUnauthorized : Z := 401.
Definition StatusNotFound : Z := 404.
Definition StatusTooManyRequests : Z := 429.
Definition StatusInternalServerError : Z := 500.

Module AuditEventResponse.
Record t := mk {
  ID : Z; Actor : str; Action : str; TargetType : str; TargetID : str; TargetName : str;
  Metadata : str; CreatedAt : timestamptz }.
End AuditEventResponse.

Module RedeployResult.
Record t := mk {
  ApplicationID : str; ApplicationName : str; Status : str; Reason : str; DeploymentID : str }.
End RedeployResult.

Module RedeployResponse.
Record t := mk {
  State : str; Deployments : list Deployment.t; Results : list RedeployResult.t;
  Queued : Z; Skipped : Z; Failed : Z }.
End RedeployResponse.

(** The answer to a push: the applications that were skipped, with the reason. *)
Module PushResponse.
Record t := mk {
  Branch : str; CommitSHA : str; Matched : Z; Deployments : list Deployment.t; Builds : list BuildRun.t;
  Skipped : list (str * str) }.
End PushResponse.

Module projectRuntimeVariableInput.
Record t := mk { Key : str; Value : str }.
Definition zero : t := mk [] [].
#[global] Instance t_eq_dec : EqDecision t.
Proof. solve_decision. Defined.
End projectRuntimeVariableInput.

Module projectRuntimeVariablesResponse.
Record t := mk {
  Variables : list projectRuntimeVariableInput.t; ConfigurationRevision : Z; Changed : bool }.
End projectRuntimeVariablesResponse.

(** [None] is the nil slice. *)
Module ServiceConfigResponse.
Record t := mk {
  ComposeService : str; DopplerProject : str; DopplerConfig : str;
  Variables : option (list projectRuntimeVariableInput.t); ConfigurationRevision : Z; Changed : bool }.
Definition zero : t := mk [] [] [] None 0 false.
End ServiceConfigResponse.

(** The public form of a connector account: its configuration without secrets. *)
Module ConnectorResponse.
Record t := mk {
  ID : pgUUID_t; Provider : str; Name : str; Enabled : bool; HasConfig : bool; Config : list (str * json);
  LastSyncStatus : pgText; LastSyncMessage : pgText; LastSyncedAt : timestamptz; CreatedAt : timestamptz;
  UpdatedAt : timestamptz }.
End ConnectorResponse.

Inductive response_value :=
| VError (message : str)
| VBool (name : str) (b : bool)
| VDeployment (d : Deployment.t)
| VLogs (l : list DeploymentLog.t)
| VApplication (a : Application.t)
| VDeployments (l : list DeploymentListRow.t)
| VSlots (l : list Slot.t)
| VAuditEvents (l : list AuditEventResponse.t)
| VRedeploy (r : RedeployResponse.t)
| VBuilds (l : list BuildRun.t)
| VBuildDeployments (build : BuildRun.t) (deployments : option (list Deployment.t))
| VPush (r : PushResponse.t)
| VVariables (r : projectRuntimeVariablesResponse.t)
| VServiceConfig (c : ServiceConfigResponse.t)
| VServiceConfigs (l : list ServiceConfigResponse.t)
| VServer (s : Server.t)
| VServers (l : list Server.t)
| VDevUsers (users : list str)
| VCommand (output error : str)
| VRoute (r : ProxyRoute.t)
| VRoutes (l : list ProxyRouteListRow.t)
| VProject (p : ProjectRow.t)
| VProjects (l : list ProjectListRow.t)
| VRegistry (r : ContainerRegistry.t)
| VRegistries (l : list ContainerRegistry.t)
| VEnvironment (e : Environment.t)
| VEnvironments (l : list EnvironmentListRow.t)
| VApplications (l : list ApplicationListRow.t)
| VCredentials (l : list CredentialCounts.t)
| VCredentialDetail (credential : CredentialCounts.t) (permissions : list PermissionRow.t) (usages : list UsageRow.t)
| VInventory (credentials : list Credential.t)
| VConnector (c : ConnectorResponse.t)
| VConnectors (l : list ConnectorResponse.t)
| VConnectorSync (connector : ConnectorAccount.t) (count : Z)
| VStrings (l : list str)
| VServerCheck (server : Server.t) (docker : option (str * str * str)) (error docker_error : str)
| VBuild (build : BuildRun.t)
| VImport (applications : list Application.t) (connector : ConnectorResponse.t)
| VRepositorySync (connector : ConnectorResponse.t) (repositories : list json)
| VArray (items : list json)
| VObject (fields : list (str * json)).

(** ** Calls *)

(** How a terminal is started: its transport and the command line of the shell. *)
Inductive terminal_start :=
| LocalShell (command : str)
| TailscaleShell (destination command : str)
| SshShell (server : Server.t) (command : str).

(** What the handlers use beside the database and the remote hosts: the client of
    the GitHub API, the host of the server itself, files, and web sockets. *)
Inductive outsideE : Type -> Type :=
| CRepositories (installation : str) : outsideE (result (list AppRepository.t))
| CContents (installation repository dir ref : str) : outsideE (result (list RepositoryContent.t))
| CFile (installation repository path ref : str) : outsideE (result str)
| CBranches (installation repository : str) : outsideE (result (list str))
| CBranchCommit (installation repository ref : str) : outsideE (result RepositoryCommit.t)
| CTailscaleStatus : outsideE (result str)           (* tailscale status --json *)
| CGetenv (key : str) : outsideE str
| CReady (name : str) : outsideE (option goerror)    (* a readiness check *)
| CIsFile (path : str) : outsideE bool
| CServeFile (path : str) : outsideE unit
| CNotFoundPage : outsideE unit
| CRedirect (location : str) (status : Z) : outsideE unit
| CUpgrade (origin_ok : bool) : outsideE bool         (* to a web socket *)
| CTerminalStart (how : terminal_start) : outsideE (option goerror)
| CTerminalText (text : str) : outsideE unit          (* to the browser *)
| CTerminalMessage : outsideE (option str)            (* from the browser *)
| CTerminalInput (data : str) : outsideE unit
| CTerminalResize (rows cols : Z) : outsideE unit
| CTerminalClose : outsideE unit.

Inductive apiE `{SshLib} : Type -> Type :=
| QShared {X : Type} (e : runnerE X) : apiE X       (* the queries the runner has too *)
| QGetDeployment (id : pgUUID_t) : apiE (result Deployment.t)
| QCreateDeployment (arg : CreateDeploymentParams.t) : apiE (result Deployment.t)
| QCancelQueuedDeployment (id : pgUUID_t) : apiE (result Deployment.t)
| QListDeployments (limit : Z) : apiE (result (list DeploymentListRow.t))
| QGetApplication (id : pgUUID_t) : apiE (result Application.t)
| QListDeploymentSlotsForApplication (id : pgUUID_t) : apiE (result (list Slot.t))
| QListAuditEvents (limit : Z) : apiE (result (list AuditEvent.t))
| QListDeploymentLogsAfter (id : pgUUID_t) (lastLogID limit : Z) : apiE (result (list DeploymentLog.t))
| QListRecentDeploymentLogs (id : pgUUID_t) (limit : Z) : apiE (result (list DeploymentLog.t))
| QGetProject (id : pgUUID_t) : apiE (result ProjectRow.t)
| QGetServer (id : pgUUID_t) : apiE (result Server.t)
| QGetApplicationForUpdate (id : pgUUID_t) : apiE (result Application.t)
| QGetApplicationConfigurationRedeployCandidate (id : pgUUID_t) : apiE (result RedeployCandidate.t)
| QListProjectConfigurationRedeployCandidates (project : pgUUID_t) : apiE (result (list RedeployCandidate.t))
| QGetEnvironment (id : pgUUID_t) : apiE (result Environment.t)
| QCreateApplication (arg : CreateApplicationParams.t) : apiE (result Application.t)
| QUpdateApplication (arg : UpdateApplicationParams.t) : apiE (result Application.t)
| QListApplicationsForGitHubPush (branch : str) (urls : list str) : apiE (result (list Application.t))
| QGetApplicationDeletionState (id : pgUUID_t) : apiE (result DeletionState.t)
| QDeleteProxyRoute (id : pgUUID_t) : apiE (result unit)
| QDeleteApplication (id : pgUUID_t) : apiE (result unit)
| QCompleteBuildRun (arg : CompleteBuildRunParams.t) : apiE (result BuildRun.t)
| QGetBuildRun (id : pgUUID_t) : apiE (result BuildRun.t)
| QListBuildRuns (limit : Z) : apiE (result (list BuildRun.t))
| QCreateBuildRun (arg : CreateBuildRunParams.t) : apiE (result BuildRun.t)
| QListApplicationsForBuildComplete (branch repository : str) : apiE (result (list Application.t))
| QListConnectorAccounts : apiE (result (list ConnectorAccount.t))
| QGetProjectForUpdate (id : pgUUID_t) : apiE (result ProjectRow.t)
| QListProjectRuntimeVariables (project : pgUUID_t) : apiE (result (list ProjectVariable.t))
| QDeleteProjectRuntimeVariables (project : pgUUID_t) : apiE (result unit)
| QUpsertProjectRuntimeVariable (arg : UpsertProjectRuntimeVariableParams.t) : apiE (result ProjectVariable.t)
| QIncrementProjectConfigurationRevision (id : pgUUID_t) : apiE (result Z)
| QListServiceConfigs (application : pgUUID_t) : apiE (result (list ServiceConfig.t))
| QGetServiceConfig (application : pgUUID_t) (service : str) : apiE (result ServiceConfig.t)
| QDeleteServiceConfig (application : pgUUID_t) (service : str) : apiE (result unit)
| QUpsertServiceConfig (arg : UpsertConfigParams.t) : apiE (result ServiceConfig.t)
| QBumpApplicationConfigurationRevision (id : pgUUID_t) : apiE (result unit)
| QListServers : apiE (result (list Server.t))
| QCreateServerWithSSHInventory (arg : CreateServerParams.t) : apiE (result Server.t)
| QListServerDevSudoUsers (server : pgUUID_t) : apiE (result (list DevUser.t))
| QReplaceServerDevSudoUsers (server : pgUUID_t) (usernames : list str) : apiE (result unit)
| QListProxyRoutes : apiE (result (list ProxyRouteListRow.t))
| QGetProxyRouteTarget (id : pgUUID_t) : apiE (result RouteTarget.t)
| QCreateProxyRoute (arg : CreateProxyRouteParams.t) : apiE (result ProxyRoute.t)
| QMarkProxyRouteApplied (id : pgUUID_t) : apiE (result ProxyRoute.t)
| QListProjects : apiE (result (list ProjectListRow.t))
| QCreateProject (arg : CreateProjectParams.t) : apiE (result ProjectRow.t)
| QUpdateProject (arg : UpdateProjectParams.t) : apiE (result ProjectRow.t)
| QUpdateProjectRegistry (registry id : pgUUID_t) : apiE (result ProjectRow.t)
| QUpdateProjectRepository (arg : UpdateProjectRepositoryParams.t) : apiE (result ProjectRow.t)
| QDeleteProject (id : pgUUID_t) : apiE (result unit)
| QListEnvironments : apiE (result (list EnvironmentListRow.t))
| QCreateEnvironment (arg : CreateEnvironmentParams.t) : apiE (result Environment.t)
| QDeleteEnvironment (id : pgUUID_t) : apiE (result pgUUID_t)
| QListApplications : apiE (result (list ApplicationListRow.t))
| QUpdateComposeServices (services : bytes) (id : pgUUID_t) : apiE (result Application.t)
| QListContainerRegistries : apiE (result (list ContainerRegistry.t))
| QGetContainerRegistry (id : pgUUID_t) : apiE (result ContainerRegistry.t)
| QUpsertContainerRegistry (arg : UpsertContainerRegistryParams.t) : apiE (result ContainerRegistry.t)
| QGetConnectorAccount (id : pgUUID_t) : apiE (result ConnectorAccount.t)
| QUpsertConnectorAccount (arg : UpsertConnectorAccountParams.t) : apiE (result ConnectorAccount.t)
| QMarkConnectorSync (arg : MarkConnectorSyncParams.t) : apiE (result ConnectorAccount.t)
| QListCredentials : apiE (result (list CredentialCounts.t))
| QGetCredentialWithCounts (id : pgUUID_t) : apiE (result CredentialCounts.t)
| QListCredentialPermissions (credential : pgUUID_t) : apiE (result (list PermissionRow.t))
| QListCredentialUsages (credential : pgUUID_t) : apiE (result (list UsageRow.t))
| QUpsertCredential (arg : UpsertCredentialParams.t) : apiE (result Credential.t)
| QDeleteCredentialPermissions (credential : pgUUID_t) : apiE (result unit)
| QDeleteCredentialUsages (credential : pgUUID_t) : apiE (result unit)
| QUpsertCredentialPermission (arg : UpsertCredentialPermissionParams.t) : apiE (result PermissionRow.t)
| QUpsertCredentialUsage (arg : UpsertCredentialUsageParams.t) : apiE (result UsageRow.t)
| QUpdateServerHealth (arg : UpdateServerHealthParams.t) : apiE (result Server.t)
| COut {X : Type} (e : outsideE X) : apiE X
| CDoppler (args : list str) : apiE (result str)      (* the output of the doppler command *)
| CLookPath (command : str) : apiE (option goerror)
| CSeen (delivery : str) : apiE bool                (* the replay cache *)
| CDispatchWorkflow (installation repository workflow branch : str) (inputs : gmap str str) : apiE (option goerror)
| CBegin : apiE (option goerror)                    (* a transaction; queries run in it until it ends *)
| CCommit : apiE (option goerror)
| CRollback : apiE unit
| CRemote (server : Server.t) (command : str) : apiE (str * option goerror)
| CLocal (command : str) : apiE (str * option goerror)    (* on the host of the API server *)
| CEnqueue (d : Deployment.t) : apiE (option goerror)
| CSetHeader (name value : str) : apiE unit
| CSetCookie (cookie : SetCookie) : apiE unit
| CWriteHeader (status : Z) : apiE unit
| CWriteJSON (status : Z) (value : response_value) : apiE unit.

Abbreviation H A := (prog apiE A).

Section Core.
Context `{UnicodeTables} `{UuidLib} `{SshLib}.

Definition writeJSON (status : Z) (value : response_value) : H unit := call (CWriteJSON status value).

(** [errors.As] into a [validationError] or a [notFoundError]. *)
Fixpoint as_validation (e : goerror) : option str :=
  match e with ErrValidation m => Some m | ErrWrap _ c _ => as_validation c | _ => None end.
Fixpoint as_not_found (e : goerror) : option str :=
  match e with ErrNotFound m => Some m | ErrWrap _ c _ => as_not_found c | _ => None end.

Definition error_response (err : goerror) : Z * response_value :=
  if is_some (as_validation err) then (StatusBadRequest, VError (Error err))
  else if is_some (as_not_found err) then (StatusNotFound, VError (Error err))
  else if isRequestBodyTooLarge err then (StatusBadRequest, VError (Error err))
  else (StatusInternalServerError, VError (lit "internal server error")).

Definition writeError (err : goerror) : H unit :=
  let '(status, value) := error_response err in writeJSON status value.

(** ** Identifiers (ids.go) *)

Definition parseUUIDParam (r : Request) (name : str) : result pgUUID_t :=
  match PgUUID' (URLParam r name) with
  | inr _ => inr (ErrValidation (lit "invalid " ++ name))
  | inl id => inl id
  end.

Definition uuidString (id : pgUUID_t) : str := UUIDString id.

Definition blankTextAsNull (value : pgText) : pgText :=
  if TrimSpace (String' value) =s [] then textNull else value.

Definition blankStringAsText (value : str) : pgText :=
  let value := TrimSpace value in
  if value =s [] then textNull else someText value.

(** ** Audit trail (audit.go) *)

Definition defaultAuditEventLimit : Z := 100.
Definition maxAuditEventLimit : Z := 500.

Definition auditEventLimit (value : str) : result Z :=
  let value := TrimSpace value in
  if value =s [] then inl defaultAuditEventLimit
  else match ParseInt32 value with
       | None => inr (ErrValidation (lit "audit event limit must be a positive integer"))
       | Some limit =>
           if (limit <? 1)%Z then inr (ErrValidation (lit "audit event limit must be a positive integer"))
           else if (maxAuditEventLimit <? limit)%Z then inl maxAuditEventLimit else inl limit
       end.

Definition auditEventResponse (event : AuditEvent.t) : AuditEventResponse.t :=
  AuditEventResponse.mk (AuditEvent.ID event) (AuditEvent.Actor event) (AuditEvent.Action event)
    (AuditEvent.TargetType event) (AuditEvent.TargetID event) (AuditEvent.TargetName event)
    (AuditEvent.Metadata event) (AuditEvent.CreatedAt event).

Definition listAuditEvents (r : Request) : H unit :=
  match auditEventLimit (Query r (lit "limit")) with
  | inr err => writeError err
  | inl limit =>
      let! events := call (QListAuditEvents limit) in
      match events with
      | inr err => writeError err
      | inl events => writeJSON StatusOK (VAuditEvents (map auditEventResponse events))
      end
  end.

Definition auditIdentityField (value fallback : str) : str := IdentityField value fallback.
Definition normalizeAuditActor (value : str) : str := auditIdentityField value [].

Definition normalizeRemoteActor (remoteAddr : str) : str :=
  match SplitHostPort remoteAddr with
  | Some (host, _) => normalizeAuditActor host
  | None => normalizeAuditActor remoteAddr
  end.

Definition auditActor (r : Request) : str :=
  let value := normalizeAuditActor (Header r (lit "X-GitHub-Delivery")) in
  if negb (value =s []) then value
  else if negb (RemoteAddr r =s []) then normalizeRemoteActor (RemoteAddr r)
  else lit "system".

Definition audit (r : Request) (action targetType targetID targetName : str)
    (metadata : option (list (str * json))) : H unit :=
  let! _ := call (QShared (QAppendAuditEvent {|
    AppendAuditEventParams.Actor := auditActor r;
    AppendAuditEventParams.Action := auditIdentityField action (lit "unknown");
    AppendAuditEventParams.TargetType := auditIdentityField targetType (lit "unknown");
    AppendAuditEventParams.TargetID := auditIdentityField targetID (lit "unknown");
    AppendAuditEventParams.TargetName := auditIdentityField targetName (lit "unknown");
    AppendAuditEventParams.Metadata := Metadata metadata |})) in
  Ret tt.
End Core.

(** Server-sent events: the text that is written to the stream. *)
Definition writeSSEWithID (id event : str) (payload : json) : str :=
  (if negb (TrimSpace id =s []) then lit "id: " ++ id ++ newline else [])
  ++ lit "event: " ++ event ++ newline ++ lit "data: " ++ json_Marshal payload ++ newline ++ newline.

Definition writeSSE (event : str) (payload : json) : str := writeSSEWithID [] event payload.

Definition writeSSEComment (comment : str) : str :=
  let comment := TrimSpace (ReplaceAll comment newline (lit " ")) in
  let comment := if comment =s [] then lit "keepalive" else comment in
  lit ": " ++ comment ++ newline ++ newline.
