(* ===== verification/HttpGuard.v ===== *)
(** * internal/httpapi: who may call the API, and how often

    auth.go, security.go, rate_limit.go and replay_cache.go.  A middleware takes
    the handler it protects.  The rate limiter and the replay cache keep state
    under a mutex: one function from the state to the answer and the next state
    is one critical section. *)

From S2P Require Import Prelude GoStrings GoStringsFacts GoRegexp GoJson GoNet StringUtil AuditLog.
From S2P Require Import Db RemoteSteps ProxyCommands Effects Runner GoHttp HttpCore.

(** ** Authentication (auth.go) *)

Module AuthConfig.
Record t := mk { Token : str; Disabled : bool }.
End AuthConfig.

Definition sessionCookieName : str := lit "dm_session".

Section Auth.
Context `{UnicodeTables} `{FoldTable} `{SshLib}.

Definition validBearerToken (header expected : str) : bool :=
  let prefix := lit "Bearer " in
  if negb (HasPrefix header prefix) then false
  else
    let presented := TrimSpace (TrimPrefix header prefix) in
    if (length presented =? 0)%nat then false else presented =s expected.

Definition validSessionCookie (r : Request) (expected : str) : bool :=
  match Cookie r sessionCookieName with
  | None => false
  | Some value => if value =s [] then false else value =s expected
  end.

Definition sameHostOrigin (origin host : str) : bool :=
  let origin := TrimSpace (TrimPrefix (TrimPrefix origin (lit "http://")) (lit "https://")) in
  EqualFold origin host.

Definition safe_method (method : str) : bool :=
  (method =s lit "GET") || (method =s lit "HEAD") || (method =s lit "OPTIONS").

Definition validSessionRequest (r : Request) (expected : str) : bool :=
  if negb (validSessionCookie r expected) then false
  else if safe_method (Method r) then true
  else
    let origin := TrimSpace (Header r (lit "Origin")) in
    HasPrefix (ToLower origin) (lit "https://") && sameHostOrigin origin (Host' r).

Definition requireAuth (token : str) (next : Request -> H unit) (r : Request) : H unit :=
  if negb (validBearerToken (Header r (lit "Authorization")) token) && negb (validSessionRequest r token) then
    let! _ := call (CSetHeader (lit "WWW-Authenticate") (lit "Bearer")) in
    writeJSON StatusUnauthorized (VError (lit "unauthorized"))
  else next r.

Definition sessionCookie (r : Request) (auth : AuthConfig.t) (value : str) (maxAge : Z) : SetCookie := {|
  CookieName := sessionCookieName; CookieValue := value; CookiePath := lit "/"; MaxAge := maxAge;
  HttpOnly := true; Secure := negb (AuthConfig.Disabled auth) || TLS r |}.

Definition decode_login (body : str) : result str :=
  let? (v, _) := Decode body in
  let? fields := decode_struct [lit "token"] v in
  inl (field fields 0).

Definition login (auth : AuthConfig.t) (r : Request) : H unit :=
  match decode_login (Body r) with
  | inr _ => writeJSON StatusBadRequest (VError (lit "invalid request body"))
  | inl token =>
      if negb (AuthConfig.Disabled auth) && negb (token =s AuthConfig.Token auth)
      then writeJSON StatusUnauthorized (VError (lit "invalid token"))
      else
        let! _ := call (CSetCookie (sessionCookie r auth (AuthConfig.Token auth) (30 * 24 * 60 * 60))) in
        call (CWriteHeader StatusNoContent)
  end.

Definition logout (auth : AuthConfig.t) (r : Request) : H unit :=
  let! _ := call (CSetCookie (sessionCookie r auth [] (-1))) in
  call (CWriteHeader StatusNoContent).

Definition session (auth : AuthConfig.t) (r : Request) : H unit :=
  let authenticated := AuthConfig.Disabled auth
    || validBearerToken (Header r (lit "Authorization")) (AuthConfig.Token auth)
    || validSessionCookie r (AuthConfig.Token auth) in
  writeJSON StatusOK (VBool (lit "authenticated") authenticated).

Definition securityHeaders (next : Request -> H unit) (r : Request) : H unit :=
  let! _ := call (CSetHeader (lit "X-Content-Type-Options") (lit "nosniff")) in
  let! _ := call (CSetHeader (lit "Referrer-Policy") (lit "no-referrer")) in
  let! _ := call (CSetHeader (lit "X-Frame-Options") (lit "DENY")) in
  let! _ := call (CSetHeader (lit "Content-Security-Policy") (lit "frame-ancestors 'none'")) in
  next r.
End Auth.

(** ** Rate limit (rate_limit.go) *)

(** Times are nanoseconds after the zero [time.Time]. *)
Record rateWindow := { start : Z; count : Z }.
Definition zeroWindow : rateWindow := {| start := 0; count := 0 |}.

(** [time.Time.Sub] saturates. *)
Definition Sub (a b : Z) : Z := Z.max minInt64 (Z.min maxInt64 (a - b)).

(** The entry of one client: whether the request is allowed, and the new entry. *)
Definition rate_entry (maxRequests window : Z) (current : rateWindow) (now : Z) : bool * rateWindow :=
  let current := if (window <=? Sub now (start current))%Z then {| start := now; count := 0 |} else current in
  let current := {| start := start current; count := wrap64 (count current + 1) |} in
  ((count current <=? maxRequests)%Z, current).

(** The critical section for one request. *)
Definition rate_step (maxRequests window : Z) (key : str) (now : Z) (clients : gmap str rateWindow)
    : bool * gmap str rateWindow :=
  let '(allowed, current) := rate_entry maxRequests window (default zeroWindow (clients !! key)) now in
  (allowed, <[key := current]> clients).

Definition clientKey (r : Request) : str :=
  match ParseIP (RemoteAddr r) with
  | Some ip => IPString ip
  | None => match SplitHostPort (RemoteAddr r) with
            | Some (host, _) => host
            | None => RemoteAddr r
            end
  end.

Section RateLimit.
Context `{SshLib}.

Definition rateLimit (maxRequests window : Z) (next : Request -> H unit) (r : Request) (now : Z)
    (clients : gmap str rateWindow) : H unit * gmap str rateWindow :=
  let '(allowed, clients) := rate_step maxRequests window (clientKey r) now clients in
  (if negb allowed then writeJSON StatusTooManyRequests (VError (lit "rate limit exceeded")) else next r,
   clients).
End RateLimit.

(** ** Replay cache (replay_cache.go) *)

Record replayCache := { limit : Z; seen : gset str; order : list str }.

Definition newReplayCache (limit : Z) : replayCache :=
  {| limit := if (limit <? 1)%Z then 1 else limit; seen := ∅; order := [] |}.

Definition Seen (value : str) (c : replayCache) : bool * replayCache :=
  let value := TrimSpace value in
  if value =s [] then (false, c)
  else if bool_decide (value ∈ seen c) then (true, c)
  else
    let seen' := {[value]} ∪ seen c in
    let order' := order c ++ [value] in
    if (limit c <? Z.of_nat (length order'))%Z then
      match order' with
      | oldest :: rest => (false, {| limit := limit c; seen := seen' ∖ {[oldest]}; order := rest |})
      | [] => (false, {| limit := limit c; seen := seen'; order := order' |})
      end
    else (false, {| limit := limit c; seen := seen'; order := order' |}).
