(* ===== verification/HttpDeployments.v ===== *)
(** * internal/httpapi/deployments.go: creating, cancelling, retrying and rolling back

    The handlers, the validation of their input and the audit records they
    leave; [validateHealthCheckURL] and [applicationLookupError] of
    applications.go are here because deployments depend on them. *)

From S2P Require Import Prelude GoStrings GoStringsFacts GoRegexp GoJson GoNet StringUtil AuditLog.
From S2P Require Import Db RemoteSteps ProxyCommands Effects Runner GoHttp HttpCore.

Definition defaultDeploymentHistoryLimit : Z := 100.
Definition maxDeploymentHistoryLimit : Z := 500.
Definition deploymentInProgressMessage : str := lit "application already has a queued or running deployment".

Definition hex_lower (r : rune) : bool := is_digit r || in_range 97 102 r.

(** [^sha256:[0-9a-f]{64}$] *)
Definition imageDigestPattern : regex :=
  RSeqs [RBol; RLit false (lit "sha256:"); RRep hex_lower 64 (Some 64%nat) true; REol].

(** [^[A-Za-z0-9][A-Za-z0-9._:/@-]{0,511}$] *)
Definition imageRefPattern : regex :=
  RSeqs [RBol; RClass is_alnum;
         RRep (fun r => is_alnum r || class (lit "._:/@-") r) 0 (Some (N.to_nat 511)) true; REol].

(** The types of pgtype bring their own JSON form. *)
Class PgJson := {
  text_UnmarshalJSON : json -> result pgText;
  uuid_UnmarshalJSON : json -> result pgUUID_t;
  int4_UnmarshalJSON : json -> result (option Z);
  timestamptz_UnmarshalJSON : json -> result timestamptz }.

Module Params := CreateDeploymentParams.

Section Deployments.
Context `{UnicodeTables} `{UuidLib} `{SshLib} `{PgJson}.

(** ** Decoding the input *)

Definition zeroParams : Params.t :=
  Params.mk [] [] textNull textNull textNull textNull (PgUUID [] false).

Definition set_params_field (key : str) (v : json) (p : Params.t) : result Params.t :=
  let '(Params.mk trigger strategy sha ref digest actor app) := p in
  let named n := field_match n key in
  let text (k : str -> Params.t) := match v with JStr s => inl (k s) | JNull => inl p | _ => inr unmarshal_error end in
  let pg (k : pgText -> Params.t) := let? t := text_UnmarshalJSON v in inl (k t) in
  if named (lit "trigger") then text (fun s => Params.mk s strategy sha ref digest actor app)
  else if named (lit "strategy") then text (fun s => Params.mk trigger s sha ref digest actor app)
  else if named (lit "commit_sha") then pg (fun t => Params.mk trigger strategy t ref digest actor app)
  else if named (lit "image_ref") then pg (fun t => Params.mk trigger strategy sha t digest actor app)
  else if named (lit "image_digest") then pg (fun t => Params.mk trigger strategy sha ref t actor app)
  else if named (lit "actor") then pg (fun t => Params.mk trigger strategy sha ref digest t app)
  else if named (lit "application_id") then
    let? u := uuid_UnmarshalJSON v in inl (Params.mk trigger strategy sha ref digest actor u)
  else inr (ErrText (lit "json: unknown field " ++ fmt_q key)).

Fixpoint set_params_fields (l : list (str * json)) (p : Params.t) : result Params.t :=
  match l with
  | [] => inl p
  | (key, v) :: t => let? p' := set_params_field key v p in set_params_fields t p'
  end.

Definition decode_CreateDeploymentParams (v : json) : result Params.t :=
  match v with
  | JObj fields => set_params_fields fields zeroParams
  | JNull => inl zeroParams
  | _ => inr unmarshal_error
  end.

(** ** Validation *)

Definition deploymentHistoryLimit (value : str) : result Z :=
  let value := TrimSpace value in
  if value =s [] then inl defaultDeploymentHistoryLimit
  else match ParseInt32 value with
       | None => inr (ErrValidation (lit "deployment history limit must be a positive integer"))
       | Some limit =>
           if (limit <? 1)%Z then inr (ErrValidation (lit "deployment history limit must be a positive integer"))
           else if (maxDeploymentHistoryLimit <? limit)%Z then inl maxDeploymentHistoryLimit else inl limit
       end.

Definition createDeploymentError (err : goerror) : goerror :=
  if is_no_rows err then ErrNotFound (lit "application not found")
  else
    let pg := (fix go (e : goerror) : bool :=
      match e with
      | ErrPg code constraint _ => (code =s lit "23505") && (constraint =s lit "deployments_one_in_progress_per_application")
      | ErrWrap _ c _ => go c
      | _ => false
      end) err in
    if pg then ErrValidation deploymentInProgressMessage else err.

Definition isDeploymentInProgressError (err : goerror) : bool :=
  match as_validation err with Some m => m =s deploymentInProgressMessage | None => false end.

Definition validDeploymentTrigger (trigger : str) : bool :=
  existsb (str_eqb trigger) [lit "manual"; lit "github_push"; lit "connector_sync"; lit "retry"; lit "rollback"].

Definition validImageRef (value : str) : bool :=
  let value := TrimSpace value in
  if (value =s []) || (512 <? length value)%nat then false else MatchString imageRefPattern value.

Definition validDeploymentStrategy (strategy : str) : bool := strategy =s lit "blue_green".

Definition trimmed_text (t : pgText) : pgText := PgText (TrimSpace (String' t)) (Valid t).

Definition normalizeCreateDeployment (input : Params.t) : result Params.t :=
  let '(Params.mk trigger strategy sha ref digest actor app) := input in
  let trigger := TrimSpace trigger in
  let strategy := TrimSpace strategy in
  let sha := trimmed_text sha in
  let actor := trimmed_text actor in
  if negb (uuid_valid app) then inr (ErrValidation (lit "application_id is required")) else
  let trigger := if trigger =s [] then lit "manual" else trigger in
  if negb (validDeploymentTrigger trigger)
  then inr (ErrValidation (lit "deployment trigger must be manual, github_push, connector_sync, retry, or rollback")) else
  let strategy := if strategy =s [] then lit "blue_green" else strategy in
  if negb (validDeploymentStrategy strategy)
  then inr (ErrValidation (lit "deployment strategy must be blue_green")) else
  let sha := blankTextAsNull sha in
  if Valid sha && negb (ValidCommitSHA (String' sha))
  then inr (ErrValidation (lit "commit_sha must be a 7 to 40 character hexadecimal SHA")) else
  let ref := blankTextAsNull ref in
  if Valid ref && negb (validImageRef (String' ref))
  then inr (ErrValidation (lit "image_ref must be a non-empty image reference without whitespace or control characters")) else
  let digest := blankTextAsNull digest in
  if Valid digest && negb (MatchString imageDigestPattern (String' digest))
  then inr (ErrValidation (lit "image_digest must be a sha256 digest")) else
  let actor := blankTextAsNull actor in
  if Valid actor && ContainsAny (String' actor) (byte 13 ++ newline ++ tabulator)
  then inr (ErrValidation (lit "actor cannot contain control characters")) else
  inl (Params.mk trigger strategy sha ref digest actor app).

Definition validateHealthCheckURL (value : str) : option goerror :=
  if ContainsAny value (byte 13 ++ newline ++ tabulator)
  then Some (ErrValidation (lit "health_check_url cannot contain control characters"))
  else
    let value := ReplaceAll value (lit "{color}") (lit "blue") in
    let value := ReplaceAll value (lit "{port}") (lit "3101") in
    match url_Parse value with
    | None => Some (ErrText (lit "parse " ++ fmt_q value ++ lit ": invalid URL"))
    | Some parsed =>
        if negb (Scheme parsed =s lit "http") && negb (Scheme parsed =s lit "https")
        then Some (ErrValidation (lit "health_check_url must use http or https"))
        else if Host parsed =s [] then Some (ErrValidation (lit "health_check_url must include a host"))
        else if is_some (User parsed) then Some (ErrValidation (lit "health_check_url cannot include credentials"))
        else None
    end.

Definition validateBlueGreenHealthCheck (healthCheckURL : pgText) : option goerror :=
  if negb (Valid healthCheckURL) || negb (Contains (String' healthCheckURL) (lit "{color}"))
     || negb (Contains (String' healthCheckURL) (lit "{port}"))
  then Some (ErrValidation (lit "blue_green deployments require a health_check_url with {color} and {port}"))
  else match validateHealthCheckURL (String' healthCheckURL) with
       | Some err => Some (ErrValidation (Error err))
       | None => None
       end.

Definition validateBlueGreenDeploymentTarget (application : Application.t) : option goerror :=
  validateBlueGreenHealthCheck (Application.HealthCheckUrl application).

Definition validateDeploymentSource (application : Application.t) (imageRef : pgText) : option goerror :=
  if Valid imageRef && negb (TrimSpace (String' imageRef) =s []) then None
  else if Valid (Application.RepositoryUrl application)
          && negb (TrimSpace (String' (Application.RepositoryUrl application)) =s [])
          && negb (TrimSpace (Application.ComposePath application) =s [])
  then None
  else Some (ErrValidation (lit "deployment requires an image_ref or a repository_url with compose_path so it can be built")).

Definition validateDeploymentTarget (applicationID : pgUUID_t) (strategy : str) (imageRef : pgText)
    : H (option goerror) :=
  if negb (strategy =s lit "blue_green")
  then Ret (Some (ErrValidation (lit "deployment strategy must be blue_green")))
  else
    let! application := call (QGetApplication applicationID) in
    match application with
    | inr err => Ret (Some (createDeploymentError err))
    | inl application =>
        match validateDeploymentSource application imageRef with
        | Some err => Ret (Some err)
        | None => Ret (validateBlueGreenDeploymentTarget application)
        end
    end.

Definition applicationLookupError (err : goerror) (message : str) : goerror :=
  if is_no_rows err then ErrNotFound message else err.

(** ** Audit records *)

Definition jstr (s : str) : json := JStr s.
Definition errorString (err : option goerror) : str := match err with None => [] | Some e => Error e end.

Definition deploymentCancelMetadata (deployment : Deployment.t) (actor : str) : list (str * json) :=
  let actor := auditIdentityField actor [] in
  (lit "status", jstr (Deployment.Status deployment)) :: (if negb (actor =s []) then [(lit "actor", jstr actor)] else []).

Definition deploymentQueueMetadata (deployment : Deployment.t) : list (str * json) :=
  [(lit "strategy", jstr (Deployment.Strategy deployment)); (lit "trigger", jstr (Deployment.Trigger deployment))]
  ++ (if Valid (Deployment.CommitSha deployment)
      then [(lit "commit_sha", jstr (String' (Deployment.CommitSha deployment)))] else [])
  ++ (if Valid (Deployment.Actor deployment) then [(lit "actor", jstr (String' (Deployment.Actor deployment)))] else []).

Definition deploymentQueueFailureMetadata (deployment : Deployment.t) (cause : goerror) : list (str * json) :=
  deploymentQueueMetadata deployment
  ++ [(lit "status", jstr (lit "failed")); (lit "error", jstr (errorString (Some cause)))].

Definition deploymentRetryMetadata (source deployment : Deployment.t) : list (str * json) :=
  deploymentQueueMetadata deployment
  ++ [(lit "source_deployment_id", jstr (uuidString (Deployment.ID source)));
      (lit "source_status", jstr (Deployment.Status source))].

Definition deploymentRetryFailureMetadata (source deployment : Deployment.t) (cause : goerror) : list (str * json) :=
  deploymentRetryMetadata source deployment
  ++ [(lit "status", jstr (lit "failed")); (lit "error", jstr (errorString (Some cause)))].

(** ** Queueing *)

Definition markDeploymentEnqueueFailed (deployment : Deployment.t) (cause : goerror) : H goerror :=
  let! updated := call (QShared (QUpdateDeploymentStatus (Deployment.ID deployment) (lit "failed"))) in
  Ret (match updated with
       | inr updateErr => ErrWrap (lit "enqueue deployment: ") cause (lit "; mark failed: " ++ Error updateErr)
       | inl _ => ErrWrap (lit "enqueue deployment: ") cause []
       end).

Definition enqueueDeployment (deployment : Deployment.t) : H (option goerror) :=
  let! err := call (CEnqueue deployment) in
  match err with
  | Some err => let! e := markDeploymentEnqueueFailed deployment err in Ret (Some e)
  | None => Ret None
  end.

(** ** Handlers *)

Definition listDeployments (r : Request) : H unit :=
  match deploymentHistoryLimit (Query r (lit "limit")) with
  | inr err => writeError err
  | inl limit =>
      let! deployments := call (QListDeployments limit) in
      match deployments with
      | inr err => writeError err
      | inl deployments => writeJSON StatusOK (VDeployments deployments)
      end
  end.

(** The common end of the handlers that create a deployment: [failed] and
    [queued] are their audit records. *)
Definition create_and_enqueue (r : Request) (input : Params.t)
    (failed : Deployment.t -> goerror -> H unit) (queued : Deployment.t -> H unit) : H unit :=
  let! err := validateDeploymentTarget (Params.ApplicationID input) (Params.Strategy input) (Params.ImageRef input) in
  match err with
  | Some err => writeError err
  | None =>
      let! deployment := call (QCreateDeployment input) in
      match deployment with
      | inr err => writeError (createDeploymentError err)
      | inl deployment =>
          let! err := enqueueDeployment deployment in
          match err with
          | Some err => let! _ := failed deployment err in writeError err
          | None => let! _ := queued deployment in writeJSON StatusAccepted (VDeployment deployment)
          end
      end
  end.

Definition audit_deployment (r : Request) (action : str) (deployment : Deployment.t) (name : str)
    (metadata : list (str * json)) : H unit :=
  audit r action (lit "deployment") (uuidString (Deployment.ID deployment)) name (Some metadata).

Definition createDeployment (r : Request) : H unit :=
  match (let? input := readJSON decode_CreateDeploymentParams (Body r) in normalizeCreateDeployment input) with
  | inr err => writeError err
  | inl input =>
      create_and_enqueue r input
        (fun d err => audit_deployment r (lit "deployment.queue_failed") d
                        (uuidString (Deployment.ApplicationID d)) (deploymentQueueFailureMetadata d err))
        (fun d => audit_deployment r (lit "deployment.queue") d
                    (uuidString (Deployment.ApplicationID d)) (deploymentQueueMetadata d))
  end.

Definition cancelDeployment (r : Request) : H unit :=
  match parseUUIDParam r (lit "deploymentID") with
  | inr err => writeError err
  | inl deploymentID =>
      let! deployment := call (QCancelQueuedDeployment deploymentID) in
      match deployment with
      | inr err =>
          if is_no_rows err then writeError (ErrValidation (lit "only queued deployments can be cancelled"))
          else writeError err
      | inl deployment =>
          let! _ := audit_deployment r (lit "deployment.cancel") deployment
                      (uuidString (Deployment.ApplicationID deployment))
                      (deploymentCancelMetadata deployment (auditActor r)) in
          writeJSON StatusOK (VDeployment deployment)
      end
  end.

Definition retryDeploymentInput (source : Deployment.t) (actor : str) : result Params.t :=
  if negb (Deployment.Status source =s lit "failed") && negb (Deployment.Status source =s lit "cancelled")
  then inr (ErrValidation (lit "only failed or cancelled deployments can be retried"))
  else normalizeCreateDeployment (Params.mk (lit "retry") (lit "blue_green") (Deployment.CommitSha source)
         (Deployment.ImageRef source) (Deployment.ImageDigest source) (blankStringAsText actor)
         (Deployment.ApplicationID source)).

Definition retryDeployment (r : Request) : H unit :=
  match parseUUIDParam r (lit "deploymentID") with
  | inr err => writeError err
  | inl deploymentID =>
      let! source := call (QGetDeployment deploymentID) in
      match source with
      | inr err => if is_no_rows err then writeError (ErrNotFound (lit "deployment not found")) else writeError err
      | inl source =>
          match retryDeploymentInput source (auditActor r) with
          | inr err => writeError err
          | inl input =>
              create_and_enqueue r input
                (fun d err => audit_deployment r (lit "deployment.retry_queue_failed") d
                                (uuidString (Deployment.ApplicationID d)) (deploymentRetryFailureMetadata source d err))
                (fun d => audit_deployment r (lit "deployment.retry") d
                            (uuidString (Deployment.ApplicationID d)) (deploymentRetryMetadata source d))
          end
      end
  end.

Definition rollbackInput (application : Application.t) (slot : Slot.t) (actor : str) : result Params.t :=
  normalizeCreateDeployment (Params.mk (lit "rollback") (lit "blue_green") textNull
    (PgText (Slot.ImageRef slot) true) (Slot.ImageDigest slot) (blankStringAsText actor) (Application.ID application)).

Definition rollbackApplication (r : Request) : H unit :=
  match parseUUIDParam r (lit "applicationID") with
  | inr err => writeError err
  | inl applicationID =>
      let! application := call (QGetApplication applicationID) in
      match application with
      | inr err => writeError (createDeploymentError err)
      | inl application =>
          let! slot := call (QShared (QGetStandbyDeploymentSlot (Application.ID application) (Application.ServerID application))) in
          match slot with
          | inr err =>
              if is_no_rows err then writeError (ErrValidation (lit "no standby blue-green slot is available for rollback"))
              else writeError err
          | inl slot =>
              match rollbackInput application slot (auditActor r) with
              | inr err => writeError err
              | inl input =>
                  create_and_enqueue r input
                    (fun d err => audit_deployment r (lit "deployment.rollback_queue_failed") d
                                    (uuidString (Deployment.ApplicationID d)) (deploymentQueueFailureMetadata d err))
                    (fun d => audit_deployment r (lit "deployment.rollback") d (Application.Name application)
                                [(lit "application_id", jstr (uuidString (Application.ID application)));
                                 (lit "target_color", jstr (Slot.Color slot)); (lit "image_ref", jstr (Slot.ImageRef slot))])
              end
          end
      end
  end.

Definition listApplicationDeploymentSlots (r : Request) : H unit :=
  match parseUUIDParam r (lit "applicationID") with
  | inr err => writeError err
  | inl applicationID =>
      let! application := call (QGetApplication applicationID) in
      match application with
      | inr err => writeError (applicationLookupError err (lit "application not found"))
      | inl _ =>
          let! slots := call (QListDeploymentSlotsForApplication applicationID) in
          match slots with
          | inr err => writeError err
          | inl slots => writeJSON StatusOK (VSlots slots)
          end
      end
  end.
End Deployments.
