(* ===== verification/HttpRedeploy.v ===== *)
(** * internal/httpapi/configuration_redeploy.go: redeploying a changed configuration

    An application, or every application of a project, is deployed again with the
    source it runs now and the configuration as it is now.  The deployment is
    created in a transaction that locks the application and then enqueued. *)

From S2P Require Import Prelude GoStrings GoStringsFacts GoRegexp GoJson GoNet StringUtil AuditLog.
From S2P Require Import Db DbHttp RemoteSteps ProxyCommands Effects Runner GoHttp HttpCore.
From S2P Require Import HttpDeployments.

Definition configurationRedeployQueued : str := lit "queued".
Definition configurationRedeploySkipped : str := lit "skipped".
Definition configurationRedeployFailed : str := lit "failed".
Definition configurationRedeployCurrent : str := lit "configuration_current".
Definition configurationRedeployInProgress : str := lit "deployment_in_progress".
Definition configurationRedeploySourceUnavailable : str := lit "source_unavailable".
Definition configurationRedeploySourceNotImmutable : str := lit "source_not_immutable".
Definition configurationRedeployInvalid : str := lit "invalid_configuration".
Definition configurationRedeployCreationFailed : str := lit "creation_failed".
Definition configurationRedeployEnqueueFailed : str := lit "enqueue_failed".

Module Source.
Record t := mk {
  ApplicationID : pgUUID_t; ApplicationName : str; SourceDeploymentID : pgUUID_t; CommitSHA : pgText;
  ImageRef : pgText; ImageDigest : pgText; SourceRepositoryURL : pgText; SourceBranch : pgText;
  ConfiguredRepositoryURL : pgText; ConfiguredBranch : str }.
Definition zero : t := mk no_uuid [] no_uuid textNull textNull textNull textNull textNull textNull [].
End Source.

(** [db.Deployment{}] *)
Definition zeroDeployment : Deployment.t :=
  Deployment.mk no_uuid no_uuid no_uuid [] [] [] textNull textNull None None None textNull textNull textNull textNull
    textNull None.

Module Creation.
Record t := mk { source : Source.t; deployment : Deployment.t; skippedReason : str }.
Definition zero : t := mk Source.zero zeroDeployment [].
End Creation.

Section Redeploy.
Context `{UnicodeTables} `{UuidLib} `{SshLib}.

(** ** The source that runs now *)

Definition configurationRedeploySourceChanged (source : Source.t) : bool :=
  let configuredRepository := TrimSpace (String' (Source.ConfiguredRepositoryURL source)) in
  let sourceRepository := TrimSpace (String' (Source.SourceRepositoryURL source)) in
  if negb (configuredRepository =s sourceRepository) then true
  else if configuredRepository =s [] then false
  else negb (TrimSpace (Source.ConfiguredBranch source) =s TrimSpace (String' (Source.SourceBranch source))).

Definition immutableConfigurationImage (imageRef imageDigest : pgText) : result (pgText * pgText) :=
  let ref := TrimSpace (String' imageRef) in
  let digest := TrimSpace (String' imageDigest) in
  let '(base, cut) := CutByte "@"%char ref in
  let hasRefDigest := is_some cut in
  let refDigest := default [] cut in
  if hasRefDigest && negb (MatchString imageDigestPattern refDigest)
  then inr (ErrValidation (lit "active image reference has an invalid digest"))
  else if digest =s [] then inl (PgText ref true, textNull)
  else if negb (digest =s []) && negb (MatchString imageDigestPattern digest)
  then inr (ErrValidation (lit "active image has an invalid digest"))
  else if hasRefDigest && negb (digest =s []) && negb (refDigest =s digest)
  then inr (ErrValidation (lit "active image reference and digest do not match"))
  else if TrimSpace base =s [] then inr (ErrValidation (lit "active image reference is invalid"))
  else
    let pinned := PgText (base ++ lit "@" ++ digest) true in
    if negb (validImageRef (String' pinned)) then inr (ErrValidation (lit "active image reference is invalid"))
    else inl (pinned, PgText digest true).

Definition configurationRedeployInput (source : Source.t) (actor : str) : result Params.t :=
  if negb (uuid_valid (Source.SourceDeploymentID source))
  then inr (ErrValidation (lit "application has no active successful deployment to redeploy"))
  else
    let commitSHA := Source.CommitSHA source in
    let imageRef := Source.ImageRef source in
    let imageDigest := Source.ImageDigest source in
    let? (commitSHA, imageRef, imageDigest) :=
      (if configurationRedeploySourceChanged source then inl (textNull, textNull, textNull)
       else if Valid imageRef && negb (TrimSpace (String' imageRef) =s [])
       then let? (imageRef, imageDigest) := immutableConfigurationImage imageRef imageDigest in
            inl (commitSHA, imageRef, imageDigest)
       else inl (commitSHA, imageRef, imageDigest)) in
    let? input := normalizeCreateDeployment
      (Params.mk (lit "manual") (lit "blue_green") commitSHA imageRef imageDigest (blankStringAsText actor)
         (Source.ApplicationID source)) in
    if negb (configurationRedeploySourceChanged source) && negb (Valid (Params.CommitSha input))
       && negb (Valid (Params.ImageRef input))
    then inr (ErrValidation (lit "active deployment does not have a pinned source commit or image"))
    else inl input.

(** ** Creating the deployment *)

Definition redeploy_source (application : Application.t) (candidate : RedeployCandidate.t) : Source.t :=
  Source.mk (RedeployCandidate.ApplicationID candidate) (RedeployCandidate.ApplicationName candidate)
    (RedeployCandidate.SourceDeploymentID candidate) (RedeployCandidate.SourceCommitSha candidate)
    (RedeployCandidate.SourceImageRef candidate) (RedeployCandidate.SourceImageDigest candidate)
    (RedeployCandidate.SourceRepositoryUrl candidate) (RedeployCandidate.SourceBranch candidate)
    (Application.RepositoryUrl application) (Application.Branch application).

Definition skipped (source : Source.t) (reason : str) : Creation.t * option goerror :=
  (Creation.mk source zeroDeployment reason, None).
Definition failed (source : Source.t) (err : goerror) : Creation.t * option goerror :=
  (Creation.mk source zeroDeployment [], Some err).

(** The input of the new deployment. *)
Definition redeploy_input (application : Application.t) (source : Source.t) (actor : str) : result Params.t :=
  let? input := configurationRedeployInput source actor in
  if negb (Params.Strategy input =s lit "blue_green")
  then inr (ErrValidation (lit "deployment strategy must be blue_green"))
  else match validateDeploymentSource application (Params.ImageRef input) with
       | Some err => inr err
       | None => match validateBlueGreenDeploymentTarget application with
                 | Some err => inr err
                 | None => inl input
                 end
       end.

(** Between [tx.Begin] and the deferred [tx.Rollback]. *)
Definition redeploy_in_transaction (applicationID : pgUUID_t) (actor : str) : H (Creation.t * option goerror) :=
  let! application := call (QGetApplicationForUpdate applicationID) in
  match application with
  | inr err => Ret (Creation.zero, Some (applicationLookupError err (lit "application not found")))
  | inl application =>
      let! candidate := call (QGetApplicationConfigurationRedeployCandidate applicationID) in
      match candidate with
      | inr err => Ret (Creation.zero, Some (applicationLookupError err (lit "application not found")))
      | inl candidate =>
          let source := redeploy_source application candidate in
          if negb (default false (RedeployCandidate.RedeployRequired candidate))
          then Ret (skipped source configurationRedeployCurrent)
          else if RedeployCandidate.DeploymentInProgress candidate
          then Ret (skipped source configurationRedeployInProgress)
          else
            match redeploy_input application source actor with
            | inr err => Ret (failed source err)
            | inl input =>
                let! deployment := call (QCreateDeployment input) in
                match deployment with
                | inr err =>
                    let err := createDeploymentError err in
                    Ret (if isDeploymentInProgressError err then skipped source configurationRedeployInProgress
                         else failed source err)
                | inl deployment =>
                    let! err := call CCommit in
                    Ret (Creation.mk source deployment [], err)
                end
            end
      end
  end.

Definition createConfigurationRedeployment (applicationID : pgUUID_t) (actor : str) : H (Creation.t * option goerror) :=
  let! err := call CBegin in
  match err with
  | Some err => Ret (Creation.zero, Some err)
  | None =>
      let! creation := redeploy_in_transaction applicationID actor in
      let! _ := call CRollback in
      Ret creation
  end.

(** ** Results *)

Definition configurationRedeployResultFor (source : Source.t) (deployment : Deployment.t) (status reason : str)
    : RedeployResult.t :=
  RedeployResult.mk (uuidString (Source.ApplicationID source)) (Source.ApplicationName source) status reason
    (if uuid_valid (Deployment.ID deployment) then uuidString (Deployment.ID deployment) else []).

(** One turn of the loop over the results: the counters and [allInProgress]. *)
Definition count_result (acc : Z * Z * Z * bool) (result : RedeployResult.t) : Z * Z * Z * bool :=
  let '(queued, skipped, failed, allInProgress) := acc in
  let '(queued, skipped, failed) :=
    if RedeployResult.Status result =s configurationRedeployQueued then ((queued + 1)%Z, skipped, failed)
    else if RedeployResult.Status result =s configurationRedeploySkipped then (queued, (skipped + 1)%Z, failed)
    else (queued, skipped, (failed + 1)%Z) in
  (queued, skipped, failed,
   if negb (RedeployResult.Reason result =s configurationRedeployInProgress) then false else allInProgress).

Definition newConfigurationRedeployResponse (deployments : list Deployment.t) (results : list RedeployResult.t)
    : RedeployResponse.t :=
  let '(queued, skipped, failed, allInProgress) :=
    fold_left count_result results (0%Z, 0%Z, 0%Z, (0 <? length results)%nat) in
  let state :=
    if (0 <? queued)%Z && ((0 <? skipped)%Z || (0 <? failed)%Z) then lit "partial"
    else if (0 <? queued)%Z then lit "queued"
    else if (0 <? failed)%Z then lit "failed"
    else if allInProgress then lit "in_progress"
    else if (0 <? skipped)%Z then lit "skipped"
    else lit "current" in
  RedeployResponse.mk state deployments results queued skipped failed.

Definition configurationRedeployFailureReason (err : goerror) : str :=
  match as_not_found err with
  | Some _ => lit "application_not_found"
  | None =>
      match as_validation err with
      | Some message =>
          if Contains message (lit "active image") then configurationRedeploySourceNotImmutable
          else if Contains message (lit "active successful deployment")
                  || Contains message (lit "pinned source commit or image")
          then configurationRedeploySourceUnavailable
          else configurationRedeployInvalid
      | None => configurationRedeployCreationFailed
      end
  end.

Definition configurationRedeployMetadata (source : Source.t) (deployment : Deployment.t) : list (str * json) :=
  deploymentQueueMetadata deployment
  ++ [(lit "reason", jstr (lit "configuration_changed"));
      (lit "source_deployment_id", jstr (uuidString (Source.SourceDeploymentID source)));
      (lit "source_changed", JBool (configurationRedeploySourceChanged source))].

Definition configurationRedeployFailureMetadata (source : Source.t) (deployment : Deployment.t) (cause : goerror)
    : list (str * json) :=
  configurationRedeployMetadata source deployment
  ++ [(lit "status", jstr (lit "failed")); (lit "error", jstr (errorString (Some cause)))].

(** ** Handlers *)

Definition audit_redeploy_failed (r : Request) (source : Source.t) (deployment : Deployment.t) (err : goerror) : H unit :=
  audit_deployment r (lit "deployment.configuration_redeploy_queue_failed") deployment (Source.ApplicationName source)
    (configurationRedeployFailureMetadata source deployment err).
Definition audit_redeploy (r : Request) (source : Source.t) (deployment : Deployment.t) : H unit :=
  audit_deployment r (lit "deployment.configuration_redeploy") deployment (Source.ApplicationName source)
    (configurationRedeployMetadata source deployment).

Definition redeployApplicationConfiguration (r : Request) : H unit :=
  match parseUUIDParam r (lit "applicationID") with
  | inr err => writeError err
  | inl applicationID =>
      let! (creation, err) := createConfigurationRedeployment applicationID (auditActor r) in
      match err with
      | Some err => writeError err
      | None =>
          let source := Creation.source creation in
          let deployment := Creation.deployment creation in
          if Creation.skippedReason creation =s configurationRedeployCurrent
          then writeError (ErrValidation (lit "application configuration is already current"))
          else if Creation.skippedReason creation =s configurationRedeployInProgress
          then writeError (ErrValidation (lit "application already has a queued or running deployment"))
          else
            let! err := enqueueDeployment deployment in
            match err with
            | Some err => let! _ := audit_redeploy_failed r source deployment err in writeError err
            | None =>
                let! _ := audit_redeploy r source deployment in
                writeJSON StatusAccepted (VRedeploy (newConfigurationRedeployResponse [deployment]
                  [configurationRedeployResultFor source deployment configurationRedeployQueued []]))
            end
      end
  end.

(** One candidate of a project: the deployment if it was queued, and the result. *)
Definition redeploy_candidate (r : Request) (actor : str) (candidate : RedeployCandidate.t)
    : H (option Deployment.t * RedeployResult.t) :=
  let! (creation, err) := createConfigurationRedeployment (RedeployCandidate.ApplicationID candidate) actor in
  let deployment := Creation.deployment creation in
  let source := Creation.source creation in
  let source :=
    if negb (uuid_valid (Source.ApplicationID source))
    then Source.mk (RedeployCandidate.ApplicationID candidate) (RedeployCandidate.ApplicationName candidate)
           (Source.SourceDeploymentID source) (Source.CommitSHA source) (Source.ImageRef source)
           (Source.ImageDigest source) (Source.SourceRepositoryURL source) (Source.SourceBranch source)
           (Source.ConfiguredRepositoryURL source) (Source.ConfiguredBranch source)
    else source in
  match err with
  | Some err =>
      let reason := configurationRedeployFailureReason err in
      let! _ := audit r (lit "deployment.configuration_redeploy_prepare_failed") (lit "application")
                  (uuidString (Source.ApplicationID source)) (Source.ApplicationName source)
                  (Some [(lit "reason", jstr reason); (lit "error", jstr (errorString (Some err)))]) in
      Ret (None, configurationRedeployResultFor source zeroDeployment configurationRedeployFailed reason)
  | None =>
      if negb (Creation.skippedReason creation =s [])
      then Ret (None, configurationRedeployResultFor source zeroDeployment configurationRedeploySkipped
                        (Creation.skippedReason creation))
      else
        let! err := enqueueDeployment deployment in
        match err with
        | Some err =>
            let! _ := audit_redeploy_failed r source deployment err in
            Ret (None, configurationRedeployResultFor source deployment configurationRedeployFailed
                         configurationRedeployEnqueueFailed)
        | None =>
            let! _ := audit_redeploy r source deployment in
            Ret (Some deployment, configurationRedeployResultFor source deployment configurationRedeployQueued [])
        end
  end.

Fixpoint redeploy_candidates (r : Request) (actor : str) (candidates : list RedeployCandidate.t)
    : H (list Deployment.t * list RedeployResult.t) :=
  match candidates with
  | [] => Ret ([], [])
  | candidate :: t =>
      let! (deployment, result) := redeploy_candidate r actor candidate in
      let! (deployments, results) := redeploy_candidates r actor t in
      Ret (match deployment with Some d => d :: deployments | None => deployments end, result :: results)
  end.

Definition redeploy_status (response : RedeployResponse.t) : Z :=
  if (0 <? RedeployResponse.Failed response)%Z then StatusMultiStatus
  else if (RedeployResponse.Queued response =? 0)%Z then StatusOK else StatusAccepted.

Definition redeployProjectConfiguration (r : Request) : H unit :=
  match parseUUIDParam r (lit "projectID") with
  | inr err => writeError err
  | inl projectID =>
      let! project := call (QGetProject projectID) in
      match project with
      | inr err => writeError (applicationLookupError err (lit "project not found"))
      | inl _ =>
          let! candidates := call (QListProjectConfigurationRedeployCandidates projectID) in
          match candidates with
          | inr err => writeError err
          | inl candidates =>
              let! (deployments, results) := redeploy_candidates r (auditActor r) candidates in
              let response := newConfigurationRedeployResponse deployments results in
              writeJSON (redeploy_status response) (VRedeploy response)
          end
      end
  end.
End Redeploy.
