(* ===== verification/HttpApplications.v ===== *)
(** * internal/httpapi/applications.go: applications and their deletion

    Validation of the input, the execution modes of the compose services, and the
    handlers.  The deletion first removes the containers and the proxy routes from
    the server and then, in one transaction, the rows. *)

From S2P Require Import Prelude GoStrings GoStringsFacts GoRegexp GoJson GoNet StringUtil AuditLog.
From S2P Require Import Db DbHttp DbApplications RemoteSteps ProxyCommands Effects Runner GoHttp.
From S2P Require Import HttpCore HttpDeployments.

Definition executionModeFollowStack : str := lit "follow_stack".
Definition executionModeSingleton : str := lit "singleton".
Definition validServiceExecutionMode (mode : str) : bool :=
  (mode =s executionModeFollowStack) || (mode =s executionModeSingleton).

(** [^git@github\.com:[A-Za-z0-9_.-]+/[A-Za-z0-9_.-]+\.git$] *)
Definition githubSSHRepositoryURL : regex := RSeqs [RBol; ssh_remote; REol].
(** [^https://github\.com/[A-Za-z0-9_.-]+/[A-Za-z0-9_.-]+(?:\.git)?$] *)
Definition githubHTTPSRepositoryURL : regex := RSeqs [RBol; https_remote; REol].

Definition line_breaks : str := byte 13 ++ newline ++ tabulator.

(** ** Validation *)

Section Validation.
Context `{UnicodeTables}.

Definition validateRemoteDirectory (value : str) : option goerror :=
  if ContainsAny value line_breaks then Some (ErrValidation (lit "remote_directory cannot contain control characters"))
  else if (value =s lit "/") || negb (HasPrefix value (lit "/"))
  then Some (ErrValidation (lit "remote_directory must be an absolute path below root"))
  else if Contains value (lit "//") then Some (ErrValidation (lit "remote_directory cannot contain empty path segments"))
  else if existsb (fun segment => segment =s lit "..") (SplitByte slash value)
  then Some (ErrValidation (lit "remote_directory cannot contain parent directory segments"))
  else None.

Definition validateRepositoryURL (value : str) : option goerror :=
  if ContainsAny value line_breaks then Some (ErrValidation (lit "repository_url cannot contain control characters"))
  else if MatchString githubSSHRepositoryURL value then None
  else match url_Parse value with
       | None => Some (ErrValidation (lit "repository_url must be a GitHub SSH URL or GitHub https URL"))
       | Some parsed =>
           if Host parsed =s [] then Some (ErrValidation (lit "repository_url must be a GitHub SSH URL or GitHub https URL"))
           else if negb (Scheme parsed =s lit "https")
           then Some (ErrValidation (lit "repository_url must use https for HTTP remotes"))
           else if is_some (User parsed) then Some (ErrValidation (lit "repository_url cannot include credentials"))
           else if negb (MatchString githubHTTPSRepositoryURL value)
           then Some (ErrValidation (lit "repository_url must point to github.com owner/repository"))
           else None
       end.

Definition validateDopplerScopeValue (field value : str) : option goerror :=
  if ContainsAny value line_breaks then Some (ErrValidation (field ++ lit " cannot contain control characters")) else None.

Definition validateApplicationServer (existing requested : pgUUID_t) : option goerror :=
  if negb (bool_decide (existing = requested))
  then Some (ErrValidation (lit "server_id cannot be changed; recreate the service on another server")) else None.

(** [if err := check; err != nil { return input, validationError(err.Error()) }] *)
Definition or_invalid {A} (check : option goerror) (k : result A) : result A :=
  match check with Some err => inr (ErrValidation (Error err)) | None => k end.
Definition or_invalid_text {A} (t : pgText) (check : str -> option goerror) (k : result A) : result A :=
  if Valid t then or_invalid (check (String' t)) k else k.

Definition lowered_text (t : pgText) : pgText := PgText (ToLower (TrimSpace (String' t))) (Valid t).

Definition normalizeCreateApplication (input : CreateApplicationParams.t) : result CreateApplicationParams.t :=
  let '(CreateApplicationParams.mk env server name repo branch compose dir domain health dproject dconfig auto) := input in
  let name := TrimSpace name in
  let branch := TrimSpace branch in
  let compose := TrimSpace compose in
  let dir := TrimSpace dir in
  if negb (uuid_valid env) || negb (uuid_valid server) || (name =s []) || (dir =s [])
  then inr (ErrValidation (lit "environment_id, server_id, name, and remote_directory are required")) else
  or_invalid (validateRemoteDirectory dir) (
  let branch := if branch =s [] then lit "main" else branch in
  or_invalid (ValidateGitRefName branch) (
  let compose := if compose =s [] then lit "docker-compose.yml" else compose in
  or_invalid (ValidateComposePath compose) (
  let repo := blankTextAsNull (trimmed_text repo) in
  or_invalid_text repo validateRepositoryURL (
  let domain := blankTextAsNull (lowered_text domain) in
  or_invalid_text domain ValidateDomain (
  let health := blankTextAsNull (trimmed_text health) in
  or_invalid_text health validateHealthCheckURL (
  let dproject := blankTextAsNull (trimmed_text dproject) in
  let dconfig := blankTextAsNull (trimmed_text dconfig) in
  if xorb (Valid dproject) (Valid dconfig)
  then inr (ErrValidation (lit "doppler project and config must be provided together"))
  else
    let output := CreateApplicationParams.mk env server name repo branch compose dir domain health dproject dconfig auto in
    if Valid dproject then
      or_invalid (validateDopplerScopeValue (lit "doppler project") (String' dproject)) (
      or_invalid (validateDopplerScopeValue (lit "doppler config") (String' dconfig)) (inl output))
    else inl output)))))).

Definition create_params (u : UpdateApplicationParams.t) : CreateApplicationParams.t :=
  let '(UpdateApplicationParams.mk env server name repo branch compose dir domain health dproject dconfig auto _ _) := u in
  CreateApplicationParams.mk env server name repo branch compose dir domain health dproject dconfig auto.

Definition normalizeUpdateApplication (input : UpdateApplicationParams.t) : result UpdateApplicationParams.t :=
  let? createInput := normalizeCreateApplication (create_params input) in
  let '(CreateApplicationParams.mk env server name repo branch compose dir domain health dproject dconfig auto) := createInput in
  inl (UpdateApplicationParams.mk env server name repo branch compose dir domain health dproject dconfig auto
         (match UpdateApplicationParams.ComposeServices input with None => Some (JArr []) | services => services end)
         (UpdateApplicationParams.ID input)).
End Validation.

(** ** Compose services: the metadata column *)

Module ComposePort.
Record t := mk { ContainerPort : Z; PublishedPort : Z; Protocol : str; Variable' : str }.
Definition zero : t := mk 0 0 [] [].
End ComposePort.

(** [None] is the nil slice. *)
Module ComposeService.
Record t := mk {
  Name : str; Image : str; BuildContext : str; Dockerfile : str; Ports : option (list ComposePort.t);
  DependsOn : option (list str); ExecutionMode : str }.
Definition zero : t := mk [] [] [] [] None None [].
Definition set_mode (s : t) (mode : str) : t :=
  mk (Name s) (Image s) (BuildContext s) (Dockerfile s) (Ports s) (DependsOn s) mode.
End ComposeService.

Definition set_port_field (key : str) (v : json) (p : ComposePort.t) : result ComposePort.t :=
  let '(ComposePort.mk container published protocol variable) := p in
  let named n := field_match n key in
  if named (lit "container_port") then set_int v p (fun z => ComposePort.mk z published protocol variable)
  else if named (lit "published_port") then set_int v p (fun z => ComposePort.mk container z protocol variable)
  else if named (lit "protocol") then set_string v p (fun s => ComposePort.mk container published s variable)
  else if named (lit "variable") then set_string v p (fun s => ComposePort.mk container published protocol s)
  else inl p.

Definition set_service_field (key : str) (v : json) (s : ComposeService.t) : result ComposeService.t :=
  let '(ComposeService.mk name image context dockerfile ports depends mode) := s in
  let named n := field_match n key in
  if named (lit "name") then set_string v s (fun x => ComposeService.mk x image context dockerfile ports depends mode)
  else if named (lit "image") then set_string v s (fun x => ComposeService.mk name x context dockerfile ports depends mode)
  else if named (lit "build_context") then set_string v s (fun x => ComposeService.mk name image x dockerfile ports depends mode)
  else if named (lit "dockerfile") then set_string v s (fun x => ComposeService.mk name image context x ports depends mode)
  else if named (lit "ports") then
    let? ports := unmarshal_slice (unmarshal_struct set_port_field ComposePort.zero) v in
    inl (ComposeService.mk name image context dockerfile ports depends mode)
  else if named (lit "depends_on") then
    let? depends := unmarshal_slice unmarshal_string v in
    inl (ComposeService.mk name image context dockerfile ports depends mode)
  else if named (lit "execution_mode") then
    set_string v s (fun x => ComposeService.mk name image context dockerfile ports depends x)
  else inl s.

Definition unmarshal_services (v : json) : result (option (list ComposeService.t)) :=
  unmarshal_slice (unmarshal_struct set_service_field ComposeService.zero) v.

Definition port_json (p : ComposePort.t) : json :=
  JObj ((lit "container_port", JNum (ComposePort.ContainerPort p))
        :: omit_int "published_port" (ComposePort.PublishedPort p)
        ++ omit_string "protocol" (ComposePort.Protocol p) ++ omit_string "variable" (ComposePort.Variable' p)).

Definition service_json (s : ComposeService.t) : json :=
  JObj ((lit "name", JStr (ComposeService.Name s))
        :: omit_string "image" (ComposeService.Image s) ++ omit_string "build_context" (ComposeService.BuildContext s)
        ++ omit_string "dockerfile" (ComposeService.Dockerfile s)
        ++ [(lit "ports", marshal_slice port_json (ComposeService.Ports s));
            (lit "depends_on", marshal_slice JStr (ComposeService.DependsOn s))]
        ++ omit_string "execution_mode" (ComposeService.ExecutionMode s)).

Section Modes.
Context `{UnicodeTables}.

(** The mode of one service. *)
Definition service_mode (requested : gmap str str) (service : ComposeService.t) : str :=
  let mode := TrimSpace (ComposeService.ExecutionMode service) in
  let mode := match requested !! ComposeService.Name service with Some m => TrimSpace m | None => mode end in
  if mode =s [] then executionModeFollowStack else mode.

Fixpoint merge_modes (requested : gmap str str) (services : list ComposeService.t) : result (list ComposeService.t) :=
  match services with
  | [] => inl []
  | service :: t =>
      let mode := service_mode requested service in
      if negb (validServiceExecutionMode mode)
      then inr (ErrValidation (lit "service execution mode must be follow_stack or singleton"))
      else let? rest := merge_modes requested t in inl (ComposeService.set_mode service mode :: rest)
  end.

(** A requested service that does not exist; the source reports any of them. *)
Definition unknown_service (requested : gmap str str) (services : list ComposeService.t) : option str :=
  List.find (fun name => negb (existsb (fun s => ComposeService.Name s =s name) services)) (map fst (map_to_list requested)).

Definition mergeServiceExecutionModes (metadata : bytes) (requested : gmap str str) : result bytes :=
  let? services := match metadata with
    | None => inl (Some [])
    | Some v => match unmarshal_services v with
                | inr _ => inr (ErrValidation (lit "compose service metadata is invalid"))
                | inl services => inl services
                end
    end in
  let? merged := merge_modes requested (default [] services) in
  match unknown_service requested (default [] services) with
  | Some service => inr (ErrValidation (lit "unknown compose service " ++ service))
  | None => inl (Some (marshal_slice service_json (match services with Some _ => Some merged | None => None end)))
  end.
End Modes.

(** ** Decoding the input *)

(** A valid text of [base64.StdEncoding]; line breaks are ignored. *)
Definition base64_char (c : ascii) : bool :=
  let r := b2n c in is_alnum r || class (lit "+/") r.
Definition base64_ok (s : str) : bool :=
  let t := List.filter (fun c => negb (class (byte 13 ++ newline) (b2n c))) s in
  let strip (l : str) := match l with c :: u => if (c =? "=")%char then u else l | [] => [] end in
  (length t mod 4 =? 0)%nat && forallb base64_char (strip (strip (rev t))).

(** Whether a value is accepted for a byte slice. *)
Definition byte_slice_ok (v : json) : bool :=
  match v with
  | JNull => true
  | JStr s => base64_ok s
  | JArr l => forallb (fun x => match x with JNum z => (0 <=? z)%Z && (z <=? 255)%Z | JNull => true | _ => false end) l
  | _ => false
  end.

Section Decode.
Context `{UnicodeTables} `{PgJson}.

Definition zeroCreate : CreateApplicationParams.t :=
  CreateApplicationParams.mk no_uuid no_uuid [] textNull [] [] [] textNull textNull textNull textNull false.

Definition set_create_field (key : str) (v : json) (p : CreateApplicationParams.t) : result (option CreateApplicationParams.t) :=
  let '(CreateApplicationParams.mk env server name repo branch compose dir domain health dproject dconfig auto) := p in
  let named n := field_match n key in
  let known r : result (option CreateApplicationParams.t) := let? x := r in inl (Some x) in
  let text (k : str -> CreateApplicationParams.t) := known (set_string v p k) in
  let pg (k : pgText -> CreateApplicationParams.t) := known (let? t := text_UnmarshalJSON v in inl (k t)) in
  let uuid (k : pgUUID_t -> CreateApplicationParams.t) := known (let? u := uuid_UnmarshalJSON v in inl (k u)) in
  if named (lit "environment_id") then uuid (fun u => CreateApplicationParams.mk u server name repo branch compose dir domain health dproject dconfig auto)
  else if named (lit "server_id") then uuid (fun u => CreateApplicationParams.mk env u name repo branch compose dir domain health dproject dconfig auto)
  else if named (lit "name") then text (fun s => CreateApplicationParams.mk env server s repo branch compose dir domain health dproject dconfig auto)
  else if named (lit "repository_url") then pg (fun t => CreateApplicationParams.mk env server name t branch compose dir domain health dproject dconfig auto)
  else if named (lit "branch") then text (fun s => CreateApplicationParams.mk env server name repo s compose dir domain health dproject dconfig auto)
  else if named (lit "compose_path") then text (fun s => CreateApplicationParams.mk env server name repo branch s dir domain health dproject dconfig auto)
  else if named (lit "remote_directory") then text (fun s => CreateApplicationParams.mk env server name repo branch compose s domain health dproject dconfig auto)
  else if named (lit "domain") then pg (fun t => CreateApplicationParams.mk env server name repo branch compose dir t health dproject dconfig auto)
  else if named (lit "health_check_url") then pg (fun t => CreateApplicationParams.mk env server name repo branch compose dir domain t dproject dconfig auto)
  else if named (lit "doppler_project") then pg (fun t => CreateApplicationParams.mk env server name repo branch compose dir domain health t dconfig auto)
  else if named (lit "doppler_config") then pg (fun t => CreateApplicationParams.mk env server name repo branch compose dir domain health dproject t auto)
  else if named (lit "github_auto_deploy") then
    match v with
    | JBool b => inl (Some (CreateApplicationParams.mk env server name repo branch compose dir domain health dproject dconfig b))
    | JNull => inl (Some p)
    | _ => inr unmarshal_error
    end
  else inl None.

Definition unknown_field (key : str) : goerror := ErrText (lit "json: unknown field " ++ fmt_q key).

Definition decode_CreateApplicationParams (v : json) : result CreateApplicationParams.t :=
  unmarshal_struct (fun key v p => let? p' := set_create_field key v p in
                                   match p' with Some p' => inl p' | None => inr (unknown_field key) end) zeroCreate v.

(** [updateApplicationRequest]: the embedded parameters, whose [id] and
    [compose_services] the handler overwrites, and the requested modes. *)
Record updateApplicationRequest := {
  UpdateParams : CreateApplicationParams.t; ServiceExecutionModes : gmap str str }.

Definition set_update_field (key : str) (v : json) (r : updateApplicationRequest) : result updateApplicationRequest :=
  let? p := set_create_field key v (UpdateParams r) in
  match p with
  | Some p => inl {| UpdateParams := p; ServiceExecutionModes := ServiceExecutionModes r |}
  | None =>
      if field_match (lit "compose_services") key then if byte_slice_ok v then inl r else inr unmarshal_error
      else if field_match (lit "id") key then let? _ := uuid_UnmarshalJSON v in inl r
      else if field_match (lit "service_execution_modes") key then
        let? m := unmarshal_map v (ServiceExecutionModes r) in
        inl {| UpdateParams := UpdateParams r; ServiceExecutionModes := m |}
      else inr (unknown_field key)
  end.

Definition decode_updateApplicationRequest (v : json) : result updateApplicationRequest :=
  unmarshal_struct set_update_field {| UpdateParams := zeroCreate; ServiceExecutionModes := ∅ |} v.

(** [input := request.UpdateApplicationParams; input.ID = ...; input.ComposeServices = ...] *)
Definition update_params (p : CreateApplicationParams.t) (services : bytes) (id : pgUUID_t) : UpdateApplicationParams.t :=
  let '(CreateApplicationParams.mk env server name repo branch compose dir domain health dproject dconfig auto) := p in
  UpdateApplicationParams.mk env server name repo branch compose dir domain health dproject dconfig auto services id.
End Decode.

(** ** Handlers *)

Section Handlers.
Context `{UnicodeTables} `{UuidLib} `{SshLib} `{PgJson}.

Definition application_metadata (application : Application.t) : list (str * json) :=
  [(lit "environment_id", jstr (uuidString (Application.EnvironmentID application)));
   (lit "server_id", jstr (uuidString (Application.ServerID application)));
   (lit "branch", jstr (Application.Branch application));
   (lit "doppler_scoped", JBool (Valid (Application.DopplerProject application) && Valid (Application.DopplerConfig application)));
   (lit "github_auto_deploy", JBool (Application.GithubAutoDeploy application))].

Definition audit_application (r : Request) (action : str) (application : Application.t) (metadata : list (str * json)) : H unit :=
  audit r action (lit "application") (uuidString (Application.ID application)) (Application.Name application) (Some metadata).

(** The server and the environment of the input exist. *)
Definition check_references (serverID environmentID : pgUUID_t) : H (option goerror) :=
  let! server := call (QGetServer serverID) in
  match server with
  | inr err => Ret (Some (applicationLookupError err (lit "server not found")))
  | inl _ =>
      let! environment := call (QGetEnvironment environmentID) in
      Ret (match environment with
           | inr err => Some (applicationLookupError err (lit "environment not found"))
           | inl _ => None
           end)
  end.

Definition createApplication (r : Request) : H unit :=
  match (let? input := readJSON decode_CreateApplicationParams (Body r) in normalizeCreateApplication input) with
  | inr err => writeError err
  | inl input =>
      let! err := check_references (CreateApplicationParams.ServerID input) (CreateApplicationParams.EnvironmentID input) in
      match err with
      | Some err => writeError err
      | None =>
          let! application := call (QCreateApplication input) in
          match application with
          | inr err => writeError err
          | inl application =>
              let! _ := audit_application r (lit "application.create") application (application_metadata application) in
              writeJSON StatusCreated (VApplication application)
          end
      end
  end.

(** The input of [updateApplication] for the row that exists. *)
Definition update_input (existing : Application.t) (request : updateApplicationRequest) (applicationID : pgUUID_t)
    : result UpdateApplicationParams.t :=
  let? services := mergeServiceExecutionModes (Application.ComposeServices existing) (ServiceExecutionModes request) in
  let? input := normalizeUpdateApplication (update_params (UpdateParams request) services applicationID) in
  match validateApplicationServer (Application.ServerID existing) (UpdateApplicationParams.ServerID input) with
  | Some err => inr err
  | None => inl input
  end.

Definition updateApplication (r : Request) : H unit :=
  match parseUUIDParam r (lit "applicationID") with
  | inr err => writeError err
  | inl applicationID =>
      match readJSON decode_updateApplicationRequest (Body r) with
      | inr err => writeError err
      | inl request =>
          let! existing := call (QGetApplication applicationID) in
          match existing with
          | inr err => writeError (applicationLookupError err (lit "application not found"))
          | inl existing =>
              match update_input existing request applicationID with
              | inr err => writeError err
              | inl input =>
                  let! err := check_references (UpdateApplicationParams.ServerID input)
                                (UpdateApplicationParams.EnvironmentID input) in
                  match err with
                  | Some err => writeError err
                  | None =>
                      let! application := call (QUpdateApplication input) in
                      match application with
                      | inr err => writeError (applicationLookupError err (lit "application not found"))
                      | inl application =>
                          let! _ := audit_application r (lit "application.update") application
                                      (application_metadata application) in
                          writeJSON StatusOK (VApplication application)
                      end
                  end
              end
          end
      end
  end.

(** ** Deletion *)

Record applicationDeletionPlan := {
  application : Application.t; routes : list RouteTarget.t; hasDeployments : bool }.

Definition prepareApplicationDeletion (app : Application.t) : H (result applicationDeletionPlan) :=
  let! state := call (QGetApplicationDeletionState (Application.ID app)) in
  match state with
  | inr err => Ret (inr err)
  | inl state =>
      if DeletionState.DeploymentInProgress state
      then Ret (inr (ErrValidation (lit "wait for or cancel the active deployment before deleting the service")))
      else
        let! routes := call (QShared (QListProxyRouteTargetsForApplication (Application.ID app) (Application.ServerID app))) in
        Ret (match routes with
             | inr err => inr err
             | inl routes => inl {| application := app; routes := routes;
                                    hasDeployments := DeletionState.HasDeployments state |}
             end)
  end.

Definition is_pending (route : RouteTarget.t) : bool := RouteTarget.Status route =s lit "pending".

(** The loop over the routes: [None] when every route was removed. *)
Fixpoint remove_routes (server : Server.t) (routes : list RouteTarget.t) : H (option goerror) :=
  match routes with
  | [] => Ret None
  | route :: t =>
      if is_pending route then remove_routes server t
      else match BuildRemoveCommand (RouteTarget.Domain route) (RouteTarget.ProxyType route) with
           | inr err => Ret (Some (ErrWrap (lit "prepare domain cleanup for " ++ fmt_q (RouteTarget.Domain route) ++ lit ": ") err []))
           | inl command =>
               let! (_, err) := call (CRemote server command) in
               match err with
               | Some err => Ret (Some (ErrWrap (lit "remove domain " ++ fmt_q (RouteTarget.Domain route)
                                 ++ lit " from server " ++ fmt_q (Server.Name server) ++ lit ": ") err []))
               | None => remove_routes server t
               end
           end
  end.

Definition stop_application (server : Server.t) (plan : applicationDeletionPlan) : H (option goerror) :=
  let name := fmt_q (Application.Name (application plan)) in
  if negb (hasDeployments plan) then Ret None
  else match BuildComposeDownCommand (application plan) (routes plan) with
       | inr err => Ret (Some (ErrWrap (lit "prepare cleanup for service " ++ name ++ lit ": ") err []))
       | inl command =>
           let! (_, err) := call (CRemote server command) in
           Ret (match err with
                | Some err => Some (ErrWrap (lit "stop service " ++ name ++ lit " on server "
                                             ++ fmt_q (Server.Name server) ++ lit ": ") err [])
                | None => None
                end)
       end.

Definition cleanupApplication (plan : applicationDeletionPlan) : H (option goerror) :=
  let removeRoute := existsb (fun route => negb (is_pending route)) (routes plan) in
  if negb (hasDeployments plan) && negb removeRoute then Ret None
  else
    let! server := call (QGetServer (Application.ServerID (application plan))) in
    match server with
    | inr err => Ret (Some (ErrWrap (lit "load server for service " ++ fmt_q (Application.Name (application plan)) ++ lit ": ") err []))
    | inl server =>
        let! err := stop_application server plan in
        match err with
        | Some err => Ret (Some err)
        | None => remove_routes server (routes plan)
        end
    end.

Fixpoint delete_routes (routes : list RouteTarget.t) : H (option goerror) :=
  match routes with
  | [] => Ret None
  | route :: t =>
      let! deleted := call (QDeleteProxyRoute (RouteTarget.ID route)) in
      match deleted with inr err => Ret (Some err) | inl _ => delete_routes t end
  end.

Definition deleteApplicationRecords (plan : applicationDeletionPlan) : H (option goerror) :=
  let! err := delete_routes (routes plan) in
  match err with
  | Some err => Ret (Some err)
  | None =>
      let! deleted := call (QDeleteApplication (Application.ID (application plan))) in
      Ret (match deleted with inr err => Some err | inl _ => None end)
  end.

(** The response; the deferred rollback follows it. *)
Definition finish_deletion (r : Request) (app : Application.t) (plan : applicationDeletionPlan) : H unit :=
  let! err := deleteApplicationRecords plan in
  match err with
  | Some err => writeError err
  | None =>
      let! err := call CCommit in
      match err with
      | Some err => writeError err
      | None =>
          let! _ := audit_application r (lit "application.delete") app
            [(lit "environment_id", jstr (uuidString (Application.EnvironmentID app)));
             (lit "server_id", jstr (uuidString (Application.ServerID app)))] in
          call (CWriteHeader StatusNoContent)
      end
  end.

Definition deleteApplication (r : Request) : H unit :=
  match parseUUIDParam r (lit "applicationID") with
  | inr err => writeError err
  | inl applicationID =>
      let! app := call (QGetApplication applicationID) in
      match app with
      | inr err => writeError (applicationLookupError err (lit "application not found"))
      | inl app =>
          let! plan := prepareApplicationDeletion app in
          match plan with
          | inr err => writeError err
          | inl plan =>
              let! err := cleanupApplication plan in
              match err with
              | Some err => writeError err
              | None =>
                  let! err := call CBegin in
                  match err with
                  | Some err => writeError err
                  | None => let! _ := finish_deletion r app plan in call CRollback
                  end
              end
          end
      end
  end.
End Handlers.
