(* ===== verification/HttpBuilds.v ===== *)
(** * internal/httpapi/builds.go: finished builds and their deployments

    A build that reports success is deployed to the application it was started for,
    or else to every application of its repository and branch. *)

From S2P Require Import Prelude GoStrings GoRegexp GoJson GoNet StringUtil AuditLog Db.
From S2P Require Import DbHttp DbApplications RemoteSteps ProxyCommands Effects Runner GoHttp HttpCore.
From S2P Require Import HttpDeployments HttpApplications.

Record completeBuildRunRequest := {
  Status : str; ImageRef : str; ImageDigest : str; ExternalURL : str; ErrorMessage : str }.

Definition zeroComplete : completeBuildRunRequest :=
  {| Status := []; ImageRef := []; ImageDigest := []; ExternalURL := []; ErrorMessage := [] |}.

Section Builds.
Context `{UnicodeTables} `{UuidLib} `{SshLib}.

Definition set_complete_field (key : str) (v : json) (r : completeBuildRunRequest) : result completeBuildRunRequest :=
  let '(Build_completeBuildRunRequest status ref digest url message) := r in
  let named n := field_match n key in
  if named (lit "status") then set_string v r (fun s => Build_completeBuildRunRequest s ref digest url message)
  else if named (lit "image_ref") then set_string v r (fun s => Build_completeBuildRunRequest status s digest url message)
  else if named (lit "image_digest") then set_string v r (fun s => Build_completeBuildRunRequest status ref s url message)
  else if named (lit "external_url") then set_string v r (fun s => Build_completeBuildRunRequest status ref digest s message)
  else if named (lit "error_message") then set_string v r (fun s => Build_completeBuildRunRequest status ref digest url s)
  else inr (unknown_field key).

Definition decode_completeBuildRunRequest (v : json) : result completeBuildRunRequest :=
  unmarshal_struct set_complete_field zeroComplete v.

Definition normalizeCompleteBuildRun (id : pgUUID_t) (request : completeBuildRunRequest) : result CompleteBuildRunParams.t :=
  let status := TrimSpace (Status request) in
  let status := if status =s [] then lit "succeeded" else status in
  if negb (build_ended status) then inr (ErrValidation (lit "build status must be succeeded, failed, or cancelled")) else
  let imageRef := TrimSpace (ImageRef request) in
  let imageDigest := TrimSpace (ImageDigest request) in
  let externalURL := TrimSpace (ExternalURL request) in
  let errorMessage := TrimSpace (ErrorMessage request) in
  if (status =s lit "succeeded") && (imageRef =s [])
  then inr (ErrValidation (lit "image_ref is required when build status is succeeded")) else
  if negb (imageRef =s []) && negb (MatchString imageRefPattern imageRef)
  then inr (ErrValidation (lit "image_ref must be a non-empty image reference without whitespace or control characters")) else
  if negb (imageDigest =s []) && negb (MatchString imageDigestPattern imageDigest)
  then inr (ErrValidation (lit "image_digest must be a sha256 digest")) else
  if negb (externalURL =s []) && (negb (HasPrefix externalURL (lit "https://"))
       || ContainsAny externalURL line_breaks || Contains externalURL (lit "@"))
  then inr (ErrValidation (lit "external_url must be an https URL without credentials or control characters")) else
  if negb (errorMessage =s []) && ((512 <? length errorMessage)%nat || ContainsAny errorMessage line_breaks)
  then inr (ErrValidation (lit "error_message must be 512 characters or fewer without control characters")) else
  inl (CompleteBuildRunParams.mk id status (blankStringAsText imageRef) (blankStringAsText imageDigest)
         (blankStringAsText externalURL) (blankStringAsText errorMessage)).

(** ** Deploying a build *)

Definition buildCompleteApplicationDeploymentInput (app : Application.t) (build : BuildRun.t) : result Params.t :=
  normalizeCreateDeployment (Params.mk (lit "connector_sync") (lit "blue_green") (BuildRun.CommitSha build)
    (BuildRun.ImageRef build) (BuildRun.ImageDigest build)
    (blankStringAsText (lit "build:" ++ uuidString (BuildRun.ID build))) (Application.ID app)).

(** The same for a row of ListApplicationsForBuildComplete. *)
Definition buildCompleteDeploymentInput (app : Application.t) (build : BuildRun.t) : result Params.t :=
  normalizeCreateDeployment (Params.mk (lit "connector_sync") (lit "blue_green") (BuildRun.CommitSha build)
    (BuildRun.ImageRef build) (BuildRun.ImageDigest build)
    (blankStringAsText (lit "build:" ++ uuidString (BuildRun.ID build))) (Application.ID app)).

Definition audit_auto_deploy (r : Request) (build : BuildRun.t) (app : Application.t) (d : Deployment.t)
    (err : option goerror) : H unit :=
  match err with
  | Some _ => audit r (lit "build.auto_deploy_failed") (lit "deployment") (uuidString (Deployment.ID d)) (Application.Name app)
                (Some [(lit "build_id", jstr (uuidString (BuildRun.ID build))); (lit "error", jstr (errorString err))])
  | None => audit r (lit "build.auto_deploy") (lit "deployment") (uuidString (Deployment.ID d)) (Application.Name app)
              (Some [(lit "build_id", jstr (uuidString (BuildRun.ID build)));
                     (lit "image_ref", jstr (String' (BuildRun.ImageRef build)))])
  end.

(** One application: the deployment, if it was created and queued. *)
Definition deploy_build (r : Request) (build : BuildRun.t) (app : Application.t) (input : Params.t) : H (option Deployment.t) :=
  let! deployment := call (QCreateDeployment input) in
  match deployment with
  | inr _ => Ret None
  | inl deployment =>
      let! err := enqueueDeployment deployment in
      let! _ := audit_auto_deploy r build app deployment err in
      Ret (match err with Some _ => None | None => Some deployment end)
  end.

Definition autoDeployApplication (r : Request) (build : BuildRun.t) : H (option (list Deployment.t)) :=
  let! app := call (QGetApplication (BuildRun.ApplicationID build)) in
  match app with
  | inr _ => Ret None
  | inl app =>
      if negb (Application.GithubAutoDeploy app) then Ret None
      else match validateBlueGreenHealthCheck (Application.HealthCheckUrl app) with
           | Some _ => Ret None
           | None =>
               match buildCompleteApplicationDeploymentInput app build with
               | inr _ => Ret None
               | inl input =>
                   let! deployment := deploy_build r build app input in
                   Ret (match deployment with Some d => Some [d] | None => None end)
               end
           end
  end.

(** The loop over the applications of the repository. *)
Fixpoint deploy_each (r : Request) (build : BuildRun.t) (applications : list Application.t) : H (list Deployment.t) :=
  match applications with
  | [] => Ret []
  | app :: t =>
      match buildCompleteDeploymentInput app build, validateBlueGreenHealthCheck (Application.HealthCheckUrl app) with
      | inl input, None =>
          let! deployment := deploy_build r build app input in
          let! rest := deploy_each r build t in
          Ret (match deployment with Some d => d :: rest | None => rest end)
      | _, _ => deploy_each r build t
      end
  end.

(** [None] is the nil slice. *)
Definition autoDeploy (r : Request) (build : BuildRun.t) : H (option (list Deployment.t)) :=
  if negb (BuildRun.Status build =s lit "succeeded") || negb (Valid (BuildRun.ImageRef build))
     || (TrimSpace (String' (BuildRun.ImageRef build)) =s [])
  then Ret None
  else if uuid_valid (BuildRun.ApplicationID build) then autoDeployApplication r build
  else
    let! applications := call (QListApplicationsForBuildComplete (BuildRun.Branch build) (BuildRun.Repository build)) in
    match applications with
    | inr _ => Ret None
    | inl [] => Ret None
    | inl applications => let! deployed := deploy_each r build applications in Ret (Some deployed)
    end.

(** ** Handlers *)

Definition listBuildRuns (r : Request) : H unit :=
  match deploymentHistoryLimit (Query r (lit "limit")) with
  | inr err => writeError err
  | inl limit =>
      let! builds := call (QListBuildRuns limit) in
      match builds with
      | inr err => writeError err
      | inl builds => writeJSON StatusOK (VBuilds builds)
      end
  end.

(** [writeError(w, nil)] answers like an unexpected error. *)
Definition writeError_nil : H unit := writeJSON StatusInternalServerError (VError (lit "internal server error")).

(** No row was changed: the build is unknown, or it has succeeded before. *)
Definition answer_unchanged (buildID : pgUUID_t) : H unit :=
  let! build := call (QGetBuildRun buildID) in
  match build with
  | inr err => if is_no_rows err then writeError (ErrNotFound (lit "build not found")) else writeError err
  | inl build =>
      if BuildRun.Status build =s lit "succeeded"
      then writeJSON StatusOK (VBuildDeployments build (Some []))
      else writeError_nil
  end.

Definition build_metadata (build : BuildRun.t) : list (str * json) :=
  [(lit "provider", jstr (BuildRun.Provider build)); (lit "status", jstr (BuildRun.Status build));
   (lit "branch", jstr (BuildRun.Branch build)); (lit "image_ref", jstr (String' (BuildRun.ImageRef build)))].

Definition completeBuildRun (r : Request) : H unit :=
  match parseUUIDParam r (lit "buildID") with
  | inr err => writeError err
  | inl buildID =>
      match (let? request := readJSON decode_completeBuildRunRequest (Body r) in normalizeCompleteBuildRun buildID request) with
      | inr err => writeError err
      | inl input =>
          let! build := call (QCompleteBuildRun input) in
          match build with
          | inr err => if is_no_rows err then answer_unchanged buildID else writeError err
          | inl build =>
              let! _ := audit r (lit "build.complete") (lit "build") (uuidString (BuildRun.ID build))
                          (BuildRun.Repository build) (Some (build_metadata build)) in
              let! deployments := autoDeploy r build in
              writeJSON StatusOK (VBuildDeployments build deployments)
          end
      end
  end.
End Builds.
