(* ===== verification/HttpVariables.v ===== *)
(** * internal/httpapi: runtime variables

    project_variables.go and application_service_variables.go, with the recognition
    of secrets of credential_inventory_normalize.go: the variables of a project and
    of the services of an application, which are replaced as a whole in one
    transaction that increments the configuration revision when they changed. *)

From S2P Require Import Prelude GoStrings GoRegexp GoJson GoNet StringUtil AuditLog Db.
From S2P Require Import DbHttp DbApplications RemoteSteps ProxyCommands Effects Runner GoHttp Connectors.
From S2P Require Import HttpCore HttpDeployments HttpApplications.

Module Input := projectRuntimeVariableInput.

Definition maxProjectRuntimeVariables : nat := 256.
Definition maxProjectRuntimeVariableKey : nat := 128.
Definition maxProjectRuntimeVariableValue : nat := N.to_nat 8192.
Definition maxProjectRuntimeEnvironmentSize : nat := N.to_nat 65536.
Definition applicationStackRuntimeConfig : str := lit "__stack__".

Record applicationServiceRuntimeConfigRequest := {
  DopplerProject : str; DopplerConfig : str; Variables : list Input.t }.

Definition zeroConfigRequest : applicationServiceRuntimeConfigRequest :=
  {| DopplerProject := []; DopplerConfig := []; Variables := [] |}.

Section Variables.
Context `{UnicodeTables} `{UuidLib} `{SshLib}.

(** ** Decoding *)

Definition set_input_field (strict : bool) (key : str) (v : json) (i : Input.t) : result Input.t :=
  if field_match (lit "key") key then set_string v i (fun s => Input.mk s (Input.Value i))
  else if field_match (lit "value") key then set_string v i (fun s => Input.mk (Input.Key i) s)
  else if strict then inr (unknown_field key) else inl i.

(** [json.Unmarshal] into a slice of variables; the request body allows no other fields. *)
Definition unmarshal_inputs (strict : bool) (v : json) : result (option (list Input.t)) :=
  unmarshal_slice (unmarshal_struct (set_input_field strict) Input.zero) v.

Definition set_variables_field (key : str) (v : json) (variables : option (list Input.t)) : result (option (list Input.t)) :=
  if field_match (lit "variables") key then unmarshal_inputs true v else inr (unknown_field key).

Definition decode_projectRuntimeVariablesRequest (v : json) : result (list Input.t) :=
  let? variables := unmarshal_struct set_variables_field None v in inl (default [] variables).

Definition set_config_request_field (key : str) (v : json) (r : applicationServiceRuntimeConfigRequest)
    : result applicationServiceRuntimeConfigRequest :=
  let '(Build_applicationServiceRuntimeConfigRequest project config variables) := r in
  if field_match (lit "doppler_project") key
  then set_string v r (fun s => Build_applicationServiceRuntimeConfigRequest s config variables)
  else if field_match (lit "doppler_config") key
  then set_string v r (fun s => Build_applicationServiceRuntimeConfigRequest project s variables)
  else if field_match (lit "variables") key
  then let? l := unmarshal_inputs true v in inl (Build_applicationServiceRuntimeConfigRequest project config (default [] l))
  else inr (unknown_field key).

Definition decode_configRequest (v : json) : result applicationServiceRuntimeConfigRequest :=
  unmarshal_struct set_config_request_field zeroConfigRequest v.

(** [json.Marshal] *)
Definition input_json (i : Input.t) : json := JObj [(lit "key", jstr (Input.Key i)); (lit "value", jstr (Input.Value i))].

(** ** Secrets (credential_inventory_normalize.go) *)

Definition looksLikeCredentialJSON (value : str) : bool :=
  if negb (HasPrefix value (lit "{")) then false
  else
    match (let? v := Unmarshal value in unmarshal_any_map (Some v)) with
    | inl (Some fields) =>
        existsb (fun key => existsb (fun p : str * json => p.1 =s key) fields)
          [lit "private_key"; lit "private_key_id"; lit "client_secret"; lit "access_token"; lit "refresh_token"]
    | _ => false
    end.

Definition credentials_url (value : str) : bool :=
  match url_Parse value with
  | Some parsed => negb (Scheme parsed =s []) && negb (Host parsed =s []) && is_some (User parsed)
  | None => false
  end.

Definition looksLikeSecretMaterial (value : str) : bool :=
  let value := TrimSpace value in
  if value =s [] then false else
  let upper := ToUpper value in
  if existsb (fun marker => Contains upper marker)
       [lit "-----BEGIN"; lit "PRIVATE KEY"; lit "BEGIN OPENSSH PRIVATE KEY"; lit "BEGIN RSA PRIVATE KEY"] then true else
  let lower := ToLower value in
  if existsb (fun prefix => HasPrefix lower prefix)
       [lit "ghp_"; lit "github_pat_"; lit "xoxb-"; lit "xoxp-"; lit "sk_live_"; lit "sk_test_"; lit "dp.pt."; lit "aiza"]
  then true else
  if HasPrefix upper (lit "AKIA") || HasPrefix upper (lit "ASIA") then (length value =? 20)%nat else
  if HasPrefix lower (lit "https://hooks.slack.com/services/") then true else
  if HasPrefix lower (lit "bearer ") || HasPrefix lower (lit "basic ") then true else
  if existsb (fun marker => Contains lower marker)
       [lit "password="; lit "passwd="; lit "pwd="; lit "token="; lit "secret="; lit "api_key="; lit "apikey=";
        lit "client_secret="; lit "access_key="] then true else
  if credentials_url value then true else looksLikeCredentialJSON value.

(** ** Validation (project_variables.go) *)

Definition isSecretConfigKey (key : str) : bool := IsSecretKey key.

Definition reservedProjectRuntimeVariable (key : str) : bool :=
  HasPrefix key (lit "DEPLOY_") || (key =s lit "BLUE_DEPLOY_PORT") || (key =s lit "GREEN_DEPLOY_PORT")
  || HasSuffix key (lit "_IMAGE_TAG").

Definition containsControlCharacter (value : str) : bool := existsb is_control (runes value).

(** The characters that [quoteEnvValue] escapes. *)
Definition renderedRuntimeVariableSize (variable : Input.t) : nat :=
  length (Input.Key variable) + length (Input.Value variable) + 4
  + length (List.filter (fun r => (r =? 92) || (r =? 34) || (r =? 36) || (r =? 96))%N (runes (Input.Value variable))).

(** The loop: the normalized variables, the keys seen and the size so far. *)
Fixpoint normalize_variables (variables normalized : list Input.t) (seen : gset str) (size : nat)
    : result (list Input.t * nat) :=
  match variables with
  | [] => inl (normalized, size)
  | variable :: t =>
      let variable := Input.mk (TrimSpace (Input.Key variable)) (Input.Value variable) in
      let key := Input.Key variable in
      if key =s [] then inr (ErrValidation (lit "project runtime variable key is required"))
      else if (maxProjectRuntimeVariableKey <? length key)%nat || negb (ValidRuntimeVariableKey key)
      then inr (ErrValidation (lit "project runtime variable keys must start with a letter or underscore and contain only letters, numbers, and underscores"))
      else if bool_decide (key ∈ seen) then inr (ErrValidation (lit "project runtime variable keys must be unique"))
      else if isSecretConfigKey key
      then inr (ErrValidation (lit "project runtime variables cannot contain secret-like keys; store secrets in Doppler"))
      else if reservedProjectRuntimeVariable key
      then inr (ErrValidation (lit "project runtime variable key is reserved by the deployment runtime"))
      else if (maxProjectRuntimeVariableValue <? length (Input.Value variable))%nat
      then inr (ErrValidation (lit "project runtime variable values cannot exceed 8192 bytes"))
      else if containsControlCharacter (Input.Value variable)
      then inr (ErrValidation (lit "project runtime variable values cannot contain control characters"))
      else if looksLikeSecretMaterial (Input.Value variable)
      then inr (ErrValidation (lit "project runtime variables cannot contain raw secret material; store secrets in Doppler"))
      else normalize_variables t (normalized ++ [variable]) ({[key]} ∪ seen) (size + renderedRuntimeVariableSize variable)
  end.

Definition normalizeProjectRuntimeVariables (variables : list Input.t) : result (list Input.t) :=
  if (maxProjectRuntimeVariables <? length variables)%nat
  then inr (ErrValidation (lit "project runtime variables cannot exceed 256 entries"))
  else
    let? (normalized, environmentSize) := normalize_variables variables [] ∅ 0 in
    if (maxProjectRuntimeEnvironmentSize <? environmentSize)%nat
    then inr (ErrValidation (lit "project runtime variables cannot exceed 65536 bytes when rendered"))
    else inl (merge_sort (by_key Input.Key) normalized).

Definition projectRuntimeVariablesEqual (existing : list ProjectVariable.t) (requested : list Input.t) : bool :=
  (length existing =? length requested)%nat
  && forallb (fun p => (ProjectVariable.Key p.1 =s Input.Key p.2) && (ProjectVariable.Value p.1 =s Input.Value p.2))
       (zip existing requested).

Definition projectRuntimeVariableInputs (variables : list ProjectVariable.t) : list Input.t :=
  map (fun v => Input.mk (ProjectVariable.Key v) (ProjectVariable.Value v)) variables.

(** ** The variables of a project *)

Definition listProjectRuntimeVariables (r : Request) : H unit :=
  match parseUUIDParam r (lit "projectID") with
  | inr err => writeError err
  | inl projectID =>
      let! project := call (QGetProject projectID) in
      match project with
      | inr err => writeError (applicationLookupError err (lit "project not found"))
      | inl project =>
          let! variables := call (QListProjectRuntimeVariables projectID) in
          match variables with
          | inr err => writeError err
          | inl variables =>
              writeJSON StatusOK (VVariables (projectRuntimeVariablesResponse.mk (projectRuntimeVariableInputs variables)
                (ProjectRow.ConfigurationRevision project) false))
          end
      end
  end.

Fixpoint upsert_variables (projectID : pgUUID_t) (variables : list Input.t) : H (option goerror) :=
  match variables with
  | [] => Ret None
  | variable :: t =>
      let! stored := call (QUpsertProjectRuntimeVariable
        (UpsertProjectRuntimeVariableParams.mk projectID (Input.Key variable) (Input.Value variable))) in
      match stored with
      | inr err => Ret (Some err)
      | inl _ => upsert_variables projectID t
      end
  end.

(** Commit, and the result when that succeeds. *)
Definition commit_then {A} (value : A) : H (result A) :=
  let! err := call CCommit in Ret (match err with Some err => inr err | None => inl value end).

Definition store_changed (projectID : pgUUID_t) (project : ProjectRow.t) (variables : list Input.t)
    : H (result (ProjectRow.t * bool)) :=
  let!? _ := call (QDeleteProjectRuntimeVariables projectID) in
  let! err := upsert_variables projectID variables in
  match err return H (result (ProjectRow.t * bool)) with
  | Some err => Ret (inr err)
  | None =>
      let!? revision := call (QIncrementProjectConfigurationRevision projectID) in
      commit_then (set_revision project (ProjectRow.UpdatedAt project) revision, true)
  end.

Definition store_in_transaction (projectID : pgUUID_t) (variables : list Input.t) : H (result (ProjectRow.t * bool)) :=
  let! project := call (QGetProjectForUpdate projectID) in
  match project with
  | inr err => Ret (inr (applicationLookupError err (lit "project not found")))
  | inl project =>
      let!? existing := call (QListProjectRuntimeVariables projectID) in
      if projectRuntimeVariablesEqual existing variables then commit_then (project, false)
      else store_changed projectID project variables
  end.

(** Begin, run, and the deferred rollback, which does nothing after a commit. *)
Definition in_transaction {A} (p : H (result A)) : H (result A) :=
  let! err := call CBegin in
  match err with
  | Some err => Ret (inr err)
  | None => let! res := p in let! _ := call CRollback in Ret res
  end.

Definition storeProjectRuntimeVariables (projectID : pgUUID_t) (variables : list Input.t) : H (result (ProjectRow.t * bool)) :=
  in_transaction (store_in_transaction projectID variables).

Definition audit_variables (r : Request) (project : ProjectRow.t) (variables : list Input.t) : H unit :=
  audit r (lit "project.variables_update") (lit "project") (uuidString (ProjectRow.ID project)) (ProjectRow.Name project)
    (Some [(lit "configuration_revision", JNum (ProjectRow.ConfigurationRevision project));
           (lit "variable_count", JNum (Z.of_nat (length variables)))]).

Definition replaceProjectRuntimeVariables (r : Request) : H unit :=
  match parseUUIDParam r (lit "projectID") with
  | inr err => writeError err
  | inl projectID =>
      match (let? variables := readJSON decode_projectRuntimeVariablesRequest (Body r) in
             normalizeProjectRuntimeVariables variables) with
      | inr err => writeError err
      | inl variables =>
          let! stored := storeProjectRuntimeVariables projectID variables in
          match stored with
          | inr err => writeError err
          | inl (project, changed) =>
              let! _ := if changed : bool then audit_variables r project variables else Ret tt in
              writeJSON StatusOK (VVariables (projectRuntimeVariablesResponse.mk variables
                (ProjectRow.ConfigurationRevision project) changed))
          end
      end
  end.

(** ** The configurations of services (application_service_variables.go) *)

Definition validateDopplerScopeValue (name value : str) : option goerror :=
  if ContainsAny value line_breaks then Some (ErrValidation (name ++ lit " cannot contain control characters")) else None.

Definition normalizeApplicationServiceRuntimeConfig (request : applicationServiceRuntimeConfigRequest)
    : result applicationServiceRuntimeConfigRequest :=
  let project := TrimSpace (DopplerProject request) in
  let config := TrimSpace (DopplerConfig request) in
  if negb (Bool.eqb (project =s []) (config =s []))
  then inr (ErrValidation (lit "doppler project and config must be provided together")) else
  match (if project =s [] then None
         else match validateDopplerScopeValue (lit "doppler project") project with
              | Some err => Some err
              | None => validateDopplerScopeValue (lit "doppler config") config
              end) with
  | Some err => inr err
  | None =>
      let? variables := normalizeProjectRuntimeVariables (Variables request) in
      inl {| DopplerProject := project; DopplerConfig := config; Variables := variables |}
  end.

Definition optionalText (value : str) : pgText := if value =s [] then textNull else someText value.

Definition applicationHasComposeService (application : Application.t) (composeService : str) : bool :=
  if composeService =s [] then false
  else
    match Application.ComposeServices application with
    | None => false
    | Some raw =>
        match unmarshal_services raw with
        | inr _ => false
        | inl services => existsb (fun s => ComposeService.Name s =s composeService) (default [] services)
        end
    end.

(** [None], the nil slice of bytes, is not JSON. *)
Definition decode_variables (raw : bytes) : result (option (list Input.t)) :=
  match raw with None => inr (ErrText "unexpected end of JSON input") | Some raw => unmarshal_inputs false raw end.

Definition runtimeVariableInputsEqual (left' right' : list Input.t) : bool := bool_decide (left' = right').

Definition serviceRuntimeConfigMatches (existing : ServiceConfig.t) (request : applicationServiceRuntimeConfigRequest) : bool :=
  (String' (ServiceConfig.DopplerProject existing) =s DopplerProject request)
  && (String' (ServiceConfig.DopplerConfig existing) =s DopplerConfig request)
  && match decode_variables (ServiceConfig.Variables existing) with
     | inl variables => runtimeVariableInputsEqual (default [] variables) (Variables request)
     | inr _ => false
     end.

Definition serviceRuntimeConfigResponse (config : ServiceConfig.t) (revision : Z) (changed : bool)
    : result ServiceConfigResponse.t :=
  let? variables := decode_variables (ServiceConfig.Variables config) in
  inl (ServiceConfigResponse.mk (ServiceConfig.ComposeService config) (String' (ServiceConfig.DopplerProject config))
         (String' (ServiceConfig.DopplerConfig config)) variables revision changed).

Definition emptyConfigResponse (composeService : str) (application : Application.t) : ServiceConfigResponse.t :=
  ServiceConfigResponse.mk composeService [] [] (Some []) (Application.ConfigurationRevision application) false.

Fixpoint config_responses (revision : Z) (configs : list ServiceConfig.t) : result (list ServiceConfigResponse.t) :=
  match configs with
  | [] => inl []
  | config :: t =>
      let? item := serviceRuntimeConfigResponse config revision false in
      let? rest := config_responses revision t in inl (item :: rest)
  end.

Definition listApplicationServiceRuntimeConfigs (r : Request) : H unit :=
  match parseUUIDParam r (lit "applicationID") with
  | inr err => writeError err
  | inl applicationID =>
      let! application := call (QGetApplication applicationID) in
      match application with
      | inr err => writeError (applicationLookupError err (lit "service not found"))
      | inl application =>
          let! configs := call (QListServiceConfigs applicationID) in
          match (let? configs := configs in config_responses (Application.ConfigurationRevision application) configs) with
          | inr err => writeError err
          | inl response => writeJSON StatusOK (VServiceConfigs response)
          end
      end
  end.

Definition is_empty (request : applicationServiceRuntimeConfigRequest) : bool :=
  (DopplerProject request =s []) && bool_decide (Variables request = []).

(** The row that was stored; [None] when it was deleted. *)
Definition write_config (applicationID : pgUUID_t) (composeService : str) (request : applicationServiceRuntimeConfigRequest)
    : H (result (option ServiceConfig.t)) :=
  if is_empty request then
    let!? _ := call (QDeleteServiceConfig applicationID composeService) in Ret (inl None)
  else
    let!? stored := call (QUpsertServiceConfig (UpsertConfigParams.mk applicationID composeService
      (optionalText (DopplerProject request)) (optionalText (DopplerConfig request))
      (Some (JArr (map input_json (Variables request)))))) in
    Ret (inl (Some stored)).

Definition change_config (application : Application.t) (applicationID : pgUUID_t) (composeService : str)
    (request : applicationServiceRuntimeConfigRequest) : H (result (ServiceConfigResponse.t * bool)) :=
  let!? stored := write_config applicationID composeService request in
  let!? _ := call (QBumpApplicationConfigurationRevision applicationID) in
  let application := bumped (Application.UpdatedAt application) application in
  let!? _ := commit_then tt in
  Ret (match stored with
       | None => inl (emptyConfigResponse composeService application, true)
       | Some stored =>
           let? response := serviceRuntimeConfigResponse stored (Application.ConfigurationRevision application) true in
           inl (response, true)
       end).

Definition config_in_transaction (applicationID : pgUUID_t) (composeService : str)
    (request : applicationServiceRuntimeConfigRequest) : H (result (ServiceConfigResponse.t * bool)) :=
  let! application := call (QGetApplicationForUpdate applicationID) in
  match application with
  | inr err => Ret (inr (applicationLookupError err (lit "service not found")))
  | inl application =>
      if negb (composeService =s applicationStackRuntimeConfig) && negb (applicationHasComposeService application composeService)
      then Ret (inr (ErrValidation (lit "compose service was not found in the scanned stack")))
      else
        let! existing := call (QGetServiceConfig applicationID composeService) in
        match existing with
        | inr err =>
            if negb (is_no_rows err) then Ret (inr err)
            else if is_empty request then commit_then (emptyConfigResponse composeService application, false)
            else change_config application applicationID composeService request
        | inl existing =>
            if serviceRuntimeConfigMatches existing request then
              let!? _ := commit_then tt in
              Ret (let? response := serviceRuntimeConfigResponse existing (Application.ConfigurationRevision application) false in
                   inl (response, false))
            else change_config application applicationID composeService request
        end
  end.

(** [s.tx] is configured in main.go. *)
Definition storeApplicationServiceRuntimeConfig (applicationID : pgUUID_t) (composeService : str)
    (request : applicationServiceRuntimeConfigRequest) : H (result (ServiceConfigResponse.t * bool)) :=
  in_transaction (config_in_transaction applicationID composeService request).

Definition with_changed (c : ServiceConfigResponse.t) (changed : bool) : ServiceConfigResponse.t :=
  ServiceConfigResponse.mk (ServiceConfigResponse.ComposeService c) (ServiceConfigResponse.DopplerProject c)
    (ServiceConfigResponse.DopplerConfig c) (ServiceConfigResponse.Variables c)
    (ServiceConfigResponse.ConfigurationRevision c) changed.

Definition audit_config (r : Request) (applicationID : pgUUID_t) (composeService : str)
    (request : applicationServiceRuntimeConfigRequest) (response : ServiceConfigResponse.t) : H unit :=
  audit r (lit "application.service_variables_update") (lit "application") (uuidString applicationID) composeService
    (Some [(lit "compose_service", jstr composeService);
           (lit "doppler_scoped", JBool (negb (DopplerProject request =s [])));
           (lit "variable_count", JNum (Z.of_nat (length (Variables request))));
           (lit "configuration_revision", JNum (ServiceConfigResponse.ConfigurationRevision response))]).

Definition replaceApplicationServiceRuntimeConfig (r : Request) : H unit :=
  match parseUUIDParam r (lit "applicationID") with
  | inr err => writeError err
  | inl applicationID =>
      let composeService := TrimSpace (URLParam r (lit "composeService")) in
      match (let? request := readJSON decode_configRequest (Body r) in normalizeApplicationServiceRuntimeConfig request) with
      | inr err => writeError err
      | inl request =>
          let! stored := storeApplicationServiceRuntimeConfig applicationID composeService request in
          match stored with
          | inr err => writeError err
          | inl (response, changed) =>
              let response := with_changed response changed in
              let! _ := if changed : bool then audit_config r applicationID composeService request response else Ret tt in
              writeJSON StatusOK (VServiceConfig response)
          end
      end
  end.
End Variables.
