(* ===== verification/HttpServers.v ===== *)
(** * internal/httpapi: servers and commands on them

    servers.go and server_commands.go: the validation of a new server with the
    checks it takes from dockerx and sshutil, its registration, and the commands
    that the terminal sends. *)

From S2P Require Import Prelude GoStrings GoStringsFacts GoRegexp GoJson GoNet StringUtil AuditLog.
From S2P Require Import Db DbHttp DbApplications DbServers RemoteSteps Effects Runner GoHttp.
From S2P Require Import HttpCore HttpDeployments HttpApplications.

Definition tailscale_ssh : str := lit "tailscale_ssh".
Definition ConnectionModeTailscaleSSH : str := tailscale_ssh.

Definition hasControlCharacters (values : list str) : bool := existsb (fun value => ContainsAny value line_breaks) values.

(** ** internal/dockerx: hosts *)

(** [net.JoinHostPort] *)
Definition JoinHostPort (host port : str) : str :=
  if ContainsByte host ":"%char then lit "[" ++ host ++ lit "]:" ++ port else host ++ lit ":" ++ port.

Definition SSHHost (user host : str) (port : Z) : str :=
  let port := if (port =? 0)%Z then 22%Z else port in
  lit "ssh://" ++ user ++ lit "@" ++ JoinHostPort host (fmt_d port).

Definition hasInvalidSpace (value : str) : bool := existsb is_space (runes value).
Definition hasInvalidSSHUserPart (user : str) : bool :=
  ContainsAny user (lit "@/:") || hasInvalidSpace user || HasControlCharacter user.
Definition hasInvalidSSHHostPart (host : str) : bool :=
  Contains host (lit "://") || ContainsAny host (lit "@/") || hasInvalidSpace host || HasControlCharacter host.

Definition BuildSSHHost (user host : str) (port : Z) : result str :=
  let user := TrimSpace user in
  let host := TrimSpace host in
  let port := if (port =? 0)%Z then 22%Z else port in
  if user =s [] then inr (ErrText (lit "ssh user is required"))
  else if host =s [] then inr (ErrText (lit "ssh host is required"))
  else if hasInvalidSSHUserPart user then inr (ErrText (lit "ssh user contains invalid characters"))
  else if hasInvalidSSHHostPart host then inr (ErrText (lit "ssh host contains invalid characters"))
  else if (port <? 1)%Z || (65535 <? port)%Z then inr (ErrText (lit "ssh port must be between 1 and 65535"))
  else inl (SSHHost user host port).

Section Servers.
Context `{UnicodeTables}.

(** ** internal/sshutil: hosts of a tailnet *)

(** [100.64.0.0/10] and [fd7a:115c:a1e0::/48]; an address with a zone is in no prefix. *)
Definition tailnet_address (a : netaddr) : bool :=
  match a with
  | Addr4 a => (nth 0 a 0 =? 100)%N && (N.land (nth 1 a 0) 192 =? 64)%N
  | Addr6 g zone => (zone =s []) && bool_decide (take 3 g = [64890; 4444; 41440]%N)
  end.

Definition safeDNSName (host : str) : bool :=
  negb (Contains host (lit ".."))
  && forallb (fun char => is_lower_ascii char || is_digit char || class (lit ".-") char) (runes host).

Definition ValidateTailscaleHost (host : str) : option goerror :=
  let host := Trim (ToLower (TrimSpace host)) (lit "[]") in
  let refused := Some (ErrText (lit "tailscale ssh host must be a tailnet IP or MagicDNS name")) in
  if host =s [] then Some (ErrText (lit "tailscale ssh host is required"))
  else match ParseAddr host with
       | Some addr => if tailnet_address addr then None else refused
       | None => if HasSuffix host (lit ".ts.net") && safeDNSName host then None else refused
       end.

(** ** Validation *)

Definition validateSSHHostname (hostname : str) : option goerror :=
  let hostname := Trim (ToLower (TrimSpace hostname)) (lit "[]") in
  if hostname =s lit "metadata.google.internal"
  then Some (ErrValidation (lit "ssh hostname cannot target cloud metadata services"))
  else match ParseAddr hostname with
       | Some addr =>
           if bool_decide (addr = Addr4 [169; 254; 169; 254]%N) || IsLinkLocalUnicast addr || IsLinkLocalMulticast addr
           then Some (ErrValidation (lit "ssh hostname cannot target link-local addresses")) else None
       | None => None
       end.

Definition validConnectionMode (mode : str) : bool := (mode =s lit "direct_ssh") || (mode =s tailscale_ssh).
Definition validProxyType (proxyType : str) : bool :=
  (proxyType =s lit "caddy") || (proxyType =s lit "traefik") || (proxyType =s lit "none").

Definition validateSSHKeyPath (value : str) : option goerror :=
  if negb (HasPrefix value (lit "/")) && negb (HasPrefix value (lit "~/"))
  then Some (ErrValidation (lit "ssh_key_path must be absolute or home-relative"))
  else if negb (HasPrefix value (lit "~/.ssh/")) && negb (Contains value (lit "/.ssh/"))
  then Some (ErrValidation (lit "ssh_key_path must be inside an .ssh directory"))
  else if Contains value (lit "//") then Some (ErrValidation (lit "ssh_key_path cannot contain empty path segments"))
  else if existsb (fun segment => segment =s lit "..") (SplitByte slash value)
  then Some (ErrValidation (lit "ssh_key_path cannot contain parent directory segments"))
  else None.

Definition validateServerSSHKeyPath (mode value : str) (valid : bool) : option goerror :=
  if mode =s tailscale_ssh then None
  else if negb valid then Some (ErrValidation (lit "ssh_key_path is required for direct_ssh"))
  else validateSSHKeyPath value.

Definition or_default_text (value default : str) : str := if value =s [] then default else value.

Definition normalizeCreateServer (input : CreateServerParams.t) : result CreateServerParams.t :=
  let '(CreateServerParams.mk name host user port key mode proxy) := input in
  let name := TrimSpace name in
  let host := TrimSpace host in
  let user := or_default_text (TrimSpace user) (lit "root") in
  let port := if (port =? 0)%Z then 22%Z else port in
  let mode := or_default_text (TrimSpace mode) (lit "direct_ssh") in
  let proxy := or_default_text (TrimSpace proxy) (lit "caddy") in
  let key := blankTextAsNull (PgText (TrimSpace (String' key)) (Valid key)) in
  let key := if mode =s tailscale_ssh then textNull else key in
  if (name =s []) || (host =s []) then inr (ErrValidation (lit "name and hostname are required"))
  else if hasControlCharacters [name; host; user; String' key; mode]
  then inr (ErrValidation (lit "server identity fields cannot contain control characters"))
  else if negb (validConnectionMode mode)
  then inr (ErrValidation (lit "connection_mode must be direct_ssh or tailscale_ssh"))
  else or_invalid (validateServerSSHKeyPath mode (String' key) (Valid key)) (
  or_invalid (validateSSHHostname host) (
  or_invalid (if mode =s tailscale_ssh then ValidateTailscaleHost host else None) (
  if (port <? 1)%Z || (65535 <? port)%Z then inr (ErrValidation (lit "ssh_port must be between 1 and 65535"))
  else match BuildSSHHost user host port with
  | inr err => inr (ErrValidation (Error err))
  | inl _ =>
      if negb (validProxyType proxy) then inr (ErrValidation (lit "proxy_type must be caddy, traefik, or none"))
      else inl (CreateServerParams.mk name host user port key mode proxy)
  end))).

(** ** Decoding *)

Context `{PgJson}.

Definition zeroServer : CreateServerParams.t := CreateServerParams.mk [] [] [] 0 textNull [] [].

(** An int32 that is out of range is an error. *)
Definition set_int32 {S} (v : json) (s : S) (k : Z -> S) : result S :=
  match v with
  | JNum z => if (-2147483648 <=? z)%Z && (z <=? 2147483647)%Z then inl (k z) else inr unmarshal_error
  | JNull => inl s
  | _ => inr unmarshal_error
  end.

Definition set_server_field (key : str) (v : json) (p : CreateServerParams.t) : result CreateServerParams.t :=
  let '(CreateServerParams.mk name host user port path mode proxy) := p in
  let named n := field_match n key in
  if named (lit "name") then set_string v p (fun s => CreateServerParams.mk s host user port path mode proxy)
  else if named (lit "hostname") then set_string v p (fun s => CreateServerParams.mk name s user port path mode proxy)
  else if named (lit "ssh_user") then set_string v p (fun s => CreateServerParams.mk name host s port path mode proxy)
  else if named (lit "ssh_port") then set_int32 v p (fun z => CreateServerParams.mk name host user z path mode proxy)
  else if named (lit "ssh_key_path") then
    let? t := text_UnmarshalJSON v in inl (CreateServerParams.mk name host user port t mode proxy)
  else if named (lit "connection_mode") then set_string v p (fun s => CreateServerParams.mk name host user port path s proxy)
  else if named (lit "proxy_type") then set_string v p (fun s => CreateServerParams.mk name host user port path mode s)
  else inr (unknown_field key).

Definition decode_CreateServerParams (v : json) : result CreateServerParams.t :=
  unmarshal_struct set_server_field zeroServer v.

(** ** Handlers *)

Context `{UuidLib} `{SshLib}.

Definition listServers (r : Request) : H unit :=
  let! servers := call QListServers in
  match servers with
  | inr err => writeError err
  | inl servers => writeJSON StatusOK (VServers servers)
  end.

Definition serverCreateAuditMetadata (hostname mode proxyType : str) (sshKeyPath : pgText) : list (str * json) :=
  [(lit "hostname", jstr hostname); (lit "connection_mode", jstr mode); (lit "proxy_type", jstr proxyType);
   (lit "ssh_inventory_tracked", JBool (Valid sshKeyPath))].

Definition createServer (r : Request) : H unit :=
  match (let? input := readJSON decode_CreateServerParams (Body r) in normalizeCreateServer input) with
  | inr err => writeError err
  | inl input =>
      let! server := call (QCreateServerWithSSHInventory input) in
      match server with
      | inr err => writeError err
      | inl server =>
          let! _ := audit r (lit "server.create") (lit "server") (uuidString (Server.ID server)) (Server.Name server)
            (Some (serverCreateAuditMetadata (Server.Hostname server) (Server.ConnectionMode server) (Server.ProxyType server)
                     (Server.SshKeyPath server))) in
          writeJSON StatusCreated (VServer server)
      end
  end.

(** ** Clients (server_client.go and server_commands.go)

    A server of the tailnet is reached through the tailscale command, or locally
    when it is the host of the API server; another one with the key on its path. *)

Definition ServerClient (server : Server.t) : H (result Client) :=
  if Server.ConnectionMode server =s tailscale_ssh then
    let! local := call (QShared (CIsLocalTailscaleHost (Server.Hostname server))) in
    Ret (inl (if local : bool then NewLocalDockerHostClient (Server.SshUser server)
              else NewTailscaleSSHClient (Server.Hostname server) (Server.SshPort server) (Server.SshUser server)))
  else
    let! signer := call (QShared (CSigner (Server.Hostname server) (Server.SshPort server) (Server.SshUser server)
      (String' (Server.SshKeyPath server)))) in
    Ret (match signer with
         | inr err => inr err
         | inl signer => inl (NewClient (Server.Hostname server) (Server.SshPort server) (Server.SshUser server) signer)
         end).

(** [sshRemoteCommandRunner.Run]: how the call [CRemote] is implemented in the program. *)
Definition sshRemoteCommandRunner_Run (server : Server.t) (command : str) : H (str * option goerror) :=
  let! client := ServerClient server in
  match client with
  | inr err => Ret ([], Some err)
  | inl client => call (QShared (CRun client command))
  end.

(** ** Commands (server_commands.go) *)

Definition maxServerCommandLength : nat := N.to_nat 1000.

Definition serverLookupError (err : goerror) : goerror :=
  if is_no_rows err then ErrNotFound (lit "server not found") else err.

Definition normalizeServerCommand (command : str) : result str :=
  let command := TrimSpace command in
  if command =s [] then inr (ErrValidation (lit "command is required"))
  else if (maxServerCommandLength <? length command)%nat
  then inr (ErrValidation (lit "command must be 1000 characters or fewer"))
  else if existsb is_control (runes command) then inr (ErrValidation (lit "command cannot contain control characters"))
  else inl command.

Definition decode_serverCommandRequest (v : json) : result str :=
  unmarshal_struct (fun key v s =>
    if field_match (lit "command") key then set_string v s (fun x => x) else inr (unknown_field key)) [] v.

Definition serverCommandAuditMetadata (output : str) (err : option goerror) : list (str * json) :=
  [(lit "success", JBool (negb (is_some err))); (lit "error", jstr (errorString err));
   (lit "output_bytes", JNum (Z.of_nat (length output)))].

Definition runServerCommand (r : Request) : H unit :=
  match parseUUIDParam r (lit "serverID") with
  | inr err => writeError err
  | inl serverID =>
      match (let? command := readJSON decode_serverCommandRequest (Body r) in normalizeServerCommand command) with
      | inr err => writeError err
      | inl command =>
          let! server := call (QGetServer serverID) in
          match server with
          | inr err => writeError (serverLookupError err)
          | inl server =>
              if negb (Server.ConnectionMode server =s tailscale_ssh)
                 && (negb (Valid (Server.SshKeyPath server)) || (TrimSpace (String' (Server.SshKeyPath server)) =s []))
              then writeError (ErrValidation (lit "server ssh_key_path is required for terminal access"))
              else
                let! (output, runErr) := call (CRemote server command) in
                let! _ := audit r (lit "server.command") (lit "server") (uuidString (Server.ID server)) (Server.Name server)
                  (Some (serverCommandAuditMetadata output runErr)) in
                writeJSON StatusOK (VCommand output (errorString runErr))
          end
      end
  end.
End Servers.
