(* ===== verification/HttpCredentials.v ===== *)
(** * internal/httpapi: the inventory of credentials

    credential_inventory.go, credential_inventory_normalize.go,
    credential_inventory_store.go and credentials.go: what is known about the
    credentials of the other systems, which is normalized, merged by reference and
    stored in one transaction.  A credentialInventoryItem has the fields of a
    [CredentialInventory.t], and its permissions and usages those of the connectors. *)

From S2P Require Import Prelude GoStrings GoStringsFacts GoRegexp GoJson GoNet StringUtil AuditLog.
From S2P Require Import Db DbHttp DbApplications DbServers DbInventory RemoteSteps Effects Runner.
From S2P Require Import GoHttp GithubConnector Connectors HttpCore HttpDeployments HttpApplications HttpVariables HttpServers.

Module Item := CredentialInventory.
Module Permission := CredentialPermission.
Module Usage := CredentialUsage.

(** The order in which Go ranges over a map is not specified: any order of its entries. *)
Class MapOrder := {
  map_range {A} : gmap str A -> list (str * A);
  map_range_perm {A} (m : gmap str A) : map_range m ≡ₚ map_to_list m }.

Definition allowedCredentialProviders : list str :=
  [lit "github"; lit "doppler"; lit "s3"; lit "gcs"; lit "slack"; lit "resend"; lit "ssh"].
Definition allowedConnectorProviders : list str :=
  [lit "github"; lit "doppler"; lit "s3"; lit "gcs"; lit "slack"; lit "resend"].
Definition maxCredentialInventoryBatchSize : nat := 500.
Definition nul : str := byte 0.

Section Credentials.
Context `{UnicodeTables} `{UuidLib} `{SshLib} `{MapOrder}.

(** ** Normalization *)

(** The loop over permissions or usages: each is trimmed and checked, the first of
    every key is kept. *)
Fixpoint first_of_each {A} (prepare : A -> result A) (key : A -> str) (values : list A) (seen : gset str) : result (list A) :=
  match values with
  | [] => inl []
  | value :: t =>
      let? value := prepare value in
      if bool_decide (key value ∈ seen) then first_of_each prepare key t seen
      else let? rest := first_of_each prepare key t ({[key value]} ∪ seen) in inl (value :: rest)
  end.

Definition prepare_permission (value : Permission.t) : result Permission.t :=
  let '(Permission.mk type name permission source) := value in
  let type := TrimSpace type in
  let name := TrimSpace name in
  let permission := TrimSpace permission in
  let source := or_default (TrimSpace source) (lit "connector") in
  if (type =s []) || (name =s []) || (permission =s [])
  then inr (ErrValidation (lit "permission resource_type, resource_name, and permission are required"))
  else if hasControlCharacters [type; name; permission; source]
  then inr (ErrValidation (lit "permission fields cannot contain control characters"))
  else inl (Permission.mk type name permission source).

Definition permission_key (p : Permission.t) : str :=
  Join [Permission.ResourceType p; Permission.ResourceName p; Permission.Permission p] nul.
Definition normalizeCredentialPermissions (values : list Permission.t) : result (list Permission.t) :=
  first_of_each prepare_permission permission_key values ∅.

Definition prepare_usage (value : Usage.t) : result Usage.t :=
  let '(Usage.mk type name context) := value in
  let type := TrimSpace type in
  let name := TrimSpace name in
  let context := TrimSpace context in
  if (type =s []) || (name =s []) || (context =s [])
  then inr (ErrValidation (lit "usage used_by_type, used_by_name, and usage_context are required"))
  else if hasControlCharacters [type; name; context]
  then inr (ErrValidation (lit "usage fields cannot contain control characters"))
  else inl (Usage.mk type name context).

Definition usage_key (u : Usage.t) : str := Join [Usage.UsedByType u; Usage.UsedByName u; Usage.UsageContext u] nul.
Definition normalizeCredentialUsages (values : list Usage.t) : result (list Usage.t) :=
  first_of_each prepare_usage usage_key values ∅.

Definition validCredentialStatus (status : str) : bool := snd (NormalizeCredentialStatus status).

Definition normalizeCredentialInventoryItem (item : Item.t) : result Item.t :=
  let '(Item.mk name provider ref type status permissions usages) := item in
  let name := TrimSpace name in
  let provider := ToLower (TrimSpace provider) in
  let ref := TrimSpace ref in
  let type := TrimSpace type in
  let status := or_default (TrimSpace status) (lit "active") in
  if negb (validCredentialStatus status)
  then inr (ErrValidation (lit "credential status must be active, rotating, revoked, or unknown"))
  else if (name =s []) || (provider =s []) || (ref =s []) || (type =s [])
  then inr (ErrValidation (lit "name, provider, external_ref, and credential_type are required"))
  else if hasControlCharacters [name; ref; type]
  then inr (ErrValidation (lit "credential identity fields cannot contain control characters"))
  else if looksLikeSecretMaterial ref
  then inr (ErrValidation (lit "credential external_ref must be a reference, not a secret value"))
  else if negb (existsb (str_eqb provider) allowedCredentialProviders)
  then inr (ErrValidation (lit "credential provider must be github, doppler, s3, gcs, slack, resend, or ssh"))
  else
    let? permissions := normalizeCredentialPermissions permissions in
    let? usages := normalizeCredentialUsages usages in
    inl (Item.mk name provider ref type status permissions usages).

(** ** Merging *)

Definition credentialStatusPriority (status : str) : Z :=
  if status =s lit "revoked" then 4 else if status =s lit "rotating" then 3 else if status =s lit "unknown" then 2
  else if status =s lit "active" then 1 else 0.
Definition mergedCredentialStatus (left right : str) : str :=
  if (credentialStatusPriority left <? credentialStatusPriority right)%Z then right else left.

Definition credentialInventoryKey (item : Item.t) : str := Join [Item.Provider item; Item.ExternalRef item] nul.

(** The error of the second result is dropped, which leaves the nil slice. *)
Definition or_nil {A} (r : result (list A)) : list A := match r with inl l => l | inr _ => [] end.

Definition merge_item (existing item : Item.t) : Item.t :=
  Item.mk (Item.Name existing) (Item.Provider existing) (Item.ExternalRef existing) (Item.Kind existing)
    (mergedCredentialStatus (Item.Status existing) (Item.Status item))
    (or_nil (normalizeCredentialPermissions (Item.Permissions existing ++ Item.Permissions item)))
    (or_nil (normalizeCredentialUsages (Item.Usages existing ++ Item.Usages item))).

(** One turn: the merged items and the index of every key. *)
Definition merge_step (state : list Item.t * gmap str nat) (item : Item.t) : list Item.t * gmap str nat :=
  let '(merged, indexByRef) := state in
  let key := credentialInventoryKey item in
  match indexByRef !! key with
  | None => (merged ++ [item], <[key := length merged]> indexByRef)
  | Some index => (alter (fun existing => merge_item existing item) index merged, indexByRef)
  end.
Definition mergeCredentialInventoryItems (items : list Item.t) : list Item.t := (fold_left merge_step items ([], ∅)).1.

Fixpoint normalize_items (items : list Item.t) : result (list Item.t) :=
  match items with
  | [] => inl []
  | item :: t => let? item := normalizeCredentialInventoryItem item in let? rest := normalize_items t in inl (item :: rest)
  end.

Definition normalizeCredentialInventoryInput (credentials : list Item.t) : result (list Item.t) :=
  match credentials with
  | [] => inr (ErrValidation (lit "credentials are required"))
  | _ =>
      if (maxCredentialInventoryBatchSize <? length credentials)%nat
      then inr (ErrValidation (lit "credential inventory batch cannot exceed 500 credentials"))
      else let? normalized := normalize_items credentials in inl (mergeCredentialInventoryItems normalized)
  end.

(** The buckets are normalized one by one, before the next one is looked at. *)
Definition bucket_item (b : BucketInventory.t) : result Item.t :=
  match ToCredentialInventory b with
  | inr err => inr (ErrValidation (Error err))
  | inl inventory => normalizeCredentialInventoryItem inventory
  end.
Fixpoint bucket_items (buckets : list BucketInventory.t) : result (list Item.t) :=
  match buckets with
  | [] => inl []
  | b :: t => let? item := bucket_item b in let? rest := bucket_items t in inl (item :: rest)
  end.

Definition credentialInventoryFromObjectStorage (buckets : list BucketInventory.t) : result (list Item.t) :=
  if (maxCredentialInventoryBatchSize <? length buckets)%nat
  then inr (ErrValidation (lit "object storage inventory batch cannot exceed 500 buckets"))
  else let? credentials := bucket_items buckets in inl (mergeCredentialInventoryItems credentials).

Definition credentialInventoryFromConnector (values : list Item.t) : result (list Item.t) :=
  if (maxCredentialInventoryBatchSize <? length values)%nat
  then inr (ErrValidation (lit "connector inventory batch cannot exceed 500 credentials"))
  else let? credentials := normalize_items values in inl (mergeCredentialInventoryItems credentials).

(** ** Storing *)

Definition upsertCredentialPermission (id : pgUUID_t) (p : Permission.t) : H (result unit) :=
  let!? _ := call (QUpsertCredentialPermission (UpsertCredentialPermissionParams.mk id (Permission.ResourceType p)
                     (Permission.ResourceName p) (Permission.Permission p) (Permission.Source p))) in Ret (inl tt).
Definition upsertCredentialUsage (id : pgUUID_t) (u : Usage.t) : H (result unit) :=
  let!? _ := call (QUpsertCredentialUsage (UpsertCredentialUsageParams.mk id (Usage.UsedByType u) (Usage.UsedByName u)
                     (Usage.UsageContext u))) in Ret (inl tt).

Fixpoint each_until_error {A} (f : A -> H (result unit)) (l : list A) : H (result unit) :=
  match l with [] => Ret (inl tt) | x :: t => let!? _ := f x in each_until_error f t end.

Definition upsertCredentialInventoryItem (item : Item.t) : H (result Credential.t) :=
  let!? credential := call (QUpsertCredential (UpsertCredentialParams.mk (Item.Name item) (Item.Provider item)
                             (Item.ExternalRef item) (Item.Kind item) (Item.Status item))) in
  let!? _ := call (QDeleteCredentialPermissions (Credential.ID credential)) in
  let!? _ := call (QDeleteCredentialUsages (Credential.ID credential)) in
  let!? _ := each_until_error (upsertCredentialPermission (Credential.ID credential)) (Item.Permissions item) in
  let!? _ := each_until_error (upsertCredentialUsage (Credential.ID credential)) (Item.Usages item) in
  Ret (inl credential).

Fixpoint upsert_items (items : list Item.t) : H (result (list Credential.t)) :=
  match items with
  | [] => Ret (inl [])
  | item :: t =>
      let!? credential := upsertCredentialInventoryItem item in
      let!? rest := upsert_items t in
      Ret (inl (credential :: rest))
  end.

(** The method: the batch in one transaction.  The providers of the second result
    are those of the credentials. *)
Definition upsertCredentialInventoryBatch (items : list Item.t) : H (result (list Credential.t)) :=
  in_transaction (let!? credentials := upsert_items items in commit_then credentials).

Definition inventoryProviderCounts (providers : list str) : gmap str Z :=
  fold_left (fun counts provider =>
    let provider := ToLower (TrimSpace provider) in
    if provider =s [] then counts else <[provider := (default 0 (counts !! provider) + 1)%Z]> counts) providers ∅.

Definition imported (count : Z) : str := lit "Imported " ++ fmt_d count ++ lit " credential records".

Fixpoint mark_synced (counts : list (str * Z)) (syncName : str) : H unit :=
  match counts with
  | [] => Ret tt
  | (provider, count) :: t =>
      if negb (existsb (str_eqb provider) allowedConnectorProviders) then mark_synced t syncName
      else
        let! _ := call (QMarkConnectorSync (MarkConnectorSyncParams.mk provider syncName (blankStringAsText (lit "ok"))
                          (blankStringAsText (imported count)))) in
        mark_synced t syncName
  end.
Definition markInventoryConnectorsSynced (providerCounts : gmap str Z) (syncName : str) : H unit :=
  mark_synced (map_range providerCounts) syncName.

(** ** Decoding *)

Definition set_permission_field (key : str) (v : json) (p : Permission.t) : result Permission.t :=
  let '(Permission.mk type name permission source) := p in
  let named n := field_match n key in
  if named (lit "resource_type") then set_string v p (fun s => Permission.mk s name permission source)
  else if named (lit "resource_name") then set_string v p (fun s => Permission.mk type s permission source)
  else if named (lit "permission") then set_string v p (fun s => Permission.mk type name s source)
  else if named (lit "source") then set_string v p (fun s => Permission.mk type name permission s)
  else inr (unknown_field key).

Definition set_item_field (key : str) (v : json) (i : Item.t) : result Item.t :=
  let '(Item.mk name provider ref type status permissions usages) := i in
  let named n := field_match n key in
  if named (lit "name") then set_string v i (fun s => Item.mk s provider ref type status permissions usages)
  else if named (lit "provider") then set_string v i (fun s => Item.mk name s ref type status permissions usages)
  else if named (lit "external_ref") then set_string v i (fun s => Item.mk name provider s type status permissions usages)
  else if named (lit "credential_type") then set_string v i (fun s => Item.mk name provider ref s status permissions usages)
  else if named (lit "status") then set_string v i (fun s => Item.mk name provider ref type s permissions usages)
  else if named (lit "permissions") then
    let? l := unmarshal_slice (unmarshal_struct set_permission_field (Permission.mk [] [] [] [])) v in
    inl (Item.mk name provider ref type status (default [] l) usages)
  else if named (lit "usages") then
    let? l := unmarshal_slice (decode_usage true) v in
    inl (Item.mk name provider ref type status permissions (default [] l))
  else inr (unknown_field key).

Definition decode_credentials (v : json) : result (list Item.t) :=
  unmarshal_struct (fun key v l =>
    if field_match (lit "credentials") key
    then let? l := unmarshal_slice (unmarshal_struct set_item_field (Item.mk [] [] [] [] [] [] [])) v in inl (default [] l)
    else inr (unknown_field key)) [] v.

(** ** Handlers *)

Definition count_metadata (l : list Credential.t) : option (list (str * json)) :=
  Some [(lit "count", JNum (Z.of_nat (length l)))].

(** From the normalized credentials on; the audit event follows the answer. *)
Definition store_inventory (r : Request) (action name : str) (credentials : list Item.t) : H unit :=
  let! upserted := upsertCredentialInventoryBatch credentials in
  match upserted with
  | inr err => writeError err
  | inl upserted =>
      let! _ := markInventoryConnectorsSynced (inventoryProviderCounts (map Credential.Provider upserted)) name in
      let! _ := writeJSON StatusAccepted (VInventory upserted) in
      audit r action (lit "credential") (lit "batch") name (count_metadata upserted)
  end.

Definition upsertCredentialInventory (r : Request) : H unit :=
  match (let? input := readJSON decode_credentials (Body r) in normalizeCredentialInventoryInput input) with
  | inr err => writeError err
  | inl credentials => store_inventory r (lit "credentials.inventory_sync") (lit "credential inventory") credentials
  end.

Definition upsertObjectStorageInventory (r : Request) : H unit :=
  match (let? buckets := readJSON (decode_buckets true) (Body r) in
         match buckets with
         | [] => inr (ErrValidation (lit "buckets are required"))
         | _ => credentialInventoryFromObjectStorage buckets
         end) with
  | inr err => writeError err
  | inl credentials => store_inventory r (lit "object_storage.inventory_sync") (lit "object storage inventory") credentials
  end.

Definition listCredentials (r : Request) : H unit :=
  let! credentials := call QListCredentials in
  match credentials with
  | inr err => writeError err
  | inl credentials => writeJSON StatusOK (VCredentials credentials)
  end.

Definition credentialDetail (r : Request) : H unit :=
  match parseUUIDParam r (lit "credentialID") with
  | inr err => writeError err
  | inl credentialID =>
      let! credential := call (QGetCredentialWithCounts credentialID) in
      match credential with
      | inr err => writeError (applicationLookupError err (lit "credential not found"))
      | inl credential =>
          let! detail := (let!? permissions := call (QListCredentialPermissions credentialID) in
                          let!? usages := call (QListCredentialUsages credentialID) in
                          Ret (inl (permissions, usages))) in
          match detail with
          | inr err => writeError err
          | inl (permissions, usages) => writeJSON StatusOK (VCredentialDetail credential permissions usages)
          end
      end
  end.
End Credentials.
