(* ===== verification/HttpConnectors.v ===== *)
(** * internal/httpapi: connectors, registries and their status

    connectors.go, connector_validation.go, connector_sync.go, github_status.go,
    doppler_status.go and registries.go: what a connector may be configured with,
    what of its configuration is shown, and the import of the credentials it
    reports.  The sources of the server are an argument of the synchronisation;
    those of cmd/server/main.go are [connector_sources]. *)

From S2P Require Import Prelude GoStrings GoStringsFacts GoRegexp GoJson GoFloat GoNet StringUtil.
From S2P Require Import AuditLog Db DbHttp DbApplications DbServers DbInventory RemoteSteps Effects.
From S2P Require Import Runner GoHttp GithubConnector Connectors HttpCore HttpDeployments HttpApplications HttpBuilds.
From S2P Require Import HttpVariables HttpServers HttpCredentials.

(** The settings that the status pages report on. *)
Record StatusConfig := {
  AppConfigured : bool; Secret : str; AppSlug : str; DopplerToken : str; DopplerCommand : str; DopplerRegistered : bool }.

Section Connectors.
Context `{UnicodeTables} `{UuidLib} `{SshLib} `{MapOrder}.

(** ** Configurations (connector_validation.go) *)

Fixpoint hasSecretConfigKey (value : json) : bool :=
  match value with
  | JObj l => existsb (fun p => isSecretConfigKey p.1 || hasSecretConfigKey p.2) l
  | JArr l => existsb hasSecretConfigKey l
  | _ => false
  end.

Fixpoint hasSecretConfigValue (value : json) : bool :=
  match value with
  | JObj l => existsb (fun p => hasSecretConfigValue p.2) l
  | JArr l => existsb hasSecretConfigValue l
  | JStr s => looksLikeSecretMaterial s
  | _ => false
  end.

Fixpoint pruneConnectorValue (value : json) : option json :=
  match value with
  | JNull => None
  | JStr s => let trimmed := TrimSpace s in if trimmed =s [] then None else Some (JStr trimmed)
  | JObj l =>
      match omap (fun p => pair p.1 <$> pruneConnectorValue p.2) l with [] => None | pruned => Some (JObj pruned) end
  | JArr l => match omap pruneConnectorValue l with [] => None | pruned => Some (JArr pruned) end
  | _ => Some value
  end.
Definition pruneConnectorConfig (l : list (str * json)) : list (str * json) :=
  omap (fun p => pair p.1 <$> pruneConnectorValue p.2) l.

Definition not_an_object : goerror := ErrValidation (lit "connector config must be a JSON object").

(** The value that is stored; its text is [json_Marshal] of it. *)
Definition normalizeConnectorConfig (raw : bytes) : result json :=
  match raw with
  | None => inl (JObj [])
  | Some _ =>
      match unmarshal_any_map raw with
      | inl (Some config) =>
          if hasSecretConfigKey (JObj config)
          then inr (ErrValidation (lit "connector config cannot contain secret values; use environment variables or source systems"))
          else if hasSecretConfigValue (JObj config)
          then inr (ErrValidation (lit "connector config cannot contain raw secret material; use environment variables or source systems"))
          else inl (sort_keys (JObj (pruneConnectorConfig config)))
      | _ => inr not_an_object
      end
  end.

Definition doppler_scope (v : json) : result (str * str) :=
  unmarshal_struct (fun key v c =>
    if field_match (lit "project") key then set_string v c (fun s => (s, c.2))
    else if field_match (lit "config") key then set_string v c (fun s => (c.1, s)) else inl c) ([], []) v.

Definition validateConnectorConfig (provider : str) (config : json) : option goerror :=
  if provider =s lit "github" then
    match ParseConfig (Some config) with
    | inr err => Some (ErrValidation (lit "github connector config " ++ Error err))
    | inl cfg =>
        if (Config.InstallationID cfg =s []) && match Config.Repositories cfg with [] => true | _ => false end
        then Some (ErrValidation (lit "github connector config requires installation_id or repositories")) else None
    end
  else if provider =s lit "doppler" then
    match doppler_scope config with
    | inr _ => Some (ErrValidation (lit "doppler connector config must be a JSON object"))
    | inl (project, config) =>
        if (TrimSpace project =s []) || (TrimSpace config =s [])
        then Some (ErrValidation (lit "doppler connector config requires project and config")) else None
    end
  else None.

Definition normalizeConnectorAccount (input : UpsertConnectorAccountParams.t) : result UpsertConnectorAccountParams.t :=
  let '(UpsertConnectorAccountParams.mk provider name enabled config) := input in
  let provider := ToLower (TrimSpace provider) in
  let name := TrimSpace name in
  if (provider =s []) || (name =s []) then inr (ErrValidation (lit "provider and name are required"))
  else if hasControlCharacters [name] then inr (ErrValidation (lit "connector name cannot contain control characters"))
  else if negb (existsb (str_eqb provider) allowedConnectorProviders)
  then inr (ErrValidation (lit "unsupported connector provider"))
  else
    let? config := normalizeConnectorConfig config in
    match validateConnectorConfig provider config with
    | Some err => inr err
    | None => inl (UpsertConnectorAccountParams.mk provider name enabled (Some config))
    end.

(** ** What is shown (connectors.go) *)

Fixpoint publicConnectorConfigValue (value : json) : option json :=
  match value with
  | JObj l =>
      match omap (fun p => if isSecretConfigKey p.1 then None else pair p.1 <$> publicConnectorConfigValue p.2) l with
      | [] => None | public => Some (JObj public) end
  | JArr l => match omap publicConnectorConfigValue l with [] => None | public => Some (JArr public) end
  | JStr s => if looksLikeSecretMaterial s then None else Some value
  | JNull => None
  | _ => Some value
  end.
Definition publicConnectorConfigMap (config : list (str * json)) : list (str * json) :=
  omap (fun p => if isSecretConfigKey p.1 then None else pair p.1 <$> publicConnectorConfigValue p.2) config.

Definition publicConnectorConfig (raw : bytes) : list (str * json) :=
  match unmarshal_any_map raw with
  | inl (Some config) => publicConnectorConfigMap config
  | _ => []
  end.

Definition connectorResponse (account : ConnectorAccount.t) : ConnectorResponse.t :=
  let config := publicConnectorConfig (ConnectorAccount.Config account) in
  ConnectorResponse.mk (ConnectorAccount.ID account) (ConnectorAccount.Provider account) (ConnectorAccount.Name account)
    (ConnectorAccount.Enabled account) (match config with [] => false | _ => true end) config
    (ConnectorAccount.LastSyncStatus account) (ConnectorAccount.LastSyncMessage account)
    (ConnectorAccount.LastSyncedAt account) (ConnectorAccount.CreatedAt account) (ConnectorAccount.UpdatedAt account).

Definition connectorResponses (accounts : list ConnectorAccount.t) : list ConnectorResponse.t := map connectorResponse accounts.

Definition listConnectors (r : Request) : H unit :=
  let! accounts := call QListConnectorAccounts in
  match accounts with
  | inr err => writeError err
  | inl accounts => writeJSON StatusOK (VConnectors (connectorResponses accounts))
  end.

Definition set_upsert_field (key : str) (v : json) (p : UpsertConnectorAccountParams.t) : result UpsertConnectorAccountParams.t :=
  let '(UpsertConnectorAccountParams.mk provider name enabled config) := p in
  let named n := field_match n key in
  if named (lit "provider") then set_string v p (fun s => UpsertConnectorAccountParams.mk s name enabled config)
  else if named (lit "name") then set_string v p (fun s => UpsertConnectorAccountParams.mk provider s enabled config)
  else if named (lit "enabled") then set_bool v p (fun b => UpsertConnectorAccountParams.mk provider name b config)
  else if named (lit "config") then inl (UpsertConnectorAccountParams.mk provider name enabled (Some v))
  else inr (unknown_field key).
Definition decode_upsertConnectorRequest (v : json) : result UpsertConnectorAccountParams.t :=
  unmarshal_struct set_upsert_field (UpsertConnectorAccountParams.mk [] [] false None) v.

Definition upsertConnector (r : Request) : H unit :=
  match (let? request := readJSON decode_upsertConnectorRequest (Body r) in normalizeConnectorAccount request) with
  | inr err => writeError err
  | inl input =>
      let! connector := call (QUpsertConnectorAccount input) in
      match connector with
      | inr err => writeError err
      | inl connector =>
          let! _ := audit r (lit "connector.upsert") (lit "connector") (uuidString (ConnectorAccount.ID connector))
            (ConnectorAccount.Name connector)
            (Some [(lit "provider", jstr (ConnectorAccount.Provider connector));
                   (lit "enabled", JBool (ConnectorAccount.Enabled connector))]) in
          writeJSON StatusOK (VConnector (connectorResponse connector))
      end
  end.

(** ** Synchronisation (connector_sync.go) *)

Definition connectorSyncMessage (message : str) : str :=
  let message := StringField message in
  if message =s [] then lit "connector sync status updated" else message.

Definition markConnectorSync (account : ConnectorAccount.t) (status message : str) : H (result ConnectorAccount.t) :=
  call (QMarkConnectorSync (MarkConnectorSyncParams.mk (ConnectorAccount.Provider account) (ConnectorAccount.Name account)
          (blankStringAsText status) (blankStringAsText (connectorSyncMessage message)))).

Definition connectorSyncFailureMetadata (account : ConnectorAccount.t) (message : str) : list (str * json) :=
  [(lit "provider", jstr (ConnectorAccount.Provider account)); (lit "error", jstr (connectorSyncMessage message))].

Definition writeConnectorSyncFailure (r : Request) (account : ConnectorAccount.t) (message : str) : H unit :=
  let message := connectorSyncMessage message in
  let! connector := markConnectorSync account (lit "failed") message in
  match connector with
  | inr err => writeError err
  | inl connector =>
      let! _ := audit r (lit "connector.sync_failed") (lit "connector") (uuidString (ConnectorAccount.ID account))
        (ConnectorAccount.Name account) (Some (connectorSyncFailureMetadata account message)) in
      writeJSON StatusAccepted (VConnectorSync connector 0)
  end.

Definition ConnectorSources := str -> option (str -> bytes -> result (list Item.t)).

(** From the enabled account on. *)
Definition sync_account (sources : ConnectorSources) (r : Request) (account : ConnectorAccount.t) : H unit :=
  match sources (ConnectorAccount.Provider account) with
  | None => writeConnectorSyncFailure r account (lit "sync implementation unavailable")
  | Some SyncCredentials =>
      match SyncCredentials (ConnectorAccount.Name account) (ConnectorAccount.Config account) with
      | inr err => writeConnectorSyncFailure r account (lit "sync connector: " ++ errorString (Some err))
      | inl inventory =>
          match credentialInventoryFromConnector inventory with
          | inr err => writeConnectorSyncFailure r account (errorString (Some err))
          | inl credentials =>
              let! upserted := upsertCredentialInventoryBatch credentials in
              match upserted with
              | inr err => writeConnectorSyncFailure r account (errorString (Some err))
              | inl _ =>
                  let count := Z.of_nat (length credentials) in
                  let! connector := markConnectorSync account (lit "ok") (imported count) in
                  match connector with
                  | inr err => writeError err
                  | inl connector =>
                      let! _ := audit r (lit "connector.sync") (lit "connector") (uuidString (ConnectorAccount.ID connector))
                        (ConnectorAccount.Name connector)
                        (Some [(lit "provider", jstr (ConnectorAccount.Provider connector)); (lit "count", JNum count)]) in
                      writeJSON StatusAccepted (VConnectorSync connector count)
                  end
              end
          end
      end
  end.

Definition syncConnector (sources : ConnectorSources) (r : Request) : H unit :=
  match parseUUIDParam r (lit "connectorID") with
  | inr err => writeError err
  | inl connectorID =>
      let! account := call (QGetConnectorAccount connectorID) in
      match account with
      | inr err => writeError (applicationLookupError err (lit "connector not found"))
      | inl account =>
          if negb (ConnectorAccount.Enabled account) then writeError (ErrValidation (lit "connector is disabled"))
          else sync_account sources r account
      end
  end.

(** ** Status (github_status.go, doppler_status.go) *)

Definition githubInstallURL (slug : str) : str :=
  let slug := Trim (TrimSpace slug) (lit "/") in
  if (slug =s []) || ContainsAny slug (line_breaks ++ lit " ") then []
  else lit "https://github.com/apps/" ++ slug ++ lit "/installations/new".

Definition githubStatus (cfg : StatusConfig) (r : Request) : H unit :=
  let appConfigured := AppConfigured cfg in
  let installURL := githubInstallURL (AppSlug cfg) in
  let missing := (if installURL =s [] then [jstr (lit "GITHUB_APP_SLUG")] else [])
    ++ (if appConfigured then []
        else [jstr (lit "GITHUB_APP_ID and GITHUB_APP_PRIVATE_KEY or GITHUB_APP_PRIVATE_KEY_PATH")]) in
  writeJSON StatusOK (VObject
    [(lit "webhook_configured", JBool (negb (Secret cfg =s []))); (lit "app_configured", JBool appConfigured);
     (lit "repository_sync_enabled", JBool appConfigured); (lit "build_dispatch_enabled", JBool appConfigured);
     (lit "install_url", jstr installURL); (lit "missing", JArr missing)]).

(** internal/doppler: the command exists and the token is set. *)
Definition Connector_Check (cfg : StatusConfig) : H (option goerror) :=
  let path := commandPath (DopplerCommand cfg) in
  let! err := call (CLookPath path) in
  match err with
  | Some err => Ret (Some (ErrText (lit "find doppler CLI " ++ fmt_q path ++ lit ": " ++ Error err)))
  | None => Ret (if TrimSpace (DopplerToken cfg) =s [] then Some (ErrText (lit "DOPPLER_TOKEN is required")) else None)
  end.

Definition doppler_response (configured available ready : bool) (missing : list str) (message : str) : response_value :=
  VObject [(lit "connector_configured", JBool configured); (lit "cli_available", JBool available); (lit "ready", JBool ready);
           (lit "missing", JArr (map jstr missing)); (lit "message", jstr message)].

Definition dopplerStatus (cfg : StatusConfig) (r : Request) : H unit :=
  if negb (DopplerRegistered cfg)
  then writeJSON StatusOK (doppler_response false false false [lit "Doppler runtime connector"]
         (lit "Doppler runtime connector is not registered."))
  else
    let! err := Connector_Check cfg in
    match err with
    | Some err =>
        if Contains (Error err) (lit "DOPPLER_TOKEN")
        then writeJSON StatusOK (doppler_response true true false [lit "DOPPLER_TOKEN"] (Error err))
        else writeJSON StatusOK (doppler_response true false false [lit "Doppler CLI"] (Error err))
    | None => writeJSON StatusOK (doppler_response true true true [] (lit "Doppler CLI is available on the Deploy Manager server."))
    end.

Definition ListProjects (command : str) : H (result (list str)) :=
  let! output := call (CDoppler (projects_args command)) in
  Ret (let? output := wrap_err (lit "list Doppler projects: ") output in
       listed_names (lit "id") (lit "projects") output).

Definition ListConfigs (command project : str) : H (result (list str)) :=
  let project := TrimSpace project in
  if project =s [] then Ret (inr (ErrText "Doppler project is required"))
  else
    let! output := call (CDoppler (configs_args command project)) in
    Ret (let? output := wrap_err (lit "list Doppler configs: ") output in
         listed_names (lit "name") (lit "configs") output).

Definition doppler_missing : goerror := ErrNotFound (lit "Doppler connector is not configured").

Definition dopplerProjects (cfg : StatusConfig) (r : Request) : H unit :=
  if negb (DopplerRegistered cfg) then writeError doppler_missing
  else
    let! projects := ListProjects (DopplerCommand cfg) in
    match projects with inr err => writeError err | inl projects => writeJSON StatusOK (VStrings projects) end.

Definition dopplerConfigs (cfg : StatusConfig) (r : Request) : H unit :=
  let project := TrimSpace (Query r (lit "project")) in
  if project =s [] then writeError (ErrValidation (lit "Doppler project is required"))
  else match validateDopplerScopeValue (lit "Doppler project") project with
  | Some err => writeError err
  | None =>
      if negb (DopplerRegistered cfg) then writeError doppler_missing
      else
        let! configs := ListConfigs (DopplerCommand cfg) project in
        match configs with inr err => writeError err | inl configs => writeJSON StatusOK (VStrings configs) end
  end.

(** ** Container registries (registries.go) *)

Definition validContainerRegistryProvider (provider : str) : bool :=
  existsb (str_eqb provider) [lit "gcp_artifact_registry"; lit "docker_hub"; lit "ghcr"; lit "ecr"; lit "custom"].
Definition invalidImagePathPart (value : str) : bool :=
  ContainsAny value (lit " " ++ line_breaks) || Contains value (lit "//").

Definition trim_registry (input : UpsertContainerRegistryParams.t) : UpsertContainerRegistryParams.t :=
  let '(UpsertContainerRegistryParams.mk name provider host namespace repository image enabled) := input in
  UpsertContainerRegistryParams.mk (TrimSpace name) (TrimSpace provider) (TrimSpace host) (Trim (TrimSpace namespace) (lit "/"))
    (Trim (TrimSpace repository) (lit "/")) (Trim (TrimSpace image) (lit "/")) enabled.

(** The first field with a line break in the order the map is ranged over. *)
Definition registry_control (input : UpsertContainerRegistryParams.t) : option goerror :=
  let '(UpsertContainerRegistryParams.mk name _ host namespace repository image _) := input in
  match List.find (fun p => ContainsAny p.2 line_breaks)
          (map_range (list_to_map [(lit "name", name); (lit "registry_host", host); (lit "namespace", namespace);
                                   (lit "repository", repository); (lit "default_image", image)] : gmap str str)) with
  | Some (field, _) => Some (ErrValidation (field ++ lit " cannot contain control characters"))
  | None => None
  end.

Definition normalizeContainerRegistry (input : UpsertContainerRegistryParams.t) : result UpsertContainerRegistryParams.t :=
  let input := trim_registry input in
  let '(UpsertContainerRegistryParams.mk name provider host namespace repository image enabled) := input in
  if (name =s []) || (host =s []) || (repository =s [])
  then inr (ErrValidation (lit "name, registry_host, and repository are required"))
  else if negb (validContainerRegistryProvider provider)
  then inr (ErrValidation (lit "provider must be gcp_artifact_registry, docker_hub, ghcr, ecr, or custom"))
  else match registry_control input with
  | Some err => inr err
  | None =>
      if ContainsAny host (lit "/: ")
      then inr (ErrValidation (lit "registry_host must be a hostname without scheme or path"))
      else if invalidImagePathPart namespace || invalidImagePathPart repository || invalidImagePathPart image
      then inr (ErrValidation (lit "namespace, repository, and default_image cannot contain whitespace or empty path segments"))
      else inl input
  end.

Definition set_registry_field (key : str) (v : json) (p : UpsertContainerRegistryParams.t) : result UpsertContainerRegistryParams.t :=
  let '(UpsertContainerRegistryParams.mk name provider host namespace repository image enabled) := p in
  let named n := field_match n key in
  if named (lit "name") then set_string v p (fun s => UpsertContainerRegistryParams.mk s provider host namespace repository image enabled)
  else if named (lit "provider") then set_string v p (fun s => UpsertContainerRegistryParams.mk name s host namespace repository image enabled)
  else if named (lit "registry_host") then set_string v p (fun s => UpsertContainerRegistryParams.mk name provider s namespace repository image enabled)
  else if named (lit "namespace") then set_string v p (fun s => UpsertContainerRegistryParams.mk name provider host s repository image enabled)
  else if named (lit "repository") then set_string v p (fun s => UpsertContainerRegistryParams.mk name provider host namespace s image enabled)
  else if named (lit "default_image") then set_string v p (fun s => UpsertContainerRegistryParams.mk name provider host namespace repository s enabled)
  else if named (lit "enabled") then set_bool v p (fun b => UpsertContainerRegistryParams.mk name provider host namespace repository image b)
  else inr (unknown_field key).
Definition decode_UpsertContainerRegistryParams (v : json) : result UpsertContainerRegistryParams.t :=
  unmarshal_struct set_registry_field (UpsertContainerRegistryParams.mk [] [] [] [] [] [] false) v.

Definition listContainerRegistries (r : Request) : H unit :=
  let! registries := call QListContainerRegistries in
  match registries with
  | inr err => writeError err
  | inl registries => writeJSON StatusOK (VRegistries registries)
  end.

Definition upsertContainerRegistry (r : Request) : H unit :=
  match (let? input := readJSON decode_UpsertContainerRegistryParams (Body r) in normalizeContainerRegistry input) with
  | inr err => writeError err
  | inl input =>
      let! registry := call (QUpsertContainerRegistry input) in
      match registry with
      | inr err => writeError err
      | inl registry =>
          let! _ := audit r (lit "container_registry.upsert") (lit "container_registry") (uuidString (ContainerRegistry.ID registry))
            (ContainerRegistry.Name registry)
            (Some [(lit "provider", jstr (ContainerRegistry.Provider registry));
                   (lit "host", jstr (ContainerRegistry.RegistryHost registry));
                   (lit "enabled", JBool (ContainerRegistry.Enabled registry))]) in
          writeJSON StatusOK (VRegistry registry)
      end
  end.
End Connectors.
