(* ===== verification/HttpGuardFacts.v ===== *)
(** * The rate limiter, the replay cache and the sessions keep their promises

    A window admits at most its limit; the cache is the set of the last deliveries that
    fits its capacity; a session is a token that was presented.  The last part holds the
    lemmas on runs of handlers that the other files share. *)

From S2P Require Import Prelude GoStrings GoStringsFacts GoRegexp GoJson GoNet StringUtil AuditLog.
From S2P Require Import Db RemoteSteps ProxyCommands Effects Runner GoHttp HttpCore HttpGuard.

(** ** Rate limit *)

Section Rate.
Variables (maxRequests window : Z).

(** The decisions for a sequence of requests, each with its key and its time. *)
Fixpoint rate_run (l : list (str * Z)) (clients : gmap str rateWindow) : list (str * Z * bool) :=
  match l with
  | [] => []
  | (key, now) :: t =>
      let '(allowed, clients') := rate_step maxRequests window key now clients in
      (key, now, allowed) :: rate_run t clients'
  end.

(** The requests of [key] at times from [a] up to [b] that were admitted. *)
Definition admitted (key : str) (a b : Z) (ds : list (str * Z * bool)) : list (str * Z * bool) :=
  List.filter (fun '(k, now, allowed) => (k =s key) && ((a <=? now)%Z && (now <? b)%Z && allowed)) ds.

(** One client on its own. *)
Fixpoint entry_run (times : list Z) (current : rateWindow) : list (Z * bool) :=
  match times with
  | [] => []
  | now :: t =>
      let '(allowed, current') := rate_entry maxRequests window current now in
      (now, allowed) :: entry_run t current'
  end.

Definition times_of (key : str) (l : list (str * Z)) : list Z :=
  map snd (List.filter (fun p => p.1 =s key) l).

(** What happens to one client does not depend on the others. *)
Lemma rate_run_entry key l clients :
  map (fun '(_, now, allowed) => (now, allowed)) (List.filter (fun '(k, _, _) => k =s key) (rate_run l clients))
  = entry_run (times_of key l) (default zeroWindow (clients !! key)).
Proof.
  revert clients. induction l as [|[k now] t IH]; intros clients; [done|].
  unfold times_of. cbn [rate_run List.filter fst]. unfold rate_step.
  destruct (rate_entry maxRequests window (default zeroWindow (clients !! k)) now) as [allowed current] eqn:Ee.
  cbn [List.filter]. destruct (k =s key) eqn:Ek; bool_simp.
  - subst k. cbn [map entry_run snd]. rewrite Ee. f_equal. rewrite IH. by rewrite lookup_insert_eq.
  - rewrite IH. by rewrite lookup_insert_ne.
Qed.

Definition in_window (t : Z) (p : Z * bool) : bool := ((t <=? p.1)%Z && (p.1 <? t + window)%Z && p.2).

Lemma admitted_entry key t l clients :
  length (admitted key t (t + window) (rate_run l clients))
  = length (List.filter (in_window t) (entry_run (times_of key l) (default zeroWindow (clients !! key)))).
Proof.
  rewrite <- rate_run_entry. unfold admitted. induction (rate_run l clients) as [|[[k now] a] ds IH]; [done|].
  cbn [List.filter]. destruct (k =s key); cbn [andb map List.filter]; [|exact IH].
  unfold in_window at 1. cbn [fst snd]. destruct (_ && _ && a); cbn [length]; [by rewrite IH|exact IH].
Qed.

Context (Hwindow : (0 < window <= maxInt64)%Z) (Hmax : (0 <= maxRequests)%Z).

Lemma Sub_window now s : (window <=? Sub now s)%Z = (window <=? now - s)%Z.
Proof.
  unfold Sub, minInt64, maxInt64 in *. apply Bool.eq_iff_eq_true. rewrite !Z.leb_le. lia.
Qed.

Lemma wrap64_small z : (0 <= z < 9223372036854775808)%Z -> wrap64 z = z.
Proof. intros Hz. unfold wrap64. rewrite Z.mod_small; lia. Qed.

(** A window of [start s] that has counted [c] requests, with [n] requests still
    to come: the counter does not overflow. *)
Definition entry_ok (cur : rateWindow) (n : nat) : Prop :=
  (0 <= count cur)%Z /\ (count cur + Z.of_nat n < 9223372036854775808)%Z.

Lemma entry_step cur now n allowed cur' :
  entry_ok cur (S n) -> rate_entry maxRequests window cur now = (allowed, cur') ->
  entry_ok cur' n
  /\ allowed = (count cur' <=? maxRequests)%Z
  /\ (((window <= now - start cur)%Z /\ start cur' = now /\ count cur' = 1%Z)
      \/ ((now - start cur < window)%Z /\ start cur' = start cur /\ count cur' = (count cur + 1)%Z)).
Proof.
  intros [Hc Hn] He. unfold rate_entry in He. rewrite Sub_window in He.
  destruct (window <=? now - start cur)%Z eqn:Ew; injection He as <- <-; cbn [start count].
  - apply Z.leb_le in Ew. rewrite wrap64_small by lia. repeat split; cbn [count]; try lia.
  - apply Z.leb_gt in Ew. rewrite wrap64_small by lia. repeat split; cbn [count]; try lia.
Qed.

(** Requests before [t] are not counted, those from [t + window] on neither. *)
Lemma filter_late t times cur :
  Forall (fun x => (t + window <= x)%Z) times -> List.filter (in_window t) (entry_run times cur) = [].
Proof.
  revert cur. induction times as [|now times IH]; intros cur Hl; [done|].
  apply Forall_cons in Hl as [Hx Hl]. cbn [entry_run].
  destruct (rate_entry maxRequests window cur now) as [allowed cur']. cbn [List.filter].
  unfold in_window at 1. cbn [fst snd]. replace (now <? t + window)%Z with false by lia.
  rewrite andb_false_r. cbn [andb]. by apply IH.
Qed.

Abbreviation counted t times cur := (Z.of_nat (length (List.filter (in_window t) (entry_run times cur)))).

Lemma counted_cons t now times cur allowed cur' :
  rate_entry maxRequests window cur now = (allowed, cur') ->
  counted t (now :: times) cur
  = ((if (t <=? now)%Z && (now <? t + window)%Z && allowed then 1 else 0) + counted t times cur')%Z.
Proof.
  intros He. cbn [entry_run]. rewrite He. cbn [List.filter]. unfold in_window at 1. cbn [fst snd].
  destruct (_ && _ && allowed); cbn [length]; lia.
Qed.

(** The window of the client started within the one that is observed. *)
Lemma counted_inside t times cur :
  Sorted Z.le times -> Forall (fun x => (start cur <= x)%Z) times -> (t <= start cur)%Z ->
  entry_ok cur (length times) ->
  (counted t times cur <= Z.max 0 (maxRequests - count cur))%Z.
Proof.
  intros Hs Hall Ht Hok. apply Sorted_StronglySorted in Hs; [|apply _].
  revert cur Hall Ht Hok. induction Hs as [|now times Hs IH Hle]; intros cur Hall Ht Hok; [cbn; lia|].
  apply Forall_cons in Hall as [Hnow Hall].
  destruct (rate_entry maxRequests window cur now) as [allowed cur'] eqn:Ee.
  destruct (entry_step _ _ _ _ _ Hok Ee) as (Hok' & -> & [(Hw & Hs' & Hc')|(Hw & Hs' & Hc')]).
  - rewrite (counted_cons _ _ _ _ _ _ Ee). replace (now <? t + window)%Z with false by lia.
    rewrite andb_false_r. cbn [andb]. rewrite filter_late; [cbn; lia|].
    eapply Forall_impl; [exact Hle|]. intros x Hx. cbn in Hx. lia.
  - rewrite (counted_cons _ _ _ _ _ _ Ee).
    assert (Hall' : Forall (fun x => (start cur' <= x)%Z) times) by (rewrite Hs'; exact Hall).
    specialize (IH cur' Hall' ltac:(lia) Hok'). destruct (count cur' <=? maxRequests)%Z eqn:Ea.
    + apply Z.leb_le in Ea. destruct ((t <=? now)%Z && (now <? t + window)%Z); cbn [andb]; lia.
    + apply Z.leb_gt in Ea. rewrite andb_false_r. lia.
Qed.

(** It started before, and only requests from [t] on are still to come. *)
Lemma counted_after t times cur :
  Sorted Z.le times -> Forall (fun x => (t <= x)%Z) times -> (start cur < t)%Z ->
  entry_ok cur (length times) ->
  (counted t times cur <= Z.max 0 (maxRequests - count cur) + maxRequests)%Z.
Proof.
  intros Hs Hall Ht Hok. revert cur Ht Hok.
  induction times as [|now times IH]; intros cur Ht Hok; [cbn; lia|].
  apply Forall_cons in Hall as [Hnow Hall].
  destruct (rate_entry maxRequests window cur now) as [allowed cur'] eqn:Ee.
  destruct (entry_step _ _ _ _ _ Hok Ee) as (Hok' & -> & [(Hw & Hs' & Hc')|(Hw & Hs' & Hc')]);
    rewrite (counted_cons _ _ _ _ _ _ Ee).
  - assert (Hin : (counted t times cur' <= Z.max 0 (maxRequests - count cur'))%Z).
    { apply counted_inside; [by apply Sorted_inv in Hs as [? ?]| |lia|done].
      rewrite Hs'. apply Sorted_StronglySorted in Hs; [|apply _]. by inversion Hs. }
    rewrite Hc' in *. destruct (1 <=? maxRequests)%Z eqn:Ea.
    + apply Z.leb_le in Ea. destruct ((t <=? now)%Z && (now <? t + window)%Z); cbn [andb]; lia.
    + apply Z.leb_gt in Ea. rewrite andb_false_r. lia.
  - apply Sorted_inv in Hs as [Hs _]. specialize (IH Hs Hall cur' ltac:(lia) Hok').
    destruct (count cur' <=? maxRequests)%Z eqn:Ea.
    + apply Z.leb_le in Ea. destruct ((t <=? now)%Z && (now <? t + window)%Z); cbn [andb]; lia.
    + apply Z.leb_gt in Ea. rewrite andb_false_r. lia.
Qed.

Lemma counted_any t times cur :
  Sorted Z.le times -> Forall (fun x => (start cur <= x)%Z) times -> entry_ok cur (length times) ->
  (counted t times cur <= 2 * maxRequests)%Z.
Proof.
  intros Hs Hall Hok. revert cur Hall Hok.
  induction times as [|now times IH]; intros cur Hall Hok; [cbn; lia|].
  pose proof Hok as [Hc _].
  destruct (Z_lt_le_dec (start cur) t) as [Ht|Ht].
  2:{ pose proof (counted_inside t _ _ Hs Hall Ht Hok). lia. }
  destruct (Z_lt_le_dec now t) as [Hnow|Hnow].
  - destruct (rate_entry maxRequests window cur now) as [allowed cur'] eqn:Ee.
    destruct (entry_step _ _ _ _ _ Hok Ee) as (Hok' & -> & Hcase).
    rewrite (counted_cons _ _ _ _ _ _ Ee). replace (t <=? now)%Z with false by lia. cbn [andb].
    pose proof (Sorted_StronglySorted _ _ Hs) as Hss. apply Sorted_inv in Hs as [Hs _].
    rewrite Z.add_0_l. apply IH; [done| |done].
    apply Forall_cons in Hall as [Hx Hall]. apply StronglySorted_inv in Hss as [_ Hle].
    destruct Hcase as [(_ & -> & _)|(_ & -> & _)]; [exact Hle|exact Hall].
  - assert (Hge : Forall (fun x => (t <= x)%Z) (now :: times)).
    { apply Sorted_StronglySorted in Hs; [|apply _]. apply StronglySorted_inv in Hs as [_ Hle].
      constructor; [done|]. eapply Forall_impl; [exact Hle|]. cbn. lia. }
    pose proof (counted_after t _ _ Hs Hge Ht Hok). lia.
Qed.

(** The counter is at most the number of earlier requests [h] of the client since
    the window started. *)
Definition since (a : Z) (h : list Z) : Z := Z.of_nat (length (List.filter (fun x => a <=? x)%Z h)).
Definition counts_past (cur : rateWindow) (h : list Z) : Prop := (count cur <= since (start cur) h)%Z.

Lemma since_app a h1 h2 : since a (h1 ++ h2) = (since a h1 + since a h2)%Z.
Proof. unfold since. rewrite List.filter_app, length_app. lia. Qed.

Lemma since_le a b h : (a <= b)%Z -> (since b h <= since a h)%Z.
Proof.
  intros Hab. induction h as [|x h IH]; [done|]. change (x :: h) with ([x] ++ h). rewrite !since_app.
  enough (since b [x] <= since a [x])%Z by lia. unfold since. cbn [List.filter].
  destruct (b <=? x)%Z eqn:Eb, (a <=? x)%Z eqn:Ea; cbn; lia.
Qed.

Lemma since_one a x : (a <= x)%Z -> since a [x] = 1%Z.
Proof. intros Hax. unfold since. cbn [List.filter]. by rewrite (proj2 (Z.leb_le a x)). Qed.

Lemma refused_busy key now l1 l2 clients h :
  StronglySorted Z.le (map snd (l1 ++ (key, now) :: l2)) ->
  (let cur := default zeroWindow (clients !! key) in
   entry_ok cur (length (l1 ++ (key, now) :: l2)) /\ counts_past cur h
   /\ Forall (fun x => (start cur <= x)%Z) (map snd (l1 ++ (key, now) :: l2))) ->
  rate_run (l1 ++ (key, now) :: l2) clients !! length l1 = Some (key, now, false) ->
  (maxRequests <= since (now - window + 1) (h ++ times_of key l1))%Z.
Proof.
  revert clients h. induction l1 as [|[k x] l1 IH]; intros clients h Hs (Hok & Hpast & Hall).
  - cbn [app length rate_run map] in *. unfold rate_step.
    destruct (rate_entry maxRequests window _ now) as [allowed cur'] eqn:Ee. intros [= ->].
    destruct (entry_step _ _ _ _ _ Hok Ee) as (_ & Ha & Hcase). symmetry in Ha. apply Z.leb_gt in Ha.
    unfold times_of. cbn [List.filter map]. rewrite app_nil_r.
    destruct Hcase as [(_ & _ & Hc)|(Hw & _ & Hc)].
    + assert (0 <= since (now - window + 1) h)%Z by (unfold since; lia). lia.
    + unfold counts_past in Hpast. set (cur := default zeroWindow (clients !! key)) in *.
      assert (Hle : (now - window + 1 <= start cur)%Z) by lia. apply (since_le _ _ h) in Hle. lia.
  - cbn [app length rate_run map snd] in *. unfold rate_step.
    destruct (rate_entry maxRequests window (default zeroWindow (clients !! k)) x) as [allowed cur'] eqn:Ee.
    cbn [lookup list_lookup]. intros Hl.
    apply StronglySorted_inv in Hs as [Hs Hle]. apply Forall_cons in Hall as [Hx Hall].
    unfold times_of. cbn [List.filter fst]. destruct (k =s key) eqn:Ek; bool_simp.
    + subst k. destruct (entry_step _ _ _ _ _ Hok Ee) as (Hok' & _ & Hcase).
      cbn [map snd]. rewrite (cons_middle x), app_assoc.
      apply (IH (<[key:=cur']> clients) (h ++ [x]) Hs); [|exact Hl].
      cbv zeta. rewrite lookup_insert_eq. change (default zeroWindow (Some cur')) with cur'. split; [done|]. unfold counts_past in *.
      destruct Hcase as [(_ & -> & ->)|(_ & -> & ->)].
      * split; [rewrite since_app, since_one by lia; unfold since; lia|done].
      * split; [rewrite since_app, since_one by lia; lia|done].
    + apply (IH (<[k:=cur']> clients) h Hs); [|exact Hl].
      cbv zeta. rewrite lookup_insert_ne by done. destruct Hok as [Hc Hn]. repeat split; [done|lia|done|done].
Qed.
End Rate.

Lemma times_of_all (P : Z -> Prop) key l : Forall P (map snd l) -> Forall P (times_of key l).
Proof.
  unfold times_of. induction l as [|[k x] l IH]; cbn; [done|]. intros [Hx Hl]%Forall_cons.
  destruct (k =s key); [constructor|]; auto.
Qed.

Lemma times_of_sorted key l : StronglySorted Z.le (map snd l) -> Sorted Z.le (times_of key l).
Proof.
  intros Hs. apply StronglySorted_Sorted. induction l as [|[k x] l IH]; [constructor|].
  cbn in Hs. apply StronglySorted_inv in Hs as [Hs Hle]. unfold times_of. cbn [List.filter fst].
  destruct (k =s key); [|by apply IH]. constructor; [by apply IH|by apply times_of_all].
Qed.

(** the rate limiter never lets a client through more than twice the limit in
    any interval of the length of its window, whatever the other clients do. *)
Theorem rate_limit_caps maxRequests window key t l
    (Hwindow : (0 < window <= maxInt64)%Z) (Hmax : (0 <= maxRequests)%Z)
    (Htime : Sorted Z.le (0%Z :: map snd l)) (Hfew : (Z.of_nat (length l) < 9223372036854775808)%Z) :
  (Z.of_nat (length (admitted key t (t + window) (rate_run maxRequests window l ∅))) <= 2 * maxRequests)%Z.
Proof.
  rewrite admitted_entry. apply Sorted_StronglySorted in Htime; [|apply _].
  apply StronglySorted_inv in Htime as [Hs Hle]. rewrite lookup_empty.
  apply counted_any; [done|done|by apply times_of_sorted|by apply times_of_all|].
  split; cbn; [lia|]. unfold times_of. rewrite length_map.
  pose proof (List.filter_length_le (fun p : str * Z => p.1 =s key) l). lia.
Qed.

(** A request is refused only when the same client made at least as many
    requests as the limit within the window that ends with it: other clients and
    older requests never cause a refusal. *)
Theorem rate_limit_refuses_only_busy maxRequests window key now l1 l2
    (Hwindow : (0 < window <= maxInt64)%Z)
    (Htime : Sorted Z.le (0%Z :: map snd (l1 ++ (key, now) :: l2)))
    (Hfew : (Z.of_nat (length (l1 ++ (key, now) :: l2)) < 9223372036854775808)%Z)
    (Hrefused : rate_run maxRequests window (l1 ++ (key, now) :: l2) ∅ !! length l1 = Some (key, now, false)) :
  (maxRequests <= since (now - window + 1) (times_of key l1))%Z.
Proof.
  apply Sorted_StronglySorted in Htime; [|apply _]. apply StronglySorted_inv in Htime as [Hs Hle].
  apply (refused_busy _ _ Hwindow key now l1 l2 ∅ []); [done| |done].
  rewrite lookup_empty. split; [split; cbn [count zeroWindow default from_option id]; lia|]. split; [done|exact Hle].
Qed.

(** ** Replay cache *)

Fixpoint seen_run (values : list str) (c : replayCache) : list bool * replayCache :=
  match values with
  | [] => ([], c)
  | v :: t => let '(b, c1) := Seen v c in let '(bs, c2) := seen_run t c1 in (b :: bs, c2)
  end.

(** The specification keeps every new identifier for ever, and knows those among
    the last [n] of them. *)
Definition last_n {A} (n : nat) (l : list A) : list A := drop (length l - n) l.

Fixpoint remember_run (n : nat) (values : list str) (history : list str) : list bool * list str :=
  match values with
  | [] => ([], history)
  | v :: t =>
      let id := TrimSpace v in
      let known := bool_decide (id ∈ last_n n history) in
      let history' := if (id =s []) || known then history else history ++ [id] in
      let '(bs, h) := remember_run n t history' in
      (negb (id =s []) && known :: bs, h)
  end.

Definition cache_ok (n : nat) (history : list str) (c : replayCache) : Prop :=
  limit c = Z.of_nat n /\ order c = last_n n history /\ NoDup (order c)
  /\ forall v, v ∈ seen c <-> v ∈ order c.

Lemma length_last_n {A} n (l : list A) : length (last_n n l) = (length l `min` n)%nat.
Proof. unfold last_n. rewrite length_drop. lia. Qed.

Lemma last_n_snoc {A} n (l : list A) x :
  (0 < n)%nat ->
  last_n n (l ++ [x]) = (if (length (last_n n l) <? n)%nat then last_n n l else tail (last_n n l)) ++ [x].
Proof.
  intros Hn. rewrite length_last_n. unfold last_n. rewrite length_app. cbn [length].
  destruct (_ <? n)%nat eqn:E.
  - apply Nat.ltb_lt in E. replace (length l + 1 - n)%nat with 0%nat by lia.
    by replace (length l - n)%nat with 0%nat by lia.
  - apply Nat.ltb_ge in E. replace (length l + 1 - n)%nat with (S (length l - n)) by lia.
    rewrite drop_app_le by lia. f_equal. rewrite <- Nat.add_1_r, <- drop_drop.
    by destruct (drop (length l - n) l).
Qed.

Lemma NoDup_snoc {A} (l : list A) x : NoDup l -> x ∉ l -> NoDup (l ++ [x]).
Proof. intros Hl Hx. apply NoDup_app. split; [done|]. split; [set_solver|apply NoDup_singleton]. Qed.

Lemma Seen_step n history c v :
  (0 < n)%nat -> cache_ok n history c ->
  let id := TrimSpace v in
  let known := bool_decide (id ∈ last_n n history) in
  (Seen v c).1 = negb (id =s []) && known
  /\ cache_ok n (if (id =s []) || known then history else history ++ [id]) (Seen v c).2.
Proof.
  intros Hn (Hlim & Hord & Hnd & Hseen). cbv zeta. unfold Seen.
  destruct (TrimSpace v =s []) eqn:E0; [done|]. cbn [negb andb orb].
  set (id := TrimSpace v) in *.
  rewrite (bool_decide_ext (id ∈ seen c) (id ∈ last_n n history)) by (by rewrite Hseen, Hord).
  case_bool_decide as Hk; [done|]. cbn [fst].
  assert (Hnew : id ∉ order c) by (by rewrite Hord).
  pose proof (last_n_snoc n history id Hn) as Hsnoc. rewrite <- Hord in Hsnoc.
  pose proof (NoDup_snoc _ _ Hnd Hnew) as Hnd'.
  assert (Hlen : (length (order c) <= n)%nat) by (rewrite Hord, length_last_n; lia).
  rewrite length_app. cbn [length]. destruct (length (order c) <? n)%nat eqn:El.
  - apply Nat.ltb_lt in El. rewrite (proj2 (Z.ltb_ge (limit c) _)) by lia. cbn [fst snd]. split; [done|].
    repeat split; cbn [limit order seen]; [done|by rewrite Hsnoc|done|set_solver|set_solver].
  - apply Nat.ltb_ge in El. rewrite (proj2 (Z.ltb_lt (limit c) _)) by lia.
    destruct (order c) as [|oldest rest] eqn:Eo; [cbn in El; lia|]. cbn [app fst snd tail] in *. split; [done|].
    apply NoDup_cons in Hnd' as [Hold Hnd'].
    repeat split; cbn [limit order seen]; [done|by rewrite Hsnoc|done| |].
    + intros Hv. apply elem_of_difference in Hv as [Hv Hne]. set_solver.
    + intros Hv. apply elem_of_difference. split; [set_solver|]. intros Hv'. apply elem_of_singleton in Hv'. by subst.
Qed.

Lemma seen_run_ok n values history c :
  (0 < n)%nat -> cache_ok n history c ->
  (seen_run values c).1 = (remember_run n values history).1
  /\ cache_ok n (remember_run n values history).2 (seen_run values c).2.
Proof.
  intros Hn. revert history c. induction values as [|v t IH]; intros history c Hok; [done|].
  destruct (Seen_step n history c v Hn Hok) as [Hb Hok']. cbn [seen_run remember_run].
  destruct (Seen v c) as [b c1]. cbn [fst snd] in Hb, Hok'. destruct (IH _ _ Hok') as [Hbs Hok2].
  destruct (seen_run t c1) as [bs c2]. destruct (remember_run n t _) as [bs' h]. cbn [fst snd] in *.
  by rewrite Hb, Hbs.
Qed.

(** C40: the replay cache answers every sequence of deliveries as the specification
    does that never forgets: an identifier is reported as seen exactly when it is
    one of the last [limit] new ones.  It stores at most [limit] of them. *)
Theorem replay_cache_refines limit values :
  let n := Z.to_nat (Z.max 1 limit) in
  let '(answers, c) := seen_run values (newReplayCache limit) in
  answers = (remember_run n values []).1
  /\ order c = last_n n (remember_run n values []).2
  /\ (length (order c) <= n)%nat /\ (size (seen c) <= n)%nat.
Proof.
  cbv zeta. set (n := Z.to_nat (Z.max 1 limit)).
  assert (Hok : cache_ok n [] (newReplayCache limit)).
  { unfold newReplayCache, cache_ok. cbn. repeat split; [|constructor|set_solver|set_solver].
    destruct (limit <? 1)%Z eqn:El; lia. }
  destruct (seen_run_ok n values [] _ ltac:(lia) Hok) as [Ha (_ & Hord & Hnd & Hseen)].
  destruct (seen_run values (newReplayCache limit)) as [answers c]. cbn [fst snd] in *.
  assert (Hlen : (length (order c) <= n)%nat) by (rewrite Hord, length_last_n; lia).
  repeat split; [done|done|done|].
  assert (Hs : seen c = list_to_set (order c)) by set_solver. rewrite Hs, size_list_to_set; done.
Qed.

(** ** Authentication *)

Section AuthFacts.
Context `{UnicodeTables} `{FoldTable} `{SshLib}.

(** What an unauthenticated request gets instead of the handler. *)
Definition refusal : H unit :=
  let! _ := call (CSetHeader (lit "WWW-Authenticate") (lit "Bearer")) in
  writeJSON StatusUnauthorized (VError (lit "unauthorized")).

Lemma bearer_absent header expected :
  HasPrefix header (lit "Bearer ") = false -> validBearerToken header expected = false.
Proof. intros Hp. unfold validBearerToken. by rewrite Hp. Qed.

Lemma bearer_no_token header : validBearerToken header [] = false.
Proof.
  unfold validBearerToken. destruct (HasPrefix header _); [|done]. cbn [negb].
  by destruct (TrimSpace _).
Qed.

Lemma cookie_accepted r token : token <> [] -> Cookie r sessionCookieName = Some token -> validSessionCookie r token = true.
Proof.
  intros Hne Hc. unfold validSessionCookie. rewrite Hc. apply str_eqb_neq in Hne. rewrite Hne. by apply str_eqb_eq.
Qed.

Lemma https_origin_host h : TrimPrefix (TrimPrefix (lit "https://" ++ h) (lit "http://")) (lit "https://") = h.
Proof. done. Qed.

(** a page of another site cannot use the session of a visitor: a request that
    changes state, carries no bearer token and has an Origin of another host is
    refused before its handler runs, whatever its cookies are. *)
Theorem foreign_origin_refused token next r h
    (Hmethod : safe_method (Method r) = false)
    (Hbearer : HasPrefix (Header r (lit "Authorization")) (lit "Bearer ") = false)
    (Horigin : TrimSpace (Header r (lit "Origin")) = lit "https://" ++ h)
    (Hforeign : EqualFold (TrimSpace h) (Host' r) = false) :
  requireAuth token next r = refusal.
Proof.
  unfold requireAuth, validSessionRequest. rewrite bearer_absent by done. rewrite Hmethod, Horigin.
  unfold sameHostOrigin. rewrite https_origin_host, Hforeign, andb_false_r.
  by destruct (validSessionCookie r token).
Qed.

(** Signing in hands out the session exactly to the holder of the token: with
    the right one the answer sets a cookie that scripts cannot read and that is
    only sent over TLS, and a later reading request with that cookie reaches the
    protected handlers; with any other token no cookie is set.  Without a
    configured token no request is ever let through. *)
Theorem login_grants_session token r tok tr
    (Hbody : decode_login (Body r) = inl tok)
    (Hrun : runs (login (AuthConfig.mk token false) r) tr tt) :
  if tok =s token
  then exists c,
    tr = [Ev (CSetCookie c) tt; Ev (CWriteHeader StatusNoContent) tt]
    /\ HttpOnly c = true /\ Secure c = true
    /\ forall r' next, Cookie r' (CookieName c) = Some (CookieValue c) -> safe_method (Method r') = true ->
         requireAuth token next r'
         = (if token =s [] then refusal else next r')
  else tr = [Ev (CWriteJSON StatusUnauthorized (VError (lit "invalid token"))) tt].
Proof.
  unfold login in Hrun. rewrite Hbody in Hrun. cbn [AuthConfig.Disabled AuthConfig.Token negb andb] in Hrun.
  destruct (tok =s token) eqn:Et; cbn [negb] in Hrun.
  - apply runs_bind in Hrun as (tr1 & [] & tr2 & -> & Hr1 & Hr2).
    apply runs_call in Hr1 as ->. apply runs_call in Hr2 as ->. eexists. split; [done|]. split; [done|]. split; [done|].
    intros r' next Hc Hm. cbn [CookieName CookieValue sessionCookie AuthConfig.Token] in Hc.
    unfold requireAuth, validSessionRequest. rewrite Hm. destruct (token =s []) eqn:E0; bool_simp.
    + rewrite E0 in Hc |- *. replace (validSessionCookie r' []) with false; [|unfold validSessionCookie; by rewrite Hc].
      by rewrite bearer_no_token.
    + rewrite (cookie_accepted r' token E0 Hc). cbn [negb]. by rewrite andb_false_r.
  - by apply runs_call in Hrun.
Qed.
End AuthFacts.

(** ** Concrete instances *)

Module GuardDemo.
#[export] Instance tables : UnicodeTables := ascii_tables.
#[export] Instance folds : FoldTable := {| fold_least := fun r => if is_upper_ascii r then (r + 32)%N else r |}.
#[export] Instance ssh : SshLib := {| Signer := unit |}.

Definition second : Z := 1000000000.
Definition at_ (s : Z) : str * Z := (lit "10.0.0.7", (s * second)%Z).
(** Three requests in one window, the third refused; one of another client. *)
Definition story : list (str * Z) := [at_ 100; at_ 110; (lit "10.0.0.8", (112 * second)%Z); at_ 120; at_ 165].

Lemma rate_limit_caps_witness :
  map snd (rate_run 2 (60 * second) story ∅) = [true; true; true; false; true]
  /\ (Z.of_nat (length (admitted (lit "10.0.0.7") (105 * second) (105 * second + 60 * second)
        (rate_run 2 (60 * second) story ∅))) <= 2 * 2)%Z.
Proof.
  split; [vm_compute; reflexivity|].
  apply (rate_limit_caps 2 (60 * second) (lit "10.0.0.7") (105 * second) story).
  - unfold second, maxInt64. lia.
  - lia.
  - cbn. repeat constructor; unfold second; lia.
  - cbn. lia.
Defined.

Lemma rate_limit_refuses_only_busy_witness :
  (2 <= since (120 * second - 60 * second + 1) (times_of (lit "10.0.0.7") (take 3 story)))%Z.
Proof.
  apply (rate_limit_refuses_only_busy 2 (60 * second) (lit "10.0.0.7") (120 * second) (take 3 story) (drop 4 story)).
  - unfold second, maxInt64. lia.
  - cbn. repeat constructor; unfold second; lia.
  - cbn. lia.
  - vm_compute. reflexivity.
Defined.

Definition request (method body origin : str) (cookie : option str) : Request := {|
  Method := method; RemoteAddr := lit "10.0.0.7:4000"; Host' := lit "deploy.example.com";
  URLPath := lit "/api/deployments"; TLS := true;
  Header := fun n => if n =s lit "Origin" then origin else [];
  Cookie := fun n => if n =s sessionCookieName then cookie else None;
  Query := fun _ => []; URLParam := fun _ => []; Body := body |}.

Lemma foreign_origin_refused_witness :
  requireAuth (lit "token") (fun _ => Ret tt)
    (request (lit "POST") [] (lit "https://evil.example") (Some (lit "token"))) = refusal.
Proof. apply (foreign_origin_refused _ _ _ (lit "evil.example")); vm_compute; reflexivity. Defined.

Definition login_body : str := lit "{" ++ dquote ++ lit "token" ++ dquote ++ lit ":" ++ dquote ++ lit "secret" ++ dquote ++ lit "}".

Lemma login_grants_session_witness :
  exists c, HttpOnly c = true /\ Secure c = true /\ CookieValue c = lit "secret"
    /\ requireAuth (lit "secret") (fun _ => Ret tt) (request (lit "GET") [] [] (Some (CookieValue c))) = Ret tt.
Proof.
  set (auth := AuthConfig.mk (lit "secret") false).
  set (r := request (lit "POST") login_body [] None).
  assert (Hrun : runs (login auth r)
    [Ev (CSetCookie (sessionCookie r auth (lit "secret") (30 * 24 * 60 * 60))) tt;
     Ev (CWriteHeader StatusNoContent) tt] tt).
  { unfold login. replace (decode_login (Body r)) with (@inl str goerror (lit "secret")) by (vm_compute; reflexivity).
    eexists _, _. split; [reflexivity|]. eexists _, _. split; [reflexivity|]. split; reflexivity. }
  assert (Hbody : decode_login (Body r) = inl (lit "secret")) by (vm_compute; reflexivity).
  pose proof (login_grants_session (lit "secret") r (lit "secret") _ Hbody Hrun) as Hg.
  destruct Hg as (c & Htr & Hh & Hs & Hreq). injection Htr as <-.
  eexists. split; [exact Hh|]. split; [exact Hs|]. split; [reflexivity|].
  apply (Hreq (request (lit "GET") [] [] (Some (lit "secret"))) (fun _ => Ret tt)); reflexivity.
Defined.
End GuardDemo.

(** * Reasoning about handlers

    A handler's run is judged by the events that matter: the responses it
    writes, the deployments it creates, those it enqueues and those it marks as
    failed.  [post p Q] says that [Q] holds of the events of every run, whatever
    the database and the queue answer; it composes along [let!]. *)

Section Events.
Context `{UnicodeTables} `{UuidLib} `{SshLib}.

Inductive mark :=
| Wrote (status : Z) (value : response_value)
| Created (d : Deployment.t)
| Enqueued (d : Deployment.t)
| MarkedFailed (id : pgUUID_t).

Definition ev_mark (ev : event apiE) : option mark :=
  match ev with
  | @Ev _ X e x =>
      match e in apiE X return X -> option mark with
      | CWriteJSON status value => fun _ => Some (Wrote status value)
      | CWriteHeader status => fun _ => Some (Wrote status (VObject []))
      | QCreateDeployment _ => fun res => match res with inl d => Some (Created d) | inr _ => None end
      | CEnqueue d => fun err => match err with None => Some (Enqueued d) | Some _ => None end
      | QShared e' =>
          match e' in runnerE X return X -> option mark with
          | QUpdateDeploymentStatus id status =>
              fun _ => if status =s lit "failed" then Some (MarkedFailed id) else None
          | _ => fun _ => None
          end
      | _ => fun _ => None
      end x
  end.

Definition marks (tr : list (event apiE)) : list mark := omap ev_mark tr.

Definition post {A} (p : H A) (Q : list mark -> A -> Prop) : Prop := observed ev_mark p Q.

Lemma post_ret {A} (a : A) (Q : list mark -> A -> Prop) : Q [] a -> post (Ret a) Q.
Proof. apply observed_ret. Qed.

Lemma post_bind {A B} (p : H A) (f : A -> H B) (R : list mark -> A -> Prop) (Q : list mark -> B -> Prop) :
  post p R -> (forall m1 a, R m1 a -> post (f a) (fun m2 b => Q (m1 ++ m2) b)) -> post (pbind p f) Q.
Proof. apply observed_bind. Qed.

Lemma post_call {X} (e : apiE X) (Q : list mark -> X -> Prop) :
  (forall x, Q (marks [Ev e x]) x) -> post (call e) Q.
Proof. apply observed_call. Qed.

(** Programs without events that matter. *)
Definition silent {A} (p : H A) : Prop := post p (fun m _ => m = []).

Lemma silent_bind {A B} (p : H A) (f : A -> H B) (Q : list mark -> B -> Prop) :
  silent p -> (forall a, post (f a) Q) -> post (pbind p f) Q.
Proof. intros Hp Hf. apply (post_bind _ _ (fun m _ => m = []) _ Hp). intros m a ->. exact (Hf a). Qed.

Lemma silent_call {X} (e : apiE X) : (forall x, ev_mark (Ev e x) = None) -> silent (call e).
Proof. intros He. apply post_call. intros x. unfold marks. cbn [omap list_omap]. by rewrite He. Qed.

Lemma silent_audit r action kind id name metadata : silent (audit r action kind id name metadata).
Proof. apply silent_bind; [by apply silent_call|]. intros _. by apply post_ret. Qed.

Lemma post_writeJSON status value (Q : list mark -> unit -> Prop) :
  Q [Wrote status value] tt -> post (writeJSON status value) Q.
Proof. intros Hq. apply post_call. by intros []. Qed.

(** Error responses are client or server errors. *)
Lemma error_status err : (400 <= (error_response err).1)%Z.
Proof.
  unfold error_response.
  destruct (is_some (as_validation err)); [done|]. destruct (is_some (as_not_found err)); [done|].
  by destruct (isRequestBodyTooLarge err).
Qed.

Definition failure_response (m : list mark) : Prop := exists status value, m = [Wrote status value] /\ (400 <= status)%Z.

Lemma post_writeError err (Q : list mark -> unit -> Prop) :
  (forall m, failure_response m -> Q m tt) -> post (writeError err) Q.
Proof.
  intros Hq. unfold writeError. pose proof (error_status err) as Hs.
  destruct (error_response err) as [status value]. apply post_writeJSON, Hq. by exists status, value.
Qed.
End Events.

Create HintDb post discriminated.
#[export] Hint Resolve silent_audit : post.
