(* ===== verification/HttpConnectorsFacts.v ===== *)
(** * Connector configurations carry no secrets

    What a configuration is made of at every level, before and after it is pruned,
    sorted and shown. *)

From S2P Require Import Prelude GoStrings GoStringsFacts GoRegexp GoJson GoFloat GoNet StringUtil.
From S2P Require Import AuditLog Db DbHttp DbApplications DbServers DbInventory Effects Runner.
From S2P Require Import GoHttp Connectors HttpCore HttpGuardFacts HttpVariables HttpServers HttpCredentials HttpConnectors.

(** ** Every level of a value *)

Definition children (v : json) : list json := match v with JObj l => map snd l | JArr l => l | _ => [] end.

Inductive everywhere (P : json -> Prop) : json -> Prop :=
| Everywhere v : P v -> Forall (everywhere P) (children v) -> everywhere P v.

Lemma everywhere_inv P v : everywhere P v -> P v /\ Forall (everywhere P) (children v).
Proof. by inversion 1. Qed.

Lemma everywhere_mono (P Q : json -> Prop) v : (forall w, P w -> Q w) -> everywhere P v -> everywhere Q v.
Proof.
  intros Hpq. induction v as [| | | | |l IH|l IH] using json_nested_ind; intros [Hp Hc]%everywhere_inv;
    (constructor; [by apply Hpq|]); try by constructor.
  - clear Hp. cbn [children] in *. induction IH as [|x t Hx _ IHt]; [constructor|]. inversion Hc; subst.
    constructor; [by apply Hx|by apply IHt].
  - clear Hp. cbn [children] in *. induction IH as [|x t Hx _ IHt]; [constructor|]. inversion Hc; subst.
    constructor; [by apply Hx|by apply IHt].
Qed.

Lemma everywhere_and (P Q : json -> Prop) v : everywhere P v -> everywhere Q v -> everywhere (fun w => P w /\ Q w) v.
Proof.
  induction v as [| | | | |l IH|l IH] using json_nested_ind; intros [Hp Hc]%everywhere_inv [Hq Hd]%everywhere_inv;
    (constructor; [by split|]); try by constructor.
  - clear Hp Hq. cbn [children] in *. induction IH as [|x t Hx _ IHt]; [constructor|]. inversion Hc; subst. inversion Hd; subst.
    constructor; [by apply Hx|by apply IHt].
  - clear Hp Hq. cbn [children] in *. induction IH as [|x t Hx _ IHt]; [constructor|]. inversion Hc; subst. inversion Hd; subst.
    constructor; [by apply Hx|by apply IHt].
Qed.

Section Nodes.
Context `{UnicodeTables}.

Definition unique_node (v : json) : Prop := match v with JObj l => NoDup (map fst l) | _ => True end.
Definition open_node (v : json) : Prop :=
  match v with
  | JObj l => Forall (fun p : str * json => isSecretConfigKey p.1 = false) l
  | JStr s => looksLikeSecretMaterial s = false
  | _ => True
  end.
Definition pruned_node (v : json) : Prop :=
  match v with
  | JNull => False
  | JStr s => TrimSpace s = s /\ s <> []
  | JObj [] | JArr [] => False
  | _ => True
  end.
Definition sorted_node (v : json) : Prop := match v with JObj l => merge_sort (by_key fst) l = l | _ => True end.
Definition number_node (v : json) : Prop := match v with JNum _ | JReal _ => float_number v = inl v | _ => True end.

Definition clean (v : json) : Prop := unique_node v /\ open_node v.
Definition stored (v : json) : Prop := clean v /\ pruned_node v.

(** ** The checks *)

Lemma no_secrets_open v : hasSecretConfigKey v = false -> hasSecretConfigValue v = false -> everywhere open_node v.
Proof.
  induction v as [| | | |s|l IH|l IH] using json_nested_ind; cbn [hasSecretConfigKey hasSecretConfigValue]; intros Hk Hv;
    constructor; try done; try by constructor.
  - cbn [children]. induction IH as [|x t Hx _ IHt]; [constructor|]. cbn [existsb] in *.
    apply orb_false_iff in Hk as [Hk1 Hk2], Hv as [Hv1 Hv2]. constructor; [by apply Hx|by apply IHt].
  - cbn [open_node]. clear IH Hv. induction l as [|[k x] t IHt]; constructor; cbn [existsb fst] in *;
      apply orb_false_iff in Hk as [[Hk1 _]%orb_false_iff Hk2]; [done|by apply IHt].
  - cbn [children]. induction IH as [|[k x] t Hx _ IHt]; [constructor|]. cbn [existsb map fst snd] in *.
    apply orb_false_iff in Hk as [[_ Hk1]%orb_false_iff Hk2], Hv as [Hv1 Hv2]. constructor; [by apply Hx|by apply IHt].
Qed.

Lemma open_no_secrets v : everywhere open_node v -> hasSecretConfigKey v = false /\ hasSecretConfigValue v = false.
Proof.
  induction v as [| | | |s|l IH|l IH] using json_nested_ind; intros [Ho Hc]%everywhere_inv;
    cbn [hasSecretConfigKey hasSecretConfigValue children open_node] in *; try done.
  - induction IH as [|x t Hx _ IHt]; [done|]. inversion Hc; subst. cbn [existsb].
    destruct Hx as [-> ->]; [done|]. by apply IHt.
  - induction IH as [|[k x] t Hx _ IHt]; [done|]. cbn [map fst snd] in *. inversion Hc; subst. inversion Ho; subst.
    cbn [existsb fst snd] in *. destruct Hx as [-> ->]; [done|]. rewrite orb_false_r. cbn [orb].
    match goal with Hs : isSecretConfigKey k = false |- _ => rewrite Hs end. by apply IHt.
Qed.

(** ** Decoding *)

Lemma last_wins_elem {A} (l : list (str * A)) p : p ∈ last_wins l -> p ∈ l.
Proof.
  induction l as [|[k v] t IH]; cbn [last_wins]; [done|]. destruct (existsb _ _); [intros Hp; right; by apply IH|].
  intros [->|Hp]%elem_of_cons; [left|right; by apply IH].
Qed.

Lemma last_wins_NoDup {A} (l : list (str * A)) : NoDup (map fst (last_wins l)).
Proof.
  induction l as [|[k v] t IH]; cbn [last_wins]; [constructor|]. destruct (existsb _ _) eqn:E; [done|].
  cbn [map fst]. constructor; [|done]. intros ([k' w] & Hk & Hin%last_wins_elem)%list_elem_of_fmap. cbn in Hk. subst k'.
  assert (Hex : existsb (fun p : str * A => p.1 =s k) t = true); [|congruence].
  apply existsb_exists. exists (k, w). split; [by apply list_elem_of_In|by apply str_eqb_eq].
Qed.

Lemma last_wins_id {A} (l : list (str * A)) : NoDup (map fst l) -> last_wins l = l.
Proof.
  induction l as [|[k v] t IH]; cbn [last_wins map fst]; [done|]. intros [Hn Hd]%NoDup_cons.
  destruct (existsb _ _) eqn:E; [|by rewrite IH]. apply existsb_exists in E as ([k' w] & Hin & Hk%str_eqb_eq). cbn in Hk. subst.
  destruct Hn. apply list_elem_of_fmap. exists (k, w). split; [done|by apply list_elem_of_In].
Qed.

(** The members of a decoded object are decoded values. *)
Lemma on_values_inv f l l' : on_values f l = inl l' -> Forall (fun w => exists v, In v (map snd l) /\ f v = inl w) (map snd l').
Proof.
  revert l'. induction l as [|[k v] t IH]; cbn [on_values]; intros l' Hl; [injection Hl as <-; constructor|].
  apply rbind_ok in Hl as (w & Hw & Hl). apply rbind_ok in Hl as (t' & Ht & Hl). injection Hl as <-.
  constructor; [exists v; split; [by left|done]|].
  eapply Forall_impl; [exact (IH t' Ht)|]. intros x (y & Hy & Hf). exists y. split; [by right|done].
Qed.

Lemma on_items_inv f l l' : on_items f l = inl l' -> Forall (fun w => exists v, In v l /\ f v = inl w) l'.
Proof.
  revert l'. induction l as [|v t IH]; cbn [on_items]; intros l' Hl; [injection Hl as <-; constructor|].
  apply rbind_ok in Hl as (w & Hw & Hl). apply rbind_ok in Hl as (t' & Ht & Hl). injection Hl as <-.
  constructor; [exists v; split; [by left|done]|].
  eapply Forall_impl; [exact (IH t' Ht)|]. intros x (y & Hy & Hf). exists y. split; [by right|done].
Qed.

Lemma last_wins_children {A} (P : A -> Prop) (l : list (str * A)) : Forall P (map snd l) -> Forall P (map snd (last_wins l)).
Proof.
  rewrite !Forall_forall. intros Hl w (p & -> & Hp%last_wins_elem)%list_elem_of_fmap. apply Hl, list_elem_of_fmap. by exists p.
Qed.

Lemma float_number_leaf v w : float_number v = inl w -> (exists z, w = JNum z) \/ (exists s, w = JReal s) \/ w = JNull.
Proof.
  unfold float_number. intros (x & _ & Hx)%rbind_ok. injection Hx as <-. unfold marshal_float.
  repeat (match goal with |- context [match ?x with _ => _ end] => destruct x end); eauto.
Qed.

Lemma unmarshal_unique v w : unmarshal_any v = inl w -> everywhere unique_node w.
Proof.
  revert w. induction v as [| |z|s| |l IH|l IH] using json_nested_ind; intros w; cbn [unmarshal_any]; intros Hw.
  1, 2, 5: injection Hw as <-; by repeat constructor.
  1, 2: apply float_number_leaf in Hw as [[? ->]|[[? ->]| ->]]; by repeat constructor.
  - apply rbind_ok in Hw as (l' & Hl & Hw). injection Hw as <-. constructor; [done|]. cbn [children].
    eapply Forall_impl; [exact (on_items_inv _ _ _ Hl)|]. intros x (y & Hy & Hf). rewrite List.Forall_forall in IH. by apply (IH y).
  - apply rbind_ok in Hw as (l' & Hl & Hw). injection Hw as <-. constructor; [apply last_wins_NoDup|]. cbn [children].
    apply last_wins_children. eapply Forall_impl; [exact (on_values_inv _ _ _ Hl)|]. intros x (y & Hy & Hf).
    apply in_map_iff in Hy as ([k y'] & <- & Hy). rewrite List.Forall_forall in IH. by apply (IH (k, y')).
Qed.

Lemma unmarshal_map_unique raw l : unmarshal_any_map raw = inl (Some l) -> everywhere unique_node (JObj l).
Proof.
  destruct raw as [[| | | | | |m]|]; try done. cbn [unmarshal_any_map]. intros (l' & Hl & Hm)%rbind_ok. injection Hm as <-.
  apply (unmarshal_unique (JObj m)). cbn [unmarshal_any]. by rewrite Hl.
Qed.

(** ** Pruning and showing

    Both keep some of the members of an object, with values of their own. *)

Definition kept (keep : str -> bool) (f : json -> option json) (p : str * json) : option (str * json) :=
  if keep p.1 then pair p.1 <$> f p.2 else None.

Lemma kept_keys keep f l : map fst (omap (kept keep f) l) `sublist_of` map fst l.
Proof.
  induction l as [|[k v] t IH]; [constructor|]. cbn [omap list_omap map fst]. unfold kept at 1. cbn [fst snd].
  destruct (keep k); [|by constructor]. destruct (f v); cbn; by constructor.
Qed.

Lemma kept_names keep f l : Forall (fun p : str * json => keep p.1 = true) (omap (kept keep f) l).
Proof.
  induction l as [|[k v] t IH]; [constructor|]. cbn [omap list_omap]. unfold kept at 1. cbn [fst snd].
  destruct (keep k) eqn:E; [|done]. destruct (f v); cbn; [by constructor|done].
Qed.

Lemma kept_children keep f l (P : json -> Prop) :
  Forall (fun v => forall w, f v = Some w -> P w) (map snd l) -> Forall P (map snd (omap (kept keep f) l)).
Proof.
  induction l as [|[k v] t IH]; [constructor|]. cbn [map snd omap list_omap]. intros Hl. inversion Hl as [|? ? Hv Ht]; subst.
  unfold kept at 1. cbn [fst snd]. destruct (keep k); [|by apply IH].
  destruct (f v) as [w|] eqn:E; cbn [fmap option_fmap option_map map snd]; [|by apply IH]. constructor; [by apply Hv|by apply IH].
Qed.

Lemma kept_id keep f l :
  Forall (fun p : str * json => keep p.1 = true) l -> Forall (fun v => f v = Some v) (map snd l) -> omap (kept keep f) l = l.
Proof.
  induction l as [|[k v] t IH]; [done|]. cbn [map snd omap list_omap]. intros Hk Hl.
  inversion Hk as [|? ? Hk1 Hk2]; inversion Hl as [|? ? Hv Ht]; subst. unfold kept at 1. cbn [fst snd] in *. rewrite Hk1, Hv. cbn.
  f_equal. by apply IH.
Qed.

Lemma omap_children (f : json -> option json) l (P : json -> Prop) :
  Forall (fun v => forall w, f v = Some w -> P w) l -> Forall P (omap f l).
Proof.
  induction l as [|v t IH]; [constructor|]. cbn [omap list_omap]. intros Hl. inversion Hl as [|? ? Hv Ht]; subst.
  destruct (f v) as [w|] eqn:E; [|by apply IH]. constructor; [by apply Hv|by apply IH].
Qed.

Lemma omap_id (f : json -> option json) l : Forall (fun v => f v = Some v) l -> omap f l = l.
Proof.
  induction l as [|v t IH]; [done|]. intros Hl. inversion Hl as [|? ? Hv Ht]; subst. cbn [omap list_omap]. rewrite Hv. f_equal.
  by apply IH.
Qed.

Lemma pruned_fields l : pruneConnectorConfig l = omap (kept (fun _ => true) pruneConnectorValue) l.
Proof. done. Qed.
Lemma shown_fields l : publicConnectorConfigMap l = omap (kept (fun k => negb (isSecretConfigKey k)) publicConnectorConfigValue) l.
Proof.
  unfold publicConnectorConfigMap. induction l as [|[k v] t IH]; [done|]. cbn [omap list_omap fst snd].
  unfold kept at 1. cbn [fst snd]. rewrite IH. by destruct (isSecretConfigKey k).
Qed.

Lemma kept_open keep f l : Forall (fun p : str * json => isSecretConfigKey p.1 = false) l ->
  Forall (fun p : str * json => isSecretConfigKey p.1 = false) (omap (kept keep f) l).
Proof.
  induction l as [|[k v] t IH]; [constructor|]. cbn [omap list_omap]. intros Hl. inversion Hl as [|? ? Hk Ht]; subst.
  unfold kept at 1. cbn [fst snd]. destruct (keep k); [|by apply IH]. destruct (f v); cbn; [|by apply IH].
  constructor; [exact Hk|by apply IH].
Qed.

Lemma looks_trimmed s : looksLikeSecretMaterial (TrimSpace s) = looksLikeSecretMaterial s.
Proof. unfold looksLikeSecretMaterial. by rewrite TrimSpace_idem. Qed.

Lemma forall_children (P Q : json -> Prop) l :
  Forall P l -> Forall (everywhere Q) l -> Forall (fun v => P v /\ everywhere Q v) l.
Proof. intros Hp Hq. apply Forall_and. by split. Qed.

Lemma member_values (P : json -> Prop) (l : list (str * json)) : Forall (fun p => P p.2) l -> Forall P (map snd l).
Proof. by induction 1; constructor. Qed.

Lemma prune_stored v w : everywhere clean v -> pruneConnectorValue v = Some w -> everywhere stored w.
Proof.
  revert w. induction v as [|b|z|r|s|l IH|l IH] using json_nested_ind; intros w [[Hu Ho] Hc]%everywhere_inv;
    cbn [pruneConnectorValue children] in *; intros Hw.
  - done.
  - injection Hw as <-. by repeat constructor.
  - injection Hw as <-. by repeat constructor.
  - injection Hw as <-. by repeat constructor.
  - destruct (TrimSpace s =s []) eqn:E; [done|]. injection Hw as <-. apply str_eqb_neq in E. constructor; [|constructor].
    split; [split; [done|cbn; by rewrite looks_trimmed]|]. cbn. by rewrite TrimSpace_idem.
  - assert (Hl : Forall (everywhere stored) (omap pruneConnectorValue l)).
    { apply omap_children. pose proof (forall_children _ _ _ IH Hc) as Hb. eapply Forall_impl; [exact Hb|].
      intros v [Hv1 Hv2] x Hx. by apply Hv1. }
    destruct (omap pruneConnectorValue l) as [|x t] eqn:E; [done|]. injection Hw as <-. constructor; [|exact Hl]. by repeat split.
  - change (omap _ l) with (omap (kept (fun _ => true) pruneConnectorValue) l) in Hw.
    assert (Hl : Forall (everywhere stored) (map snd (omap (kept (fun _ => true) pruneConnectorValue) l))).
    { apply kept_children. apply (member_values (fun v => forall w, everywhere clean v -> pruneConnectorValue v = Some w -> everywhere stored w)) in IH.
      pose proof (forall_children _ _ _ IH Hc) as Hb.
      eapply Forall_impl; [exact Hb|]. intros v [Hv1 Hv2] x Hx. by apply Hv1. }
    pose proof (sublist_NoDup _ _ Hu (kept_keys (fun _ => true) pruneConnectorValue l)) as Hn.
    pose proof (kept_open (fun _ => true) pruneConnectorValue l Ho) as Hop.
    destruct (omap _ l) as [|x t] eqn:E; [done|]. injection Hw as <-. constructor; [|exact Hl]. by repeat split.
Qed.

(** ** Sorting *)

Lemma sort_kind (v : json) : sort_keys v = match v with JObj l => json_map (map (fun p => (p.1, sort_keys p.2)) l)
                                    | JArr l => JArr (map sort_keys l) | _ => v end.
Proof. by destruct v. Qed.

Lemma map_fst_values (f : json -> json) (l : list (str * json)) : map fst (map (fun p => (p.1, f p.2)) l) = map fst l.
Proof. rewrite map_map. by apply map_ext. Qed.
Lemma map_snd_values (f : json -> json) (l : list (str * json)) : map snd (map (fun p => (p.1, f p.2)) l) = map f (map snd l).
Proof. by rewrite !map_map. Qed.

Lemma sorted_again (l : list (str * json)) : NoDup (map fst l) ->
  merge_sort (by_key fst) (merge_sort (by_key fst) l) = merge_sort (by_key fst) l.
Proof.
  intros Hn. symmetry. apply (by_key_unique fst).
  - by rewrite merge_sort_Permutation.
  - apply by_key_sorted.
  - apply by_key_sorted.
  - by rewrite (merge_sort_Permutation _ (merge_sort _ l)).
Qed.

Definition settled_node (v : json) : Prop := stored v /\ sorted_node v.

Lemma sort_settled v : everywhere stored v -> everywhere settled_node (sort_keys v).
Proof.
  induction v as [| | | |s|l IH|l IH] using json_nested_ind; intros [[[Hu Ho] Hp] Hc]%everywhere_inv;
    try (constructor; [split; [by split|done]|constructor]).
  - cbn [sort_keys children] in *. constructor; cbn [children].
    + split; [|done]. split; [by split|]. by destruct l.
    + apply Forall_map. eapply Forall_impl; [exact (forall_children _ _ _ IH Hc)|]. intros v [Hv1 Hv2]. by apply Hv1.
  - cbn [sort_keys children] in *. unfold json_map. set (m := map _ l).
    assert (Hkeys : map fst m = map fst l) by apply map_fst_values. assert (Hperm := merge_sort_Permutation (by_key fst) m).
    assert (Hn : NoDup (map fst m)) by by rewrite Hkeys. constructor; cbn [children].
    + repeat split.
      * cbn. by rewrite Hperm.
      * cbn [open_node]. rewrite Hperm. apply Forall_map. exact Ho.
      * cbn [pruned_node] in *. destruct (merge_sort _ m) eqn:E; [|done].
        apply Permutation_nil in Hperm. subst m. by destruct l.
      * apply sorted_again, Hn.
    + rewrite Hperm. subst m. rewrite map_snd_values. apply Forall_map.
      apply (member_values (fun v => everywhere stored v -> everywhere settled_node (sort_keys v))) in IH.
      eapply Forall_impl; [exact (forall_children _ _ _ IH Hc)|]. intros v [Hv1 Hv2]. by apply Hv1.
Qed.

(** ** Configurations that are stored *)

Definition fixed_node (v : json) : Prop := settled_node v /\ number_node v.

Lemma on_values_id f l : Forall (fun v => f v = inl v) (map snd l) -> on_values f l = inl l.
Proof.
  induction l as [|[k v] t IH]; [done|]. cbn [map snd]. intros Hl. inversion Hl as [|? ? Hv Ht]; subst. cbn [on_values].
  by rewrite Hv; cbn; rewrite IH.
Qed.
Lemma on_items_id f l : Forall (fun v => f v = inl v) l -> on_items f l = inl l.
Proof.
  induction l as [|v t IH]; [done|]. intros Hl. inversion Hl as [|? ? Hv Ht]; subst. cbn [on_items].
  by rewrite Hv; cbn; rewrite IH.
Qed.

(** A member of a stored value is read, pruned, sorted and shown as it is. *)
Definition unchanged (v : json) : Prop :=
  unmarshal_any v = inl v /\ pruneConnectorValue v = Some v /\ publicConnectorConfigValue v = Some v /\ sort_keys v = v.

Lemma fixed_fields l : NoDup (map fst l) -> Forall (fun p : str * json => isSecretConfigKey p.1 = false) l ->
  merge_sort (by_key fst) l = l -> Forall unchanged (map snd l) ->
  on_values unmarshal_any l = inl l /\ last_wins l = l /\ pruneConnectorConfig l = l /\ publicConnectorConfigMap l = l
  /\ sort_keys (JObj l) = JObj l.
Proof.
  intros Hn Ho Hs Hc. split; [|split; [|split; [|split]]].
  - apply on_values_id. eapply Forall_impl; [exact Hc|]. by intros v (Hv & _).
  - by apply last_wins_id.
  - rewrite pruned_fields. apply kept_id; [by apply Forall_true|]. eapply Forall_impl; [exact Hc|]. by intros v (_ & Hv & _).
  - rewrite shown_fields. apply kept_id.
    + eapply Forall_impl; [exact Ho|]. intros p Hp. cbn in Hp. by rewrite Hp.
    + eapply Forall_impl; [exact Hc|]. by intros v (_ & _ & Hv & _).
  - cbn [sort_keys]. unfold json_map. rewrite <- Hs at 2. do 2 f_equal.
    clear - Hc. induction l as [|[k v] t IH]; [done|]. cbn [map fst snd] in *. inversion Hc as [|? ? (_ & _ & _ & Hv) Ht]; subst.
    rewrite Hv. f_equal. by apply IH.
Qed.

Lemma fixed_unchanged v : everywhere fixed_node v -> unchanged v.
Proof.
  induction v as [| |z|r|s|l IH|l IH] using json_nested_ind; intros [[[[[Hu Ho] Hp] Hs] Hnum] Hc]%everywhere_inv;
    cbn [children pruned_node open_node unique_node sorted_node number_node] in *; try done.
  - unfold unchanged. cbn. destruct Hp as [-> Hne]. apply str_eqb_neq in Hne. by rewrite Hne, Ho.
  - assert (Hall : Forall unchanged l).
    { eapply Forall_impl; [exact (forall_children _ _ _ IH Hc)|]. intros v [Hv1 Hv2]. by apply Hv1. }
    unfold unchanged. cbn [unmarshal_any pruneConnectorValue publicConnectorConfigValue sort_keys].
    rewrite on_items_id, !omap_id by (eapply Forall_impl; [exact Hall|]; by intros v (? & ? & ? & ?)).
    destruct l as [|x t]; [done|]. repeat split. f_equal. clear - Hall.
    induction Hall as [|y l (_ & _ & _ & Hy) _ IHl]; [done|]. cbn [map]. by rewrite Hy, IHl.
  - apply (member_values (fun v => everywhere fixed_node v -> unchanged v)) in IH.
    assert (Hall : Forall unchanged (map snd l)).
    { eapply Forall_impl; [exact (forall_children _ _ _ IH Hc)|]. intros v [Hv1 Hv2]. by apply Hv1. }
    destruct (fixed_fields l Hu Ho Hs Hall) as (Hd & Hw & Hpr & Hpub & Hsort). unfold unchanged.
    cbn [unmarshal_any pruneConnectorValue publicConnectorConfigValue]. rewrite Hd. cbn [rbind]. rewrite Hw.
    unfold pruneConnectorConfig in Hpr. unfold publicConnectorConfigMap in Hpub. rewrite Hpr, Hpub, Hsort. by destruct l.
Qed.

(** The members that pruning and sorting leave of a decoded object without secrets. *)
Definition sorted_members (l : list (str * json)) : list (str * json) :=
  merge_sort (by_key fst) (map (fun p => (p.1, sort_keys p.2)) (pruneConnectorConfig l)).

Lemma sorted_members_ok l : everywhere clean (JObj l) ->
  NoDup (map fst (sorted_members l)) /\ Forall (fun p : str * json => isSecretConfigKey p.1 = false) (sorted_members l)
  /\ merge_sort (by_key fst) (sorted_members l) = sorted_members l
  /\ Forall (everywhere settled_node) (map snd (sorted_members l)).
Proof.
  intros [[Hu Ho] Hc]%everywhere_inv. cbn [unique_node open_node children] in *. unfold sorted_members. rewrite pruned_fields.
  pose proof (sublist_NoDup _ _ Hu (kept_keys (fun _ => true) pruneConnectorValue l)) as Hn.
  pose proof (kept_open (fun _ => true) pruneConnectorValue l Ho) as Hop.
  assert (Hl : Forall (everywhere stored) (map snd (omap (kept (fun _ => true) pruneConnectorValue) l))).
  { apply kept_children. eapply Forall_impl; [exact Hc|]. intros v Hv w. by apply prune_stored. }
  set (m := omap _ l) in *. clearbody m. split; [|split; [|split]].
  - by rewrite merge_sort_Permutation, map_fst_values.
  - rewrite merge_sort_Permutation. by apply Forall_map.
  - apply sorted_again. by rewrite map_fst_values.
  - rewrite merge_sort_Permutation, map_snd_values. apply Forall_map. eapply Forall_impl; [exact Hl|]. apply sort_settled.
Qed.

Lemma clean_object raw l : unmarshal_any_map raw = inl (Some l) -> hasSecretConfigKey (JObj l) = false ->
  hasSecretConfigValue (JObj l) = false -> everywhere clean (JObj l).
Proof. intros Hl Hk Hv. apply everywhere_and; [exact (unmarshal_map_unique _ _ Hl)|by apply no_secrets_open]. Qed.

Lemma normalized_members raw v : normalizeConnectorConfig raw = inl v ->
  exists c, v = JObj c /\ NoDup (map fst c) /\ Forall (fun p : str * json => isSecretConfigKey p.1 = false) c
    /\ merge_sort (by_key fst) c = c /\ Forall (everywhere settled_node) (map snd c).
Proof.
  unfold normalizeConnectorConfig. destruct raw as [j|].
  - destruct (unmarshal_any_map _) as [[l|]|err] eqn:El; [|done..].
    destruct (hasSecretConfigKey _) eqn:Ek; [done|]. destruct (hasSecretConfigValue _) eqn:Ev; [done|]. intros [= <-].
    exists (sorted_members l). split; [done|]. apply sorted_members_ok. exact (clean_object _ _ El Ek Ev).
  - intros [= <-]. exists []. repeat split; constructor.
Qed.

Lemma settled_open v : everywhere settled_node v -> everywhere open_node v.
Proof. apply everywhere_mono. by intros w [[[_ Ho] _] _]. Qed.

(** ** What is shown *)

Lemma show_open v w : publicConnectorConfigValue v = Some w -> everywhere open_node w.
Proof.
  revert w. induction v as [|b|z|r|s|l IH|l IH] using json_nested_ind; intros w; cbn [publicConnectorConfigValue]; intros Hw.
  1: done. 1-3: injection Hw as <-; by repeat constructor.
  - destruct (looksLikeSecretMaterial s) eqn:E; [done|]. injection Hw as <-. by repeat constructor.
  - pose proof (omap_children publicConnectorConfigValue l (everywhere open_node) IH) as Hl.
    destruct (omap _ l); [done|]. injection Hw as <-. by constructor.
  - change (omap _ l) with (publicConnectorConfigMap l) in Hw. rewrite shown_fields in Hw.
    pose proof (kept_children (fun k => negb (isSecretConfigKey k)) publicConnectorConfigValue l (everywhere open_node)
      (member_values (fun v => forall w, publicConnectorConfigValue v = Some w -> everywhere open_node w) l IH)) as Hl.
    pose proof (kept_names (fun k => negb (isSecretConfigKey k)) publicConnectorConfigValue l) as Hk.
    destruct (omap _ l) as [|x t]; [done|]. injection Hw as <-. constructor; [|exact Hl].
    eapply Forall_impl; [exact Hk|]. intros p Hp. by apply negb_true_iff in Hp.
Qed.

Lemma public_config_open raw : everywhere open_node (JObj (publicConnectorConfig raw)).
Proof.
  unfold publicConnectorConfig. destruct (unmarshal_any_map raw) as [[config|]|err]; [|by repeat constructor..].
  rewrite shown_fields. constructor; cbn [open_node children].
  - eapply Forall_impl; [apply (kept_names (fun k => negb (isSecretConfigKey k)))|]. intros p Hp. by apply negb_true_iff in Hp.
  - apply kept_children, Forall_forall. intros v _ w. apply show_open.
Qed.

(** A configuration without the keys and the values of secrets, at any level. *)
Definition hides_secrets (c : ConnectorResponse.t) : Prop :=
  hasSecretConfigKey (JObj (ConnectorResponse.Config c)) = false /\ hasSecretConfigValue (JObj (ConnectorResponse.Config c)) = false.
Lemma connectorResponse_hides account : hides_secrets (connectorResponse account).
Proof. apply open_no_secrets, public_config_open. Qed.
End Nodes.

Section Answers.
Context `{UnicodeTables} `{UuidLib} `{SshLib} `{MapOrder}.

Definition secretless_answer X (e : apiE X) : Prop :=
  match e with
  | CWriteJSON _ (VConnector c) => hides_secrets c
  | CWriteJSON _ (VConnectors l) => Forall hides_secrets l
  | CWriteJSON _ (VError _) => True
  | CWriteJSON _ _ => False
  | _ => True
  end.

Lemma secretless_writeError err : only secretless_answer (writeError err).
Proof.
  unfold writeError, error_response.
  repeat match goal with |- context [if ?c then _ else _] => destruct c end; by repeat split.
Qed.

(** C19: whatever the table of connector accounts holds, the list of connectors and
    the answer to a change of one show no configuration with a key that names a
    secret or a string that looks like one, at any depth. *)
Theorem connector_answers_hide_secrets r :
  only secretless_answer (listConnectors r) /\ only secretless_answer (upsertConnector r).
Proof.
  split.
  - unfold listConnectors. apply only_bind; [by repeat split|]. intros [accounts|err]; [|apply secretless_writeError].
    split; [|done]. cbn. apply Forall_forall. intros c (a & -> & _)%list_elem_of_fmap. apply connectorResponse_hides.
  - unfold upsertConnector. destruct (rbind _ _) as [input|err]; [|apply secretless_writeError].
    apply only_bind; [by repeat split|]. intros [connector|err]; [|apply secretless_writeError].
    apply only_bind; [apply only_bind; [by repeat split|done]|]. intros _. split; [|done]. apply connectorResponse_hides.
Qed.

(** a configuration that was accepted stays as it is: it is an object that the
    same check accepts again without change, and the answers show all of it.  The
    numbers are those whose text is read back as itself. *)
Theorem accepted_config_kept raw v (Hv : normalizeConnectorConfig raw = inl v) (Hnum : everywhere number_node v) :
  exists config, v = JObj config /\ normalizeConnectorConfig (Some v) = inl v /\ publicConnectorConfig (Some v) = config.
Proof.
  apply normalized_members in Hv as (c & -> & Hn & Ho & Hs & Hset). exists c. split; [done|].
  apply everywhere_inv in Hnum as [_ Hnum]. cbn [children] in Hnum.
  assert (Hall : Forall unchanged (map snd c)).
  { eapply Forall_impl; [exact (forall_children _ _ _ Hset Hnum)|]. intros v [Hv1 Hv2]. apply fixed_unchanged.
    exact (everywhere_and _ _ _ Hv1 Hv2). }
  destruct (fixed_fields c Hn Ho Hs Hall) as (Hd & Hw & Hpr & Hpub & Hsort).
  destruct (open_no_secrets (JObj c)) as [Hk Hv].
  { constructor; [exact Ho|]. eapply Forall_impl; [exact Hset|]. apply settled_open. }
  unfold normalizeConnectorConfig, publicConnectorConfig. cbn [unmarshal_any_map]. rewrite Hd. cbn [rbind].
  by rewrite Hw, Hk, Hv, Hpr, Hsort, Hpub.
Qed.
End Answers.
