(* ===== verification/HttpCredentialsFacts.v ===== *)
(** * The inventory of credentials is merged by reference

    What is normalized stays as it is, and the merged items are the groups of the
    items with one reference. *)

From S2P Require Import Prelude GoStrings GoStringsFacts GoRegexp GoJson GoNet StringUtil AuditLog.
From S2P Require Import Db DbHttp DbApplications DbServers DbInventory Effects Runner GoHttp.
From S2P Require Import GithubConnector Connectors HttpCore HttpGuardFacts HttpVariables HttpServers HttpCredentials.

(** ** The first element of every key *)

Fixpoint first_by {A} (key : A -> str) (l : list A) : list A :=
  match l with
  | [] => []
  | x :: t => x :: List.filter (fun y => negb (key y =s key x)) (first_by key t)
  end.

Section FirstBy.
Context {A : Type} (key : A -> str).

Lemma first_by_filter (q : str -> bool) l :
  first_by key (List.filter (fun x => q (key x)) l) = List.filter (fun x => q (key x)) (first_by key l).
Proof.
  induction l as [|x t IH]; [done|]. cbn [List.filter first_by]. destruct (q (key x)) eqn:E.
  - cbn [first_by]. rewrite IH, !filter_filter_and. f_equal. apply filter_ext. intros y. apply andb_comm.
  - rewrite IH, filter_filter_and. apply filter_ext_in. intros y _.
    destruct (key y =s key x) eqn:Ek; [|by rewrite andb_true_r]. apply str_eqb_eq in Ek. by rewrite Ek, E.
Qed.

Lemma first_by_elem l x : x ∈ first_by key l -> x ∈ l.
Proof.
  revert x. induction l as [|y t IH]; intros x; [done|]. cbn [first_by]. intros [->|Hx]%elem_of_cons; [left|right].
  apply IH. apply list_elem_of_In, filter_In in Hx as [Hx _]. by apply list_elem_of_In.
Qed.

Lemma first_by_NoDup l : NoDup (map key (first_by key l)).
Proof.
  induction l as [|x t IH]; cbn [first_by map]; [constructor|]. constructor.
  - intros (y & Hk & Hy)%list_elem_of_fmap. apply list_elem_of_In, filter_In in Hy as [_ Hn].
    by rewrite <- Hk, str_eqb_refl in Hn.
  - eapply sublist_NoDup; [exact IH|]. clear IH. induction (first_by key t) as [|y l IHl]; [constructor|]. cbn [List.filter map].
    destruct (negb _); cbn [map]; by constructor.
Qed.

Lemma first_by_id l : NoDup (map key l) -> first_by key l = l.
Proof.
  induction l as [|x t IH]; [done|]. cbn [map first_by]. intros [Hx Hn]%NoDup_cons. rewrite IH by done. f_equal.
  apply filter_all. intros y Hy. apply negb_true_iff, str_eqb_neq. intros Hk. apply Hx. rewrite <- Hk.
  apply list_elem_of_fmap. by exists y.
Qed.

Lemma first_by_cover l x : x ∈ l -> exists y, y ∈ first_by key l /\ key y = key x.
Proof.
  induction l as [|z t IH]; [by intros ?%not_elem_of_nil|]. intros [->|Hx]%elem_of_cons; cbn [first_by]; [exists z; by split; [left|]|].
  destruct (decide (key x = key z)) as [Hk|Hk]; [exists z; by split; [left|]|].
  destruct (IH Hx) as (y & Hy & Hyk). exists y. split; [|done]. right. apply list_elem_of_In, filter_In.
  split; [by apply list_elem_of_In|]. apply negb_true_iff, str_eqb_neq. congruence.
Qed.

Lemma first_by_app a b :
  first_by key (a ++ b) = first_by key a ++ List.filter (fun y => negb (existsb (fun x => key x =s key y) a)) (first_by key b).
Proof.
  induction a as [|x t IH]; cbn [app first_by existsb].
  - symmetry. by apply filter_all.
  - rewrite IH, List.filter_app, filter_filter_and. cbn [app]. do 2 f_equal. apply filter_ext. intros y.
    by rewrite negb_orb, (str_eqb_sym (key y)).
Qed.

Lemma first_by_first a b : first_by key (first_by key a ++ b) = first_by key (a ++ b).
Proof.
  rewrite !first_by_app, (first_by_id (first_by key a)) by apply first_by_NoDup. f_equal. apply filter_ext. intros y. f_equal.
  apply eq_true_iff_eq. rewrite !existsb_exists. split; intros (x & Hx & Hk%str_eqb_eq).
  - exists x. split; [by apply list_elem_of_In, first_by_elem, list_elem_of_In|by apply str_eqb_eq].
  - apply list_elem_of_In, first_by_cover in Hx as (z & Hz & Hzk). exists z.
    split; [by apply list_elem_of_In|apply str_eqb_eq; congruence].
Qed.
End FirstBy.

Section Merging.
Context `{UnicodeTables} `{UuidLib} `{SshLib} `{MapOrder}.

(** ** Normalized values *)

Definition normal_permission (p : Permission.t) : Prop := prepare_permission p = inl p.
Definition normal_usage (u : Usage.t) : Prop := prepare_usage u = inl u.

Lemma or_default_trimmed s d : TrimSpace d = d -> TrimSpace (or_default (TrimSpace s) d) = or_default (TrimSpace s) d.
Proof. intros Hd. unfold or_default. destruct (_ =s _); [done|apply TrimSpace_idem]. Qed.
Lemma or_default_again s d : or_default (or_default s d) d = or_default s d.
Proof. unfold or_default. destruct (s =s []) eqn:E; [by destruct (d =s [])|by rewrite E]. Qed.

Lemma prepare_permission_normal p q : prepare_permission p = inl q -> normal_permission q.
Proof.
  destruct p as [type name permission source]. unfold normal_permission, prepare_permission.
  destruct (_ || _) eqn:E; [done|]. destruct (hasControlCharacters _) eqn:Ec; [done|]. intros [= <-].
  rewrite !TrimSpace_idem, or_default_trimmed, or_default_again by done. by rewrite E, Ec.
Qed.

Lemma prepare_usage_normal u v : prepare_usage u = inl v -> normal_usage v.
Proof.
  destruct u as [type name context]. unfold normal_usage, prepare_usage.
  destruct (_ || _) eqn:E; [done|]. destruct (hasControlCharacters _) eqn:Ec; [done|]. intros [= <-].
  rewrite !TrimSpace_idem. by rewrite E, Ec.
Qed.

Section Loop.
Context {A : Type} (prepare : A -> result A) (key : A -> str).

Lemma first_of_each_normal l seen : Forall (fun x => prepare x = inl x) l ->
  first_of_each prepare key l seen = inl (List.filter (fun x => negb (bool_decide (key x ∈ seen))) (first_by key l)).
Proof.
  intros Hl. revert seen. induction Hl as [|x t Hx _ IH]; intros seen; [done|]. cbn [first_of_each first_by List.filter].
  rewrite Hx. cbn [rbind]. destruct (bool_decide (key x ∈ seen)) eqn:E; cbn [negb]; rewrite IH.
  - rewrite filter_filter_and. f_equal. apply filter_ext. intros y. destruct (key y =s key x) eqn:Ek; [|by rewrite andb_true_r].
    apply str_eqb_eq in Ek. by rewrite Ek, E.
  - cbn [rbind]. do 2 f_equal. rewrite filter_filter_and. apply filter_ext. intros y. rewrite <- negb_orb. f_equal.
    apply eq_true_iff_eq. rewrite orb_true_iff, !bool_decide_eq_true, str_eqb_eq, elem_of_union, elem_of_singleton. tauto.
Qed.

Lemma first_of_each_keeps l seen out (P : A -> Prop) :
  (forall x y, prepare x = inl y -> P y) -> first_of_each prepare key l seen = inl out -> Forall P out.
Proof.
  intros HP. revert seen out. induction l as [|x t IH]; intros seen out; cbn [first_of_each]; [by intros [= <-]|].
  intros (y & Hy & Ho)%rbind_ok. case_bool_decide; [by apply (IH seen)|]. apply rbind_ok in Ho as (rest & Hr & Ho).
  injection Ho as <-. constructor; [by apply (HP x)|by apply (IH ({[key y]} ∪ seen))].
Qed.

Lemma first_of_each_keys l seen out : first_of_each prepare key l seen = inl out ->
  NoDup (map key out) /\ forall x, x ∈ out -> key x ∉ seen.
Proof.
  revert seen out. induction l as [|x t IH]; intros seen out; cbn [first_of_each].
  { intros [= <-]. split; [constructor|by intros x ?%not_elem_of_nil]. }
  intros (y & Hy & Ho)%rbind_ok. case_bool_decide as Hin; [by apply (IH seen)|]. apply rbind_ok in Ho as (rest & Hr & Ho).
  injection Ho as <-. destruct (IH _ _ Hr) as [Hn Hs]. split.
  - cbn [map]. constructor; [|done]. intros (z & Hk & Hz)%list_elem_of_fmap. apply (Hs z Hz). rewrite <- Hk. set_solver.
  - intros z [->|Hz]%elem_of_cons; [done|]. pose proof (Hs z Hz). set_solver.
Qed.
End Loop.

Lemma first_of_all {A} (prepare : A -> result A) key l : Forall (fun x => prepare x = inl x) l ->
  first_of_each prepare key l ∅ = inl (first_by key l).
Proof.
  intros Hl. rewrite first_of_each_normal by done. f_equal. apply filter_all. intros x _. by rewrite bool_decide_false by set_solver.
Qed.

(** ** Normalized items *)

Definition normal_item (i : Item.t) : Prop := normalizeCredentialInventoryItem i = inl i.

Lemma allowed_lower provider : existsb (str_eqb provider) allowedCredentialProviders = true ->
  ToLower (TrimSpace provider) = provider.
Proof.
  intros (p & Hp & <-%str_eqb_eq)%existsb_exists.
  repeat (destruct Hp as [<-|Hp]; [reflexivity|]). destruct Hp.
Qed.

Lemma normalize_permissions_fixed l out : normalizeCredentialPermissions l = inl out ->
  Forall normal_permission out /\ normalizeCredentialPermissions out = inl out /\ first_by permission_key out = out.
Proof.
  unfold normalizeCredentialPermissions. intros Hl.
  assert (Hn : Forall normal_permission out) by exact (first_of_each_keeps _ _ _ _ _ _ prepare_permission_normal Hl).
  assert (Hf : first_by permission_key out = out) by exact (first_by_id _ _ (proj1 (first_of_each_keys _ _ _ _ _ Hl))).
  split; [done|]. split; [|done]. rewrite (first_of_all prepare_permission permission_key out Hn). by rewrite Hf.
Qed.

Lemma normalize_usages_fixed l out : normalizeCredentialUsages l = inl out ->
  Forall normal_usage out /\ normalizeCredentialUsages out = inl out /\ first_by usage_key out = out.
Proof.
  unfold normalizeCredentialUsages. intros Hl.
  assert (Hn : Forall normal_usage out) by exact (first_of_each_keeps _ _ _ _ _ _ prepare_usage_normal Hl).
  assert (Hf : first_by usage_key out = out) by exact (first_by_id _ _ (proj1 (first_of_each_keys _ _ _ _ _ Hl))).
  split; [done|]. split; [|done]. rewrite (first_of_all prepare_usage usage_key out Hn). by rewrite Hf.
Qed.

Lemma normalize_item_normal i j : normalizeCredentialInventoryItem i = inl j -> normal_item j.
Proof.
  destruct i as [name provider ref type status permissions usages]. unfold normal_item, normalizeCredentialInventoryItem.
  set (status' := or_default _ _). destruct (negb _) eqn:E1; [done|]. destruct (_ || _) eqn:E2; [done|].
  destruct (hasControlCharacters _) eqn:E3; [done|]. destruct (looksLikeSecretMaterial _) eqn:E4; [done|].
  destruct (negb (existsb _ _)) eqn:E5; [done|]. intros (ps & Hps & Hj)%rbind_ok. apply rbind_ok in Hj as (us & Hus & Hj).
  injection Hj as <-. apply normalize_permissions_fixed in Hps as (_ & Hps & _).
  apply normalize_usages_fixed in Hus as (_ & Hus & _).
  rewrite !TrimSpace_idem, allowed_lower by by apply negb_false_iff in E5.
  replace (or_default (TrimSpace status') (lit "active")) with status'
    by (unfold status'; rewrite or_default_trimmed by done; by rewrite or_default_again).
  by rewrite E1, E2, E3, E4, E5, Hps, Hus.
Qed.

Lemma normalize_items_normal l out : normalize_items l = inl out -> Forall normal_item out.
Proof.
  revert out. induction l as [|i t IH]; intros out; cbn [normalize_items]; [by intros [= <-]|].
  intros (j & Hj & Ho)%rbind_ok. apply rbind_ok in Ho as (rest & Hr & Ho). injection Ho as <-.
  constructor; [exact (normalize_item_normal _ _ Hj)|by apply IH].
Qed.

Lemma normal_items_fixed l : Forall normal_item l -> normalize_items l = inl l.
Proof. induction 1 as [|i t Hi _ IH]; [done|]. cbn [normalize_items]. rewrite Hi. cbn [rbind]. by rewrite IH. Qed.

(** ** The reference: one item for every reference *)

Definition by_priority : list str := [lit "revoked"; lit "rotating"; lit "unknown"; lit "active"].
Definition top_status (l : list str) : str := default [] (List.find (fun s => existsb (str_eqb s) l) by_priority).

(** The first item of the group names the credential. *)
Definition group_item (group : list Item.t) : Item.t :=
  match group with
  | [] => Item.mk [] [] [] [] [] [] []
  | i :: _ =>
      Item.mk (Item.Name i) (Item.Provider i) (Item.ExternalRef i) (Item.Kind i) (top_status (map Item.Status group))
        (first_by permission_key (concat (map Item.Permissions group))) (first_by usage_key (concat (map Item.Usages group)))
  end.

Definition references (items : list Item.t) : list str := first_by (fun k => k) (map credentialInventoryKey items).
Definition group_of (key : str) (items : list Item.t) : list Item.t := List.filter (fun i => credentialInventoryKey i =s key) items.
Definition merged_by_reference (items : list Item.t) : list Item.t :=
  map (fun key => group_item (group_of key items)) (references items).

Lemma top_status_one s : s ∈ by_priority -> top_status [s] = s.
Proof. unfold by_priority. rewrite !elem_of_cons, elem_of_nil. by intros [->|[->|[->|[->|[]]]]]. Qed.

Lemma priority_cases (a b c d : bool) s : s ∈ by_priority -> a || b || c || d = true ->
  let pick (a b c d : bool) := if a then lit "revoked" else if b then lit "rotating" else if c then lit "unknown"
                              else if d then lit "active" else [] in
  pick (a || (lit "revoked" =s s)) (b || (lit "rotating" =s s)) (c || (lit "unknown" =s s)) (d || (lit "active" =s s))
  = mergedCredentialStatus (pick a b c d) s.
Proof.
  unfold by_priority. rewrite !elem_of_cons, elem_of_nil.
  intros [->|[->|[->|[->|[]]]]] Hany; destruct a, b, c, d; first [discriminate Hany|reflexivity].
Qed.

Lemma top_status_snoc l s : l <> [] -> Forall (fun x => x ∈ by_priority) l -> s ∈ by_priority ->
  top_status (l ++ [s]) = mergedCredentialStatus (top_status l) s.
Proof.
  intros Hne Hl Hs. unfold top_status, by_priority. cbn [List.find]. rewrite !existsb_app. cbn [existsb]. rewrite !orb_false_r.
  pose proof (priority_cases (existsb (str_eqb (lit "revoked")) l) (existsb (str_eqb (lit "rotating")) l)
    (existsb (str_eqb (lit "unknown")) l) (existsb (str_eqb (lit "active")) l) s Hs) as Hp. cbv zeta in Hp.
  assert (Hany : existsb (str_eqb (lit "revoked")) l || existsb (str_eqb (lit "rotating")) l
    || existsb (str_eqb (lit "unknown")) l || existsb (str_eqb (lit "active")) l = true).
  { destruct l as [|x t]; [done|]. inversion Hl as [|? ? Hx _]; subst. cbn [existsb]. clear - Hx. unfold by_priority in Hx.
    rewrite !elem_of_cons, elem_of_nil in Hx. destruct Hx as [->|[->|[->|[->|[]]]]]; rewrite str_eqb_refl; cbn [orb];
      by rewrite ?orb_true_r. }
  specialize (Hp Hany). repeat (match goal with |- context [if ?c then _ else _] => destruct c end); exact Hp.
Qed.

(** ** Groups *)

Lemma normal_item_parts i : normal_item i ->
  Item.Status i ∈ by_priority /\ Forall normal_permission (Item.Permissions i) /\ Forall normal_usage (Item.Usages i)
  /\ first_by permission_key (Item.Permissions i) = Item.Permissions i /\ first_by usage_key (Item.Usages i) = Item.Usages i.
Proof.
  destruct i as [name provider ref type status permissions usages]. unfold normal_item, normalizeCredentialInventoryItem.
  set (status' := or_default _ _). destruct (negb _) eqn:E1; [done|].
  repeat (match goal with |- (if ?c then _ else _) = _ -> _ => destruct c; [done|] end).
  intros (ps & Hps & Hj)%rbind_ok. apply rbind_ok in Hj as (us & Hus & Hj). injection Hj as _ _ _ _ Hst Hp Hu. subst ps us.
  cbn [Item.Status Item.Permissions Item.Usages].
  apply normalize_permissions_fixed in Hps as (Hp1 & _ & Hp2). apply normalize_usages_fixed in Hus as (Hu1 & _ & Hu2).
  split; [|by repeat split]. rewrite <- Hst. apply negb_false_iff in E1. unfold validCredentialStatus, NormalizeCredentialStatus in E1.
  assert (Htrim : TrimSpace status' = status') by by apply or_default_trimmed.
  rewrite Htrim in E1. destruct (status' =s []) eqn:E.
  - unfold status', or_default in E. destruct (TrimSpace status =s []) eqn:E'; [done|congruence].
  - destruct (_ || _) eqn:E'; [|done]. unfold by_priority. rewrite !elem_of_cons. rewrite !orb_true_iff, !str_eqb_eq in E'. tauto.
Qed.

Lemma group_item_one i : normal_item i -> group_item [i] = i.
Proof.
  intros Hi. destruct (normal_item_parts i Hi) as (Hs & _ & _ & Hp & Hu). unfold group_item. cbn [map concat].
  rewrite !app_nil_r, top_status_one, Hp, Hu by done. by destruct i.
Qed.

Lemma group_parts g : Forall normal_item g ->
  Forall normal_permission (concat (map Item.Permissions g)) /\ Forall normal_usage (concat (map Item.Usages g))
  /\ Forall (fun x => x ∈ by_priority) (map Item.Status g).
Proof.
  induction 1 as [|x t Hx _ (IH1 & IH2 & IH3)]; [repeat split; constructor|].
  destruct (normal_item_parts x Hx) as (Hxs & Hxp & Hxu & _). cbn [map concat].
  split; [by apply Forall_app|]. split; [by apply Forall_app|by constructor].
Qed.

Lemma group_item_snoc g i : g <> [] -> Forall normal_item g -> normal_item i ->
  group_item (g ++ [i]) = merge_item (group_item g) i.
Proof.
  intros Hne Hg Hi. destruct (normal_item_parts i Hi) as (Hs & Hp & Hu & _).
  destruct (group_parts g Hg) as (Hgp & Hgu & Hgs). destruct g as [|x t]; [done|]. unfold merge_item.
  assert (Hstatus : top_status (map Item.Status ((x :: t) ++ [i]))
                    = mergedCredentialStatus (top_status (map Item.Status (x :: t))) (Item.Status i)).
  { rewrite map_app. by apply top_status_snoc. }
  assert (Hperm : or_nil (normalizeCredentialPermissions (first_by permission_key (concat (map Item.Permissions (x :: t)))
                          ++ Item.Permissions i)) = first_by permission_key (concat (map Item.Permissions ((x :: t) ++ [i])))).
  { unfold normalizeCredentialPermissions. rewrite (first_of_all prepare_permission permission_key).
    - cbn [or_nil]. rewrite first_by_first, map_app, concat_app. cbn [map concat]. by rewrite app_nil_r.
    - apply Forall_app. split; [|exact Hp]. apply Forall_forall. intros p Hin%first_by_elem. by rewrite Forall_forall in Hgp; apply Hgp. }
  assert (Huse : or_nil (normalizeCredentialUsages (first_by usage_key (concat (map Item.Usages (x :: t)))
                          ++ Item.Usages i)) = first_by usage_key (concat (map Item.Usages ((x :: t) ++ [i])))).
  { unfold normalizeCredentialUsages. rewrite (first_of_all prepare_usage usage_key).
    - cbn [or_nil]. rewrite first_by_first, map_app, concat_app. cbn [map concat]. by rewrite app_nil_r.
    - apply Forall_app. split; [|exact Hu]. apply Forall_forall. intros p Hin%first_by_elem. by rewrite Forall_forall in Hgu; apply Hgu. }
  cbn [group_item Item.Name Item.Provider Item.ExternalRef Item.Kind Item.Status Item.Permissions Item.Usages].
  cbn [app] in *. cbn [group_item]. by rewrite Hstatus, Hperm, Huse.
Qed.

Lemma group_normal key items : Forall normal_item items -> Forall normal_item (group_of key items).
Proof.
  rewrite !Forall_forall. intros Hn i Hi. apply list_elem_of_In, filter_In in Hi as [Hi _]. by apply Hn, list_elem_of_In.
Qed.

Lemma group_of_snoc key items i :
  group_of key (items ++ [i]) = group_of key items ++ (if credentialInventoryKey i =s key then [i] else []).
Proof. unfold group_of. rewrite List.filter_app. cbn [List.filter]. by destruct (_ =s key). Qed.

Lemma group_of_other key items : key ∉ references items -> group_of key items = [].
Proof.
  intros Hk. apply filter_none. intros i Hi. apply str_eqb_neq. intros <-. apply Hk.
  destruct (first_by_cover (fun k => k) (map credentialInventoryKey items) (credentialInventoryKey i)) as (y & Hy & ->); [|done].
  apply list_elem_of_fmap. by exists i.
Qed.

Lemma group_of_known key items : key ∈ references items -> group_of key items <> [].
Proof.
  intros Hk%first_by_elem. apply list_elem_of_fmap in Hk as (i & -> & Hi). intros Hnil.
  assert (Hin : i ∈ group_of (credentialInventoryKey i) items); [|rewrite Hnil in Hin; by apply not_elem_of_nil in Hin].
  apply list_elem_of_In, filter_In. split; [by apply list_elem_of_In|apply str_eqb_refl].
Qed.

Lemma references_snoc items i :
  references (items ++ [i]) = references items
    ++ (if bool_decide (credentialInventoryKey i ∈ references items) then [] else [credentialInventoryKey i]).
Proof.
  unfold references. rewrite map_app, first_by_app. f_equal. cbn [map first_by List.filter].
  set (k := credentialInventoryKey i). set (l := map credentialInventoryKey items).
  assert (He : existsb (fun x => x =s k) l = bool_decide (k ∈ first_by (fun x => x) l)).
  { apply eq_true_iff_eq. rewrite existsb_exists, bool_decide_eq_true. split.
    - intros (x & Hx & <-%str_eqb_eq). destruct (first_by_cover (fun x => x) l x) as (y & Hy & ->); [by apply list_elem_of_In|done].
    - intros Hk%first_by_elem. exists k. split; [by apply list_elem_of_In|apply str_eqb_refl]. }
  rewrite He. by destruct (bool_decide _).
Qed.

(** What the loop has merged so far, and the index of every reference. *)
Definition merging (items : list Item.t) (state : list Item.t * gmap str nat) : Prop :=
  state.1 = merged_by_reference items /\ forall key n, state.2 !! key = Some n <-> references items !! n = Some key.

Lemma map_alter {A B} (f g : A -> B) (h : B -> B) (l : list A) n x : l !! n = Some x -> NoDup l ->
  (forall y, y ∈ l -> y <> x -> g y = f y) -> g x = h (f x) -> alter h n (map f l) = map g l.
Proof.
  revert n. induction l as [|y t IH]; intros n Hn Hnd Hother Hx; [done|]. apply NoDup_cons in Hnd as [Hy Hnd].
  destruct n as [|n]; cbn in Hn.
  - injection Hn as ->. cbn [map]. change (alter h 0 (f x :: map f t)) with (h (f x) :: map f t). rewrite Hx. f_equal.
    apply map_ext_in. intros z Hz%list_elem_of_In. symmetry. apply Hother; [by right|]. intros ->. by apply Hy.
  - cbn [map]. change (alter h (S n) (f y :: map f t)) with (f y :: alter h n (map f t)). f_equal.
    + symmetry. apply Hother; [by left|]. intros ->. apply Hy. by eapply list_elem_of_lookup_2.
    + apply IH; [done|done| |done]. intros z Hz. apply Hother. by right.
Qed.

Lemma merge_step_merging items i state : Forall normal_item items -> normal_item i ->
  merging items state -> merging (items ++ [i]) (merge_step state i).
Proof.
  intros Hn Hi [Hm Hidx]. destruct state as [merged index]. cbn [fst snd] in *. unfold merge_step.
  set (key := credentialInventoryKey i). assert (Hnd : NoDup (references items)).
  { rewrite <- (map_id (references items)). apply first_by_NoDup. }
  assert (Hsame : forall k, k <> key -> group_of k (items ++ [i]) = group_of k items).
  { intros k Hk. rewrite group_of_snoc. fold key. rewrite (proj2 (str_eqb_neq key k)) by congruence. apply app_nil_r. }
  assert (Hkey : group_of key (items ++ [i]) = group_of key items ++ [i]) by by rewrite group_of_snoc, str_eqb_refl.
  destruct (index !! key) as [n|] eqn:En; unfold merging; cbn [fst snd]; unfold merged_by_reference; rewrite references_snoc; fold key.
  - apply Hidx in En. rewrite bool_decide_true by (by eapply list_elem_of_lookup_2). rewrite app_nil_r. split; [|exact Hidx].
    rewrite Hm. apply (map_alter _ _ _ _ n key En Hnd).
    + intros k _ Hk. by rewrite Hsame.
    + rewrite Hkey. apply group_item_snoc; [|by apply group_normal|done]. apply group_of_known. by eapply list_elem_of_lookup_2.
  - assert (Hfresh : key ∉ references items).
    { intros [n Hin]%list_elem_of_lookup_1. apply Hidx in Hin. congruence. }
    rewrite bool_decide_false by done. split.
    + rewrite map_app, Hm. cbn [map]. rewrite Hkey, group_of_other by done. cbn [app].
      rewrite group_item_one by done. f_equal.
      apply map_ext_in. intros k Hk%list_elem_of_In. rewrite Hsame; [done|]. by intros ->.
    + assert (Hlen : length merged = length (references items)) by (rewrite Hm; apply length_map). rewrite Hlen.
      intros k n. rewrite lookup_insert_Some, lookup_snoc_Some, Hidx. split.
      * intros [[<- <-]|[Hne Hk]]; [by right|left]. split; [by eapply lookup_lt_Some|done].
      * intros [[_ Hk]|[-> <-]]; [right|by left]. split; [|done]. intros <-. apply Hfresh. by eapply list_elem_of_lookup_2.
Qed.

Lemma merge_loop items : Forall normal_item items -> merging items (fold_left merge_step items ([], ∅)).
Proof.
  induction items as [|i items IH] using rev_ind; intros Hn.
  - split; [done|]. intros key n. cbn. rewrite lookup_empty. done.
  - apply Forall_app in Hn as [Hn Hi]. rewrite fold_left_app. apply merge_step_merging; [done|by inversion Hi|by apply IH].
Qed.

Lemma normal_identity i status permissions usages : normal_item i -> status ∈ by_priority ->
  Forall normal_permission permissions -> first_by permission_key permissions = permissions ->
  Forall normal_usage usages -> first_by usage_key usages = usages ->
  normal_item (Item.mk (Item.Name i) (Item.Provider i) (Item.ExternalRef i) (Item.Kind i) status permissions usages).
Proof.
  destruct i as [name provider ref type status0 ps us]. intros Hi Hs Hp Hp' Hu Hu'. revert Hi.
  unfold normal_item, normalizeCredentialInventoryItem. cbn [Item.Name Item.Provider Item.ExternalRef Item.Kind].
  assert (Hst : or_default (TrimSpace status) (lit "active") = status /\ validCredentialStatus status = true).
  { clear - Hs. unfold by_priority in Hs. rewrite !elem_of_cons, elem_of_nil in Hs.
    by destruct Hs as [->|[->|[->|[->|[]]]]]. }
  destruct Hst as [-> ->]. cbn [negb]. destruct (negb (validCredentialStatus _)); [done|].
  repeat (match goal with |- (if ?c then _ else _) = _ -> _ => destruct c; [done|] end).
  intros (ps' & _ & Hj)%rbind_ok. apply rbind_ok in Hj as (us' & _ & Hj). injection Hj as Hname Hprov Href Htype _ _ _.
  unfold normalizeCredentialPermissions, normalizeCredentialUsages.
  rewrite (first_of_all prepare_permission permission_key), Hp', (first_of_all prepare_usage usage_key), Hu' by done.
  cbn [rbind]. by rewrite Hname, Hprov, Href, Htype.
Qed.

Lemma top_status_known l : l <> [] -> Forall (fun x => x ∈ by_priority) l -> top_status l ∈ by_priority.
Proof.
  intros Hne Hl. unfold top_status. destruct (List.find _ _) as [s|] eqn:Ef; cbn [default].
  - apply find_some in Ef as [Hin _]. by apply list_elem_of_In.
  - destruct l as [|x t]; [done|]. inversion Hl as [|? ? Hx _]; subst. apply list_elem_of_In in Hx.
    apply (find_none _ _ Ef) in Hx. cbn [existsb] in Hx. by rewrite str_eqb_refl in Hx.
Qed.

Lemma group_item_normal g : g <> [] -> Forall normal_item g -> normal_item (group_item g).
Proof.
  intros Hne Hg. pose proof (group_parts g Hg) as (Hp & Hu & Hs). destruct g as [|i t]; [done|]. inversion Hg as [|? ? Hi _]; subst.
  apply normal_identity; [done|by apply top_status_known| | | |];
    first [apply first_by_id, first_by_NoDup | apply Forall_forall; intros x Hx%first_by_elem; revert x Hx; by apply Forall_forall].
Qed.

Lemma group_item_key g key : g <> [] -> Forall (fun i => credentialInventoryKey i = key) g -> credentialInventoryKey (group_item g) = key.
Proof. destruct g as [|i t]; [done|]. intros _ Hg. by inversion Hg. Qed.

Lemma merged_keys items : map credentialInventoryKey (merged_by_reference items) = references items.
Proof.
  unfold merged_by_reference. rewrite map_map. rewrite <- (map_id (references items)) at 2. apply map_ext_in.
  intros k Hk%list_elem_of_In. apply group_item_key; [by apply group_of_known|]. apply Forall_forall.
  intros i Hi. apply list_elem_of_In, filter_In in Hi as [_ Hi]. by apply str_eqb_eq.
Qed.

Lemma accepted_merged credentials out : normalizeCredentialInventoryInput credentials = inl out ->
  exists items, normalize_items credentials = inl items /\ Forall normal_item items /\ out = merged_by_reference items.
Proof.
  unfold normalizeCredentialInventoryInput. destruct credentials as [|c t]; [done|].
  destruct (_ <? _)%nat; [done|]. intros (items & Hitems & Hout)%rbind_ok. injection Hout as <-.
  exists items. pose proof (normalize_items_normal _ _ Hitems) as Hn. split; [done|]. split; [done|].
  exact (proj1 (merge_loop items Hn)).
Qed.

Lemma accepted_items credentials out : normalizeCredentialInventoryInput credentials = inl out ->
  Forall normal_item out /\ NoDup (map credentialInventoryKey out).
Proof.
  intros (items & _ & Hn & ->)%accepted_merged. split.
  - apply Forall_map, Forall_forall. intros k Hk. apply group_item_normal; [by apply group_of_known|by apply group_normal].
  - rewrite merged_keys. unfold references. rewrite <- (map_id (first_by _ _)). apply first_by_NoDup.
Qed.

(** an accepted inventory has one item for every reference: the items are
    normalized one by one, and the result is, for every provider and reference in
    the order of their first appearance, the first item's name and type with the
    most severe status of all, and all permissions and usages, the first of every
    key.  Normalizing the result again changes nothing. *)
Theorem inventory_merges_by_reference credentials out (Hout : normalizeCredentialInventoryInput credentials = inl out) :
  exists items, normalize_items credentials = inl items /\ out = merged_by_reference items
    /\ NoDup (map credentialInventoryKey out) /\ normalize_items out = inl out.
Proof.
  destruct (accepted_merged _ _ Hout) as (items & Hitems & _ & Heq). destruct (accepted_items _ _ Hout) as [Hn Hnd].
  exists items. split; [done|]. split; [done|]. split; [done|]. by apply normal_items_fixed.
Qed.
End Merging.
