(* ===== verification/HttpDevUsers.v ===== *)
(** * internal/httpapi/server_dev_users.go: users with sudo rights on a server

    The list of a server's developers in the database, the commands that write it
    to the server and provision the accounts, and the handlers that change it. *)

From S2P Require Import Prelude GoStrings GoStringsFacts GoRegexp GoJson GoNet StringUtil AuditLog.
From S2P Require Import Db DbHttp DbServers RemoteSteps Effects Runner GoHttp HttpCore.
From S2P Require Import HttpDeployments HttpApplications HttpServers.

Definition devUsersFilePath : str := lit "/srv/deploy-manager/ops/dev-sudo-users.txt".
Definition devUsersProvisionPath : str := lit "/srv/deploy-manager/ops/provision-dev-sudo-users.sh".
Definition devUsersMaxUsernameLength : nat := 32.

(** [^[a-z_][a-z0-9_-]{0,31}$] *)
Definition linuxUsernamePattern : regex :=
  RSeqs [RBol; RClass (fun r => is_lower_ascii r || (r =? 95)%N);
         RRep (fun r => is_lower_ascii r || is_digit r || class (lit "_-") r) 0 (Some 31%nat) true; REol].

(** The text with a double quote for every at sign. *)
Definition at_quotes (s : str) : str := ReplaceAll s (lit "@") dquote.

Definition devUsersProvisionScript : str := at_quotes "#!/usr/bin/env bash
set -euo pipefail

users_file=@${1:-/srv/deploy-manager/ops/dev-sudo-users.txt}@

if [[ ! -f @$users_file@ ]]; then
  echo @users file not found: $users_file@ >&2
  exit 1
fi

if [[ @${EUID}@ -ne 0 ]]; then
  exec sudo -- @$0@ @$users_file@
fi

if ! getent group docker >/dev/null; then
  groupadd --system docker
fi

if ! getent group sudo >/dev/null; then
  groupadd --system sudo
fi

if ! getent group deployers >/dev/null; then
  groupadd --system deployers
fi

sudoers_file=@/etc/sudoers.d/90-prosights-devs@
tmp_sudoers=@$(mktemp)@
old_users=@$(mktemp)@
desired_users=@$(mktemp)@
trap 'rm -f @$tmp_sudoers@ @$old_users@ @$desired_users@' EXIT

if [[ -f @$sudoers_file@ ]]; then
  awk '/^[a-z_][a-z0-9_-]* ALL=\(ALL\) NOPASSWD:ALL$/ { print $1 }' @$sudoers_file@ >@$old_users@
fi

while IFS= read -r raw_user || [[ -n @$raw_user@ ]]; do
  user=@${raw_user%%#*}@
  user=@${user//[[:space:]]/}@

  if [[ -z @$user@ ]]; then
    continue
  fi

  if [[ ! @$user@ =~ ^[a-z_][a-z0-9_-]{0,31}$ ]]; then
    echo @invalid Linux username: $user@ >&2
    exit 1
  fi

  printf '%s\n' @$user@ >>@$desired_users@

  if ! id @$user@ >/dev/null 2>&1; then
    useradd --create-home --shell /bin/bash @$user@
  fi

  usermod -aG sudo,docker,deployers @$user@
  printf '%s ALL=(ALL) NOPASSWD:ALL\n' @$user@ >>@$tmp_sudoers@
done <@$users_file@

while IFS= read -r old_user || [[ -n @$old_user@ ]]; do
  if [[ -z @$old_user@ ]] || grep -Fxq @$old_user@ @$desired_users@; then
    continue
  fi
  if id @$old_user@ >/dev/null 2>&1; then
    gpasswd -d @$old_user@ sudo >/dev/null 2>&1 || true
    gpasswd -d @$old_user@ docker >/dev/null 2>&1 || true
    gpasswd -d @$old_user@ deployers >/dev/null 2>&1 || true
  fi
done <@$old_users@

install -o root -g root -m 0440 @$tmp_sudoers@ @$sudoers_file@
visudo -cf @$sudoers_file@
".

Section DevUsers.
Context `{UnicodeTables}.

(** ** Lists of users *)

Definition normalizeDevUsername (username : str) : result str :=
  let username := TrimSpace username in
  if username =s [] then inr (ErrValidation (lit "username is required"))
  else if (devUsersMaxUsernameLength <? length username)%nat
  then inr (ErrValidation (lit "username must be 32 characters or fewer"))
  else if negb (MatchString linuxUsernamePattern username)
  then inr (ErrValidation (lit "username must be a valid Linux username"))
  else inl username.

Definition addDevUser (users : list str) (username : str) : list str :=
  if existsb (fun existing => existing =s username) users then users else sort_Strings (users ++ [username]).

Fixpoint replace_users (users : list str) (oldUsername newUsername : str) (next : list str) : list str :=
  match users with
  | [] => next
  | user :: t => replace_users t oldUsername newUsername (addDevUser next (if user =s oldUsername then newUsername else user))
  end.

Definition replaceDevUser (users : list str) (oldUsername newUsername : str) : result (list str) :=
  if negb (existsb (fun user => user =s oldUsername) users)
  then inr (ErrNotFound (lit "username " ++ fmt_q oldUsername ++ lit " not found"))
  else inl (replace_users users oldUsername newUsername []).

(** The slice is filtered in place; the caller does not use the old one any more. *)
Definition removeDevUser (users : list str) (username : str) : list str :=
  List.filter (fun user => negb (user =s username)) users.

(** ** The file *)

Fixpoint normalized_users (users normalized : list str) : list str :=
  match users with
  | [] => normalized
  | user :: t =>
      normalized_users t (match normalizeDevUsername user with
                          | inl username => addDevUser normalized username
                          | inr _ => normalized
                          end)
  end.

Definition users_file_header : str :=
  lit "# One Linux username per line." ++ newline
  ++ lit "# Deploy Manager provisions these users with sudo, docker, deployers," ++ newline
  ++ lit "# and passwordless sudo access on this server." ++ newline.

Definition renderDevUsersFile (users : list str) : str :=
  users_file_header ++ concat (map (fun user => user ++ newline) (normalized_users users [])).

Definition hash : ascii := "#"%char.
Definition newline_byte : ascii := ascii_of_N 10.

Fixpoint parse_lines (lines : list str) (seen : gset str) : result (list str) :=
  match lines with
  | [] => inl []
  | line :: t =>
      let value := TrimSpace (CutByte hash line).1 in
      if value =s [] then parse_lines t seen
      else match normalizeDevUsername value with
           | inr err => inr err
           | inl username =>
               if bool_decide (username ∈ seen) then parse_lines t seen
               else let? users := parse_lines t ({[username]} ∪ seen) in inl (username :: users)
           end
  end.

Definition parseDevUsersFile (content : str) : result (list str) :=
  let? users := parse_lines (SplitByte newline_byte content) ∅ in inl (sort_Strings users).

(** ** The commands *)

Definition devUsersApplyScript (server : Server.t) (users : list str) : str :=
  let owner := ShellQuote (Server.SshUser server) in
  Join [
    lit "set -euo pipefail";
    lit "sudo groupadd --system deployers 2>/dev/null || true";
    lit "sudo install -d -o " ++ owner ++ lit " -g deployers -m 2775 /srv/deploy-manager/ops";
    lit "tmp_users=$(mktemp)";
    lit "tmp_script=$(mktemp)";
    at_quotes (lit "cat > @$tmp_users@ <<'PROSIGHTS_USERS'");
    renderDevUsersFile users ++ lit "PROSIGHTS_USERS";
    at_quotes (lit "cat > @$tmp_script@ <<'PROSIGHTS_SCRIPT'");
    devUsersProvisionScript ++ lit "PROSIGHTS_SCRIPT";
    lit "sudo install -o " ++ owner ++ at_quotes (lit " -g deployers -m 0664 @$tmp_users@ ") ++ ShellQuote devUsersFilePath;
    lit "sudo install -o " ++ owner ++ at_quotes (lit " -g deployers -m 0775 @$tmp_script@ ") ++ ShellQuote devUsersProvisionPath;
    at_quotes (lit "rm -f @$tmp_users@ @$tmp_script@");
    ShellQuote devUsersProvisionPath ++ lit " " ++ ShellQuote devUsersFilePath
  ] newline.

Definition remoteDevUsersApplyCommand (server : Server.t) (users : list str) : str :=
  lit "bash -lc " ++ ShellQuote (devUsersApplyScript server users).

Definition hostScript (server : Server.t) (users : list str) : str :=
  Join [
    lit "set -eu";
    lit "install -d -m 0755 /host/srv/deploy-manager/ops";
    lit "cat > /host" ++ devUsersFilePath ++ lit " <<'PROSIGHTS_USERS'";
    renderDevUsersFile users ++ lit "PROSIGHTS_USERS";
    lit "cat > /host" ++ devUsersProvisionPath ++ lit " <<'PROSIGHTS_SCRIPT'";
    devUsersProvisionScript ++ lit "PROSIGHTS_SCRIPT";
    lit "chmod 0664 /host" ++ devUsersFilePath;
    lit "chmod 0775 /host" ++ devUsersProvisionPath;
    lit "chroot /host " ++ ShellQuote devUsersProvisionPath ++ lit " " ++ ShellQuote devUsersFilePath;
    lit "chroot /host chown -R " ++ ShellQuote (Server.SshUser server) ++ lit ":deployers /srv/deploy-manager/ops";
    lit "chroot /host chmod 2775 /srv/deploy-manager/ops"
  ] newline.

Definition localHostDevUsersApplyCommand (server : Server.t) (users : list str) : str :=
  Join [
    lit "docker run --rm --privileged -i -v /:/host alpine:3.23 sh -s <<'PROSIGHTS_HOST_APPLY'";
    hostScript server users;
    lit "PROSIGHTS_HOST_APPLY"
  ] newline.

(** ** Handlers *)

Context `{UuidLib} `{SshLib}.

Definition canConnectToServerForDevUsers (server : Server.t) : bool :=
  (Server.ConnectionMode server =s lit "tailscale_ssh") || Valid (Server.SshKeyPath server).

Definition chiURLParam (r : Request) (key : str) : str := TrimSpace (URLParam r key).

Definition serverForDevUserRequest (r : Request) : H (result Server.t) :=
  match parseUUIDParam r (lit "serverID") with
  | inr err => Ret (inr err)
  | inl serverID =>
      let! server := call (QGetServer serverID) in
      Ret (match server with
           | inr err => inr (serverLookupError err)
           | inl server =>
               if negb (canConnectToServerForDevUsers server)
               then inr (ErrValidation (lit "server must have SSH access configured")) else inl server
           end)
  end.

Definition serverAndDevUsername (r : Request) : H (result (Server.t * str)) :=
  let!? server := serverForDevUserRequest r in
  Ret (let? username := normalizeDevUsername (chiURLParam r (lit "username")) in inl (server, username)).

Definition readServerDevUsers (server : Server.t) : H (result (list str)) :=
  let!? rows := call (QListServerDevSudoUsers (Server.ID server)) in
  Ret (inl (map DevUser.Username rows)).

Definition writeAndApplyServerDevUsers (server : Server.t) (users : list str) : H (option goerror) :=
  let! local := (if Server.ConnectionMode server =s ConnectionModeTailscaleSSH
                 then call (QShared (CIsLocalTailscaleHost (Server.Hostname server))) else Ret false) in
  let! (_, err) := (if local : bool then call (CLocal (localHostDevUsersApplyCommand server users))
                    else call (CRemote server (remoteDevUsersApplyCommand server users))) in
  Ret err.

Definition persistServerDevUsers (server : Server.t) (users : list str) : H (option goerror) :=
  let! stored := call (QReplaceServerDevSudoUsers (Server.ID server) users) in
  Ret (match stored with inl _ => None | inr err => Some err end).

Definition applyAndPersistServerDevUsers (server : Server.t) (users : list str) : H (option goerror) :=
  let! err := writeAndApplyServerDevUsers server users in
  match err with
  | Some err => Ret (Some err)
  | None => persistServerDevUsers server users
  end.

Definition decode_devUserRequest (v : json) : result str :=
  unmarshal_struct (fun key v s =>
    if field_match (lit "username") key then set_string v s (fun x => x) else inr (unknown_field key)) [] v.

Definition audit_dev_users (r : Request) (action : str) (server : Server.t) (metadata : list (str * json)) : H unit :=
  audit r action (lit "server") (uuidString (Server.ID server)) (Server.Name server) (Some metadata).

Definition listServerDevUsers (r : Request) : H unit :=
  let! server := serverForDevUserRequest r in
  match server with
  | inr err => writeError err
  | inl server =>
      let! users := readServerDevUsers server in
      match users with
      | inr err => writeError err
      | inl users => writeJSON StatusOK (VDevUsers users)
      end
  end.

(** The new list is written to the server, stored, recorded and returned. *)
Definition change_users (r : Request) (action : str) (server : Server.t) (metadata : list (str * json)) (users : list str) : H unit :=
  let! err := applyAndPersistServerDevUsers server users in
  match err with
  | Some err => writeError err
  | None =>
      let! _ := audit_dev_users r action server metadata in
      writeJSON StatusOK (VDevUsers users)
  end.

Definition addServerDevUser (r : Request) : H unit :=
  let! server := serverForDevUserRequest r in
  match server with
  | inr err => writeError err
  | inl server =>
      match (let? username := readJSON decode_devUserRequest (Body r) in normalizeDevUsername username) with
      | inr err => writeError err
      | inl username =>
          let! users := readServerDevUsers server in
          match users with
          | inr err => writeError err
          | inl users =>
              change_users r (lit "server.dev_user.add") server [(lit "username", jstr username)] (addDevUser users username)
          end
      end
  end.

Definition updateServerDevUser (r : Request) : H unit :=
  let! found := serverAndDevUsername r in
  match found with
  | inr err => writeError err
  | inl (server, oldUsername) =>
      match (let? username := readJSON decode_devUserRequest (Body r) in normalizeDevUsername username) with
      | inr err => writeError err
      | inl newUsername =>
          let! users := readServerDevUsers server in
          match (let? users := users in replaceDevUser users oldUsername newUsername) with
          | inr err => writeError err
          | inl updated =>
              change_users r (lit "server.dev_user.update") server
                [(lit "old_username", jstr oldUsername); (lit "username", jstr newUsername)] updated
          end
      end
  end.

Definition deleteServerDevUser (r : Request) : H unit :=
  let! found := serverAndDevUsername r in
  match found with
  | inr err => writeError err
  | inl (server, username) =>
      let! users := readServerDevUsers server in
      match users with
      | inr err => writeError err
      | inl users =>
          change_users r (lit "server.dev_user.delete") server [(lit "username", jstr username)] (removeDevUser users username)
      end
  end.

Definition applyServerDevUsers (r : Request) : H unit :=
  let! server := serverForDevUserRequest r in
  match server with
  | inr err => writeError err
  | inl server =>
      let! users := readServerDevUsers server in
      match users with
      | inr err => writeError err
      | inl users =>
          let! err := writeAndApplyServerDevUsers server users in
          match err with
          | Some err => writeError err
          | None =>
              let! _ := audit_dev_users r (lit "server.dev_user.apply") server
                [(lit "user_count", JNum (Z.of_nat (length users)))] in
              writeJSON StatusOK (VDevUsers users)
          end
      end
  end.
End DevUsers.
