(* ===== verification/HttpProxy.v ===== *)
(** * Proxy routes

    internal/proxy/manager.go, which applies a route on its server, and
    internal/httpapi/proxy.go, the handlers that list, create, delete and apply
    routes. *)

From S2P Require Import Prelude GoStrings GoStringsFacts GoRegexp GoJson GoNet StringUtil AuditLog.
From S2P Require Import Db DbHttp DbApplications DbServers RemoteSteps ProxyCommands Effects Runner.
From S2P Require Import GoHttp HttpCore HttpDeployments HttpApplications HttpServers.

Section Proxy.
Context `{UnicodeTables} `{UuidLib} `{Resolver} `{SshLib} `{PgJson}.

(** ** Manager (internal/proxy/manager.go)

    The client is built from the signer; the call [CRun] runs a command on it. *)

Definition markFailed (id : pgUUID_t) (cause : goerror) : H goerror :=
  let! marked := call (QShared (QMarkProxyRouteFailed id)) in
  Ret (match marked with
       | inr err => ErrWrap [] cause (lit "; mark proxy route failed: " ++ Error err)
       | inl _ => cause
       end).

Definition fail_route (id : pgUUID_t) (cause : goerror) : H (result ProxyRoute.t) :=
  let! err := markFailed id cause in Ret (inr err).

Definition route_proxy_target (target : RouteTarget.t) : ProxyTarget.t :=
  ProxyTarget.mk (RouteTarget.Domain target) (RouteTarget.UpstreamUrl target) (RouteTarget.TlsEnabled target)
    (RouteTarget.ProxyType target).

(** The error of a command with what it printed. *)
Definition command_error (cause : goerror) (output : str) : goerror :=
  let output := remoteProxyOutput output in
  if output =s [] then cause else ErrWrap [] cause (lit ": " ++ output).

Definition Apply (id : pgUUID_t) : H (result ProxyRoute.t) :=
  let! target := call (QGetProxyRouteTarget id) in
  match target with
  | inr err => Ret (inr err)
  | inl target =>
      let key := RouteTarget.SshKeyPath target in
      if negb (Valid key) || (TrimSpace (String' key) =s [])
      then fail_route id (ErrText (lit "server ssh_key_path is required to apply proxy routes"))
      else match BuildCommand (route_proxy_target target) with
      | inr err => fail_route id err
      | inl command =>
          let! signer := call (QShared (CSigner (RouteTarget.Hostname target) (RouteTarget.SshPort target)
                                          (RouteTarget.SshUser target) (String' key))) in
          match signer with
          | inr err => fail_route id err
          | inl signer =>
              let! (output, err) := call (QShared (CRun (NewClient (RouteTarget.Hostname target) (RouteTarget.SshPort target)
                                                           (RouteTarget.SshUser target) signer) command)) in
              match err with
              | Some cause => fail_route id (command_error cause output)
              | None => call (QMarkProxyRouteApplied id)
              end
          end
      end
  end.

(** ** Validation (internal/httpapi/proxy.go) *)

Definition trim_text (t : pgText) : pgText := PgText (TrimSpace (String' t)) (Valid t).

Definition normalizeCreateProxyRoute (input : CreateProxyRouteParams.t) (application : option Application.t) : CreateProxyRouteParams.t :=
  let '(CreateProxyRouteParams.mk server app domain url tls blue green service port variable) := input in
  let '(server, domain) := match application with
    | Some a => (Application.ServerID a,
                 if (TrimSpace domain =s []) && Valid (Application.Domain a) then String' (Application.Domain a) else domain)
    | None => (server, domain)
    end in
  CreateProxyRouteParams.mk server app (ToLower (TrimSpace domain)) (TrimSpace url) tls (blankTextAsNull blue)
    (blankTextAsNull green) (blankTextAsNull service) port (blankTextAsNull variable).

Definition validateOptionalProxyUpstream (value : pgText) (proxyType : str) : option goerror :=
  if negb (Valid value) then None
  else ValidateTarget (ProxyTarget.mk (lit "upstream-check.example") (String' value) false proxyType).

Definition validateProxyRouteInput (input : CreateProxyRouteParams.t) (proxyType : str) : option goerror :=
  let target := ProxyTarget.mk (CreateProxyRouteParams.Domain input) (CreateProxyRouteParams.UpstreamUrl input)
                  (CreateProxyRouteParams.TlsEnabled input) proxyType in
  match ValidateTarget target with
  | Some err => Some (ErrValidation (Error err))
  | None =>
      match validateOptionalProxyUpstream (CreateProxyRouteParams.BlueUpstreamUrl input) proxyType with
      | Some err => Some (ErrValidation (Error err))
      | None =>
          match validateOptionalProxyUpstream (CreateProxyRouteParams.GreenUpstreamUrl input) proxyType with
          | Some err => Some (ErrValidation (Error err))
          | None => None
          end
      end
  end.

Definition proxyLookupError (err : goerror) (message : str) : goerror :=
  if is_no_rows err then ErrNotFound message else err.

(** ** Decoding *)

Definition zeroRoute : CreateProxyRouteParams.t :=
  CreateProxyRouteParams.mk (PgUUID [] false) (PgUUID [] false) [] [] false textNull textNull textNull None textNull.

Definition set_route_field (key : str) (v : json) (p : CreateProxyRouteParams.t) : result CreateProxyRouteParams.t :=
  let '(CreateProxyRouteParams.mk server app domain url tls blue green service port variable) := p in
  let named n := field_match n key in
  if named (lit "server_id") then let? id := uuid_UnmarshalJSON v in
    inl (CreateProxyRouteParams.mk id app domain url tls blue green service port variable)
  else if named (lit "application_id") then let? id := uuid_UnmarshalJSON v in
    inl (CreateProxyRouteParams.mk server id domain url tls blue green service port variable)
  else if named (lit "domain") then set_string v p (fun s =>
    CreateProxyRouteParams.mk server app s url tls blue green service port variable)
  else if named (lit "upstream_url") then set_string v p (fun s =>
    CreateProxyRouteParams.mk server app domain s tls blue green service port variable)
  else if named (lit "tls_enabled") then set_bool v p (fun b =>
    CreateProxyRouteParams.mk server app domain url b blue green service port variable)
  else if named (lit "blue_upstream_url") then let? t := text_UnmarshalJSON v in
    inl (CreateProxyRouteParams.mk server app domain url tls t green service port variable)
  else if named (lit "green_upstream_url") then let? t := text_UnmarshalJSON v in
    inl (CreateProxyRouteParams.mk server app domain url tls blue t service port variable)
  else if named (lit "compose_service") then let? t := text_UnmarshalJSON v in
    inl (CreateProxyRouteParams.mk server app domain url tls blue green t port variable)
  else if named (lit "container_port") then let? n := int4_UnmarshalJSON v in
    inl (CreateProxyRouteParams.mk server app domain url tls blue green service n variable)
  else if named (lit "port_variable") then let? t := text_UnmarshalJSON v in
    inl (CreateProxyRouteParams.mk server app domain url tls blue green service port t)
  else inr (unknown_field key).

Definition decode_CreateProxyRouteParams (v : json) : result CreateProxyRouteParams.t :=
  unmarshal_struct set_route_field zeroRoute v.

(** The trimming of the handler before the application is loaded. *)
Definition trim_route_input (input : CreateProxyRouteParams.t) : CreateProxyRouteParams.t :=
  let '(CreateProxyRouteParams.mk server app domain url tls blue green service port variable) := input in
  CreateProxyRouteParams.mk server app (TrimSpace domain) (TrimSpace url) tls (trim_text blue) (trim_text green)
    (trim_text service) port (trim_text variable).

(** ** Handlers *)

Definition listProxyRoutes (r : Request) : H unit :=
  let! routes := call QListProxyRoutes in
  match routes with
  | inr err => writeError err
  | inl routes => writeJSON StatusOK (VRoutes routes)
  end.

Definition route_audit_metadata (route : ProxyRoute.t) : list (str * json) :=
  [(lit "server_id", jstr (uuidString (ProxyRoute.ServerID route))); (lit "tls_enabled", JBool (ProxyRoute.TlsEnabled route));
   (lit "compose_service", jstr (String' (ProxyRoute.ComposeService route)));
   (lit "container_port", JNum (match ProxyRoute.ContainerPort route with Some p => p | None => 0%Z end))].

(** From the normalized input on. *)
Definition store_route (r : Request) (input : CreateProxyRouteParams.t) : H unit :=
  if negb (uuid_valid (CreateProxyRouteParams.ServerID input)) || (CreateProxyRouteParams.Domain input =s [])
     || (CreateProxyRouteParams.UpstreamUrl input =s [])
  then writeError (ErrValidation (lit "server_id, domain, and upstream_url are required"))
  else
    let! server := call (QGetServer (CreateProxyRouteParams.ServerID input)) in
    match server with
    | inr err => writeError (proxyLookupError err (lit "server not found"))
    | inl server =>
        match validateProxyRouteInput input (Server.ProxyType server) with
        | Some err => writeError err
        | None =>
            let! route := call (QCreateProxyRoute input) in
            match route with
            | inr err => writeError err
            | inl route =>
                let! _ := audit r (lit "proxy_route.upsert") (lit "proxy_route") (uuidString (ProxyRoute.ID route))
                  (ProxyRoute.Domain route) (Some (route_audit_metadata route)) in
                writeJSON StatusCreated (VRoute route)
            end
        end
    end.

Definition createProxyRoute (r : Request) : H unit :=
  match readJSON decode_CreateProxyRouteParams (Body r) with
  | inr err => writeError err
  | inl input =>
      let input := trim_route_input input in
      let! loaded := (if uuid_valid (CreateProxyRouteParams.ApplicationID input) then
                        let!? a := call (QGetApplication (CreateProxyRouteParams.ApplicationID input)) in
                        Ret (inl (normalizeCreateProxyRoute input (Some a)))
                      else Ret (inl input)) in
      match loaded with
      | inr err => writeError (proxyLookupError err (lit "application not found"))
      | inl input => store_route r (normalizeCreateProxyRoute input None)
      end
  end.

(** The route is removed from its server unless it was never applied. *)
Definition remove_route (route : RouteTarget.t) : H (option goerror) :=
  if RouteTarget.Status route =s lit "pending" then Ret None
  else
    let! server := call (QGetServer (RouteTarget.ServerID route)) in
    match server with
    | inr err => Ret (Some err)
    | inl server =>
        match BuildRemoveCommand (RouteTarget.Domain route) (RouteTarget.ProxyType route) with
        | inr err => Ret (Some (ErrValidation (Error err)))
        | inl command => let! (_, err) := call (CRemote server command) in Ret err
        end
    end.

Definition deleteProxyRoute (r : Request) : H unit :=
  match parseUUIDParam r (lit "routeID") with
  | inr err => writeError err
  | inl routeID =>
      let! route := call (QGetProxyRouteTarget routeID) in
      match route with
      | inr err => writeError (proxyLookupError err (lit "proxy route not found"))
      | inl route =>
          let! removed := remove_route route in
          match removed with
          | Some err => writeError err
          | None =>
              let! deleted := call (QDeleteProxyRoute routeID) in
              match deleted with
              | inr err => writeError err
              | inl _ =>
                  let! _ := audit r (lit "proxy_route.delete") (lit "proxy_route") (uuidString (RouteTarget.ID route))
                    (RouteTarget.Domain route) (Some [(lit "server_id", jstr (uuidString (RouteTarget.ServerID route)))]) in
                  call (CWriteHeader StatusNoContent)
              end
          end
      end
  end.

Definition proxyApplyFailureMetadata (cause : goerror) : list (str * json) :=
  [(lit "status", jstr (lit "failed")); (lit "error", jstr (errorString (Some cause)))].

(** [configured]: whether the server was given a manager. *)
Definition applyProxyRoute (configured : bool) (r : Request) : H unit :=
  match parseUUIDParam r (lit "routeID") with
  | inr err => writeError err
  | inl routeID =>
      if negb configured then writeError (ErrValidation (lit "proxy applier is not configured"))
      else
        let! route := Apply routeID in
        match route with
        | inr err =>
            let! _ := audit r (lit "proxy_route.apply_failed") (lit "proxy_route") (uuidString routeID) (uuidString routeID)
              (Some (proxyApplyFailureMetadata err)) in
            writeError err
        | inl route =>
            let! _ := audit r (lit "proxy_route.apply") (lit "proxy_route") (uuidString (ProxyRoute.ID route))
              (ProxyRoute.Domain route) (Some [(lit "status", jstr (ProxyRoute.Status route))]) in
            writeJSON StatusOK (VRoute route)
        end
  end.
End Proxy.
