(* ===== verification/HttpGithub.v ===== *)
(** * internal/httpapi/github.go: the webhook of GitHub

    A push deploys the applications of its repository and branch, or starts a build
    for them; with the helpers of github_repositories.go that a build needs. *)

From S2P Require Import Prelude GoStrings GoRegexp GoJson GoNet StringUtil AuditLog Db.
From S2P Require Import DbHttp DbApplications RemoteSteps ProxyCommands Effects Runner GoHttp HttpCore.
From S2P Require Import HttpDeployments HttpApplications HttpBuilds GithubConnector.

(** The part of the server's configuration that the webhook reads: the secret,
    whether there is a GitHub App and whether there is a replay cache. *)
Record GitHubWebhookConfig := { Secret : str; has_app : bool; has_replays : bool }.

Record githubBuildDispatchRequest := {
  RequestRepository : str; RequestApplication : str; RequestBranch : str; RequestWorkflow : str; RequestInputs : gmap str str }.

Section Github.
Context `{UnicodeTables} `{UuidLib} `{SshLib} `{FoldTable}.

(** ** Paths *)

Definition pathFilterMatches (filter changedPath : str) : bool :=
  let filter := Trim (TrimSpace filter) (lit "/") in
  if (filter =s []) || (changedPath =s []) then false
  else
    let filter := TrimSuffix (TrimSuffix filter (lit "/**")) (lit "/*") in
    if filter =s [] then true else (changedPath =s filter) || HasPrefix changedPath (filter ++ lit "/").

Definition repositoryMatchesChangedPaths (filters changedPaths : list str) : bool :=
  if (length filters =? 0)%nat then true
  else if (length changedPaths =? 0)%nat then false
  else existsb (fun changedPath =>
         let changedPath := Trim (TrimSpace changedPath) (lit "/") in
         existsb (fun filter => pathFilterMatches filter changedPath) filters) changedPaths.

Definition applicationPathFilters (composePath : str) : list str :=
  let root := path_Dir (Trim (TrimSpace composePath) (lit "/")) in
  if root =s lit "." then [] else [root ++ lit "/**"].

Definition applicationMatchesChangedPaths (application : Application.t) (changedPaths : list str) : bool :=
  repositoryMatchesChangedPaths (applicationPathFilters (Application.ComposePath application)) changedPaths.

Definition repositoryTargetsApplication (repository : Repository.t) (applicationID : pgUUID_t) (applicationName : str) : bool :=
  if negb (Repository.ApplicationID repository =s []) then Repository.ApplicationID repository =s uuidString applicationID
  else if negb (Repository.ApplicationName repository =s [])
  then EqualFold (Repository.ApplicationName repository) applicationName
  else true.

(** ** The build target of an application *)

Definition githubConnectorRepositories (raw : bytes) (repositoryName branch : str) : result (list Repository.t) :=
  match RepositoriesFromConfig raw with
  | inr err => inr (ErrValidation (lit "github connector config " ++ Error err))
  | inl repositories =>
      match List.filter (fun r => EqualFold (Repository.Repository r) repositoryName && (Repository.Branch r =s branch))
              repositories with
      | [] => inr (ErrValidation (lit "repository is not connected to this github connector"))
      | matches => inl matches
      end
  end.

Definition githubConnectorRepositoryAnyBranch (raw : bytes) (repositoryName : str) : result Repository.t :=
  match RepositoriesFromConfig raw with
  | inr err => inr (ErrValidation (lit "github connector config " ++ Error err))
  | inl repositories =>
      match List.find (fun r => EqualFold (Repository.Repository r) repositoryName) repositories with
      | Some repository => inl repository
      | None => inr (ErrValidation (lit "repository is not connected to this github connector"))
      end
  end.

Definition application_specific (r : Repository.t) : bool :=
  negb (Repository.ApplicationID r =s []) || negb (Repository.ApplicationName r =s []).

(** The first repository of one kind that targets the application. *)
Definition target_of_kind (specific : bool) (application : Application.t) (repositories : list Repository.t) : option Repository.t :=
  List.find (fun r => Bool.eqb (application_specific r) specific
    && repositoryTargetsApplication r (Application.ID application) (Application.Name application)) repositories.

(** The repository, empty when the changed paths do not match, and whether there is
    one; the error is always nil. *)
Definition githubConnectorBuildTarget (raw : bytes) (repoName branch : str) (application : Application.t)
    (changedPaths : list str) : result (Repository.t * bool) :=
  match githubConnectorRepositories raw repoName branch with
  | inr _ => inl (Repository.zero, false)
  | inl repositories =>
      let found := match target_of_kind true application repositories with
                   | Some r => Some r
                   | None => target_of_kind false application repositories
                   end in
      match found with
      | None => inl (Repository.zero, false)
      | Some repository =>
          let repository := if (length (Repository.PathFilters repository) =? 0)%nat && negb (application_specific repository)
            then Repository.set_PathFilters repository (applicationPathFilters (Application.ComposePath application))
            else repository in
          if negb (repositoryMatchesChangedPaths (Repository.PathFilters repository) changedPaths)
          then inl (Repository.zero, true) else inl (repository, true)
      end
  end.

(** The owner and the name in the first URL that has them. *)
Definition repo_of_url (u : str) : option str :=
  let u := TrimSuffix (TrimSpace u) (lit ".git") in
  let idx := LastIndexByte u slash in
  if (0 <? idx)%Z then
    let prefix := slice_to u idx in
    let name := slice_from u (idx + 1) in
    let owner := LastIndexByte prefix slash in
    let colon := LastIndexByte prefix ":"%char in
    if (0 <=? owner)%Z then Some (slice_from prefix (owner + 1) ++ lit "/" ++ name)
    else if (0 <=? colon)%Z then Some (slice_from prefix (colon + 1) ++ lit "/" ++ name)
    else None
  else None.
Definition githubRepoFromURLs (urls : list str) : str := default [] (head (omap repo_of_url urls)).

(** ** Workflow inputs *)

Definition addGitHubBuildInput (key value : str) (inputs : gmap str str) : gmap str str :=
  if negb (TrimSpace (default [] (inputs !! key)) =s []) || (TrimSpace value =s []) then inputs
  else <[key := TrimSpace value]> inputs.

Definition fillGitHubBuildDefaults (request : githubBuildDispatchRequest) (repository : Repository.t)
    : githubBuildDispatchRequest :=
  let workflow := or_default (RequestWorkflow request) (Repository.WorkflowID repository) in
  let workflow := or_default workflow DefaultBuildWorkflowID in
  let inputs := addGitHubBuildInput (lit "image_ref") (Repository.ImageRef repository) (RequestInputs request) in
  let inputs := addGitHubBuildInput (lit "build_matrix") (Repository.BuildMatrix repository) inputs in
  let inputs := if Repository.BuildMatrix repository =s []
    then addGitHubBuildInput (lit "dockerfile") (Repository.Dockerfile repository)
           (addGitHubBuildInput (lit "build_context") (Repository.BuildContext repository) inputs)
    else inputs in
  {| RequestRepository := RequestRepository request; RequestApplication := RequestApplication request;
     RequestBranch := RequestBranch request; RequestWorkflow := workflow;
     RequestInputs := addGitHubBuildInput (lit "runner") (Repository.Runner repository) inputs |}.

Definition expand_template (commitSHA value : str) : str :=
  ReplaceAll (ReplaceAll value (lit "${COMMIT_SHA}") commitSHA) (lit "${SHORT_SHA}") (take 12 commitSHA).

Definition expandGitHubBuildInputTemplates (inputs : gmap str str) (commitSHA : str) : gmap str str :=
  expand_template (TrimSpace commitSHA) <$> inputs.

Definition githubPushBuildRequest (repo : Repository.t) (push : Push.t) : githubBuildDispatchRequest :=
  let inputs := if TrimSpace (Push.CommitSHA push) =s [] then ∅
                else {[lit "commit_sha" := TrimSpace (Push.CommitSHA push)]} in
  let request := fillGitHubBuildDefaults {| RequestRepository := Repository.Repository repo; RequestApplication := [];
    RequestBranch := Repository.Branch repo; RequestWorkflow := []; RequestInputs := inputs |} repo in
  {| RequestRepository := RequestRepository request; RequestApplication := RequestApplication request;
     RequestBranch := RequestBranch request; RequestWorkflow := RequestWorkflow request;
     RequestInputs := expandGitHubBuildInputTemplates (RequestInputs request) (Push.CommitSHA push) |}.

Definition image_input (request : githubBuildDispatchRequest) : str := TrimSpace (default [] (RequestInputs request !! lit "image_ref")).

Definition nullableApplicationID (value : str) : pgUUID_t :=
  match PgUUID' (TrimSpace value) with inl id => id | inr _ => no_uuid end.

Definition validateGitHubBuildDispatchRequest (request : githubBuildDispatchRequest) : option goerror :=
  if RequestRepository request =s [] then Some (ErrValidation (lit "repository is required"))
  else if negb (RequestApplication request =s []) && negb (uuid_valid (nullableApplicationID (RequestApplication request)))
  then Some (ErrValidation (lit "application_id must be a uuid"))
  else if ContainsAny (RequestWorkflow request) (lit "/" ++ byte 92 ++ line_controls)
  then Some (ErrValidation (lit "workflow_id must be a workflow file name or numeric id"))
  else if image_input request =s []
  then Some (ErrValidation (lit "image_ref is required before a github build can be dispatched"))
  else if existsb (fun p => (TrimSpace p.1 =s []) || ContainsAny (TrimSpace p.1) line_controls || ContainsAny p.2 line_controls)
            (map_to_list (RequestInputs request))
  then Some (ErrValidation (lit "workflow inputs cannot contain blank keys or control characters"))
  else None.

Definition githubBuildWorkflowInputs (inputs : gmap str str) (build : BuildRun.t) : gmap str str :=
  <[lit "branch" := BuildRun.Branch build]> (<[lit "repository" := BuildRun.Repository build]>
    (<[lit "deploy_manager_build_id" := uuidString (BuildRun.ID build)]> inputs)).

Definition buildErrorMessage (err : goerror) : str := take 512 (Error err).

(** ** Audit records *)

Definition auditGitHubSkip (r : Request) (application : Application.t) (err : goerror) (push : Push.t) : H unit :=
  audit r (lit "github.push_skipped") (lit "deployment") (uuidString (Application.ID application))
    (Application.Name application)
    (Some [(lit "reason", jstr (lit "not_deployable")); (lit "error", jstr (errorString (Some err)));
           (lit "branch", jstr (Push.Branch push)); (lit "commit_sha", jstr (Push.CommitSHA push))]).

Definition githubIgnoredPushMetadata (push : Push.t) (reason : str) : list (str * json) :=
  [(lit "reason", jstr reason); (lit "branch", jstr (Push.Branch push)); (lit "commit_sha", jstr (Push.CommitSHA push));
   (lit "actor", jstr (Push.Actor push))].

Definition githubQueueFailureMetadata (deployment : Deployment.t) (cause : goerror) : list (str * json) :=
  deploymentQueueFailureMetadata deployment cause ++ [(lit "source", jstr (lit "github_push"))].

Definition githubSkipEntry (application : Application.t) (err : goerror) : str * str :=
  (uuidString (Application.ID application), errorString (Some err)).

(** ** Builds *)

Definition zeroBuild : BuildRun.t :=
  BuildRun.mk no_uuid [] no_uuid no_uuid [] [] [] [] textNull textNull textNull textNull textNull None None None None.

(** The workflow is started; a build that cannot be started has failed. *)
Definition dispatch_build (r : Request) (push : Push.t) (account : ConnectorAccount.t) (repo : Repository.t)
    (request : githubBuildDispatchRequest) (build : BuildRun.t) : H BuildRun.t :=
  let! err := call (CDispatchWorkflow (Repository.InstallationID repo) (Repository.Repository repo) (RequestWorkflow request)
                      (Repository.Branch repo) (githubBuildWorkflowInputs (RequestInputs request) build)) in
  match err with
  | Some err =>
      let! failedBuild := call (QCompleteBuildRun (CompleteBuildRunParams.mk (BuildRun.ID build) (lit "failed") textNull
                                  textNull textNull (blankStringAsText (buildErrorMessage err)))) in
      Ret (match failedBuild with
           | inl failedBuild => if uuid_valid (BuildRun.ID failedBuild) then failedBuild else build
           | inr _ => build
           end)
  | None =>
      let! _ := audit r (lit "github.build_dispatch") (lit "build") (uuidString (BuildRun.ID build)) (Repository.Repository repo)
                  (Some [(lit "connector_id", jstr (uuidString (ConnectorAccount.ID account)));
                         (lit "branch", jstr (Push.Branch push)); (lit "commit_sha", jstr (Push.CommitSHA push));
                         (lit "workflow_id", jstr (RequestWorkflow request))]) in
      Ret build
  end.

Definition skip_build (r : Request) (application : Application.t) (err : goerror) (push : Push.t) : H (BuildRun.t * bool) :=
  let! _ := auditGitHubSkip r application err push in Ret (zeroBuild, true).

(** A repository with an image: a build run, and its workflow. *)
Definition start_build (r : Request) (application : Application.t) (push : Push.t) (account : ConnectorAccount.t)
    (repo : Repository.t) (request : githubBuildDispatchRequest) : H (BuildRun.t * bool) :=
  match validateGitHubBuildDispatchRequest request with
  | Some err => skip_build r application err push
  | None =>
      let! build := call (QCreateBuildRun (CreateBuildRunParams.mk (lit "github_actions") (ConnectorAccount.ID account)
                            (Application.ID application) (Repository.Repository repo) (Repository.Branch repo)
                            (RequestWorkflow request) (blankStringAsText (Push.CommitSHA push)))) in
      match build with
      | inr _ => Ret (zeroBuild, true)
      | inl build => let! build := dispatch_build r push account repo request build in Ret (build, true)
      end
  end.

(** The loop over the accounts: [owned] and [source] are hasOwnedTarget and
    sourceMatch. *)
Fixpoint dispatch_accounts (r : Request) (application : Application.t) (push : Push.t) (repoName : str)
    (accounts : list ConnectorAccount.t) (owned source : bool) : H (BuildRun.t * bool) :=
  match accounts with
  | [] =>
      Ret (zeroBuild, if source then false
                      else owned || negb (applicationMatchesChangedPaths application (Push.ChangedPaths push)))
  | account :: t =>
      if negb (ConnectorAccount.Provider account =s lit "github") || negb (ConnectorAccount.Enabled account)
      then dispatch_accounts r application push repoName t owned source
      else
        match githubConnectorBuildTarget (ConnectorAccount.Config account) repoName (Push.Branch push) application
                (Push.ChangedPaths push) with
        | inr err => skip_build r application err push
        | inl (_, false) => dispatch_accounts r application push repoName t owned source
        | inl (repo, true) =>
            if Repository.Repository repo =s [] then dispatch_accounts r application push repoName t true source
            else if Repository.InstallationID repo =s []
            then skip_build r application
                   (ErrValidation (lit "github repository requires installation_id before builds can be dispatched")) push
            else
              let request := githubPushBuildRequest repo push in
              if image_input request =s [] then dispatch_accounts r application push repoName t true true
              else start_build r application push account repo request
        end
  end.

(** A build, and whether the application needs no deployment now. *)
Definition tryBuildDispatch (cfg : GitHubWebhookConfig) (r : Request) (application : Application.t) (push : Push.t)
    : H (BuildRun.t * bool) :=
  if negb (has_app cfg) then Ret (zeroBuild, false)
  else
    let! accounts := call QListConnectorAccounts in
    match accounts with
    | inr _ => Ret (zeroBuild, false)
    | inl accounts =>
        let repoName := githubRepoFromURLs (Push.Repositories push) in
        if repoName =s [] then Ret (zeroBuild, false)
        else dispatch_accounts r application push repoName accounts false false
    end.

(** ** Pushes *)

(** What became of one application. *)
Inductive push_outcome :=
| Skipped (entry : str * str)
| Handled (build : option BuildRun.t)
| Queued (deployment : Deployment.t)
| Failed (err : goerror).

Definition skip_push (r : Request) (application : Application.t) (err : goerror) (push : Push.t) : H push_outcome :=
  let! _ := auditGitHubSkip r application err push in Ret (Skipped (githubSkipEntry application err)).

Definition push_deployment_input (application : Application.t) (push : Push.t) : result Params.t :=
  normalizeCreateDeployment (Params.mk (lit "github_push") (lit "blue_green") (blankStringAsText (Push.CommitSHA push))
    textNull textNull (blankStringAsText (Push.Actor push)) (Application.ID application)).

Definition deploy_push (r : Request) (input : Params.t) : H push_outcome :=
  let! deployment := call (QCreateDeployment input) in
  match deployment with
  | inr err => Ret (Failed err)
  | inl deployment =>
      let! err := enqueueDeployment deployment in
      match err with
      | Some err =>
          let! _ := audit r (lit "github.queue_failed") (lit "deployment") (uuidString (Deployment.ID deployment))
                      (uuidString (Deployment.ApplicationID deployment))
                      (Some (githubQueueFailureMetadata deployment err)) in
          Ret (Failed err)
      | None => Ret (Queued deployment)
      end
  end.

Definition push_application (cfg : GitHubWebhookConfig) (r : Request) (push : Push.t) (application : Application.t)
    : H push_outcome :=
  match validateBlueGreenHealthCheck (Application.HealthCheckUrl application) with
  | Some err => skip_push r application err push
  | None =>
      let! (dispatched, ok) := tryBuildDispatch cfg r application push in
      if (ok : bool) then Ret (Handled (if uuid_valid (BuildRun.ID dispatched) then Some dispatched else None))
      else if TrimSpace (Application.ComposePath application) =s []
      then skip_push r application (ErrValidation (lit "application has no compose_path to build from")) push
      else match push_deployment_input application push with
           | inr err => skip_push r application err push
           | inl input => deploy_push r input
           end
  end.

Definition push_lists : Type := list Deployment.t * list BuildRun.t * list (str * str).

(** The loop: it ends at the first application that fails. *)
Fixpoint push_applications (cfg : GitHubWebhookConfig) (r : Request) (push : Push.t) (applications : list Application.t)
    : H (result push_lists) :=
  match applications with
  | [] => Ret (inl ([], [], []))
  | application :: t =>
      let! outcome := push_application cfg r push application in
      match outcome with
      | Failed err => Ret (inr err)
      | _ =>
          let! rest := push_applications cfg r push t in
          Ret (let? (queued, builds, skipped) := rest in
               inl match outcome with
                   | Queued d => (d :: queued, builds, skipped)
                   | Handled (Some b) => (queued, b :: builds, skipped)
                   | Skipped entry => (queued, builds, entry :: skipped)
                   | _ => (queued, builds, skipped)
                   end)
      end
  end.

Definition handle_push (cfg : GitHubWebhookConfig) (r : Request) (push : Push.t) : H unit :=
  let! applications := call (QListApplicationsForGitHubPush (Push.Branch push) (Push.Repositories push)) in
  match applications with
  | inr err => writeError err
  | inl applications =>
      let! lists := push_applications cfg r push applications in
      match lists with
      | inr err => writeError err
      | inl (queued, builds, skipped) =>
          let! _ := writeJSON StatusAccepted (VPush (PushResponse.mk (Push.Branch push) (Push.CommitSHA push)
                      (Z.of_nat (length applications)) queued builds skipped)) in
          audit r (lit "github.push") (lit "deployment") (lit "batch") (Push.Branch push)
            (Some [(lit "matched", JNum (Z.of_nat (length applications))); (lit "commit_sha", jstr (Push.CommitSHA push))])
      end
  end.

(** ** The webhook *)

Definition validateGitHubPushBranch (branch : str) : option goerror := ValidateGitRefName branch.

Definition normalizeGitHubEvent (value : str) : result str :=
  if ContainsAny value line_controls then inr (ErrValidation (lit "github event header cannot contain control characters"))
  else
    let event := ToLower (TrimSpace value) in
    if event =s [] then inr (ErrValidation (lit "github event header is required")) else inl event.

(** [io.ReadAll] of a body limited to 2 MiB. *)
Definition read_body (r : Request) : result str :=
  if (maxJSONBodyBytes <? length (Body r))%nat then inr ErrTooLarge else inl (Body r).

Definition ignored (fields : list (str * json)) : response_value := VObject ((lit "ignored", JBool true) :: fields).

(** A push event with a valid signature that was not delivered before. *)
Definition github_push (cfg : GitHubWebhookConfig) (r : Request) (body : str) : H unit :=
  match ParsePush body with
  | inr err => writeError (ErrValidation (Error err))
  | inl push =>
      if Push.Deleted push then
        let! _ := audit r (lit "github.push_ignored") (lit "deployment") (lit "batch") (Push.Branch push)
                    (Some (githubIgnoredPushMetadata push (lit "branch_deleted"))) in
        writeJSON StatusAccepted (ignored [(lit "event", jstr (lit "push")); (lit "reason", jstr (lit "branch_deleted"));
                                           (lit "branch", jstr (Push.Branch push))])
      else match validateGitHubPushBranch (Push.Branch push) with
           | Some err => writeError (ErrValidation (Error err))
           | None =>
               if negb (Push.CommitSHA push =s []) && negb (ValidCommitSHA (Push.CommitSHA push))
               then writeError (ErrValidation (lit "commit_sha must be a 7 to 40 character hexadecimal SHA"))
               else handle_push cfg r push
           end
  end.

Definition github_event (cfg : GitHubWebhookConfig) (r : Request) (body : str) : H unit :=
  match normalizeGitHubEvent (Header r (lit "X-GitHub-Event")) with
  | inr err => writeError err
  | inl event =>
      if event =s lit "ping" then writeJSON StatusOK (VObject [(lit "status", jstr (lit "ok"))])
      else if negb (event =s lit "push") then
        let! _ := audit r (lit "github.event_ignored") (lit "webhook") (lit "github") event
                    (Some [(lit "event", jstr event); (lit "reason", jstr (lit "unsupported_event"))]) in
        writeJSON StatusAccepted (ignored [(lit "event", jstr event)])
      else github_push cfg r body
  end.

Definition seen_before (cfg : GitHubWebhookConfig) (r : Request) : H bool :=
  if has_replays cfg then call (CSeen (Header r (lit "X-GitHub-Delivery"))) else Ret false.

Definition githubWebhook (cfg : GitHubWebhookConfig) (r : Request) : H unit :=
  match read_body r with
  | inr err => writeError err
  | inl body =>
      if negb (VerifySignature (Secret cfg) body (Header r (lit "X-Hub-Signature-256")))
      then writeJSON StatusUnauthorized (VError (lit "invalid github signature"))
      else
        let! seen := seen_before cfg r in
        if (seen : bool) then writeJSON StatusAccepted (ignored [(lit "reason", jstr (lit "duplicate_delivery"))])
        else github_event cfg r body
  end.
End Github.
