(* ===== verification/HttpProjects.v ===== *)
(** * internal/httpapi/projects.go: projects and environments

    The handlers of projects.go, and the list of applications, which only reads. *)

From S2P Require Import Prelude GoStrings GoRegexp GoJson GoNet StringUtil AuditLog Db.
From S2P Require Import DbHttp DbApplications DbServers DbInventory DbProjects RemoteSteps ProxyCommands.
From S2P Require Import Effects Runner GoHttp HttpCore HttpDeployments HttpApplications GithubConnector.
From S2P Require Import HttpServers HttpGithub.

(** [^[a-z0-9](?:[a-z0-9-]*[a-z0-9])?$], as its two alternatives. *)
Definition slugMatches (slug : str) : bool := slug_check slug.

Section Projects.
Context `{UnicodeTables} `{UuidLib} `{SshLib} `{PgJson} `{FoldTable}.

Definition normalizeSlug (value : str) : str := ToLower (TrimSpace value).
Definition hasProjectControlCharacters (values : list str) : bool := existsb (fun value => ContainsAny value line_breaks) values.

Definition bad_slug : goerror := ErrValidation (lit "slug must use lowercase letters, numbers, and hyphens").

(** The fields that a new project and an update share. *)
Definition normalized_project (name slug description : str) : result (str * str * str) :=
  let name := TrimSpace name in
  let slug := normalizeSlug slug in
  let description := TrimSpace description in
  if (name =s []) || (slug =s []) then inr (ErrValidation (lit "name and slug are required"))
  else if hasProjectControlCharacters [name; description]
  then inr (ErrValidation (lit "project text fields cannot contain control characters"))
  else if negb (slugMatches slug) then inr bad_slug
  else inl (name, slug, description).

Definition normalizeCreateProject (input : CreateProjectParams.t) : result CreateProjectParams.t :=
  let '(CreateProjectParams.mk name slug description) := input in
  let? (name, slug, description) := normalized_project name slug description in
  inl (CreateProjectParams.mk name slug description).

Definition normalizeUpdateProject (input : UpdateProjectParams.t) : result UpdateProjectParams.t :=
  let '(UpdateProjectParams.mk id name slug description) := input in
  let? (name, slug, description) := normalized_project name slug description in
  inl (UpdateProjectParams.mk id name slug description).

Definition normalizeCreateEnvironment (input : CreateEnvironmentParams.t) : result CreateEnvironmentParams.t :=
  let '(CreateEnvironmentParams.mk project name slug kind ephemeral number branch expires) := input in
  let name := TrimSpace name in
  let slug := normalizeSlug slug in
  let kind := or_default (TrimSpace kind) (lit "development") in
  let branch := PgText (TrimSpace (String' branch)) (Valid branch) in
  if negb (uuid_valid project) || (name =s []) || (slug =s [])
  then inr (ErrValidation (lit "project_id, name, and slug are required"))
  else if hasProjectControlCharacters [name; String' branch]
  then inr (ErrValidation (lit "environment fields cannot contain control characters"))
  else if negb (slugMatches slug) then inr bad_slug
  else if (kind =s lit "production") || (kind =s lit "development")
  then inl (CreateEnvironmentParams.mk project name slug kind false None (blankTextAsNull branch) None)
  else if kind =s lit "preview" then
    match number with
    | Some n =>
        if (n <=? 0)%Z then inr (ErrValidation (lit "pull_request_number must be greater than zero"))
        else inl (CreateEnvironmentParams.mk project name slug kind true number (blankTextAsNull branch) expires)
    | None => inl (CreateEnvironmentParams.mk project name slug kind true number (blankTextAsNull branch) expires)
    end
  else inr (ErrValidation (lit "environment kind must be production, development, or preview")).

Definition environmentDeletionError (err : goerror) : goerror :=
  if is_no_rows err then ErrValidation (lit "remove all services before deleting the environment") else err.

(** ** Decoding *)

Definition set_create_project_field (key : str) (v : json) (p : CreateProjectParams.t) : result CreateProjectParams.t :=
  let '(CreateProjectParams.mk name slug description) := p in
  if field_match (lit "name") key then set_string v p (fun s => CreateProjectParams.mk s slug description)
  else if field_match (lit "slug") key then set_string v p (fun s => CreateProjectParams.mk name s description)
  else if field_match (lit "description") key then set_string v p (fun s => CreateProjectParams.mk name slug s)
  else inr (unknown_field key).
Definition decode_CreateProjectParams (v : json) : result CreateProjectParams.t :=
  unmarshal_struct set_create_project_field (CreateProjectParams.mk [] [] []) v.

Definition set_update_project_field (key : str) (v : json) (p : UpdateProjectParams.t) : result UpdateProjectParams.t :=
  let '(UpdateProjectParams.mk id name slug description) := p in
  if field_match (lit "id") key then let? id := uuid_UnmarshalJSON v in inl (UpdateProjectParams.mk id name slug description)
  else if field_match (lit "name") key then set_string v p (fun s => UpdateProjectParams.mk id s slug description)
  else if field_match (lit "slug") key then set_string v p (fun s => UpdateProjectParams.mk id name s description)
  else if field_match (lit "description") key then set_string v p (fun s => UpdateProjectParams.mk id name slug s)
  else inr (unknown_field key).
Definition zeroUuid : pgUUID_t := PgUUID [] false.
Definition decode_UpdateProjectParams (v : json) : result UpdateProjectParams.t :=
  unmarshal_struct set_update_project_field (UpdateProjectParams.mk zeroUuid [] [] []) v.

Definition decode_updateProjectRegistryRequest (v : json) : result pgUUID_t :=
  unmarshal_struct (fun key v _ =>
    if field_match (lit "default_registry_id") key then uuid_UnmarshalJSON v else inr (unknown_field key)) zeroUuid v.

Record updateProjectRepositoryRequest := { RepoConnectorID : str; RepoRepository : str; RepoBranch : str }.
Definition set_project_repository_field (key : str) (v : json) (r : updateProjectRepositoryRequest) : result updateProjectRepositoryRequest :=
  let '(Build_updateProjectRepositoryRequest connector repository branch) := r in
  if field_match (lit "connector_id") key then set_string v r (fun s => Build_updateProjectRepositoryRequest s repository branch)
  else if field_match (lit "repository") key then set_string v r (fun s => Build_updateProjectRepositoryRequest connector s branch)
  else if field_match (lit "branch") key then set_string v r (fun s => Build_updateProjectRepositoryRequest connector repository s)
  else inr (unknown_field key).
Definition decode_updateProjectRepositoryRequest (v : json) : result updateProjectRepositoryRequest :=
  unmarshal_struct set_project_repository_field (Build_updateProjectRepositoryRequest [] [] []) v.

Definition set_environment_field (key : str) (v : json) (p : CreateEnvironmentParams.t) : result CreateEnvironmentParams.t :=
  let '(CreateEnvironmentParams.mk project name slug kind ephemeral number branch expires) := p in
  let named n := field_match n key in
  if named (lit "project_id") then let? id := uuid_UnmarshalJSON v in inl (CreateEnvironmentParams.mk id name slug kind ephemeral number branch expires)
  else if named (lit "name") then set_string v p (fun s => CreateEnvironmentParams.mk project s slug kind ephemeral number branch expires)
  else if named (lit "slug") then set_string v p (fun s => CreateEnvironmentParams.mk project name s kind ephemeral number branch expires)
  else if named (lit "kind") then set_string v p (fun s => CreateEnvironmentParams.mk project name slug s ephemeral number branch expires)
  else if named (lit "is_ephemeral") then set_bool v p (fun b => CreateEnvironmentParams.mk project name slug kind b number branch expires)
  else if named (lit "pull_request_number") then let? n := int4_UnmarshalJSON v in
    inl (CreateEnvironmentParams.mk project name slug kind ephemeral n branch expires)
  else if named (lit "branch") then let? t := text_UnmarshalJSON v in inl (CreateEnvironmentParams.mk project name slug kind ephemeral number t expires)
  else if named (lit "expires_at") then let? t := timestamptz_UnmarshalJSON v in
    inl (CreateEnvironmentParams.mk project name slug kind ephemeral number branch t)
  else inr (unknown_field key).
Definition decode_CreateEnvironmentParams (v : json) : result CreateEnvironmentParams.t :=
  unmarshal_struct set_environment_field (CreateEnvironmentParams.mk zeroUuid [] [] [] false None textNull None) v.

(** ** Projects *)

Definition listApplications (r : Request) : H unit :=
  let! applications := call QListApplications in
  match applications with inr err => writeError err | inl applications => writeJSON StatusOK (VApplications applications) end.

Definition listProjects (r : Request) : H unit :=
  let! projects := call QListProjects in
  match projects with inr err => writeError err | inl projects => writeJSON StatusOK (VProjects projects) end.

Definition audit_project (r : Request) (action : str) (project : ProjectRow.t) (metadata : list (str * json)) : H unit :=
  audit r action (lit "project") (uuidString (ProjectRow.ID project)) (ProjectRow.Name project) (Some metadata).
Definition slug_metadata (project : ProjectRow.t) : list (str * json) := [(lit "slug", jstr (ProjectRow.Slug project))].

Definition createProject (r : Request) : H unit :=
  match (let? input := readJSON decode_CreateProjectParams (Body r) in normalizeCreateProject input) with
  | inr err => writeError err
  | inl input =>
      let! project := call (QCreateProject input) in
      match project with
      | inr err => writeError err
      | inl project =>
          let! _ := audit_project r (lit "project.create") project (slug_metadata project) in
          writeJSON StatusCreated (VProject project)
      end
  end.

Definition project_missing (err : goerror) : goerror := applicationLookupError err (lit "project not found").

Definition updateProject (r : Request) : H unit :=
  match (let? projectID := parseUUIDParam r (lit "projectID") in
         let? request := readJSON decode_UpdateProjectParams (Body r) in
         normalizeUpdateProject (UpdateProjectParams.mk projectID (UpdateProjectParams.Name request)
           (UpdateProjectParams.Slug request) (UpdateProjectParams.Description request))) with
  | inr err => writeError err
  | inl request =>
      let! project := call (QUpdateProject request) in
      match project with
      | inr err => writeError (project_missing err)
      | inl project =>
          let! _ := audit_project r (lit "project.update") project (slug_metadata project) in
          writeJSON StatusOK (VProject project)
      end
  end.

Definition belongs_to (project : pgUUID_t) (listed : ApplicationListRow.t) : bool :=
  bool_decide (ProjectRow.ID (ApplicationListRow.Project listed) = project).

Definition deleteProject (r : Request) : H unit :=
  match parseUUIDParam r (lit "projectID") with
  | inr err => writeError err
  | inl projectID =>
      let! project := call (QGetProject projectID) in
      match project with
      | inr err => writeError (project_missing err)
      | inl project =>
          let! applications := call QListApplications in
          match applications with
          | inr err => writeError err
          | inl applications =>
              if existsb (belongs_to projectID) applications
              then writeError (ErrValidation (lit "delete every service in this project before deleting the project"))
              else
                let! deleted := call (QDeleteProject projectID) in
                match deleted with
                | inr err => writeError err
                | inl _ =>
                    let! _ := audit_project r (lit "project.delete") project (slug_metadata project) in
                    call (CWriteHeader StatusNoContent)
                end
          end
      end
  end.

(** The registry that is asked for exists. *)
Definition check_registry (registry : pgUUID_t) : H (result unit) :=
  if negb (uuid_valid registry) then Ret (inl tt)
  else
    let! found := call (QGetContainerRegistry registry) in
    Ret (match found with inr err => inr (applicationLookupError err (lit "registry not found")) | inl _ => inl tt end).

Definition updateProjectRegistry (r : Request) : H unit :=
  match (let? projectID := parseUUIDParam r (lit "projectID") in
         let? registry := readJSON decode_updateProjectRegistryRequest (Body r) in inl (projectID, registry)) with
  | inr err => writeError err
  | inl (projectID, registry) =>
      let! project := (let!? _ := check_registry registry in
                       let! project := call (QUpdateProjectRegistry registry projectID) in
                       Ret (match project with inr err => inr (project_missing err) | inl p => inl p end)) in
      match project with
      | inr err => writeError err
      | inl project =>
          let! _ := audit_project r (lit "project.registry_update") project
                      [(lit "registry_configured", JBool (uuid_valid (ProjectRow.DefaultRegistryID project)))] in
          writeJSON StatusOK (VProject project)
      end
  end.

(** The connector, repository and branch a project is connected to. *)
Definition repository_params (projectID : pgUUID_t) (request : updateProjectRepositoryRequest) : H (result UpdateProjectRepositoryParams.t) :=
  let connector := TrimSpace (RepoConnectorID request) in
  let name := TrimSpace (RepoRepository request) in
  let branch := TrimSpace (RepoBranch request) in
  if name =s [] then Ret (inl (UpdateProjectRepositoryParams.mk zeroUuid textNull textNull projectID))
  else match PgUUID' connector with
  | inr _ => Ret (inr (ErrValidation (lit "connector_id must be a uuid")))
  | inl connectorID =>
      let! account := call (QGetConnectorAccount connectorID) in
      Ret (match account with
           | inr err => inr (applicationLookupError err (lit "connector not found"))
           | inl account =>
               if negb (ConnectorAccount.Provider account =s lit "github") || negb (ConnectorAccount.Enabled account)
               then inr (ErrValidation (lit "connector must be an enabled github connector"))
               else
                 let? repository := githubConnectorRepositoryAnyBranch (ConnectorAccount.Config account) name in
                 let branch := or_default (or_default branch (Repository.Branch repository)) (lit "main") in
                 match ValidateGitRefName branch with
                 | Some err => inr (ErrValidation (lit "branch " ++ Error err))
                 | None => inl (UpdateProjectRepositoryParams.mk connectorID
                                  (blankStringAsText (Repository.Repository repository)) (blankStringAsText branch) projectID)
                 end
           end)
  end.

Definition updateProjectRepository (r : Request) : H unit :=
  match (let? projectID := parseUUIDParam r (lit "projectID") in
         let? request := readJSON decode_updateProjectRepositoryRequest (Body r) in inl (projectID, request)) with
  | inr err => writeError err
  | inl (projectID, request) =>
      let! project := (let!? params := repository_params projectID request in
                       let! project := call (QUpdateProjectRepository params) in
                       Ret (match project with inr err => inr (project_missing err) | inl p => inl p end)) in
      match project with
      | inr err => writeError err
      | inl project =>
          let! _ := audit_project r (lit "project.repository_update") project
                      [(lit "repository", jstr (String' (ProjectRow.RepositoryFullName project)));
                       (lit "branch", jstr (String' (ProjectRow.RepositoryBranch project)));
                       (lit "connected", JBool (Valid (ProjectRow.RepositoryFullName project)))] in
          writeJSON StatusOK (VProject project)
      end
  end.

(** ** Environments *)

Definition listEnvironments (r : Request) : H unit :=
  let! environments := call QListEnvironments in
  match environments with inr err => writeError err | inl environments => writeJSON StatusOK (VEnvironments environments) end.

Definition audit_environment (r : Request) (action : str) (e : Environment.t) (more : list (str * json)) : H unit :=
  audit r action (lit "environment") (uuidString (Environment.ID e)) (Environment.Name e)
    (Some ([(lit "project_id", jstr (uuidString (Environment.ProjectID e))); (lit "kind", jstr (Environment.Kind e))] ++ more)).

Definition createEnvironment (r : Request) : H unit :=
  match (let? input := readJSON decode_CreateEnvironmentParams (Body r) in normalizeCreateEnvironment input) with
  | inr err => writeError err
  | inl input =>
      let! project := call (QGetProject (CreateEnvironmentParams.ProjectID input)) in
      match project with
      | inr err => writeError (project_missing err)
      | inl _ =>
          let! environment := call (QCreateEnvironment input) in
          match environment with
          | inr err => writeError err
          | inl environment =>
              let! _ := audit_environment r (lit "environment.create") environment
                          [(lit "ephemeral", JBool (Environment.IsEphemeral environment))] in
              writeJSON StatusCreated (VEnvironment environment)
          end
      end
  end.

Definition deleteEnvironment (r : Request) : H unit :=
  match parseUUIDParam r (lit "environmentID") with
  | inr err => writeError err
  | inl environmentID =>
      let! environment := call (QGetEnvironment environmentID) in
      match environment with
      | inr err => writeError (applicationLookupError err (lit "environment not found"))
      | inl environment =>
          if Environment.Kind environment =s lit "production"
          then writeError (ErrValidation (lit "the production environment cannot be deleted"))
          else
            let! deleted := call (QDeleteEnvironment environmentID) in
            match deleted with
            | inr err => writeError (environmentDeletionError err)
            | inl _ =>
                let! _ := audit_environment r (lit "environment.delete") environment [] in
                call (CWriteHeader StatusNoContent)
            end
      end
  end.
End Projects.
