(* ===== verification/ComposeFile.v ===== *)
(** * Compose files: the services of a repository

    The part of internal/httpapi/github_repositories.go that reads a Compose file: the
    build, the ports in their short and long syntax, and the dependencies of each
    service.  A port in the short syntax is read as it was written.  The nodes are those
    of gopkg.in/yaml.v3, which parses the file. *)

From S2P Require Import Prelude GoStrings GoStringsFacts GoRegexp GoJson GoJsonFacts GoNet GoHttp.
From S2P Require Import StringUtil Db HttpApplications.

(** ** YAML *)

Inductive yaml_kind := ScalarNode | SequenceNode | MappingNode | OtherNode.
#[global] Instance yaml_kind_eq_dec : EqDecision yaml_kind.
Proof. solve_decision. Defined.

(** [yaml.Node]; the zero node is of another kind.  Keys and values of a mapping
    alternate in its content. *)
Inductive yaml_node := YamlNode (kind : yaml_kind) (value : str) (content : list yaml_node).
Definition Kind (n : yaml_node) : yaml_kind := let '(YamlNode k _ _) := n in k.
Definition Value (n : yaml_node) : str := let '(YamlNode _ v _) := n in v.
Definition Content (n : yaml_node) : list yaml_node := let '(YamlNode _ _ c) := n in c.

Module composeService.
Record t := mk { Image : str; Build : yaml_node; Ports : list yaml_node; Expose : list yaml_node; DependsOn : yaml_node }.
End composeService.

(** [yaml.Unmarshal] into the document: the services by their names. *)
Class Yaml := { yaml_compose : str -> result (gmap str composeService.t) }.

(** ** Nodes *)

Fixpoint map_value (content : list yaml_node) (key : str) : str :=
  match content with
  | k :: v :: t => if Value k =s key then Value v else map_value t key
  | _ => []
  end.
Definition yamlMapValue (node : yaml_node) (key : str) : str := map_value (Content node) key.

Definition composeBuild (node : yaml_node) : str * str :=
  match Kind node with
  | ScalarNode => (Value node, [])
  | MappingNode => (yamlMapValue node (lit "context"), yamlMapValue node (lit "dockerfile"))
  | _ => ([], [])
  end.

Fixpoint mapping_keys (content : list yaml_node) : list str :=
  match content with k :: _ :: t => Value k :: mapping_keys t | _ => [] end.

Definition composeDependencies (node : yaml_node) : list str :=
  List.filter (fun v => negb (v =s []))
    (match Kind node with
     | SequenceNode => map Value (Content node)
     | MappingNode => mapping_keys (Content node)
     | _ => []
     end).

(** ** Ports *)

(** The loop from the end: the text up to [reversed] is still to be seen. *)
Fixpoint separator_loop (reversed : str) (curly square : Z) : option nat :=
  match reversed with
  | [] => None
  | c :: t =>
      if bool_decide (c = "}"%char) then separator_loop t (curly + 1) square
      else if bool_decide (c = "{"%char) then separator_loop t (curly - 1) square
      else if bool_decide (c = "]"%char) then separator_loop t curly (square + 1)
      else if bool_decide (c = "["%char) then separator_loop t curly (square - 1)
      else if bool_decide (c = ":"%char) && (curly =? 0)%Z && (square =? 0)%Z then Some (length t)
      else separator_loop t curly square
  end.
Definition lastComposePortSeparator (value : str) : option nat := separator_loop (rev value) 0 0.

(** The container port, and the published one when there is one. *)
Definition splitComposePort (value : str) : str * option str :=
  match lastComposePortSeparator value with
  | None => (value, None)
  | Some separator =>
      let prefix := take separator value in
      (drop (S separator) value,
       Some (match lastComposePortSeparator prefix with Some i => drop (S i) prefix | None => prefix end))
  end.

Definition variable_rune (first : bool) (r : rune) : bool :=
  is_upper_ascii r || is_lower_ascii r || (r =? 95)%N || (negb first && is_digit r).
Definition validComposeVariable (value : str) : bool :=
  match runes value with [] => false | r :: t => variable_rune true r && forallb (variable_rune false) t end.

(** [strings.Cut(s, sep)] *)
Definition Cut (s sep : str) : str * str :=
  match find_sub s sep with Some (before, rest) => (before, drop (length sep) rest) | None => (s, []) end.

Definition port_in_range (z : Z) : bool := (1 <=? z)%Z && (z <=? 65535)%Z.
(** [strconv.Atoi] and the bounds of a port. *)
Definition parse_port (s : str) : option Z :=
  match ParseInt64 s with Some z => if port_in_range z then Some z else None | None => None end.

(** The published port, 0 without one, and the variable that sets it. *)
Definition composePublishedPort (value : str) : option (Z * str) :=
  let value := TrimSpace value in
  let '(variable, fallback) :=
    if HasPrefix value (lit "${") && HasSuffix value (lit "}")
    then Cut (TrimSuffix (TrimPrefix value (lit "${")) (lit "}")) (lit ":-")
    else if HasPrefix value (lit "$") then (TrimPrefix value (lit "$"), [])
    else ([], value) in
  if negb (variable =s []) && negb (validComposeVariable variable) then None
  else if fallback =s [] then if variable =s [] then None else Some (0%Z, variable)
  else match parse_port fallback with Some port => Some (port, variable) | None => None end.

(** The short syntax. *)
Definition short_port (value : str) : option ComposePort.t :=
  let i := LastIndexByte value slash in
  let '(value, protocol) := if (0 <=? i)%Z then (slice_to value i, slice_from value (i + 1)) else (value, []) in
  let '(container, published) := splitComposePort value in
  match parse_port container with
  | None => None
  | Some container =>
      match published with
      | None => Some (ComposePort.mk container 0 protocol [])
      | Some published =>
          match composePublishedPort published with
          | Some (port, variable) => Some (ComposePort.mk container port protocol variable)
          | None => None
          end
      end
  end.

Definition composePort (node : yaml_node) : option ComposePort.t :=
  match Kind node with
  | ScalarNode => short_port (Value node)
  | MappingNode =>
      match parse_port (yamlMapValue node (lit "target")) with
      | None => None
      | Some target =>
          let protocol := yamlMapValue node (lit "protocol") in
          let published := yamlMapValue node (lit "published") in
          if published =s [] then Some (ComposePort.mk target 0 protocol [])
          else match composePublishedPort published with
               | Some (port, variable) => Some (ComposePort.mk target port protocol variable)
               | None => None
               end
      end
  | _ => None
  end.

(** ** Services *)

Definition port_key (p : ComposePort.t) : str := fmt_d (ComposePort.ContainerPort p) ++ lit "/" ++ ComposePort.Protocol p.

(** The first port of every container port and protocol. *)
Fixpoint distinct_ports (nodes : list yaml_node) (seen : gset str) : list ComposePort.t :=
  match nodes with
  | [] => []
  | node :: t =>
      match composePort node with
      | Some p => if bool_decide (port_key p ∈ seen) then distinct_ports t seen else p :: distinct_ports t ({[port_key p]} ∪ seen)
      | None => distinct_ports t seen
      end
  end.

Definition compose_service (name : str) (s : composeService.t) : ComposeService.t :=
  let '(context, dockerfile) := composeBuild (composeService.Build s) in
  ComposeService.mk name (composeService.Image s) context dockerfile
    (Some (distinct_ports (composeService.Ports s ++ composeService.Expose s) ∅))
    (Some (sort_Strings (composeDependencies (composeService.DependsOn s)))) [].

(** The map is ranged over in some order and then sorted by the names, which are
    distinct. *)
Definition detected_services (services : gmap str composeService.t) : list ComposeService.t :=
  merge_sort (by_key ComposeService.Name) (map (fun p => compose_service p.1 p.2) (map_to_list services)).

(** ** The short syntax reads back *)

(** A published port as it is written: a number, a variable, or a variable with the
    number that stands in for it. *)
Inductive published :=
| PNumber (port : Z)
| PVariable (name : str)
| PBare (name : str)
| PDefault (name : str) (port : Z).

Definition print_published (p : published) : str :=
  match p with
  | PNumber port => fmt_d port
  | PVariable name => lit "${" ++ name ++ lit "}"
  | PBare name => lit "$" ++ name
  | PDefault name port => lit "${" ++ name ++ lit ":-" ++ fmt_d port ++ lit "}"
  end.
Definition published_port (p : published) : Z := match p with PNumber port | PDefault _ port => port | _ => 0%Z end.
Definition published_variable (p : published) : str :=
  match p with PVariable name | PBare name | PDefault name _ => name | _ => [] end.

Definition name_char (c : ascii) : bool := is_alnum (b2n c) || (b2n c =? 95)%N.
Definition variable_name (name : str) : bool :=
  match name with [] => false | c :: t => negb (is_digit (b2n c)) && forallb name_char (c :: t) end.
Definition published_ok (p : published) : bool :=
  match p with
  | PNumber port => port_in_range port
  | PVariable name | PBare name => variable_name name
  | PDefault name port => variable_name name && port_in_range port
  end.

(** host:published:container/protocol; there is no host without a published port. *)
Definition print_short (host : option str) (p : option published) (container : Z) (protocol : str) : str :=
  (match p with
   | Some p => (match host with Some h => h ++ lit ":" | None => [] end) ++ print_published p ++ lit ":"
   | None => []
   end)
  ++ fmt_d container ++ (if protocol =s [] then [] else lit "/" ++ protocol).

(** Bytes that a scan for the separator passes, outside and inside braces. *)
Definition plain_byte (c : ascii) : bool := negb (ContainsByte (lit ":{}[]") c).
Definition inner_byte (c : ascii) : bool := negb (ContainsByte (lit "{}[]") c).

Lemma plain_parts c : plain_byte c = true ->
  c <> "}"%char /\ c <> "{"%char /\ c <> "]"%char /\ c <> "["%char /\ c <> ":"%char.
Proof. intros Hc. repeat split; intros ->; discriminate Hc. Qed.
Lemma inner_parts c : inner_byte c = true -> c <> "}"%char /\ c <> "{"%char /\ c <> "]"%char /\ c <> "["%char.
Proof. intros Hc. repeat split; intros ->; discriminate Hc. Qed.

Lemma separator_plain l rest curly square : forallb plain_byte l = true ->
  separator_loop (l ++ rest) curly square = separator_loop rest curly square.
Proof.
  induction l as [|c l IH]; [done|]. cbn [forallb app separator_loop]. intros [Hc Hl]%andb_true_iff.
  apply plain_parts in Hc as (K1 & K2 & K3 & K4 & K5). rewrite !bool_decide_eq_false_2 by done. cbn [andb]. by apply IH.
Qed.
Lemma separator_inner l rest curly square : forallb inner_byte l = true -> curly <> 0%Z ->
  separator_loop (l ++ rest) curly square = separator_loop rest curly square.
Proof.
  intros Hl Hz. apply Z.eqb_neq in Hz. revert Hl. induction l as [|c l IH]; [done|]. cbn [forallb app separator_loop].
  intros [Hc Hl]%andb_true_iff. apply inner_parts in Hc as (K1 & K2 & K3 & K4). rewrite (bool_decide_eq_false_2 (c = "}"%char)) by done.
  rewrite (bool_decide_eq_false_2 (c = "{"%char)), (bool_decide_eq_false_2 (c = "]"%char)), (bool_decide_eq_false_2 (c = "["%char)) by done.
  rewrite Hz, andb_false_r. cbn [andb]. by apply IH.
Qed.

Lemma forallb_rev {A} (p : A -> bool) l : forallb p (rev l) = forallb p l.
Proof. induction l as [|x l IH]; [done|]. cbn [rev forallb]. rewrite forallb_app, IH. cbn. by rewrite andb_true_r, andb_comm. Qed.
Lemma forallb_weaken {A} (p q : A -> bool) l : (forall x, p x = true -> q x = true) -> forallb p l = true -> forallb q l = true.
Proof. intros Hpq. rewrite !forallb_forall. auto. Qed.

(** [passed s]: no separator in [s]. *)
Definition passed (s : str) : Prop := forall rest, separator_loop (rev s ++ rest) 0 0 = separator_loop rest 0 0.

Lemma passed_plain s : forallb plain_byte s = true -> passed s.
Proof. intros Hs rest. apply separator_plain. by rewrite forallb_rev. Qed.

Lemma passed_braces s : forallb inner_byte s = true -> passed (lit "${" ++ s ++ lit "}").
Proof.
  intros Hs rest. rewrite !rev_app_distr, <- !app_assoc. cbn [rev lit String.list_ascii_of_string app].
  cbn [separator_loop]. rewrite !bool_decide_eq_true_2 by done. rewrite separator_inner by (by rewrite ?forallb_rev). done.
Qed.

Lemma digit_plain c : is_dig c = true -> plain_byte c = true.
Proof. destruct c as [[] [] [] [] [] [] [] []]; vm_compute; congruence. Qed.
Lemma name_plain c : name_char c = true -> plain_byte c = true.
Proof. destruct c as [[] [] [] [] [] [] [] []]; vm_compute; congruence. Qed.
Lemma plain_inner c : plain_byte c = true -> inner_byte c = true.
Proof. destruct c as [[] [] [] [] [] [] [] []]; vm_compute; congruence. Qed.

Lemma fmt_d_digits z : (0 < z)%Z -> forallb is_dig (fmt_d z) = true /\ digits_value (fmt_d z) = z /\ exists c t, fmt_d z = c :: t.
Proof.
  intros Hz. destruct z as [|p|p]; [lia| |lia]. unfold fmt_d.
  destruct (pretty_go_decimal (N.pos p)) as (ds & (Hd & Hv & c & t & -> & _) & Hs); [lia|].
  change (lit (pretty (Z.pos p))) with (lit (pretty_N_go (N.pos p) "")). rewrite Hs, app_nil_r.
  split; [exact Hd|]. split; [by rewrite Hv|]. by exists c, t.
Qed.

Lemma dig_visible c : is_dig c = true -> (b2n c =? 45)%N = false /\ (b2n c =? 43)%N = false.
Proof. destruct c as [[] [] [] [] [] [] [] []]; vm_compute; intros; split; congruence. Qed.

Lemma parse_port_printed z : port_in_range z = true -> parse_port (fmt_d z) = Some z.
Proof.
  intros Hz. unfold parse_port. assert (Hr : (1 <= z <= 65535)%Z) by (apply andb_true_iff in Hz as [?%Z.leb_le ?%Z.leb_le]; lia).
  destruct (fmt_d_digits z) as (Hd & Hv & c & t & Ec); [lia|].
  assert (Hp : ParseInt64 (fmt_d z) = Some z); [|by rewrite Hp, Hz].
  unfold ParseInt64, ParseInt. rewrite Ec in *. assert (Hc : is_dig c = true) by (cbn in Hd; by apply andb_true_iff in Hd as [? _]).
  destruct (dig_visible c Hc) as [-> ->]. cbn [str_eqb orb]. rewrite Hd, Hv. cbn [negb orb].
  unfold minInt64, maxInt64. by rewrite (proj2 (Z.leb_le _ _)), (proj2 (Z.leb_le _ _)) by lia.
Qed.

(** ** Published ports *)

Definition visible_byte (c : ascii) : bool := (b2n c <? 128)%N && negb (is_space (b2n c)).
Lemma visible_trimmed s : forallb visible_byte s = true -> TrimSpace s = s.
Proof.
  intros Hs. destruct s as [|c t] using rev_ind; [done|]. clear IHt. rewrite forallb_app in Hs. cbn in Hs.
  rewrite andb_true_r in Hs. apply andb_true_iff in Hs as [Ht Hc]. destruct (t ++ [c]) as [|d w] eqn:E; [by destruct t|].
  assert (Hd : forallb visible_byte (d :: w) = true) by (rewrite <- E, forallb_app, Ht; cbn; by rewrite Hc).
  cbn in Hd. pose proof Hd as [Hd1 Hw]%andb_true_iff. unfold visible_byte in Hc, Hd1.
  apply andb_true_iff in Hc as [_ Hc%negb_true_iff]. apply andb_true_iff in Hd1 as [_ Hd1%negb_true_iff].
  apply (TrimFunc_ascii_fixed is_space d w c t); [|exact Hd1|by rewrite E|exact Hc].
  apply (forallb_weaken visible_byte); [|exact Hd]. unfold visible_byte. by intros x [? _]%andb_true_iff.
Qed.

Lemma dig_visible_byte c : is_dig c = true -> visible_byte c = true.
Proof. destruct c as [[] [] [] [] [] [] [] []]; vm_compute; congruence. Qed.
Lemma name_visible_byte c : name_char c = true -> visible_byte c = true.
Proof. destruct c as [[] [] [] [] [] [] [] []]; vm_compute; congruence. Qed.

Lemma name_rune first c : name_char c = true -> (first = false \/ is_digit (b2n c) = false) -> variable_rune first (b2n c) = true.
Proof.
  unfold name_char, variable_rune, is_alnum, is_alpha. intros Hc Hf.
  destruct (is_upper_ascii _); [done|]. destruct (is_lower_ascii _); [done|]. destruct (_ =? 95)%N; [done|].
  cbn in Hc |- *. rewrite orb_false_r in Hc. destruct Hf as [->|Hf]; [by rewrite Hc|by rewrite Hf in Hc].
Qed.

Lemma variable_valid name : variable_name name = true -> validComposeVariable name = true /\ forallb name_char name = true /\ name <> [].
Proof.
  destruct name as [|c t]; [done|]. cbn [variable_name]. intros [Hd%negb_true_iff Hn]%andb_true_iff.
  split; [|by split]. unfold validComposeVariable. rewrite runes_ascii.
  - cbn [map]. cbn in Hn. apply andb_true_iff in Hn as [Hc Ht]. rewrite (name_rune true) by auto. cbn [andb].
    rewrite forallb_map. apply (forallb_weaken name_char); [|exact Ht]. intros x Hx. apply name_rune; auto.
  - apply (forallb_weaken name_char); [|exact Hn]. intros x Hx%name_visible_byte. by apply andb_true_iff in Hx as [? _].
Qed.

Lemma Cut_variable name rest : forallb name_char name = true -> Cut (name ++ lit ":-" ++ rest) (lit ":-") = (name, rest).
Proof.
  intros Hn. unfold Cut, find_sub.
  assert (K : forall pre, (fix go (pre s : str) : option (str * str) :=
     if HasPrefix s (lit ":-") then Some (pre, s) else match s with [] => None | c :: t => go (pre ++ [c]) t end)
     pre (name ++ lit ":-" ++ rest) = Some (pre ++ name, lit ":-" ++ rest)); [|by rewrite K].
  induction name as [|c t IH]; intros pre; [by rewrite app_nil_r|]. cbn in Hn. apply andb_true_iff in Hn as [Hc Ht].
  change ((c :: t) ++ lit ":-" ++ rest) with (c :: (t ++ lit ":-" ++ rest)).
  assert (Hp : HasPrefix (c :: t ++ lit ":-" ++ rest) (lit ":-") = false).
  { cbn. rewrite bool_decide_eq_false_2; [done|]. intros E. subst c. discriminate Hc. }
  cbn -[HasPrefix lit app]. rewrite Hp, (IH Ht). by rewrite <- app_assoc.
Qed.

Lemma digits_visible z : (0 < z)%Z -> forallb visible_byte (fmt_d z) = true.
Proof. intros Hz. apply (forallb_weaken is_dig); [exact dig_visible_byte|]. by apply fmt_d_digits. Qed.

Lemma in_range_pos z : port_in_range z = true -> (0 < z)%Z.
Proof. intros [?%Z.leb_le _]%andb_true_iff. lia. Qed.

Lemma braced_parts s : HasPrefix (lit "${" ++ s ++ lit "}") (lit "${") = true /\ HasSuffix (lit "${" ++ s ++ lit "}") (lit "}") = true
  /\ TrimSuffix (TrimPrefix (lit "${" ++ s ++ lit "}") (lit "${")) (lit "}") = s.
Proof.
  rewrite HasPrefix_app. split; [done|]. split; [apply HasSuffix_true; exists (lit "${" ++ s); by rewrite app_assoc|].
  unfold TrimPrefix. rewrite HasPrefix_app. change (drop (length (lit "${")) (lit "${" ++ s ++ lit "}")) with (s ++ lit "}").
  apply TrimSuffix_app.
Qed.

Lemma find_sub_variable name : forallb name_char name = true -> find_sub name (lit ":-") = None.
Proof.
  unfold find_sub. match goal with |- _ -> ?f _ _ = None => enough (K : forall s pre, forallb name_char s = true -> f pre s = None) by auto end.
  clear name. intros name. induction name as [|c t IH]; intros pre; [done|].
  cbn [forallb]. intros [Hc Ht]%andb_true_iff. cbn -[HasPrefix lit app].
  assert (Hp : HasPrefix (c :: t) (lit ":-") = false).
  { cbn. rewrite bool_decide_eq_false_2; [done|]. intros E. subst c. discriminate Hc. }
  rewrite Hp. by apply IH.
Qed.

Lemma published_reads p : published_ok p = true ->
  composePublishedPort (print_published p) = Some (published_port p, published_variable p).
Proof.
  intros Hp. unfold composePublishedPort. destruct p as [port|name|name|name port]; cbn [published_ok print_published] in *.
  - pose proof (in_range_pos _ Hp) as Hz. destruct (fmt_d_digits _ Hz) as (Hd & _ & c & t & Ec).
    rewrite (visible_trimmed _ (digits_visible _ Hz)). pose proof (parse_port_printed _ Hp) as Hr. rewrite Ec in *.
    cbn in Hd. apply andb_true_iff in Hd as [Hc _].
    assert (Hn : c <> "$"%char) by (intros ->; discriminate Hc).
    change (HasPrefix (c :: t) (lit "${")) with (bool_decide ("$"%char = c) && HasPrefix t (lit "{")).
    change (HasPrefix (c :: t) (lit "$")) with (bool_decide ("$"%char = c) && HasPrefix t []).
    rewrite bool_decide_eq_false_2 by congruence. cbn [andb str_eqb negb]. rewrite Hr. done.
  - destruct (variable_valid _ Hp) as (Hv & Hc & Hne). destruct (braced_parts name) as (H1 & H2 & H3).
    rewrite visible_trimmed, H1, H2, H3.
    + cbn [andb]. unfold Cut. pose proof (find_sub_variable _ Hc) as Hf.
      rewrite Hf, Hv. apply str_eqb_neq in Hne. by rewrite Hne.
    + rewrite !forallb_app, (forallb_weaken name_char visible_byte _ name_visible_byte Hc). reflexivity.
  - destruct (variable_valid _ Hp) as (Hv & Hc & Hne). rewrite visible_trimmed.
    2:{ rewrite forallb_app, (forallb_weaken name_char visible_byte _ name_visible_byte Hc). reflexivity. }
    destruct name as [|c t]; [done|]. cbn in Hc. apply andb_true_iff in Hc as [Hc _].
    change (HasPrefix (lit "$" ++ c :: t) (lit "${")) with (bool_decide ("{"%char = c) && HasPrefix t []).
    rewrite bool_decide_eq_false_2 by (intros E; subst c; discriminate Hc). cbn [andb].
    rewrite HasPrefix_app. unfold TrimPrefix. rewrite HasPrefix_app. change (drop (length (lit "$")) (lit "$" ++ c :: t)) with (c :: t).
    rewrite Hv. done.
  - apply andb_true_iff in Hp as [Hp Hz]. destruct (variable_valid _ Hp) as (Hv & Hc & Hne).
    pose proof (in_range_pos _ Hz) as Hpos. destruct (fmt_d_digits _ Hpos) as (_ & _ & d & u & Ed).
    replace (lit "${" ++ name ++ lit ":-" ++ fmt_d port ++ lit "}") with (lit "${" ++ (name ++ lit ":-" ++ fmt_d port) ++ lit "}")
      by by rewrite <- !app_assoc.
    destruct (braced_parts (name ++ lit ":-" ++ fmt_d port)) as (H1 & H2 & H3). rewrite visible_trimmed, H1, H2, H3.
    + cbn [andb]. rewrite (Cut_variable _ _ Hc), Hv. pose proof (parse_port_printed _ Hz) as Hr.
      apply str_eqb_neq in Hne. rewrite Hne, Hr. by rewrite Ed.
    + rewrite !forallb_app, (digits_visible _ Hpos), (forallb_weaken name_char visible_byte _ name_visible_byte Hc). reflexivity.
Qed.

(** ** The whole port *)

Lemma passed_published p : published_ok p = true -> passed (print_published p).
Proof.
  destruct p as [port|name|name|name port]; cbn [published_ok print_published].
  - intros Hp%in_range_pos. apply passed_plain, (forallb_weaken is_dig); [exact digit_plain|by apply fmt_d_digits].
  - intros (_ & Hc & _)%variable_valid. apply passed_braces, (forallb_weaken name_char); [|exact Hc]. auto using name_plain, plain_inner.
  - intros (_ & Hc & _)%variable_valid. apply passed_plain. cbn. apply (forallb_weaken name_char); [exact name_plain|exact Hc].
  - intros [(_ & Hc & _)%variable_valid Hz%in_range_pos]%andb_true_iff.
    replace (lit "${" ++ name ++ lit ":-" ++ fmt_d port ++ lit "}") with (lit "${" ++ (name ++ lit ":-" ++ fmt_d port) ++ lit "}")
      by by rewrite <- !app_assoc.
    apply passed_braces. rewrite !forallb_app.
    rewrite (forallb_weaken name_char inner_byte _ (fun c Hc => plain_inner c (name_plain c Hc)) Hc). cbn.
    apply (forallb_weaken is_dig); [auto using digit_plain, plain_inner|by apply fmt_d_digits].
Qed.

Lemma separator_after a b : passed b -> lastComposePortSeparator (a ++ lit ":" ++ b) = Some (length a).
Proof.
  intros Hb. unfold lastComposePortSeparator. rewrite !rev_app_distr, <- app_assoc, Hb. cbn. by rewrite length_rev.
Qed.
Lemma separator_none b : passed b -> lastComposePortSeparator b = None.
Proof. intros Hb. unfold lastComposePortSeparator. rewrite <- (app_nil_r (rev b)). by rewrite Hb. Qed.

Lemma after_separator a b : drop (S (length a)) (a ++ lit ":" ++ b) = b.
Proof. change (lit ":" ++ b) with ([":"%char] ++ b). rewrite app_assoc. rewrite <- (Nat.add_1_r (length a)). 
  replace (length a + 1)%nat with (length (a ++ [":"%char])) by (rewrite length_app; done). apply drop_app_length. Qed.

Definition print_prefix (host : option str) (p : published) : str :=
  (match host with Some h => h ++ lit ":" | None => [] end) ++ print_published p.

Lemma split_printed host p container : passed container -> published_ok p = true ->
  splitComposePort (print_prefix host p ++ lit ":" ++ container) = (container, Some (print_published p)).
Proof.
  intros Hc Hp. unfold splitComposePort. rewrite (separator_after _ _ Hc), after_separator, take_app_length.
  unfold print_prefix. destruct host as [h|].
  - rewrite <- app_assoc, (separator_after _ _ (passed_published _ Hp)), after_separator. done.
  - cbn [app]. by rewrite (separator_none _ (passed_published _ Hp)).
Qed.

(** No byte of what is printed is the slash that announces the protocol. *)
Lemma no_slash_class f s : f slash = false -> forallb f s = true -> slash ∉ s.
Proof. intros Hf Hs Hin. pose proof (forallb_elem _ _ _ Hs Hin). congruence. Qed.
Lemma port_no_slash z : port_in_range z = true -> slash ∉ fmt_d z.
Proof. intros Hz%in_range_pos. apply (no_slash_class is_dig); [done|]. by apply fmt_d_digits. Qed.
Lemma variable_no_slash name : variable_name name = true -> slash ∉ name.
Proof. intros (_ & Hc & _)%variable_valid. by apply (no_slash_class name_char). Qed.
Lemma published_no_slash q : published_ok q = true -> slash ∉ print_published q.
Proof.
  destruct q as [port|name|name|name port]; cbn [print_published published_ok]; rewrite ?andb_true_iff.
  - apply port_no_slash.
  - intros Kn%variable_no_slash. rewrite !elem_of_app. cbn. rewrite !elem_of_cons, elem_of_nil. naive_solver.
  - intros Kn%variable_no_slash. rewrite !elem_of_app. cbn. rewrite !elem_of_cons, elem_of_nil. naive_solver.
  - intros [Kn%variable_no_slash Kz%port_no_slash]. rewrite !elem_of_app. cbn. rewrite !elem_of_cons, elem_of_nil. naive_solver.
Qed.

Definition print_body (host : option str) (p : option published) (container : Z) : str :=
  (match p with Some q => print_prefix host q ++ lit ":" | None => [] end) ++ fmt_d container.

Lemma body_no_slash host p container : port_in_range container = true -> (forall q, p = Some q -> published_ok q = true) ->
  (forall h, host = Some h -> slash ∉ h) -> slash ∉ print_body host p container.
Proof.
  intros Kc%port_no_slash Kp Kh. unfold print_body, print_prefix. rewrite elem_of_app. intros [Hin|Hin]; [|done].
  destruct p as [q|]; [|by apply elem_of_nil in Hin]. pose proof (published_no_slash q (Kp q eq_refl)) as Kq.
  rewrite !elem_of_app in Hin. destruct Hin as [[Hin|Hin]|Hin]; [|done|].
  - destruct host as [h|]; [|by apply elem_of_nil in Hin]. specialize (Kh h eq_refl).
    apply elem_of_app in Hin as [Hin|Hin]; [done|]. apply list_elem_of_singleton in Hin. discriminate Hin.
  - apply list_elem_of_singleton in Hin. discriminate Hin.
Qed.

(** A value followed by its protocol is cut at the last slash. *)
Lemma protocol_cut body protocol : slash ∉ body -> slash ∉ protocol ->
  (let value := body ++ (if protocol =s [] then [] else lit "/" ++ protocol) in
   let i := LastIndexByte value slash in
   if (0 <=? i)%Z then (slice_to value i, slice_from value (i + 1)) else (value, [])) = (body, protocol).
Proof.
  intros Hslash Hprotocol. cbv zeta. destruct (protocol =s []) eqn:Ep.
  - apply str_eqb_eq in Ep as ->. rewrite app_nil_r, (LastIndexByte_absent _ _ Hslash). done.
  - change (lit "/" ++ protocol) with (slash :: protocol). rewrite (LastIndexByte_last _ _ _ Hprotocol).
    rewrite (proj2 (Z.leb_le _ _)) by lia. by rewrite slice_to_app, slice_from_app.
Qed.

Lemma print_short_body host p container protocol :
  print_short host p container protocol = print_body host p container ++ (if protocol =s [] then [] else lit "/" ++ protocol).
Proof. unfold print_short, print_body, print_prefix. destruct p as [q|], host as [h|]; cbn [app]; rewrite <- ?app_assoc; reflexivity. Qed.

(** C23: a port in the short syntax of Compose is read as it is written: with a host
    or without, with the published port as a number, a variable, or a variable with a
    number to stand in for it, with a protocol or without; the colon inside the braces
    of a variable and the colons of the host do not separate. *)
Theorem short_port_syntax_reads host p container protocol
    (Hcontainer : port_in_range container = true) (Hpublished : forall q, p = Some q -> published_ok q = true)
    (Hhost : forall h, host = Some h -> slash ∉ h) (Hprotocol : slash ∉ protocol) :
  composePort (YamlNode ScalarNode (print_short host p container protocol) [])
  = Some (ComposePort.mk container (match p with Some q => published_port q | None => 0%Z end) protocol
            (match p with Some q => published_variable q | None => [] end)).
Proof.
  cbn [composePort Kind Value]. pose proof (in_range_pos _ Hcontainer) as Hz. destruct (fmt_d_digits _ Hz) as (Hd & _ & _).
  assert (Hpass : passed (fmt_d container)) by (apply passed_plain, (forallb_weaken is_dig); [exact digit_plain|exact Hd]).
  pose proof (protocol_cut _ _ (body_no_slash host p container Hcontainer Hpublished Hhost) Hprotocol) as Hcut.
  unfold short_port. rewrite print_short_body. cbv zeta in Hcut |- *. rewrite Hcut. unfold print_body. destruct p as [q|].
  - specialize (Hpublished q eq_refl).
    rewrite <- app_assoc, (split_printed _ _ _ Hpass Hpublished), (parse_port_printed _ Hcontainer), (published_reads _ Hpublished). done.
  - cbn [app]. unfold splitComposePort. rewrite (separator_none _ Hpass), (parse_port_printed _ Hcontainer). done.
Qed.

Lemma short_port_syntax_reads_witness :
  composePort (YamlNode ScalarNode (lit "127.0.0.1:${PORT:-8080}:80/tcp") []) = Some (ComposePort.mk 80 8080 (lit "tcp") (lit "PORT")).
Proof.
  refine (short_port_syntax_reads (Some (lit "127.0.0.1")) (Some (PDefault (lit "PORT") 8080)) 80 (lit "tcp") eq_refl _ _ _).
  - intros q [= <-]. reflexivity.
  - intros h [= <-]. apply (bool_decide_eq_false (slash ∈ lit "127.0.0.1")). reflexivity.
  - apply (bool_decide_eq_false (slash ∈ lit "tcp")). reflexivity.
Defined.
