(* ===== verification/HttpRepositories.v ===== *)
(** * internal/httpapi/github_repositories.go: the repositories of the GitHub App

    The handlers: the connection of an installation and its synchronisation, the scan
    of a repository for Compose files, the import of the services it found, and the
    builds that are started by hand.  The client of the GitHub API is called; Compose
    files are read in ComposeFile.v. *)

From S2P Require Import Prelude GoStrings GoRegexp GoJson GoNet StringUtil AuditLog Db.
From S2P Require Import DbHttp DbApplications DbProjects DbInventory RemoteSteps ProxyCommands Effects Runner.
From S2P Require Import GoHttp GithubConnector GithubApp HttpCore HttpDeployments HttpApplications.
From S2P Require Import HttpServers HttpConnectors HttpGithub HttpProjects ComposeFile.

(** ** Data *)

Module DetectedService.
Record t := mk {
  Name : str; Root : str; ComposePath : str; PathFilters : option (list str); ComposeServices : option (list ComposeService.t) }.
Definition zero : t := mk [] [] [] None None.
End DetectedService.

Module ImportRequest.
Record t := mk {
  ConnectorID : str; Repository : str; Branch : str; Root : str; EnvironmentID : str; ServerID : str;
  Services : list str; Detected : list DetectedService.t }.
Definition zero : t := mk [] [] [] [] [] [] [] [].
End ImportRequest.

(** What an import refers to. *)
Module ImportContext.
Record t := mk {
  ProjectID : pgUUID_t; EnvironmentID : pgUUID_t; ServerID : pgUUID_t; Environment : Db.Environment.t; Project : ProjectRow.t;
  Account : ConnectorAccount.t; Repository : GithubConnector.Repository.t }.
End ImportContext.

Section Repositories.
Context `{UnicodeTables} `{UuidLib} `{SshLib} `{PgJson} `{FoldTable} `{Yaml}.

(** The decoder of a request refuses unknown fields at every depth. *)
Definition strict {S} (names : list string) (set : str -> json -> S -> result S) (key : str) (v : json) (s : S) : result S :=
  if existsb (fun n : string => field_match (lit n) key) names then set key v s else inr (unknown_field key).

Definition strict_port : str -> json -> ComposePort.t -> result ComposePort.t :=
  strict ["container_port"; "published_port"; "protocol"; "variable"]%string set_port_field.

Definition strict_service (key : str) (v : json) (s : ComposeService.t) : result ComposeService.t :=
  if field_match (lit "ports") key then
    let? ports := unmarshal_slice (unmarshal_struct strict_port ComposePort.zero) v in
    inl (ComposeService.mk (ComposeService.Name s) (ComposeService.Image s) (ComposeService.BuildContext s)
           (ComposeService.Dockerfile s) ports (ComposeService.DependsOn s) (ComposeService.ExecutionMode s))
  else strict ["name"; "image"; "build_context"; "dockerfile"; "depends_on"; "execution_mode"]%string set_service_field key v s.

Definition set_detected_field (key : str) (v : json) (s : DetectedService.t) : result DetectedService.t :=
  let '(DetectedService.mk name root path filters services) := s in
  let named n := field_match n key in
  if named (lit "name") then set_string v s (fun x => DetectedService.mk x root path filters services)
  else if named (lit "root") then set_string v s (fun x => DetectedService.mk name x path filters services)
  else if named (lit "compose_path") then set_string v s (fun x => DetectedService.mk name root x filters services)
  else if named (lit "path_filters") then
    let? l := unmarshal_slice unmarshal_string v in inl (DetectedService.mk name root path l services)
  else if named (lit "compose_services") then
    let? l := unmarshal_slice (unmarshal_struct strict_service ComposeService.zero) v in
    inl (DetectedService.mk name root path filters l)
  else inr (unknown_field key).

Definition set_import_field (key : str) (v : json) (r : ImportRequest.t) : result ImportRequest.t :=
  let '(ImportRequest.mk connector repository branch root environment server services detected) := r in
  let named n := field_match n key in
  if named (lit "connector_id") then set_string v r (fun s => ImportRequest.mk s repository branch root environment server services detected)
  else if named (lit "repository") then set_string v r (fun s => ImportRequest.mk connector s branch root environment server services detected)
  else if named (lit "branch") then set_string v r (fun s => ImportRequest.mk connector repository s root environment server services detected)
  else if named (lit "root") then set_string v r (fun s => ImportRequest.mk connector repository branch s environment server services detected)
  else if named (lit "environment_id") then set_string v r (fun s => ImportRequest.mk connector repository branch root s server services detected)
  else if named (lit "server_id") then set_string v r (fun s => ImportRequest.mk connector repository branch root environment s services detected)
  else if named (lit "services") then
    let? l := unmarshal_strings v in inl (ImportRequest.mk connector repository branch root environment server l detected)
  else if named (lit "detected_services") then
    let? l := unmarshal_slice (unmarshal_struct set_detected_field DetectedService.zero) v in
    inl (ImportRequest.mk connector repository branch root environment server services (default [] l))
  else inr (unknown_field key).
Definition decode_githubImportServicesRequest (v : json) : result ImportRequest.t :=
  unmarshal_struct set_import_field ImportRequest.zero v.

Definition set_dispatch_field (key : str) (v : json) (r : githubBuildDispatchRequest) : result githubBuildDispatchRequest :=
  let '(Build_githubBuildDispatchRequest repository application branch workflow inputs) := r in
  let named n := field_match n key in
  if named (lit "repository") then set_string v r (fun s => Build_githubBuildDispatchRequest s application branch workflow inputs)
  else if named (lit "application_id") then set_string v r (fun s => Build_githubBuildDispatchRequest repository s branch workflow inputs)
  else if named (lit "branch") then set_string v r (fun s => Build_githubBuildDispatchRequest repository application s workflow inputs)
  else if named (lit "workflow_id") then set_string v r (fun s => Build_githubBuildDispatchRequest repository application branch s inputs)
  else if named (lit "inputs") then
    let? m := unmarshal_map v inputs in inl (Build_githubBuildDispatchRequest repository application branch workflow m)
  else inr (unknown_field key).
Definition decode_githubBuildDispatchRequest (v : json) : result githubBuildDispatchRequest :=
  unmarshal_struct set_dispatch_field (Build_githubBuildDispatchRequest [] [] [] [] ∅) v.

(** ** Paths and names *)

(** [path.Base] *)
Definition path_Base (p : str) : str :=
  if p =s [] then lit "."
  else
    let p := rev (drop_while (fun c => bool_decide (c = slash)) (rev p)) in
    let p := slice_from p (LastIndexByte p slash + 1) in
    if p =s [] then lit "/" else p.

Definition normalizeRepositoryRoot (value : str) : result str :=
  let value := TrimSpace value in
  if (value =s []) || (value =s lit ".") then inl []
  else if HasPrefix value (lit "/") || Contains value (byte 92) || ContainsAny value line_controls
  then inr (ErrValidation (lit "root must be a relative repository directory"))
  else if existsb (fun part => part =s lit "..") (SplitByte slash value)
  then inr (ErrValidation (lit "root must not contain '..'"))
  else
    let value := Trim (path_Clean value) (lit "/") in
    if value =s lit "." then inl [] else inl value.

Definition displayRepositoryRoot (root : str) : str := if root =s [] then lit "." else root.
Definition repositoryPathFilters (root : str) : list str := if root =s [] then [lit "**"] else [root ++ lit "/**"].

Definition repositoryServiceName (repository : str) : str :=
  let repository := Trim (TrimSpace repository) (lit "/") in
  let index := LastIndexByte repository slash in
  let repository := if (0 <=? index)%Z then slice_from repository (index + 1) else repository in
  if repository =s [] then lit "service" else repository.

Definition preferred_compose : list str :=
  [lit "compose.coolify.yml"; lit "docker-compose.yml"; lit "compose.yml"; lit "docker-compose.yaml"; lit "compose.yaml"].

(** The files by name; of two with one name the last. *)
Definition files_by_name (contents : list RepositoryContent.t) : gmap str str :=
  fold_left (fun m item => if RepositoryContent.Type' item =s lit "file"
                           then <[RepositoryContent.Name item := RepositoryContent.Path item]> m else m) contents ∅.
Definition detectedComposePath (contents : list RepositoryContent.t) : str :=
  default [] (head (omap (fun name => files_by_name contents !! name) preferred_compose)).

Definition selectedServiceNames (values : list str) : gset str :=
  list_to_set (List.filter (fun v => negb (v =s [])) (map TrimSpace values)).

(** ** Repositories of a connector *)

Definition repository_response (account : ConnectorAccount.t) (item : Repository.t) : json :=
  JObj [(lit "connector_id", jstr (uuidString (ConnectorAccount.ID account)));
        (lit "connector_name", jstr (ConnectorAccount.Name account));
        (lit "installation_id", jstr (Repository.InstallationID item));
        (lit "application_id", jstr (Repository.ApplicationID item));
        (lit "application_name", jstr (Repository.ApplicationName item));
        (lit "repository", jstr (Repository.Repository item)); (lit "branch", jstr (Repository.Branch item));
        (lit "workflow_id", jstr (Repository.WorkflowID item)); (lit "build_context", jstr (Repository.BuildContext item));
        (lit "dockerfile", jstr (Repository.Dockerfile item)); (lit "image_ref", jstr (Repository.ImageRef item));
        (lit "build_matrix", jstr (Repository.BuildMatrix item)); (lit "runner", jstr (Repository.Runner item));
        (lit "path_filters", JArr (map jstr (Repository.PathFilters item)));
        (lit "clone_url", jstr (lit "https://github.com/" ++ Repository.Repository item ++ lit ".git"));
        (lit "web_url", jstr (lit "https://github.com/" ++ Repository.Repository item))].

Definition githubRepositoryResponses (account : ConnectorAccount.t) (raw : bytes) : list json :=
  match RepositoriesFromConfig raw with
  | inr _ => []
  | inl items => map (repository_response account) items
  end.

Definition enabled_github (account : ConnectorAccount.t) : bool :=
  (ConnectorAccount.Provider account =s lit "github") && ConnectorAccount.Enabled account.

Definition listGitHubRepositories (r : Request) : H unit :=
  let! accounts := call QListConnectorAccounts in
  match accounts with
  | inr err => writeError err
  | inl accounts =>
      writeJSON StatusOK (VArray (flat_map (fun account =>
        if enabled_github account then githubRepositoryResponses account (ConnectorAccount.Config account) else []) accounts))
  end.

(** The repository of the branch, or the first of its name with that branch. *)
Definition githubConnectorRepository (raw : bytes) (repositoryName branch : str) : result Repository.t :=
  match githubConnectorRepositories raw repositoryName branch with
  | inl (repository :: _) => inl repository
  | _ => let? repository := githubConnectorRepositoryAnyBranch raw repositoryName in
         inl (Repository.set_Branch repository branch)
  end.

Definition githubConnectorRepositoryForApplication (raw : bytes) (repositoryName branch applicationID : str) : result Repository.t :=
  let? repositories := githubConnectorRepositories raw repositoryName branch in
  let applicationID := TrimSpace applicationID in
  match repositories with
  | [repository] => if applicationID =s [] then inl repository
      else if Repository.ApplicationID repository =s applicationID then inl repository
      else inr (ErrValidation (lit "repository build target is not connected to this application"))
  | _ =>
      if applicationID =s []
      then inr (ErrValidation (lit "application_id is required when a repository has multiple build targets"))
      else match List.find (fun repository => Repository.ApplicationID repository =s applicationID) repositories with
           | Some repository => inl repository
           | None => inr (ErrValidation (lit "repository build target is not connected to this application"))
           end
  end.

(** ** The configuration of an installation *)

Definition repository_config_json (r : Repository.t) : json :=
  JObj (omit_string "installation_id" (Repository.InstallationID r) ++ omit_string "application_id" (Repository.ApplicationID r)
        ++ omit_string "application_name" (Repository.ApplicationName r) ++ omit_string "repository_id" (Repository.RepositoryID r)
        ++ [(lit "repository", jstr (Repository.Repository r)); (lit "branch", jstr (Repository.Branch r))]
        ++ omit_string "workflow_id" (Repository.WorkflowID r) ++ omit_string "build_context" (Repository.BuildContext r)
        ++ omit_string "dockerfile" (Repository.Dockerfile r) ++ omit_string "image_ref" (Repository.ImageRef r)
        ++ omit_string "build_matrix" (Repository.BuildMatrix r) ++ omit_string "runner" (Repository.Runner r)
        ++ match Repository.PathFilters r with [] => [] | filters => [(lit "path_filters", JArr (map jstr filters))] end).

(** An entry of the configuration, as a repository without credential fields. *)
Definition fresh_entry (installationID : str) (repository : AppRepository.t) (branch : str) : Repository.t :=
  Repository.mk installationID [] [] (fmt_d (AppRepository.ID repository)) (AppRepository.FullName repository) branch
    [] [] [] [] [] [] [] [] [] [] [] [] [].
Definition kept_entry (installationID : str) (repository : AppRepository.t) (branch : str) (previous : Repository.t) : Repository.t :=
  Repository.mk installationID (Repository.ApplicationID previous) (Repository.ApplicationName previous)
    (fmt_d (AppRepository.ID repository)) (AppRepository.FullName repository)
    (or_default (Repository.Branch previous) branch) (Repository.WorkflowID previous) (Repository.BuildContext previous)
    (Repository.Dockerfile previous) (Repository.ImageRef previous) (Repository.BuildMatrix previous) (Repository.Runner previous)
    (Repository.PathFilters previous) [] [] [] [] [] [].

Definition installed_entries (installationID : str) (existing : list Repository.t) (repository : AppRepository.t) : list Repository.t :=
  if AppRepository.FullName repository =s [] then []
  else
    let branch := or_default (AppRepository.DefaultBranch repository) (lit "main") in
    match List.filter (fun previous => Repository.Repository previous =s AppRepository.FullName repository) existing with
    | [] => [fresh_entry installationID repository branch]
    | kept => map (kept_entry installationID repository branch) kept
    end.

Definition config_entries (installationID : str) (repositories : list AppRepository.t) (existing : list Repository.t) : list Repository.t :=
  flat_map (installed_entries installationID existing) repositories.

Definition githubConfigFromInstallationRepositoriesWithDefaults (installationID : str) (repositories : list AppRepository.t)
    (existing : list Repository.t) : result bytes :=
  match config_entries installationID repositories existing with
  | [] => inr (ErrValidation (lit "github installation did not return repositories"))
  | entries => inl (Some (JObj [(lit "installation_id", jstr installationID);
                                (lit "repositories", JArr (map repository_config_json entries))]))
  end.
Definition githubConfigFromInstallationRepositories (installationID : str) (repositories : list AppRepository.t) : result bytes :=
  githubConfigFromInstallationRepositoriesWithDefaults installationID repositories [].
(** ** Handlers *)

Definition app_missing : goerror := ErrValidation (lit "github app is not configured").
Definition connector_by_id (id : pgUUID_t) : H (result ConnectorAccount.t) :=
  let! account := call (QGetConnectorAccount id) in
  Ret (match account with inr err => inr (applicationLookupError err (lit "connector not found")) | inl account => inl account end).

(** A query parameter that names a connector. *)
Definition connector_of_query (connectorID : str) : H (result ConnectorAccount.t) :=
  match PgUUID' connectorID with
  | inr _ => Ret (inr (ErrValidation (lit "connector_id must be a uuid")))
  | inl id => connector_by_id id
  end.

Definition with_installed (repository : Repository.t) : result Repository.t :=
  if Repository.InstallationID repository =s [] then inr (ErrValidation (lit "repository has no github installation"))
  else inl repository.

Definition must_be_enabled (account : ConnectorAccount.t) : result ConnectorAccount.t :=
  if enabled_github account then inl account else inr (ErrValidation (lit "connector must be an enabled github connector")).

(** The answer to a value that was found or an error. *)
Definition or_error {A} (res : result A) (ok : A -> H unit) : H unit :=
  match res with inr err => writeError err | inl x => ok x end.

(** The configuration is normalised and stored under a provider and a name. *)
Definition store_connector (provider name : str) (enabled : bool) (config : result bytes) : H (result ConnectorAccount.t) :=
  match (let? config := config in normalizeConnectorAccount (UpsertConnectorAccountParams.mk provider name enabled config)) with
  | inr err => Ret (inr err)
  | inl input => call (QUpsertConnectorAccount input)
  end.

Definition audit_repositories (r : Request) (action : str) (connector : ConnectorAccount.t) (count : nat) : H unit :=
  audit r action (lit "connector") (uuidString (ConnectorAccount.ID connector)) (ConnectorAccount.Name connector)
    (Some [(lit "repository_count", JNum (Z.of_nat count))]).

Definition githubInstallCallback (has_app : bool) (r : Request) : H unit :=
  if negb has_app then writeError app_missing
  else
    let installationID := TrimSpace (Query r (lit "installation_id")) in
    if installationID =s [] then writeError (ErrValidation (lit "github callback requires installation_id"))
    else match ParseInt64 installationID with
    | None => writeError (ErrValidation (lit "installation_id must be numeric"))
    | Some _ =>
        let! stored := (let!? repositories := call (COut (CRepositories installationID)) in
                        let!? connector := store_connector (lit "github") (lit "GitHub") true
                                             (githubConfigFromInstallationRepositories installationID repositories) in
                        Ret (inl (connector, length repositories))) in
        or_error stored (fun '(connector, count) =>
          let! _ := audit_repositories r (lit "connector.github_install") connector count in
          call (COut (CRedirect (lit "/connectors?github=connected") 303)))
    end.

(** The configuration of a connector that has an installation. *)
Definition installed_config (account : ConnectorAccount.t) : result Config.t :=
  if negb (ConnectorAccount.Provider account =s lit "github")
  then inr (ErrValidation (lit "connector must be a github connector"))
  else match ParseConfig (ConnectorAccount.Config account) with
       | inr err => inr (ErrValidation (lit "github connector config " ++ Error err))
       | inl cfg =>
           if Config.InstallationID cfg =s []
           then inr (ErrValidation (lit "github connector config requires installation_id")) else inl cfg
       end.

Definition synced_account (connectorID : pgUUID_t) : H (result (ConnectorAccount.t * bytes * nat)) :=
  let!? account := connector_by_id connectorID in
  let!? cfg := Ret (installed_config account) in
  let!? repositories := call (COut (CRepositories (Config.InstallationID cfg))) in
  let!? config := Ret (githubConfigFromInstallationRepositoriesWithDefaults (Config.InstallationID cfg) repositories
                         (Config.Repositories cfg)) in
  let!? updated := store_connector (ConnectorAccount.Provider account) (ConnectorAccount.Name account)
                     (ConnectorAccount.Enabled account) (inl config) in
  Ret (inl (updated, config, length repositories)).

Definition syncGitHubConnectorRepositories (has_app : bool) (r : Request) : H unit :=
  if negb has_app then writeError app_missing
  else match parseUUIDParam r (lit "connectorID") with
  | inr err => writeError err
  | inl connectorID =>
      let! synced := synced_account connectorID in
      or_error synced (fun '(updated, config, count) =>
        let! _ := audit_repositories r (lit "connector.github_repositories_sync") updated count in
        writeJSON StatusOK (VRepositorySync (connectorResponse updated) (githubRepositoryResponses updated config)))
  end.

(** ** The scan *)

Definition detectComposeServices (repository : Repository.t) (composePath : str) : H (result (list ComposeService.t)) :=
  let!? contents := call (COut (CFile (Repository.InstallationID repository) (Repository.Repository repository) composePath
                                  (Repository.Branch repository))) in
  Ret (match yaml_compose contents with
       | inr err => inr (ErrValidation (lit "invalid compose file " ++ composePath ++ lit ": " ++ Error err))
       | inl services => inl (detected_services services)
       end).

Definition list_contents (repository : Repository.t) (dir : str) : H (result (list RepositoryContent.t)) :=
  call (COut (CContents (Repository.InstallationID repository) (Repository.Repository repository) dir (Repository.Branch repository))).

(** The service of one directory, when its files have a Compose file. *)
Definition scanned_service (repository : Repository.t) (name root : str) (filters : list str) (contents : list RepositoryContent.t)
    : H (result (list DetectedService.t)) :=
  let composePath := detectedComposePath contents in
  if composePath =s [] then Ret (inl [])
  else
    let!? services := detectComposeServices repository composePath in
    Ret (inl [DetectedService.mk name root composePath (Some filters) (Some services)]).

(** The directories below the root; one that cannot be listed is passed over. *)
Fixpoint scan_children (repository : Repository.t) (items : list RepositoryContent.t) : H (result (list DetectedService.t)) :=
  match items with
  | [] => Ret (inl [])
  | item :: t =>
      if negb (RepositoryContent.Type' item =s lit "dir") || (RepositoryContent.Name item =s []) then scan_children repository t
      else
        let path := RepositoryContent.Path item in
        let! children := list_contents repository path in
        match children with
        | inr _ => scan_children repository t
        | inl children =>
            let!? found := scanned_service repository (RepositoryContent.Name item) path [path ++ lit "/**"] children in
            let!? rest := scan_children repository t in
            Ret (inl (found ++ rest))
        end
  end.

Definition detectRepositoryServices (repository : Repository.t) (rootDirectory : str) : H (result (list DetectedService.t)) :=
  let!? root := list_contents repository rootDirectory in
  let name := if rootDirectory =s [] then repositoryServiceName (Repository.Repository repository) else path_Base rootDirectory in
  let!? found := scanned_service repository name (displayRepositoryRoot rootDirectory) (repositoryPathFilters rootDirectory) root in
  let!? rest := scan_children repository root in
  Ret (inl (found ++ rest)).

Definition detected_json (s : DetectedService.t) : json :=
  JObj [(lit "name", jstr (DetectedService.Name s)); (lit "root", jstr (DetectedService.Root s));
        (lit "compose_path", jstr (DetectedService.ComposePath s));
        (lit "path_filters", marshal_slice jstr (DetectedService.PathFilters s));
        (lit "compose_services", marshal_slice service_json (DetectedService.ComposeServices s))].

Definition detectGitHubRepositoryServices (has_app : bool) (r : Request) : H unit :=
  if negb has_app then writeError app_missing
  else
    let connectorID := TrimSpace (Query r (lit "connector_id")) in
    let repositoryName := TrimSpace (Query r (lit "repository")) in
    let branch := TrimSpace (Query r (lit "branch")) in
    match normalizeRepositoryRoot (Query r (lit "root")) with
    | inr err => writeError err
    | inl root =>
        let branch := or_default branch (lit "main") in
        if (connectorID =s []) || (repositoryName =s [])
        then writeError (ErrValidation (lit "connector_id and repository are required"))
        else
          let! found := (let!? account := connector_of_query connectorID in
                         let!? repository := Ret (let? repository := githubConnectorRepository (ConnectorAccount.Config account)
                                                                       repositoryName branch in with_installed repository) in
                         let!? services := detectRepositoryServices repository root in
                         Ret (inl (repository, services))) in
          or_error found (fun '(repository, services) =>
            writeJSON StatusOK (VObject [(lit "repository", jstr (Repository.Repository repository));
                                         (lit "branch", jstr (Repository.Branch repository));
                                         (lit "services", JArr (map detected_json services))]))
    end.

(** ** Reading a repository *)

Definition getGitHubRepositoryCompose (has_app : bool) (r : Request) : H unit :=
  if negb has_app then writeError app_missing
  else
    let connectorID := TrimSpace (Query r (lit "connector_id")) in
    let repositoryName := TrimSpace (Query r (lit "repository")) in
    let branch := or_default (TrimSpace (Query r (lit "branch"))) (lit "main") in
    let composePath := TrimSpace (Query r (lit "path")) in
    if (connectorID =s []) || (repositoryName =s []) || (composePath =s [])
    then writeError (ErrValidation (lit "connector_id, repository, and path are required"))
    else match ValidateGitRefName branch with
    | Some err => writeError (ErrValidation (Error err))
    | None =>
        match ValidateComposePath composePath with
        | Some err => writeError (ErrValidation (Error err))
        | None =>
            let! found := (let!? account := connector_of_query connectorID in
                           let!? repository := Ret (let? account := must_be_enabled account in
                             let? repository := githubConnectorRepository (ConnectorAccount.Config account) repositoryName branch in
                             with_installed repository) in
                           let!? contents := call (COut (CFile (Repository.InstallationID repository)
                                                           (Repository.Repository repository) composePath branch)) in
                           Ret (inl (repository, contents))) in
            or_error found (fun '(repository, contents) =>
              writeJSON StatusOK (VObject [(lit "repository", jstr (Repository.Repository repository)); (lit "branch", jstr branch);
                                           (lit "path", jstr composePath); (lit "content", jstr contents)]))
        end
    end.

Definition listGitHubRepositoryBranches (has_app : bool) (r : Request) : H unit :=
  if negb has_app then writeError app_missing
  else
    let connectorID := TrimSpace (Query r (lit "connector_id")) in
    let repositoryName := TrimSpace (Query r (lit "repository")) in
    if (connectorID =s []) || (repositoryName =s [])
    then writeError (ErrValidation (lit "connector_id and repository are required"))
    else
      let! found := (let!? account := connector_of_query connectorID in
                     let!? repository := Ret (let? repository := githubConnectorRepositoryAnyBranch (ConnectorAccount.Config account)
                                                                   repositoryName in with_installed repository) in
                     let!? branches := call (COut (CBranches (Repository.InstallationID repository)
                                                     (Repository.Repository repository))) in
                     Ret (inl (repository, branches))) in
      or_error found (fun '(repository, branches) =>
        writeJSON StatusOK (VObject [(lit "repository", jstr (Repository.Repository repository));
                                     (lit "branches", JArr (map jstr branches))])).

Definition commit_json (c : RepositoryCommit.t) : list (str * json) :=
  [(lit "sha", jstr (RepositoryCommit.SHA c)); (lit "message", jstr (RepositoryCommit.Message c));
   (lit "author_name", jstr (RepositoryCommit.AuthorName c)); (lit "author_login", jstr (RepositoryCommit.AuthorLogin c));
   (lit "author_avatar_url", jstr (RepositoryCommit.AuthorAvatarURL c)); (lit "html_url", jstr (RepositoryCommit.HTMLURL c))].

Definition getGitHubRepositoryCommit (has_app : bool) (r : Request) : H unit :=
  if negb has_app then writeError app_missing
  else
    let connectorID := TrimSpace (Query r (lit "connector_id")) in
    let repositoryName := TrimSpace (Query r (lit "repository")) in
    let sha := TrimSpace (Query r (lit "sha")) in
    if (connectorID =s []) || (repositoryName =s []) || (sha =s [])
    then writeError (ErrValidation (lit "connector_id, repository, and sha are required"))
    else if negb (ValidCommitSHA sha)
    then writeError (ErrValidation (lit "sha must be a 7 to 40 character hexadecimal commit"))
    else
      let! commit := (let!? account := connector_of_query connectorID in
                      let!? repository := Ret (let? account := must_be_enabled account in
                        let? repository := githubConnectorRepositoryAnyBranch (ConnectorAccount.Config account) repositoryName in
                        with_installed repository) in
                      call (COut (CBranchCommit (Repository.InstallationID repository) (Repository.Repository repository) sha))) in
      or_error commit (fun commit => writeJSON StatusOK (VObject (commit_json commit))).

(** ** The import *)

Definition service_input (c : ImportContext.t) (service : DetectedService.t) : result CreateApplicationParams.t :=
  normalizeCreateApplication (CreateApplicationParams.mk (ImportContext.EnvironmentID c) (ImportContext.ServerID c)
    (DetectedService.Name service)
    (blankStringAsText (lit "https://github.com/" ++ Repository.Repository (ImportContext.Repository c) ++ lit ".git"))
    (Repository.Branch (ImportContext.Repository c)) (DetectedService.ComposePath service)
    (lit "/srv/deploy-manager/apps/" ++ ProjectRow.Slug (ImportContext.Project c) ++ lit "/"
     ++ Environment.Slug (ImportContext.Environment c) ++ lit "/" ++ DetectedService.Name service)
    textNull (blankStringAsText (lit "http://127.0.0.1:{port}/?color={color}")) textNull textNull true).

(** The application of one service, with what was found in its Compose file. *)
Definition import_service (c : ImportContext.t) (service : DetectedService.t) : H (result Application.t) :=
  let!? input := Ret (service_input c service) in
  let!? app := call (QCreateApplication input) in
  match default [] (DetectedService.ComposeServices service) with
  | [] => Ret (inl app)
  | services => call (QUpdateComposeServices (Some (JArr (map service_json services))) (Application.ID app))
  end.

Definition is_selected (selected : gset str) (service : DetectedService.t) : bool :=
  bool_decide (selected = ∅) || bool_decide (DetectedService.Name service ∈ selected).

Fixpoint import_services (c : ImportContext.t) (services : list DetectedService.t) : H (result (list Application.t)) :=
  match services with
  | [] => Ret (inl [])
  | service :: t =>
      let!? app := import_service c service in
      let!? rest := import_services c t in
      Ret (inl (app :: rest))
  end.

(** The first import connects the project to its repository. *)
Definition connect_project (c : ImportContext.t) : H (result unit) :=
  let repository := ImportContext.Repository c in
  if Valid (ProjectRow.RepositoryFullName (ImportContext.Project c)) then Ret (inl tt)
  else
    let!? _ := call (QUpdateProjectRepository (UpdateProjectRepositoryParams.mk (ConnectorAccount.ID (ImportContext.Account c))
                       (blankStringAsText (Repository.Repository repository)) (blankStringAsText (Repository.Branch repository))
                       (ImportContext.ProjectID c))) in
    Ret (inl tt).

(** What the request refers to. *)
Definition import_context (projectID : pgUUID_t) (request : ImportRequest.t) : H (result ImportContext.t) :=
  let bad name := Ret (inr (ErrValidation (name ++ lit " must be a uuid"))) in
  match PgUUID' (ImportRequest.ConnectorID request) with inr _ => bad (lit "connector_id") | inl connectorID =>
  match PgUUID' (ImportRequest.EnvironmentID request) with inr _ => bad (lit "environment_id") | inl environmentID =>
  match PgUUID' (ImportRequest.ServerID request) with inr _ => bad (lit "server_id") | inl serverID =>
  let lookup {A} (r : result A) (message : string) : result A :=
    match r with inr err => inr (applicationLookupError err (lit message)) | inl x => inl x end in
  let! environment := call (QGetEnvironment environmentID) in
  let!? environment := Ret (lookup environment "environment not found"%string) in
  if negb (bool_decide (Environment.ProjectID environment = projectID))
  then Ret (inr (ErrValidation (lit "environment does not belong to this project")))
  else
    let! server := call (QGetServer serverID) in
    let!? _ := Ret (lookup server "server not found"%string) in
    let! project := call (QGetProject projectID) in
    let!? project := Ret (lookup project "project not found"%string) in
    let!? account := connector_by_id connectorID in
    let!? repository := Ret (githubConnectorRepository (ConnectorAccount.Config account) (ImportRequest.Repository request)
                               (ImportRequest.Branch request)) in
    Ret (inl (ImportContext.mk projectID environmentID serverID environment project account repository))
  end end end.

(** The transaction: the applications, the connection, and the commit. *)
Definition import_transaction (c : ImportContext.t) (request : ImportRequest.t) : H (result (list Application.t)) :=
  let selected := selectedServiceNames (ImportRequest.Services request) in
  let!? applications := import_services c (List.filter (is_selected selected) (ImportRequest.Detected request)) in
  match applications with
  | [] => Ret (inr (ErrValidation (lit "no detected services selected")))
  | _ =>
      let!? _ := connect_project c in
      let! err := call CCommit in
      Ret (match err with Some err => inr err | None => inl applications end)
  end.

(** The response is written before the deferred rollback. *)
Definition respond_import (r : Request) (c : ImportContext.t) (imported : result (list Application.t)) : H unit :=
  or_error imported (fun applications =>
    let! _ := audit r (lit "github.services_import") (lit "project") (uuidString (ProjectRow.ID (ImportContext.Project c)))
      (ProjectRow.Name (ImportContext.Project c))
      (Some [(lit "repository", jstr (Repository.Repository (ImportContext.Repository c)));
             (lit "services", JNum (Z.of_nat (length applications)))]) in
    writeJSON StatusCreated (VImport applications (connectorResponse (ImportContext.Account c)))).

Definition run_import (r : Request) (c : ImportContext.t) (request : ImportRequest.t) : H unit :=
  if (length (ImportRequest.Detected request) =? 0)%nat
  then writeError (ErrValidation (lit "scan repository before importing services"))
  else
    let! err := call CBegin in
    match err with
    | Some err => writeError err
    | None =>
        let! imported := import_transaction c request in
        let! _ := respond_import r c imported in
        call CRollback
    end.

Definition normalized_import (request : ImportRequest.t) : result ImportRequest.t :=
  let '(ImportRequest.mk connector repository branch root environment server services detected) := request in
  let? root := normalizeRepositoryRoot root in
  inl (ImportRequest.mk connector repository (or_default (TrimSpace branch) (lit "main")) root environment server services detected).

Definition importGitHubRepositoryServices (r : Request) : H unit :=
  match (let? projectID := parseUUIDParam r (lit "projectID") in
         let? request := readJSON decode_githubImportServicesRequest (Body r) in
         let? request := normalized_import request in inl (projectID, request)) with
  | inr err => writeError err
  | inl (projectID, request) =>
      let! c := import_context projectID request in
      or_error c (fun c => run_import r c request)
  end.

(** ** Builds started by hand *)

Definition normalizeGitHubBuildDispatchRequest (request : githubBuildDispatchRequest) : githubBuildDispatchRequest :=
  let '(Build_githubBuildDispatchRequest repository application branch workflow inputs) := request in
  Build_githubBuildDispatchRequest (TrimSpace repository) (TrimSpace application) (or_default (TrimSpace branch) (lit "main"))
    (TrimSpace workflow) inputs.

Definition branch_head_error : str := lit "resolve github branch head: ".

(** The commit that is built: the one asked for, or the head of the branch. *)
Definition resolveGitHubBuildCommit (repository : Repository.t) (inputs : gmap str str) : H (result (gmap str str)) :=
  let sha := TrimSpace (default [] (inputs !! lit "commit_sha")) in
  if negb (sha =s [])
  then Ret (if ValidCommitSHA sha then inl (<[lit "commit_sha" := sha]> inputs)
            else inr (ErrValidation (lit "commit_sha must be a 7 to 40 character hexadecimal SHA")))
  else
    let! commit := call (COut (CBranchCommit (Repository.InstallationID repository) (Repository.Repository repository)
                                 (Repository.Branch repository))) in
    Ret (let? commit := wrap_err branch_head_error commit in
         if ValidCommitSHA (RepositoryCommit.SHA commit) then inl (<[lit "commit_sha" := RepositoryCommit.SHA commit]> inputs)
         else inr (ErrText "resolve github branch head: github returned an invalid commit SHA")).

(** The request with the build's repository, commit and workflow. *)
Definition resolved_request (account : ConnectorAccount.t) (request : githubBuildDispatchRequest)
    : H (result (Repository.t * githubBuildDispatchRequest)) :=
  let!? account := Ret (must_be_enabled account) in
  let!? repository := Ret (githubConnectorRepositoryForApplication (ConnectorAccount.Config account) (RequestRepository request)
                             (RequestBranch request) (RequestApplication request)) in
  let request := fillGitHubBuildDefaults request repository in
  if Repository.InstallationID repository =s []
  then Ret (inr (ErrValidation (lit "github repository requires installation_id before builds can be dispatched")))
  else
    let!? inputs := resolveGitHubBuildCommit repository (RequestInputs request) in
    let inputs := expandGitHubBuildInputTemplates inputs (default [] (inputs !! lit "commit_sha")) in
    let request := {| RequestRepository := RequestRepository request; RequestApplication := RequestApplication request;
      RequestBranch := RequestBranch request; RequestWorkflow := RequestWorkflow request; RequestInputs := inputs |} in
    Ret (match validateGitHubBuildDispatchRequest request with Some err => inr err | None => inl (repository, request) end).

(** The build is recorded, and its workflow started; it failed when that fails. *)
Definition dispatch_recorded (r : Request) (account : ConnectorAccount.t) (repository : Repository.t)
    (request : githubBuildDispatchRequest) (build : BuildRun.t) : H unit :=
  let! err := call (CDispatchWorkflow (Repository.InstallationID repository) (Repository.Repository repository)
                      (RequestWorkflow request) (Repository.Branch repository)
                      (githubBuildWorkflowInputs (RequestInputs request) build)) in
  match err with
  | Some err =>
      let! _ := call (QCompleteBuildRun (CompleteBuildRunParams.mk (BuildRun.ID build) (lit "failed") textNull textNull textNull
                        (blankStringAsText (buildErrorMessage err)))) in
      writeError err
  | None =>
      let! _ := audit r (lit "github.build_dispatch") (lit "repository") (Repository.Repository repository) (Repository.Branch repository)
        (Some [(lit "connector_id", jstr (uuidString (ConnectorAccount.ID account)));
               (lit "build_id", jstr (uuidString (BuildRun.ID build))); (lit "workflow_id", jstr (RequestWorkflow request));
               (lit "provider", jstr (lit "github_actions"))]) in
      writeJSON StatusAccepted (VBuild build)
  end.

Definition build_params (account : ConnectorAccount.t) (repository : Repository.t) (request : githubBuildDispatchRequest)
    : CreateBuildRunParams.t :=
  CreateBuildRunParams.mk (lit "github_actions") (ConnectorAccount.ID account)
    (nullableApplicationID (Repository.ApplicationID repository)) (Repository.Repository repository) (Repository.Branch repository)
    (RequestWorkflow request) (blankStringAsText (default [] (RequestInputs request !! lit "commit_sha"))).

Definition dispatchGitHubBuild (has_app : bool) (r : Request) : H unit :=
  if negb has_app then writeError app_missing
  else match (let? connectorID := parseUUIDParam r (lit "connectorID") in
              let? request := readJSON decode_githubBuildDispatchRequest (Body r) in
              inl (connectorID, normalizeGitHubBuildDispatchRequest request)) with
  | inr err => writeError err
  | inl (connectorID, request) =>
      let! account := connector_by_id connectorID in
      or_error account (fun account =>
        let! resolved := resolved_request account request in
        or_error resolved (fun '(repository, request) =>
          let! build := call (QCreateBuildRun (build_params account repository request)) in
          or_error build (dispatch_recorded r account repository request)))
  end.

End Repositories.
