(* ===== verification/ShellSafety.v ===== *)
(** * Derived names and what the target host's shell reads

    Trimming and class replacement keep the project slug and the image tag key of
    remote_steps.go and the route slug of internal/proxy inside their alphabets; the
    commands that install and remove routes are read as the words they are meant to be. *)

From S2P Require Import Prelude GoStrings GoStringsFacts GoRegexp GoNet StringUtil Db RemoteSteps.
From S2P Require Import ProxyCommands ShellSpec Runner.

(** ** Trimming ASCII strings *)

Lemma forallb_app_inv {A} (p : A -> bool) l k :
  forallb p (l ++ k) = true -> forallb p l = true /\ forallb p k = true.
Proof. rewrite forallb_app. apply andb_true_iff. Qed.

Lemma TrimFunc_forallb p q s : forallb q s = true -> forallb q (TrimFunc p s) = true.
Proof.
  intros H. destruct (TrimFunc_split p s) as (a & b & E & _). rewrite E in H.
  apply forallb_app_inv in H as [_ H]. by apply forallb_app_inv in H as [H _].
Qed.

Lemma TrimFunc_length p s : (length (TrimFunc p s) <= length s)%nat.
Proof.
  destruct (TrimFunc_split p s) as (a & b & E & _). rewrite E at 2. rewrite !length_app. lia.
Qed.

Lemma TrimFunc_head p c t : (b2n c < 128)%N -> forall s, TrimFunc p s = c :: t -> p (b2n c) = false.
Proof.
  intros Hc s H. pose proof (decode_trim p s) as E. rewrite H in E. cbn [decode] in E.
  apply N.ltb_lt in Hc. rewrite Hc in E. unfold trim_segs in E.
  pose proof (trim_segs_fixed p (decode s)) as F. cbn zeta in F. rewrite <- E in F.
  apply (drop_while_head (fun sg : seg => p sg.1) _ _ _ F).
Qed.

Lemma TrimFunc_last p c t s :
  is_ascii s = true -> TrimFunc p s = t ++ [c] -> p (b2n c) = false.
Proof.
  intros Hs H. pose proof (decode_trim p s) as E. rewrite H in E.
  assert (Ht : is_ascii (t ++ [c]) = true) by (rewrite <- H; by apply TrimFunc_forallb).
  rewrite decode_ascii in E by done. rewrite map_app in E. unfold trim_segs in E. simpl in E.
  symmetry in E. apply (f_equal (@rev _)) in E. rewrite rev_app_distr in E. simpl in E.
  by apply drop_while_end_last in E.
Qed.

(** [Trim] by one ASCII character leaves no such character at either end. *)
Definition bare (c : ascii) (s : str) : Prop :=
  (forall t, s <> c :: t) /\ (forall t, s <> t ++ [c]).

Lemma Trim_bare c s : (b2n c < 128)%N -> is_ascii s = true -> bare c (Trim s [c]).
Proof.
  intros Hc Hs. unfold Trim.
  assert (Hp : existsb (N.eqb (b2n c)) (runes [c]) = true).
  { rewrite runes_ascii; simpl; [by rewrite N.eqb_refl|]. apply N.ltb_lt in Hc. by rewrite Hc. }
  split; intros t E.
  - apply TrimFunc_head in E; [|done]. congruence.
  - apply TrimFunc_last in E; [|done]. congruence.
Qed.

(** ** Replacing the runs of a class *)

Lemma match_rep_all p l prev :
  match_rep p true 0 None prev l (fun _ rest => Some rest) = Some (drop_while (fun sg : seg => p sg.1) l).
Proof.
  revert prev. induction l as [|sg t IH]; intros prev; [done|].
  cbn [match_rep drop_while]. rewrite bool_decide_false by done.
  destruct (p sg.1); [|done]. cbn [pred]. change (pred <$> @None nat) with (@None nat). by rewrite IH.
Qed.

Lemma match_here_plus p prev sg t :
  match_here (RPlus p) prev (sg :: t)
  = if p sg.1 then Some (drop_while (fun sg : seg => p sg.1) t) else None.
Proof.
  unfold match_here, RPlus. cbn [match_re match_rep]. rewrite bool_decide_false by done.
  destruct (p sg.1); [|done]. cbn [pred Nat.eqb]. change (pred <$> @None nat) with (@None nat).
  by rewrite match_rep_all.
Qed.

Lemma drop_while_length {A} (p : A -> bool) l : (length (drop_while p l) <= length l)%nat.
Proof. induction l as [|x l IH]; [done|]. simpl. destruct (p x); simpl; lia. Qed.

Lemma replace_plus_bytes p q repl skip prev (l : list seg) :
  forallb q repl = true ->
  (forall sg, sg ∈ l -> p sg.1 = false -> forallb q sg.2 = true) ->
  forallb q (replace_matches (RPlus p) (fun _ => repl) skip prev l) = true.
Proof.
  intros Hrepl. revert skip prev. induction l as [|sg t IH]; intros skip prev Hl; [done|].
  assert (Ht : forall skip prev, forallb q (replace_matches (RPlus p) (fun _ => repl) skip prev t) = true).
  { intros. apply IH. intros sg' Hin. apply Hl. by right. }
  cbn [replace_matches]. destruct skip as [|k]; [|apply Ht].
  rewrite match_here_plus. destruct (p sg.1) eqn:Hp.
  - destruct (_ =? 0)%nat eqn:Hn.
    + apply Nat.eqb_eq in Hn. pose proof (drop_while_length (fun sg : seg => p sg.1) t). simpl in Hn. lia.
    + by rewrite forallb_app, Hrepl, Ht.
  - rewrite forallb_app, Ht, andb_true_r. apply Hl; [by left|done].
Qed.

Lemma decode_seg_ascii s sg : sg ∈ decode s -> (sg.1 < 128)%N -> exists c, sg.2 = [c] /\ b2n c = sg.1.
Proof.
  induction s as [s IH] using str_len_ind. destruct (decide (s = [])) as [->|Hne].
  { by intros H%not_elem_of_nil. }
  intros Hin Hlt. destruct (decode_step s Hne) as (r & n & E & Hn). rewrite E in Hin.
  apply elem_of_cons in Hin as [->|Hin].
  - destruct s as [|c t]; [done|]. simpl in Hlt. destruct (b2n c <? 128)%N eqn:Hc.
    + cbn [decode] in E. rewrite Hc in E. injection E as Er Et _. subst r. exists c. simpl. by rewrite <- Et.
    + destruct (decode_cons_large c t Hc) as (r' & b & l & E' & Hr). rewrite E' in E.
      injection E as -> _ _. lia.
  - apply (IH (drop (S n) s)); [rewrite length_drop; lia|done|done].
Qed.

(** [ReplaceAllString] of [^q]+ leaves bytes of the class [q] and the replacement. *)
Lemma ReplaceAllString_class q q' repl s :
  (forall r, q r = true -> (r < 128)%N /\ q' r = true) ->
  forallb (fun c => q' (b2n c)) repl = true ->
  forallb (fun c => q' (b2n c)) (ReplaceAllString (RPlus (fun r => negb (q r))) s repl) = true.
Proof.
  intros Hq Hrepl. apply replace_plus_bytes; [done|].
  intros sg Hsg Hp. apply negb_false_iff in Hp. destruct (Hq _ Hp) as [Hlt Hq'].
  destruct (decode_seg_ascii _ _ Hsg Hlt) as (c & -> & Hc). simpl. by rewrite Hc, Hq'.
Qed.

(** ** Slugs *)

Definition slug_byte (c : ascii) : bool := is_lower_ascii (b2n c) || is_digit (b2n c) || (b2n c =? 45)%N.

(** A name that Docker Compose accepts as a project name. *)
Definition safe_slug (s : str) : Prop :=
  s <> [] /\ forallb slug_byte s = true /\ bare "-"%char s.

Lemma slug_bytes_ascii s : forallb slug_byte s = true -> is_ascii s = true.
Proof.
  unfold is_ascii. rewrite !forallb_forall. intros H c Hc. specialize (H c Hc).
  unfold slug_byte, is_lower_ascii, is_digit, in_range in H. apply N.ltb_lt.
  rewrite !orb_true_iff, !andb_true_iff, !N.leb_le, N.eqb_eq in H. lia.
Qed.

Lemma Trim_slug s : forallb slug_byte s = true -> Trim s "-" <> [] -> safe_slug (Trim s "-").
Proof.
  intros H Hne. split; [done|]. split; [by apply TrimFunc_forallb|].
  apply Trim_bare; [done|by apply slug_bytes_ascii].
Qed.

Lemma slug_class q s :
  (forall r, q r = true -> (r < 128)%N /\ (is_lower_ascii r || is_digit r || (r =? 45)%N) = true) ->
  forallb slug_byte (ReplaceAllString (RPlus (fun r => negb (q r))) s "-") = true.
Proof. intros Hq. by apply (ReplaceAllString_class q (fun r => is_lower_ascii r || is_digit r || (r =? 45)%N)). Qed.

Lemma hex_fixed_length u n x : length (hex_fixed u n x) = n.
Proof. revert x. induction n as [|n IH]; intros x; [done|]. simpl. rewrite length_app, IH. simpl. lia. Qed.

Lemma hex_fixed_slug n x : forallb (fun c => is_lower_ascii (b2n c) || is_digit (b2n c)) (hex_fixed false n x) = true.
Proof.
  revert x. induction n as [|n IH]; intros x; [done|]. cbn [hex_fixed]. rewrite forallb_app, IH. simpl.
  rewrite andb_true_r. unfold hex_digit.
  assert (x mod 16 < 16)%N as Hlt by (apply N.mod_lt; lia).
  revert Hlt. generalize (x mod 16)%N. intros d Hlt.
  unfold is_lower_ascii, is_digit, in_range. cbn iota.
  destruct (N.ltb_spec d 10); rewrite b2n_ascii_of_N by lia;
    rewrite orb_true_iff, !andb_true_iff, !N.leb_le; lia.
Qed.

Lemma fmt_08x_slug x : safe_slug (fmt_08x x).
Proof.
  assert (H : forallb (fun c => is_lower_ascii (b2n c) || is_digit (b2n c)) (fmt_08x x) = true)
    by apply hex_fixed_slug.
  assert (Hno : "-"%char ∉ fmt_08x x) by (intros Hin; by apply (forallb_elem _ _ _ H) in Hin).
  split; [by intros E; apply (f_equal length) in E; unfold fmt_08x in E; rewrite hex_fixed_length in E|].
  split.
  - apply forallb_intro. intros c Hc. apply (forallb_elem _ _ _ H) in Hc. unfold slug_byte. by rewrite Hc.
  - split; intros t E; apply Hno; rewrite E; [by left|].
    apply elem_of_app. right. by left.
Qed.

(** Two bare names joined by a hyphen. *)
Lemma safe_slug_join a b : safe_slug a -> safe_slug b -> safe_slug (a ++ lit "-" ++ b).
Proof.
  intros (Ha & Ha2 & Ha3 & _) (Hb & Hb2 & _ & Hb4). split; [by destruct a|]. split.
  - by rewrite !forallb_app, Ha2, Hb2.
  - split.
    + intros t E. destruct a as [|c a]; [done|]. injection E as -> _. by apply (Ha3 a).
    + intros t E. destruct (exists_last Hb) as (b' & c & ->).
      rewrite !app_assoc in E. apply app_inj_tail in E as [_ ->]. by apply (Hb4 b').
Qed.

Section Slugs.
Context `{UnicodeTables}.

(** Whatever an application is called, the Docker Compose project name
    derived from it is a valid one: non-empty, at most 48 bytes, made of lower
    case letters, digits and hyphens, with no hyphen at either end. *)
Theorem projectSlug_safe (value : str) :
  safe_slug (projectSlug value) /\ (length (projectSlug value) <= maxComposeProjectSlugLength)%nat.
Proof.
  unfold projectSlug.
  set (v := ReplaceAllString projectSlugPattern (ToLower (TrimSpace value)) (lit "-")).
  assert (Hv : forallb slug_byte v = true).
  { apply (slug_class (fun r => is_lower_ascii r || is_digit r)). intros r Hr. rewrite Hr. split; [|done].
    unfold is_lower_ascii, is_digit, in_range in Hr. rewrite orb_true_iff, !andb_true_iff, !N.leb_le in Hr. lia. }
  destruct (_ =s []) eqn:E; bool_simp.
  { split; [|vm_compute; lia]. split; [done|]. split; [done|].
    split; intros t Et; [done|]. apply (f_equal (@rev ascii)) in Et. by rewrite rev_app_distr in Et. }
  destruct (_ <? _)%nat eqn:El; [|split; [by apply Trim_slug|by apply Nat.ltb_ge in El]].
  destruct (Trim (take _ _) (lit "-") =s []) eqn:Ep; bool_simp.
  { split; [apply fmt_08x_slug|]. unfold fmt_08x. rewrite hex_fixed_length. vm_compute. lia. }
  assert (Htake : forall n, forallb slug_byte (take n (Trim v "-")) = true).
  { intros n. pose proof (TrimFunc_forallb (fun r => existsb (N.eqb r) (runes "-")) _ _ Hv) as Ht.
    change (forallb slug_byte (Trim v "-") = true) in Ht.
    rewrite <- (take_drop n (Trim v "-")) in Ht. by apply forallb_app_inv in Ht as [Ht _]. }
  split.
  - apply safe_slug_join; [|apply fmt_08x_slug]. by apply Trim_slug.
  - rewrite !length_app. unfold fmt_08x. rewrite hex_fixed_length. simpl length at 2.
    pose proof (TrimFunc_length (fun r => existsb (N.eqb r) (runes "-")) (take (48 - 8 - 1) (Trim v "-"))) as Hl.
    rewrite length_take in Hl. unfold Trim at 1. unfold maxComposeProjectSlugLength in *. lia.
Qed.
Lemma routeSlug_slug (domain slug : str) : routeSlug domain = inl slug -> safe_slug slug.
Proof.
  unfold routeSlug. intros H1. inv_ok H1. destruct (_ =s []) eqn:E; [done|]. bool_simp.
  injection H1 as <-. apply Trim_slug; [|done].
  apply (slug_class (fun r => is_lower_ascii r || is_digit r || class (lit "-") r)).
  intros r Hr. unfold class in Hr. cbn [existsb lit String.list_ascii_of_string] in Hr.
  rewrite orb_false_r, (N.eqb_sym _ r) in Hr. split; [|done].
  unfold is_lower_ascii, is_digit, in_range in Hr.
  rewrite !orb_true_iff, !andb_true_iff, !N.leb_le, N.eqb_eq in Hr.
  change (b2n "-") with 45%N in Hr. lia.
Qed.

End Slugs.

(** * What the target host's shell reads

    Theorems on the commands of remote_steps.go and internal/proxy/commands.go
    against the reader of ShellSpec: no directory, path, variable, project name
    or route can add a word or an operator to a command. *)

Ltac sh_start := rewrite <- ?app_assoc; cbn [lit String.list_ascii_of_string app]; sh_read.

(** The words of [cd DIR && ...]. *)
Definition cd_words (dir : str) : list token := [W (lit "cd"); W dir; Op (lit "&&")].

Section Safety.
Context `{UnicodeTables}.

Lemma envStep_command (target : Target.t) (envFile : str) :
  command (envStep target envFile)
  = lit "cd " ++ ShellQuote (Target.RemoteDirectory target) ++ lit " && umask 077 && printf %s "
    ++ ShellQuote envFile ++ lit " > " ++ ShellQuote (path_Join [path_Dir (Target.ComposePath target); lit ".env"]) ++ [].
Proof. reflexivity. Qed.

(** The command that writes the environment file is read by the shell as the
    fixed words of the source with three literal arguments: the directory, the
    whole file and its path.  Nothing in a variable can become a word or an
    operator of the command. *)
Theorem envStep_reads (target : Target.t) (envFile : str) :
  sh_reads (command (envStep target envFile))
    (cd_words (Target.RemoteDirectory target)
     ++ [W (lit "umask"); W (lit "077"); Op (lit "&&"); W (lit "printf"); W (lit "%s"); W envFile; Op (lit ">");
         W (path_Join [path_Dir (Target.ComposePath target); lit ".env"])]).
Proof. rewrite envStep_command. sh_start. Qed.

(** The words of [docker compose] file arguments. *)
Definition compose_file_words (composePath : str) (services : gmap str (list RuntimeVariable))
    (ports : list composePortVariable) : list token :=
  W (lit "-f") :: W composePath ::
  (if (0 <? size services)%nat || hasManagedComposePorts ports
   then [W (lit "-f"); W (runtimeComposePath composePath)] else []).

Definition compose_words (target : Target.t) (options : remoteStepOptions) (action : list str) : list token :=
  cd_words (Target.RemoteDirectory target)
  ++ [W (lit "COMPOSE_PROJECT_NAME=" ++ projectSlug (Target.ApplicationName target)); W (lit "docker");
      W (lit "compose")]
  ++ compose_file_words (Target.ComposePath target) (serviceVariables options) (portVariables options)
  ++ map W action.

Definition rolling_words (target : Target.t) (options : remoteStepOptions) : list (list token) :=
  [ cd_words (Target.RemoteDirectory target) ++ [W (lit "docker"); W (lit "compose")]
    ++ compose_file_words (Target.ComposePath target) (serviceVariables options) (portVariables options)
    ++ [W (lit "config"); W (lit "--quiet")];
    compose_words target options
      (if isSourceDeployWithOptions target options then [lit "build"; lit "--pull"] else [lit "pull"]);
    compose_words target options [lit "up"; lit "-d"; lit "--remove-orphans"] ].

Lemma rollingSteps_commands (target : Target.t) (options : remoteStepOptions) :
  let files := composeFileArguments (Target.ComposePath target) (serviceVariables options) (portVariables options) in
  let cd := lit "cd " ++ ShellQuote (Target.RemoteDirectory target) in
  let compose := cd ++ lit " && COMPOSE_PROJECT_NAME=" ++ ShellQuote (projectSlug (Target.ApplicationName target))
                 ++ lit " docker compose " ++ files ++ lit " " in
  map command (rollingSteps target options)
  = [ cd ++ lit " && docker compose " ++ files ++ lit " config --quiet";
      compose ++ (if isSourceDeployWithOptions target options then lit "build --pull" else lit "pull");
      compose ++ lit "up -d --remove-orphans" ].
Proof.
  cbv zeta. unfold rollingSteps. rewrite <- !app_assoc.
  destruct (isSourceDeployWithOptions target options); reflexivity.
Qed.

(** The steps of a rolling deployment are read by the shell as one
    [docker compose] invocation each, with the literal directory, project name and
    compose files. *)
Theorem rollingSteps_read (target : Target.t) (options : remoteStepOptions) :
  Forall2 sh_reads (map command (rollingSteps target options)) (rolling_words target options).
Proof.
  rewrite rollingSteps_commands. unfold rolling_words, compose_words, compose_file_words, composeFileArguments.
  destruct (_ || _), (isSourceDeployWithOptions target options);
    cbn [app map cd_words]; apply Forall2_cons; split; sh_start; apply Forall2_cons; split; sh_start;
    apply Forall2_cons; split; sh_start; constructor.
Qed.

(** ** Proxy commands *)

Context `{Resolver}.

Definition trimmed (t : ProxyTarget.t) : ProxyTarget.t :=
  ProxyTarget.mk (TrimSpace (ProxyTarget.Domain t)) (TrimSpace (ProxyTarget.Upstream t))
    (ProxyTarget.TLSEnabled t) (ProxyTarget.ProxyType t).

Definition proxy_words (t : ProxyTarget.t) (slug : str) : list token :=
  if ProxyTarget.ProxyType t =s lit "caddy"
  then [W (lit "bash"); W (lit "-lc"); W (caddy_script t slug)]
  else [W (lit "sudo"); W (lit "mkdir"); W (lit "-p"); W (lit "/etc/traefik/dynamic"); Op (lit "&&");
        W (lit "printf"); W (lit "%s"); W (traefikConfig t slug); Op (lit "|"); W (lit "sudo"); W (lit "tee");
        W (traefikPath slug); Op (lit ">"); W (lit "/dev/null")].

Lemma caddyCommand_reads t slug :
  sh_reads (caddyCommand t slug) [W (lit "bash"); W (lit "-lc"); W (caddy_script t slug)].
Proof.
  unfold caddyCommand. generalize (caddy_script t slug). intros v. sh_start.
Qed.

Lemma traefikCommand_reads t slug :
  sh_reads
    (Join [ lit "sudo mkdir -p /etc/traefik/dynamic";
            lit "printf %s " ++ ShellQuote (traefikConfig t slug) ++ lit " | sudo tee "
            ++ ShellQuote (traefikPath slug) ++ lit " >/dev/null" ] (lit " && "))
    [W (lit "sudo"); W (lit "mkdir"); W (lit "-p"); W (lit "/etc/traefik/dynamic"); Op (lit "&&");
     W (lit "printf"); W (lit "%s"); W (traefikConfig t slug); Op (lit "|"); W (lit "sudo"); W (lit "tee");
     W (traefikPath slug); Op (lit ">"); W (lit "/dev/null")].
Proof. cbn [Join]. generalize (traefikConfig t slug), (traefikPath slug). intros v w. sh_start. Qed.

(** a proxy command exists only for a target that passed validation, and
    the shell reads it as fixed words with literal arguments: the configuration
    (as one argument) and a file whose name is made of lower case letters, digits
    and hyphens inside the proxy's configuration directory. *)
Theorem BuildCommand_reads (target : ProxyTarget.t) (cmd : str) (Hok : BuildCommand target = inl cmd) :
  ValidateTarget target = None /\
  exists slug, routeSlug (TrimSpace (ProxyTarget.Domain target)) = inl slug /\ safe_slug slug
    /\ sh_reads cmd (proxy_words (trimmed target) slug).
Proof.
  unfold BuildCommand in Hok. inv_ok Hok. rename a into slug. split; [done|]. exists slug. simpl in Hr.
  split; [done|]. split; [by apply (routeSlug_slug _ _ Hr)|].
  unfold proxy_words, trimmed. cbn [ProxyTarget.ProxyType] in *.
  destruct (_ =s lit "caddy").
  - injection Hok as <-. apply caddyCommand_reads.
  - destruct (_ =s lit "traefik"); [|done]. injection Hok as <-. apply traefikCommand_reads.
Qed.
End Safety.

#[local] Existing Instance ascii_tables.
#[local] Instance no_dns : Resolver := {| LookupIP := fun _ => None |}.

Lemma BuildCommand_reads_witness :
  exists cmd, BuildCommand (ProxyTarget.mk (lit "api.example.com") (lit "http://127.0.0.1:3101") true (lit "traefik"))
      = inl cmd
    /\ ValidateTarget (ProxyTarget.mk (lit "api.example.com") (lit "http://127.0.0.1:3101") true (lit "traefik")) = None.
Proof.
  eexists. split; [vm_compute; reflexivity|].
  refine (proj1 (BuildCommand_reads _ _ _)). vm_compute. reflexivity.
Defined.
