(* ===== verification/HttpDeploymentsFacts.v ===== *)
(** * What the deployment handlers guarantee

    A deployment that a handler creates is either in the queue or marked as failed when
    the response is written, and the response tells which; the validation of the input
    against the constraints of the table; retries.  The second part is about
    redeployments: the source that runs now, and the counts of the summary. *)

From S2P Require Import Prelude GoStrings GoStringsFacts GoRegexp GoJson GoNet StringUtil Db.
From S2P Require Import RemoteSteps ProxyCommands Effects Runner GoHttp HttpCore HttpGuardFacts AuditLog.
From S2P Require Import HttpDeployments DbHttp HttpRedeploy.

(** ** Trimmed texts *)

Lemma drop_while_all_false {A} (q : A -> bool) l : forallb (fun x => negb (q x)) l = true -> drop_while q l = l.
Proof. destruct l as [|x l]; [done|]. cbn. by destruct (q x). Qed.

Lemma TrimFunc_none p s : forallb (fun r => negb (p r)) (runes s) = true -> TrimFunc p s = s.
Proof.
  intros Hf. unfold runes in Hf. rewrite forallb_map in Hf. unfold TrimFunc, trim_segs.
  rewrite drop_while_all_false by done. unfold drop_while_end.
  rewrite drop_while_all_false, rev_involutive by (rewrite forallb_forall in Hf |- *; intros x Hx; apply Hf, in_rev, Hx).
  apply raw_decode.
Qed.

Definition image_char (r : rune) : bool := is_alnum r || class (lit "._:/@-") r.

Lemma image_char_small r : image_char r = true -> (r < 128)%N.
Proof.
  unfold image_char, class, is_alnum, is_alpha, is_upper_ascii, is_lower_ascii, is_digit, in_range. intros Hr.
  rewrite !orb_true_iff, !andb_true_iff, !N.leb_le in Hr. destruct Hr as [Hr|Hr]; [lia|].
  apply existsb_exists in Hr as (c & Hc & Hr). apply N.eqb_eq in Hr. subst r.
  cbn [lit String.list_ascii_of_string] in Hc. repeat (destruct Hc as [<-|Hc]; [done|]). by destruct Hc.
Qed.

Definition ascii_runes : list rune := map N.of_nat (seq 0 128).

Lemma image_char_visible r : image_char r = true -> negb (is_space r || is_control r) = true.
Proof.
  intros Hr. pose proof (image_char_small r Hr) as Hs.
  assert (Hall : forallb (fun r => negb (image_char r) || negb (is_space r || is_control r)) ascii_runes = true)
    by (vm_compute; reflexivity).
  rewrite forallb_forall in Hall. specialize (Hall r). rewrite Hr in Hall. apply Hall.
  unfold ascii_runes. apply in_map_iff. exists (N.to_nat r). split; [lia|]. apply in_seq. lia.
Qed.

(** The constraint on [image_ref]. *)
Definition image_check (ref : str) : bool :=
  negb (btrim ref =s []) && (char_length ref <=? 512)%nat
  && forallb (fun r => negb (is_space r || is_control r)) (runes ref).

Lemma validImageRef_runes v :
  validImageRef v = true ->
  exists x t, runes (TrimSpace v) = x :: t /\ forallb image_char (x :: t) = true /\ (length t <= N.to_nat 511)%nat.
Proof.
  unfold validImageRef. destruct (_ || _); [done|]. unfold imageRefPattern. rewrite MatchString_head_rep.
  destruct (runes (TrimSpace v)) as [|x t]; [done|]. intros Hm. exists x, t. split; [done|].
  apply andb_true_iff in Hm as [Hx Hm]. apply andb_true_iff in Hm as [Hm Hl].
  unfold within in Hl. cbn [forallb]. unfold image_char at 1. rewrite Hx. cbn [orb andb].
  split; [exact Hm|]. apply andb_true_iff in Hl as [_ Hl]. by apply Nat.leb_le in Hl.
Qed.

(** The validation trims the reference it looks at, the constraint does not. *)
Lemma validImageRef_check v : validImageRef v = true -> image_check v = (TrimSpace v =s v).
Proof.
  intros Hv. destruct (validImageRef_runes v Hv) as (x & t & Hr & Hc & Hl). unfold image_check.
  destruct (TrimSpace v =s v) eqn:E; bool_simp.
  - rewrite E in Hr. unfold char_length. rewrite Hr. replace (length (x :: t) <=? 512)%nat with true
      by (symmetry; apply Nat.leb_le; cbn [length]; lia).
    assert (Hvis : forallb (fun r => negb (is_space r || is_control r)) (x :: t) = true).
    { rewrite forallb_forall in Hc |- *. intros r Hin. by apply image_char_visible, Hc. }
    rewrite Hvis, !andb_true_r. unfold btrim, Trim. rewrite TrimFunc_none; [by destruct v|].
    rewrite Hr. rewrite forallb_forall in Hvis |- *. intros r Hin. specialize (Hvis r Hin).
    apply negb_true_iff in Hvis. apply orb_false_iff in Hvis as [Hs _]. apply negb_true_iff.
    destruct (existsb _ _) eqn:Ex; [|done]. apply existsb_exists in Ex as (y & Hy & Heq).
    apply N.eqb_eq in Heq. subst y. destruct Hy as [<-|[]]. done.
  - apply andb_false_iff. right. apply not_true_is_false. intros Hvis. apply E. apply TrimFunc_none.
    rewrite forallb_forall in Hvis |- *. intros r Hin. specialize (Hvis r Hin).
    apply negb_true_iff in Hvis. apply orb_false_iff in Hvis as [Hs _]. by rewrite Hs.
Qed.

Lemma validCommitSHA_check s :
  TrimSpace s = s -> ValidCommitSHA s = true ->
  forallb is_hex (runes s) && within 7 (Some 40%nat) (char_length s) = true.
Proof. intros Ht. unfold ValidCommitSHA. rewrite Ht. unfold gitCommitSHAPattern. by rewrite MatchString_rep. Qed.

Section Facts.
Context `{UnicodeTables} `{UuidLib} `{SshLib} `{PgJson}.

(** ** Nothing is left behind *)

(** The events of a handler that creates at most one deployment. *)
Definition one_deployment (m : list mark) : Prop :=
  failure_response m
  \/ (exists d, m = [Created d; Enqueued d; Wrote StatusAccepted (VDeployment d)])
  \/ (exists d m', m = Created d :: MarkedFailed (Deployment.ID d) :: m' /\ failure_response m').

Lemma fails_one err : post (writeError err) (fun m _ => one_deployment m).
Proof. apply post_writeError. by left. Qed.

Lemma silent_validate_target app strategy ref : silent (validateDeploymentTarget app strategy ref).
Proof.
  unfold validateDeploymentTarget. destruct (negb _); [by apply post_ret|].
  apply silent_bind; [by apply silent_call|]. intros [a|e]; [|by apply post_ret].
  destruct (validateDeploymentSource a ref); by apply post_ret.
Qed.

(** What [enqueueDeployment] leaves behind. *)
Lemma enqueue_post d :
  post (enqueueDeployment d) (fun m err =>
    m = match err with None => [Enqueued d] | Some _ => [MarkedFailed (Deployment.ID d)] end).
Proof.
  unfold enqueueDeployment. apply (post_bind _ _ (fun m err => m = match err with None => [Enqueued d] | Some _ => [] end)).
  { apply post_call. by intros [e|]. }
  intros m1 [e|] ->; [|by apply post_ret].
  apply (post_bind _ _ (fun m _ => m = [MarkedFailed (Deployment.ID d)])); [|intros m2 e' ->; by apply post_ret].
  apply (post_bind _ _ (fun m _ => m = [MarkedFailed (Deployment.ID d)])); [by apply post_call|].
  intros m2 r ->. by apply post_ret.
Qed.

Lemma create_and_enqueue_one r input failed queued :
  (forall d e, silent (failed d e)) -> (forall d, silent (queued d)) ->
  post (create_and_enqueue r input failed queued) (fun m _ => one_deployment m).
Proof.
  intros Hfailed Hqueued. apply silent_bind; [apply silent_validate_target|]. intros [err|]; [apply fails_one|].
  apply (post_bind _ _ (fun m res => m = match res with inl d => [Created d] | inr _ => [] end)).
  { apply post_call. by intros [d|e]. }
  intros m1 [d|e] ->; [|exact (fails_one _)].
  apply (post_bind _ _ _ _ (enqueue_post d)). intros m2 [e|] ->.
  - apply silent_bind; [apply Hfailed|]. intros _. apply post_writeError. intros m Hm. right. right. by exists d, m.
  - apply silent_bind; [apply Hqueued|]. intros _. apply post_writeJSON. right. left. by exists d.
Qed.

(** A deployment exists only as a queued one or as a failed one. *)
Definition nothing_left_behind (m : list mark) : Prop :=
  forall d, Created d ∈ m -> Enqueued d ∈ m \/ MarkedFailed (Deployment.ID d) ∈ m.

Lemma create_one r : post (createDeployment r) (fun m _ => one_deployment m).
Proof.
  unfold createDeployment. destruct (rbind _ _); [|apply fails_one].
  apply create_and_enqueue_one; intros; apply silent_audit.
Qed.

Lemma retry_one r : post (retryDeployment r) (fun m _ => one_deployment m).
Proof.
  unfold retryDeployment. destruct (parseUUIDParam _ _); [|apply fails_one].
  apply silent_bind; [by apply silent_call|]. intros [source|e]; [|destruct (is_no_rows e); apply fails_one].
  destruct (retryDeploymentInput _ _); [|apply fails_one].
  apply create_and_enqueue_one; intros; apply silent_audit.
Qed.

Lemma rollback_one r : post (rollbackApplication r) (fun m _ => one_deployment m).
Proof.
  unfold rollbackApplication. destruct (parseUUIDParam _ _); [|apply fails_one].
  apply silent_bind; [by apply silent_call|]. intros [a|e]; [|apply fails_one].
  apply silent_bind; [by apply silent_call|]. intros [slot|e]; [|destruct (is_no_rows e); apply fails_one].
  destruct (rollbackInput _ _ _); [|apply fails_one].
  apply create_and_enqueue_one; intros; apply silent_audit.
Qed.

End Facts.

(** ** The validation and the constraints *)

Section Validation.
Context `{UnicodeTables} `{UuidLib} `{SshLib} `{PgJson} `{UuidSource}.

(** What [normalizeCreateDeployment] establishes. *)
Record normalized (p : Params.t) : Prop := {
  norm_app : uuid_valid (Params.ApplicationID p) = true;
  norm_trigger : validDeploymentTrigger (Params.Trigger p) = true;
  norm_strategy : Params.Strategy p = lit "blue_green";
  norm_sha : Valid (Params.CommitSha p) = true ->
    TrimSpace (String' (Params.CommitSha p)) = String' (Params.CommitSha p)
    /\ ValidCommitSHA (String' (Params.CommitSha p)) = true;
  norm_ref : Valid (Params.ImageRef p) = true -> validImageRef (String' (Params.ImageRef p)) = true;
  norm_digest : digest_check (Params.ImageDigest p) = true;
  norm_actor : Valid (Params.Actor p) = true ->
    String' (Params.Actor p) <> []
    /\ ContainsAny (String' (Params.Actor p)) (byte 13 ++ newline ++ tabulator) = false }.

Lemma blankTextAsNull_valid t : Valid (blankTextAsNull t) = true -> blankTextAsNull t = t /\ TrimSpace (String' t) <> [].
Proof. unfold blankTextAsNull. destruct (TrimSpace (String' t) =s []) eqn:E; [done|]. by bool_simp. Qed.

Lemma blank_trimmed_fixed t :
  TrimSpace (String' (blankTextAsNull (trimmed_text t))) = String' (blankTextAsNull (trimmed_text t)).
Proof. unfold blankTextAsNull. destruct (_ =s _); [done|]. apply TrimSpace_idem. Qed.

Lemma guard_true (c : bool) {A} (e : goerror) (k : result A) a :
  (if c then inr e else k) = inl a -> c = false /\ k = inl a.
Proof. by destruct c. Qed.

Lemma normalize_ok input p : normalizeCreateDeployment input = inl p -> normalized p.
Proof.
  destruct input as [trigger strategy sha ref digest actor app]. unfold normalizeCreateDeployment. cbv zeta. intros Hn.
  set (tr := if TrimSpace trigger =s [] then lit "manual" else TrimSpace trigger) in *.
  set (st := if TrimSpace strategy =s [] then lit "blue_green" else TrimSpace strategy) in *.
  apply guard_true in Hn as [Happ Hn]. apply guard_true in Hn as [Htr Hn]. apply guard_true in Hn as [Hst Hn].
  apply guard_true in Hn as [Hsha Hn]. apply guard_true in Hn as [Href Hn]. apply guard_true in Hn as [Hdig Hn].
  apply guard_true in Hn as [Hact Hn]. injection Hn as <-. bool_simp.
  split; cbn [Params.ApplicationID Params.Trigger Params.Strategy Params.CommitSha Params.ImageRef Params.ImageDigest Params.Actor].
  - exact Happ.
  - exact Htr.
  - by apply str_eqb_eq.
  - intros Hv. split; [apply blank_trimmed_fixed|]. rewrite Hv in Hsha. by destruct (ValidCommitSHA _).
  - intros Hv. rewrite Hv in Href. by destruct (validImageRef _).
  - unfold digest_check. destruct (Valid (blankTextAsNull digest)); [|done].
    change imageDigestPattern with digest_pattern in Hdig. by destruct (MatchString _ _).
  - intros Hv. rewrite Hv in Hact. split; [|exact Hact].
    destruct (blankTextAsNull_valid _ Hv) as [-> Hne]. cbn [trimmed_text String'] in *. by rewrite TrimSpace_idem in Hne.
Qed.

(** What the validation lets through and the table refuses. *)
Definition missed (p : Params.t) : bool :=
  Valid (Params.Actor p) && has_cntrl (String' (Params.Actor p))
  || Valid (Params.ImageRef p) && negb (TrimSpace (String' (Params.ImageRef p)) =s String' (Params.ImageRef p)).

(** The row that the statement inserts. *)
Definition row_of (p : Params.t) (d : Deployment.t) : Prop :=
  Deployment.Trigger d = Params.Trigger p /\ Deployment.Strategy d = Params.Strategy p
  /\ Deployment.Status d = lit "queued" /\ Deployment.StartedAt d = None /\ Deployment.FinishedAt d = None
  /\ Deployment.CommitSha d = norm_text (Params.CommitSha p) /\ Deployment.Actor d = norm_text (Params.Actor p)
  /\ Deployment.ImageRef d = norm_text (Params.ImageRef p) /\ Deployment.ImageDigest d = norm_text (Params.ImageDigest p)
  /\ Deployment.CommitMessage d = textNull.

Lemma norm_text_cases t : norm_text t = (if Valid t then t else textNull).
Proof. done. Qed.

Lemma normalized_check p d : normalized p -> row_of p d -> deployment_check d = negb (missed p).
Proof.
  intros [_ Htr Hst Hsha Href Hdig _] (Rtr & Rst & Rq & Rs & Rf & Rsha & Ract & Rref & Rdig & Rmsg).
  unfold deployment_check. cbv zeta. rewrite Rtr, Rst, Rq, Rs, Rf, Rsha, Ract, Rref, Rdig, Rmsg, Hst.
  unfold validDeploymentTrigger in Htr. rewrite Htr.
  change (in_progress (lit "queued")) with true. change (is_terminal (lit "queued")) with false.
  change (lit "queued" =s lit "queued") with true. change (lit "queued" =s lit "running") with false.
  rewrite str_eqb_refl. cbn [is_some negb andb orb].
  assert (Esha : negb (Valid (norm_text (Params.CommitSha p)))
    || forallb is_hex (runes (String' (norm_text (Params.CommitSha p))))
       && within 7 (Some 40%nat) (char_length (String' (norm_text (Params.CommitSha p)))) = true).
  { rewrite norm_text_cases. destruct (Valid (Params.CommitSha p)) eqn:Ev; [|done]. rewrite Ev. cbn [negb orb].
    destruct (Hsha eq_refl) as [Ht Hvs]. by apply validCommitSHA_check. }
  rewrite Esha. cbn [andb].
  assert (Edig : digest_check (norm_text (Params.ImageDigest p)) = true).
  { rewrite norm_text_cases. by destruct (Valid (Params.ImageDigest p)) eqn:Ev. }
  rewrite Edig, !andb_true_r, !norm_text_cases. unfold missed.
  assert (Eref : (negb (Valid (if Valid (Params.ImageRef p) then Params.ImageRef p else textNull))
     || image_check (String' (if Valid (Params.ImageRef p) then Params.ImageRef p else textNull)))
    = negb (Valid (Params.ImageRef p) && negb (TrimSpace (String' (Params.ImageRef p)) =s String' (Params.ImageRef p)))).
  { destruct (Valid (Params.ImageRef p)) eqn:Ev; [|done]. rewrite Ev, validImageRef_check by auto.
    by destruct (_ =s _). }
  unfold image_check in Eref. rewrite Eref, negb_orb. f_equal.
  destruct (Valid (Params.Actor p)) eqn:Ev; [|done]. rewrite Ev. by destruct (has_cntrl _).
Qed.

(** what the API answers when the database refuses a deployment whose input was
    accepted: 404 exactly when the application does not exist, 400 when another
    deployment of it is queued or running, and an internal error exactly when the
    text is not storable or the input has one of the two defects that the
    validation misses: an actor with control characters other than CR, LF and tab,
    or an image reference with surrounding white space. *)
Theorem create_failure_status input p db e
    (Hn : normalizeCreateDeployment input = inl p) (He : CreateDeployment p db = inr e) :
  let status := (error_response (createDeploymentError e)).1 in
  (status = StatusNotFound /\ e = ErrNoRows)
  \/ (status = StatusBadRequest /\ missed p = false /\ e = unique_violation (lit "deployments_one_in_progress_per_application"))
  \/ (status = StatusInternalServerError /\ (e = encoding_error \/ missed p = true)).
Proof.
  apply normalize_ok in Hn. cbv zeta. unfold CreateDeployment in He.
  destruct (negb _) eqn:Etext; [injection He as <-; right; right; split; [reflexivity|by left]|].
  destruct (_ ≫= _) as [[a pr]|]; [|injection He as <-; left; split; reflexivity].
  set (d := Deployment.mk _ _ _ _ _ _ _ _ _ _ _ _ _ _ _ _ _) in He.
  assert (Hrow : row_of p d) by (repeat split; reflexivity).
  pose proof (normalized_check p d Hn Hrow) as Hcheck. unfold store_deployments in He. cbn [forallb] in He.
  rewrite Hcheck, andb_true_r in He. destruct (missed p) eqn:Em; cbn [negb rbind] in He.
  - injection He as <-. right. right. split; [reflexivity|by right].
  - destruct (one_in_progress _); cbn [negb rbind] in He; [discriminate He|]. injection He as <-.
    right. left. repeat split.
Qed.
End Validation.

(** ** Retries *)

Section Retry.
Context `{UnicodeTables} `{UuidLib} `{SshLib} `{PgJson}.

Lemma auditActor_no_breaks r : breaks (auditActor r) = false.
Proof.
  assert (Hid : forall v, breaks (IdentityField v []) = false).
  { intros v. by destruct (IdentityField_shape v []) as [-> |(_ & _ & Hb)]. }
  unfold auditActor, normalizeRemoteActor, normalizeAuditActor, auditIdentityField. cbv zeta.
  destruct (negb _); [apply Hid|]. destruct (negb _); [|done]. destruct (SplitHostPort _) as [[h p]|]; apply Hid.
Qed.

Lemma TrimFunc_head_kept p s sg t : decode s = sg :: t -> p sg.1 = false -> TrimFunc p s <> [].
Proof.
  intros Hd Hp Hnil. apply (f_equal decode) in Hnil. rewrite decode_trim in Hnil.
  change (decode []) with (@nil seg) in Hnil. unfold trim_segs in Hnil.
  rewrite Hd, drop_while_none in Hnil by done.
  destruct (drop_while_end_prefix (fun sg : seg => p sg.1) (sg :: t)) as (c & Hc & Hpc).
  unfold drop_while_end in Hnil, Hc. rewrite Hnil in Hc. cbn [app] in Hc. subst c.
  cbn [forallb] in Hpc. by rewrite Hp in Hpc.
Qed.

Lemma digest_not_blank s : MatchString digest_pattern s = true -> TrimSpace s <> [].
Proof.
  unfold MatchString, digest_pattern. cbn [RSeqs]. rewrite match_from_anchored. unfold match_here.
  cbn [match_re RLit lit String.list_ascii_of_string]. change (is_some (@None rune)) with false. cbn iota.
  destruct (decode s) as [|sg t] eqn:Ed; [done|]. destruct (b2n "s" =? sg.1)%N eqn:Es; [|done]. intros _.
  apply (TrimFunc_head_kept _ _ sg t Ed). apply N.eqb_eq in Es. by rewrite <- Es.
Qed.

Lemma blank_kept t : (Valid t = true -> TrimSpace (String' t) <> []) -> norm_text (blankTextAsNull t) = norm_text t.
Proof.
  unfold blankTextAsNull. destruct (TrimSpace (String' t) =s []) eqn:E; [|done]. bool_simp. rewrite !norm_text_cases.
  destruct (Valid t) eqn:Ev; [|done]. intros Hne. by destruct (Hne eq_refl).
Qed.

Lemma hex_visible s : forallb is_hex (runes s) = true -> TrimSpace s = s.
Proof.
  intros Hs. apply TrimFunc_none. rewrite forallb_forall in Hs |- *. intros r Hr. specialize (Hs r Hr).
  destruct (is_space r) eqn:E; [|done]. exfalso. unfold is_hex, is_digit, is_space, in_range in *.
  rewrite !orb_true_iff, !andb_true_iff, !N.leb_le in Hs. rewrite !orb_true_iff, !andb_true_iff, !N.leb_le, !N.eqb_eq in E. lia.
Qed.

Lemma sha_kept t :
  (negb (Valid t) || (forallb is_hex (runes (String' t)) && within 7 (Some 40%nat) (char_length (String' t)))) = true ->
  norm_text (blankTextAsNull (trimmed_text t)) = norm_text t
  /\ (Valid (blankTextAsNull (trimmed_text t)) && negb (ValidCommitSHA (String' (blankTextAsNull (trimmed_text t)))) = false).
Proof.
  intros Hs. destruct (Valid t) eqn:Ev; cbn [negb orb] in Hs.
  - apply andb_true_iff in Hs as [Hhex Hlen]. pose proof (hex_visible _ Hhex) as Ht.
    assert (E : trimmed_text t = t) by (unfold trimmed_text; rewrite Ht; by destruct t). rewrite E.
    assert (Hne : TrimSpace (String' t) <> []).
    { rewrite Ht. intros Hnil. rewrite Hnil in Hlen. discriminate Hlen. }
    split; [by apply blank_kept|]. unfold blankTextAsNull. apply str_eqb_neq in Hne. rewrite Hne, Ev.
    cbn [andb]. apply negb_false_iff. unfold ValidCommitSHA. rewrite Ht. unfold gitCommitSHAPattern.
    rewrite MatchString_rep. by apply andb_true_iff.
  - unfold blankTextAsNull, trimmed_text. cbn [String' Valid]. destruct (_ =s []); rewrite !norm_text_cases; cbn [Valid];
      rewrite ?Ev; by split.
Qed.

(** The input asks for what [source] was: its application, commit, image and digest. *)
Definition same_source (source : Deployment.t) (p : Params.t) : Prop :=
  Params.ApplicationID p = Deployment.ApplicationID source
  /\ norm_text (Params.CommitSha p) = norm_text (Deployment.CommitSha source)
  /\ norm_text (Params.ImageRef p) = norm_text (Deployment.ImageRef source)
  /\ norm_text (Params.ImageDigest p) = norm_text (Deployment.ImageDigest source).

(** every failed or cancelled deployment can be retried from the API: the new
    deployment belongs to the same application and keeps the commit, the image and
    the digest, so the retry runs what the failed run would have run; deployments
    in any other state are refused with a client error. *)
Theorem retry_keeps_source source r
    (Hcheck : deployment_check source = true) (Happ : uuid_valid (Deployment.ApplicationID source) = true)
    (Href : Valid (Deployment.ImageRef source) = true -> validImageRef (String' (Deployment.ImageRef source)) = true) :
  if (Deployment.Status source =s lit "failed") || (Deployment.Status source =s lit "cancelled")
  then exists p, retryDeploymentInput source (auditActor r) = inl p
    /\ Params.Trigger p = lit "retry" /\ same_source source p
  else exists e, retryDeploymentInput source (auditActor r) = inr e /\ (error_response e).1 = StatusBadRequest.
Proof.
  unfold retryDeploymentInput. destruct (_ || _) eqn:Est; rewrite <- negb_orb, Est; cbn [negb].
  2:{ eexists. split; [reflexivity|done]. }
  unfold normalizeCreateDeployment. cbv zeta. rewrite Happ.
  change (TrimSpace (lit "retry")) with (lit "retry"). change (TrimSpace (lit "blue_green")) with (lit "blue_green").
  change (validDeploymentTrigger _) with true. change (validDeploymentStrategy _) with true. cbn [negb].
  unfold deployment_check in Hcheck. cbv zeta in Hcheck. rewrite !andb_true_iff in Hcheck.
  destruct Hcheck as (((((_ & Hsha) & _) & _) & Hdig) & _).
  destruct (sha_kept _ Hsha) as [Esha Hvs]. rewrite Hvs.
  assert (Hr : forall t, (Valid t = true -> validImageRef (String' t) = true) ->
    norm_text (blankTextAsNull t) = norm_text t
    /\ Valid (blankTextAsNull t) && negb (validImageRef (String' (blankTextAsNull t))) = false).
  { intros t Ht. assert (Hne : Valid t = true -> TrimSpace (String' t) <> []).
    { intros Hv E0. specialize (Ht Hv). unfold validImageRef in Ht. by rewrite E0 in Ht. }
    split; [by apply blank_kept|]. destruct (Valid (blankTextAsNull t)) eqn:Ev; [|done].
    destruct (blankTextAsNull_valid t Ev) as [E _]. rewrite E in Ev |- *. by rewrite Ht. }
  destruct (Hr _ Href) as [Eref Hvr]. rewrite Hvr. clear Hr.
  assert (Hd : norm_text (blankTextAsNull (Deployment.ImageDigest source)) = norm_text (Deployment.ImageDigest source)
    /\ Valid (blankTextAsNull (Deployment.ImageDigest source))
       && negb (MatchString imageDigestPattern (String' (blankTextAsNull (Deployment.ImageDigest source)))) = false).
  { change imageDigestPattern with digest_pattern. set (t := Deployment.ImageDigest source) in *. split.
    - apply blank_kept. intros Hv. apply digest_not_blank. unfold digest_check in Hdig. by rewrite Hv in Hdig.
    - destruct (Valid (blankTextAsNull t)) eqn:Ev; [|done]. destruct (blankTextAsNull_valid t Ev) as [E _].
      rewrite E in Ev |- *. unfold digest_check in Hdig. rewrite Ev in Hdig. cbn [negb orb] in Hdig.
      by rewrite Hdig. }
  destruct Hd as [Edig Hvd]. rewrite Hvd.
  assert (Hact : Valid (blankTextAsNull (trimmed_text (blankStringAsText (auditActor r))))
    && ContainsAny (String' (blankTextAsNull (trimmed_text (blankStringAsText (auditActor r)))))
         (byte 13 ++ newline ++ tabulator) = false).
  { apply andb_false_iff. right. rewrite ContainsAny_breaks. unfold blankTextAsNull, trimmed_text, blankStringAsText.
    cbv zeta. pose proof (breaks_trim _ (auditActor_no_breaks r)) as Hb.
    destruct (TrimSpace (auditActor r) =s []); cbn [String']; destruct (_ =s []); try done.
    cbn [String']. by apply breaks_trim. }
  rewrite Hact. eexists. split; [reflexivity|]. repeat split; assumption.
Qed.
End Retry.

(** * What a redeployment deploys, and how it is reported

    A redeployment runs the source that is live, pinned by its digest when one is
    known, unless the configured source changed; the summary of a project counts
    every application once. *)

Section Input.
Context `{UnicodeTables} `{UuidLib} `{SshLib} `{UuidSource}.

(** The image of [p] is the reference [ref], pinned to [digest] when it is known. *)
Definition pinned_to (ref digest : str) (p : Params.t) : Prop :=
  if digest =s [] then Params.ImageRef p = someText ref /\ Params.ImageDigest p = textNull
  else exists base, (ref = base \/ ref = base ++ lit "@" ++ digest)
         /\ Params.ImageRef p = someText (base ++ lit "@" ++ digest) /\ Params.ImageDigest p = someText digest.

Lemma validImageRef_visible v : validImageRef v = true -> TrimSpace v <> [].
Proof. unfold validImageRef. destruct (TrimSpace v =s []) eqn:E; [done|]. by bool_simp. Qed.

Lemma immutable_image ref digest r d :
  TrimSpace (String' ref) <> [] -> immutableConfigurationImage ref digest = inl (r, d) ->
  TrimSpace (String' r) <> [] /\
  let ref := TrimSpace (String' ref) in
  let digest := TrimSpace (String' digest) in
  if digest =s [] then r = someText ref /\ d = textNull
  else exists base, (ref = base \/ ref = base ++ lit "@" ++ digest)
         /\ r = someText (base ++ lit "@" ++ digest) /\ d = someText digest.
Proof.
  unfold immutableConfigurationImage. cbv zeta. set (rf := TrimSpace (String' ref)). set (dg := TrimSpace (String' digest)).
  destruct (CutByte "@"%char rf) as [base cut] eqn:Ecut. intros Hne Hi.
  apply guard_true in Hi as [_ Hi]. destruct (dg =s []) eqn:Edg.
  { injection Hi as <- <-. split; [|by split]. cbn [String']. unfold rf. by rewrite TrimSpace_idem. }
  apply guard_true in Hi as [_ Hi]. apply guard_true in Hi as [Hmatch Hi]. apply guard_true in Hi as [_ Hi].
  apply guard_true in Hi as [Hvalid Hi]. injection Hi as <- <-. apply negb_false_iff in Hvalid.
  split; [by apply validImageRef_visible|]. exists base. split; [|by split].
  destruct cut as [rest|]; cbn [is_some default negb andb] in Hmatch.
  - right. apply CutByte_Some in Ecut as [Ecut _]. rewrite negb_false_iff in Hmatch. apply str_eqb_eq in Hmatch.
    rewrite <- Hmatch. exact Ecut.
  - left. by apply CutByte_None in Ecut as [-> _].
Qed.

(** What the validation does to the fields that a redeployment passes. *)
Lemma normalize_fields trigger strategy sha ref digest actor app p :
  normalizeCreateDeployment (Params.mk trigger strategy sha ref digest actor app) = inl p ->
  Params.ApplicationID p = app /\ Params.CommitSha p = blankTextAsNull (trimmed_text sha)
  /\ Params.ImageRef p = blankTextAsNull ref /\ Params.ImageDigest p = blankTextAsNull digest.
Proof.
  unfold normalizeCreateDeployment. cbv zeta. intros Hn. repeat (apply guard_true in Hn as [_ Hn]).
  injection Hn as <-. done.
Qed.

Lemma blank_visible t : TrimSpace (String' t) <> [] -> blankTextAsNull t = t.
Proof. intros Ht. unfold blankTextAsNull. apply str_eqb_neq in Ht. by rewrite Ht. Qed.

Lemma blank_invisible t : Valid t && negb (TrimSpace (String' t) =s []) = false -> Valid (blankTextAsNull t) = false.
Proof. unfold blankTextAsNull. destruct (TrimSpace (String' t) =s []); [done|]. by rewrite andb_true_r. Qed.

End Input.

(** ** The summary *)

Definition counts (p : RedeployResult.t -> bool) (l : list RedeployResult.t) : Z := Z.of_nat (length (List.filter p l)).
Definition is_queued_result (x : RedeployResult.t) : bool := RedeployResult.Status x =s configurationRedeployQueued.
Definition is_skipped_result (x : RedeployResult.t) : bool :=
  negb (is_queued_result x) && (RedeployResult.Status x =s configurationRedeploySkipped).
Definition is_failed_result (x : RedeployResult.t) : bool := negb (is_queued_result x) && negb (is_skipped_result x).
Definition in_progress_result (x : RedeployResult.t) : bool := RedeployResult.Reason x =s configurationRedeployInProgress.

Lemma counts_cons p x l : counts p (x :: l) = ((if p x then 1 else 0) + counts p l)%Z.
Proof. unfold counts. cbn. destruct (p x); cbn [length]; lia. Qed.

Lemma count_results results q s f all :
  fold_left count_result results (q, s, f, all)
  = ((q + counts is_queued_result results)%Z, (s + counts is_skipped_result results)%Z,
     (f + counts is_failed_result results)%Z, all && forallb in_progress_result results).
Proof.
  revert q s f all. induction results as [|x l IH]; intros q s f all.
  - cbn. by rewrite !Z.add_0_r, andb_true_r.
  - cbn [fold_left forallb]. rewrite !counts_cons, andb_assoc.
    assert (Hstep : count_result (q, s, f, all) x
      = ((q + if is_queued_result x then 1 else 0)%Z, (s + if is_skipped_result x then 1 else 0)%Z,
         (f + if is_failed_result x then 1 else 0)%Z, all && in_progress_result x)).
    { unfold count_result, is_failed_result, is_skipped_result. fold (is_queued_result x) (in_progress_result x).
      destruct (is_queued_result x), (RedeployResult.Status x =s configurationRedeploySkipped), (in_progress_result x), all;
        cbn [negb andb]; by rewrite ?Z.add_0_r. }
    by rewrite Hstep, IH, <- !Z.add_assoc.
Qed.

Lemma counts_partition l :
  (counts is_queued_result l + counts is_skipped_result l + counts is_failed_result l = Z.of_nat (length l))%Z.
Proof.
  induction l as [|x l IH]; [done|]. rewrite !counts_cons. cbn [length].
  assert (Hone : ((if is_queued_result x then 1 else 0) + (if is_skipped_result x then 1 else 0)
                  + (if is_failed_result x then 1 else 0) = 1)%Z); [|lia].
  unfold is_failed_result, is_skipped_result.
  by destruct (is_queued_result x), (RedeployResult.Status x =s configurationRedeploySkipped).
Qed.

Lemma counts_none p l : counts p l = 0%Z <-> forallb (fun x => negb (p x)) l = true.
Proof.
  induction l as [|x l IH]; [done|]. rewrite counts_cons. cbn [forallb]. unfold counts in *.
  destruct (p x); cbn [negb andb]; [split; [lia|done]|]. rewrite <- IH. lia.
Qed.

(** The summary of a project's redeployment counts every application exactly
    once, as queued, skipped or failed, and its state follows from the counts:
    queued when all were queued, partial when only some were, failed when none was
    and one failed, in progress when all wait for a running deployment, skipped
    when there was nothing to do, current when there was no candidate. *)
Theorem redeploy_summary deployments results :
  let r := newConfigurationRedeployResponse deployments results in
  (RedeployResponse.Queued r + RedeployResponse.Skipped r + RedeployResponse.Failed r = Z.of_nat (length results))%Z
  /\ RedeployResponse.Queued r = counts is_queued_result results
  /\ RedeployResponse.Failed r = counts is_failed_result results
  /\ RedeployResponse.State r =
       (if (length results =? 0)%nat then lit "current"
        else if forallb is_queued_result results then lit "queued"
        else if existsb is_queued_result results then lit "partial"
        else if existsb is_failed_result results then lit "failed"
        else if forallb in_progress_result results then lit "in_progress"
        else lit "skipped").
Proof.
  cbv zeta. unfold newConfigurationRedeployResponse. rewrite count_results, !Z.add_0_l.
  cbn [RedeployResponse.Queued RedeployResponse.Skipped RedeployResponse.Failed RedeployResponse.State].
  split; [apply counts_partition|]. split; [done|]. split; [done|].
  assert (Hpos : forall p l, (0 <? counts p l)%Z = existsb p l).
  { intros p l. destruct (Z.ltb_spec 0 (counts p l)) as [Hp|Hp]; symmetry.
    - destruct (existsb p l) eqn:E; [done|]. exfalso. assert (Hz : counts p l = 0%Z); [|lia]. apply counts_none.
      clear Hp. induction l as [|x l IH]; [done|]. cbn in *. apply orb_false_iff in E as [-> E]. by apply IH.
    - assert (Hz : counts p l = 0%Z) by (unfold counts in *; lia). apply counts_none in Hz. clear Hp.
      induction l as [|x l IH]; [done|]. cbn in *. apply andb_true_iff in Hz as [Hx Hz]. rewrite (IH Hz).
      by destruct (p x). }
  rewrite !Hpos. destruct results as [|x l]; [done|]. cbn [length Nat.eqb Nat.ltb Nat.leb andb].
  assert (Hall : forallb is_queued_result (x :: l)
    = negb (existsb is_skipped_result (x :: l)) && negb (existsb is_failed_result (x :: l))).
  { generalize (x :: l). clear. intros l. induction l as [|x l IH]; [done|]. cbn. rewrite IH.
    unfold is_failed_result, is_skipped_result.
    destruct (is_queued_result x), (RedeployResult.Status x =s configurationRedeploySkipped); cbn [negb andb orb];
      rewrite ?andb_false_r; done. }
  assert (Hsome : existsb is_queued_result (x :: l) || existsb is_skipped_result (x :: l) || existsb is_failed_result (x :: l) = true).
  { cbn. unfold is_failed_result, is_skipped_result.
    destruct (is_queued_result x), (RedeployResult.Status x =s configurationRedeploySkipped); cbn [negb andb orb];
      rewrite ?orb_true_r; done. }
  rewrite Hall. revert Hsome. destruct (existsb is_queued_result (x :: l)), (existsb is_skipped_result (x :: l)),
    (existsb is_failed_result (x :: l)), (forallb in_progress_result (x :: l)); cbn [andb orb negb]; done.
Qed.
