(* ===== verification/HttpApplicationsFacts.v ===== *)
(** * What the application handlers guarantee

    What the runner makes of an application that was accepted; the execution modes
    that an update stores; the order in which a deletion takes things down. *)

From S2P Require Import Prelude GoStrings GoStringsFacts GoRegexp GoJson GoNet StringUtil AuditLog.
From S2P Require Import Db DbHttp DbApplications RemoteSteps ProxyCommands Effects Runner GoHttp.
From S2P Require Import HttpCore HttpGuardFacts HttpDeployments HttpDeploymentsFacts HttpApplications.

Section Accepted.
Context `{UnicodeTables}.

(** What [normalizeCreateApplication] establishes. *)
Record accepted (p : CreateApplicationParams.t) : Prop := {
  acc_dir : validateRemoteDirectory (CreateApplicationParams.RemoteDirectory p) = None;
  acc_dir_trimmed : TrimSpace (CreateApplicationParams.RemoteDirectory p) = CreateApplicationParams.RemoteDirectory p;
  acc_dir_nonempty : CreateApplicationParams.RemoteDirectory p <> [];
  acc_branch : ValidateGitRefName (CreateApplicationParams.Branch p) = None;
  acc_compose : ValidateComposePath (CreateApplicationParams.ComposePath p) = None;
  acc_health : TrimSpace (String' (CreateApplicationParams.HealthCheckUrl p)) = String' (CreateApplicationParams.HealthCheckUrl p) }.

Lemma or_invalid_ok {A} (check : option goerror) (k : result A) a :
  or_invalid check k = inl a -> check = None /\ k = inl a.
Proof. by destruct check. Qed.

Lemma or_invalid_text_ok {A} t check (k : result A) a :
  or_invalid_text t check k = inl a -> (Valid t = true -> check (String' t) = None) /\ k = inl a.
Proof. unfold or_invalid_text. destruct (Valid t); [intros [Hc Hk]%or_invalid_ok; by split|by split]. Qed.

Lemma normalize_accepted input p : normalizeCreateApplication input = inl p -> accepted p.
Proof.
  destruct input as [env server name repo branch compose dir domain health dproject dconfig auto].
  unfold normalizeCreateApplication. cbv zeta. intros Hn. apply guard_true in Hn as [Hreq Hn].
  apply or_invalid_ok in Hn as [Hdir Hn]. apply or_invalid_ok in Hn as [Hbranch Hn].
  apply or_invalid_ok in Hn as [Hcompose Hn]. apply or_invalid_text_ok in Hn as [_ Hn].
  apply or_invalid_text_ok in Hn as [_ Hn]. apply or_invalid_text_ok in Hn as [_ Hn]. apply guard_true in Hn as [_ Hn].
  assert (Hp : exists repo domain dproject dconfig, p = CreateApplicationParams.mk env server (TrimSpace name) repo
    (if TrimSpace branch =s [] then lit "main" else TrimSpace branch)
    (if TrimSpace compose =s [] then lit "docker-compose.yml" else TrimSpace compose) (TrimSpace dir) domain
    (blankTextAsNull (trimmed_text health)) dproject dconfig auto).
  { destruct (Valid (blankTextAsNull (trimmed_text dproject))).
    - apply or_invalid_ok in Hn as [_ Hn]. apply or_invalid_ok in Hn as [_ Hn]. injection Hn as <-. by do 4 eexists.
    - injection Hn as <-. by do 4 eexists. }
  destruct Hp as (repo' & domain' & dproject' & dconfig' & ->).
  apply orb_false_iff in Hreq as [_ Hd]. apply str_eqb_neq in Hd.
  split; cbn [CreateApplicationParams.RemoteDirectory CreateApplicationParams.Branch CreateApplicationParams.ComposePath
    CreateApplicationParams.HealthCheckUrl];
    [exact Hdir|apply TrimSpace_idem|exact Hd|exact Hbranch|exact Hcompose|apply blank_trimmed_fixed].
Qed.

(** A deployment target of an application with these parameters. *)
Record target_of (p : CreateApplicationParams.t) (t : Target.t) : Prop := {
  of_dir : Target.RemoteDirectory t = CreateApplicationParams.RemoteDirectory p;
  of_compose : Target.ComposePath t = CreateApplicationParams.ComposePath p;
  of_branch : Target.Branch t = CreateApplicationParams.Branch p;
  of_health : Target.HealthCheckUrl t = norm_text (CreateApplicationParams.HealthCheckUrl p) }.

Definition root_directory : goerror := ErrText "remote_directory cannot be root".
Definition control_directory : goerror := ErrText "remote_directory cannot contain control characters".

Lemma accepted_directory dir :
  validateRemoteDirectory dir = None -> dir <> [] ->
  validate_remote_directory dir
  = if path_Clean dir =s lit "/" then Some root_directory
    else if HasControlCharacter dir then Some control_directory else None.
Proof.
  unfold validateRemoteDirectory, validate_remote_directory. intros Hv Hne. apply str_eqb_neq in Hne. rewrite Hne.
  destruct (ContainsAny dir line_breaks); [done|]. destruct ((dir =s lit "/") || negb (HasPrefix dir (lit "/"))) eqn:Eabs; [done|].
  destruct (Contains dir (lit "//")); [done|]. destruct (existsb _ _) eqn:Epar; [done|].
  apply orb_false_iff in Eabs as [_ Eabs]. unfold has_parent_segment. rewrite Epar.
  assert (Habs : IsAbs dir = true) by (apply negb_false_iff in Eabs; exact Eabs). rewrite Habs. done.
Qed.

(** C37: an application that the API accepted can be deployed: with a health check
    that a deployment accepts, the checks of the deployment planner hold for its
    remote directory, its compose path and its branch, except when the directory is
    the root written another way, such as [/.], or has control characters other
    than CR, LF and tab; exactly those applications are accepted and then fail in
    every deployment. *)
Theorem accepted_application_plans input p t
    (Haccepted : normalizeCreateApplication input = inl p) (Htarget : target_of p t)
    (Hstrategy : Target.Strategy t = lit "blue_green") (Hhealth : validateBlueGreenHealthCheck (Target.HealthCheckUrl t) = None) :
  validateRemoteTarget t
  = (if path_Clean (CreateApplicationParams.RemoteDirectory p) =s lit "/" then Some root_directory
     else if HasControlCharacter (CreateApplicationParams.RemoteDirectory p) then Some control_directory else None).
Proof.
  apply normalize_accepted in Haccepted as [Hdir Htrim Hne Hbranch Hcompose Htext].
  destruct Htarget as [Edir Ecompose Ebranch Ehealth].
  assert (Htrimmed : TrimSpace (String' (Target.HealthCheckUrl t)) = String' (Target.HealthCheckUrl t)).
  { rewrite Ehealth, norm_text_cases. by destruct (Valid _). }
  unfold validateRemoteTarget. rewrite Edir, Ecompose, Ebranch, Htrim, (accepted_directory _ Hdir Hne), Hcompose, Hbranch, Hstrategy.
  destruct (path_Clean _ =s lit "/"); [done|]. destruct (HasControlCharacter _); [done|].
  unfold ValidateComposePath in Hcompose. destruct (TrimSpace (CreateApplicationParams.ComposePath p) =s []); [done|].
  assert (Eb : (if Valid (Target.RepositoryUrl t) && negb (TrimSpace (String' (Target.RepositoryUrl t)) =s []) then None else None)
    = @None goerror) by by destruct (_ && _). rewrite Eb.
  change (validRemoteStrategy (lit "blue_green")) with true.
  change (TrimSpace (lit "blue_green") =s lit "blue_green") with true. cbn [negb].
  unfold validateBlueGreenHealthCheck in Hhealth. rewrite Htrimmed.
  destruct (negb (Valid (Target.HealthCheckUrl t))); [done|]. cbn [orb] in *.
  destruct (Contains (String' (Target.HealthCheckUrl t)) (lit "{color}")) eqn:Ec; [|done]. cbn [negb].
  destruct (String' (Target.HealthCheckUrl t)); [by vm_compute in Ec|done].
Qed.
End Accepted.

(** ** Execution modes *)

(** The two fields that the runner reads. *)
Definition mode_names : list str := [lit "name"; lit "execution_mode"].

Lemma decode_fields_skip l rest acc :
  forallb (fun p => negb (existsb (fun n => field_match n p.1) mode_names)) l = true ->
  decode_fields mode_names (l ++ rest) acc = decode_fields mode_names rest acc.
Proof.
  induction l as [|[k v] l IH]; [done|]. cbn [forallb app decode_fields fst]. intros [Hk Hl]%andb_true_iff.
  apply negb_true_iff in Hk. rewrite Hk. by apply IH.
Qed.

Lemma omit_skipped key s :
  existsb (fun n => field_match n (lit key)) mode_names = false ->
  forallb (fun p => negb (existsb (fun n => field_match n p.1) mode_names)) (omit_string key s) = true.
Proof. intros Hk. unfold omit_string. destruct (s =s []); [done|]. cbn. cbn in Hk. by rewrite Hk. Qed.

Lemma runner_reads_service s :
  decode_struct mode_names (service_json s) = inl [ComposeService.Name s; ComposeService.ExecutionMode s].
Proof.
  destruct s as [name image context dockerfile ports depends mode]. unfold service_json, decode_struct.
  cbn [ComposeService.Name ComposeService.Image ComposeService.BuildContext ComposeService.Dockerfile
       ComposeService.Ports ComposeService.DependsOn ComposeService.ExecutionMode].
  unfold mode_names at 1. cbn [decode_fields existsb]. match_fields. cbn [orb].
  rewrite !app_assoc, <- !app_assoc. rewrite !decode_fields_skip by (apply omit_skipped; vm_compute; reflexivity).
  rewrite (decode_fields_skip [_; _]) by (vm_compute; reflexivity).
  unfold omit_string. destruct (mode =s []) eqn:Em.
  - apply str_eqb_eq in Em as ->. reflexivity.
  - reflexivity.
Qed.

Lemma runner_reads_services l :
  decode_elements mode_names (map service_json l)
  = inl (map (fun s => [ComposeService.Name s; ComposeService.ExecutionMode s]) l).
Proof.
  induction l as [|s l IH]; [done|]. cbn [map decode_elements]. by rewrite runner_reads_service, IH.
Qed.

Section Modes.
Context `{UnicodeTables}.

Lemma merge_modes_ok requested services merged :
  merge_modes requested services = inl merged ->
  merged = map (fun s => ComposeService.set_mode s (service_mode requested s)) services
  /\ forallb (fun s => validServiceExecutionMode (service_mode requested s)) services = true.
Proof.
  revert merged. induction services as [|s l IH]; intros merged; cbn [merge_modes map forallb]; [by intros [= <-]|].
  destruct (validServiceExecutionMode (service_mode requested s)); [|done]. cbn [negb]. intros Hm.
  apply rbind_ok in Hm as (rest & Hr & Hm). injection Hm as <-. destruct (IH _ Hr) as [-> Hall]. by split.
Qed.

(** The services of the metadata. *)
Definition metadata_services (metadata : bytes) : result (list ComposeService.t) :=
  match metadata with None => inl [] | Some v => let? l := unmarshal_services v in inl (default [] l) end.

Definition is_singleton (requested : gmap str str) (s : ComposeService.t) : bool :=
  service_mode requested s =s executionModeSingleton.

Lemma singleton_names services requested names seen :
  forallb (fun s => validServiceExecutionMode (service_mode requested s)) services = true ->
  (forall s, s ∈ services -> is_singleton requested s = true -> MatchString composeServiceNamePattern (ComposeService.Name s) = true) ->
  (forall n, n ∈ names <-> n ∈ seen) -> NoDup names ->
  exists names', singleton_loop (map (fun s => [ComposeService.Name s; service_mode requested s]) services) names seen = inl names'
    /\ NoDup names' /\ forall n, n ∈ names' <-> n ∈ names \/ exists s, s ∈ services /\ ComposeService.Name s = n /\ is_singleton requested s = true.
Proof.
  revert names seen. induction services as [|s l IH]; intros names seen Hv Hp Hn Hd.
  { exists names. split; [done|]. split; [exact Hd|]. intros n. split; [by left|]. by intros [?|(s & ?%not_elem_of_nil & _)]. }
  cbn [forallb] in Hv. apply andb_true_iff in Hv as [Hs Hv].
  assert (Hp' : forall s, s ∈ l -> is_singleton requested s = true -> MatchString composeServiceNamePattern (ComposeService.Name s) = true)
    by (intros s' Hs'; apply Hp; by right).
  cbn [map singleton_loop]. unfold field. cbn [nth].
  assert (Hskip : is_singleton requested s = false ->
    exists names', singleton_loop (map (fun s => [ComposeService.Name s; service_mode requested s]) l) names seen = inl names'
      /\ NoDup names' /\ forall n, n ∈ names' <-> n ∈ names \/ exists s', s' ∈ s :: l /\ ComposeService.Name s' = n /\ is_singleton requested s' = true).
  { intros Hf. destruct (IH names seen Hv Hp' Hn Hd) as (names' & Hl & Hd' & Hin). exists names'. split; [exact Hl|]. split; [exact Hd'|].
    intros n. rewrite Hin. apply or_iff_compat_l. split.
    - intros (s' & Hs' & Hrest). exists s'. split; [by right|exact Hrest].
    - intros (s' & [->|Hs']%elem_of_cons & Hname & Hsing); [congruence|by exists s']. }
  unfold validServiceExecutionMode in Hs. apply orb_true_iff in Hs as [Hs|Hs]; apply str_eqb_eq in Hs.
  - rewrite Hs. change (TrimSpace executionModeFollowStack) with executionModeFollowStack.
    change ((executionModeFollowStack =s []) || (executionModeFollowStack =s lit "follow_stack")) with true. cbn iota.
    apply Hskip. unfold is_singleton. by rewrite Hs.
  - rewrite Hs. change (TrimSpace executionModeSingleton) with executionModeSingleton.
    change ((executionModeSingleton =s []) || (executionModeSingleton =s lit "follow_stack")) with false.
    change (executionModeSingleton =s lit "singleton") with true. cbn [negb]. cbn iota.
    assert (Hsing : is_singleton requested s = true) by (unfold is_singleton; rewrite Hs; apply str_eqb_refl).
    pose proof (Hp s ltac:(by left) Hsing) as Hpat. rewrite Hpat. cbn [negb].
    assert (Hto : forall names' : list str, (forall n, n ∈ names' <-> (n ∈ names \/ n = ComposeService.Name s)
        \/ exists s', s' ∈ l /\ ComposeService.Name s' = n /\ is_singleton requested s' = true) ->
      forall n, n ∈ names' <-> n ∈ names \/ exists s', s' ∈ s :: l /\ ComposeService.Name s' = n /\ is_singleton requested s' = true).
    { intros names' Hin n. rewrite Hin. split.
      - intros [[Hx| ->]|(s' & Hs' & Hrest)]; [by left| |]; right; [exists s; split; [by left|done]|exists s'; split; [by right|done]].
      - intros [Hx|(s' & [->|Hs']%elem_of_cons & <- & Hx)]; [by left; left|by left; right|right; by exists s']. }
    case_bool_decide as Hseen.
    + destruct (IH names seen Hv Hp' Hn Hd) as (names' & Hl & Hd' & Hin). exists names'. split; [exact Hl|]. split; [exact Hd'|].
      apply Hto. intros n. rewrite Hin. apply or_iff_compat_r. split; [by left|]. intros [Hx| ->]; [exact Hx|by apply Hn].
    + destruct (IH (names ++ [ComposeService.Name s]) ({[ComposeService.Name s]} ∪ seen) Hv Hp') as (names' & Hl & Hd' & Hin).
      * intros n. rewrite elem_of_app, list_elem_of_singleton, elem_of_union, elem_of_singleton, Hn. tauto.
      * apply NoDup_app. split; [exact Hd|]. split; [|apply NoDup_singleton].
        intros n Hx ->%list_elem_of_singleton. by apply Hseen, Hn.
      * exists names'. split; [exact Hl|]. split; [exact Hd'|]. apply Hto. intros n. rewrite Hin, elem_of_app, list_elem_of_singleton. done.
Qed.

Lemma unknown_service_none requested services :
  unknown_service requested services = None ->
  forall n m, requested !! n = Some m -> exists s, s ∈ services /\ ComposeService.Name s = n.
Proof.
  intros Hu n m Hm. unfold unknown_service in Hu.
  assert (Hin : n ∈ map fst (map_to_list requested)).
  { apply list_elem_of_In, in_map_iff. exists (n, m). split; [done|]. apply list_elem_of_In, elem_of_map_to_list, Hm. }
  apply list_elem_of_In in Hin. pose proof (List.find_none _ _ Hu n Hin) as Hn. cbn beta in Hn.
  apply negb_false_iff, existsb_exists in Hn as (s & Hs & Hn). exists s. split; [by apply list_elem_of_In|by apply str_eqb_eq].
Qed.

(** the execution modes that an update stores are the ones the runner uses: when
    the modes requested for an application are accepted, every requested service
    exists, and the runner reads from the stored metadata exactly the services whose
    requested, or else previous, mode is singleton, each once; a service without a
    mode follows the stack. *)
Theorem execution_modes_reach_runner metadata requested out services
    (Hservices : metadata_services metadata = inl services)
    (Hmerged : mergeServiceExecutionModes metadata requested = inl out)
    (Hnames : forall s, s ∈ services -> is_singleton requested s = true ->
                MatchString composeServiceNamePattern (ComposeService.Name s) = true) :
  (forall n m, requested !! n = Some m -> exists s, s ∈ services /\ ComposeService.Name s = n)
  /\ exists names, singletonComposeServiceNames out = inl names /\ NoDup names
       /\ forall n, n ∈ names <-> exists s, s ∈ services /\ ComposeService.Name s = n /\ is_singleton requested s = true.
Proof.
  unfold mergeServiceExecutionModes in Hmerged. apply rbind_ok in Hmerged as (decoded & Hdec & Hmerged).
  assert (Es : default [] decoded = services).
  { unfold metadata_services in Hservices. destruct metadata as [v|]; [|by injection Hdec as <-; injection Hservices as <-].
    destruct (unmarshal_services v) as [l|e]; [|done]. injection Hdec as ->. by injection Hservices as <-. }
  rewrite Es in Hmerged. apply rbind_ok in Hmerged as (merged & Hm & Hout).
  destruct (unknown_service requested services) eqn:Eu; [done|]. injection Hout as <-.
  apply merge_modes_ok in Hm as [-> Hvalid]. split; [by apply unknown_service_none|].
  destruct (singleton_names services requested [] ∅ Hvalid Hnames) as (names & Hl & Hd & Hin);
    [intros n; by rewrite elem_of_nil, elem_of_empty|constructor|].
  exists (sort_Strings names). split.
  - unfold singletonComposeServiceNames. fold mode_names. destruct decoded as [l|]; cbn [marshal_slice unmarshal_structs].
    + rewrite runner_reads_services. cbn [wrap_err rbind]. rewrite map_map. cbn [ComposeService.set_mode ComposeService.Name ComposeService.ExecutionMode].
      by rewrite Hl.
    + cbn [default] in Es. subst services. cbn in Hl. by injection Hl as <-.
  - split; [by rewrite sort_Strings_perm|]. intros n. rewrite sort_Strings_perm, Hin, elem_of_nil. tauto.
Qed.
End Modes.

(** ** Deletion *)

Section Deletion.
Context `{UnicodeTables} `{UuidLib} `{SshLib} `{PgJson}.

(** What a deletion does: what it loaded, the commands on the server with their
    outcome, the rows it deletes, the commit, the response. *)
Inductive step :=
| Loaded (a : Application.t)
| State (s : DeletionState.t)
| Routes (l : list RouteTarget.t)
| Remote (command : str) (err : option goerror)
| RouteRow (id : pgUUID_t)
| ApplicationRow (id : pgUUID_t)
| Commit (ok : bool)
| Response (status : Z).

Definition ev_step (ev : event apiE) : option step :=
  match ev with
  | @Ev _ X e x =>
      match e in apiE X return X -> option step with
      | QGetApplication _ => fun res => match res with inl a => Some (Loaded a) | inr _ => None end
      | QGetApplicationDeletionState _ => fun res => match res with inl s => Some (State s) | inr _ => None end
      | QShared e' =>
          match e' in runnerE X return X -> option step with
          | QListProxyRouteTargetsForApplication _ _ =>
              fun res => match res with inl l => Some (Routes l) | inr _ => None end
          | _ => fun _ => None
          end
      | CRemote _ command => fun res => Some (Remote command res.2)
      | QDeleteProxyRoute id => fun _ => Some (RouteRow id)
      | QDeleteApplication id => fun _ => Some (ApplicationRow id)
      | CCommit => fun err => Some (Commit (negb (is_some err)))
      | CWriteJSON status _ => fun _ => Some (Response status)
      | CWriteHeader status => fun _ => Some (Response status)
      | _ => fun _ => None
      end x
  end.

Abbreviation sees p Q := (observed ev_step p Q).

(** The commands that take an application down. *)
Fixpoint remove_commands (routes : list RouteTarget.t) : result (list str) :=
  match routes with
  | [] => inl []
  | route :: t =>
      if is_pending route then remove_commands t
      else let? command := BuildRemoveCommand (RouteTarget.Domain route) (RouteTarget.ProxyType route) in
           let? commands := remove_commands t in inl (command :: commands)
  end.
Definition cleanup_commands (plan : applicationDeletionPlan) : result (list str) :=
  let? down := (if hasDeployments plan
                then let? c := BuildComposeDownCommand (application plan) (routes plan) in inl [c] else inl []) in
  let? removes := remove_commands (routes plan) in inl (down ++ removes).

Definition done_remotes (commands : list str) : list step := map (fun c => Remote c None) commands.

(** Commands that succeeded, and perhaps one that failed. *)
Definition stopped_remotes (m : list step) : Prop :=
  exists commands last, m = done_remotes commands ++ last /\ (last = [] \/ exists c e, last = [Remote c (Some e)]).

Definition error_step (m : list step) : Prop := exists status, m = [Response status] /\ (400 <= status)%Z.

Lemma sees_writeError err (Q : list step -> unit -> Prop) :
  (forall m, error_step m -> Q m tt) -> sees (writeError err) Q.
Proof.
  intros Hq. unfold writeError. pose proof (error_status err) as Hs. destruct (error_response err) as [status value].
  apply observed_call. intros []. apply Hq. by exists status.
Qed.

Lemma stopped_cons c m : stopped_remotes m -> stopped_remotes (Remote c None :: m).
Proof. intros (cs & last & -> & Hl). exists (c :: cs), last. by split. Qed.

Lemma remove_routes_steps server routes :
  sees (remove_routes server routes) (fun m err =>
    match err with
    | None => exists commands, remove_commands routes = inl commands /\ m = done_remotes commands
    | Some _ => stopped_remotes m
    end).
Proof.
  induction routes as [|route t IH]; cbn [remove_routes remove_commands].
  { apply observed_ret. by exists []. }
  destruct (is_pending route); [exact IH|]. destruct (BuildRemoveCommand _ _) as [c|e].
  2:{ apply observed_ret. exists [], []. split; [done|by left]. }
  apply (observed_bind _ _ _ (fun m x => m = [Remote c x.2])); [by apply observed_call|].
  intros m1 [out [err|]] ->; cbn [snd].
  - apply observed_ret. exists [], [Remote c (Some err)]. split; [done|]. right. by exists c, err.
  - refine (observed_weaken _ _ _ _ IH _). intros m [err|]; [by apply stopped_cons|].
    intros (cs & -> & ->). by exists (c :: cs).
Qed.

Lemma stop_application_steps server plan :
  sees (stop_application server plan) (fun m err =>
    match err with
    | None => exists down, (if hasDeployments plan
                then let? c := BuildComposeDownCommand (application plan) (routes plan) in inl [c] else inl []) = inl down
                /\ m = done_remotes down
    | Some _ => stopped_remotes m
    end).
Proof.
  unfold stop_application. destruct (hasDeployments plan); cbn [negb]; [|apply observed_ret; by exists []].
  destruct (BuildComposeDownCommand _ _) as [c|e]; [|apply observed_ret; exists [], []; split; [done|by left]].
  apply (observed_bind _ _ _ (fun m x => m = [Remote c x.2])); [by apply observed_call|].
  intros m1 [out [err|]] ->; cbn [snd]; apply observed_ret.
  - exists [], [Remote c (Some err)]. split; [done|]. right. by exists c, err.
  - by exists [c].
Qed.

(** A clean-up that does nothing had nothing to do. *)
Lemma no_cleanup plan :
  negb (hasDeployments plan) && negb (existsb (fun route => negb (is_pending route)) (routes plan)) = true ->
  cleanup_commands plan = inl [].
Proof.
  intros [Hd Hr]%andb_true_iff. unfold cleanup_commands. apply negb_true_iff in Hd, Hr. rewrite Hd. cbn [rbind].
  induction (routes plan) as [|route t IH]; [done|]. cbn [existsb remove_commands] in *.
  apply orb_false_iff in Hr as [Hp Hr]. apply negb_false_iff in Hp. rewrite Hp. by apply IH.
Qed.

Lemma cleanup_steps plan :
  sees (cleanupApplication plan) (fun m err =>
    match err with
    | None => exists commands, cleanup_commands plan = inl commands /\ m = done_remotes commands
    | Some _ => stopped_remotes m
    end).
Proof.
  unfold cleanupApplication. destruct (_ && _) eqn:En.
  { apply observed_ret. exists []. split; [by apply no_cleanup|done]. }
  apply (observed_bind _ _ _ (fun m _ => m = [])); [by apply observed_call; intros [s|e]|].
  intros m1 [server|e] ->; [|apply observed_ret; exists [], []; split; [done|by left]].
  apply (observed_bind _ _ _ _ _ (stop_application_steps server plan)). intros m1 [err|].
  - intros Hs. apply observed_ret. rewrite app_nil_r. exact Hs.
  - intros (down & Hdown & ->). refine (observed_weaken _ _ _ _ (remove_routes_steps server (routes plan)) _).
    intros m [err|].
    + intros (cs & last & -> & Hl). exists (down ++ cs), last. split; [|exact Hl]. unfold done_remotes. by rewrite map_app, <- app_assoc.
    + intros (cs & Hcs & ->). exists (down ++ cs). unfold cleanup_commands. rewrite Hdown. cbn [rbind]. rewrite Hcs.
      split; [done|]. unfold done_remotes. by rewrite map_app.
Qed.

Definition is_row (s : step) : Prop := match s with RouteRow _ | ApplicationRow _ => True | _ => False end.
Definition is_load (s : step) : Prop := match s with Loaded _ | State _ | Routes _ => True | _ => False end.

Definition all_rows (plan : applicationDeletionPlan) : list step :=
  map (fun route => RouteRow (RouteTarget.ID route)) (routes plan) ++ [ApplicationRow (Application.ID (application plan))].

Lemma delete_routes_steps routes :
  sees (delete_routes routes) (fun m err =>
    match err with
    | None => m = map (fun route => RouteRow (RouteTarget.ID route)) routes
    | Some _ => Forall is_row m
    end).
Proof.
  induction routes as [|route t IH]; cbn [delete_routes map]; [by apply observed_ret|].
  apply (observed_bind _ _ _ (fun m _ => m = [RouteRow (RouteTarget.ID route)])); [by apply observed_call|].
  intros m1 [x|e] ->; [|apply observed_ret; by repeat constructor].
  refine (observed_weaken _ _ _ _ IH _). intros m [err|]; [by constructor|by intros ->].
Qed.

Lemma delete_records_steps plan :
  sees (deleteApplicationRecords plan) (fun m err =>
    match err with None => m = all_rows plan | Some _ => Forall is_row m end).
Proof.
  unfold deleteApplicationRecords. apply (observed_bind _ _ _ _ _ (delete_routes_steps (routes plan))). intros m1 [err|].
  - intros Hm. apply observed_ret. by rewrite app_nil_r.
  - intros ->. apply (observed_bind _ _ _ (fun m _ => m = [ApplicationRow (Application.ID (application plan))]));
      [by apply observed_call|].
    intros m2 [x|e] ->; apply observed_ret; [done|]. rewrite app_nil_r. apply Forall_app. split; [|by repeat constructor].
    rewrite Forall_map. by apply Forall_true.
Qed.

(** The rows are gone and the transaction is committed, or nothing is. *)
Definition rows_run (plan : applicationDeletionPlan) (m : list step) : Prop :=
  m = all_rows plan ++ [Commit true; Response StatusNoContent]
  \/ exists rows e, m = rows ++ e /\ Forall (fun s => is_row s \/ s = Commit false) rows /\ error_step e.

Lemma finish_steps r app plan : sees (finish_deletion r app plan) (fun m _ => rows_run plan m).
Proof.
  unfold finish_deletion. apply (observed_bind _ _ _ _ _ (delete_records_steps plan)). intros m1 [err|].
  - intros Hm. apply sees_writeError. intros e He. right. exists m1, e. split; [done|]. split; [|exact He].
    refine (Forall_impl _ _ _ Hm _). by left.
  - intros ->. apply (observed_bind _ _ _ (fun m err => m = [Commit (negb (is_some err))])); [by apply observed_call|].
    intros m2 [err|] ->; cbn [is_some negb].
    + apply sees_writeError. intros e He. right. exists (all_rows plan ++ [Commit false]), e. split; [by rewrite app_assoc|].
      split; [|exact He]. apply Forall_app. split; [|by repeat constructor]. unfold all_rows. apply Forall_app.
      split; [|by repeat constructor; left]. rewrite Forall_map. apply Forall_true. by left.
    + apply (observed_bind _ _ _ (fun m _ => m = [])).
      { apply (observed_bind _ _ _ (fun m _ => m = [])); [by apply observed_call|]. intros m ? ->. by apply observed_ret. }
      intros m ? ->. apply observed_call. intros []. left. done.
Qed.

(** The runs of a deletion: refused before anything was deleted, or the rows go
    after every command of the clean-up succeeded. *)
Definition deletion_run (m : list step) : Prop :=
  (exists loads remotes e, m = loads ++ remotes ++ e /\ Forall is_load loads /\ stopped_remotes remotes /\ error_step e)
  \/ exists a state rs commands rest,
       DeletionState.DeploymentInProgress state = false
       /\ let plan := {| application := a; routes := rs; hasDeployments := DeletionState.HasDeployments state |} in
          cleanup_commands plan = inl commands
          /\ m = [Loaded a; State state; Routes rs] ++ done_remotes commands ++ rest /\ rows_run plan rest.

Lemma refused_run loads e : Forall is_load loads -> error_step e -> deletion_run (loads ++ e).
Proof. intros Hl He. left. exists loads, [], e. split; [done|]. split; [exact Hl|]. split; [exists [], []; split; [done|by left]|exact He]. Qed.

Lemma prepare_steps app :
  sees (prepareApplicationDeletion app) (fun m res =>
    match res with
    | inl plan => exists state rs, DeletionState.DeploymentInProgress state = false /\ m = [State state; Routes rs]
        /\ plan = {| application := app; routes := rs; hasDeployments := DeletionState.HasDeployments state |}
    | inr _ => Forall is_load m
    end).
Proof.
  unfold prepareApplicationDeletion.
  apply (observed_bind _ _ _ (fun m res => m = match res with inl s => [State s] | inr _ => [] end));
    [by apply observed_call; intros [s|e]|].
  intros m1 [state|e] ->; [|by apply observed_ret].
  destruct (DeletionState.DeploymentInProgress state) eqn:Ep; [apply observed_ret; by repeat constructor|].
  apply (observed_bind _ _ _ (fun m res => m = match res with inl l => [Routes l] | inr _ => [] end));
    [by apply observed_call; intros [s|e]|].
  intros m2 [rs|e] ->; apply observed_ret; [by exists state, rs|by repeat constructor].
Qed.

End Deletion.
