(* ===== verification/HttpEngine.v ===== *)
(** * The deployment handlers on the database and the queue

    [api_handler] answers the calls of the handlers with the statements of Db and
    DbHttp, the Redis list of QueueFacts and the remote hosts.  Together with the
    worker this is the life of a request: after any of the deployment handlers the
    table and the queue are consistent, and what the queue holds gets done. *)

From S2P Require Import Prelude GoStrings GoStringsFacts GoRegexp GoJson GoNet StringUtil AuditLog.
From S2P Require Import Db DbHttp DbApplications DbServers DbInventory DbProjects Lifecycle RemoteSteps.
From S2P Require Import ProxyCommands Effects Runner Queue RunnerFacts Engine QueueFacts GoHttp.
From S2P Require Import HttpCore HttpGuard HttpDeployments HttpRedeploy HttpBuilds GithubConnector HttpGithub.

(** The rest of the world of the API server: commands on servers and on its own host,
    the doppler command, the workflows of GitHub, whether Redis takes a push, and whether a transaction can be opened and
    committed. *)
Class ApiHost (Host : Type) := {
  do_remote : Server.t -> str -> Host -> (str * option goerror) * Host;
  do_local : str -> Host -> (str * option goerror) * Host;
  do_doppler : list str -> Host -> result str * Host;
  look_path : str -> Host -> option goerror;
  do_outside : forall X, outsideE X -> Host -> X * Host;
  do_dispatch : str -> str -> str -> str -> gmap str str -> Host -> option goerror * Host;
  push_error : Host -> option goerror;
  begin_error : Host -> option goerror;
  commit_error : Host -> option goerror }.

(** A transaction that is rolled back leaves the rows as they were; time has
    passed and the identifiers it took are not issued again. *)
Definition rolled_back (saved db : database) : database :=
  Database (applications saved) (deployments saved) (slots saved) (routes saved) (logs saved) (audit_events saved)
    (service_configs saved) (project_variables saved) (environments saved) (projects saved) (servers saved)
    (build_runs saved) (connector_accounts saved) (inventory saved) (clock db) (uuid_supply db).

Section HttpEngine.
Context `{UnicodeTables} `{UuidLib} `{!UuidLaws} `{Resolver} `{SshLib} `{UuidSource} `{PgJson} `{FoldTable}.
Context {Host : Type} `{!Collaborators Host} `{!ApiHost Host}.

(** [a_saved] is the database at the start of the open transaction, [a_replays]
    the replay cache of the webhook. *)
Record api_state := {
  a_queue : queue_state (Host := Host); a_saved : option database; a_replays : replayCache;
  a_responses : list (Z * response_value) }.

Definition a_db (s : api_state) : database := q_db (a_queue s).
Definition a_list (s : api_state) : list str := q_list (a_queue s).

Definition on_queue {A} (f : queue_state -> A * queue_state) (s : api_state) : A * api_state :=
  let '(x, q) := f (a_queue s) in (x, {| a_queue := q; a_saved := a_saved s; a_replays := a_replays s; a_responses := a_responses s |}).
Definition on_db {A} (q : query A) : api_state -> result A * api_state := on_queue (on_engine (lift q)).
Definition set_db (s : api_state) (db : database) (saved : option database) : api_state :=
  {| a_queue := {| q_db := db; q_host := q_host (a_queue s); q_list := a_list s |};
     a_saved := saved; a_replays := a_replays s; a_responses := a_responses s |}.
Definition on_host (s : api_state) (host : Host) : api_state :=
  {| a_queue := {| q_db := a_db s; q_host := host; q_list := a_list s |};
     a_saved := a_saved s; a_replays := a_replays s; a_responses := a_responses s |}.
Definition respond (s : api_state) (status : Z) (value : response_value) : api_state :=
  {| a_queue := a_queue s; a_saved := a_saved s; a_replays := a_replays s; a_responses := a_responses s ++ [(status, value)] |}.

Definition api_handler : handler apiE api_state := fun X e s =>
  match e in apiE X return X * api_state with
  | QShared e => on_queue (on_engine (sql_handler _ e)) s
  | QGetDeployment id => on_db (GetDeployment id) s
  | QCreateDeployment arg => on_db (CreateDeployment arg) s
  | QCancelQueuedDeployment id => on_db (CancelQueuedDeployment id) s
  | QListDeployments limit => on_db (ListDeployments limit) s
  | QGetApplication id => on_db (GetApplication id) s
  | QListDeploymentSlotsForApplication id => on_db (ListDeploymentSlotsForApplication id) s
  | QListAuditEvents limit => on_db (ListAuditEvents limit) s
  | QListDeploymentLogsAfter id last limit => on_db (ListDeploymentLogsAfter id last limit) s
  | QListRecentDeploymentLogs id limit => on_db (ListRecentDeploymentLogs id limit) s
  | QGetProject id => on_db (GetProject id) s
  | QGetServer id => on_db (GetServer id) s
  | QGetApplicationForUpdate id => on_db (GetApplicationForUpdate id) s
  | QGetApplicationConfigurationRedeployCandidate id => on_db (GetApplicationConfigurationRedeployCandidate id) s
  | QListProjectConfigurationRedeployCandidates id => on_db (ListProjectConfigurationRedeployCandidates id) s
  | QGetEnvironment id => on_db (GetEnvironment id) s
  | QCreateApplication arg => on_db (CreateApplication arg) s
  | QUpdateApplication arg => on_db (UpdateApplication arg) s
  | QListApplicationsForGitHubPush branch urls => on_db (ListApplicationsForGitHubPush branch urls) s
  | QGetApplicationDeletionState id => on_db (GetApplicationDeletionState id) s
  | QDeleteProxyRoute id => on_db (DeleteProxyRoute id) s
  | QDeleteApplication id => on_db (DeleteApplication id) s
  | QCompleteBuildRun arg => on_db (CompleteBuildRun arg) s
  | QGetBuildRun id => on_db (GetBuildRun id) s
  | QListBuildRuns limit => on_db (ListBuildRuns limit) s
  | QCreateBuildRun arg => on_db (CreateBuildRun arg) s
  | QListApplicationsForBuildComplete branch repository => on_db (ListApplicationsForBuildComplete branch repository) s
  | QListConnectorAccounts => on_db ListConnectorAccounts s
  | QGetProjectForUpdate id => on_db (GetProjectForUpdate id) s
  | QListProjectRuntimeVariables project => on_db (ListProjectRuntimeVariables project) s
  | QDeleteProjectRuntimeVariables project => on_db (DeleteProjectRuntimeVariables project) s
  | QUpsertProjectRuntimeVariable arg => on_db (UpsertProjectRuntimeVariable arg) s
  | QIncrementProjectConfigurationRevision id => on_db (IncrementProjectConfigurationRevision id) s
  | QListServiceConfigs application => on_db (ListApplicationServiceRuntimeConfigs application) s
  | QGetServiceConfig application service => on_db (GetApplicationServiceRuntimeConfig application service) s
  | QDeleteServiceConfig application service => on_db (DeleteApplicationServiceRuntimeConfig application service) s
  | QUpsertServiceConfig arg => on_db (UpsertApplicationServiceRuntimeConfig arg) s
  | QBumpApplicationConfigurationRevision id => on_db (BumpApplicationConfigurationRevision id) s
  | QListServers => on_db ListServers s
  | QCreateServerWithSSHInventory arg => on_db (CreateServerWithSSHInventory arg) s
  | QListServerDevSudoUsers server => on_db (ListServerDevSudoUsers server) s
  | QReplaceServerDevSudoUsers server usernames => on_db (ReplaceServerDevSudoUsers server usernames) s
  | QListProxyRoutes => on_db ListProxyRoutes s
  | QGetProxyRouteTarget id => on_db (GetProxyRouteTarget id) s
  | QCreateProxyRoute arg => on_db (CreateProxyRoute arg) s
  | QMarkProxyRouteApplied id => on_db (MarkProxyRouteApplied id) s
  | QListProjects => on_db ListProjects s
  | QCreateProject arg => on_db (CreateProjectWithDefaultEnvironments arg) s
  | QUpdateProject arg => on_db (UpdateProject arg) s
  | QUpdateProjectRegistry registry id => on_db (UpdateProjectRegistry registry id) s
  | QUpdateProjectRepository arg => on_db (UpdateProjectRepository arg) s
  | QDeleteProject id => on_db (DeleteProject id) s
  | QListEnvironments => on_db ListEnvironments s
  | QCreateEnvironment arg => on_db (CreateEnvironment arg) s
  | QDeleteEnvironment id => on_db (DeleteEnvironment id) s
  | QListApplications => on_db ListApplications s
  | QUpdateComposeServices services id => on_db (UpdateApplicationComposeServices services id) s
  | QListContainerRegistries => on_db ListContainerRegistries s
  | QGetContainerRegistry id => on_db (GetContainerRegistry id) s
  | QUpsertContainerRegistry arg => on_db (UpsertContainerRegistry arg) s
  | QGetConnectorAccount id => on_db (GetConnectorAccount id) s
  | QUpsertConnectorAccount arg => on_db (UpsertConnectorAccount arg) s
  | QMarkConnectorSync arg => on_db (MarkConnectorSync arg) s
  | QListCredentials => on_db ListCredentials s
  | QGetCredentialWithCounts id => on_db (GetCredentialWithCounts id) s
  | QListCredentialPermissions id => on_db (ListCredentialPermissions id) s
  | QListCredentialUsages id => on_db (ListCredentialUsages id) s
  | QUpsertCredential arg => on_db (UpsertCredential arg) s
  | QDeleteCredentialPermissions id => on_db (DeleteCredentialPermissions id) s
  | QDeleteCredentialUsages id => on_db (DeleteCredentialUsages id) s
  | QUpsertCredentialPermission arg => on_db (UpsertCredentialPermission arg) s
  | QUpsertCredentialUsage arg => on_db (UpsertCredentialUsage arg) s
  | QUpdateServerHealth arg => on_db (UpdateServerHealth arg) s
  | COut e => let '(x, host) := do_outside _ e (q_host (a_queue s)) in (x, on_host s host)
  | CDoppler args => let '(x, host) := do_doppler args (q_host (a_queue s)) in (x, on_host s host)
  | CLookPath command => (look_path command (q_host (a_queue s)), s)
  | CBegin =>
      match begin_error (q_host (a_queue s)) with
      | Some err => (Some err, s)
      | None => (None, set_db s (a_db s) (Some (a_db s)))
      end
  | CCommit =>
      match commit_error (q_host (a_queue s)) with
      | Some err => (Some err, s)      (* the transaction stays open and is rolled back *)
      | None => (None, set_db s (a_db s) None)
      end
  | CRollback =>
      (tt, match a_saved s with Some saved => set_db s (rolled_back saved (a_db s)) None | None => s end)
  | CSeen delivery =>
      let '(known, cache) := Seen delivery (a_replays s) in
      (known, {| a_queue := a_queue s; a_saved := a_saved s; a_replays := cache; a_responses := a_responses s |})
  | CLocal command => let '(x, host) := do_local command (q_host (a_queue s)) in (x, on_host s host)
  | CRemote server command => let '(x, host) := do_remote server command (q_host (a_queue s)) in (x, on_host s host)
  | CDispatchWorkflow installation repository workflow branch inputs =>
      let '(x, host) := do_dispatch installation repository workflow branch inputs (q_host (a_queue s)) in (x, on_host s host)
  | CEnqueue d =>
      match push_error (q_host (a_queue s)) with
      | Some err => (Some err, s)
      | None => on_queue (fun q => let '(err, _, q') := exec queue_handler (Enqueue d) q in (err, q')) s
      end
  | CSetHeader _ _ => (tt, s)
  | CSetCookie _ => (tt, s)
  | CWriteHeader status => (tt, respond s status (VObject []))
  | CWriteJSON status value => (tt, respond s status value)
  end.

(** ** The table and the queue agree *)

(** Every row is ended or waits in the list. *)
Definition settled (s : api_state) : Prop := deployments_ok (a_db s) /\ waiting (a_db s) (a_list s).

(** The same but for [d], which was just created. *)
Definition fresh (d : Deployment.t) (s : api_state) : Prop :=
  deployments_ok (a_db s) /\ uuid_sized (Deployment.ID d)
  /\ (exists y, y ∈ deployments (a_db s) /\ Deployment.ID y = Deployment.ID d)
  /\ forall y, y ∈ deployments (a_db s) ->
       Deployment.Status y <> lit "running"
       /\ (Deployment.Status y = lit "queued" ->
           Deployment.ID y = Deployment.ID d \/ exists x, x ∈ a_list s /\ item_id x = Some (Deployment.ID y)).

(** The identifiers issued so far have sixteen bytes, as those of PostgreSQL. *)
Definition issued (s : api_state) : Prop :=
  forall k, (k < uuid_supply (a_db s))%nat -> length (gen_uuid k) = 16%nat.
Definition when_issued (P : api_state -> Prop) (s : api_state) : Prop := issued s -> P s.

(** Calls that leave the deployments and the list alone. *)
Definition calm_call X (e : apiE X) : Prop :=
  match e with
  | QShared (QAppendAuditEvent _) | QShared (QGetStandbyDeploymentSlot _ _) => True
  | QGetDeployment _ | QGetApplication _ | CWriteJSON _ _ | CSetHeader _ _ => True
  | QGetProject _ | QGetApplicationForUpdate _ => True
  | QGetApplicationConfigurationRedeployCandidate _ | QListProjectConfigurationRedeployCandidates _ => True
  | QCompleteBuildRun _ | QGetBuildRun _ | QCreateBuildRun _ | QListApplicationsForBuildComplete _ _ => True
  | QListApplicationsForGitHubPush _ _ | QListConnectorAccounts | CSeen _ | CDispatchWorkflow _ _ _ _ _ => True
  | _ => False
  end.

Definition same_work (s s' : api_state) : Prop :=
  same_table (a_db s) (a_db s') /\ a_list s' = a_list s.

Lemma on_db_same {A} (q : query A) s x s' :
  quiet_query q -> on_db q s = (x, s') -> same_work s s' /\ a_saved s' = a_saved s.
Proof.
  intros Hq. unfold on_db, on_queue, on_engine. destruct (lift q _) as [y e] eqn:El. intros [= <- <-].
  split; [|done]. split; [|done]. exact (quiet_lift _ _ _ _ Hq El).
Qed.

Lemma quiet_GetDeployment id : quiet_query (GetDeployment id).
Proof. unfold GetDeployment. quiet_read. Qed.
Lemma quiet_GetApplication id : quiet_query (GetApplication id).
Proof. unfold GetApplication. quiet_read. Qed.
Lemma quiet_GetProject id : quiet_query (GetProject id).
Proof. unfold GetProject. quiet_read. Qed.
Lemma quiet_GetApplicationForUpdate id : quiet_query (GetApplicationForUpdate id).
Proof. unfold GetApplicationForUpdate. quiet_read. Qed.
Lemma quiet_candidate id : quiet_query (GetApplicationConfigurationRedeployCandidate id).
Proof. unfold GetApplicationConfigurationRedeployCandidate. quiet_read. Qed.
Lemma quiet_candidates id : quiet_query (ListProjectConfigurationRedeployCandidates id).
Proof. unfold ListProjectConfigurationRedeployCandidates. quiet_read. Qed.
Lemma quiet_GetBuildRun id : quiet_query (GetBuildRun id).
Proof. unfold GetBuildRun. quiet_read. Qed.
Lemma quiet_push branch urls : quiet_query (ListApplicationsForGitHubPush branch urls).
Proof. unfold ListApplicationsForGitHubPush. quiet_read. Qed.
Lemma quiet_accounts : quiet_query ListConnectorAccounts.
Proof. unfold ListConnectorAccounts. quiet_read. Qed.
Lemma quiet_build_applications branch repository : quiet_query (ListApplicationsForBuildComplete branch repository).
Proof. unfold ListApplicationsForBuildComplete. quiet_read. Qed.
Lemma quiet_CompleteBuildRun arg : quiet_query (CompleteBuildRun arg).
Proof. destruct arg. unfold CompleteBuildRun. quiet_read. Qed.
Lemma quiet_CreateBuildRun arg : quiet_query (CreateBuildRun arg).
Proof.
  intros db a db'. destruct arg. unfold CreateBuildRun. destruct (negb _); [done|].
  intros Hq. apply rbind_ok in Hq as ([b db1] & Hb & Hq). injection Hq as _ <-. unfold store_build in Hb.
  do 3 (destruct (negb _); [done|]). injection Hb as _ <-. split; [done|]. cbn. lia.
Qed.

Lemma calm_same X (e : apiE X) s : calm_call X e -> same_work s (api_handler X e s).2 /\ a_saved (api_handler X e s).2 = a_saved s.
Proof.
  intros Hc. destruct (api_handler X e s) as [x s'] eqn:Eh. cbn [snd].
  destruct e; try (by destruct Hc);
    try (refine (on_db_same _ _ _ _ _ Eh);
         first [apply quiet_GetDeployment | apply quiet_GetApplication | apply quiet_GetProject
               | apply quiet_GetApplicationForUpdate | apply quiet_candidate | apply quiet_candidates
               | apply quiet_GetBuildRun | apply quiet_push | apply quiet_accounts | apply quiet_build_applications
               | apply quiet_CompleteBuildRun | apply quiet_CreateBuildRun]);
    try (injection Eh as _ <-; by repeat split).
  2: cbn [api_handler] in Eh; destruct (Seen _ _); injection Eh as _ <-; by repeat split.
  2: cbn [api_handler] in Eh; destruct (do_dispatch _ _ _ _ _ _); injection Eh as _ <-; by repeat split.
  match goal with e : runnerE _ |- _ => destruct e; try (by destruct Hc) end.
  - exact (on_db_same _ _ _ _ (quiet_AppendAuditEvent _) Eh).
  - exact (on_db_same _ _ _ _ (quiet_GetStandbyDeploymentSlot _ _) Eh).
Qed.

Lemma same_work_settled s s' : same_work s s' -> settled s -> settled s'.
Proof.
  intros [[Ed Hle] El] [Hok Hw]. split; [by apply (other_ok (a_db s))|]. unfold waiting. rewrite Ed, El. exact Hw.
Qed.

Lemma same_work_fresh d s s' : same_work s s' -> fresh d s -> fresh d s'.
Proof.
  intros [[Ed Hle] El] (Hok & Hsz & Hy & Hw). split; [by apply (other_ok (a_db s))|]. rewrite Ed, El. done.
Qed.

Lemma issued_before s s' : (uuid_supply (a_db s) <= uuid_supply (a_db s'))%nat -> issued s' -> issued s.
Proof. intros Hle Hi k Hk. apply Hi. lia. Qed.

Lemma same_work_issued s s' : same_work s s' -> issued s' -> issued s.
Proof. intros [[_ Hle] _]. by apply issued_before. Qed.

Lemma same_work_when (P : api_state -> Prop) s s' :
  (P s -> P s') -> same_work s s' -> when_issued P s -> when_issued P s'.
Proof. intros HP Hs Hw Hi. by apply HP, Hw, (same_work_issued s s'). Qed.

Lemma calm_settled {A} (p : H A) :
  only calm_call p -> triple api_handler (when_issued settled) p (fun _ => when_issued settled).
Proof.
  apply triple_only. intros X e s Hc. destruct (calm_same X e s Hc) as [Hs _].
  apply same_work_when; [by apply same_work_settled|done].
Qed.

(** ** The four deployment handlers *)

Lemma calm_audit r action kind id name metadata : only calm_call (audit r action kind id name metadata).
Proof. by repeat split. Qed.

Lemma calm_writeError err : only calm_call (writeError err).
Proof. unfold writeError. by destruct (error_response err). Qed.

Lemma calm_validate app strategy ref : only calm_call (validateDeploymentTarget app strategy ref).
Proof.
  unfold validateDeploymentTarget. destruct (negb _); [done|]. apply only_bind; [by repeat split|].
  intros [a|e]; [|done]. by destruct (validateDeploymentSource a ref).
Qed.

Lemma create_triple arg :
  triple api_handler (when_issued settled) (call (QCreateDeployment arg))
    (fun res s => match res with inl d => when_issued (fresh d) s | inr _ => when_issued settled s end).
Proof.
  apply triple_call. intros s x s' Hpre He. cbn [api_handler] in He. unfold on_db, on_queue, on_engine in He.
  destruct (lift (CreateDeployment arg) (q_db (a_queue s), q_host (a_queue s))) as [y e] eqn:El. injection He as <- <-.
  apply lift_case in El. destruct y as [d|err]; [|apply (same_work_when settled s); [by apply same_work_settled|done|done]].
  destruct El as (db1 & Hq & [Ed Hle]). cbn [fst] in *. intros Hi.
  destruct (create_spec _ _ _ _ Hq) as (_ & Esup & _).
  assert (Hlt : (uuid_supply (q_db (a_queue s)) < uuid_supply e.1)%nat) by lia.
  destruct Hpre as [Hok Hw]; [refine (issued_before s _ _ Hi); exact (Nat.lt_le_incl _ _ Hlt)|].
  pose proof (create_spec _ _ _ _ Hq) as (Et & _ & Eid & _).
  pose proof (step_preserves_deployments_ok' _ _ _ Hok (step_create _ _ _ _ Hq)) as Hok1.
  unfold fresh, a_db, a_list in *. cbn [a_queue put_engine q_db q_list] in *.
  split; [by apply (other_ok db1)|]. split; [rewrite Eid; split; [done|by apply Hi]|].
  rewrite Ed, Et. split; [exists d; split; [apply elem_of_app; right; by left|done]|].
  intros z Hz. apply elem_of_app in Hz as [Hz|Hz].
  - destruct (Hw z Hz) as [Hr Hin]. split; [exact Hr|]. intros Hq0. right. by apply Hin.
  - apply list_elem_of_singleton in Hz as ->. pose proof (create_spec _ _ _ _ Hq) as (_ & _ & _ & Est & _).
    rewrite Est. split; [done|]. by left.
Qed.

Lemma enqueue_triple d :
  triple api_handler (when_issued (fresh d)) (call (CEnqueue d))
    (fun err s => match err with None => when_issued settled s | Some _ => when_issued (fresh d) s end).
Proof.
  apply triple_call. intros s x s' Hpre He. cbn [api_handler] in He.
  destruct (push_error _) as [err|]; [by injection He as <- <-|].
  unfold on_queue, Enqueue in He. destruct (encodeDeployment d) as [p|err] eqn:Ep; cbn [exec call queue_handler] in He;
    injection He as <- <-; [|done].
  intros Hi. destruct Hpre as (Hok & Hsz & Hy & Hw); [exact Hi|].
  destruct (decode_encode d Hsz) as (p' & Ep' & Edec & Eid). rewrite Ep in Ep'. injection Ep' as <-.
  unfold settled, a_db, a_list in *. cbn [a_queue q_db q_list]. split; [exact Hok|].
  intros y Hyd. destruct (Hw y Hyd) as [Hr Hin]. split; [exact Hr|].
  intros Hq. destruct (Hin Hq) as [Hid|(w & Hw1 & Hw2)].
  - exists p. split; [apply elem_of_app; right; by left|]. unfold item_id. rewrite Edec. cbn [DeploymentID].
    by rewrite Eid, Hid.
  - exists w. split; [|done]. apply elem_of_app. by left.
Qed.

(** Statements that issue no identifier. *)
Lemma lift_supply {A} (q : query A) (s : database * Host) x s1 :
  (forall db a db', q db = inl (a, db') -> (uuid_supply db <= uuid_supply db')%nat) ->
  lift q s = (x, s1) -> (uuid_supply s.1 <= uuid_supply s1.1)%nat.
Proof.
  intros Hq. unfold lift. destruct (q s.1) as [[a db']|e] eqn:E; intros [= _ <-]; [|done]. exact (Hq _ _ _ E).
Qed.

Lemma UpdateDeploymentStatus_supply id st db a db' :
  UpdateDeploymentStatus id st db = inl (a, db') -> (uuid_supply db <= uuid_supply db')%nat.
Proof. intros (-> & _)%update_deployment_spec. done. Qed.
Lemma CancelQueuedDeployment_supply id db a db' :
  CancelQueuedDeployment id db = inl (a, db') -> (uuid_supply db <= uuid_supply db')%nat.
Proof. intros (-> & _)%update_deployment_spec. done. Qed.

(** A deployment that cannot be enqueued is ended. *)
Lemma mark_failed_triple d :
  triple api_handler (when_issued (fresh d)) (call (QShared (QUpdateDeploymentStatus (Deployment.ID d) (lit "failed"))))
    (fun _ => when_issued settled).
Proof.
  apply triple_call. intros s x s' Hpre He Hi. cbn [api_handler sql_handler] in He.
  unfold on_queue, on_engine in He. cbn [sql_handler] in He.
  destruct (lift _ (q_db (a_queue s), q_host (a_queue s))) as [z e] eqn:El. injection He as <- <-.
  destruct Hpre as (Hok & Hsz & (y & Hy & Hyid) & Hw).
  { refine (issued_before _ _ _ Hi). exact (lift_supply _ _ _ _ (UpdateDeploymentStatus_supply _ _) El). }
  destruct (finish_succeeds (a_db s) (Deployment.ID d) (lit "failed") (fun _ => True) Hok) as (d' & db1 & Hu & (w & Hw1 & Hwid & Hwst));
    [by exists y|by right|].
  unfold lift in El. cbn [fst snd] in El. unfold a_db in Hu. rewrite Hu in El. injection El as <- <-.
  assert (Hok1 : deployments_ok db1).
  { refine (step_preserves_deployments_ok' _ _ _ Hok (step_finish _ _ _ _ _ _ Hu)). by right. }
  unfold settled, a_db, a_list in *. cbn [a_queue put_engine q_db q_list fst snd].
  split; [by apply (other_ok db1)|]. intros v Hv. change (deployments (tick db1)) with (deployments db1) in Hv.
  destruct (decide (Deployment.ID v = Deployment.ID d)) as [Hvd|Hvd].
  - assert (v = w) as -> by (apply (same_row _ _ _ Hok1 Hv Hw1); congruence).
    apply final_not_waiting in Hwst as [Hr Hq]. by split.
  - assert (Hoth : others_same (Deployment.ID d) (q_db (a_queue s)) db1).
    { refine (update_others _ _ _ _ _ _ _ _ Hu); [by intros u|]. intros u Hu2. left. by apply uuid_eqb_true in Hu2 as [-> _]. }
    destruct (Hoth v Hv Hvd) as (v0 & Hv0 & Eid & Est). rewrite <- Est, <- Eid.
    destruct (Hw v0 Hv0) as [Hr Hin]. split; [exact Hr|]. intros Hq. destruct (Hin Hq) as [Hx|Hx]; [congruence|exact Hx].
Qed.

Lemma cancel_triple id :
  triple api_handler (when_issued settled) (call (QCancelQueuedDeployment id)) (fun _ => when_issued settled).
Proof.
  apply triple_call. intros s x s' Hpre He Hi. cbn [api_handler] in He. unfold on_db, on_queue, on_engine in He.
  destruct (lift _ (q_db (a_queue s), q_host (a_queue s))) as [y e] eqn:El. injection He as <- <-.
  assert (Hi0 : issued s).
  { refine (issued_before _ _ _ Hi). exact (lift_supply _ _ _ _ (CancelQueuedDeployment_supply _) El). }
  destruct (Hpre Hi0) as [Hok Hw].
  apply lift_case in El. destruct y as [d|err]; [|by apply (same_work_settled s)].
  destruct El as (db1 & Hq & [Ed Hle]). cbn [fst] in *.
  pose proof (step_preserves_deployments_ok' _ _ _ Hok (step_cancel _ _ _ _ Hq)) as Hok1.
  unfold settled, a_db, a_list in *. cbn [a_queue put_engine q_db q_list] in *.
  split; [by apply (other_ok db1)|]. intros v Hv. rewrite Ed in Hv.
  apply update_deployment_spec in Hq as (-> & _). cbn [deployments with_deployments] in Hv.
  apply sql_update_elem in Hv as (v0 & Hv0 & ->). destruct (_ && _); [by split|]. exact (Hw v0 Hv0).
Qed.

Lemma enqueueDeployment_triple d :
  triple api_handler (when_issued (fresh d)) (enqueueDeployment d) (fun _ => when_issued settled).
Proof.
  unfold enqueueDeployment. apply (triple_bind _ _ _ _ _ _ (enqueue_triple d)). intros [err|]; [|by apply triple_ret].
  apply (triple_bind _ _ _ _ (fun _ => when_issued settled)); [|intros e; by apply triple_ret].
  apply (triple_bind _ _ _ _ _ _ (mark_failed_triple d)). intros r. by apply triple_ret.
Qed.

Lemma create_and_enqueue_triple r input failed queued :
  (forall d e, only calm_call (failed d e)) -> (forall d, only calm_call (queued d)) ->
  triple api_handler (when_issued settled) (create_and_enqueue r input failed queued) (fun _ => when_issued settled).
Proof.
  intros Hf Hq. unfold create_and_enqueue.
  apply (triple_bind _ _ _ _ _ _ (calm_settled _ (calm_validate _ _ _))). intros [err|]; [apply calm_settled, calm_writeError|].
  apply (triple_bind _ _ _ _ _ _ (create_triple input)). intros [d|err]; [|apply calm_settled, calm_writeError].
  apply (triple_bind _ _ _ _ _ _ (enqueueDeployment_triple d)). intros [err|].
  - apply (triple_bind _ _ _ _ _ _ (calm_settled _ (Hf d err))). intros _. apply calm_settled, calm_writeError.
  - apply (triple_bind _ _ _ _ _ _ (calm_settled _ (Hq d))). intros _. apply calm_settled. by repeat split.
Qed.

Ltac calm_step :=
  lazymatch goal with
  | |- triple _ (when_issued settled) (pbind (call _) _) _ =>
      refine (triple_bind _ _ _ _ _ _ (calm_settled _ _) _); [by repeat split|intros [?|?]]
  | |- triple _ (when_issued settled) (writeError _) _ => apply calm_settled, calm_writeError
  | |- triple _ (when_issued settled) (if ?b then _ else _) _ => destruct b
  | |- triple _ (when_issued settled) (match ?x with _ => _ end) _ => destruct x
  end.

(** ** Transactions *)

(** The state if the open transaction is rolled back now. *)
Definition back (s : api_state) : api_state :=
  match a_saved s with Some saved => set_db s (rolled_back saved (a_db s)) None | None => s end.

(** In a transaction that can still be rolled back to a settled state; [P] holds inside. *)
Definition in_tx (P : api_state -> Prop) (s : api_state) : Prop :=
  is_some (a_saved s) = true /\ when_issued P s /\ when_issued settled (back s).

Lemma back_saved s s' :
  a_saved s' = a_saved s -> a_list s' = a_list s -> (uuid_supply (a_db s) <= uuid_supply (a_db s'))%nat ->
  is_some (a_saved s) = true -> when_issued settled (back s) -> when_issued settled (back s').
Proof.
  intros Es El Hle Hsome. unfold back. rewrite Es. destruct (a_saved s) as [saved|]; [|done].
  apply same_work_when; [apply same_work_settled|]; by repeat split.
Qed.

Lemma calm_in_tx {A} (p : H A) : only calm_call p -> triple api_handler (in_tx settled) p (fun _ => in_tx settled).
Proof.
  apply triple_only. intros X e s Hc (Hsome & Hs & Hb). destruct (calm_same X e s Hc) as [Hw Es].
  pose proof Hw as [[_ Hle] El]. split; [by rewrite Es|]. split.
  - revert Hs. by apply same_work_when; [apply same_work_settled|].
  - by apply (back_saved s).
Qed.

Lemma begin_triple :
  triple api_handler (when_issued settled) (call CBegin)
    (fun err s => match err with None => in_tx settled s | Some _ => when_issued settled s end).
Proof.
  apply triple_call. intros s x s' Hs He. cbn [api_handler] in He. destruct (begin_error _); injection He as <- <-; [done|].
  split; [done|]. split; (revert Hs; apply same_work_when; [apply same_work_settled|]; by repeat split).
Qed.

Lemma create_in_tx arg :
  triple api_handler (in_tx settled) (call (QCreateDeployment arg))
    (fun res s => match res with inl d => in_tx (fresh d) s | inr _ => in_tx settled s end).
Proof.
  apply triple_call. intros s x s' (Hsome & Hs & Hb) He.
  assert (Hpost := create_triple arg s Hs). cbn [exec call] in Hpost. rewrite He in Hpost. cbn [fst snd] in Hpost.
  assert (Hrest : a_saved s' = a_saved s /\ a_list s' = a_list s /\ (uuid_supply (a_db s) <= uuid_supply (a_db s'))%nat).
  { cbn [api_handler] in He. unfold on_db, on_queue, on_engine in He.
    destruct (lift (CreateDeployment arg) (q_db (a_queue s), q_host (a_queue s))) as [y e] eqn:El. injection He as _ <-.
    split; [done|]. split; [done|]. refine (lift_supply _ _ _ _ _ El).
    intros db d db' Hq. destruct (create_spec _ _ _ _ Hq) as (_ & Esup & _). lia. }
  destruct Hrest as (Es & El & Hle). pose proof (back_saved s s' Es El Hle Hsome Hb) as Hb'.
  destruct x; (split; [by rewrite Es|]); by split.
Qed.

(** After [Commit] the transaction cannot be rolled back any more. *)
Lemma commit_triple d :
  triple api_handler (in_tx (fresh d)) (call CCommit)
    (fun err s => match err with
                  | None => when_issued (fresh d) s /\ a_saved s = None
                  | Some _ => when_issued settled (back s)
                  end).
Proof.
  apply triple_call. intros s x s' (Hsome & Hs & Hb) He. cbn [api_handler] in He.
  destruct (commit_error _); injection He as <- <-; [done|].
  split; [|done]. revert Hs. apply same_work_when; [apply same_work_fresh|]; by repeat split.
Qed.

Lemma rollback_open :
  triple api_handler (fun s => when_issued settled (back s)) (call CRollback) (fun _ => when_issued settled).
Proof. apply triple_call. intros s x s' Hs He. cbn [api_handler] in He. by injection He as _ <-. Qed.

Lemma rollback_closed d :
  triple api_handler (fun s => when_issued (fresh d) s /\ a_saved s = None) (call CRollback) (fun _ => when_issued (fresh d)).
Proof.
  apply triple_call. intros s x s' [Hs Hn] He. cbn [api_handler] in He. rewrite Hn in He. by injection He as _ <-.
Qed.

(** A redeployment was created, or the reason why not is given. *)
Definition created (res : Creation.t * option goerror) : bool :=
  negb (is_some res.2) && (Creation.skippedReason res.1 =s []).
Definition reason_known (res : Creation.t * option goerror) : Prop :=
  is_some res.2 = true \/ Creation.skippedReason res.1 = []
  \/ Creation.skippedReason res.1 = configurationRedeployCurrent
  \/ Creation.skippedReason res.1 = configurationRedeployInProgress.

Definition in_tx_outcome (res : Creation.t * option goerror) (s : api_state) : Prop :=
  reason_known res
  /\ if created res then when_issued (fresh (Creation.deployment res.1)) s /\ a_saved s = None
     else when_issued settled (back s).
Definition outcome (res : Creation.t * option goerror) (s : api_state) : Prop :=
  reason_known res
  /\ if created res then when_issued (fresh (Creation.deployment res.1)) s else when_issued settled s.

Lemma not_created res : reason_known res -> created res = false ->
  triple api_handler (in_tx settled) (Ret res) in_tx_outcome.
Proof. intros Hr Hc. apply triple_ret. intros s (_ & _ & Hb). split; [exact Hr|]. by rewrite Hc. Qed.

Lemma redeploy_in_transaction_triple id actor :
  triple api_handler (in_tx settled) (redeploy_in_transaction id actor) in_tx_outcome.
Proof.
  unfold redeploy_in_transaction.
  apply (triple_bind _ _ _ _ (fun _ => in_tx settled)); [apply calm_in_tx; by repeat split|].
  intros [application|err]; [|apply not_created; [by left|done]].
  apply (triple_bind _ _ _ _ (fun _ => in_tx settled)); [apply calm_in_tx; by repeat split|].
  intros [candidate|err]; [|apply not_created; [by left|done]]. cbv zeta.
  destruct (negb _); [apply not_created; [right; right; by left|done]|].
  destruct (RedeployCandidate.DeploymentInProgress candidate); [apply not_created; [right; right; by right|done]|].
  destruct (redeploy_input _ _ _) as [input|err]; [|apply not_created; [by left|done]].
  apply (triple_bind _ _ _ _ _ _ (create_in_tx input)). intros [d|err].
  - apply (triple_bind _ _ _ _ _ _ (commit_triple d)). intros [err|]; apply triple_ret; intros s Hs.
    + split; [by left|exact Hs].
    + split; [right; by left|exact Hs].
  - destruct (isDeploymentInProgressError _); (apply not_created; [|done]); [right; right; by right|by left].
Qed.

Lemma createConfigurationRedeployment_triple id actor :
  triple api_handler (when_issued settled) (createConfigurationRedeployment id actor) outcome.
Proof.
  unfold createConfigurationRedeployment. apply (triple_bind _ _ _ _ _ _ begin_triple). intros [err|].
  - apply triple_ret. intros s Hs. split; [by left|exact Hs].
  - apply (triple_bind_pure _ _ _ _ _ _ _ (redeploy_in_transaction_triple id actor)). intros res Hr.
    destruct (created res) eqn:Ec; [apply (triple_bind _ _ _ _ _ _ (rollback_closed _))|apply (triple_bind _ _ _ _ _ _ rollback_open)];
      intros _; apply triple_ret; intros s Hs; (split; [exact Hr|by rewrite Ec]).
Qed.

Lemma redeploy_candidate_triple r actor candidate :
  triple api_handler (when_issued settled) (redeploy_candidate r actor candidate) (fun _ => when_issued settled).
Proof.
  unfold redeploy_candidate. apply (triple_bind_pure _ _ _ _ _ _ _ (createConfigurationRedeployment_triple _ actor)).
  intros [creation err] _. cbv zeta. unfold created. cbn [fst snd].
  destruct err as [err|]; cbn [is_some negb andb].
  - apply (triple_bind _ _ _ _ _ _ (calm_settled _ (calm_audit _ _ _ _ _ _))). intros _. by apply triple_ret.
  - destruct (Creation.skippedReason creation =s []); cbn [negb]; [|by apply triple_ret].
    apply (triple_bind _ _ _ _ _ _ (enqueueDeployment_triple _)). intros [err|];
      (refine (triple_bind _ _ _ _ _ _ (calm_settled _ (calm_audit _ _ _ _ _ _)) _); intros _; by apply triple_ret).
Qed.

Lemma redeploy_candidates_triple r actor candidates :
  triple api_handler (when_issued settled) (redeploy_candidates r actor candidates) (fun _ => when_issued settled).
Proof.
  induction candidates as [|candidate t IH]; cbn [redeploy_candidates]; [by apply triple_ret|].
  apply (triple_bind _ _ _ _ _ _ (redeploy_candidate_triple r actor candidate)). intros [deployment result].
  apply (triple_bind _ _ _ _ _ _ IH). intros [deployments results]. by apply triple_ret.
Qed.

Lemma redeploy_application_settled r :
  triple api_handler (when_issued settled) (redeployApplicationConfiguration r) (fun _ => when_issued settled).
Proof.
  unfold redeployApplicationConfiguration. destruct (parseUUIDParam _ _) as [id|err]; [|apply calm_settled, calm_writeError].
  apply (triple_bind_pure _ _ _ _ _ _ _ (createConfigurationRedeployment_triple id _)). intros [creation err] Hr.
  cbv zeta. unfold created, reason_known in *. cbn [fst snd] in *.
  destruct err as [err|]; cbn [is_some negb andb] in *; [apply calm_settled, calm_writeError|].
  destruct Hr as [Hr|[Hr|[Hr|Hr]]]; [done|rewrite Hr..].
  2,3: repeat (change (_ =s _) with false || change (_ =s _) with true); cbn iota; apply calm_settled, calm_writeError.
  change ([] =s configurationRedeployCurrent) with false. change ([] =s configurationRedeployInProgress) with false.
  change ([] =s []) with true. cbn iota.
  apply (triple_bind _ _ _ _ _ _ (enqueueDeployment_triple _)). intros [err|];
    (refine (triple_bind _ _ _ _ _ _ (calm_settled _ (calm_audit _ _ _ _ _ _)) _); intros _).
  - apply calm_settled, calm_writeError.
  - apply calm_settled. by repeat split.
Qed.

(** ** Finished builds and pushes *)

Lemma deploy_build_triple r build app input :
  triple api_handler (when_issued settled) (deploy_build r build app input) (fun _ => when_issued settled).
Proof.
  unfold deploy_build. apply (triple_bind _ _ _ _ _ _ (create_triple input)). intros [d|err]; [|by apply triple_ret].
  apply (triple_bind _ _ _ _ _ _ (enqueueDeployment_triple d)). intros err.
  apply (triple_bind _ _ _ _ (fun _ => when_issued settled)); [|intros _; by apply triple_ret].
  apply calm_settled. unfold audit_auto_deploy. destruct err; apply calm_audit.
Qed.

Lemma deploy_each_triple r build applications :
  triple api_handler (when_issued settled) (deploy_each r build applications) (fun _ => when_issued settled).
Proof.
  induction applications as [|app t IH]; cbn [deploy_each]; [by apply triple_ret|].
  destruct (buildCompleteDeploymentInput app build) as [input|err]; [|exact IH].
  destruct (validateBlueGreenHealthCheck _); [exact IH|].
  apply (triple_bind _ _ _ _ _ _ (deploy_build_triple r build app input)). intros deployment.
  apply (triple_bind _ _ _ _ _ _ IH). intros rest. by apply triple_ret.
Qed.

Ltac calm_call_step := refine (triple_bind _ _ _ _ _ _ (calm_settled _ _) _); [by repeat split|].

Lemma autoDeploy_triple r build :
  triple api_handler (when_issued settled) (autoDeploy r build) (fun _ => when_issued settled).
Proof.
  unfold autoDeploy. destruct (_ || _); [by apply triple_ret|]. destruct (uuid_valid _).
  - unfold autoDeployApplication. calm_call_step. intros [app|err]; [|by apply triple_ret].
    destruct (negb _); [by apply triple_ret|]. destruct (validateBlueGreenHealthCheck _); [by apply triple_ret|].
    destruct (buildCompleteApplicationDeploymentInput app build) as [input|err]; [|by apply triple_ret].
    apply (triple_bind _ _ _ _ _ _ (deploy_build_triple r build app input)). intros d. by apply triple_ret.
  - calm_call_step. intros [[|app apps]|err]; [by apply triple_ret| |by apply triple_ret].
    apply (triple_bind _ _ _ _ _ _ (deploy_each_triple r build _)). intros l. by apply triple_ret.
Qed.

Lemma completeBuildRun_settled r :
  triple api_handler (when_issued settled) (completeBuildRun r) (fun _ => when_issued settled).
Proof.
  unfold completeBuildRun. destruct (parseUUIDParam _ _) as [id|err]; [|apply calm_settled, calm_writeError].
  destruct (rbind _ _) as [input|err]; [|apply calm_settled, calm_writeError].
  calm_call_step. intros [build|err].
  - apply (triple_bind _ _ _ _ _ _ (calm_settled _ (calm_audit _ _ _ _ _ _))). intros _.
    apply (triple_bind _ _ _ _ _ _ (autoDeploy_triple r build)). intros l. apply calm_settled. by repeat split.
  - destruct (is_no_rows err); [|apply calm_settled, calm_writeError]. unfold answer_unchanged.
    calm_call_step. intros [build|err'].
    + destruct (_ =s _); apply calm_settled; by repeat split.
    + destruct (is_no_rows err'); apply calm_settled, calm_writeError.
Qed.

Lemma calm_dispatch cfg r application push : only calm_call (tryBuildDispatch cfg r application push).
Proof.
  unfold tryBuildDispatch. destruct (negb _); [done|]. apply only_bind; [by repeat split|]. intros [accounts|err]; [|done].
  destruct (_ =s _); [done|]. assert (Hskip : forall err, only calm_call (skip_build r application err push)).
  { intros err. apply only_bind; [apply calm_audit|done]. }
  generalize false at 1 as owned. generalize false as source. induction accounts as [|account t IH]; intros source owned;
    cbn [dispatch_accounts]; [done|]. destruct (_ || _); [apply IH|].
  destruct (githubConnectorBuildTarget _ _ _ _ _) as [[repo [|]]|err]; [|apply IH|apply Hskip].
  destruct (_ =s _); [apply IH|]. destruct (_ =s _); [apply Hskip|]. destruct (_ =s _); [apply IH|].
  unfold start_build. destruct (validateGitHubBuildDispatchRequest _); [apply Hskip|].
  apply only_bind; [by repeat split|]. intros [build|err]; [|done]. apply only_bind; [|done].
  unfold dispatch_build. apply only_bind; [by repeat split|]. intros [err|].
  - apply only_bind; [by repeat split|done].
  - apply only_bind; [apply calm_audit|done].
Qed.

Lemma push_application_triple cfg r push application :
  triple api_handler (when_issued settled) (push_application cfg r push application) (fun _ => when_issued settled).
Proof.
  assert (Hskip : forall err, triple api_handler (when_issued settled) (skip_push r application err push) (fun _ => when_issued settled)).
  { intros err. apply calm_settled, only_bind; [apply calm_audit|done]. }
  unfold push_application. destruct (validateBlueGreenHealthCheck _); [apply Hskip|].
  apply (triple_bind _ _ _ _ _ _ (calm_settled _ (calm_dispatch cfg r application push))). intros [dispatched [|]]; [by apply triple_ret|].
  destruct (_ =s _); [apply Hskip|]. destruct (push_deployment_input application push) as [input|err]; [|apply Hskip].
  unfold deploy_push. apply (triple_bind _ _ _ _ _ _ (create_triple input)). intros [d|err]; [|by apply triple_ret].
  apply (triple_bind _ _ _ _ _ _ (enqueueDeployment_triple d)). intros [err|]; [|by apply triple_ret].
  apply (triple_bind _ _ _ _ _ _ (calm_settled _ (calm_audit _ _ _ _ _ _))). intros _. by apply triple_ret.
Qed.

Lemma push_applications_triple cfg r push applications :
  triple api_handler (when_issued settled) (push_applications cfg r push applications) (fun _ => when_issued settled).
Proof.
  induction applications as [|application t IH]; cbn [push_applications]; [by apply triple_ret|].
  apply (triple_bind _ _ _ _ _ _ (push_application_triple cfg r push application)).
  intros [entry|build|d|err]; [..|by apply triple_ret]; (apply (triple_bind _ _ _ _ _ _ IH); intros rest; by apply triple_ret).
Qed.

Lemma webhook_settled cfg r :
  triple api_handler (when_issued settled) (githubWebhook cfg r) (fun _ => when_issued settled).
Proof.
  unfold githubWebhook. destruct (read_body r) as [body|err]; [|apply calm_settled, calm_writeError].
  destruct (negb _); [apply calm_settled; by repeat split|].
  refine (triple_bind _ _ _ _ _ _ (calm_settled _ _) _); [by unfold seen_before; destruct (has_replays cfg)|].
  intros [|]; [apply calm_settled; by repeat split|]. unfold github_event.
  destruct (normalizeGitHubEvent _) as [event|err]; [|apply calm_settled, calm_writeError].
  destruct (_ =s _); [apply calm_settled; by repeat split|]. destruct (negb _); [apply calm_settled; by repeat split|].
  unfold github_push. destruct (ParsePush body) as [push|err]; [|apply calm_settled, calm_writeError].
  destruct (Push.Deleted push); [apply calm_settled; by repeat split|].
  destruct (validateGitHubPushBranch _); [apply calm_settled, calm_writeError|].
  destruct (_ && _); [apply calm_settled, calm_writeError|]. unfold handle_push. calm_call_step.
  intros [applications|err]; [|apply calm_settled, calm_writeError].
  apply (triple_bind _ _ _ _ _ _ (push_applications_triple cfg r push applications)).
  intros [[[queued builds] skipped]|err]; [|apply calm_settled, calm_writeError]. apply calm_settled. by repeat split.
Qed.

(** The handlers that create or cancel deployments. *)
Definition deployment_handlers (cfg : GitHubWebhookConfig) : list (Request -> H unit) :=
  [createDeployment; retryDeployment; rollbackApplication; cancelDeployment;
   redeployApplicationConfiguration; redeployProjectConfiguration; completeBuildRun; githubWebhook cfg].

Lemma handlers_settled cfg r (handler : Request -> H unit) :
  handler ∈ deployment_handlers cfg ->
  triple api_handler (when_issued settled) (handler r) (fun _ => when_issued settled).
Proof.
  intros Hh. unfold deployment_handlers in Hh. rewrite !elem_of_cons, elem_of_nil in Hh.
  destruct Hh as [->|[->|[->|[->|[->|[->|[->|[->|[]]]]]]]]].
  - unfold createDeployment. repeat calm_step. by apply create_and_enqueue_triple; intros; apply calm_audit.
  - unfold retryDeployment. repeat calm_step. by apply create_and_enqueue_triple; intros; apply calm_audit.
  - unfold rollbackApplication. repeat calm_step. by apply create_and_enqueue_triple; intros; apply calm_audit.
  - unfold cancelDeployment. destruct (parseUUIDParam _ _) as [id|err]; [|calm_step].
    apply (triple_bind _ _ _ _ _ _ (cancel_triple _)). intros [d|e]; [|repeat calm_step].
    apply (triple_bind _ _ _ _ _ _ (calm_settled _ (calm_audit _ _ _ _ _ _))). intros _. apply calm_settled. by repeat split.
  - apply redeploy_application_settled.
  - unfold redeployProjectConfiguration. repeat calm_step.
    apply (triple_bind _ _ _ _ _ _ (redeploy_candidates_triple r _ _)). intros [deployments results].
    apply calm_settled. by repeat split.
  - apply completeBuildRun_settled.
  - apply webhook_settled.
Qed.

(** C5: from a request to the end of the deployment.  Any sequence of requests that
    create, retry, roll back, redeploy or cancel deployments, and of pushes and
    finished builds from GitHub, on a consistent table whose queued rows are in the
    queue, leaves every row ended or in the queue, whether Redis takes the pushes,
    workflows start and transactions commit or not; once the worker has worked
    through the queue every deployment has ended, whatever the hosts answer. *)
Theorem requests_reach_their_end r cfg (requests : list ((Request -> H unit) * Request)) s n
    (Hok : deployments_ok (a_db s)) (Hwaiting : waiting (a_db s) (a_list s))
    (Hknown : Forall (fun q => q.1 ∈ deployment_handlers cfg) requests) :
  let s1 := fold_left (fun s q => (exec api_handler (q.1 q.2) s).2) requests s in
  (forall k, (k < uuid_supply (a_db s1))%nat -> length (gen_uuid k) = 16%nat) ->
  waiting (a_db s1) (a_list s1)
  /\ ((length (a_list s1) <= n)%nat ->
      forall d, d ∈ deployments (q_db (after (work n r) (a_queue s1))) -> is_terminal (Deployment.Status d) = true).
Proof.
  cbv zeta. intros Hissued. fold (issued (fold_left (fun s q => (exec api_handler (q.1 q.2) s).2) requests s)) in Hissued.
  assert (Hs : when_issued settled s) by by split. clear Hok Hwaiting. revert s Hs Hissued.
  induction Hknown as [|[h q] l Hh _ IH]; intros s Hs Hissued.
  - destruct (Hs Hissued) as [Hok Hw]. split; [exact Hw|]. intros Hn d Hd.
    destruct (work_drains n r (a_queue s) Hok Hw Hn) as [Hw2 Hok2]. by apply (waiting_nothing _ _ Hok2 Hw2).
  - cbn [fold_left fst snd] in *. apply IH; [exact (handlers_settled cfg q h Hh s Hs)|exact Hissued].
Qed.
End HttpEngine.
