(* ===== verification/HttpVariablesFacts.v ===== *)
(** * Runtime variables: what is accepted is stored, and what is stored is deployed

    The size that the API computes is the size of the file that the runner writes,
    so accepted variables can always be rendered; replacing the variables of a
    project or of a service changes all of them and the revision, or nothing. *)

From S2P Require Import Prelude GoStrings GoStringsFacts GoRegexp GoJson GoNet StringUtil AuditLog.
From S2P Require Import Db DbHttp DbApplications RemoteSteps EnvFile ProxyCommands Effects Runner.
From S2P Require Import GoHttp HttpCore HttpDeployments HttpApplications HttpVariables.

(** ** Counting bytes and runes *)

(** ASCII runes are bytes. *)
Lemma count_runes p s : (forall r, p r = true -> (r < 128)%N) ->
  length (List.filter p (runes s)) = length (List.filter (fun c => p (b2n c)) s).
Proof.
  intros Hp. assert (Hlarge : forall x, (128 <= x)%N -> p x = false).
  { intros x Hx. destruct (p x) eqn:Ep; [|done]. apply Hp in Ep. lia. }
  induction s as [s IH] using str_len_ind. destruct (decide (s = [])) as [->|Hne]; [done|].
  unfold runes. destruct (decode_cases s Hne) as [(c & t & -> & E)|(g & t & Hg & -> & E)]; rewrite E; cbn [map List.filter fst].
  - assert (Hc : (128 <= b2n c)%N).
    { destruct (b2n c <? 128)%N eqn:Ec; [|by apply N.ltb_ge in Ec]. cbn [decode] in E. rewrite Ec in E. injection E as E.
      apply N.ltb_lt in Ec. unfold rune_error in E. lia. }
    rewrite (Hlarge rune_error) by (unfold rune_error; lia). rewrite (Hlarge (b2n c)) by done. apply IH. cbn. lia.
  - rewrite List.filter_app. assert (Hrest : length (List.filter p (runes t)) = length (List.filter (fun c => p (b2n c)) t)).
    { apply IH. destruct Hg; cbn [snd app length]; lia. }
    fold (runes t). rewrite length_app, <- Hrest. destruct Hg as [c Hc|c0 c1 r Hd|c0 c1 c2 r Hd|c0 c1 c2 c3 r Hd]; cbn [fst snd].
    + cbn [List.filter]. by destruct (p (b2n c)).
    + apply dec2_range in Hd. rewrite (Hlarge r) by lia. rewrite (filter_none _ [c0; c1]); [done|].
      intros x. rewrite !elem_of_cons, elem_of_nil. intros [->|[->|[]]]; apply Hlarge; lia.
    + apply dec3_range in Hd. rewrite (Hlarge r) by lia. rewrite (filter_none _ [c0; c1; c2]); [done|].
      intros x. rewrite !elem_of_cons, elem_of_nil. intros [->|[->|[->|[]]]]; apply Hlarge; lia.
    + apply dec4_range in Hd. rewrite (Hlarge r) by lia. rewrite (filter_none _ [c0; c1; c2; c3]); [done|].
      intros x. rewrite !elem_of_cons, elem_of_nil. intros [->|[->|[->|[->|[]]]]]; apply Hlarge; lia.
Qed.

Lemma runes_length_le s : (length (runes s) <= length s)%nat.
Proof.
  induction s as [s IH] using str_len_ind. destruct (decide (s = [])) as [->|Hne]; [done|].
  destruct (decode_step s Hne) as (r & n & E & Hn). unfold runes. rewrite E. cbn [map length]. fold (runes (drop (S n) s)).
  assert (length (runes (drop (S n) s)) <= length (drop (S n) s))%nat by (apply IH; rewrite length_drop; lia).
  rewrite length_drop in *. lia.
Qed.

(** ** The size of the file *)

Definition as_variable (i : Input.t) : RuntimeVariable := runtimeVar (Input.Key i) (Input.Value i).

Definition special (r : rune) : bool := ((r =? 92) || (r =? 34) || (r =? 36) || (r =? 96))%N.

Lemma escaped_length v : (forall c, c ∈ v -> (32 <= b2n c)%N) ->
  length (flat_map escape_env v) = (length v + length (List.filter (fun c => special (b2n c)) v))%nat.
Proof.
  induction v as [|c v IH]; intros Hv; [done|]. cbn [flat_map List.filter]. rewrite length_app, IH by (intros d Hd; apply Hv; by right).
  assert (Hc : (32 <= b2n c)%N) by (apply Hv; by left). unfold escape_env, special.
  destruct (b2n c =? 10)%N eqn:E10; [apply N.eqb_eq in E10; lia|]. destruct (b2n c =? 13)%N eqn:E13; [apply N.eqb_eq in E13; lia|].
  destruct (_ || _); cbn [length app byte]; lia.
Qed.

Lemma control_free_bytes v : containsControlCharacter v = false -> forall c, c ∈ v -> (32 <= b2n c)%N.
Proof.
  intros Hv c Hc. destruct (N.le_gt_cases 32 (b2n c)) as [Hle|Hlt]; [done|]. exfalso.
  assert (Hn : length (List.filter (fun r => (r <? 32)%N) (runes v)) = 0%nat).
  { rewrite filter_none; [done|]. intros r Hr. apply N.ltb_ge. destruct (N.le_gt_cases 32 r) as [|Hr32]; [done|]. exfalso.
    assert (Hex : containsControlCharacter v = true); [|congruence].
    apply existsb_exists. exists r. split; [by apply list_elem_of_In|]. unfold is_control.
    apply N.ltb_lt in Hr32. by rewrite Hr32. }
  rewrite count_runes in Hn by (intros r Hr; apply N.ltb_lt in Hr; lia).
  apply length_zero_iff_nil in Hn. assert (Hin : In c (List.filter (fun c => (b2n c <? 32)%N) v)).
  { apply filter_In. split; [by apply list_elem_of_In|by apply N.ltb_lt]. }
  by rewrite Hn in Hin.
Qed.

Lemma env_line_length i : containsControlCharacter (Input.Value i) = false ->
  S (length (env_line (as_variable i))) = renderedRuntimeVariableSize i.
Proof.
  intros Hv. unfold env_line, renderedRuntimeVariableSize, as_variable, runtimeVar. cbn [Key Value].
  rewrite quoteEnvValue_flat_map, !length_app, (escaped_length _ (control_free_bytes _ Hv)).
  change (fun r => ((r =? 92) || (r =? 34) || (r =? 36) || (r =? 96))%N) with special. rewrite count_runes; [cbn; lia|].
  unfold special. intros r Hr. rewrite !orb_true_iff, !N.eqb_eq in Hr. lia.
Qed.

Lemma joined_length (lines : list str) : lines <> [] ->
  length (Join lines newline ++ newline) = sum_list_with (fun l => S (length l)) lines.
Proof.
  intros Hl. rewrite length_app. induction lines as [|x [|y t] IH]; [done|cbn; lia|].
  change (Join (x :: y :: t) newline) with (x ++ newline ++ Join (y :: t) newline). rewrite !length_app.
  specialize (IH ltac:(done)). cbn [sum_list_with length newline byte] in *. lia.
Qed.

#[export] Instance sum_perm {A} (f : A -> nat) : Proper ((≡ₚ) ==> (=)) (sum_list_with f).
Proof. induction 1; cbn [sum_list_with]; lia. Qed.

Lemma sum_map {A B} (f : A -> B) (g : B -> nat) l : sum_list_with g (map f l) = sum_list_with (fun x => g (f x)) l.
Proof. induction l as [|x l IH]; [done|]. cbn [map sum_list_with]. by rewrite IH. Qed.

Lemma rendered_length (l : list Input.t) :
  (forall i, i ∈ l -> ValidRuntimeVariableKey (Input.Key i) = true /\ containsControlCharacter (Input.Value i) = false) ->
  length (renderEnvFile (map as_variable l)) = sum_list_with renderedRuntimeVariableSize l.
Proof.
  intros Hl. assert (Hf : List.filter isValidRuntimeVariable (map as_variable l) = map as_variable l).
  { induction l as [|i l IH]; [done|]. cbn [map List.filter]. unfold isValidRuntimeVariable at 1. cbn [Key as_variable runtimeVar].
    destruct (Hl i ltac:(by left)) as [-> _]. f_equal. apply IH. intros j Hj. apply Hl. by right. }
  unfold renderEnvFile. rewrite Hf. case_bool_decide as E.
  - apply (f_equal length) in E. unfold sort_Strings in E. rewrite merge_sort_Permutation, !length_map in E. by destruct l.
  - rewrite (joined_length _ E), sort_Strings_perm, !sum_map. clear Hf E. induction l as [|i l IH]; [done|]. cbn [sum_list_with].
    rewrite env_line_length by (apply Hl; by left). f_equal. apply IH. intros j Hj. apply Hl. by right.
Qed.

(** ** What is accepted *)

Section Accepted.
Context `{UnicodeTables} `{UuidLib} `{SshLib}.

Definition trimmed (i : Input.t) : Input.t := Input.mk (TrimSpace (Input.Key i)) (Input.Value i).

Definition accepted (i : Input.t) : Prop :=
  ValidRuntimeVariableKey (Input.Key i) = true /\ (length (Input.Key i) <= 128)%nat
  /\ (length (Input.Value i) <= N.to_nat 8192)%nat /\ containsControlCharacter (Input.Value i) = false
  /\ IsSecretKey (Input.Key i) = false /\ reservedProjectRuntimeVariable (Input.Key i) = false
  /\ looksLikeSecretMaterial (Input.Value i) = false.

Lemma normalize_variables_spec vs acc seen size out n : normalize_variables vs acc seen size = inl (out, n) ->
  out = acc ++ map trimmed vs /\ n = (size + sum_list_with renderedRuntimeVariableSize (map trimmed vs))%nat
  /\ Forall accepted (map trimmed vs) /\ NoDup (map Input.Key (map trimmed vs))
  /\ forall k, k ∈ map Input.Key (map trimmed vs) -> k ∉ seen.
Proof.
  revert acc seen size. induction vs as [|v vs IH]; intros acc seen size; cbn [normalize_variables].
  - intros [= <- <-]. cbn. rewrite app_nil_r. repeat split; [lia|constructor|constructor|]. by intros k ?%not_elem_of_nil.
  - fold (trimmed v). cbv zeta. cbn [Input.Key Input.Value]. change (TrimSpace (Input.Key v)) with (Input.Key (trimmed v)).
    destruct (_ =s _); [done|]. destruct (_ || _) eqn:Ek; [done|]. case_bool_decide as Hseen; [done|].
    destruct (isSecretConfigKey _) eqn:Esec; [done|]. destruct (reservedProjectRuntimeVariable _) eqn:Eres; [done|].
    destruct (maxProjectRuntimeVariableValue <? _)%nat eqn:Elen; [done|]. destruct (containsControlCharacter _) eqn:Ectl; [done|].
    destruct (looksLikeSecretMaterial _) eqn:Elook; [done|].
    intros (-> & -> & Hall & Hnd & Hfresh)%IH. apply orb_false_iff in Ek as [Ek1 Ek2]. apply negb_false_iff in Ek2.
    apply Nat.ltb_ge in Ek1, Elen. cbn [map sum_list_with].
    change (Input.mk (Input.Key (trimmed v)) (Input.Value v)) with (trimmed v).
    split; [by rewrite <- app_assoc|]. split; [lia|]. split; [|split].
    + constructor; [exact (conj Ek2 (conj Ek1 (conj Elen (conj Ectl (conj Esec (conj Eres Elook))))))|done].
    + constructor; [|done]. intros Hin. apply Hfresh in Hin. set_solver.
    + intros k [->|Hk]%elem_of_cons; [done|]. apply Hfresh in Hk. set_solver.
Qed.

Lemma normalized_spec vs out : normalizeProjectRuntimeVariables vs = inl out ->
  out ≡ₚ map trimmed vs /\ Sorted (by_key Input.Key) out /\ Forall accepted out /\ NoDup (map Input.Key out)
  /\ (sum_list_with renderedRuntimeVariableSize out <= N.to_nat 65536)%nat.
Proof.
  unfold normalizeProjectRuntimeVariables. destruct (_ <? _)%nat; [done|]. intros Hn.
  apply rbind_ok in Hn as ([l n] & Hl & Hn). destruct (_ <? _)%nat eqn:Esz; [done|]. injection Hn as <-.
  apply normalize_variables_spec in Hl as (-> & -> & Hall & Hnd & _). cbn [app] in *. apply Nat.ltb_ge in Esz.
  pose proof (merge_sort_Permutation (by_key Input.Key) (map trimmed vs)) as Hp.
  split; [exact Hp|]. split; [apply by_key_sorted|]. split; [by rewrite Hp|]. split; [by rewrite Hp|].
  rewrite Hp. exact Esz.
Qed.

Lemma control_free_cr v : containsControlCharacter v = false -> drop_cr v = v.
Proof.
  intros Hv. pose proof (control_free_bytes v Hv) as Hb. clear Hv. unfold drop_cr. induction v as [|c v IH]; [done|].
  cbn [List.filter]. assert (Hc : (32 <= b2n c)%N) by (apply Hb; by left).
  destruct (b2n c =? 13)%N eqn:E; [apply N.eqb_eq in E; lia|]. cbn [negb]. f_equal. apply IH. intros d Hd. apply Hb. by right.
Qed.

Lemma accepted_renders out : Forall accepted out ->
  (sum_list_with renderedRuntimeVariableSize out <= N.to_nat 65536)%nat ->
  renderRuntimeEnvFile (map as_variable out) = inl (renderEnvFile (map as_variable out))
  /\ length (renderEnvFile (map as_variable out)) = sum_list_with renderedRuntimeVariableSize out.
Proof.
  intros Hall Hsz. rewrite Forall_forall in Hall.
  assert (Hlen : length (renderEnvFile (map as_variable out)) = sum_list_with renderedRuntimeVariableSize out).
  { apply rendered_length. intros i Hi. by destruct (Hall i Hi) as (Hk & _ & _ & Hc & _). }
  split; [|exact Hlen]. unfold renderRuntimeEnvFile.
  assert (Hok : first_error validateRuntimeVariable (map as_variable out) = None).
  { clear Hsz Hlen. induction out as [|i out IH]; [done|]. cbn [map first_error fold_right].
    destruct (Hall i ltac:(by left)) as (Hk & _ & Hl & Hc & _). unfold validateRuntimeVariable.
    cbn [Key Value as_variable runtimeVar]. rewrite Hk. cbn [negb].
    destruct (ContainsByte (Input.Value i) (ascii_of_N 0)) eqn:E0.
    { exfalso. apply existsb_exists in E0 as (c & Hin & Hc0). apply bool_decide_eq_true in Hc0 as <-.
      apply list_elem_of_In in Hin. pose proof (control_free_bytes _ Hc _ Hin). change (b2n (ascii_of_N 0)) with 0%N in *. lia. }
    assert (Hmax : maxRuntimeVariableValueLength = N.to_nat 8192) by (vm_compute; reflexivity). unfold str_lenN.
    assert ((N.of_nat maxRuntimeVariableValueLength <? N.of_nat (length (Input.Value i)))%N = false) as -> by
      (apply N.ltb_ge; rewrite Hmax; lia).
    apply IH. intros j Hj. apply Hall. by right. }
  rewrite Hok. cbn [check rbind]. unfold str_lenN, maxRuntimeEnvFileLength. rewrite Hlen.
  assert ((65536 <? N.of_nat (sum_list_with renderedRuntimeVariableSize out))%N = false) as -> by (apply N.ltb_ge; lia). done.
Qed.

(** variables that the API accepts can be deployed.  The normalized variables
    are those of the request with the keys trimmed, sorted and unique; the runner
    renders them without an error, the file has exactly the size that the API
    computed and compared with the limit of 65536 bytes, and reading it back gives
    every key with its value. *)
Theorem accepted_variables_deployable (vs out : list Input.t) (Haccept : normalizeProjectRuntimeVariables vs = inl out) :
  out ≡ₚ map trimmed vs /\ NoDup (map Input.Key out)
  /\ exists file, renderRuntimeEnvFile (map as_variable out) = inl file
       /\ length file = sum_list_with renderedRuntimeVariableSize out /\ (length file <= N.to_nat 65536)%nat
       /\ exists entries, read_env_file file = Some entries /\ entries ≡ₚ map (fun i => (Input.Key i, Input.Value i)) out.
Proof.
  destruct (normalized_spec vs out Haccept) as (Hp & _ & Hall & Hnd & Hsz). split; [exact Hp|]. split; [exact Hnd|].
  destruct (accepted_renders out Hall Hsz) as [Hr Hlen]. eexists. split; [exact Hr|]. split; [exact Hlen|].
  split; [lia|]. destruct (sorted_env_lines_perm (map as_variable out)) as (es & Hes & Elines).
  assert (Hvalid : List.filter isValidRuntimeVariable (map as_variable out) = map as_variable out).
  { clear -Hall. induction Hall as [|i out [Hk _] _ IH]; [done|]. cbn [map List.filter]. unfold isValidRuntimeVariable at 1.
    cbn [Key as_variable runtimeVar]. rewrite Hk. by f_equal. }
  rewrite Hvalid in Hes. exists (map (fun v => (Key v, drop_cr (Value v))) es). split.
  - unfold read_env_file. rewrite split_renderEnvFile, Elines. apply mapM_read_lines. intros v Hv. rewrite Hes in Hv.
    rewrite <- Hvalid in Hv. by apply list_elem_of_In, filter_In in Hv as [_ Hv].
  - rewrite Hes, map_map. apply reflexive_eq, map_ext_Forall. rewrite Forall_forall in Hall |- *. intros i Hi.
    destruct (Hall i Hi) as (_ & _ & _ & Hc & _). cbn [Key Value as_variable runtimeVar]. by rewrite control_free_cr.
Qed.
End Accepted.
