(* ===== verification/HttpGithubFacts.v ===== *)
(** * What the GitHub connector and the webhook guarantee

    Signatures, the name of the pushed repository, the repositories a finished build is
    deployed to, and the changed paths; then what a push deploys: the commit that was
    signed, to applications of its repository and branch. *)

From S2P Require Import Prelude GoStrings GoStringsFacts GoRegexp GoJson GoCrypto ShellSafety Db.
From S2P Require Import DbApplications GithubConnector HttpGithub GoNet StringUtil AuditLog DbHttp RemoteSteps.
From S2P Require Import ProxyCommands Effects Runner GoHttp HttpCore HttpGuardFacts HttpGuard HttpDeployments.
From S2P Require Import HttpDeploymentsFacts HttpBuilds.

(** ** Signatures *)

Lemma hex_rune_lower c : hex_rune (b2n (lower_byte c)) = hex_rune (b2n c).
Proof. destruct c as [b0 b1 b2 b3 b4 b5 b6 b7]; destruct b0, b1, b2, b3, b4, b5, b6, b7; reflexivity. Qed.

Lemma hex_decode_lower h : hex_DecodeString (map lower_byte h) = hex_DecodeString h.
Proof.
  assert (Hn : forall n h, (length h <= n)%nat -> hex_DecodeString (map lower_byte h) = hex_DecodeString h).
  2: by apply (Hn (length h)).
  clear h. induction n as [|n IH]; intros [|a [|b h]] Hl; try done; cbn [length] in Hl; [lia|].
  cbn [map hex_DecodeString]. by rewrite !hex_rune_lower, IH by lia.
Qed.

Lemma hex_decode_iff h s : hex_DecodeString h = Some s <-> map lower_byte h = hex_EncodeToString s.
Proof.
  split; [apply hex_decode_canonical|]. intros Hh. by rewrite <- hex_decode_lower, Hh, hex_decode_encode.
Qed.

Lemma hmac_Equal_eq a b : hmac_Equal a b = true <-> a = b.
Proof. apply str_eqb_eq. Qed.

(** A signature is accepted exactly when there is a secret and the signature,
    without surrounding white space, is [sha256=] and the 64 hexadecimal digits, in
    either case, of the HMAC-SHA256 of the body under that secret. *)
Theorem signature_accepted_iff secret body signature :
  VerifySignature secret body signature = true
  <-> TrimSpace secret <> [] /\ exists h, TrimSpace signature = lit "sha256=" ++ h /\ length h = 64%nat
        /\ map lower_byte h = hex_EncodeToString (hmac_sha256 (TrimSpace secret) body).
Proof.
  assert (Hlen : forall h s, map lower_byte h = hex_EncodeToString s -> length h = (2 * length s)%nat).
  { intros h s Hh. apply (f_equal length) in Hh. rewrite length_map in Hh. rewrite Hh. unfold hex_EncodeToString.
    clear Hh. induction s as [|c s IH]; [done|]. cbn [map concat length]. rewrite length_app, hex_fixed_length, IH. lia. }
  unfold VerifySignature. cbv zeta. destruct (TrimSpace secret =s []) eqn:Es.
  { apply str_eqb_eq in Es. cbn [orb]. split; [done|]. by intros [Hne _]. }
  apply str_eqb_neq in Es. cbn [orb]. destruct (TrimSpace signature =s []) eqn:Eg.
  { apply str_eqb_eq in Eg. split; [done|]. intros (_ & h & Hh & _). by rewrite Eg in Hh. }
  destruct (HasPrefix (TrimSpace signature) (lit "sha256=")) eqn:Ep; cbn [negb].
  2:{ split; [done|]. intros (_ & h & Hh & _). rewrite Hh, HasPrefix_app in Ep. done. }
  apply HasPrefix_true in Ep as (h & Hh). rewrite Hh. unfold TrimPrefix. rewrite HasPrefix_app, drop_app_length.
  destruct (hex_DecodeString h) as [actual|] eqn:Ed.
  - rewrite hmac_Equal_eq. apply hex_decode_iff in Ed. split.
    + intros ->. split; [exact Es|]. exists h. split; [done|]. split; [|exact Ed].
      rewrite (Hlen _ _ Ed). unfold hmac_sha256. by rewrite sha256_length.
    + intros (_ & h' & Hh' & _ & Hm). apply app_inv_head in Hh' as <-. apply hex_decode_iff in Ed, Hm. congruence.
  - split; [done|]. intros (_ & h' & Hh' & _ & Hm). apply app_inv_head in Hh' as <-. apply hex_decode_iff in Hm. congruence.
Qed.

(** ** Names of repositories *)

Definition repo_byte (c : ascii) : bool := repo_char (b2n c).
Definition repo_name (s : str) : Prop := s <> [] /\ forallb repo_byte s = true.

Lemma class_ascii w x : is_ascii w = true -> class w x = true -> (x < 128)%N.
Proof.
  intros Hw Hx. unfold class in Hx. apply existsb_exists in Hx as (c & Hc & Hcx).
  unfold is_ascii in Hw. rewrite forallb_forall in Hw. apply Hw, N.ltb_lt in Hc. apply N.eqb_eq in Hcx. lia.
Qed.

Lemma repo_char_ascii x : repo_char x = true -> (x < 128)%N.
Proof.
  unfold repo_char. intros [Hx|Hx]%orb_true_iff; [|by apply (class_ascii (lit "_.-"))].
  unfold is_alnum, is_alpha, is_upper_ascii, is_lower_ascii, is_digit, in_range in Hx.
  repeat apply orb_true_iff in Hx as [Hx|Hx]; apply andb_true_iff in Hx as [_ Hx]; apply N.leb_le in Hx; lia.
Qed.

Lemma repo_name_ascii s : repo_name s -> is_ascii s = true.
Proof.
  intros [_ Hs]. unfold is_ascii. rewrite forallb_forall in *. intros c Hc. apply N.ltb_lt, repo_char_ascii. exact (Hs c Hc).
Qed.

Lemma matches_part prev s v : matches repo_part prev (segs s) v <-> repo_name s.
Proof.
  unfold repo_part. rewrite matches_rep_segs. unfold within, repo_name, repo_byte. cbn [length].
  destruct s as [|c s]; cbn; intuition congruence.
Qed.

Lemma ascii_pattern_part : ascii_pattern repo_part.
Proof. exact repo_char_ascii. Qed.
#[local] Hint Resolve ascii_pattern_part : core.

Ltac ascii_pattern := repeat first [apply ascii_pattern_part | apply ascii_pattern_lit; reflexivity | split | done].

Definition full_name (owner name : str) : str := owner ++ lit "/" ++ name.
Definition ssh_url (name : str) : str := lit "git@github.com:" ++ name ++ lit ".git".
Definition https_url (name : str) : str := lit "https://github.com/" ++ name.

(** [owner/name], and what follows it. *)
Lemma matches_owner_name k prev s :
  matches (RSeq repo_part (RSeq (RLit false (lit "/")) (RSeq repo_part k))) prev (segs s) []
  <-> exists owner name rest prev', repo_name owner /\ repo_name name /\ s = full_name owner name ++ rest
        /\ matches k prev' (segs rest) [] /\ prev' = before prev (segs (full_name owner name)).
Proof.
  assert (Hb : forall owner name, before (before (before prev (segs owner)) (segs (lit "/"))) (segs name)
    = before prev (segs (full_name owner name))).
  { intros owner name. unfold full_name, segs. by rewrite !map_app, !before_app. }
  rewrite matches_seq_segs. split.
  - intros (owner & y & -> & Ho%matches_part & Hy). apply matches_seq_segs in Hy as (x & z & -> & Hx & Hz).
    apply matches_lit_segs in Hx as ->; [|done]. apply matches_seq_segs in Hz as (name & rest & -> & Hn%matches_part & Hk).
    rewrite Hb in Hk. exists owner, name, rest, (before prev (segs (full_name owner name))).
    split; [exact Ho|]. split; [exact Hn|]. split; [unfold full_name; by rewrite <- !app_assoc|]. by split.
  - intros (owner & name & rest & prev' & Ho & Hn & -> & Hk & ->). exists owner, (lit "/" ++ name ++ rest).
    split; [unfold full_name; by rewrite <- !app_assoc|]. split; [by apply matches_part|].
    apply matches_seq_segs. exists (lit "/"), (name ++ rest). split; [done|]. split; [by apply matches_lit_segs|].
    apply matches_seq_segs. exists name, rest. split; [done|]. split; [by apply matches_part|]. by rewrite Hb.
Qed.

Lemma matches_full_name s :
  matches full_name_body None (segs s) [] <-> exists owner name, repo_name owner /\ repo_name name /\ s = full_name owner name.
Proof.
  unfold full_name_body. cbn [RSeqs]. rewrite matches_seq_segs. split.
  - intros (owner & y & -> & Ho%matches_part & Hy). apply matches_seq_segs in Hy as (x & name & -> & Hx & Hn%matches_part).
    apply matches_lit_segs in Hx as ->; [|done]. by exists owner, name.
  - intros (owner & name & Ho & Hn & ->). exists owner, (lit "/" ++ name). split; [done|]. split; [by apply matches_part|].
    apply matches_seq_segs. exists (lit "/"), name. split; [done|]. split; [by apply matches_lit_segs|by apply matches_part].
Qed.

Lemma full_name_ascii owner name : repo_name owner -> repo_name name -> is_ascii (full_name owner name) = true.
Proof. intros Ho Hn. unfold full_name. by rewrite !is_ascii_app, (repo_name_ascii _ Ho), (repo_name_ascii _ Hn). Qed.

Definition is_full_name (s : str) : Prop := exists owner name, repo_name owner /\ repo_name name /\ s = full_name owner name.

Lemma MatchString_full_name s : MatchString (RSeqs [RBol; full_name_body; REol]) s = true <-> is_full_name s.
Proof.
  rewrite MatchString_ascii by ascii_pattern. rewrite matches_full_name. split; [by intros [_ ?]|].
  intros Hs. split; [|exact Hs]. destruct Hs as (owner & name & Ho & Hn & ->). by apply full_name_ascii.
Qed.

Lemma matches_ssh_remote s :
  matches ssh_remote None (segs s) [] <-> exists n, is_full_name n /\ s = ssh_url n.
Proof.
  unfold ssh_remote. cbn [RSeqs]. rewrite matches_seq_segs. split.
  - intros (x & y & -> & Hx & Hy). apply matches_lit_segs in Hx as ->; [|done].
    apply matches_owner_name in Hy as (owner & name & rest & prev' & Ho & Hn & -> & Hk & _).
    apply matches_lit_segs in Hk as ->; [|done]. exists (full_name owner name). split; [by exists owner, name|done].
  - intros (n & (owner & name & Ho & Hn & ->) & ->). exists (lit "git@github.com:"), (full_name owner name ++ lit ".git").
    split; [done|]. split; [by apply matches_lit_segs|]. apply matches_owner_name.
    exists owner, name, (lit ".git"), (before (before None (segs (lit "git@github.com:"))) (segs (full_name owner name))).
    split; [exact Ho|]. split; [exact Hn|]. split; [done|]. split; [by apply matches_lit_segs|done].
Qed.

Lemma matches_git_suffix prev s : matches (RAlt (RLit false (lit ".git")) REmpty) prev (segs s) [] <-> s = lit ".git" \/ s = [].
Proof.
  cbn [matches]. rewrite (matches_lit_segs (lit ".git")) by done. split; (intros [Hs|Hs]; [by left|right]).
  - by apply map_eq_nil in Hs.
  - by subst s.
Qed.

Lemma matches_https_remote s :
  matches https_remote None (segs s) [] <-> exists n, is_full_name n /\ (s = https_url n ++ lit ".git" \/ s = https_url n).
Proof.
  unfold https_remote. cbn [RSeqs]. rewrite matches_seq_segs. split.
  - intros (x & y & -> & Hx & Hy). apply matches_lit_segs in Hx as ->; [|done].
    apply matches_owner_name in Hy as (owner & name & rest & prev' & Ho & Hn & -> & Hk & _).
    apply matches_git_suffix in Hk. exists (full_name owner name). split; [by exists owner, name|].
    destruct Hk as [->| ->]; [by left|right]. by rewrite app_nil_r.
  - intros (n & (owner & name & Ho & Hn & ->) & Hs).
    assert (Hr : exists rest, (rest = lit ".git" \/ rest = []) /\ s = lit "https://github.com/" ++ full_name owner name ++ rest).
    { destruct Hs as [->| ->]; [exists (lit ".git")|exists []; rewrite app_nil_r]; (split; [tauto|]); done. }
    destruct Hr as (rest & Hrest & ->). exists (lit "https://github.com/"), (full_name owner name ++ rest).
    split; [done|]. split; [by apply matches_lit_segs|]. apply matches_owner_name.
    exists owner, name, rest, (before (before None (segs (lit "https://github.com/"))) (segs (full_name owner name))).
    split; [exact Ho|]. split; [exact Hn|]. split; [done|]. split; [by apply matches_git_suffix|done].
Qed.

(** The forms of a GitHub remote. *)
Definition remote_of (n s : str) : Prop := s = ssh_url n \/ s = https_url n \/ s = https_url n ++ lit ".git".

Lemma MatchString_remote s :
  MatchString (RSeqs [RBol; RAlt ssh_remote https_remote; REol]) s = true <-> exists n, is_full_name n /\ remote_of n s.
Proof.
  rewrite MatchString_ascii by ascii_pattern. cbn [matches]. rewrite matches_ssh_remote, matches_https_remote. unfold remote_of. split.
  - intros [_ [(n & Hn & ->)|(n & Hn & [->| ->])]]; exists n; tauto.
  - intros (n & Hn & Hs). split.
    + destruct Hn as (owner & name & Ho & Hn & ->).
      destruct Hs as [->|[->| ->]]; unfold ssh_url, https_url; by rewrite !is_ascii_app, (full_name_ascii _ _ Ho Hn).
    + destruct Hs as [->|[->| ->]]; [left|right|right]; exists n; tauto.
Qed.

Lemma repo_byte_not c s : repo_byte c = false -> forallb repo_byte s = true -> c ∉ s.
Proof. intros Hc Hs Hin. rewrite forallb_forall in Hs. apply list_elem_of_In, Hs in Hin. congruence. Qed.

Lemma ssh_url_trimmed n : is_ascii n = true -> TrimSpace (ssh_url n) = ssh_url n.
Proof.
  intros Hn. apply (TrimFunc_ascii_fixed is_space "g"%char (drop 1 (ssh_url n)) "t"%char (lit "git@github.com:" ++ n ++ lit ".gi"));
    [|reflexivity| |reflexivity].
  - change ("g"%char :: drop 1 (ssh_url n)) with (ssh_url n). unfold ssh_url. by rewrite !is_ascii_app, Hn.
  - change ("g"%char :: drop 1 (ssh_url n)) with (ssh_url n). unfold ssh_url. by rewrite <- !app_assoc.
Qed.

Lemma repo_of_ssh_url owner name : repo_name owner -> repo_name name ->
  repo_of_url (ssh_url (full_name owner name)) = Some (full_name owner name).
Proof.
  intros Ho Hn. unfold repo_of_url. rewrite (ssh_url_trimmed _ (full_name_ascii _ _ Ho Hn)).
  unfold ssh_url. rewrite app_assoc, TrimSuffix_app.
  assert (Hslash : slash ∉ name) by (apply (repo_byte_not slash name eq_refl), Hn).
  change (lit "git@github.com:" ++ full_name owner name) with ((lit "git@github.com:" ++ owner) ++ slash :: name).
  rewrite (LastIndexByte_last _ _ _ Hslash), slice_to_app, slice_from_app.
  assert (Hpos : (0 <? Z.of_nat (length (lit "git@github.com:" ++ owner)))%Z = true) by (apply Z.ltb_lt; rewrite length_app; cbn; lia).
  rewrite Hpos. rewrite LastIndexByte_absent.
  2:{ intros [Hin|Hin]%elem_of_app; [|by apply (repo_byte_not slash owner eq_refl (proj2 Ho)) in Hin].
      assert (Hf : existsb (fun c => bool_decide (c = slash)) (lit "git@github.com:") = true).
      { apply existsb_exists. exists slash. split; [by apply list_elem_of_In|by apply bool_decide_eq_true]. }
      vm_compute in Hf. done. }
  change (0 <=? -1)%Z with false. cbn iota.
  change (lit "git@github.com:" ++ owner) with (lit "git@github.com" ++ ":"%char :: owner).
  rewrite LastIndexByte_last by (apply (repo_byte_not ":"%char owner eq_refl), Ho). rewrite slice_from_app.
  destruct (Z.leb_spec 0 (Z.of_nat (length (lit "git@github.com")))); [done|cbn in *; lia].
Qed.

Lemma first_alias aliases values : head aliases <> None -> head (fold_left appendGitHubAlias values aliases) = head aliases.
Proof.
  revert aliases. induction values as [|v values IH]; intros aliases Ha; [done|]. cbn [fold_left].
  assert (Hh : head (appendGitHubAlias aliases v) = head aliases).
  { unfold appendGitHubAlias. destruct (negb _); [done|]. destruct (bool_decide _); [done|]. by destruct aliases. }
  rewrite IH; by rewrite Hh.
Qed.

(** ** The remote URLs of a push *)

Lemma alias_kept u values aliases : u ∈ aliases -> u ∈ fold_left appendGitHubAlias values aliases.
Proof.
  revert aliases. induction values as [|v values IH]; intros aliases Hu; [done|]. cbn [fold_left]. apply IH.
  unfold appendGitHubAlias. destruct (negb _); [done|]. destruct (bool_decide _); [done|]. apply elem_of_app. by left.
Qed.

Lemma alias_added u values aliases :
  u ∈ values -> MatchString githubRemotePattern u = true -> u ∈ fold_left appendGitHubAlias values aliases.
Proof.
  intros Hu Hm. revert aliases Hu. induction values as [|v values IH]; intros aliases Hu; [by apply not_elem_of_nil in Hu|].
  cbn [fold_left]. apply elem_of_cons in Hu as [->|Hu]; [|by apply IH]. apply alias_kept. unfold appendGitHubAlias. rewrite Hm.
  cbn [negb]. case_bool_decide; [done|]. apply elem_of_app. right. by apply list_elem_of_singleton.
Qed.

Lemma alias_remote u values aliases :
  (forall u, u ∈ aliases -> MatchString githubRemotePattern u = true) ->
  u ∈ fold_left appendGitHubAlias values aliases -> MatchString githubRemotePattern u = true.
Proof.
  revert aliases. induction values as [|v values IH]; intros aliases Ha Hu; [by apply Ha|].
  apply (IH (appendGitHubAlias aliases v)); [|exact Hu].
  intros w Hw. unfold appendGitHubAlias in Hw. destruct (MatchString githubRemotePattern v) eqn:Em; cbn [negb] in Hw; [|by apply Ha].
  destruct (bool_decide _); [by apply Ha|]. apply elem_of_app in Hw as [Hw| ->%list_elem_of_singleton]; [by apply Ha|exact Em].
Qed.

(** the repository of a push.  When GitHub names the repository [owner/name], the
    push carries the three remote URLs of that repository, nothing but remote URLs,
    and the repository whose connector entry and build run the webhook looks for is
    [owner/name]. *)
Theorem pushed_repository_found payload owner name
    (Howner : repo_name owner) (Hname : repo_name name)
    (Hfull : TrimSpace (PushRepository.FullName (PushPayload.Repository payload)) = full_name owner name) :
  let n := full_name owner name in
  let urls := repositoryAliases payload in
  githubRepoFromURLs urls = n /\ (forall u, remote_of n u -> u ∈ urls)
  /\ forall u, u ∈ urls -> exists m, is_full_name m /\ remote_of m u.
Proof.
  cbv zeta. set (n := full_name owner name) in *. assert (Hn : is_full_name n) by by exists owner, name.
  unfold repositoryAliases. rewrite Hfull.
  assert (Hv : validGitHubFullName n = true) by by apply MatchString_full_name. rewrite Hv.
  assert (Hr : forall u, remote_of n u -> MatchString githubRemotePattern u = true).
  { intros u Hu. apply MatchString_remote. by exists n. }
  split; [|split].
  - unfold githubRepoFromURLs. set (inner := fold_left appendGitHubAlias [_; _; _] []).
    assert (Hi : head inner = Some (ssh_url n)).
    { unfold inner. cbn [fold_left]. unfold appendGitHubAlias at 3. change (lit "git@github.com:" ++ n ++ lit ".git") with (ssh_url n).
      rewrite Hr by by left. cbn [negb]. rewrite bool_decide_eq_false_2 by by apply not_elem_of_nil.
      exact (first_alias [ssh_url n] [https_url n; https_url n ++ lit ".git"] ltac:(done)). }
    set (others := [_; _; _]). pose proof (first_alias inner others ltac:(by rewrite Hi)) as Hh. rewrite Hi in Hh.
    destruct (fold_left _ _ inner) as [|u rest]; [done|]. cbn [head] in Hh. injection Hh as ->.
    cbn [omap list_omap]. unfold n. by rewrite (repo_of_ssh_url owner name Howner Hname).
  - intros u Hu. apply alias_kept, alias_added; [|by apply Hr]. destruct Hu as [->|[->| ->]]; [left|right; left|right; right; left].
  - intros u Hu. apply MatchString_remote. refine (alias_remote u _ _ _ Hu). intros w. apply alias_remote.
    by intros x ?%not_elem_of_nil.
Qed.

(** ** The applications of a finished build *)

Definition like_special (r : rune) : bool := (r =? 37)%N || (r =? 95)%N || (r =? 92)%N.

Lemma like_literal p s : forallb (fun r => negb (like_special r)) p = true -> like p s = bool_decide (s = p).
Proof.
  revert s. induction p as [|c p IH]; intros s Hp; [by destruct s|].
  cbn [forallb] in Hp. apply andb_true_iff in Hp as [Hc Hp]. apply negb_true_iff in Hc.
  unfold like_special in Hc. apply orb_false_iff in Hc as [[Hc1 Hc2]%orb_false_iff Hc3]. cbn [like]. rewrite Hc1, Hc2, Hc3.
  destruct s as [|x s]; [done|]. rewrite (IH s Hp). destruct (N.eqb_spec x c) as [->|Hne]; cbn [andb].
  - apply bool_decide_ext. split; [by intros ->|by intros [= ->]].
  - symmetry. apply bool_decide_eq_false_2. by intros [= ? _].
Qed.

Lemma like_any p s : like (37%N :: p) s = true <-> exists a b, s = a ++ b /\ like p b = true.
Proof.
  assert (Hs : forall s, like (37%N :: p) s = like p s || match s with [] => false | _ :: t => like (37%N :: p) t end)
    by (intros []; reflexivity).
  induction s as [|x s IH]; rewrite Hs; clear Hs.
  - rewrite orb_false_r. split; [intros Hp; by exists [], []|]. intros (a & b & Hs & Hp). symmetry in Hs.
    apply app_eq_nil in Hs as [_ ->]. exact Hp.
  - rewrite orb_true_iff, IH. split.
    + intros [Hp|(a & b & -> & Hp)]; [by exists [], (x :: s)|by exists (x :: a), b].
    + intros ([|y a] & b & Hs & Hp); [left; by rewrite Hs|]. injection Hs as <- ->. right. by exists a, b.
Qed.

(** A name without the wildcard [_]. *)
Definition plain (n : str) : Prop := forallb (fun c => negb (like_special (b2n c))) n = true.

Lemma LIKE_suffix url w : is_ascii url = true -> is_ascii w = true -> plain w ->
  LIKE url (lit "%" ++ w) = true <-> exists a, url = a ++ w.
Proof.
  intros Hu Hw Hp. unfold LIKE. assert (Hr : runes (lit "%" ++ w) = 37%N :: map b2n w).
  { rewrite runes_ascii; [done|]. by rewrite is_ascii_app, Hw. }
  rewrite Hr, like_any, (runes_ascii _ Hu). split.
  - intros (a & b & Hs & Hl). rewrite like_literal in Hl by by rewrite forallb_map. apply bool_decide_eq_true in Hl as ->.
    apply map_eq_app in Hs as (x & y & -> & _ & Hy). exists x. f_equal.
    clear -Hy. revert w Hy. induction y as [|c y IH]; intros [|d w] Hy; try done. injection Hy as Hc Hy.
    by rewrite (b2n_inj _ _ Hc), (IH w Hy).
  - intros (a & ->). exists (map b2n a), (map b2n w). split; [by rewrite map_app|].
    rewrite like_literal by by rewrite forallb_map. by apply bool_decide_eq_true.
Qed.

(** The last occurrence of a byte splits a text in one way. *)
Lemma split_last {A} (c : A) a b a' b' : a ++ c :: b = a' ++ c :: b' -> c ∉ b -> c ∉ b' -> a = a' /\ b = b'.
Proof.
  revert a'. induction a as [|x a IH]; intros [|y a'] He Hb Hb'; cbn [app] in He.
  - by injection He as ->.
  - injection He as -> ->. exfalso. apply Hb. apply elem_of_app. right. by left.
  - injection He as -> <-. exfalso. apply Hb'. apply elem_of_app. right. by left.
  - injection He as -> He. by destruct (IH a' He Hb Hb') as [-> ->].
Qed.

Definition github_base (ssh : bool) : str := if ssh then lit "git@github.com:" else lit "https://github.com/".

Lemma remote_of_base n url : remote_of n url -> exists ssh ext, url = github_base ssh ++ n ++ ext /\ (ext = [] /\ ssh = false \/ ext = lit ".git").
Proof.
  intros [->|[->| ->]]; [exists true, (lit ".git")|exists false, []|exists false, (lit ".git")]; unfold ssh_url, https_url;
    rewrite ?app_nil_r, <- ?app_assoc; (split; [done|tauto]).
Qed.

Lemma no_slash_after_git name : repo_name name -> slash ∉ name ++ lit ".git".
Proof.
  intros [_ Hn]. apply (repo_byte_not slash _ eq_refl). rewrite forallb_app, Hn. reflexivity.
Qed.

(** A URL that ends in a separator and [owner/file]. *)
Lemma base_suffix ssh owner file a sep owner' file' :
  repo_name owner -> repo_name owner' -> slash ∉ file -> slash ∉ file' -> sep = slash \/ sep = ":"%char ->
  github_base ssh ++ owner ++ lit "/" ++ file = a ++ sep :: owner' ++ lit "/" ++ file' -> owner = owner' /\ file = file'.
Proof.
  intros [_ Ho] [_ Ho'] Hf Hf' Hsep He.
  assert (Hl : (github_base ssh ++ owner) ++ slash :: file = (a ++ sep :: owner') ++ slash :: file').
  { rewrite <- !app_assoc. cbn [app]. exact He. }
  apply split_last in Hl as [Hl ->]; [|exact Hf|exact Hf']. split; [|done].
  assert (Hso : slash ∉ owner) by by apply (repo_byte_not slash _ eq_refl).
  assert (Hso' : slash ∉ owner') by by apply (repo_byte_not slash _ eq_refl).
  assert (Hco : ":"%char ∉ owner) by by apply (repo_byte_not ":"%char _ eq_refl).
  assert (Hco' : ":"%char ∉ owner') by by apply (repo_byte_not ":"%char _ eq_refl).
  destruct ssh; cbn [github_base] in Hl.
  - change (lit "git@github.com:" ++ owner) with (lit "git@github.com" ++ ":"%char :: owner) in Hl.
    destruct Hsep as [->| ->]; [|by apply split_last in Hl as [_ ->]]. exfalso.
    assert (Hin : slash ∈ lit "git@github.com" ++ ":"%char :: owner) by (rewrite Hl; apply elem_of_app; right; by left).
    apply elem_of_app in Hin as [Hin|[Hin|Hin]%elem_of_cons]; [|discriminate Hin|done].
    apply list_elem_of_In in Hin. cbn in Hin. intuition discriminate.
  - change (lit "https://github.com/" ++ owner) with (lit "https://github.com" ++ slash :: owner) in Hl.
    destruct Hsep as [->| ->]; [by apply split_last in Hl as [_ ->]|]. exfalso.
    change (lit "https://github.com" ++ slash :: owner) with (lit "https" ++ ":"%char :: lit "//github.com/" ++ owner) in Hl.
    apply split_last in Hl as [_ Hl]; [apply Hso'; rewrite <- Hl; by left| |exact Hco'].
    intros [Hin|Hin]%elem_of_app; [|done]. apply list_elem_of_In in Hin. cbn in Hin. intuition discriminate.
Qed.

(** The four patterns: a separator, the name, perhaps [.git]. *)
Lemma of_repository_forms n url : is_ascii url = true -> is_ascii n = true -> plain n ->
  of_repository n url = true <-> exists sep ext a, (sep = slash \/ sep = ":"%char) /\ (ext = [] \/ ext = lit ".git")
    /\ url = a ++ [sep] ++ n ++ ext.
Proof.
  intros Hun Hn Hplain.
  assert (Hlike : forall sep ext, sep = slash \/ sep = ":"%char -> ext = [] \/ ext = lit ".git" ->
    LIKE url (lit "%" ++ [sep] ++ n ++ ext) = true <-> exists a, url = a ++ [sep] ++ n ++ ext).
  { intros sep ext Hs He. apply LIKE_suffix; [exact Hun| |].
    - rewrite !is_ascii_app, Hn. destruct Hs as [->| ->], He as [->| ->]; reflexivity.
    - unfold plain in *. rewrite !forallb_app, Hplain. destruct Hs as [->| ->], He as [->| ->]; reflexivity. }
  unfold of_repository. rewrite !orb_true_iff.
  pose proof (Hlike slash (lit ".git") ltac:(tauto) ltac:(tauto)) as Hsg. pose proof (Hlike slash [] ltac:(tauto) ltac:(tauto)) as Hs.
  pose proof (Hlike ":"%char (lit ".git") ltac:(tauto) ltac:(tauto)) as Hcg. pose proof (Hlike ":"%char [] ltac:(tauto) ltac:(tauto)) as Hc.
  rewrite app_nil_r in Hs, Hc.
  change (lit "%/" ++ n ++ lit ".git") with (lit "%" ++ [slash] ++ n ++ lit ".git").
  change (lit "%/" ++ n) with (lit "%" ++ [slash] ++ n). change (lit "%:" ++ n ++ lit ".git") with (lit "%" ++ [":"%char] ++ n ++ lit ".git").
  change (lit "%:" ++ n) with (lit "%" ++ [":"%char] ++ n). rewrite Hsg, Hs, Hcg, Hc. split.
  - intros [[[[a Ha]|[a Ha]]|[a Ha]]|[a Ha]]; [exists slash, (lit ".git"), a|exists slash, [], a|exists ":"%char, (lit ".git"), a|exists ":"%char, [], a];
      rewrite ?app_nil_r; tauto.
  - intros (sep & ext & a & [->| ->] & [->| ->] & Ha); rewrite ?app_nil_r in Ha; [left; left; right|left; left; left|right|left; right]; by exists a.
Qed.

Lemma of_repository_remote n m url :
  is_full_name n -> plain n -> HasSuffix n (lit ".git") = false -> is_full_name m -> remote_of m url ->
  of_repository n url = true <-> remote_of n url.
Proof.
  intros Hn Hplain Hgit Hm Hurl. pose proof Hn as (owner & name & Ho & Hname & En). pose proof Hm as (owner' & name' & Ho' & Hname' & Em).
  assert (Hun : is_ascii url = true).
  { apply remote_of_base in Hurl as (ssh & ext & -> & Hext). rewrite !is_ascii_app, Em, (full_name_ascii _ _ Ho' Hname').
    destruct ssh; destruct Hext as [[-> _]| ->]; reflexivity. }
  rewrite of_repository_forms; [|exact Hun|rewrite En; by apply full_name_ascii|exact Hplain]. split.
  - intros (sep & ext & a & Hsep & Hext & Ha).
    apply remote_of_base in Hurl as (ssh & ext' & Hu & Hext'). rewrite Hu, En, Em in Ha. unfold full_name in Ha. rewrite <- !app_assoc in Ha.
    destruct (base_suffix ssh owner' (name' ++ ext') a sep owner (name ++ ext) Ho' Ho) as [<- Hfile]; try done.
    + destruct Hext' as [[-> _]| ->]; [rewrite app_nil_r; by apply (repo_byte_not slash _ eq_refl), Hname'|by apply no_slash_after_git].
    + destruct Hext as [->| ->]; [rewrite app_nil_r; by apply (repo_byte_not slash _ eq_refl), Hname|by apply no_slash_after_git].
    + assert (Eu : url = github_base ssh ++ n ++ ext).
      { rewrite Hu, En, Em. unfold full_name. by rewrite <- !app_assoc, Hfile. }
      destruct ssh, Hext as [->| ->]; rewrite ?app_nil_r in *; unfold remote_of.
      * destruct Hext' as [[_ [=]]| ->]. exfalso. assert (Hs : HasSuffix n (lit ".git") = true).
        { apply HasSuffix_true. exists (owner' ++ lit "/" ++ name'). rewrite En. unfold full_name. by rewrite <- Hfile, <- !app_assoc. }
        congruence.
      * by left.
      * right; by left.
      * right; right. rewrite Eu. unfold https_url. by rewrite <- app_assoc.
  - intros [->|[->| ->]]; [exists ":"%char, (lit ".git"), (lit "git@github.com")|exists slash, [], (lit "https://github.com")
      |exists slash, (lit ".git"), (lit "https://github.com")]; rewrite ?app_nil_r; (split; [tauto|]); (split; [tauto|]);
      unfold ssh_url, https_url; by rewrite <- ?app_assoc.
Qed.

(** where a finished build goes that was started for no particular application.
    When the name of its repository holds no underscore and does not end in [.git],
    the applications listed for it are exactly those that deploy on push, follow its
    branch and have one of the remote URLs of that repository, whatever the
    constraints of the table let the URL be. *)
Theorem build_goes_to_its_repository branch n db apps db'
    (Hn : is_full_name n) (Hplain : plain n) (Hgit : HasSuffix n (lit ".git") = false)
    (Hrows : forall a, a ∈ applications db -> repository_check (Application.RepositoryUrl a) = true)
    (Hlist : ListApplicationsForBuildComplete branch n db = inl (apps, db')) :
  db' = db /\ forall a, a ∈ apps <-> a ∈ applications db /\ Application.Branch a = branch /\ Application.GithubAutoDeploy a = true
    /\ Valid (Application.RepositoryUrl a) = true /\ remote_of n (String' (Application.RepositoryUrl a)).
Proof.
  unfold ListApplicationsForBuildComplete in Hlist. destruct (negb _); [done|]. injection Hlist as <- <-. split; [done|].
  intros a. rewrite merge_sort_Permutation, list_elem_of_In, filter_In, <- list_elem_of_In, !andb_true_iff, str_eqb_eq.
  assert (Hof : a ∈ applications db -> Valid (Application.RepositoryUrl a) = true ->
    of_repository n (String' (Application.RepositoryUrl a)) = true <-> remote_of n (String' (Application.RepositoryUrl a))).
  { intros Ha Hv. pose proof (Hrows a Ha) as Hc. unfold repository_check, nullable in Hc. rewrite Hv in Hc. cbn [negb orb] in Hc.
    apply MatchString_remote in Hc as (m & Hm & Hmu). by apply (of_repository_remote n m). }
  split; [intros (Ha & [[? ?] Hv] & Ho)|intros (Ha & ? & ? & Hv & Ho)]; specialize (Hof Ha Hv); tauto.
Qed.

(** An underscore in the name of the repository is a wildcard: a build of
    [acme/my_app] is deployed to an application of [acme/my-app]. *)
Example underscore_is_a_wildcard :
  of_repository (lit "acme/my_app") (lit "git@github.com:acme/my-app.git") = true.
Proof. vm_compute. reflexivity. Qed.

(** * What a push and a finished build can deploy

    The webhook creates deployments only for a signed push that was not delivered
    before, of the applications that the push concerns and at the commit that was
    pushed.  A build is deployed by the request that turns it to succeeded and by no
    later one. *)

Section Webhook.
Context `{UnicodeTables} `{UuidLib} `{SshLib} `{FoldTable}.

(** Calls that create no deployment, or only one with these parameters. *)
Definition creates_only (P : Params.t -> Prop) X (e : apiE X) : Prop :=
  match e with QCreateDeployment arg => P arg | _ => True end.
Definition creates_none : forall X, apiE X -> Prop := creates_only (fun _ => False).

Lemma creates_weaken {A} (P : Params.t -> Prop) (p : H A) : only creates_none p -> only (creates_only P) p.
Proof. apply only_weaken. intros X e. by destruct e. Qed.

Lemma none_audit r action kind id name metadata : only creates_none (audit r action kind id name metadata).
Proof. by repeat split. Qed.
Lemma none_writeError err : only creates_none (writeError err).
Proof. unfold writeError. by destruct (error_response err). Qed.

Lemma none_enqueue d : only creates_none (enqueueDeployment d).
Proof.
  unfold enqueueDeployment. apply only_bind; [by repeat split|]. intros [err|]; [|done]. apply only_bind; [|done].
  unfold markDeploymentEnqueueFailed. apply only_bind; [by repeat split|done].
Qed.

Lemma none_skip_build r application err push : only creates_none (skip_build r application err push).
Proof. apply only_bind; [apply none_audit|done]. Qed.

Lemma none_dispatch cfg r application push : only creates_none (tryBuildDispatch cfg r application push).
Proof.
  unfold tryBuildDispatch. destruct (negb _); [done|]. apply only_bind; [by repeat split|]. intros [accounts|err]; [|done].
  destruct (_ =s _); [done|].
  generalize false at 1 as owned. generalize false as source. induction accounts as [|account t IH]; intros source owned;
    cbn [dispatch_accounts]; [done|]. destruct (_ || _); [apply IH|].
  destruct (githubConnectorBuildTarget _ _ _ _ _) as [[repo [|]]|err]; [|apply IH|apply none_skip_build].
  destruct (_ =s _); [apply IH|]. destruct (_ =s _); [apply none_skip_build|]. destruct (_ =s _); [apply IH|].
  unfold start_build. destruct (validateGitHubBuildDispatchRequest _); [apply none_skip_build|].
  apply only_bind; [by repeat split|]. intros [build|err]; [|done]. apply only_bind; [|done].
  unfold dispatch_build. apply only_bind; [by repeat split|]. intros [err|]; (apply only_bind; [by repeat split|done]).
Qed.

(** The parameters of a deployment of one of the applications. *)
Definition concerns (push : Push.t) (applications : list Application.t) (arg : Params.t) : Prop :=
  exists app, app ∈ applications /\ validateBlueGreenHealthCheck (Application.HealthCheckUrl app) = None
    /\ push_deployment_input app push = inl arg.

Lemma push_application_creates cfg r push application :
  only (creates_only (concerns push [application])) (push_application cfg r push application).
Proof.
  assert (Hskip : forall err, only (creates_only (concerns push [application])) (skip_push r application err push)).
  { intros err. apply creates_weaken, only_bind; [apply none_audit|done]. }
  unfold push_application. destruct (validateBlueGreenHealthCheck _) eqn:Eh; [apply Hskip|].
  apply only_bind; [apply creates_weaken, none_dispatch|]. intros [dispatched [|]]; [done|].
  destruct (_ =s _); [apply Hskip|]. destruct (push_deployment_input application push) as [input|err] eqn:Ei; [|apply Hskip].
  unfold deploy_push. apply only_bind; [apply only_call; exists application; split; [by left|by split]|].
  intros [d|err]; [|done]. apply only_bind; [apply creates_weaken, none_enqueue|]. intros [err|]; [|done].
  apply only_bind; [apply creates_weaken, none_audit|done].
Qed.

Lemma push_applications_create cfg r push applications :
  only (creates_only (concerns push applications)) (push_applications cfg r push applications).
Proof.
  induction applications as [|application t IH]; cbn [push_applications]; [done|].
  assert (Hmore : forall l arg, (forall a, a ∈ l -> a ∈ application :: t) -> concerns push l arg -> concerns push (application :: t) arg).
  { intros l arg Hl (a & Ha & Hc). exists a. split; [by apply Hl|exact Hc]. }
  apply only_bind.
  - refine (only_weaken _ _ _ _ (push_application_creates cfg r push application)).
    intros X e. destruct e; try done. apply Hmore. intros a ->%list_elem_of_singleton. by left.
  - assert (Hrest : only (creates_only (concerns push (application :: t))) (push_applications cfg r push t)).
    { refine (only_weaken _ _ _ _ IH). intros X e. destruct e; try done. apply Hmore. intros a Ha. by right. }
    intros [entry|build|d|err]; [..|done]; (apply only_bind; [exact Hrest|done]).
Qed.

(** ** Finding the calls of a run *)

Lemma only_event {A} P (p : H A) tr a X (e : apiE X) x :
  only P p -> runs p tr a -> Ev e x ∈ tr -> P X e.
Proof.
  intros Hp Hr Hin. pose proof (only_runs _ _ _ _ Hp Hr) as Hall. rewrite Forall_forall in Hall. exact (Hall _ Hin).
Qed.

(** What comes before a call that creates a deployment, when it is not part of [p]. *)
Lemma runs_bind_creates {A B} (p : H A) (f : A -> H B) tr b arg x :
  only creates_none p -> runs (pbind p f) tr b -> Ev (QCreateDeployment arg) x ∈ tr ->
  exists tr1 a tr2, tr = tr1 ++ tr2 /\ runs p tr1 a /\ runs (f a) tr2 b /\ Ev (QCreateDeployment arg) x ∈ tr2.
Proof.
  intros Hp (tr1 & a & tr2 & -> & Hr1 & Hr2)%runs_bind Hin. exists tr1, a, tr2. split; [done|]. split; [done|]. split; [done|].
  apply elem_of_app in Hin as [Hin|Hin]; [|exact Hin]. by destruct (only_event _ _ _ _ _ _ _ Hp Hr1 Hin).
Qed.

Lemma handle_push_creates cfg r push tr u arg x :
  runs (handle_push cfg r push) tr u -> Ev (QCreateDeployment arg) x ∈ tr ->
  exists apps, Ev (QListApplicationsForGitHubPush (Push.Branch push) (Push.Repositories push)) (inl apps) ∈ tr
    /\ concerns push apps arg.
Proof.
  intros Hr Hin. assert (Hq : only creates_none (call (QListApplicationsForGitHubPush (Push.Branch push) (Push.Repositories push)))) by done.
  apply (runs_bind_creates _ _ _ _ _ _ Hq Hr) in Hin as (tr1 & res & tr2 & -> & Hr1 & Hr2 & Hin).
  apply runs_call in Hr1 as ->. destruct res as [apps|err].
  2:{ by destruct (only_event _ _ _ _ _ _ _ (none_writeError err) Hr2 Hin). }
  exists apps. split; [by left|].
  refine (only_event (creates_only (concerns push apps)) _ _ _ _ _ _ _ Hr2 Hin).
  apply only_bind; [apply push_applications_create|]. intros [[[queued builds] skipped]|err].
  - apply only_bind; [by repeat split|]. intros _. apply creates_weaken, none_audit.
  - apply creates_weaken, none_writeError.
Qed.

Lemma blank_blankString s : blankTextAsNull (trimmed_text (blankStringAsText s)) = blankStringAsText s.
Proof.
  unfold blankStringAsText. destruct (TrimSpace s =s []) eqn:E; [done|]. unfold blankTextAsNull, trimmed_text, someText. cbn [String' Valid].
  by rewrite !TrimSpace_idem, E.
Qed.

Lemma push_input_fields app push arg : push_deployment_input app push = inl arg ->
  arg = Params.mk (lit "github_push") (lit "blue_green") (blankStringAsText (Push.CommitSHA push)) textNull textNull
          (blankStringAsText (Push.Actor push)) (Application.ID app).
Proof.
  unfold push_deployment_input, normalizeCreateDeployment. cbv zeta. rewrite !blank_blankString.
  change (TrimSpace (lit "github_push")) with (lit "github_push"). change (TrimSpace (lit "blue_green")) with (lit "blue_green").
  change (blankTextAsNull textNull) with textNull.
  intros Hn. apply guard_true in Hn as [_ Hn]. cbn iota in Hn.
  repeat match type of Hn with (if ?c then inr _ else _) = inl _ => destruct c; [discriminate Hn|] end.
  by injection Hn as <-.
Qed.

Lemma sees_before cfg r tr seen : runs (seen_before cfg r) tr seen -> has_replays cfg = true ->
  tr = [Ev (CSeen (Header r (lit "X-GitHub-Delivery"))) seen].
Proof. unfold seen_before. intros Hr Hc. rewrite Hc in Hr. by apply runs_call in Hr. Qed.

(** C8: whatever the database and the queue answer, a webhook request creates a
    deployment only if it is a signed push that the replay cache had not seen, of a
    branch that was not deleted; the deployment is one of an application that the
    database listed for the pushed branch and repository, whose health check allows
    a deployment, at the commit that was pushed and in the name of who pushed it. *)
Theorem webhook_deploys_what_was_pushed cfg r tr u arg x
    (Hrun : runs (githubWebhook cfg r) tr u) (Hcreated : Ev (QCreateDeployment arg) x ∈ tr) :
  VerifySignature (Secret cfg) (Body r) (Header r (lit "X-Hub-Signature-256")) = true
  /\ (has_replays cfg = true -> Ev (CSeen (Header r (lit "X-GitHub-Delivery"))) false ∈ tr)
  /\ exists push apps app,
       ParsePush (Body r) = inl push /\ Push.Deleted push = false
       /\ Ev (QListApplicationsForGitHubPush (Push.Branch push) (Push.Repositories push)) (inl apps) ∈ tr
       /\ app ∈ apps /\ validateBlueGreenHealthCheck (Application.HealthCheckUrl app) = None
       /\ arg = Params.mk (lit "github_push") (lit "blue_green") (blankStringAsText (Push.CommitSHA push)) textNull textNull
                  (blankStringAsText (Push.Actor push)) (Application.ID app).
Proof.
  assert (Hfail : forall (p : H unit) tr', runs p tr' u -> Ev (QCreateDeployment arg) x ∈ tr' -> only creates_none p -> False).
  { intros p tr' Hr Hin Hp. exact (only_event _ _ _ _ _ _ _ Hp Hr Hin). }
  unfold githubWebhook, read_body in Hrun. destruct (_ <? _)%nat; [destruct (Hfail _ _ Hrun Hcreated (none_writeError _))|].
  destruct (VerifySignature _ _ _); cbn [negb] in Hrun; [|by destruct (Hfail _ _ Hrun Hcreated)].
  split; [done|].
  assert (Hseen : only creates_none (seen_before cfg r)) by (unfold seen_before; by destruct (has_replays cfg)).
  apply (runs_bind_creates _ _ _ _ _ _ Hseen Hrun) in Hcreated as (tr1 & seen & tr2 & -> & Hr1 & Hr2 & Hin). clear Hrun.
  destruct seen; [by destruct (Hfail _ _ Hr2 Hin)|].
  split; [intros Hc; rewrite (sees_before _ _ _ _ Hr1 Hc); by left|].
  unfold github_event in Hr2. destruct (normalizeGitHubEvent _) as [event|err]; [|destruct (Hfail _ _ Hr2 Hin (none_writeError _))].
  destruct (_ =s _); [by destruct (Hfail _ _ Hr2 Hin)|].
  destruct (negb _); [by destruct (Hfail _ _ Hr2 Hin)|].
  unfold github_push in Hr2. destruct (ParsePush _) as [push|err]; [|destruct (Hfail _ _ Hr2 Hin (none_writeError _))].
  destruct (Push.Deleted push) eqn:Ed; [by destruct (Hfail _ _ Hr2 Hin)|].
  destruct (validateGitHubPushBranch _); [destruct (Hfail _ _ Hr2 Hin (none_writeError _))|].
  destruct (_ && _); [destruct (Hfail _ _ Hr2 Hin (none_writeError _))|].
  apply (handle_push_creates _ _ _ _ _ _ _ Hr2) in Hin as (apps & Hlist & app & Happ & Hh & Hi).
  exists push, apps, app. split; [done|]. split; [exact Ed|]. split; [apply elem_of_app; by right|].
  split; [exact Happ|]. split; [exact Hh|]. by apply push_input_fields.
Qed.
End Webhook.
