(* ===== verification/HttpBuildsFacts.v ===== *)
(** * A build is deployed at most once

    First what the statements leave alone: most write one table, so the build runs and
    the inventory stay as they are, which the invariants of both use.  Then the report of
    a finished build: only the first success deploys. *)

From S2P Require Import Prelude GoStrings GoRegexp GoJson GoNet StringUtil AuditLog Db.
From S2P Require Import DbHttp DbApplications DbServers DbInventory DbProjects Lifecycle RemoteSteps ProxyCommands.
From S2P Require Import Effects Runner Queue RunnerFacts Engine QueueFacts GoHttp HttpCore.
From S2P Require Import HttpGuard HttpDeployments HttpBuilds GithubConnector HttpGithub HttpGithubFacts HttpEngine.

(** A statement leaves a part of the database alone; identifiers are only taken. *)
Definition keeps {A V} (part : database -> V) (q : query A) : Prop :=
  forall db a db', q db = inl (a, db') -> part db' = part db /\ (uuid_supply db <= uuid_supply db')%nat.

(** The build runs and the inventory: the tables that few statements write. *)
Definition side_tables (db : database) : list BuildRun.t * inventory_tables := (build_runs db, inventory db).

Lemma keeps_part {A V} (part : list BuildRun.t * inventory_tables -> V) (q : query A) :
  keeps side_tables q -> keeps (fun db => part (side_tables db)) q.
Proof. intros Hq db a db' He. destruct (Hq _ _ _ He) as [E L]. by rewrite E. Qed.

(** Decomposes a statement that reads, or writes other tables. *)
Ltac keeps_tac :=
  let db := fresh "db" in let a := fresh "a" in let db' := fresh "db'" in let Hq := fresh "Hq" in
  intros db a db' Hq; cbv zeta beta in Hq;
  repeat match type of Hq with
  | rbind _ _ = inl _ => let x := fresh "x" in let Hx := fresh "Hx" in apply rbind_ok in Hq as (x & Hx & Hq); cbv beta in Hq
  | (let '(_, _) := ?x in _) = inl _ => destruct x eqn:?; cbv beta iota in Hq
  | match ?x with _ => _ end = inl _ => destruct x eqn:?; try discriminate Hq
  end;
  try discriminate Hq; injection Hq as ? ?; subst; cbn; (split; [reflexivity|lia]).
Create HintDb keeps discriminated.
Ltac keeps_statement :=
  match goal with
  | |- keeps _ ?q => first [solve [eauto with keeps nocore]
      | solve [refine (keeps_part fst _ _); eauto with keeps nocore]
      | solve [refine (keeps_part snd _ _); eauto with keeps nocore]
      | let rec hd t := lazymatch t with ?f _ => hd f | _ => t end in
      let f := hd q in unfold f; unfold update_application, mark_route, GetProject; keeps_tac]
  end.

Section Statements.
Context `{UnicodeTables} `{UuidLib} `{UuidSource}.

Lemma store_deployments_side db t written db' : store_deployments db t written = inl db' ->
  side_tables db' = side_tables db /\ uuid_supply db' = uuid_supply db.
Proof. unfold store_deployments. destruct (negb _); [done|]. destruct (negb _); [done|]. by intros [= <-]. Qed.

Lemma keeps_update_deployment cond set : keeps side_tables (update_deployment cond set).
Proof.
  intros db a db'. unfold update_deployment. destruct (sql_update _ _ _) as [t rows]. intros Hq.
  apply rbind_ok in Hq as (db1 & Hs & Hq). apply rbind_ok in Hq as (d & _ & [= _ <-]).
  apply store_deployments_side in Hs as [Eb Es]. split; [done|]. by rewrite Es.
Qed.

Lemma keeps_CreateDeployment arg : keeps side_tables (CreateDeployment arg).
Proof.
  intros db a db'. unfold CreateDeployment. destruct (negb _); [done|]. cbv zeta. destruct (_ ≫= _) as [[app p]|]; [|done].
  intros Hq. apply rbind_ok in Hq as (db1 & Hs & [= _ <-]). apply store_deployments_side in Hs as [Eb _].
  split; [exact Eb|]. cbn. lia.
Qed.
Lemma keeps_SetDeploymentCommitSHA id sha m : keeps side_tables (SetDeploymentCommitSHA id sha m).
Proof. intros db a db'. unfold SetDeploymentCommitSHA. destruct (negb _); [done|]. apply keeps_update_deployment. Qed.

Lemma keeps_StartQueuedDeployment id : keeps side_tables (StartQueuedDeployment id).
Proof. intros db a db'. apply keeps_update_deployment. Qed.
Lemma keeps_CancelQueuedDeployment id : keeps side_tables (CancelQueuedDeployment id).
Proof. intros db a db'. apply keeps_update_deployment. Qed.
Lemma keeps_UpdateDeploymentStatus id status : keeps side_tables (UpdateDeploymentStatus id status).
Proof. intros db a db'. apply keeps_update_deployment. Qed.

Lemma keeps_AppendAuditEvent arg : keeps side_tables (AppendAuditEvent arg).
Proof. unfold AppendAuditEvent. keeps_tac. Qed.
Lemma keeps_AppendDeploymentLog id s m : keeps side_tables (AppendDeploymentLog id s m).
Proof. unfold AppendDeploymentLog. keeps_tac. Qed.
Lemma keeps_ActivateDeploymentSlot c a s : keeps side_tables (ActivateDeploymentSlot c a s).
Proof. unfold ActivateDeploymentSlot. keeps_tac. Qed.
Lemma keeps_UpsertDeploymentSlot arg : keeps side_tables (UpsertDeploymentSlot arg).
Proof. unfold UpsertDeploymentSlot. keeps_tac. Qed.
Lemma keeps_PromoteProxyRoutes ids urls : keeps side_tables (PromoteProxyRoutes ids urls).
Proof. unfold PromoteProxyRoutes. keeps_tac. Qed.

Lemma store_application_table a db t x db' : store_application a db t = inl (x, db') -> db' = with_applications db t.
Proof. unfold store_application. destruct (negb _); [done|]. destruct (application_keys _ _); [done|]. by intros [= _ <-]. Qed.

Lemma keeps_CreateApplication arg : keeps side_tables (CreateApplication arg).
Proof.
  intros db a db' Hq. destruct arg. unfold CreateApplication in Hq. destruct (negb _); [done|].
  apply rbind_ok in Hq as ([x db1] & Hx & Hq). injection Hq as _ <-. apply store_application_table in Hx as ->. split; [done|cbn; lia].
Qed.
Lemma keeps_UpdateApplication arg : keeps side_tables (UpdateApplication arg).
Proof.
  intros db a db' Hq. unfold UpdateApplication in Hq. destruct (negb _); [done|]. destruct (sql_update _ _ _) as [t rows].
  apply rbind_ok in Hq as (x & _ & Hq). apply store_application_table in Hq as ->. split; [done|cbn; lia].
Qed.

Lemma keeps_store_account set fresh db a db' : store_account set fresh db = inl (a, db') ->
  side_tables db' = side_tables db /\ (uuid_supply db <= uuid_supply db')%nat.
Proof. revert db a db'. change (keeps side_tables (store_account set fresh)). unfold store_account. keeps_tac. Qed.
Lemma keeps_UpsertConnectorAccount arg : keeps side_tables (UpsertConnectorAccount arg).
Proof. intros db a db'. destruct arg. unfold UpsertConnectorAccount. destruct (negb _); [done|]. apply keeps_store_account. Qed.
Lemma keeps_MarkConnectorSync arg : keeps side_tables (MarkConnectorSync arg).
Proof. intros db a db'. destruct arg. unfold MarkConnectorSync. destruct (negb _); [done|]. apply keeps_store_account. Qed.

Lemma keeps_store_projects p t : keeps side_tables (fun db => store_projects p db (t db)).
Proof. unfold store_projects. keeps_tac. Qed.
Lemma keeps_update_project id set : keeps side_tables (update_project id set).
Proof.
  intros db a db' Hq. unfold update_project in Hq. destruct (sql_update _ _ _) as [t rows]. apply rbind_ok in Hq as (p & _ & Hq).
  exact (keeps_store_projects p (fun _ => t) _ _ _ Hq).
Qed.
Lemma keeps_UpdateProject arg : keeps side_tables (UpdateProject arg).
Proof. intros db a db'. destruct arg. unfold UpdateProject. destruct (negb _); [done|]. apply keeps_update_project. Qed.
Lemma keeps_UpdateProjectRegistry registry id : keeps side_tables (UpdateProjectRegistry registry id).
Proof. intros db a db'. apply keeps_update_project. Qed.
Lemma keeps_UpdateProjectRepository arg : keeps side_tables (UpdateProjectRepository arg).
Proof. intros db a db'. destruct arg. unfold UpdateProjectRepository. destruct (negb _); [done|]. apply keeps_update_project. Qed.
Lemma keeps_insert_environment e : keeps side_tables (insert_environment e).
Proof. unfold insert_environment. keeps_tac. Qed.
Lemma keeps_CreateEnvironment arg : keeps side_tables (CreateEnvironment arg).
Proof. intros db a db'. destruct arg. unfold CreateEnvironment. destruct (negb _); [done|]. apply keeps_insert_environment. Qed.
Lemma keeps_CreateProject arg : keeps side_tables (CreateProjectWithDefaultEnvironments arg).
Proof.
  intros db a db' Hq. destruct arg. unfold CreateProjectWithDefaultEnvironments in Hq. cbv zeta in Hq. destruct (negb _); [done|].
  apply rbind_ok in Hq as ([p db1] & Hp & Hq). apply (keeps_store_projects _ (fun _ => _) _ _ _) in Hp as [E1 L1].
  apply rbind_ok in Hq as ([e db2] & He & [= _ <-]). apply keeps_insert_environment in He as [E2 L2]. cbn in L2.
  split; [|lia]. rewrite E2. exact E1.
Qed.
Lemma keeps_UpdateComposeServices v id : keeps side_tables (UpdateApplicationComposeServices v id).
Proof.
  intros db a db' Hq. unfold UpdateApplicationComposeServices in Hq. destruct (sql_update _ _ _) as [t rows].
  apply rbind_ok in Hq as (x & _ & Hq). destruct (_ <? _)%Z; [done|]. apply store_application_table in Hq as ->. split; [done|cbn; lia].
Qed.

Lemma keeps_then {A B V} (part : database -> V) (q : query A) (k : A -> query B) : keeps part q -> (forall a, keeps part (k a)) ->
  keeps part (fun db => let? (a, db') := q db in k a db').
Proof.
  intros Hq Hk db b db' He. apply rbind_ok in He as ([a db1] & Ha & He). apply Hq in Ha as [E1 L1].
  apply Hk in He as [E2 L2]. split; [by rewrite E2|lia].
Qed.
End Statements.

#[export] Hint Resolve keeps_StartQueuedDeployment keeps_CancelQueuedDeployment
  keeps_UpdateDeploymentStatus keeps_CreateDeployment keeps_SetDeploymentCommitSHA keeps_AppendAuditEvent
  keeps_AppendDeploymentLog keeps_ActivateDeploymentSlot keeps_UpsertDeploymentSlot keeps_PromoteProxyRoutes
  keeps_CreateApplication keeps_UpdateApplication keeps_UpsertConnectorAccount keeps_MarkConnectorSync
  keeps_UpdateProject keeps_UpdateProjectRegistry keeps_UpdateProjectRepository keeps_CreateEnvironment
  keeps_CreateProject keeps_UpdateComposeServices : keeps.

(** * A build is deployed at most once

    The row of a build that succeeded is not changed by any later call of a handler,
    so only the request that turned it to succeeded deploys it. *)

Section Builds.
Context `{UnicodeTables} `{UuidLib} `{UuidSource}.

Lemma keeps_insert_users server l db :
  build_runs (insert_users server l db) = build_runs db /\ (uuid_supply db <= uuid_supply (insert_users server l db))%nat.
Proof.
  revert db. induction l as [|u l IH]; intros db; cbn [insert_users]; [split; [done|lia]|].
  destruct (sql_upsert _ _ _ _) as [t r].
  destruct (IH (with_uuid_supply (with_dev_users db t) (S (uuid_supply db)))) as [E L]. cbn in E, L. split; [exact E|lia].
Qed.
Lemma keeps_ReplaceServerDevSudoUsers server l : keeps build_runs (ReplaceServerDevSudoUsers server l).
Proof.
  unfold ReplaceServerDevSudoUsers. destruct l as [|u l]; [keeps_tac|]. generalize (u :: l) as us. intros us.
  intros db a db' Hq. cbv zeta in Hq. do 5 (destruct (negb _); [done|]). injection Hq as _ <-.
  exact (keeps_insert_users server us (with_dev_users db _)).
Qed.

Lemma keeps_CreateServer arg : keeps build_runs (CreateServer arg).
Proof. unfold CreateServer. keeps_tac. Qed.
Lemma keeps_UpsertCredential arg : keeps build_runs (UpsertCredential arg).
Proof. unfold UpsertCredential. keeps_tac. Qed.
Lemma keeps_UpsertCredentialPermission arg : keeps build_runs (UpsertCredentialPermission arg).
Proof. unfold UpsertCredentialPermission. keeps_tac. Qed.
Lemma keeps_UpsertCredentialUsage arg : keeps build_runs (UpsertCredentialUsage arg).
Proof. unfold UpsertCredentialUsage. keeps_tac. Qed.
Lemma keeps_inl {A} (a : A) : keeps build_runs (fun db => inl (a, db)).
Proof. intros db a' db' [= _ <-]. split; [done|lia]. Qed.
Lemma keeps_CreateServerWithSSHInventory arg : keeps build_runs (CreateServerWithSSHInventory arg).
Proof.
  unfold CreateServerWithSSHInventory. refine (keeps_then _ _ (fun server db => _) (keeps_CreateServer _) _). intros server.
  destruct (negb _); [apply keeps_inl|]. refine (keeps_then _ _ (fun credential db => _) (keeps_UpsertCredential _) _).
  intros credential. refine (keeps_then _ _ (fun _ db => _) (keeps_UpsertCredentialPermission _) _). intros _.
  refine (keeps_then _ _ (fun _ db => _) (keeps_UpsertCredentialUsage _) _). intros _. apply keeps_inl.
Qed.

(** ** Builds that succeeded *)

(** The rows of a build that was started here have succeeded. *)
Definition build_done (id : pgUUID_t) (db : database) : Prop :=
  (exists k, (k < uuid_supply db)%nat /\ id = PgUUID (gen_uuid k) true)
  /\ forall b, b ∈ build_runs db -> BuildRun.ID b = id -> BuildRun.Status b = lit "succeeded".

Definition keeps_done {A} (q : query A) : Prop :=
  forall id db a db', q db = inl (a, db') -> build_done id db -> build_done id db'.

Lemma keeps_builds_done {A} (q : query A) : keeps build_runs q -> keeps_done q.
Proof.
  intros Hk id db a db' Hq [(k & Hlt & Hid) Hall]. destruct (Hk _ _ _ Hq) as [Eb Hle]. split; [exists k; split; [lia|done]|].
  by rewrite Eb.
Qed.

Lemma done_DeleteApplication id : keeps_done (DeleteApplication id).
Proof.
  intros bid db a db' Hq [Hid Hall]. unfold DeleteApplication in Hq. injection Hq as _ <-. split; [exact Hid|].
  intros b Hb Eb. cbn in Hb. apply list_elem_of_fmap in Hb as (b0 & -> & Hb0). specialize (Hall b0 Hb0).
  destruct (uuid_eqb _ _); by apply Hall.
Qed.

Lemma done_CompleteBuildRun arg : keeps_done (CompleteBuildRun arg).
Proof.
  intros bid db a db' Hq [Hid Hall]. destruct arg as [id status ref digest url message]. unfold CompleteBuildRun in Hq.
  destruct (negb _); [done|]. destruct (sql_update _ _ _) as [t rows] eqn:Es. apply rbind_ok in Hq as (x & _ & Hq).
  destruct (negb _); [done|]. injection Hq as _ <-. apply pair_equal_spec in Es as [<- _]. split; [exact Hid|].
  intros b (b0 & -> & Hb0)%list_elem_of_fmap Eb. specialize (Hall b0 Hb0). cbv beta in Eb |- *.
  destruct (uuid_eqb (BuildRun.ID b0) id && negb (BuildRun.Status b0 =s lit "succeeded")) eqn:Ec; [|by apply Hall].
  apply andb_true_iff in Ec as [_ Ec]. change (BuildRun.ID b0 = bid) in Eb. rewrite (Hall Eb) in Ec. done.
Qed.

Lemma done_CreateBuildRun arg : keeps_done (CreateBuildRun arg).
Proof.
  intros bid db a db' Hq [(k & Hlt & Hid) Hall]. destruct arg. unfold CreateBuildRun in Hq. destruct (negb _); [done|].
  apply rbind_ok in Hq as ([b0 db1] & Hb0 & Hq). injection Hq as _ <-. unfold store_build in Hb0.
  do 3 (destruct (negb _); [done|]). injection Hb0 as _ <-. split; [exists k; split; [cbn; lia|done]|].
  intros b Hb Eb. cbn in Hb. apply elem_of_app in Hb as [Hb| ->%list_elem_of_singleton]; [by apply Hall|].
  cbn in Eb. rewrite Hid in Eb. injection Eb as Eb. apply gen_uuid_inj in Eb. lia.
Qed.

#[local] Hint Resolve keeps_ReplaceServerDevSudoUsers keeps_CreateServerWithSSHInventory : keeps.

Context `{!UuidLaws} `{Resolver} `{SshLib} `{PgJson} `{FoldTable} {Host : Type} `{!Collaborators Host} `{!ApiHost Host}.

Lemma done_lift {A} id (q : query A) (s : database * Host) : keeps_done q -> build_done id s.1 -> build_done id (lift q s).2.1.
Proof.
  intros Hq Hs. unfold lift. destruct (q s.1) as [[a db']|err] eqn:Eq; [|exact Hs]. exact (Hq id _ _ _ Eq Hs).
Qed.

Lemma done_sql id X (e : runnerE X) (s : database * Host) : build_done id s.1 -> build_done id (sql_handler X e s).2.1.
Proof.
  intros Hs. destruct e; cbn [sql_handler];
    try (refine (done_lift id _ s _ Hs); apply keeps_builds_done; keeps_statement);
    (unfold Engine.on_host; first [exact Hs | match goal with |- context [let '(_, _) := ?x in _] => destruct x; exact Hs end]).
Qed.

(** The same for the database to which an open transaction returns. *)
Definition done_state (id : pgUUID_t) (s : api_state (Host := Host)) : Prop :=
  build_done id (a_db s)
  /\ forall saved b, a_saved s = Some saved -> b ∈ build_runs saved -> BuildRun.ID b = id -> BuildRun.Status b = lit "succeeded".

Lemma done_on_db {A} id (q : query A) s : keeps_done q -> done_state id s -> done_state id (on_db q s).2.
Proof.
  intros Hq [Hd Hs]. unfold on_db, on_queue, on_engine.
  pose proof (done_lift id q (q_db (a_queue s), q_host (a_queue s)) Hq Hd) as Hl.
  destruct (lift q _) as [x e]. by split.
Qed.

Lemma done_handler id X (e : apiE X) s : done_state id s -> done_state id (api_handler X e s).2.
Proof.
  intros Hs. destruct e; cbn [api_handler];
    try (by destruct Hs);
    try (refine (done_on_db id _ s _ Hs); first
      [apply done_DeleteApplication | apply done_CompleteBuildRun | apply done_CreateBuildRun
      | apply keeps_builds_done; keeps_statement]);
    destruct Hs as [Hd Hs].
  - unfold on_queue, on_engine. pose proof (done_sql id _ e (q_db (a_queue s), q_host (a_queue s)) Hd) as Hl.
    destruct (sql_handler _ e _) as [x s']. by split.
  - destruct (do_outside _ _ _). by split.
  - destruct (do_doppler _ _). by split.
  - destruct (Seen _ _). by split.
  - destruct (do_dispatch _ _ _ _ _ _). by split.
  - destruct (begin_error _); [by split|]. split; [exact Hd|]. intros saved b [= <-]. apply Hd.
  - destruct (commit_error _); by split.
  - destruct (a_saved s) as [saved|] eqn:Es; cbn [snd]; [|split; [exact Hd|by rewrite Es]]. split; [|done].
    split; [exact (proj1 Hd)|]. intros b. exact (Hs saved b eq_refl).
  - destruct (do_remote _ _ _). by split.
  - destruct (do_local _ _). by split.
  - destruct (push_error _); [by split|]. unfold on_queue, Enqueue. destruct (encodeDeployment d); by split.
Qed.

Lemma done_requests id (requests : list ((Request -> H unit) * Request)) s :
  done_state id s -> done_state id (fold_left (fun s q => (exec api_handler (q.1 q.2) s).2) requests s).
Proof.
  revert s. induction requests as [|[h q] l IH]; intros s Hs; [exact Hs|]. cbn [fold_left fst snd]. apply IH.
  apply (exec_preserves api_handler (done_state id) (fun _ _ => True)); [by intros X e s0 _; apply done_handler| |exact Hs].
  apply only_true.
Qed.

(** ** The completion of a build *)

Lemma completed_rows arg db b db' : CompleteBuildRun arg db = inl (b, db') ->
  exists b0, b0 ∈ build_runs db /\ BuildRun.ID b0 = CompleteBuildRunParams.ID arg /\ uuid_valid (BuildRun.ID b0) = true
    /\ BuildRun.Status b0 <> lit "succeeded" /\ BuildRun.Status b = CompleteBuildRunParams.Status arg
    /\ uuid_supply db' = uuid_supply db
    /\ build_runs db' = map (fun x => if uuid_eqb (BuildRun.ID x) (CompleteBuildRunParams.ID arg)
                                        && negb (BuildRun.Status x =s lit "succeeded")
                                     then completed_build arg (Some (clock db)) x else x) (build_runs db).
Proof.
  destruct arg as [id status ref digest url message]. unfold CompleteBuildRun. destruct (negb _); [done|].
  destruct (sql_update _ _ _) as [t rows] eqn:Es. apply pair_equal_spec in Es as [<- <-]. intros Hq.
  apply rbind_ok in Hq as (x & Hx & Hq). destruct (negb _); [done|]. injection Hq as <- <-.
  destruct (List.filter _ _) as [|b0 l] eqn:Ef; [done|]. injection Hx as <-.
  assert (Hb0 : In b0 (b0 :: l)) by by left. rewrite <- Ef in Hb0. apply filter_In in Hb0 as [Hin Hc].
  apply andb_true_iff in Hc as [He Hst]. apply uuid_eqb_true in He as [He Hv].
  exists b0. split; [by apply list_elem_of_In|]. split; [exact He|]. split; [done|]. split; [|done].
  intros Hs. by rewrite Hs in Hst.
Qed.

Definition started_here (db : database) : Prop :=
  forall b, b ∈ build_runs db -> exists k, (k < uuid_supply db)%nat /\ BuildRun.ID b = PgUUID (gen_uuid k) true.

Lemma completion_done arg db b db' :
  started_here db -> CompleteBuildRun arg db = inl (b, db') -> BuildRun.Status b = lit "succeeded" ->
  build_done (CompleteBuildRunParams.ID arg) db'.
Proof.
  intros Hdb Hq Hst. apply completed_rows in Hq as (b0 & Hb0 & Hid & Hv & _ & Estatus & Esup & Erows). split.
  - destruct (Hdb b0 Hb0) as (k & Hk & Ek). exists k. rewrite Esup, <- Hid. by split.
  - rewrite Erows. intros x (y & -> & Hy)%list_elem_of_fmap Hx. cbv beta in *.
    destruct (_ && _) eqn:Ec; [by rewrite <- Hst, Estatus|]. rewrite Hx in Ec. rewrite <- Hid in Ec.
    rewrite (proj2 (uuid_eqb_true _ _)) in Ec by done. cbn [andb] in Ec. apply negb_false_iff in Ec. by apply str_eqb_eq in Ec.
Qed.

Lemma done_not_completed id arg db b db' :
  build_done id db -> CompleteBuildRunParams.ID arg = id -> CompleteBuildRun arg db <> inl (b, db').
Proof. intros [_ Hall] Hid Hq. apply completed_rows in Hq as (b0 & Hb0 & Eid & _ & Hn & _). apply Hn, Hall; [done|congruence]. Qed.

Lemma normalized_id id request input : normalizeCompleteBuildRun id request = inl input -> CompleteBuildRunParams.ID input = id.
Proof.
  unfold normalizeCompleteBuildRun. cbv zeta. intros Hn.
  repeat match type of Hn with (if ?c then inr _ else _) = inl _ => destruct c; [discriminate Hn|] end. by injection Hn as <-.
Qed.

Lemma none_autoDeploy r build : BuildRun.Status build <> lit "succeeded" -> only creates_none (autoDeploy r build).
Proof. intros Hs. unfold autoDeploy. apply str_eqb_neq in Hs. by rewrite Hs. Qed.

Lemma none_answer_unchanged id : only creates_none (answer_unchanged id).
Proof.
  apply only_bind; [by repeat split|]. intros [build|err].
  - destruct (_ =s _); by repeat split.
  - destruct (is_no_rows err); apply none_writeError.
Qed.

(** The run of a request that deploys: it turned the build to succeeded. *)
Lemma deploying_request r s u tr s' arg x :
  exec api_handler (completeBuildRun r) s = (u, tr, s') -> Ev (QCreateDeployment arg) x ∈ tr ->
  exists id input build s1, parseUUIDParam r (lit "buildID") = inl id /\ CompleteBuildRunParams.ID input = id
    /\ on_db (CompleteBuildRun input) s = (inl build, s1) /\ BuildRun.Status build = lit "succeeded"
    /\ exists p : H unit, s' = (exec api_handler p s1).2.
Proof.
  intros Hx Hin. assert (Hfail : forall p : H unit, exec api_handler p s = (u, tr, s') -> only creates_none p -> False).
  { intros p Hp Ho. exact (only_event _ _ _ _ _ _ _ Ho (exec_runs _ _ _ _ _ _ Hp) Hin). }
  unfold completeBuildRun in Hx. destruct (parseUUIDParam _ _) as [id|err]; [|destruct (Hfail _ Hx (none_writeError _))].
  destruct (rbind _ _) as [input|err] eqn:En; [|destruct (Hfail _ Hx (none_writeError _))].
  apply rbind_ok in En as (request & _ & Hn%normalized_id). rewrite exec_bind in Hx. cbn [exec call api_handler] in Hx.
  destruct (on_db (CompleteBuildRun input) s) as [res s1] eqn:Ec.
  destruct (exec api_handler _ s1) as [[u2 tr2] s2] eqn:E2. injection Hx as <- <- <-.
  apply elem_of_cons in Hin as [Hin|Hin]; [discriminate Hin|].
  destruct res as [build|err].
  - exists id, input, build, s1. split; [done|]. split; [done|]. split; [done|].
    split; [|eexists; by rewrite E2]. apply dec_stable. intros Hs.
    refine (only_event creates_none _ _ _ _ _ _ _ (exec_runs _ _ _ _ _ _ E2) Hin).
    apply only_bind; [apply none_audit|]. intros _. apply only_bind; [by apply none_autoDeploy|]. by intros l.
  - destruct (is_no_rows err);
      [pose proof (none_answer_unchanged id) as Ho|pose proof (none_writeError err) as Ho];
      destruct (only_event _ _ _ _ _ _ _ Ho (exec_runs _ _ _ _ _ _ E2) Hin).
Qed.

(** C7: a build is deployed at most once.  When the request that reports the end of
    a build creates a deployment, then after any further requests, of any handlers,
    a request that reports the end of the same build creates none; it does not
    matter whether the redelivery carries the same image, whether the queue took
    the deployment or whether a transaction was rolled back in between.  (The build
    was started here and no transaction was open.) *)
Theorem build_deploys_once r r' (requests : list ((Request -> H unit) * Request)) s
    (Hstarted : started_here (a_db s)) (Hclosed : a_saved s = None)
    (Hsame : parseUUIDParam r' (lit "buildID") = parseUUIDParam r (lit "buildID")) :
  let '(_, tr, s1) := exec api_handler (completeBuildRun r) s in
  let s2 := fold_left (fun s q => (exec api_handler (q.1 q.2) s).2) requests s1 in
  (exists arg x, Ev (QCreateDeployment arg) x ∈ tr) ->
  ~ exists arg x, Ev (QCreateDeployment arg) x ∈ (exec api_handler (completeBuildRun r') s2).1.2.
Proof.
  destruct (exec api_handler (completeBuildRun r) s) as [[u tr] s1] eqn:E1. cbv zeta. intros (arg & x & Hin) (arg' & x' & Hin').
  apply (deploying_request _ _ _ _ _ _ _ E1) in Hin as (id & input & build & s0 & Hp & Hid & Hc & Hst & p & ->).
  destruct (exec api_handler (completeBuildRun r') _) as [[u' tr'] s'] eqn:E2. cbn [fst snd] in Hin'.
  apply (deploying_request _ _ _ _ _ _ _ E2) in Hin' as (id' & input' & build' & s3 & Hp' & Hid' & Hc' & Hst' & _).
  rewrite Hsame, Hp in Hp'. injection Hp' as <-.
  assert (H0s : done_state id s0).
  { unfold on_db, on_queue, on_engine, lift in Hc. cbn [fst snd] in Hc. fold (a_db s) in Hc.
    destruct (CompleteBuildRun input (a_db s)) as [[b db1]|err] eqn:Eq; [|done]. injection Hc as <- <-.
    split; [|cbn; by rewrite Hclosed]. rewrite <- Hid. exact (completion_done _ _ _ _ Hstarted Eq Hst). }
  assert (H1s : done_state id (exec api_handler p s0).2).
  { apply (exec_preserves api_handler (done_state id) (fun _ _ => True)); [|apply only_true|exact H0s].
    intros X e s5 _. apply done_handler. }
  apply (done_requests id requests) in H1s as [H2s _].
  unfold on_db, on_queue, on_engine, lift in Hc'. cbn [fst snd] in Hc'. unfold a_db in H2s.
  destruct (CompleteBuildRun input' _) as [[b db1]|err] eqn:Eq; [|done].
  exact (done_not_completed _ _ _ _ _ H2s Hid' Eq).
Qed.
End Builds.
