(* ===== verification/HttpVariablesStore.v ===== *)
(** * Replacing variables changes all of them or nothing

    The transactions of project_variables.go and application_service_variables.go on
    the database: the outcome for every answer of the database and the network. *)

From S2P Require Import Prelude GoStrings GoStringsFacts GoRegexp GoJson GoNet StringUtil AuditLog.
From S2P Require Import Db DbHttp DbApplications Lifecycle RemoteSteps EnvFile ProxyCommands Effects.
From S2P Require Import Runner Queue Engine QueueFacts GoHttp HttpCore HttpDeployments HttpApplications.
From S2P Require Import HttpVariables HttpVariablesFacts HttpEngine.

Section Store.
Context `{UnicodeTables} `{UuidLib} `{!UuidLaws} `{Resolver} `{SshLib} `{UuidSource} `{PgJson} `{FoldTable}.
Context {Host : Type} `{!Collaborators Host} `{!ApiHost Host}.
Implicit Types (s : api_state (Host := Host)).

Abbreviation go := (run api_handler).

(** ** A statement as a change of the database *)

Lemma on_db_set {A} (q : query A) s db saved :
  on_db q (set_db s db saved)
  = match q db with inl (a, db') => (inl a, set_db s (tick db') saved) | inr e => (inr e, set_db s (tick db) saved) end.
Proof. unfold on_db, on_queue, on_engine, lift. cbn. by destruct (q db) as [[a db']|e]. Qed.

Lemma set_db_self s : set_db s (a_db s) (a_saved s) = s.
Proof. by destruct s as [[db h l] saved replays responses]. Qed.

Lemma commit_set {A} (value : A) s db saved :
  go (commit_then value) (set_db s db saved)
  = match commit_error (q_host (a_queue s)) with
    | Some err => (inr err, set_db s db saved)
    | None => (inl value, set_db s db None)
    end.
Proof. unfold commit_then. rewrite run_bind, run_call. cbn. by destruct (commit_error _). Qed.

Lemma in_transaction_set {A} (p : H (result A)) s res db saved : a_saved s = None ->
  begin_error (q_host (a_queue s)) = None -> go p (set_db s (a_db s) (Some (a_db s))) = (res, set_db s db saved) ->
  go (in_transaction p) s = (res, set_db s (match saved with Some old => rolled_back old db | None => db end) None).
Proof.
  intros Hs Hb Hp. unfold in_transaction. rewrite run_bind, run_call. cbn [api_handler]. rewrite Hb. cbn [fst snd].
  rewrite run_bind, Hp. cbn [fst snd]. rewrite run_bind, run_call. cbn [api_handler fst snd].
  destruct saved; cbn; [done|by destruct s as [[? ? ?] ? ? ?]].
Qed.

Lemma in_transaction_begin {A} (p : H (result A)) s err :
  begin_error (q_host (a_queue s)) = Some err -> go (in_transaction p) s = (inr err, s).
Proof. intros Hb. unfold in_transaction. rewrite run_bind, run_call. cbn [api_handler]. by rewrite Hb. Qed.

(** ** Upserting the variables *)

Definition variables_of (id : pgUUID_t) (db : database) : list Input.t :=
  projectRuntimeVariableInputs (merge_sort (by_key ProjectVariable.Key) (List.filter (of_project id) (project_variables db))).
Definition other_variables (id : pgUUID_t) (db : database) : list ProjectVariable.t :=
  List.filter (fun v => negb (of_project id v)) (project_variables db).

Lemma ascii_valid w : is_ascii w = true -> valid_utf8 w = true.
Proof.
  intros Ha. unfold valid_utf8. rewrite decode_ascii by done. rewrite forallb_map. apply forallb_forall. intros c Hc.
  cbn [fst snd length]. unfold is_ascii in Ha. rewrite forallb_forall in Ha. apply Ha, N.ltb_lt in Hc.
  destruct (b2n c =? rune_error)%N eqn:E; [|done]. apply N.eqb_eq in E. unfold rune_error in E. lia.
Qed.

Lemma control_free_text v : valid_utf8 v = true -> containsControlCharacter v = false -> text_ok v = true.
Proof.
  intros Hv Hc. unfold text_ok. rewrite Hv. cbn [andb]. apply negb_true_iff. destruct (ContainsByte _ _) eqn:E; [|done].
  apply existsb_exists in E as (c & Hin & <-%bool_decide_eq_true). apply list_elem_of_In in Hin.
  pose proof (control_free_bytes _ Hc _ Hin). change (b2n (ascii_of_N 0)) with 0%N in *. lia.
Qed.

Lemma key_text k : ValidRuntimeVariableKey k = true -> text_ok k = true.
Proof.
  intros Hk. assert (Hb : forall c, c ∈ k -> (b2n c < 128)%N /\ (32 <= b2n c)%N).
  { intros c Hc. pose proof (valid_key_bytes _ _ Hk Hc) as Hr. split; [by apply key_rune_ascii|].
    revert Hr. clear. by destruct c as [[] [] [] [] [] [] [] []]. }
  unfold text_ok. rewrite ascii_valid; cbn [andb].
  - apply negb_true_iff. destruct (ContainsByte _ _) eqn:E; [|done]. apply existsb_exists in E as (c & Hin & <-%bool_decide_eq_true).
    apply list_elem_of_In, Hb in Hin as [_ Hin]. by change (b2n (ascii_of_N 0)) with 0%N in Hin.
  - apply forallb_forall. intros c Hc. apply N.ltb_lt, Hb. by apply list_elem_of_In.
Qed.

Lemma accepted_check i project c u : accepted i -> valid_utf8 (Input.Value i) = true ->
  text_ok (Input.Key i) && text_ok (Input.Value i) = true
  /\ variable_check (ProjectVariable.mk project (Input.Key i) (Input.Value i) c u) = true.
Proof.
  intros (Hk & Hlk & Hlv & Hc & _) Hv. rewrite key_text, control_free_text by done. split; [done|].
  unfold variable_check, char_length. cbn [ProjectVariable.Key ProjectVariable.Value]. rewrite Hk.
  pose proof (runes_length_le (Input.Key i)). pose proof (runes_length_le (Input.Value i)).
  rewrite !(proj2 (Nat.leb_le _ _)) by lia. change (has_cntrl (Input.Value i)) with (containsControlCharacter (Input.Value i)).
  by rewrite Hc.
Qed.

(** The rows that the loop adds. *)
Definition new_rows (id : pgUUID_t) (l : list Input.t) (rows : list ProjectVariable.t) : Prop :=
  projectRuntimeVariableInputs rows = l /\ Forall (fun v => ProjectVariable.ProjectID v = id) rows.

Lemma upserts_append id l : Forall accepted l -> Forall (fun i => valid_utf8 (Input.Value i) = true) l ->
  NoDup (map Input.Key l) -> uuid_valid id = true -> forall s db saved,
  reference_ok ProjectRow.ID id (projects db) = true ->
  (forall v, v ∈ project_variables db -> of_project id v = true -> ProjectVariable.Key v ∉ map Input.Key l) ->
  exists db' rows, go (upsert_variables id l) (set_db s db saved) = (None, set_db s db' saved)
    /\ project_variables db' = project_variables db ++ rows /\ new_rows id l rows /\ projects db' = projects db.
Proof.
  intros Hacc Hutf Hnd Hv. induction l as [|i l IH]; intros s db saved Href Hfresh; cbn [upsert_variables].
  - exists db, []. rewrite app_nil_r. split; [by rewrite run_ret|]. split; [done|]. by split; [split|].
  - inversion Hacc as [|? ? Hi Hl]; subst. inversion Hutf as [|? ? Hui Hul]; subst. inversion Hnd as [|? ? Hk Hndl]; subst.
    rewrite run_bind, run_call. cbn [api_handler]. rewrite on_db_set. unfold UpsertProjectRuntimeVariable.
    destruct (accepted_check i id (Some (clock db)) (Some (clock db)) Hi Hui) as [-> ->]. rewrite Hv. cbn [negb].
    assert (existsb (fun v => of_project id v && (ProjectVariable.Key v =s Input.Key i)) (project_variables db) = false) as ->.
    { apply not_true_is_false. intros (v & Hin & [Hof Hkey%str_eqb_eq]%andb_true_iff)%existsb_exists. apply list_elem_of_In in Hin.
      apply (Hfresh v Hin Hof). rewrite Hkey. by left. }
    rewrite Href. cbn [negb fst snd]. set (row := ProjectVariable.mk id _ _ _ _).
    destruct (IH Hl Hul Hndl s (tick (with_project_variables db (project_variables db ++ [row]))) saved) as (db' & rows & Hrun & Hrows & [Hin Hids] & Hp).
    + exact Href.
    + intros v [Hold| ->%list_elem_of_singleton]%elem_of_app Hof; [|done]. intros Hkey. apply (Hfresh v Hold Hof). by right.
    + exists db', (row :: rows). split; [exact Hrun|]. split; [rewrite Hrows; cbn; by rewrite <- app_assoc|].
      split; [|exact Hp]. split; [|by constructor]. unfold projectRuntimeVariableInputs in *. cbn [map]. rewrite Hin. by destruct i.
Qed.

(** ** The transaction on a project *)

Lemma inputs_equal existing out :
  projectRuntimeVariablesEqual existing out = true <-> projectRuntimeVariableInputs existing = out.
Proof.
  unfold projectRuntimeVariablesEqual. revert out. induction existing as [|v l IH]; intros [|i out]; try done.
  cbn [length zip forallb projectRuntimeVariableInputs map fst snd Nat.eqb]. specialize (IH out).
  rewrite andb_true_iff, andb_true_iff, !andb_true_iff, !str_eqb_eq in *. split.
  - intros (Hl & (Hk & Hv) & Hall). destruct i as [k w]. cbn [Input.Key Input.Value] in *. f_equal; [by rewrite Hk, Hv|].
    apply IH. by split.
  - intros [= <- Hl]. apply IH in Hl as [Hn Hall]. by repeat split.
Qed.

(** What can refuse accepted variables. *)
Definition refused s (id : pgUUID_t) (err : goerror) : Prop :=
  begin_error (q_host (a_queue s)) = Some err \/ commit_error (q_host (a_queue s)) = Some err
  \/ err = ErrNotFound (lit "project not found") /\ existsb (fun p => uuid_eqb (ProjectRow.ID p) id) (projects (a_db s)) = false
  \/ err = bigint_overflow.

Definition incremented (id : pgUUID_t) (now : timestamptz) (l : list ProjectRow.t) : list ProjectRow.t :=
  map (fun p => if uuid_eqb (ProjectRow.ID p) id then set_revision p now (ProjectRow.ConfigurationRevision p + 1)%Z else p) l.

(** The outcome of the transaction. *)
Definition replaced s (id : pgUUID_t) (out : list Input.t) (res : result (ProjectRow.t * bool)) (db : database) : Prop :=
  match res with
  | inl (project, changed) =>
      variables_of id db = out /\ other_variables id db = other_variables id (a_db s)
      /\ changed = negb (bool_decide (variables_of id (a_db s) = out))
      /\ (exists now, projects db = if changed then incremented id now (projects (a_db s)) else projects (a_db s))
      /\ exists p db1, GetProject id (a_db s) = inl (p, db1) /\ ProjectRow.ID project = id
           /\ ProjectRow.ConfigurationRevision project
              = (ProjectRow.ConfigurationRevision p + if changed then 1 else 0)%Z
  | inr err => project_variables db = project_variables (a_db s) /\ projects db = projects (a_db s) /\ refused s id err
  end.

Lemma GetProject_found id db p db1 : GetProject id db = inl (p, db1) ->
  db1 = db /\ ProjectRow.ID p = id /\ uuid_valid id = true /\ reference_ok ProjectRow.ID id (projects db) = true
  /\ exists l, List.filter (fun p => uuid_eqb (ProjectRow.ID p) id) (projects db) = p :: l.
Proof.
  unfold GetProject. intros Hq. apply rbind_ok in Hq as (q & Hone & [= -> <-]).
  destruct (List.filter _ _) as [|q l] eqn:Ef; [done|]. injection Hone as ->.
  assert (Hin : In p (List.filter (fun p => uuid_eqb (ProjectRow.ID p) id) (projects db))) by (rewrite Ef; by left).
  apply filter_In in Hin as [Hin Hid]. pose proof Hid as Hid2. apply uuid_eqb_true in Hid as [Hid Hv]. rewrite Hid in Hv.
  split; [done|]. split; [exact Hid|]. split; [exact Hv|]. split; [|by exists l].
  unfold reference_ok. apply orb_true_iff. right. apply existsb_exists. by exists p.
Qed.

Lemma GetProject_missing id db err : GetProject id db = inr err ->
  err = ErrNoRows /\ existsb (fun p => uuid_eqb (ProjectRow.ID p) id) (projects db) = false.
Proof.
  unfold GetProject. destruct (List.filter _ _) as [|q l] eqn:Ef; [|done]. cbn. intros [= <-]. split; [done|].
  apply not_true_is_false. intros (p & Hin & Hp)%existsb_exists. assert (In p []); [|done]. rewrite <- Ef. by apply filter_In.
Qed.

Lemma sorted_inputs (rows : list ProjectVariable.t) :
  Sorted (by_key Input.Key) (projectRuntimeVariableInputs rows) -> Sorted (by_key ProjectVariable.Key) rows.
Proof.
  induction rows as [|v rows IH]; intros Hs; [constructor|]. cbn [projectRuntimeVariableInputs map] in Hs.
  inversion Hs as [|? ? Hrest Hhd]; subst. constructor; [by apply IH|]. destruct rows as [|w rows]; constructor.
  by inversion Hhd.
Qed.

(** The table after the old rows were deleted and the new ones added. *)
Lemma replaced_rows id out old rows (db db' : database) : uuid_valid id = true ->
  Sorted (by_key Input.Key) out -> NoDup (map Input.Key out) -> new_rows id out rows ->
  project_variables db = old -> project_variables db' = List.filter (fun v => negb (of_project id v)) old ++ rows ->
  variables_of id db' = out /\ other_variables id db' = other_variables id db.
Proof.
  intros Hv Hs Hnd [Hin Hids] Hold Hnew. rewrite Forall_forall in Hids.
  assert (Hof : forall v, v ∈ rows -> of_project id v = true).
  { intros v Hvin. unfold of_project. apply uuid_eqb_true. by rewrite (Hids v Hvin). }
  assert (Hkeys : map ProjectVariable.Key rows = map Input.Key out).
  { rewrite <- Hin. unfold projectRuntimeVariableInputs. by rewrite map_map. }
  unfold variables_of, other_variables. rewrite Hnew, Hold, !List.filter_app. split.
  - rewrite filter_none, (filter_all _ rows Hof).
    + cbn [app]. rewrite <- Hin. f_equal. symmetry. apply (by_key_unique ProjectVariable.Key).
      * by rewrite Hkeys.
      * apply sorted_inputs. by rewrite Hin.
      * apply by_key_sorted.
      * by rewrite merge_sort_Permutation.
    + intros v Hvin. apply list_elem_of_In, filter_In in Hvin as [_ Hn]. by apply negb_true_iff in Hn.
  - rewrite (filter_none _ rows) by (intros v Hvin; by rewrite (Hof v Hvin)). rewrite app_nil_r. apply filter_all.
    intros v Hvin. by apply list_elem_of_In, filter_In in Hvin as [_ Hn].
Qed.

(** The state of the open transaction, or of the database once it is committed. *)
Definition transaction_result s id out (res : result (ProjectRow.t * bool)) (db : database) (saved : option database) : Prop :=
  match res with
  | inl _ => saved = None /\ replaced s id out res db
  | inr err => saved = Some (a_db s) /\ refused s id err
  end.

Section Replace.
Context s (id : pgUUID_t) (vs out : list Input.t) (Haccept : normalizeProjectRuntimeVariables vs = inl out).
Context (Htext : Forall (fun i => valid_utf8 (Input.Value i) = true) out).

Lemma changed_result p db1 db : GetProject id (a_db s) = inl (p, db1) -> variables_of id (a_db s) <> out ->
  project_variables db = project_variables (a_db s) -> projects db = projects (a_db s) ->
  exists res db' saved, go (store_changed id p out) (set_db s db (Some (a_db s))) = (res, set_db s db' saved)
    /\ transaction_result s id out res db' saved.
Proof.
  intros Hp Hne Hvars Hprojects. destruct (GetProject_found _ _ _ _ Hp) as (_ & Hid & Hv & Href & l & Hl).
  destruct (normalized_spec vs out Haccept) as (_ & Hsort & Hacc & Hnd & _).
  unfold store_changed. rewrite run_bind_ok, run_call. cbn [api_handler]. rewrite on_db_set.
  unfold DeleteProjectRuntimeVariables. cbv iota beta. rewrite run_bind.
  destruct (upserts_append id out Hacc Htext Hnd Hv s
    (tick (with_project_variables db (List.filter (fun v => negb (of_project id v)) (project_variables db)))) (Some (a_db s)))
    as (db2 & rows & Hrun & Hrows & Hnew & Hp2).
  { cbn. by rewrite Hprojects. }
  { intros v Hin Hof. cbn in Hin. apply list_elem_of_In, filter_In in Hin as [_ Hn]. by rewrite Hof in Hn. }
  rewrite Hrun. cbn [fst snd]. rewrite run_bind_ok, run_call. cbn [api_handler]. rewrite on_db_set.
  cbn in Hrows, Hp2. rewrite Hprojects in Hp2. unfold IncrementProjectConfigurationRevision, sql_update. rewrite Hp2, Hl.
  cbn [map one_row rbind ProjectRow.ConfigurationRevision set_revision].
  destruct (max_int64 <? _)%Z.
  { eexists _, _, _. split; [done|]. split; [done|]. by right; right; right. }
  rewrite commit_set. destruct (commit_error _) as [err|] eqn:Ec.
  { eexists _, _, _. split; [done|]. split; [done|]. by right; left. }
  eexists _, _, _. split; [done|]. split; [done|]. unfold replaced.
  destruct (replaced_rows id out (project_variables (a_db s)) rows (a_db s) (tick (with_projects db2
     (map (fun p => if uuid_eqb (ProjectRow.ID p) id then set_revision p (Some (clock db2)) (ProjectRow.ConfigurationRevision p + 1)%Z else p)
        (projects (a_db s))))) Hv Hsort Hnd Hnew eq_refl) as [Hout Hother].
  { cbn. by rewrite Hrows, Hvars. }
  split; [exact Hout|]. split; [exact Hother|]. split; [by rewrite bool_decide_false|].
  split; [by exists (Some (clock db2))|]. exists p, db1. split; [exact Hp|]. by split.
Qed.

Lemma transaction_outcome : exists res db saved,
  go (store_in_transaction id out) (set_db s (a_db s) (Some (a_db s))) = (res, set_db s db saved)
  /\ transaction_result s id out res db saved.
Proof.
  unfold store_in_transaction. rewrite run_bind, run_call. cbn [api_handler]. rewrite on_db_set. unfold GetProjectForUpdate.
  destruct (GetProject id (a_db s)) as [[p db1]|err] eqn:Hp.
  2:{ apply GetProject_missing in Hp as [-> Hno]. eexists _, _, _. split; [done|]. split; [done|]. right; right; left. by split. }
  destruct (GetProject_found _ _ _ _ Hp) as (-> & Hid & _). cbn [fst snd]. rewrite run_bind_ok, run_call. cbn [api_handler].
  rewrite on_db_set. unfold ListProjectRuntimeVariables. cbv iota beta.
  destruct (projectRuntimeVariablesEqual _ out) eqn:Eq.
  - apply inputs_equal in Eq. change (variables_of id (a_db s) = out) in Eq. rewrite commit_set.
    destruct (commit_error _) as [err|] eqn:Ec; (eexists _, _, _; split; [done|]; split; [done|]); [by right; left|].
    split; [exact Eq|]. split; [done|]. split; [by rewrite bool_decide_true|]. split; [by exists None|].
    exists p, (a_db s). split; [exact Hp|]. split; [exact Hid|lia].
  - assert (Hne : variables_of id (a_db s) <> out).
    { intros Heq. apply inputs_equal in Heq. unfold variables_of in Heq. cbn in Eq. by rewrite Heq in Eq. }
    exact (changed_result p (a_db s) (tick (tick (a_db s))) Hp Hne eq_refl eq_refl).
Qed.

(** C28: replacing the variables of a project is all or nothing.  For accepted
    variables (texts decoded from JSON are valid UTF-8) the transaction ends with
    the variables of the request, in the order of their keys, those of the other
    projects untouched and the revision incremented exactly when the variables
    differ from those before; or with an error, and then the variables and the
    projects are as they were, and the error is that the project does not exist,
    that the revision overflows or that the transaction could not be opened or
    committed: the constraints on the table never refuse them. *)
Theorem project_variables_all_or_nothing (Hclosed : a_saved s = None) :
  let '(res, s') := run api_handler (storeProjectRuntimeVariables id out) s in
  a_saved s' = None /\ replaced s id out res (a_db s').
Proof.
  unfold storeProjectRuntimeVariables. destruct (begin_error (q_host (a_queue s))) as [err|] eqn:Eb.
  - rewrite (in_transaction_begin _ _ _ Eb). split; [done|]. split; [done|]. split; [done|]. by left.
  - destruct transaction_outcome as (res & db & saved & Hrun & Hres). rewrite (in_transaction_set _ _ _ _ _ Hclosed Eb Hrun).
    split; [done|]. destruct res as [[p changed]|err]; destruct Hres as [-> Hres]; [exact Hres|]. by split.
Qed.
End Replace.
End Store.

(** * The configuration of a service is replaced as a whole and reaches the runner

    The transaction of application_service_variables.go on the database, and the
    decoding of its rows by the runner. *)

(** ** Two decoders of the same JSON *)

Section Decoders.
Context `{UnicodeTables}.

Definition both (i : Input.t) : list str := [Input.Key i; Input.Value i].

Lemma key_not_value k : field_match (lit "key") k = true -> field_match (lit "value") k = false.
Proof.
  unfold field_match. intros Hk%bool_decide_eq_true. apply bool_decide_eq_false. rewrite <- Hk. vm_compute. congruence.
Qed.

Lemma fields_agree fields i j : set_fields (set_input_field false) fields i = inl j ->
  decode_fields [lit "key"; lit "value"] fields (both i) = inl (both j).
Proof.
  revert i. induction fields as [|[k v] fields IH]; intros i; [by intros [= <-]|]. cbn [set_fields decode_fields]. intros Hs.
  apply rbind_ok in Hs as (i1 & Hi & Hs). unfold set_input_field in Hi. cbn [existsb].
  destruct (field_match (lit "key") k) eqn:Ek.
  - pose proof (key_not_value _ Ek) as Ev. cbn [orb]. unfold set_string in Hi. destruct v; try discriminate Hi; injection Hi as <-.
    + by apply IH.
    + unfold set_field, both. cbn [zip_with]. rewrite Ek, Ev. by apply (IH (Input.mk s (Input.Value i))).
  - destruct (field_match (lit "value") k) eqn:Ev; cbn [orb].
    + unfold set_string in Hi. destruct v; try discriminate Hi; injection Hi as <-.
      * by apply IH.
      * unfold set_field, both. cbn [zip_with]. rewrite Ek, Ev. by apply (IH (Input.mk (Input.Key i) s)).
    + injection Hi as <-. by apply IH.
Qed.

Lemma elements_agree l vs : unmarshal_elems (unmarshal_struct (set_input_field false) Input.zero) l = inl vs ->
  decode_elements [lit "key"; lit "value"] l = inl (map both vs).
Proof.
  revert vs. induction l as [|v l IH]; intros vs; cbn [unmarshal_elems]; [by intros [= <-]|]. intros Hl.
  apply rbind_ok in Hl as (i & Hi & Hl). apply rbind_ok in Hl as (xs & Hxs & [= <-]). apply IH in Hxs.
  destruct v; try discriminate Hi; cbn [unmarshal_struct] in Hi; cbn [decode_elements decode_struct map].
  - injection Hi as <-. by rewrite Hxs.
  - apply fields_agree in Hi. unfold both in Hi at 1. cbn [Input.Key Input.Value Input.zero] in Hi.
    rewrite Hi. cbn [rbind]. by rewrite Hxs.
Qed.

(** What the API reads from a row is what the runner reads. *)
Lemma runner_decodes c vs : decode_variables (ServiceConfig.Variables c) = inl vs ->
  runtimeConfigVariables c = inl (map as_variable (default [] vs)).
Proof.
  unfold decode_variables, runtimeConfigVariables, unmarshal_inputs, unmarshal_slice.
  destruct (ServiceConfig.Variables c) as [[| | | | |l|]|]; try done.
  - by intros [= <-].
  - intros Hl. apply rbind_ok in Hl as (xs & Hxs & [= <-]). apply elements_agree in Hxs. cbn [unmarshal_structs].
    rewrite Hxs. cbn [rbind default]. f_equal. by rewrite map_map.
Qed.

Lemma decode_inputs l :
  unmarshal_elems (unmarshal_struct (set_input_field false) Input.zero) (map input_json l) = inl l.
Proof.
  induction l as [|[k v] l IH]; [done|]. cbn [map unmarshal_elems input_json unmarshal_struct set_fields Input.Key Input.Value].
  unfold set_input_field at 1 2, jstr. match_fields. cbn [set_string rbind set_fields Input.Key Input.Value]. by rewrite IH.
Qed.

Lemma decode_written l : decode_variables (Some (JArr (map input_json l))) = inl (Some l).
Proof.
  unfold decode_variables, unmarshal_inputs, unmarshal_slice. apply rbind_ok. exists l. split; [apply decode_inputs|done].
Qed.
End Decoders.

Section Configs.
Context `{UnicodeTables} `{UuidLib} `{!UuidLaws} `{Resolver} `{SshLib} `{UuidSource} `{PgJson} `{FoldTable}.
Context {Host : Type} `{!Collaborators Host} `{!ApiHost Host}.
Implicit Types (s : api_state (Host := Host)).

Abbreviation go := (run api_handler).

Definition configs_of (app : pgUUID_t) (service : str) (db : database) : list ServiceConfig.t :=
  List.filter (config_of app service) (service_configs db).
Definition other_configs (app : pgUUID_t) (service : str) (db : database) : list ServiceConfig.t :=
  List.filter (fun c => negb (config_of app service c)) (service_configs db).

(** The row holds the request, as the runner reads it. *)
Definition carries (request : applicationServiceRuntimeConfigRequest) (c : ServiceConfig.t) : Prop :=
  String' (ServiceConfig.DopplerProject c) = DopplerProject request
  /\ String' (ServiceConfig.DopplerConfig c) = DopplerConfig request
  /\ runtimeConfigVariables c = inl (map as_variable (Variables request)).

Lemma matches_carries c request : serviceRuntimeConfigMatches c request = true ->
  carries request c /\ exists vs, decode_variables (ServiceConfig.Variables c) = inl vs.
Proof.
  unfold serviceRuntimeConfigMatches. intros [[Hp Hc]%andb_true_iff Hv]%andb_true_iff. apply str_eqb_eq in Hp, Hc.
  destruct (decode_variables _) as [vs|] eqn:Ed; [|done]. apply bool_decide_eq_true in Hv. split; [|by exists vs].
  split; [exact Hp|]. split; [exact Hc|]. by rewrite (runner_decodes _ _ Ed), Hv.
Qed.

Lemma optionalText_string v : String' (norm_text (optionalText v)) = v.
Proof. unfold optionalText, norm_text. destruct (v =s []) eqn:E; [by apply str_eqb_eq in E as ->|done]. Qed.

(** A row that was written with the request. *)
Lemma written_carries app service request created updated :
  carries request (ServiceConfig.mk app service (norm_text (optionalText (DopplerProject request)))
    (norm_text (optionalText (DopplerConfig request))) (Some (JArr (map input_json (Variables request)))) created updated).
Proof.
  split; [apply optionalText_string|]. split; [apply optionalText_string|].
  rewrite (runner_decodes _ (Some (Variables request))); [done|]. apply decode_written.
Qed.

Definition is_already (request : applicationServiceRuntimeConfigRequest) (configs : list ServiceConfig.t) : bool :=
  match configs with [] => is_empty request | c :: _ => serviceRuntimeConfigMatches c request end.

Definition bumped_applications (id : pgUUID_t) (now : timestamptz) (l : list Application.t) : list Application.t :=
  map (fun a => if uuid_eqb (Application.ID a) id then bumped now a else a) l.

(** The outcome of the transaction. *)
Definition configured s (app : pgUUID_t) (service : str) (request : applicationServiceRuntimeConfigRequest)
    (res : result (ServiceConfigResponse.t * bool)) (db : database) : Prop :=
  match res with
  | inl (response, changed) =>
      changed = negb (is_already request (configs_of app service (a_db s)))
      /\ Forall (carries request) (configs_of app service db)
      /\ (configs_of app service db = [] -> is_empty request = true)
      /\ other_configs app service db = other_configs app service (a_db s)
      /\ (exists now, applications db = if changed then bumped_applications app now (applications (a_db s))
                                        else applications (a_db s))
      /\ exists a, GetApplication app (a_db s) = inl (a, a_db s)
           /\ ServiceConfigResponse.ConfigurationRevision response
              = (Application.ConfigurationRevision a + if changed then 1 else 0)%Z
  | inr err => service_configs db = service_configs (a_db s) /\ applications db = applications (a_db s)
  end.

Lemma filter_negb_nil {A} (p : A -> bool) (l : list A) : List.filter p (List.filter (fun x => negb (p x)) l) = [].
Proof. apply filter_none. intros x Hx. apply list_elem_of_In, filter_In in Hx as [_ Hx]. by apply negb_true_iff in Hx. Qed.
Lemma filter_negb_idem {A} (p : A -> bool) (l : list A) :
  List.filter (fun x => negb (p x)) (List.filter (fun x => negb (p x)) l) = List.filter (fun x => negb (p x)) l.
Proof. apply filter_all. intros x Hx. by apply list_elem_of_In, filter_In in Hx as [_ Hx]. Qed.

(** Rows that are changed keep their key. *)
Lemma filter_update {A} (p : A -> bool) (f : A -> A) (l : list A) : (forall x, p x = true -> p (f x) = true) ->
  let t := map (fun x => if p x then f x else x) l in
  List.filter p t = map f (List.filter p l)
  /\ List.filter (fun x => negb (p x)) t = List.filter (fun x => negb (p x)) l.
Proof.
  intros Hf. induction l as [|x l [IH1 IH2]]; [done|]. cbn [map List.filter] in *. destruct (p x) eqn:Ep; cbn [negb].
  - rewrite (Hf x Ep). cbn [negb map]. split; [by f_equal|exact IH2].
  - rewrite Ep. cbn [negb]. split; [exact IH1|by f_equal].
Qed.

(** Writing the row, or deleting it. *)
Lemma write_config_outcome s app service request db saved : uuid_valid app = true ->
  reference_ok Application.ID app (applications db) = true ->
  exists res db', go (write_config app service request) (set_db s db saved) = (res, set_db s db' saved)
    /\ applications db' = applications db
    /\ match res with
       | inl stored =>
           Forall (carries request) (configs_of app service db') /\ (configs_of app service db' = [] -> is_empty request = true)
           /\ other_configs app service db' = other_configs app service db
           /\ match stored with
              | Some c => forall revision, serviceRuntimeConfigResponse c revision true
                            = inl (ServiceConfigResponse.mk (ServiceConfig.ComposeService c) (DopplerProject request)
                                     (DopplerConfig request) (Some (Variables request)) revision true)
              | None => True end
       | inr _ => True
       end.
Proof.
  intros Hv Href. unfold write_config. destruct (is_empty request) eqn:Ee.
  - rewrite run_bind_ok, run_call. cbn [api_handler]. rewrite on_db_set. unfold DeleteApplicationServiceRuntimeConfig.
    destruct (negb _); [by eexists _, _|]. eexists _, _. split; [done|]. split; [done|].
    unfold configs_of, other_configs. cbn [service_configs tick with_service_configs].
    rewrite filter_negb_nil, filter_negb_idem. by split.
  - rewrite run_bind_ok, run_call. cbn [api_handler]. rewrite on_db_set. unfold UpsertApplicationServiceRuntimeConfig.
    destruct (negb (text_ok service && _ && _)); [by eexists _, _|]. rewrite Hv. cbn [negb].
    destruct (negb (config_check _)); [by eexists _, _|].
    assert (Hkey : forall c, config_of app service c = true -> ServiceConfig.ApplicationID c = app /\ ServiceConfig.ComposeService c = service).
    { intros c [[Hid _]%uuid_eqb_true Hs%str_eqb_eq]%andb_true_iff. by split. }
    destruct (existsb _ _) eqn:Ex.
    + unfold sql_update. set (f := updated_config _ _ _ _).
      destruct (filter_update (config_of app service) f (service_configs db)) as [Hin Hout]; [by intros c Hc|].
      assert (Hcarry : Forall (carries request) (map f (List.filter (config_of app service) (service_configs db)))).
      { apply Forall_forall. intros c (c0 & -> & _)%list_elem_of_fmap. apply written_carries. }
      destruct (List.filter (config_of app service) (service_configs db)) as [|c0 l] eqn:Ef.
      { apply existsb_exists in Ex as (c & Hc1 & Hc2). assert (Hno : In c []); [rewrite <- Ef; by apply filter_In|done]. }
      cbn [map one_row rbind]. eexists _, _. split; [done|]. split; [done|]. cbn iota. unfold configs_of, other_configs.
      cbn [service_configs tick with_service_configs]. rewrite Hin, Hout. split; [exact Hcarry|]. split; [done|]. split; [done|].
      intros revision. unfold serviceRuntimeConfigResponse, f, updated_config. cbn [ServiceConfig.Variables]. rewrite decode_written.
      cbn [rbind ServiceConfig.DopplerProject ServiceConfig.DopplerConfig]. by rewrite !optionalText_string.
    + rewrite Href. cbn [negb fst snd]. eexists _, _. split; [done|]. split; [done|]. unfold configs_of, other_configs.
      cbn [service_configs tick with_service_configs]. rewrite !List.filter_app.
      assert (Hnone : List.filter (config_of app service) (service_configs db) = []).
      { apply filter_none. intros c Hc. destruct (config_of app service c) eqn:Ec; [|done].
        rewrite <- Ex. symmetry. apply existsb_exists. exists c. by rewrite <- list_elem_of_In. }
      assert (Hself : config_of app service (ServiceConfig.mk app service (norm_text (optionalText (DopplerProject request)))
        (norm_text (optionalText (DopplerConfig request))) (Some (JArr (map input_json (Variables request)))) (Some (clock db))
        (Some (clock db))) = true).
      { unfold config_of. cbn. rewrite (proj2 (uuid_eqb_true _ _)) by done. by rewrite str_eqb_refl. }
      rewrite Hnone. cbn [List.filter Datatypes.app]. rewrite Hself. cbn [negb]. rewrite app_nil_r.
      split; [by repeat constructor; apply written_carries|]. split; [done|]. split; [done|].
      intros revision. unfold serviceRuntimeConfigResponse. cbn [ServiceConfig.Variables]. rewrite decode_written.
      cbn [rbind ServiceConfig.DopplerProject ServiceConfig.DopplerConfig]. by rewrite !optionalText_string.
Qed.

Lemma GetApplication_found id db a db1 : GetApplicationForUpdate id db = inl (a, db1) ->
  db1 = db /\ uuid_valid id = true /\ reference_ok Application.ID id (applications db) = true.
Proof.
  unfold GetApplicationForUpdate. intros Hq. apply rbind_ok in Hq as (b & Hone & [= -> <-]).
  destruct (List.filter _ _) as [|c l] eqn:Ef; [done|]. injection Hone as ->.
  assert (Hin : In a (List.filter (fun a => uuid_eqb (Application.ID a) id) (applications db))) by (rewrite Ef; by left).
  apply filter_In in Hin as [Hin Hid]. pose proof Hid as Hid2. apply uuid_eqb_true in Hid as [Hid Hv]. rewrite Hid in Hv.
  split; [done|]. split; [exact Hv|]. unfold reference_ok. apply orb_true_iff. right. apply existsb_exists. by exists a.
Qed.

(** The state of the open transaction, or of the database once it is committed. *)
Definition config_result s app service request (res : result (ServiceConfigResponse.t * bool)) (db : database)
    (saved : option database) : Prop :=
  match res with
  | inl _ => saved = None /\ configured s app service request res db
  | inr _ => saved = Some (a_db s)
  end.

Lemma change_outcome s app service request a db : GetApplicationForUpdate app (a_db s) = inl (a, a_db s) ->
  is_already request (configs_of app service (a_db s)) = false ->
  service_configs db = service_configs (a_db s) -> applications db = applications (a_db s) ->
  exists res db' saved, go (change_config a app service request) (set_db s db (Some (a_db s))) = (res, set_db s db' saved)
    /\ config_result s app service request res db' saved.
Proof.
  intros Ha Hnot Hcfg Happ. destruct (GetApplication_found _ _ _ _ Ha) as (_ & Hv & Href). rewrite <- Happ in Href.
  unfold change_config. rewrite run_bind_ok.
  destruct (write_config_outcome s app service request db (Some (a_db s)) Hv Href) as (res & db1 & -> & Happ1 & Hres).
  destruct res as [stored|err]; [|by eexists _, _, _]. destruct Hres as (Hcarry & Hempty & Hother & Hresp).
  rewrite run_bind_ok, run_call. cbn [api_handler]. rewrite on_db_set. unfold BumpApplicationConfigurationRevision, sql_update.
  destruct (existsb _ _); [by eexists _, _, _|]. cbv zeta. rewrite run_bind_ok, commit_set.
  destruct (commit_error _) as [err|]; [by eexists _, _, _|]. rewrite run_ret.
  assert (Hdone : forall response, ServiceConfigResponse.ConfigurationRevision response = (Application.ConfigurationRevision a + 1)%Z ->
    configured s app service request (inl (response, true)) (tick (with_applications db1 (map (fun a0 =>
      if uuid_eqb (Application.ID a0) app then bumped (Some (clock db1)) a0 else a0) (applications db1))))).
  { intros response Hrev. unfold configured. rewrite Hnot. split; [done|]. split; [exact Hcarry|]. split; [exact Hempty|].
    split; [unfold other_configs in *; cbn; by rewrite <- Hcfg|]. split; [exists (Some (clock db1)); cbn; by rewrite Happ1, Happ|].
    exists a. by split. }
  destruct stored as [c|].
  - rewrite Hresp. cbn [rbind]. eexists _, _, _. split; [done|]. split; [done|]. by apply Hdone.
  - eexists _, _, _. split; [done|]. split; [done|]. by apply Hdone.
Qed.

Section Configure.
Context s (app : pgUUID_t) (service : str) (request : applicationServiceRuntimeConfigRequest).

(** The primary key. *)
Context (Hkey : (length (configs_of app service (a_db s)) <= 1)%nat).

Lemma config_outcome : exists res db saved,
  go (config_in_transaction app service request) (set_db s (a_db s) (Some (a_db s))) = (res, set_db s db saved)
  /\ config_result s app service request res db saved.
Proof.
  unfold config_in_transaction. rewrite run_bind, run_call. cbn [api_handler]. rewrite on_db_set.
  destruct (GetApplicationForUpdate app (a_db s)) as [[a db1]|err] eqn:Ha; [|by eexists _, _, _].
  destruct (GetApplication_found _ _ _ _ Ha) as (-> & _). cbn [fst snd].
  destruct (_ && _); [by eexists _, _, _|].
  rewrite run_bind, run_call. cbn [api_handler]. rewrite on_db_set. unfold GetApplicationServiceRuntimeConfig.
  destruct (negb (text_ok service)); [by eexists _, _, _|]. cbn [service_configs tick].
  fold (configs_of app service (a_db s)).
  assert (Hsame : forall response, is_already request (configs_of app service (a_db s)) = true ->
    ServiceConfigResponse.ConfigurationRevision response = Application.ConfigurationRevision a ->
    configured s app service request (inl (response, false)) (tick (tick (a_db s)))).
  { intros response Hal Hrev. unfold configured. rewrite Hal. split; [done|].
    change (configs_of app service (tick (tick (a_db s)))) with (configs_of app service (a_db s)).
    destruct (configs_of app service (a_db s)) as [|c [|c2 l]]; [..|cbn in Hkey; lia].
    - split; [constructor|]. split; [done|]. split; [done|]. split; [by exists None|]. exists a. split; [exact Ha|]. rewrite Hrev. lia.
    - split; [constructor; [by apply matches_carries|constructor]|]. split; [done|]. split; [done|]. split; [by exists None|].
      exists a. split; [exact Ha|]. rewrite Hrev. lia. }
  destruct (configs_of app service (a_db s)) as [|c l] eqn:Ec; cbn [one_row rbind fst snd is_no_rows negb].
  - destruct (is_empty request) eqn:Ee.
    + rewrite commit_set. destruct (commit_error _); (eexists _, _, _; split; [done|]); [done|]. split; [done|]. by apply Hsame.
    + apply (change_outcome s app service request a (tick (tick (a_db s))) Ha); [by rewrite Ec|done|done].
  - destruct (serviceRuntimeConfigMatches c request) eqn:Em.
    + destruct (matches_carries _ _ Em) as (_ & vs & Hvs). rewrite run_bind_ok, commit_set.
      destruct (commit_error _); [by eexists _, _, _|]. rewrite run_ret. unfold serviceRuntimeConfigResponse. rewrite Hvs.
      cbn [rbind]. eexists _, _, _. split; [done|]. split; [done|]. by apply Hsame.
    + apply (change_outcome s app service request a (tick (tick (a_db s))) Ha); [by rewrite Ec|done|done].
Qed.

End Configure.
End Configs.
