(* ===== verification/HttpRepositoriesFacts.v ===== *)
(** * Imports and builds of repositories

    An import creates the applications of the selected services, each with what was
    found in its Compose file, or nothing; a synchronisation keeps the build settings
    of the repositories; a build is started for the commit that is recorded. *)

From S2P Require Import Prelude GoStrings GoStringsFacts GoRegexp GoJson GoNet StringUtil AuditLog.
From S2P Require Import Db DbHttp DbApplications DbProjects DbInventory Lifecycle RemoteSteps ProxyCommands Effects.
From S2P Require Import Runner Queue Engine QueueFacts GoHttp HttpCore HttpDeployments HttpApplications.
From S2P Require Import GithubConnector GithubApp HttpConnectors HttpGithub HttpProjects ComposeFile HttpRepositories.
From S2P Require Import HttpGuardFacts HttpGithubFacts HttpCredentialsFacts HttpEngine HttpVariables HttpVariablesFacts HttpVariablesStore.

(** ** The import on the database *)

Section ImportStore.
Context `{UnicodeTables} `{UuidLib} `{!UuidLaws} `{Resolver} `{SshLib} `{UuidSource} `{PgJson} `{FoldTable} `{Yaml}.
Context {Host : Type} `{!Collaborators Host} `{!ApiHost Host}.
Implicit Types (s : api_state (Host := Host)).

Abbreviation go := (run api_handler).

(** The identifiers that are still to be issued are not those of applications. *)
Definition unissued (db : database) : Prop :=
  forall k a, (uuid_supply db <= k)%nat -> a ∈ applications db -> Application.ID a <> PgUUID (gen_uuid k) true.

(** The application of a service: the row that its input asks for, with the services
    of its Compose file. *)
Definition imported_as (c : ImportContext.t) (service : DetectedService.t) (a : Application.t) : Prop :=
  exists input, service_input c service = inl input
    /\ Application.Name a = CreateApplicationParams.Name input
    /\ Application.EnvironmentID a = CreateApplicationParams.EnvironmentID input
    /\ Application.ServerID a = CreateApplicationParams.ServerID input
    /\ Application.Branch a = CreateApplicationParams.Branch input
    /\ Application.ComposePath a = CreateApplicationParams.ComposePath input
    /\ Application.RemoteDirectory a = CreateApplicationParams.RemoteDirectory input
    /\ Application.ComposeServices a = Some (JArr (map service_json (default [] (DetectedService.ComposeServices service)))).

Lemma create_appends arg db a db' : CreateApplication arg db = inl (a, db') ->
  applications db' = applications db ++ [a] /\ projects db' = projects db
  /\ uuid_supply db' = S (uuid_supply db) /\ Application.ID a = PgUUID (gen_uuid (uuid_supply db)) true
  /\ Application.Name a = CreateApplicationParams.Name arg
  /\ Application.EnvironmentID a = CreateApplicationParams.EnvironmentID arg
  /\ Application.ServerID a = CreateApplicationParams.ServerID arg
  /\ Application.Branch a = CreateApplicationParams.Branch arg
  /\ Application.ComposePath a = CreateApplicationParams.ComposePath arg
  /\ Application.RemoteDirectory a = CreateApplicationParams.RemoteDirectory arg
  /\ Application.ComposeServices a = Some (JArr []).
Proof.
  unfold CreateApplication. destruct arg. destruct (negb _); [done|]. intros ([a1 db1] & Hst & [= -> <-])%rbind_ok. revert Hst.
  unfold store_application. destruct (negb _); [done|]. destruct (application_keys _ _); [done|]. intros [= <- <-]. by repeat split.
Qed.

Lemma services_replaced v l a db a' db' : applications db = l ++ [a] -> uuid_valid (Application.ID a) = true ->
  Forall (fun b => Application.ID b <> Application.ID a) l ->
  UpdateApplicationComposeServices v (Application.ID a) db = inl (a', db') ->
  exists now, a' = with_services v now a /\ applications db' = l ++ [a'] /\ projects db' = projects db
    /\ uuid_supply db' = uuid_supply db.
Proof.
  intros Hl Hv Hother. unfold UpdateApplicationComposeServices, sql_update. rewrite Hl, map_app, List.filter_app.
  rewrite Forall_forall in Hother.
  assert (Hno : forall b, b ∈ l -> uuid_eqb (Application.ID b) (Application.ID a) = false).
  { intros b Hb. destruct (uuid_eqb _ _) eqn:E; [|done]. apply uuid_eqb_true in E as [E _]. by destruct (Hother b Hb). }
  rewrite (filter_none _ l) by (intros b Hb; by rewrite (Hno b Hb)).
  rewrite (map_ext_in _ id l) by (intros b Hb%list_elem_of_In; by rewrite (Hno b Hb)). rewrite map_id. cbn [app List.filter map].
  destruct (uuid_eqb _ _ && _) eqn:Ec; [|by cbn]. cbn [map one_row rbind].
  destruct (max_int64 <? _)%Z; [done|]. unfold store_application. destruct (negb (application_check _)); [done|].
  destruct (application_keys _ _); [done|]. intros [= <- <-]. by exists (Some (clock db)).
Qed.

Lemma unissued_tick db : unissued db -> unissued (tick db).
Proof. done. Qed.

Lemma unissued_last db l a : unissued db -> applications db = l -> Application.ID a = PgUUID (gen_uuid (uuid_supply db)) true ->
  Forall (fun b => Application.ID b <> Application.ID a) l.
Proof. intros Hu <- Ha. apply Forall_forall. intros b Hb. rewrite Ha. by apply Hu. Qed.

Lemma unissued_next db db' a : unissued db -> applications db' = applications db ++ [a] ->
  Application.ID a = PgUUID (gen_uuid (uuid_supply db)) true -> uuid_supply db' = S (uuid_supply db) -> unissued db'.
Proof.
  intros Hu Happ Ha Hs k b Hk Hb. rewrite Happ in Hb. rewrite Hs in Hk.
  apply elem_of_app in Hb as [Hb| ->%list_elem_of_singleton]; [by apply Hu; [lia|]|].
  rewrite Ha. intros [= E%gen_uuid_inj]. lia.
Qed.

(** One service: a row more, or nothing known. *)
Lemma import_service_run c service s db saved : unissued db ->
  exists res db', go (import_service c service) (set_db s db saved) = (res, set_db s db' saved) /\ projects db' = projects db
    /\ match res with
       | inl a => applications db' = applications db ++ [a] /\ imported_as c service a /\ unissued db'
       | inr _ => True
       end.
Proof.
  intros Hu. unfold import_service. rewrite run_bind_ok, run_ret. destruct (service_input c service) as [input|err] eqn:Ein.
  2:{ by exists (inr err), db. }
  rewrite run_bind_ok, run_call. cbn [api_handler]. rewrite on_db_set.
  destruct (CreateApplication input db) as [[a db1]|err] eqn:Ec; [|by exists (inr err), (tick db)].
  apply create_appends in Ec as (Happ & Hpr & Hsup & Hid & Hn & He & Hsv & Hb & Hc & Hd & Hcs).
  pose proof (unissued_next _ _ _ Hu Happ Hid Hsup) as Hu1.
  destruct (default [] (DetectedService.ComposeServices service)) as [|service1 services] eqn:Es.
  - rewrite run_ret. exists (inl a), (tick db1). split; [done|]. split; [exact Hpr|]. split; [exact Happ|]. split; [|exact Hu1].
    exists input. rewrite Es. by repeat split.
  - rewrite run_call. cbn [api_handler]. rewrite on_db_set. set (v := Some _).
    destruct (UpdateApplicationComposeServices v _ _) as [[a' db2]|err] eqn:Eu; [|by exists (inr err), (tick (tick db1))].
    assert (Hval : uuid_valid (Application.ID a) = true) by by rewrite Hid.
    destruct (services_replaced v _ a (tick db1) a' db2 Happ Hval (unissued_last _ _ _ Hu eq_refl Hid) Eu) as (now & Ha' & Happ2 & Hpr2 & Hs2).
    exists (inl a'), (tick db2). split; [done|]. split; [cbn; by rewrite Hpr2|]. split; [exact Happ2|]. split.
    + exists input. rewrite Ha', Es. by repeat split.
    + apply (unissued_next db _ a'); [done|exact Happ2|by rewrite Ha'|cbn in *; by rewrite Hs2].
Qed.

Lemma import_services_run c s saved services : forall db, unissued db ->
  exists res db', go (import_services c services) (set_db s db saved) = (res, set_db s db' saved) /\ projects db' = projects db
    /\ match res with
       | inl apps => applications db' = applications db ++ apps /\ Forall2 (imported_as c) services apps
       | inr _ => True
       end.
Proof.
  induction services as [|service t IH]; intros db Hu; cbn [import_services].
  { exists (inl []), db. rewrite run_ret, app_nil_r. by repeat split. }
  rewrite run_bind_ok. destruct (import_service_run c service s db saved Hu) as (res & db1 & -> & Hpr & Hres).
  destruct res as [a|err]; [|by exists (inr err), db1]. destruct Hres as (Happ & Ha & Hu1). rewrite run_bind_ok.
  destruct (IH db1 Hu1) as (res & db2 & -> & Hpr2 & Hres). destruct res as [apps|err]; [|exists (inr err), db2; by rewrite Hpr2].
  destruct Hres as [Happ2 Hall]. rewrite run_ret. exists (inl (a :: apps)), db2. split; [done|]. split; [by rewrite Hpr2|].
  split; [by rewrite Happ2, Happ, <- app_assoc|by constructor].
Qed.
(** The connection of the project touches the projects only. *)
Lemma connect_run c s db saved : exists res db', go (connect_project c) (set_db s db saved) = (res, set_db s db' saved)
  /\ applications db' = applications db
  /\ (Valid (ProjectRow.RepositoryFullName (ImportContext.Project c)) = true -> projects db' = projects db).
Proof.
  unfold connect_project. destruct (Valid _); [exists (inl tt), db; by rewrite run_ret|].
  rewrite run_bind_ok, run_call. cbn [api_handler]. rewrite on_db_set. unfold UpdateProjectRepository.
  destruct (negb _); [by exists (inr encoding_error), (tick db)|]. unfold update_project, sql_update, store_projects.
  destruct (one_row _) as [p|err]; cbn [rbind]; [|by exists (inr err), (tick db)].
  repeat (destruct (negb _); [by eexists _, (tick db)|]). by eexists _, (tick (with_projects db _)).
Qed.

(** The open transaction when it fails, and the database once it is committed. *)
Lemma import_transaction_run c request s : unissued (a_db s) ->
  exists res db', go (import_transaction c request) (set_db s (a_db s) (Some (a_db s)))
    = (res, set_db s db' (match res with inl _ => None | inr _ => Some (a_db s) end))
    /\ match res with
       | inl apps => applications db' = applications (a_db s) ++ apps /\ apps <> []
           /\ Forall2 (imported_as c) (List.filter (is_selected (selectedServiceNames (ImportRequest.Services request)))
                                         (ImportRequest.Detected request)) apps
           /\ (Valid (ProjectRow.RepositoryFullName (ImportContext.Project c)) = true -> projects db' = projects (a_db s))
       | inr _ => True
       end.
Proof.
  intros Hu. unfold import_transaction. rewrite run_bind_ok. set (services := List.filter _ _).
  destruct (import_services_run c s (Some (a_db s)) services (a_db s) Hu) as (res & db1 & -> & Hpr & Hres).
  destruct res as [apps|err]; [|by exists (inr err), db1]. destruct Hres as [Happ Hall].
  destruct apps as [|a apps]; [by eexists (inr _), db1|]. rewrite run_bind_ok.
  destruct (connect_run c s db1 (Some (a_db s))) as (res & db2 & -> & Happ2 & Hpr2).
  destruct res as [[]|err]; [|by exists (inr err), db2]. rewrite run_bind, run_call. cbn [api_handler].
  change (q_host (a_queue (set_db s db2 (Some (a_db s))))) with (q_host (a_queue s)).
  destruct (commit_error _) as [err|]; [by exists (inr err), db2|]. exists (inl (a :: apps)), db2. split; [done|].
  split; [by rewrite Happ2|]. split; [done|]. split; [exact Hall|]. intros Hc. by rewrite (Hpr2 Hc).
Qed.

(** An audit event is added; the rest of the database stays. *)
Lemma audit_run r action kind id name metadata s db saved :
  exists db', go (audit r action kind id name metadata) (set_db s db saved) = (tt, set_db s db' saved)
    /\ applications db' = applications db /\ projects db' = projects db.
Proof.
  unfold audit. rewrite run_bind, run_call. cbn [api_handler]. unfold on_queue, on_engine, lift, sql_handler, AppendAuditEvent.
  cbn. destruct (negb _); cbn; [by exists (tick db)|by eexists (tick _)].
Qed.

(** What an import leaves behind, with the answer it gave. *)
Definition import_outcome (c : ImportContext.t) (request : ImportRequest.t) s s' : Prop :=
  exists status value, a_responses s' = a_responses s ++ [(status, value)]
  /\ if (status =? StatusCreated)%Z
     then exists apps, value = VImport apps (connectorResponse (ImportContext.Account c)) /\ apps <> []
       /\ Forall2 (imported_as c) (List.filter (is_selected (selectedServiceNames (ImportRequest.Services request)))
                                     (ImportRequest.Detected request)) apps
       /\ applications (a_db s') = applications (a_db s) ++ apps
       /\ (Valid (ProjectRow.RepositoryFullName (ImportContext.Project c)) = true -> projects (a_db s') = projects (a_db s))
     else applications (a_db s') = applications (a_db s) /\ projects (a_db s') = projects (a_db s).

Lemma writeError_answers err s : exists status value, go (writeError err) s = (tt, HttpEngine.respond s status value)
  /\ (status =? StatusCreated)%Z = false.
Proof.
  unfold writeError. pose proof (error_status err) as Hs. destruct (error_response err) as [status value]. exists status, value.
  unfold writeJSON. rewrite run_call. split; [done|]. apply Z.eqb_neq. unfold StatusCreated. cbn in Hs. lia.
Qed.

Lemma refused_outcome c request s err :
  let s' := (go (writeError err) (set_db s (a_db s) None)).2 in a_saved s' = None /\ import_outcome c request s s'.
Proof.
  cbv zeta. destruct (writeError_answers err (set_db s (a_db s) None)) as (status & value & -> & Hs). split; [done|].
  exists status, value. split; [done|]. rewrite Hs. by split.
Qed.

(** C10: an import is all or nothing.  When it is answered with 201 the table of
    applications has grown by the applications of the answer, in the order of the
    selected services of the request: each has the fields that its service was
    normalised to and the services of its Compose file.  Any other answer (a service
    that is not accepted, a row the database refuses, nothing selected, a
    transaction that cannot be opened or committed) leaves the applications and the
    projects as they were.  No transaction stays open, and the repository of a project
    that has one is not replaced. *)
Theorem import_all_or_nothing r c request s (Hclosed : a_saved s = None) (Hids : unissued (a_db s)) :
  let s' := (run api_handler (run_import r c request) s).2 in
  a_saved s' = None /\ import_outcome c request s s'.
Proof.
  cbv zeta. assert (E : s = set_db s (a_db s) None) by (rewrite <- Hclosed; symmetry; apply set_db_self).
  enough (K : forall s1, s1 = set_db s (a_db s) None ->
    a_saved (go (run_import r c request) s1).2 = None /\ import_outcome c request s (go (run_import r c request) s1).2) by by apply K.
  intros s1 ->. clear E. unfold run_import. destruct (length _ =? 0)%nat; [apply refused_outcome|].
  rewrite run_bind, run_call. cbn [api_handler]. change (q_host (a_queue (set_db s (a_db s) None))) with (q_host (a_queue s)).
  destruct (begin_error _) as [err|]; cbn [fst snd]; [apply refused_outcome|].
  rewrite run_bind. destruct (import_transaction_run c request s Hids) as (res & db' & Hrun & Hres).
  change (set_db (set_db s (a_db s) None) _ _) with (set_db s (a_db s) (Some (a_db s))). rewrite Hrun. cbn [fst snd].
  rewrite run_bind. unfold respond_import. destruct res as [apps|err]; cbn [or_error].
  - rewrite run_bind.
    destruct (audit_run r (lit "github.services_import") (lit "project") (uuidString (ProjectRow.ID (ImportContext.Project c)))
      (ProjectRow.Name (ImportContext.Project c))
      (Some [(lit "repository", jstr (Repository.Repository (ImportContext.Repository c)));
             (lit "services", JNum (Z.of_nat (length apps)))]) s db' None) as (db2 & -> & Ha2 & Hp2).
    cbn [fst snd]. unfold writeJSON. rewrite !run_call. cbn [api_handler fst snd]. split; [done|].
    exists StatusCreated, (VImport apps (connectorResponse (ImportContext.Account c))). split; [done|]. cbn -[Z.eqb].
    rewrite Z.eqb_refl. destruct Hres as (Happ & Hne & Hall & Hpr). exists apps. split; [done|]. split; [done|]. split; [exact Hall|].
    split; [by rewrite Ha2|]. intros Hc. by rewrite Hp2, (Hpr Hc).
  - destruct (writeError_answers err (set_db s db' (Some (a_db s)))) as (status & value & -> & Hs). rewrite run_call.
    cbn [api_handler fst snd]. split; [done|]. exists status, value. split; [done|]. rewrite Hs. by split.
Qed.

End ImportStore.

(** ** The configuration of an installation is read back *)

Section Sync.
Context `{UnicodeTables}.

Lemma omit_set {S} (set : str -> json -> S -> result S) name v (s s' : S) :
  set (lit name) (JStr v) s = inl s' -> (v = [] -> s' = s) -> set_fields set (omit_string name v) s = inl s'.
Proof.
  intros Hset Hempty. unfold omit_string. destruct (v =s []) eqn:E; cbn [set_fields].
  - apply str_eqb_eq in E. by rewrite Hempty.
  - by rewrite Hset.
Qed.

Lemma strings_read l : unmarshal_strings (JArr (map jstr l)) = inl l.
Proof.
  unfold unmarshal_strings, unmarshal_slice. assert (E : unmarshal_elems unmarshal_string (map jstr l) = inl l).
  { induction l as [|x l IH]; [done|]. cbn. by rewrite IH. }
  by rewrite E.
Qed.

(** An entry without fields of a credential, which is what a synchronisation writes. *)
Definition bare (r : Repository.t) : Prop :=
  Repository.CredentialName r = [] /\ Repository.ExternalRef r = [] /\ Repository.CredentialType r = []
  /\ Repository.Status r = [] /\ Repository.Permissions r = [] /\ Repository.Usages r = [].

Ltac omitted := rewrite set_fields_app; erewrite omit_set; [cbn [rbind]|unfold set_connector_field; match_fields; reflexivity|by intros ->].

Lemma entry_read r : bare r -> unmarshal_struct set_connector_field Repository.zero (repository_config_json r) = inl r.
Proof.
  destruct r as [inst appid appname repoid repo branch workflow context dockerfile ref matrix runner filters
    cred external type status perms usages]. unfold bare. cbn. intros (-> & -> & -> & -> & -> & ->).
  unfold repository_config_json. cbn [unmarshal_struct]. cbn [Repository.InstallationID Repository.ApplicationID
    Repository.ApplicationName Repository.RepositoryID Repository.Repository Repository.Branch Repository.WorkflowID
    Repository.BuildContext Repository.Dockerfile Repository.ImageRef Repository.BuildMatrix Repository.Runner Repository.PathFilters].
  unfold Repository.zero. do 4 omitted. cbn [set_fields].
  unfold set_connector_field at 1 2. match_fields. cbn [set_string jstr rbind]. do 6 omitted.
  destruct filters as [|f filters]; [done|]. cbn [set_fields]. unfold set_connector_field. match_fields.
  change (JArr (jstr f :: map jstr filters)) with (JArr (map jstr (f :: filters))). by rewrite strings_read.
Qed.

Lemma entries_read l : Forall bare l ->
  unmarshal_elems (unmarshal_struct set_connector_field Repository.zero) (map repository_config_json l) = inl l.
Proof. induction 1 as [|r l Hr _ IH]; [done|]. cbn [map unmarshal_elems]. by rewrite (entry_read r Hr), IH. Qed.

Lemma config_read id l : Forall bare l ->
  unmarshal_config (Some (JObj [(lit "installation_id", jstr id); (lit "repositories", JArr (map repository_config_json l))]))
  = inl (Config.mk id l).
Proof.
  intros Hl. cbn [unmarshal_config unmarshal_struct set_fields]. unfold set_config_field at 1 2, Config.zero. match_fields.
  cbn [jstr set_string rbind unmarshal_slice]. by rewrite (entries_read l Hl).
Qed.

(** *** Normalisation *)

Lemma or_default_kept s d e : d <> [] -> or_default (or_default s d) e = or_default s d.
Proof.
  intros Hd. unfold or_default. destruct (s =s []) eqn:E; [|by rewrite E]. apply str_eqb_neq in Hd. by rewrite Hd.
Qed.

(** The conditions that [checked_repository] tests. *)
Definition checked (r : Repository.t) : Prop :=
  let unset_or (v : str) (ok : bool) := negb (v =s []) && negb ok = false in
  ((Repository.Repository r =s []) || (Repository.CredentialName r =s []) || (Repository.ExternalRef r =s [])) = false
  /\ validRepository (Repository.Repository r) = true
  /\ unset_or (Repository.InstallationID r) (validNumericID (Repository.InstallationID r))
  /\ unset_or (Repository.RepositoryID r) (validNumericID (Repository.RepositoryID r))
  /\ unset_or (Repository.ApplicationID r) (validUUID (Repository.ApplicationID r))
  /\ validBranch (Repository.Branch r) = true /\ validWorkflowID (Repository.WorkflowID r) = true
  /\ validBuildPath (Repository.BuildContext r) = true /\ validBuildPath (Repository.Dockerfile r) = true
  /\ unset_or (Repository.ImageRef r) (validImageRef (Repository.ImageRef r))
  /\ unset_or (Repository.BuildMatrix r) (validBuildMatrix (Repository.BuildMatrix r))
  /\ unset_or (Repository.Runner r) (validRunner (Repository.Runner r))
  /\ existsb (fun f => negb (validBuildPath f)) (Repository.PathFilters r) = false.

Lemma checked_iff r : checked_repository r = None <-> checked r.
Proof.
  unfold checked_repository, checked. cbv zeta.
  assert (K : forall (c : bool) (m : string) (k : option goerror),
    (if c then Some (ErrText (lit m)) else k) = None <-> c = false /\ k = None) by (intros [] m k; naive_solver).
  rewrite !K, !negb_false_iff. naive_solver.
Qed.

Definition with_credential (r : Repository.t) : Repository.t := filled_repository r (lit "active").

Lemma normalize_bare r : bare r -> checked (with_credential r) -> normalizeRepository r = inl (with_credential r).
Proof.
  intros (_ & _ & _ & Hs & _) Hc. unfold normalizeRepository. rewrite Hs. change (NormalizeCredentialStatus []) with (lit "active", true).
  cbn [negb]. apply checked_iff in Hc. unfold with_credential in Hc. by rewrite Hc.
Qed.

Lemma numeric_id z : (0 < z)%Z -> validNumericID (fmt_d z) = true /\ TrimSpace (fmt_d z) = fmt_d z.
Proof.
  intros Hz. pose proof (digits_visible z Hz) as Hv. split; [|by apply visible_trimmed].
  destruct (fmt_d_digits z Hz) as (Hd & _ & c & t & Ec).
  assert (Ha : is_ascii (fmt_d z) = true).
  { unfold is_ascii. apply (forallb_weaken visible_byte); [|exact Hv]. by intros x [? _]%andb_true_iff. }
  unfold validNumericID, numericIDPattern, RPlus. rewrite MatchString_rep, (runes_ascii _ Ha), forallb_map.
  apply andb_true_iff. split; [exact Hd|]. rewrite length_map, Ec. done.
Qed.
(** The settings of a build that a repository keeps. *)
Definition keeps_settings (p r : Repository.t) : Prop :=
  Repository.Repository r = Repository.Repository p /\ Repository.Branch r = Repository.Branch p
  /\ Repository.WorkflowID r = Repository.WorkflowID p /\ Repository.BuildContext r = Repository.BuildContext p
  /\ Repository.Dockerfile r = Repository.Dockerfile p /\ Repository.ImageRef r = Repository.ImageRef p
  /\ Repository.BuildMatrix r = Repository.BuildMatrix p /\ Repository.Runner r = Repository.Runner p
  /\ Repository.ApplicationID r = Repository.ApplicationID p /\ Repository.ApplicationName r = Repository.ApplicationName p
  /\ Repository.PathFilters r = Repository.PathFilters p.

(** What GitHub reports of a repository whose name and default branch the connector
    accepts. *)
Definition installed_ok (r : AppRepository.t) : Prop :=
  (0 < AppRepository.ID r)%Z
  /\ (AppRepository.FullName r = [] \/ validRepository (TrimSpace (AppRepository.FullName r)) = true)
  /\ validBranch (or_default (TrimSpace (or_default (AppRepository.DefaultBranch r) (lit "main"))) (lit "main")) = true.

Lemma credential_named id n : validRepository n = true ->
  ((n =s []) || (or_default (TrimSpace []) (n ++ lit " GitHub App") =s []) || (or_default (TrimSpace []) (githubAppExternalRef id n) =s []))
  = false.
Proof.
  intros Hn. destruct n as [|c n]; [by vm_compute in Hn|]. cbn [str_eqb orb]. unfold or_default, githubAppExternalRef.
  change (TrimSpace [] =s []) with true. cbv iota. by destruct (negb (id =s [])).
Qed.

Lemma fresh_accepted id repository : TrimSpace id = id -> validNumericID id = true -> installed_ok repository ->
  AppRepository.FullName repository <> [] ->
  let r := fresh_entry id repository (or_default (AppRepository.DefaultBranch repository) (lit "main")) in
  normalizeRepository r = inl (with_credential r) /\ Repository.Repository (with_credential r) = TrimSpace (AppRepository.FullName repository)
  /\ Repository.RepositoryID (with_credential r) = fmt_d (AppRepository.ID repository).
Proof.
  intros Ht Hid (Hz & [Hn|Hn] & Hb) Hne; [done|]. cbv zeta. destruct (numeric_id _ Hz) as [Hnum Htr].
  split; [|split; [done|exact Htr]]. apply normalize_bare; [by repeat split|].
  unfold checked, with_credential, filled_repository, fresh_entry. cbv zeta.
  cbn [Repository.Repository Repository.CredentialName Repository.ExternalRef Repository.InstallationID Repository.RepositoryID
    Repository.ApplicationID Repository.Branch Repository.WorkflowID Repository.BuildContext Repository.Dockerfile
    Repository.ImageRef Repository.BuildMatrix Repository.Runner Repository.PathFilters].
  rewrite Htr, Ht, Hid, Hnum, Hn, Hb, !andb_false_r, credential_named by done. by repeat split.
Qed.

Lemma checked_normal input p : normalizeRepository input = inl p -> checked p /\ exists status, p = filled_repository input status.
Proof.
  unfold normalizeRepository. destruct (NormalizeCredentialStatus _) as [status ok]. destruct (negb ok); [done|].
  destruct (checked_repository _) eqn:E; [done|]. intros [= <-]. split; [by apply checked_iff|by exists status].
Qed.

Lemma kept_accepted id repository p input : TrimSpace id = id -> validNumericID id = true -> (0 < AppRepository.ID repository)%Z ->
  normalizeRepository input = inl p -> normalizePathFilters (Repository.PathFilters p) = Repository.PathFilters p ->
  AppRepository.FullName repository = Repository.Repository p ->
  let r := kept_entry id repository (or_default (AppRepository.DefaultBranch repository) (lit "main")) p in
  normalizeRepository r = inl (with_credential r) /\ keeps_settings p (with_credential r).
Proof.
  intros Ht Hid Hz [Hp [status Hf]]%checked_normal Hfilters Hname. cbv zeta. destruct (numeric_id _ Hz) as [Hnum Htr].
  assert (Hkeeps : keeps_settings p (with_credential (kept_entry id repository (or_default (AppRepository.DefaultBranch repository) (lit "main")) p))).
  { unfold keeps_settings, with_credential, filled_repository, kept_entry. rewrite Hname. rewrite Hf in *. destruct input.
    cbn in Hfilters |- *. rewrite !or_default_kept, !TrimSpace_idem, !or_default_trimmed, !or_default_again by done.
    rewrite Hfilters. by repeat split. }
  split; [|exact Hkeeps]. apply normalize_bare; [by repeat split|]. revert Hp. unfold checked.
  destruct Hkeeps as (-> & -> & -> & -> & -> & -> & -> & -> & -> & _ & ->). intros (_ & Hn & _ & _ & Hrest).
  unfold with_credential, filled_repository, kept_entry. rewrite Hname.
  cbn [Repository.CredentialName Repository.ExternalRef Repository.InstallationID Repository.RepositoryID Repository.Repository].
  rewrite Htr, Ht, Hid, Hnum, Hn, !andb_false_r.
  assert (Hnt : TrimSpace (Repository.Repository p) = Repository.Repository p).
  { rewrite Hf. destruct input. apply TrimSpace_idem. }
  rewrite Hnt, credential_named by done. do 4 (split; [done|]). exact Hrest.
Qed.

(** *** All entries *)

Lemma all_accepted id l : id <> [] ->
  Forall (fun r => Repository.InstallationID r = id /\ normalizeRepository r = inl (with_credential r)) l ->
  normalize_all id l = inl (map with_credential l).
Proof.
  intros Hid%str_eqb_neq. induction 1 as [|r l [Hi Hr] _ IH]; [done|]. cbn [normalize_all map]. unfold with_installation.
  by rewrite Hi, Hid, Hr, IH.
Qed.

Lemma parsed_normal raw cfg p : ParseConfig raw = inl cfg -> p ∈ Config.Repositories cfg -> exists input, normalizeRepository input = inl p.
Proof.
  unfold ParseConfig. intros (c & _ & Hc)%rbind_ok. destruct (_ && _); [done|]. apply rbind_ok in Hc as (l & Hl & [= <-]). cbn.
  generalize dependent l. generalize (Config.Repositories c) as given. intros given. induction given as [|r given IH]; intros l; cbn [normalize_all].
  - intros [= <-] Hin. by apply elem_of_nil in Hin.
  - intros (n & Hn & (rest & Hrest & [= <-])%rbind_ok)%rbind_ok [->|Hin]%elem_of_cons; [by eexists|by apply (IH rest)].
Qed.

Lemma parsed_installation raw cfg : ParseConfig raw = inl cfg -> Config.InstallationID cfg <> [] ->
  TrimSpace (Config.InstallationID cfg) = Config.InstallationID cfg /\ validNumericID (Config.InstallationID cfg) = true.
Proof.
  unfold ParseConfig. intros (c & _ & Hc)%rbind_ok Hne. destruct (_ && _) eqn:E; [done|]. apply rbind_ok in Hc as (l & _ & [= <-]).
  cbn in *. split; [apply TrimSpace_idem|]. apply str_eqb_neq in Hne. rewrite Hne in E. by apply negb_false_iff in E.
Qed.

Lemma entry_cases id repos existing r : r ∈ config_entries id repos existing ->
  exists repo, repo ∈ repos /\ AppRepository.FullName repo <> []
    /\ let branch := or_default (AppRepository.DefaultBranch repo) (lit "main") in
       r = fresh_entry id repo branch
       \/ exists p, p ∈ existing /\ AppRepository.FullName repo = Repository.Repository p /\ r = kept_entry id repo branch p.
Proof.
  intros Hr%list_elem_of_In. apply in_flat_map in Hr as (repo & Hrepo & Hr). exists repo. split; [by apply list_elem_of_In|].
  unfold installed_entries in Hr. destruct (AppRepository.FullName repo =s []) eqn:En; [done|]. apply str_eqb_neq in En. split; [done|].
  destruct (List.filter _ existing) as [|p0 l] eqn:Ef; [destruct Hr as [<-|[]]; by left|]. rewrite <- Ef in Hr. right.
  apply in_map_iff in Hr as (p & <- & [Hp Hname%str_eqb_eq]%filter_In). exists p. split; [by apply list_elem_of_In|]. by rewrite Hname.
Qed.

Lemma kept_present id repos existing p repo : p ∈ existing -> repo ∈ repos -> AppRepository.FullName repo = Repository.Repository p ->
  Repository.Repository p <> [] ->
  kept_entry id repo (or_default (AppRepository.DefaultBranch repo) (lit "main")) p ∈ config_entries id repos existing.
Proof.
  intros Hp%list_elem_of_In Hrepo%list_elem_of_In Hname Hne. apply list_elem_of_In, in_flat_map. exists repo. split; [done|].
  unfold installed_entries. rewrite Hname. apply str_eqb_neq in Hne. rewrite Hne.
  assert (Hin : In p (List.filter (fun previous => Repository.Repository previous =s Repository.Repository p) existing)).
  { apply filter_In. split; [done|]. by apply str_eqb_eq. }
  destruct (List.filter _ existing) as [|p0 l] eqn:Ef; [done|]. by apply in_map.
Qed.

Lemma installed_present id repos existing repo : repo ∈ repos -> AppRepository.FullName repo <> [] ->
  exists r, r ∈ config_entries id repos existing /\ Repository.Repository r = AppRepository.FullName repo
    /\ Repository.RepositoryID r = fmt_d (AppRepository.ID repo).
Proof.
  intros Hrepo%list_elem_of_In Hne. apply str_eqb_neq in Hne.
  assert (K : exists r, In r (installed_entries id existing repo) /\ Repository.Repository r = AppRepository.FullName repo
    /\ Repository.RepositoryID r = fmt_d (AppRepository.ID repo)).
  { unfold installed_entries. rewrite Hne. destruct (List.filter _ existing) as [|p l]; eexists; (split; [by left|done]). }
  destruct K as (r & Hin & K). exists r. split; [|exact K]. apply list_elem_of_In, in_flat_map. by exists repo.
Qed.

Lemma synced_entries raw cfg repos (Hcfg : ParseConfig raw = inl cfg) (Hid : Config.InstallationID cfg <> [])
    (Hrepos : Forall installed_ok repos)
    (Hfilters : Forall (fun p => normalizePathFilters (Repository.PathFilters p) = Repository.PathFilters p) (Config.Repositories cfg)) :
  let entries := config_entries (Config.InstallationID cfg) repos (Config.Repositories cfg) in
  Forall bare entries /\ normalize_all (Config.InstallationID cfg) entries = inl (map with_credential entries).
Proof.
  cbv zeta. destruct (parsed_installation _ _ Hcfg Hid) as [Ht Hnum]. rewrite Forall_forall in Hrepos. rewrite Forall_forall in Hfilters.
  split; [|apply all_accepted; [exact Hid|]]; apply Forall_forall; intros r (repo & Hrepo & Hne & [->|(p & Hp & Hname & ->)])%entry_cases;
    try (by repeat split); split; try done.
  - by apply (fresh_accepted _ repo Ht Hnum (Hrepos repo Hrepo) Hne).
  - destruct (parsed_normal _ _ _ Hcfg Hp) as [input Hinput]. destruct (Hrepos repo Hrepo) as [Hz _].
    by apply (kept_accepted _ repo p input Ht Hnum Hz Hinput (Hfilters p Hp) Hname).
Qed.

(** C20: what a synchronisation with GitHub stores reads back as what it is meant to
    be.  For a connector with an installation, and repositories that GitHub reports
    with a name and a default branch the connector accepts, the configuration is
    parsed to the same installation; a repository that was configured and is still
    installed keeps its branch, workflow, build, image, runner, application and path
    filters (those the normalisation does not change: it is not idempotent);
    every repository that is installed is configured with its identifier, and none
    that is not installed. *)
Theorem sync_keeps_build_settings raw cfg repos config (Hcfg : ParseConfig raw = inl cfg) (Hid : Config.InstallationID cfg <> [])
    (Hrepos : Forall installed_ok repos)
    (Hfilters : Forall (fun p => normalizePathFilters (Repository.PathFilters p) = Repository.PathFilters p) (Config.Repositories cfg))
    (Hconfig : githubConfigFromInstallationRepositoriesWithDefaults (Config.InstallationID cfg) repos (Config.Repositories cfg) = inl config) :
  exists cfg', ParseConfig config = inl cfg' /\ Config.InstallationID cfg' = Config.InstallationID cfg
  /\ (forall p repo, p ∈ Config.Repositories cfg -> repo ∈ repos -> AppRepository.FullName repo = Repository.Repository p ->
        exists r, r ∈ Config.Repositories cfg' /\ keeps_settings p r)
  /\ (forall repo, repo ∈ repos -> AppRepository.FullName repo <> [] ->
        exists r, r ∈ Config.Repositories cfg' /\ Repository.Repository r = TrimSpace (AppRepository.FullName repo)
          /\ Repository.RepositoryID r = fmt_d (AppRepository.ID repo))
  /\ (forall r, r ∈ Config.Repositories cfg' ->
        exists repo, repo ∈ repos /\ Repository.Repository r = TrimSpace (AppRepository.FullName repo)).
Proof.
  destruct (synced_entries raw cfg repos Hcfg Hid Hrepos Hfilters) as [Hbare Hall]. cbv zeta in Hbare, Hall.
  destruct (parsed_installation _ _ Hcfg Hid) as [Ht Hnum]. set (entries := config_entries _ _ _) in *.
  exists (Config.mk (Config.InstallationID cfg) (map with_credential entries)).
  assert (E : config = Some (JObj [(lit "installation_id", jstr (Config.InstallationID cfg));
                                   (lit "repositories", JArr (map repository_config_json entries))])).
  { revert Hconfig. unfold githubConfigFromInstallationRepositoriesWithDefaults. fold entries. by destruct entries; intros [= <-]. }
  subst config. split; [unfold ParseConfig; rewrite (config_read _ _ Hbare); cbn [wrap_err rbind Config.InstallationID Config.Repositories];
    rewrite Ht, Hnum, andb_false_r, Hall; done|]. cbn [Config.InstallationID Config.Repositories]. split; [done|].
  assert (Hentry : forall r, r ∈ entries -> with_credential r ∈ map with_credential entries)
    by (intros r Hr; apply list_elem_of_In, in_map; by apply list_elem_of_In).
  split; [|split].
  - intros p repo Hp Hrepo Hname. destruct (parsed_normal _ _ _ Hcfg Hp) as [input Hinput]. rewrite Forall_forall in Hrepos.
    destruct (Hrepos repo Hrepo) as [Hz _]. rewrite Forall_forall in Hfilters.
    destruct (checked_normal _ _ Hinput) as [[Hset _] _]. apply orb_false_iff in Hset as [[Hset%str_eqb_neq _]%orb_false_iff _].
    eexists. split; [apply Hentry, (kept_present _ _ _ p repo); done|].
    by apply (kept_accepted _ repo p input Ht Hnum Hz Hinput (Hfilters p Hp) Hname).
  - intros repo Hrepo Hne. destruct (installed_present (Config.InstallationID cfg) repos (Config.Repositories cfg) repo Hrepo Hne) as (r & Hr & En & Ei).
    exists (with_credential r). split; [by apply Hentry|]. unfold with_credential, filled_repository. destruct r. cbn in En, Ei |- *. rewrite En, Ei.
    split; [done|]. rewrite Forall_forall in Hrepos. by apply numeric_id, (Hrepos repo Hrepo).
  - intros r (e & -> & He)%list_elem_of_fmap. apply entry_cases in He as (repo & Hrepo & _ & He). exists repo. split; [done|].
    destruct He as [->|(p & _ & Hname & ->)]; done.
Qed.

End Sync.

(** ** Builds started by hand *)

(** A rune that trimming removes is white space. *)
Lemma trimmed_runes s r : r ∈ runes s -> r ∈ runes (TrimSpace s) \/ is_space r = true.
Proof.
  unfold runes, TrimSpace. rewrite decode_trim. unfold trim_segs.
  destruct (drop_while_suffix (fun sg : seg => is_space sg.1) (decode s)) as (a & Ha & Hpa).
  destruct (drop_while_end_prefix (fun sg : seg => is_space sg.1) (drop_while (fun sg : seg => is_space sg.1) (decode s))) as (c & Hc & Hpc).
  rewrite forallb_forall in Hpa. rewrite forallb_forall in Hpc.
  rewrite Ha, Hc at 1. rewrite !map_app, !elem_of_app.
  intros [(x & -> & Hx%list_elem_of_In)%list_elem_of_fmap|[Hr|(x & -> & Hx%list_elem_of_In)%list_elem_of_fmap]]; [|by left|]; right.
  - by apply Hpa.
  - by apply Hpc.
Qed.

Lemma commit_no_dollar sha : ValidCommitSHA sha = true -> "$"%char ∉ sha.
Proof.
  unfold ValidCommitSHA, gitCommitSHAPattern. rewrite MatchString_rep. intros [Hhex _]%andb_true_iff Hin.
  assert (Hr : (36 : rune)%N ∈ runes sha).
  { pose proof (count_runes (fun r => (r =? 36)%N) sha) as Hcount. rewrite forallb_forall in Hhex.
    destruct (List.filter (fun r => (r =? 36)%N) (runes sha)) as [|r l] eqn:Ef.
    - exfalso. assert (Hl : In "$"%char (List.filter (fun c => (b2n c =? 36)%N) sha)) by (apply filter_In; split; [by apply list_elem_of_In|done]).
      destruct (List.filter (fun c => (b2n c =? 36)%N) sha); [done|]. cbn in Hcount.
      assert (Hd : forall r, (r =? 36)%N = true -> (r < 128)%N) by (intros r ->%N.eqb_eq; lia). by specialize (Hcount Hd).
    - assert (Hl : In r (List.filter (fun r => (r =? 36)%N) (runes sha))) by (rewrite Ef; by left).
      apply filter_In in Hl as [Hl ->%N.eqb_eq]. by apply list_elem_of_In. }
  apply trimmed_runes in Hr as [Hr|Hr]; [|done]. rewrite forallb_forall in Hhex.
  by specialize (Hhex _ (proj1 (list_elem_of_In _ _) Hr)).
Qed.

Lemma replace_absent c old new s : c ∉ s -> ReplaceAll s (c :: old) new = s.
Proof.
  unfold ReplaceAll. induction s as [|d s IH]; [done|]. rewrite not_elem_of_cons. intros [Hd Hs]. cbn [replace_from HasPrefix].
  rewrite bool_decide_false by congruence. cbn [andb]. f_equal. by apply IH.
Qed.

Lemma template_kept commit sha : ValidCommitSHA sha = true -> expand_template commit sha = sha.
Proof.
  intros Hd%commit_no_dollar. unfold expand_template. change (lit "${COMMIT_SHA}") with ("$"%char :: lit "{COMMIT_SHA}").
  change (lit "${SHORT_SHA}") with ("$"%char :: lit "{SHORT_SHA}"). by rewrite !replace_absent by (by rewrite ?replace_absent).
Qed.

Section Builds.
Context `{UnicodeTables} `{UuidLib} `{SshLib} `{PgJson} `{FoldTable} `{Yaml}.

Definition no_dispatch X (e : apiE X) : Prop :=
  match e with CDispatchWorkflow _ _ _ _ _ | QCreateBuildRun _ => False | _ => True end.

Lemma quiet_error err : only no_dispatch (writeError err).
Proof. unfold writeError. by destruct (error_response err). Qed.
Lemma quiet_connector id : only no_dispatch (connector_by_id id).
Proof. done. Qed.
Lemma quiet_resolve repository inputs : only no_dispatch (resolveGitHubBuildCommit repository inputs).
Proof. unfold resolveGitHubBuildCommit. by destruct (negb _). Qed.
Lemma quiet_resolved account request : only no_dispatch (resolved_request account request).
Proof.
  unfold resolved_request. apply only_bind_ok; [done|]. intros a. apply only_bind_ok; [done|]. intros repository. cbv zeta.
  destruct (_ =s []); [done|]. apply only_bind_ok; [apply quiet_resolve|]. done.
Qed.

Definition commit_input (inputs : gmap str str) : str := default [] (inputs !! lit "commit_sha").

Lemma resolve_valid repository inputs tr inputs' :
  runs (resolveGitHubBuildCommit repository inputs) tr (inl inputs') -> ValidCommitSHA (commit_input inputs') = true
  /\ inputs' !! lit "commit_sha" = Some (commit_input inputs').
Proof.
  unfold resolveGitHubBuildCommit. destruct (negb _).
  - intros [_ Hr]. revert Hr. destruct (ValidCommitSHA _) eqn:Es; [|done]. intros [= ->].
    unfold commit_input. by rewrite !lookup_insert_eq.
  - intros (tr1 & commit & tr2 & -> & Hc%runs_call & [_ Hr])%runs_bind. destruct commit as [commit|err]; [|done]. cbn [wrap_err rbind] in Hr.
    revert Hr. destruct (ValidCommitSHA _) eqn:Es; [|done]. intros [= ->]. unfold commit_input. by rewrite !lookup_insert_eq.
Qed.

Lemma resolved_valid account request tr repository request' :
  runs (resolved_request account request) tr (inl (repository, request')) ->
  ValidCommitSHA (commit_input (RequestInputs request')) = true
  /\ RequestInputs request' !! lit "commit_sha" = Some (commit_input (RequestInputs request'))
  /\ validateGitHubBuildDispatchRequest request' = None.
Proof.
  unfold resolved_request. intros [(e & _ & [=])|(tr1 & a & tr2 & -> & _ & Hr)]%runs_bind_ok.
  apply runs_bind_ok in Hr as [(e & _ & [=])|(tr3 & repo & tr4 & -> & _ & Hr)]. cbv zeta in Hr.
  destruct (_ =s []); [by destruct Hr|]. apply runs_bind_ok in Hr as [(e & _ & [=])|(tr5 & inputs & tr6 & -> & Hi & Hr)].
  apply resolve_valid in Hi as [Hv Hl]. destruct Hr as [_ Hr]. revert Hr. fold (commit_input inputs).
  destruct (validateGitHubBuildDispatchRequest _) eqn:Ev; [done|]. intros [= -> ->]. cbn [RequestInputs].
  assert (E : expandGitHubBuildInputTemplates inputs (commit_input inputs) !! lit "commit_sha" = Some (commit_input inputs)).
  { unfold expandGitHubBuildInputTemplates. rewrite lookup_fmap, Hl. cbn. by rewrite template_kept. }
  assert (Ec : commit_input (expandGitHubBuildInputTemplates inputs (commit_input inputs)) = commit_input inputs)
    by (unfold commit_input at 1; by rewrite E).
  rewrite Ec, E. by split.
Qed.
(** A call that [p] does not make comes after it. *)
Lemma runs_bind_later {A B} (P : forall X, apiE X -> Prop) (p : H A) (f : A -> H B) tr b X (e : apiE X) x :
  only P p -> ~ P X e -> runs (pbind p f) tr b -> Ev e x ∈ tr ->
  exists tr1 a tr2, tr = tr1 ++ tr2 /\ runs p tr1 a /\ runs (f a) tr2 b /\ Ev e x ∈ tr2.
Proof.
  intros Hp He (tr1 & a & tr2 & -> & Hr1 & Hr2)%runs_bind Hin. exists tr1, a, tr2. split; [done|]. split; [done|]. split; [done|].
  apply elem_of_app in Hin as [Hin|Hin]; [|exact Hin]. by destruct (He (only_event _ _ _ _ _ _ _ Hp Hr1 Hin)).
Qed.

(** What is sent to the workflow of a build. *)
Definition sent_for (build : BuildRun.t) (arg : CreateBuildRunParams.t) (repository workflow branch : str) (inputs : gmap str str) : Prop :=
  repository = CreateBuildRunParams.Repository arg /\ workflow = CreateBuildRunParams.WorkflowID arg
  /\ branch = CreateBuildRunParams.Branch arg
  /\ inputs !! lit "deploy_manager_build_id" = Some (uuidString (BuildRun.ID build))
  /\ TrimSpace (default [] (inputs !! lit "image_ref")) <> []
  /\ exists sha, inputs !! lit "commit_sha" = Some sha /\ ValidCommitSHA sha = true
       /\ CreateBuildRunParams.CommitSha arg = blankStringAsText sha.

Definition failed_build (build : BuildRun.t) (err : goerror) : CompleteBuildRunParams.t :=
  CompleteBuildRunParams.mk (BuildRun.ID build) (lit "failed") textNull textNull textNull (blankStringAsText (buildErrorMessage err)).

(** The dispatch that an event is. *)
Definition dispatch_of (ev : event apiE) : option (str * str * str * str * gmap str str * option goerror) :=
  match ev with
  | Ev e x =>
      match e in apiE X return X -> option (str * str * str * str * gmap str str * option goerror) with
      | CDispatchWorkflow inst repo wf branch inputs => fun err => Some (inst, repo, wf, branch, inputs, err)
      | _ => fun _ => None
      end x
  end.

Lemma dispatch_after r account repository request build tr u inst repo wf branch inputs err :
  runs (dispatch_recorded r account repository request build) tr u -> Ev (CDispatchWorkflow inst repo wf branch inputs) err ∈ tr ->
  exists tr2, tr = Ev (CDispatchWorkflow inst repo wf branch inputs) err :: tr2
    /\ repo = Repository.Repository repository /\ wf = RequestWorkflow request /\ branch = Repository.Branch repository
    /\ inputs = githubBuildWorkflowInputs (RequestInputs request) build
    /\ (forall e, err = Some e -> exists x tr3, tr2 = Ev (QCompleteBuildRun (failed_build build e)) x :: tr3).
Proof.
  unfold dispatch_recorded. intros (tr1 & err1 & tr2 & -> & Hc%runs_call & Hr)%runs_bind Hin. subst tr1. cbn [app] in *.
  assert (Hno : ~ Ev (CDispatchWorkflow inst repo wf branch inputs) err ∈ tr2).
  { intros Hin2. assert (Hq : only no_dispatch (match err1 with
      | Some err => let! _ := call (QCompleteBuildRun (failed_build build err)) in writeError err
      | None => let! _ := audit r (lit "github.build_dispatch") (lit "repository") (Repository.Repository repository) (Repository.Branch repository)
          (Some [(lit "connector_id", jstr (uuidString (ConnectorAccount.ID account)));
                 (lit "build_id", jstr (uuidString (BuildRun.ID build))); (lit "workflow_id", jstr (RequestWorkflow request));
                 (lit "provider", jstr (lit "github_actions"))]) in writeJSON StatusAccepted (VBuild build) end)).
    { destruct err1 as [e1|]; [|by repeat split]. apply only_bind; [done|]. intros _. apply quiet_error. }
    exact (only_event _ _ _ _ _ _ _ Hq Hr Hin2). }
  apply elem_of_cons in Hin as [Heq|Hin]; [|done]. clear Hno.
  apply (f_equal dispatch_of) in Heq. injection Heq as -> -> -> -> -> ->. exists tr2. split; [done|]. do 4 (split; [done|]).
  intros e ->. apply runs_bind in Hr as (tr3 & x & tr4 & -> & ->%runs_call & _). by exists x, tr4.
Qed.

Lemma sent_inputs account repository request build :
  ValidCommitSHA (commit_input (RequestInputs request)) = true ->
  RequestInputs request !! lit "commit_sha" = Some (commit_input (RequestInputs request)) ->
  validateGitHubBuildDispatchRequest request = None ->
  sent_for build (build_params account repository request) (Repository.Repository repository) (RequestWorkflow request)
    (Repository.Branch repository) (githubBuildWorkflowInputs (RequestInputs request) build).
Proof.
  intros Hv Hl Hval. unfold sent_for, githubBuildWorkflowInputs. do 3 (split; [done|]).
  split; [rewrite !lookup_insert_ne by done; apply lookup_insert_eq|]. split.
  - rewrite !lookup_insert_ne by done. revert Hval. unfold validateGitHubBuildDispatchRequest.
    destruct (_ =s []); [done|]. destruct (_ && _); [done|]. destruct (ContainsAny _ _); [done|]. unfold image_input.
    destruct (TrimSpace _ =s []) eqn:E; [done|]. intros _. by apply str_eqb_neq.
  - exists (commit_input (RequestInputs request)). rewrite !lookup_insert_ne by done. by repeat split.
Qed.


End Builds.
