(* ===== verification/HttpProxyFacts.v ===== *)
(** * Proxy routes are applied or marked as failed

    The outcome of the manager on the database, and what an accepted route
    guarantees. *)

From S2P Require Import Prelude GoStrings GoStringsFacts GoRegexp GoJson GoNet StringUtil AuditLog.
From S2P Require Import Db DbHttp DbApplications DbServers RemoteSteps ProxyCommands Effects Runner.
From S2P Require Import Queue Engine QueueFacts GoHttp HttpCore HttpDeployments HttpApplications HttpServers.
From S2P Require Import HttpProxy HttpEngine HttpVariablesStore HttpDeploymentsFacts.

(** ** Domains *)

Lemma SplitByte_mid c p s : SplitByte c (p ++ c :: s) = SplitByte c p ++ SplitByte c s.
Proof.
  induction p as [|d p IH]; cbn [app SplitByte]; [by rewrite bool_decide_true|]. case_bool_decide; [by rewrite IH|].
  rewrite IH. destruct (SplitByte c p) as [|w ws] eqn:E; [by apply SplitByte_nonempty in E|done].
Qed.

(** The first and the last part. *)
Lemma SplitByte_first c d s : d <> c -> exists w ws, SplitByte c (d :: s) = (d :: w) :: ws.
Proof.
  intros Hd. cbn [SplitByte]. rewrite bool_decide_false by done.
  destruct (SplitByte c s) as [|w ws] eqn:E; [by apply SplitByte_nonempty in E|]. by exists w, ws.
Qed.

Lemma SplitByte_last c d s : d <> c -> exists w ws, SplitByte c (s ++ [d]) = ws ++ [w ++ [d]].
Proof.
  intros Hd. induction s as [|e s IH]; cbn [app SplitByte].
  - rewrite bool_decide_false by done. by exists [], [].
  - destruct IH as (w & ws & ->). case_bool_decide as He; [by exists w, ([] :: ws)|].
    destruct ws as [|v ws]; [by exists (e :: w), []|by exists w, ((e :: v) :: ws)].
Qed.

Lemma first_error_none {A} (f : A -> option goerror) l : first_error f l = None <-> forall x, x ∈ l -> f x = None.
Proof.
  induction l as [|x l IH]; cbn [first_error fold_right].
  - split; [by intros _ x ?%not_elem_of_nil|done].
  - fold (first_error f l). destruct (f x) eqn:E.
    + split; [done|]. intros Hf. by rewrite (Hf x) in E by by left.
    + rewrite IH. split; [intros Hl y [->|Hy]%elem_of_cons; [done|by apply Hl]|intros Hl y Hy; apply Hl; by right].
Qed.

(** No label of a valid domain is empty or has a hyphen at an end. *)
Definition label_ok (l : str) : Prop :=
  l <> [] /\ (forall t, l <> "-"%char :: t) /\ (forall t, l <> t ++ ["-"%char]) /\ (length l <= 63)%nat.

Lemma domain_label_ok l : domain_label_error l = None -> label_ok l.
Proof.
  unfold domain_label_error. destruct (l =s []) eqn:En; [done|]. destruct (63 <? length l)%nat eqn:El; [done|].
  destruct (HasPrefix l (lit "-") || HasSuffix l (lit "-")) eqn:Eh; [done|]. intros _.
  apply orb_false_iff in Eh as [Hp Hs]. apply str_eqb_neq in En. apply Nat.ltb_ge in El.
  split; [done|]. split; [by intros t ->|]. split; [|done]. intros t Ht.
  assert (Hx : HasSuffix l (lit "-") = true) by (apply HasSuffix_true; by exists t). congruence.
Qed.

Definition labels_ok (d : str) : Prop := forall l, l ∈ SplitByte "."%char d -> label_ok l.

Lemma hyphen_first s : ~ labels_ok ("-"%char :: s).
Proof.
  intros Hl. destruct (SplitByte_first "."%char "-"%char s) as (w & ws & E); [done|].
  destruct (Hl ("-"%char :: w)) as (_ & Hn & _); [rewrite E; by left|]. by apply (Hn w).
Qed.

Lemma hyphen_last s : ~ labels_ok (s ++ ["-"%char]).
Proof.
  intros Hl. destruct (SplitByte_last "."%char "-"%char s) as (w & ws & E); [done|].
  destruct (Hl (w ++ ["-"%char])) as (_ & _ & Hn & _); [rewrite E; apply elem_of_app; right; by left|]. by apply (Hn w).
Qed.

Lemma labels_ok_mid a b : labels_ok (a ++ "."%char :: b) -> labels_ok a /\ labels_ok b.
Proof.
  unfold labels_ok. rewrite SplitByte_mid. intros Hl. split; intros l Hin; apply Hl, elem_of_app; [by left|by right].
Qed.

Lemma labels_no_boundary d : is_ascii d = true -> labels_ok d -> MatchString label_boundary_pattern d = false.
Proof.
  intros Ha Hl. apply not_true_iff_false. rewrite MatchString_matches, (decode_ascii d Ha).
  intros (a & u & v & Hd & Hm).
  change (map (fun c => (b2n c, [c])) d) with (segs d) in Hd. unfold segs in Hd.
  apply map_eq_app in Hd as (x & yz & -> & <- & Hd). apply map_eq_app in Hd as (y & z & -> & <- & <-).
  fold (segs x) (segs y) (segs z) in Hm. unfold label_boundary_pattern in Hm.
  change (RAlts [?p; ?q; ?r]) with (RAlt p (RAlt q r)) in Hm. cbn [matches] in Hm. destruct Hm as [Hm|[Hm|Hm]].
  - apply matches_seq_segs in Hm as (y1 & y2 & -> & H1 & H2). apply matches_lit_segs in H2 as ->; [|done].
    destruct H1 as [[H1 Hx]|H1].
    + unfold before in Hx. destruct (last (segs x)) as [|] eqn:El; [done|]. apply last_None in El.
      destruct x; [|done]. destruct y1; [|done]. cbn [app] in Hl. by apply hyphen_first in Hl.
    + apply matches_lit_segs in H1 as ->; [|done]. rewrite <- app_assoc in Hl. cbn [app] in Hl.
      apply labels_ok_mid in Hl as [_ Hl]. by apply hyphen_first in Hl.
  - apply matches_seq_segs in Hm as (y1 & y2 & -> & H1 & H2). apply matches_lit_segs in H1 as ->; [|done].
    destruct H2 as [H2|[H2 Hz]].
    + apply matches_lit_segs in H2 as ->; [|done]. rewrite <- app_assoc in Hl. cbn [app] in Hl.
      change (x ++ "-"%char :: "."%char :: z) with (x ++ ["-"%char] ++ "."%char :: z) in Hl. rewrite app_assoc in Hl.
      apply labels_ok_mid in Hl as [Hl _]. by apply hyphen_last in Hl.
    + destruct y2; [|done]. destruct z; [|done]. cbn [app] in Hl. rewrite app_nil_r in Hl. by apply hyphen_last in Hl.
  - apply matches_lit_segs in Hm as ->; [|done]. cbn [app] in Hl. apply labels_ok_mid in Hl as [_ Hl].
    destruct (Hl []) as (Hn & _); [cbn [SplitByte]; rewrite bool_decide_true by done; by left|done].
Qed.

Section Accepted.
Context `{UnicodeTables} `{Resolver}.

Lemma domain_char_ascii r : domain_char_ok r = true -> (r < 128)%N.
Proof.
  unfold domain_char_ok, is_lower_ascii, is_digit, in_range, class. rewrite !orb_true_iff, !andb_true_iff, !N.leb_le.
  cbn. rewrite !orb_true_iff, !N.eqb_eq. intuition (try lia; try done).
Qed.

(** A domain that the program accepts, as it is stored. *)
Lemma valid_domain_check d : ToLower (TrimSpace d) = d -> ValidateDomain d = None -> domain_check d = true.
Proof.
  intros Hd. unfold ValidateDomain. rewrite Hd. cbv zeta. destruct (forallb domain_char_ok (runes d)) eqn:Ec; [|done].
  cbn [negb]. unfold validateDomainLabels. destruct (d =s []) eqn:En; [done|]. destruct (253 <? length d)%nat eqn:El; [done|].
  rewrite first_error_none. intros Hlabels. apply Nat.ltb_ge in El. apply str_eqb_neq in En.
  assert (Ha : is_ascii d = true).
  { rewrite (runes_bytes _ _ domain_char_ascii) in Ec. apply forallb_forall. intros c Hc. apply N.ltb_lt, domain_char_ascii.
    rewrite forallb_forall in Ec. by apply Ec. }
  unfold domain_check. rewrite labels_no_boundary; [|done|intros l Hin; by apply domain_label_ok, Hlabels].
  unfold char_length. rewrite (runes_ascii d Ha), length_map, (proj2 (Nat.leb_le _ _) El).
  assert (Hb : btrim d = d).
  { unfold btrim, Trim. apply TrimFunc_none. rewrite forallb_forall in Ec |- *. intros r Hr. specialize (Ec r Hr).
    apply negb_true_iff, not_true_iff_false. intros (y & Hy & Heq)%existsb_exists.
    apply N.eqb_eq in Heq. subst y. destruct Hy as [<-|[]]. done. }
  rewrite Hb, (proj2 (str_eqb_neq _ _) En). cbn [negb andb]. rewrite andb_true_r, <- (runes_ascii d Ha). exact Ec.
Qed.

(** The command of an accepted route can be built, and so can the one that removes it. *)
Lemma valid_target_builds t : ToLower (TrimSpace (ProxyTarget.Domain t)) = ProxyTarget.Domain t -> ValidateTarget t = None ->
  is_ok (BuildCommand t) = true /\ is_ok (BuildRemoveCommand (ProxyTarget.Domain t) (ProxyTarget.ProxyType t)) = true
  /\ ValidateDomain (ProxyTarget.Domain t) = None.
Proof.
  intros Hd Hv. unfold BuildCommand, BuildRemoveCommand. rewrite Hv. cbn [check rbind ProxyTarget.Domain ProxyTarget.ProxyType].
  unfold ValidateTarget in Hv. cbv zeta in *. rewrite Hd.
  destruct (containsUnsafeProxyRune _); [done|]. destruct (TrimSpace (ProxyTarget.Domain t) =s []); [done|].
  destruct (TrimSpace (ProxyTarget.Upstream t) =s []); [done|]. destruct (validateUpstreamURL _); [done|].
  assert (Es : routeSlug (TrimSpace (ProxyTarget.Domain t)) = routeSlug (ProxyTarget.Domain t)).
  { unfold routeSlug. by rewrite TrimSpace_idem. }
  rewrite Es in *. assert (Hok : is_ok (routeSlug (ProxyTarget.Domain t)) = true).
  { destruct (_ || _); [by destruct (routeSlug _)|]. by destruct (_ =s lit "none"). }
  assert (Hdom : ValidateDomain (ProxyTarget.Domain t) = None).
  { unfold routeSlug in Hok. rewrite Hd in Hok. by destruct (ValidateDomain (ProxyTarget.Domain t)). }
  destruct (routeSlug _) as [slug|]; [|done]. cbn [rbind].
  destruct (ProxyTarget.ProxyType t =s lit "caddy"), (ProxyTarget.ProxyType t =s lit "traefik"); cbn [orb] in Hv; try done.
  by destruct (_ =s lit "none").
Qed.

(** The checks on the domain and on the upstream are independent. *)
Lemma valid_target_upstream domain other url url' tls tls' proxyType :
  ValidateTarget (ProxyTarget.mk domain url tls proxyType) = None -> ValidateTarget (ProxyTarget.mk other url' tls' proxyType) = None ->
  ValidateTarget (ProxyTarget.mk domain url' tls' proxyType) = None.
Proof.
  unfold ValidateTarget. cbv zeta. cbn [ProxyTarget.Domain ProxyTarget.Upstream ProxyTarget.ProxyType].
  destruct (containsUnsafeProxyRune url); [done|]. destruct (TrimSpace domain =s []); [done|].
  destruct (TrimSpace url =s []); [done|]. destruct (validateUpstreamURL (TrimSpace url)); [done|]. intros Hd.
  destruct (containsUnsafeProxyRune url'); [done|]. destruct (TrimSpace other =s []); [done|].
  destruct (TrimSpace url' =s []); [done|]. by destruct (validateUpstreamURL (TrimSpace url')).
Qed.

End Accepted.

(** ** The outcome on the database *)

Section Outcome.
Context `{UnicodeTables} `{UuidLib} `{!UuidLaws} `{Resolver} `{SshLib} `{UuidSource} `{PgJson} `{FoldTable}.
Context {Host : Type} `{!Collaborators Host} `{!ApiHost Host}.
Implicit Types (s : api_state (Host := Host)).

Abbreviation go := (run api_handler).

(** The routes with the status of one of them set; it is not changed otherwise. *)
Definition with_status (id : pgUUID_t) (status : str) (applied : option timestamptz) (now : timestamptz) (r : ProxyRoute.t) : ProxyRoute.t :=
  if uuid_eqb (ProxyRoute.ID r) id
  then ProxyRouteRow.set_status r (ProxyRoute.UpstreamUrl r) status (match applied with Some t => t | None => ProxyRoute.LastAppliedAt r end) now
  else r.

Definition failed_route (id : pgUUID_t) s s' : Prop :=
  exists now, Db.routes (a_db s') = map (with_status id (lit "failed") None now) (Db.routes (a_db s)).

Lemma target_row id db target db' : GetProxyRouteTarget id db = inl (target, db') ->
  db' = db /\ exists r rows, List.filter (fun r => uuid_eqb (ProxyRoute.ID r) id) (Db.routes db) = r :: rows.
Proof.
  unfold GetProxyRouteTarget. intros (t & Ht & [= _ <-])%rbind_ok. split; [done|].
  destruct (List.filter _ (Db.routes db)) as [|r rows]; [done|]. by exists r, rows.
Qed.

(** Marking a route that is in the table. *)
Lemma mark_found id set db r rows : List.filter (fun r => uuid_eqb (ProxyRoute.ID r) id) (Db.routes db) = r :: rows ->
  mark_route id set db = inl (set r, with_routes db (map (fun r => if uuid_eqb (ProxyRoute.ID r) id then set r else r) (Db.routes db))).
Proof. intros Hf. unfold mark_route, sql_update. rewrite Hf. done. Qed.

(** What the manager changes: the routes, and the host. *)
Lemma query_done {A} (q : query A) s a db' : q (a_db s) = inl (a, db') ->
  on_db q s = (inl a, set_db s (tick db') (a_saved s)).
Proof. intros Hq. unfold on_db, on_queue, on_engine, lift. cbn. unfold a_db in Hq. by rewrite Hq. Qed.

Lemma query_failed {A} (q : query A) s e : q (a_db s) = inr e -> on_db q s = (inr e, set_db s (tick (a_db s)) (a_saved s)).
Proof. intros Hq. unfold on_db, on_queue, on_engine, lift. cbn. unfold a_db in Hq. by rewrite Hq. Qed.

Lemma signer_run host port user key s :
  go (call (QShared (CSigner host port user key))) s
  = ((do_signer host port user key (q_host (a_queue s))).1, HttpEngine.on_host s (do_signer host port user key (q_host (a_queue s))).2).
Proof.
  rewrite run_call. cbn [api_handler]. unfold on_queue, on_engine. cbn. unfold Engine.on_host. cbn [fst snd].
  by destruct (do_signer _ _ _ _ _).
Qed.

Lemma command_run client command s :
  go (call (QShared (CRun client command))) s
  = ((do_run client command [] (q_host (a_queue s))).1, HttpEngine.on_host s (do_run client command [] (q_host (a_queue s))).2).
Proof.
  rewrite run_call. cbn [api_handler]. unfold on_queue, on_engine. cbn. unfold Engine.on_host. cbn [fst snd].
  by destruct (do_run _ _ _ _).
Qed.

(** A cause becomes the answer once the route is marked. *)
Lemma fail_route_run id cause s s1 r rows :
  List.filter (fun r => uuid_eqb (ProxyRoute.ID r) id) (Db.routes (a_db s)) = r :: rows -> Db.routes (a_db s1) = Db.routes (a_db s) ->
  exists s2, go (fail_route id cause) s1 = (inr cause, s2) /\ failed_route id s s2 /\ q_host (a_queue s2) = q_host (a_queue s1).
Proof.
  intros Hf Hr. unfold fail_route, markFailed. rewrite run_bind, run_bind, run_call.
  change (api_handler _ (QShared (QMarkProxyRouteFailed id)) s1) with (on_db (MarkProxyRouteFailed id) s1).
  rewrite <- Hr in Hf. pose proof (mark_found id (fun r => ProxyRouteRow.set_status r (ProxyRoute.UpstreamUrl r) (lit "failed")
    (ProxyRoute.LastAppliedAt r) (Some (clock (a_db s1)))) (a_db s1) r rows Hf) as Hm.
  rewrite (query_done (MarkProxyRouteFailed id) s1 _ _ Hm). cbn [fst snd]. rewrite run_ret. cbn [fst snd]. rewrite run_ret.
  eexists. split; [done|]. split; [|done]. exists (Some (clock (a_db s1))). cbn. by rewrite Hr.
Qed.

End Outcome.
