(* ===== verification/HttpLogs.v ===== *)
(** * internal/httpapi/deployment_logs.go: listing and streaming deployment logs

    The stream first sends the stored lines and then the lines of the bus; the
    identifier of the last line sent, or of the client's [Last-Event-ID], decides
    which lines are new.  The stream is a program over [streamE]: the calls of the
    other handlers, the subscription, and the writes to the open response; what
    its [select] finds ready is an answer of the environment.  The endless loop is
    its first [turns] turns. *)

From S2P Require Import Prelude GoStrings GoRegexp GoJson GoNet StringUtil AuditLog Db.
From S2P Require Import DbHttp RemoteSteps ProxyCommands Effects Runner GoHttp HttpCore HttpDeployments.

Definition maxDeploymentLogHistory : Z := 500.

Definition parseLastEventID (value : str) : Z :=
  match ParseInt64 value with
  | None => 0
  | Some id => if (id <? 0)%Z then 0%Z else id
  end.

Definition sseID (id : Z) : str := if (id <=? 0)%Z then [] else fmt_d id.

Definition advanceLastEventID (lastEventID eventID : Z) : bool * Z :=
  if (eventID <=? 0)%Z then (true, lastEventID)
  else if (eventID <=? lastEventID)%Z then (false, lastEventID)
  else (true, eventID).

Definition deploymentLookupError (err : goerror) : goerror :=
  if is_no_rows err then ErrNotFound (lit "deployment not found") else err.

(** The Go value that is handed to the JSON encoder. *)
Inductive sse_payload :=
| PHistory (entry : DeploymentLog.t)
| PLive (event : LogEvent.t)
| PMessage (message : str).

(** What [select] finds ready: an event of the bus, its closed channel, the
    ticker, or the end of the request. *)
Inductive stream_input :=
| SEvent (event : LogEvent.t)
| SClosed
| SHeartbeat
| SDone.

Inductive streamE `{SshLib} : Type -> Type :=
| SApi {X : Type} (e : apiE X) : streamE X
| SIsFlusher : streamE bool
| SSubscribe (deploymentID : str) : streamE unit
| SWriteSSEWithID (id event : str) (payload : sse_payload) : streamE unit
| SWriteSSEComment (comment : str) : streamE unit
| SFlush : streamE unit
| SSelect : streamE stream_input.

Section Logs.
Context `{UnicodeTables} `{UuidLib} `{SshLib}.

Definition ensureDeploymentExists (deploymentID : pgUUID_t) : prog apiE (option goerror) :=
  let! deployment := call (QGetDeployment deploymentID) in
  Ret (match deployment with inr err => Some (deploymentLookupError err) | inl _ => None end).

Definition listDeploymentLogs (r : Request) : prog apiE unit :=
  match parseUUIDParam r (lit "deploymentID") with
  | inr err => writeError err
  | inl deploymentID =>
      let! err := ensureDeploymentExists deploymentID in
      match err with
      | Some err => writeError err
      | None =>
          let! logs := call (QListRecentDeploymentLogs deploymentID maxDeploymentLogHistory) in
          match logs with
          | inr err => writeError err
          | inl logs => writeJSON StatusOK (VLogs logs)
          end
      end
  end.

Definition listDeploymentLogHistory (deploymentID : pgUUID_t) (lastEventID : Z)
    : prog apiE (result (list DeploymentLog.t)) :=
  if (0 <? lastEventID)%Z then call (QListDeploymentLogsAfter deploymentID lastEventID maxDeploymentLogHistory)
  else call (QListRecentDeploymentLogs deploymentID maxDeploymentLogHistory).

Definition setSSEHeaders : prog apiE unit :=
  let! _ := call (CSetHeader (lit "Content-Type") (lit "text/event-stream")) in
  let! _ := call (CSetHeader (lit "Cache-Control") (lit "no-cache, no-transform")) in
  let! _ := call (CSetHeader (lit "Connection") (lit "keep-alive")) in
  call (CSetHeader (lit "X-Accel-Buffering") (lit "no")).

Abbreviation P A := (prog streamE A).

Definition api {A} (p : prog apiE A) : P A := pmap (fun X e => SApi e) p.

(** The lines of the history, and the identifier of the last one sent. *)
Fixpoint send_history (entries : list DeploymentLog.t) (lastEventID : Z) : P Z :=
  match entries with
  | [] => Ret lastEventID
  | entry :: t =>
      let '(shouldSend, lastEventID) := advanceLastEventID lastEventID (DeploymentLog.ID entry) in
      if negb shouldSend then send_history t lastEventID
      else let! _ := call (SWriteSSEWithID (sseID (DeploymentLog.ID entry)) (lit "log") (PHistory entry)) in
           send_history t lastEventID
  end.

Fixpoint stream_loop (turns : nat) (lastEventID : Z) : P unit :=
  match turns with
  | O => Ret tt
  | S turns =>
      let! input := call SSelect in
      match input with
      | SEvent event =>
          let '(shouldSend, lastEventID) := advanceLastEventID lastEventID (LogEvent.ID event) in
          if negb shouldSend then stream_loop turns lastEventID
          else let! _ := call (SWriteSSEWithID (sseID (LogEvent.ID event)) (lit "log") (PLive event)) in
               let! _ := call SFlush in stream_loop turns lastEventID
      | SHeartbeat =>
          let! _ := call (SWriteSSEComment (lit "keepalive")) in
          let! _ := call SFlush in stream_loop turns lastEventID
      | SClosed | SDone => Ret tt
      end
  end.

(** The stream of a deployment that exists. *)
Definition stream (turns : nat) (deploymentID : pgUUID_t) (lastEventID : Z) : P unit :=
  let! _ := call (SSubscribe (uuidString deploymentID)) in
  let! history := api (listDeploymentLogHistory deploymentID lastEventID) in
  match history with
  | inr err =>
      let! _ := call (SWriteSSEWithID [] (lit "error") (PMessage (Error err))) in
      call SFlush
  | inl history =>
      let! lastEventID := send_history history lastEventID in
      let! _ := call SFlush in
      stream_loop turns lastEventID
  end.

Definition streamDeploymentLogs (turns : nat) (r : Request) : P unit :=
  match parseUUIDParam r (lit "deploymentID") with
  | inr err => api (writeError err)
  | inl deploymentID =>
      let! err := api (ensureDeploymentExists deploymentID) in
      match err with
      | Some err => api (writeError err)
      | None =>
          let! ok := call SIsFlusher in
          if negb ok then api (writeError (ErrText (lit "streaming is not supported")))
          else
            let! _ := api setSSEHeaders in
            stream turns deploymentID (parseLastEventID (Header r (lit "Last-Event-ID")))
      end
  end.
End Logs.
