(* ===== verification/HttpLogsFacts.v ===== *)
(** * Every log line once, in order

    What a log stream sends, as a function of what the database answered and of
    what the bus delivered, and the two put together: a client that was
    disconnected gets the lines it missed and then the new ones, without
    repetition. *)

From S2P Require Import Prelude GoStrings GoRegexp GoJson GoNet StringUtil AuditLog Db.
From S2P Require Import DbHttp RemoteSteps ProxyCommands Effects Runner GoHttp HttpCore HttpDeployments.
From S2P Require Import HttpLogs.

Section Facts.
Context `{UnicodeTables} `{UuidLib} `{SshLib}.

(** ** What a run sends and what it was given *)

Definition sent_of (ev : event streamE) : option Z :=
  match ev with
  | Ev (SWriteSSEWithID _ _ (PHistory entry)) _ => Some (DeploymentLog.ID entry)
  | Ev (SWriteSSEWithID _ _ (PLive event)) _ => Some (LogEvent.ID event)
  | _ => None
  end.

(** The identifiers of the lines that were written to the stream. *)
Definition sent (tr : list (event streamE)) : list Z := omap sent_of tr.

Definition live_of (ev : event streamE) : option Z :=
  match ev with
  | @Ev _ X e x =>
      match e in streamE X return X -> option Z with
      | SSelect => fun input => match input with SEvent event => Some (LogEvent.ID event) | _ => None end
      | _ => fun _ => None
      end x
  end.

(** The identifiers of the lines that the bus delivered to the stream. *)
Definition live (tr : list (event streamE)) : list Z := omap live_of tr.

Definition history_of (ev : event streamE) : option (list DeploymentLog.t) :=
  match ev with
  | @Ev _ X e x =>
      match e in streamE X return X -> option (list DeploymentLog.t) with
      | SApi e' =>
          fun x => match e' in apiE X return X -> option (list DeploymentLog.t) with
                   | QListDeploymentLogsAfter _ _ _ | QListRecentDeploymentLogs _ _ =>
                       fun res => match res with inl l => Some l | inr _ => None end
                   | _ => fun _ => None
                   end x
      | _ => fun _ => None
      end x
  end.

(** The stored lines that the database answered with. *)
Definition history (tr : list (event streamE)) : list (list DeploymentLog.t) := omap history_of tr.

(** ** The filter *)

(** The lines that are new after [last], in order, and the last of them. *)
Fixpoint fresh_ids (last : Z) (ids : list Z) : list Z * Z :=
  match ids with
  | [] => ([], last)
  | i :: t =>
      let '(send, last) := advanceLastEventID last i in
      let '(rest, last) := fresh_ids last t in
      (if send then i :: rest else rest, last)
  end.

Lemma fresh_ids_app last a b :
  fresh_ids last (a ++ b)
  = ((fresh_ids last a).1 ++ (fresh_ids (fresh_ids last a).2 b).1, (fresh_ids (fresh_ids last a).2 b).2).
Proof.
  revert last. induction a as [|i a IH]; intros last; cbn [fresh_ids app fst snd]; [by destruct (fresh_ids last b)|].
  destruct (advanceLastEventID last i) as [send last']. rewrite IH. destruct (fresh_ids last' a) as [x y]. cbn [fst snd].
  destruct (fresh_ids y b) as [u v]. by destruct send.
Qed.

(** An increasing list: what is sent is what is above [last]. *)
Lemma fresh_sorted last ids :
  StronglySorted Z.lt ids -> Forall (fun i => (0 < i)%Z) ids ->
  fresh_ids last ids = (List.filter (Z.ltb last) ids, foldr Z.max last ids).
Proof.
  revert last. induction ids as [|i t IH]; intros last Hs Hp; [done|].
  apply StronglySorted_inv in Hs as [Hs Hlt]. apply Forall_cons in Hp as [Hi Hp].
  cbn [fresh_ids List.filter foldr]. unfold advanceLastEventID. rewrite (proj2 (Z.leb_gt i 0) Hi).
  destruct (Z.leb_spec i last) as [Hle|Hgt].
  - rewrite (IH last Hs Hp), (proj2 (Z.ltb_ge last i) Hle). f_equal.
    assert (Hm : (last <= foldr Z.max last t)%Z) by (clear; induction t; cbn; lia). lia.
  - rewrite (IH i Hs Hp), (proj2 (Z.ltb_lt last i) Hgt). f_equal.
    + f_equal. apply filter_ext_in. intros x Hx. rewrite Forall_forall in Hlt.
      assert (Hix : (i < x)%Z) by by apply Hlt, list_elem_of_In.
      transitivity true; [|symmetry]; apply Z.ltb_lt; lia.
    + assert (Hm : foldr Z.max i t = Z.max i (foldr Z.max last t)); [|lia].
      clear - Hgt. induction t; cbn; lia.
Qed.

Lemma foldr_max_ge last l x : x ∈ last :: l -> (x <= foldr Z.max last l)%Z.
Proof.
  intros Hx. induction l as [|y l IH]; cbn [foldr].
  - apply list_elem_of_singleton in Hx as ->. done.
  - rewrite !elem_of_cons in *. destruct Hx as [Hx|[Hx|Hx]]; [| |]; try specialize (IH (or_introl Hx));
      try specialize (IH (or_intror Hx)); lia.
Qed.

Lemma foldr_max_lt last l x : (foldr Z.max last l < x)%Z <-> (last < x)%Z /\ Forall (fun y => (y < x)%Z) l.
Proof.
  induction l as [|y l IH]; cbn [foldr]; [split; [by split|by intros []]|].
  rewrite Forall_cons. split; [intros Hm|intros [Hl [Hy Hf]]].
  - destruct IH as [IH _]. destruct IH as [Hl Hf]; [lia|]. repeat split; try done; lia.
  - destruct IH as [_ IH]. specialize (IH (conj Hl Hf)). lia.
Qed.

Lemma sorted_take_drop ids p x y : StronglySorted Z.lt ids -> x ∈ take p ids -> y ∈ drop p ids -> (x < y)%Z.
Proof.
  rewrite <- (take_drop p ids) at 1. intros Hs Hx Hy. revert Hs. generalize dependent (drop p ids). intros b Hy.
  induction (take p ids) as [|z a IH]; [by apply not_elem_of_nil in Hx|]. intros Hs.
  apply StronglySorted_inv in Hs as [Hs Hf]. apply elem_of_cons in Hx as [->|Hx]; [|by apply IH].
  rewrite Forall_forall in Hf. apply Hf, elem_of_app. by right.
Qed.

Lemma sorted_sub (a b c : list Z) : StronglySorted Z.lt (a ++ b ++ c) -> StronglySorted Z.lt b.
Proof.
  intros Hs. induction a as [|x a IH]; [|by apply StronglySorted_inv in Hs as [Hs _]; apply IH].
  cbn [app] in Hs. induction b as [|y b IH]; [constructor|]. apply StronglySorted_inv in Hs as [Hs Hf].
  constructor; [by apply IH|]. apply Forall_app in Hf as [Hf _]. exact Hf.
Qed.

Lemma sorted_filter (f : Z -> bool) l : StronglySorted Z.lt l -> StronglySorted Z.lt (List.filter f l).
Proof.
  induction l as [|x l IH]; [done|]. intros Hs. apply StronglySorted_inv in Hs as [Hs Hf]. cbn.
  destruct (f x); [|by apply IH]. constructor; [by apply IH|]. rewrite Forall_forall in Hf |- *.
  intros y Hy. apply Hf. apply list_elem_of_In in Hy. apply filter_In in Hy as [Hy _]. by apply list_elem_of_In.
Qed.

Lemma take_max_split {A} (l : list A) p q : take (p `max` q) l = take p l ++ drop p (take q l).
Proof.
  destruct (Nat.le_ge_cases p q) as [Hle|Hge].
  - rewrite Nat.max_r by done. rewrite <- (take_drop p (take q l)) at 1. rewrite take_take. by rewrite Nat.min_l.
  - rewrite Nat.max_l by done. rewrite (drop_ge _ p), app_nil_r; [done|]. rewrite length_take. lia.
Qed.

Lemma drop_take_split {A} (l : list A) s p : (s <= p)%nat -> drop s l = drop s (take p l) ++ drop p l.
Proof.
  intros Hsp. rewrite <- (take_drop p l) at 1. destruct (Nat.le_ge_cases (length l) p) as [Hle|Hge].
  - by rewrite (drop_ge _ p), !app_nil_r by done.
  - rewrite drop_app_le; [done|]. rewrite length_take. lia.
Qed.

(** Nothing of a list lies above the greatest of its elements that are above [last]. *)
Lemma none_above_max last (l l' : list Z) : (forall x, x ∈ l -> x ∈ l') ->
  List.filter (Z.ltb (foldr Z.max last (List.filter (Z.ltb last) l'))) l = [].
Proof.
  intros Hl. induction l as [|x l IH]; [done|].
  cbn. rewrite (proj2 (Z.ltb_ge _ _)); [apply IH; intros y Hy; apply Hl; by right|].
  destruct (Z.ltb_spec last x) as [Hx|Hx].
  - apply foldr_max_ge, elem_of_cons. right. apply list_elem_of_In, filter_In.
    split; [apply list_elem_of_In, Hl; by left|by apply Z.ltb_lt].
  - transitivity last; [done|]. apply foldr_max_ge. by left.
Qed.

(** The stored lines after [last], then the live ones from a position that the
    stored ones had reached: together the lines after [last]. *)
Lemma fresh_gapless last ids p s k :
  StronglySorted Z.lt ids -> Forall (fun i => (0 < i)%Z) ids -> (s <= p)%nat ->
  (fresh_ids last (List.filter (Z.ltb last) (take p ids) ++ take k (drop s ids))).1
  = List.filter (Z.ltb last) (take (p `max` (s + k)) ids).
Proof.
  intros Hs Hpos Hsp. rewrite fresh_ids_app. cbn [fst].
  assert (Hst : StronglySorted Z.lt (take p ids)).
  { apply (sorted_sub [] _ (drop p ids)). cbn [app]. by rewrite take_drop. }
  assert (Hpt : Forall (fun i => (0 < i)%Z) (take p ids)) by by apply Forall_take.
  rewrite (fresh_sorted last (List.filter _ _)); [|by apply sorted_filter|].
  2:{ rewrite Forall_forall in Hpt |- *. intros x Hx. apply Hpt, list_elem_of_In.
      by apply list_elem_of_In, filter_In in Hx as [Hx _]. }
  cbn [fst snd]. set (E := List.filter (Z.ltb last) (take p ids)).
  rewrite fresh_sorted.
  2:{ apply (sorted_sub (take s ids) _ (drop k (drop s ids))). by rewrite (take_drop k), take_drop. }
  2:{ by apply Forall_take, Forall_drop. }
  cbn [fst].
  assert (EE : List.filter (Z.ltb last) E = E).
  { unfold E. clear. induction (take p ids) as [|x l IH]; [done|]. cbn. destruct (last <? x)%Z eqn:Ex; [|done].
    cbn. by rewrite Ex, IH. }
  rewrite EE.
  rewrite take_max_split, List.filter_app. fold E. f_equal.
  rewrite take_drop_commute, (drop_take_split (take (s + k) ids) s p), List.filter_app by done.
  rewrite (none_above_max last _ (take p ids) : _ -> List.filter (Z.ltb (foldr Z.max last E)) _ = []).
  2:{ intros x Hx. apply (subseteq_drop s) in Hx. rewrite take_take in Hx.
      rewrite Nat.min_comm, <- take_take in Hx. by apply (subseteq_take (s + k)) in Hx. }
  cbn [app]. apply filter_ext_in. intros x Hx. apply list_elem_of_In in Hx.
  assert (Hxd : x ∈ drop p ids).
  { rewrite <- (take_drop (s + k) ids). destruct (Nat.le_ge_cases (length (take (s + k) ids)) p) as [Hle|Hge].
    - rewrite drop_ge in Hx by done. by apply not_elem_of_nil in Hx.
    - rewrite drop_app_le by done. apply elem_of_app. by left. }
  destruct (Z.ltb_spec last x) as [Hl|Hl]; [apply Z.ltb_lt, foldr_max_lt|apply Z.ltb_ge].
  - split; [done|]. rewrite Forall_forall. intros y Hy. apply list_elem_of_In in Hy. apply filter_In in Hy as [Hy _].
    by apply (sorted_take_drop ids p); [|apply list_elem_of_In|].
  - transitivity last; [done|]. apply foldr_max_ge. by left.
Qed.

(** ** Runs *)

Definition quiet_stream (tr : list (event streamE)) : Prop := sent tr = [] /\ live tr = [].

Lemma api_quiet {A} (p : prog apiE A) tr a : runs (api p) tr a -> quiet_stream tr.
Proof.
  revert tr. induction p as [b|X e k IH]; intros tr; cbn.
  - by intros [-> _].
  - intros (x & tr' & -> & Hr). exact (IH x tr' Hr).
Qed.

Lemma sent_app a b : sent (a ++ b) = sent a ++ sent b.
Proof. apply omap_app. Qed.
Lemma live_app a b : live (a ++ b) = live a ++ live b.
Proof. apply omap_app. Qed.
Lemma history_app a b : history (a ++ b) = history a ++ history b.
Proof. apply omap_app. Qed.

Lemma send_history_sent entries last tr m :
  runs (send_history entries last) tr m ->
  (sent tr, m) = fresh_ids last (map DeploymentLog.ID entries) /\ live tr = [] /\ history tr = [].
Proof.
  revert last tr. induction entries as [|entry entries IH]; intros last tr; cbn [send_history map fresh_ids].
  - by intros [-> ->].
  - destruct (advanceLastEventID last (DeploymentLog.ID entry)) as [send last']. destruct send; cbn [negb].
    + intros (x & tr' & -> & Hr). destruct (IH _ _ Hr) as (Es & El & Eh).
      destruct (fresh_ids last' (map DeploymentLog.ID entries)) as [rest m']. injection Es as <- <-. by repeat split.
    + intros Hr. destruct (IH _ _ Hr) as (Es & El & Eh). rewrite <- Es. by repeat split.
Qed.

Lemma stream_loop_sent turns last tr u :
  runs (stream_loop turns last) tr u -> sent tr = (fresh_ids last (live tr)).1 /\ history tr = [].
Proof.
  revert last tr. induction turns as [|turns IH]; intros last tr; [by intros [-> _]|].
  cbn [stream_loop]. intros (input & tr1 & -> & Hr). cbn [pbind] in Hr. destruct input as [event| | |].
  - change (live (Ev SSelect (SEvent event) :: tr1)) with (LogEvent.ID event :: live tr1). cbn [fresh_ids]. revert Hr.
    destruct (advanceLastEventID last (LogEvent.ID event)) as [send last']. destruct send; cbn [negb pbind call runs]; intros Hr.
    + destruct Hr as (x & tr2 & -> & y & tr3 & -> & Hr). destruct (IH _ _ Hr) as [Es Eh].
      change (live (Ev _ x :: Ev _ y :: tr3)) with (live tr3). destruct (fresh_ids last' (live tr3)) as [rest m].
      cbn [fst] in Es. split; [|exact Eh].
      change (LogEvent.ID event :: sent tr3 = LogEvent.ID event :: rest). by rewrite Es.
    + destruct (IH _ _ Hr) as [Es Eh]. destruct (fresh_ids last' (live tr1)) as [rest m]. by split.
  - destruct Hr as [-> _]. by split.
  - cbn [pbind call runs] in Hr. destruct Hr as (x & tr2 & -> & y & tr3 & -> & Hr). exact (IH _ _ Hr).
  - destruct Hr as [-> _]. by split.
Qed.

(** What the stream answers a request with, by what it was given. *)
Definition stream_output (last : Z) (tr : list (event streamE)) : Prop :=
  match history tr with
  | [entries] => sent tr = (fresh_ids last (map DeploymentLog.ID entries ++ live tr)).1
  | _ => sent tr = []
  end.

Lemma stream_output_quiet last tr : quiet_stream tr -> history tr = [] -> stream_output last tr.
Proof. intros [Es _] Eh. unfold stream_output. by rewrite Eh. Qed.

Lemma stream_sent turns id last tr u : runs (stream turns id last) tr u -> stream_output last tr.
Proof.
  unfold stream. intros (x & tr1 & -> & Hr). cbn [pbind] in Hr. apply runs_bind in Hr as (t1 & res & t2 & -> & Hh & Hr).
  assert (Et1 : quiet_stream t1 /\ history t1 = match res with inl l => [l] | inr _ => [] end).
  { split; [exact (api_quiet _ _ _ Hh)|]. unfold listDeploymentLogHistory in Hh.
    destruct (0 <? last)%Z; destruct Hh as (y & tr' & -> & [-> <-]); by destruct res. }
  destruct Et1 as [[Es El] Eh]. unfold stream_output.
  change (Ev _ x :: t1 ++ t2) with ([Ev (SSubscribe (uuidString id)) x] ++ t1 ++ t2).
  rewrite !sent_app, !live_app, !history_app, Es, El, Eh. cbn [app history sent live omap list_omap sent_of live_of history_of].
  destruct res as [entries|err].
  - apply runs_bind in Hr as (t3 & m & t4 & -> & Hs & Hr). apply send_history_sent in Hs as (Es3 & El3 & Eh3).
    cbn [pbind call runs] in Hr. destruct Hr as (z & t5 & -> & Hr). apply stream_loop_sent in Hr as [Es5 Eh5].
    rewrite sent_app, live_app, history_app, El3, Eh3.
    change (history (Ev SFlush z :: t5)) with (history t5). change (sent (Ev SFlush z :: t5)) with (sent t5).
    change (live (Ev SFlush z :: t5)) with (live t5). rewrite Eh5. cbn [app]. rewrite fresh_ids_app, <- Es3. cbn [fst snd].
    by rewrite Es5.
  - cbn [pbind call runs] in Hr. destruct Hr as (z & t5 & -> & y & t6 & -> & [-> _]). done.
Qed.

Lemma streamDeploymentLogs_sent turns r tr u :
  runs (streamDeploymentLogs turns r) tr u -> stream_output (parseLastEventID (Header r (lit "Last-Event-ID"))) tr.
Proof.
  assert (Herr : forall err tr u, runs (api (writeError err)) tr u -> quiet_stream tr /\ history tr = []).
  { intros err tr0 u0 Hr. split; [exact (api_quiet _ _ _ Hr)|]. unfold writeError in Hr.
    destruct (error_response err). destruct Hr as (y & t & -> & [-> _]). done. }
  unfold streamDeploymentLogs. destruct (parseUUIDParam _ _) as [id|err].
  2:{ intros Hr. apply Herr in Hr as [Hq Hh]. by apply stream_output_quiet. }
  intros (t1 & err & t2 & -> & He & Hr)%runs_bind.
  assert (E1 : quiet_stream t1 /\ history t1 = []).
  { split; [exact (api_quiet _ _ _ He)|]. destruct He as (y & t & -> & [-> _]). done. }
  assert (Hskip : forall pre post l, quiet_stream pre -> history pre = [] -> stream_output l post -> stream_output l (pre ++ post)).
  { intros pre post l [Es El] Eh. unfold stream_output. rewrite sent_app, live_app, history_app, Es, El, Eh. done. }
  destruct E1 as [Hq1 Hh1]. apply Hskip; [exact Hq1|exact Hh1|].
  destruct err as [err|]; [apply Herr in Hr as [Hq Hh]; by apply stream_output_quiet|].
  cbn [pbind call runs] in Hr. destruct Hr as (ok & t3 & -> & Hr). apply (Hskip [Ev SIsFlusher ok]); [by split|done|].
  destruct ok; cbn [negb] in Hr; [|apply Herr in Hr as [Hq Hh]; by apply stream_output_quiet].
  apply runs_bind in Hr as (t4 & y & t5 & -> & Hset & Hr).
  apply Hskip; [exact (api_quiet _ _ _ Hset)| |exact (stream_sent _ _ _ _ _ Hr)].
  destruct Hset as (? & ? & -> & ? & ? & -> & ? & ? & -> & ? & ? & -> & [-> _]). done.
Qed.

(** The query that answers with the history. *)
Definition stored_lines (last : Z) (id : pgUUID_t) : query (list DeploymentLog.t) :=
  if (0 <? last)%Z then ListDeploymentLogsAfter id last maxDeploymentLogHistory
  else ListRecentDeploymentLogs id maxDeploymentLogHistory.

Lemma filter_of_map {A B} (f : B -> bool) (g : A -> B) l :
  List.filter f (map g l) = map g (List.filter (fun x => f (g x)) l).
Proof. induction l as [|x l IH]; [done|]. cbn. destruct (f (g x)); cbn; by rewrite IH. Qed.

Lemma stored_lines_ids last id db entries db' :
  stored_lines last id db = inl (entries, db') ->
  Forall (fun i => (0 < i)%Z) (map DeploymentLog.ID (logs_of id db)) -> (0 <= last)%Z ->
  (Z.of_nat (length (List.filter (Z.ltb last) (map DeploymentLog.ID (logs_of id db)))) <= maxDeploymentLogHistory)%Z ->
  map DeploymentLog.ID entries = List.filter (Z.ltb last) (map DeploymentLog.ID (logs_of id db)).
Proof.
  unfold stored_lines. destruct (Z.ltb_spec 0 last) as [Hl|Hl].
  - intros [= <- _] _ _. rewrite filter_of_map, length_map. intros Hn. f_equal.
    unfold maxDeploymentLogHistory in *. apply take_ge. lia.
  - intros [= <- _] Hp H0l Hn. assert (last = 0)%Z as -> by lia.
    assert (Eall : List.filter (Z.ltb 0) (map DeploymentLog.ID (logs_of id db)) = map DeploymentLog.ID (logs_of id db)).
    { clear Hn. induction (logs_of id db) as [|l t IH]; [done|]. apply Forall_cons in Hp as [Hp Hpt]. cbn [map List.filter] in *.
      rewrite (proj2 (Z.ltb_lt _ _) Hp). by rewrite (IH Hpt). }
    rewrite Eall in *. rewrite length_map in Hn. unfold maxDeploymentLogHistory in *.
    by replace (length (logs_of id db) - Z.to_nat 500)%nat with 0%nat by lia.
Qed.

Lemma parseLastEventID_nonneg v : (0 <= parseLastEventID v)%Z.
Proof. unfold parseLastEventID. destruct (ParseInt64 v) as [i|]; [|done]. destruct (Z.ltb_spec i 0); lia. Qed.

End Facts.
