(* ===== verification/EngineDemo.v ===== *)
(** * A deployment executed

    A concrete database, host and application: the whole runner evaluates, and
    the theorems on runs are applied to the runs it produces. *)

From S2P Require Import Prelude GoStrings GoStringsFacts GoRegexp GoJson GoNet StringUtil AuditLog.
From S2P Require Import Db Lifecycle RemoteSteps ProxyCommands PlanFacts Effects Runner RunnerFacts.
From S2P Require Import SwitchFacts Engine GoCrypto Queue QueueFacts.

#[local] Existing Instance ascii_tables.
#[local] Existing Instance Lifecycle.Demo.unary_uuids.
#[local] Instance demo_uuids : UuidLib := {| uuid_Parse s := inl s; uuid_String s := s |}.
#[local] Instance demo_dns : Resolver := {| LookupIP := fun _ => None |}.
#[local] Instance demo_ssh : SshLib := {| Signer := unit |}.

Definition demo_sha : str := lit "0123456789abcdef0123456789abcdef01234567".

(** The host: the commands it received, and the substring of commands it fails. *)
Record demo_host := { received : list str; failing : option str }.

Definition demo_run (cmd : str) (h : demo_host) : (str * option goerror) * demo_host :=
  let h' := {| received := received h ++ [cmd]; failing := failing h |} in
  let fails := match failing h with Some f => Contains cmd f | None => false end in
  if fails then (([], Some (ErrText "exit status 1")), h')
  else if Contains cmd (lit "git log -1") then ((demo_sha ++ newline ++ lit "Fix login", None), h')
  else if Contains cmd (lit "ps --status running") then ((lit "worker" ++ newline, None), h')
  else (([], None), h').

#[local] Instance demo_collaborators : Collaborators demo_host := {|
  do_runtime _ h := (inl [runtimeVar (lit "DB_URL") (lit "postgres://db/$x")], h);
  do_authorization _ _ h := (inl (lit "AUTHORIZATION: basic abc"), h);
  do_local _ h := (false, h);
  do_signer _ _ _ _ h := (inl tt, h);
  do_run _ cmd _ h := demo_run cmd h;
  do_publish _ h := h;
  do_notify _ h := (None, h) |}.

Definition rid (s : string) : pgUUID_t := Lifecycle.Demo.id s.
Definition demo_services : bytes :=
  Some (JArr [JObj [(lit "name", JStr (lit "web"))];
              JObj [(lit "name", JStr (lit "worker")); (lit "execution_mode", JStr (lit "singleton"))]]).
Definition demo_app : Application.t :=
  Application.mk (rid "app") (rid "env") (rid "srv") (lit "Api Server") (someText (lit "https://github.com/acme/api"))
    (lit "main") (lit "deploy/compose.yml") (lit "/srv/api") textNull
    (someText (lit "http://127.0.0.1:{port}/health?color={color}")) textNull textNull (lit "idle") textNull textNull
    (Some 0%Z) (Some 0%Z) true 1 0 0 demo_services.
Definition demo_proxy_route : ProxyRoute.t :=
  ProxyRoute.mk (rid "route") (rid "srv") (rid "app") (lit "api.example.com") (lit "http://127.0.0.1:3101") true
    (lit "applied") None None None (someText (lit "http://127.0.0.1:3101")) (someText (lit "http://127.0.0.1:3102"))
    textNull None textNull.
Definition demo_db : database :=
  Database [demo_app] [] [SlotDemo.blue_slot] [demo_proxy_route] [] [] [] []
    [Environment.mk (rid "env") (rid "prj") (lit "prod") (lit "prod") (lit "production") false None textNull None (Some 0%Z) (Some 0%Z)]
    [ProjectRow.mk (rid "prj") (lit "acme") (lit "acme") [] (Some 0%Z) (Some 0%Z) (PgUUID [] false) (PgUUID [] false) textNull textNull 1] [Lifecycle.Demo.server] [] [] (Inventory [] [] [] [] []) 5 0.

(** The database with one queued deployment, and that deployment. *)
Definition queued_state (trigger : string) : option (Deployment.t * database) :=
  match CreateDeployment (CreateDeploymentParams.mk (lit trigger) (lit "blue_green") textNull textNull textNull textNull
                            (rid "app")) demo_db with
  | inl r => Some r
  | inr _ => None
  end.

Definition demo_runner : Runner := {| has_runtime := true; has_source := true |}.
Definition healthy_host : demo_host := {| received := []; failing := None |}.
Definition failing_host (s : string) : demo_host := {| received := []; failing := Some (lit s) |}.

Definition demo_exec (trigger : string) (host : demo_host) :=
  match queued_state trigger with
  | Some (d, db) => Some (exec sql_handler (Run demo_runner d) (db, host))
  | None => None
  end.

Definition summary (trigger : string) (host : demo_host) : option (list str * list (str * str) * list str) :=
  match demo_exec trigger host with
  | Some (_, _, (db, h)) =>
      Some (map Deployment.Status (deployments db),
            map (fun s => (Slot.Color s, Slot.Status s)) (slots db),
            map ProxyRoute.UpstreamUrl (routes db))
  | None => None
  end.

(** With a healthy host the new colour goes live. *)
Example demo_succeeds :
  summary "manual" healthy_host
  = Some ([lit "succeeded"], [(lit "blue", lit "standby"); (lit "green", lit "active")], [lit "http://127.0.0.1:3102"]).
Proof. vm_compute. reflexivity. Qed.

(** When the health check fails, traffic stays where it was. *)
Example demo_unhealthy :
  summary "manual" (failing_host "curl")
  = Some ([lit "failed"], [(lit "blue", lit "active")], [lit "http://127.0.0.1:3101"]).
Proof. vm_compute. reflexivity. Qed.

(** ** The theorems at this state *)

Lemma queued_demo :
  exists d db, queued_state "manual" = Some (d, db) /\ d ∈ deployments db
    /\ Deployment.Status d = lit "queued" /\ deployments_ok db.
Proof.
  destruct (queued_state "manual") as [[d db]|] eqn:E; [|vm_compute in E; discriminate E].
  exists d, db. split; [done|]. unfold queued_state in E.
  destruct (CreateDeployment _ demo_db) as [[d' db']|e] eqn:Ec; [|done]. injection E as -> ->.
  assert (Hok : deployments_ok demo_db).
  { split; try (vm_compute; reflexivity); [constructor|by intros x ?%not_elem_of_nil]. }
  assert (Hok' : deployments_ok db) by (by apply (step_preserves_deployments_ok' _ _ _ Hok (step_create _ _ _ _ Ec))).
  apply create_spec in Ec as (Ed & _ & _ & Hq & _). split; [|by split].
  rewrite Ed. apply elem_of_app. right. by left.
Qed.

Lemma Run_reaches_end_witness :
  exists d db, d ∈ deployments db /\ Deployment.Status d = lit "queued"
    /\ row_with (Deployment.ID d) final_status
         (exec sql_handler (Run demo_runner d) (db, failing_host "docker")).2.1.
Proof.
  destruct queued_demo as (d & db & _ & Hd & Hq & Hok). exists d, db. split; [exact Hd|]. split; [exact Hq|].
  exact (Run_reaches_end demo_runner d d db (failing_host "docker") Hok Hd eq_refl Hq).
Defined.

Lemma Run_refines_lifecycle_witness :
  exists d db tr db' host' ls,
    exec sql_handler (Run demo_runner d) (db, healthy_host) = (tt, tr, (db', host')) /\ steps db ls db'.
Proof.
  destruct queued_demo as (d & db & _ & Hd & Hq & Hok).
  destruct (exec sql_handler (Run demo_runner d) (db, healthy_host)) as [[[] tr] [db' host']] eqn:E.
  destruct (Run_refines_lifecycle demo_runner d db healthy_host tt tr db' host' E) as (ls & Hls & _).
  exists d, db, tr, db', host', ls. split; [exact E|exact Hls].
Defined.

Lemma Run_takes_then_ends_once_witness :
  exists d tr, runs (Run demo_runner d) tr tt
    /\ exists ans rest, tr = Ev (QStartQueuedDeployment (Deployment.ID d)) ans :: rest.
Proof.
  destruct queued_demo as (d & db & _ & Hd & Hq & Hok).
  destruct (exec sql_handler (Run demo_runner d) (db, healthy_host)) as [[[] tr] s] eqn:E.
  pose proof (exec_runs _ _ _ _ _ _ E) as Hr. exists d, tr. split; [exact Hr|].
  destruct (Run_takes_then_ends_once demo_runner d tr tt Hr) as (ans & rest & Ht & _). by exists ans, rest.
Defined.

(** The target of the demo deployment, and a run of [deploy] that succeeds. *)
Definition demo_target (strategy_health : str) : Target.t :=
  Target.mk (rid "dep") (lit "blue_green") textNull (someText (lit "registry/api:2")) textNull (rid "app") (lit "api")
    textNull (lit "main") (lit "compose.yml") (lit "/srv/api") textNull (someText strategy_health) textNull textNull
    demo_services 1 1 (PgUUID [] false) (rid "srv") (lit "srv-1") (lit "10.0.0.5") (lit "deploy") 22 textNull
    (lit "tailscale_ssh") (lit "caddy").
Definition demo_target0 : Target.t := demo_target (lit "http://127.0.0.1:{port}/health?color={color}").
Definition demo_deployment : Deployment.t :=
  Deployment.mk (rid "dep") (rid "app") (rid "srv") (lit "manual") (lit "blue_green") (lit "running") textNull textNull
    (Some 1%Z) None (Some 1%Z) (someText (lit "registry/api:2")) textNull textNull textNull textNull None.
Definition demo_deploy := exec sql_handler (deploy demo_runner demo_deployment demo_target0) (demo_db, healthy_host).

Lemma demo_deploy_ok : demo_deploy.1.1.1 = None /\ existsb (fun ev => bool_decide (ev_kind ev = KSlot)) demo_deploy.1.2 = true.
Proof. split; vm_compute; reflexivity. Qed.

Lemma demo_deploy_runs : runs (deploy demo_runner demo_deployment demo_target0) demo_deploy.1.2 (None, demo_deploy.1.1.2).
Proof.
  pose proof (proj1 demo_deploy_ok) as Hok. unfold demo_deploy in *.
  destruct (exec sql_handler _ _) as [[[err t] tr] s] eqn:E. cbn [fst snd] in *. subst err. exact (exec_runs _ _ _ _ _ _ E).
Qed.


Lemma deploy_success_runs_whole_plan_witness :
  exists tr target' client vars options steps evs,
    runs (deploy demo_runner demo_deployment demo_target0) tr (None, target')
    /\ remoteSteps demo_target0 vars [options] = inl steps
    /\ Forall2 (step_event client) steps evs /\ evs `sublist_of` tr.
Proof.
  destruct (deploy_success_runs_whole_plan demo_runner demo_deployment demo_target0 _ _ demo_deploy_runs
              ltac:(discriminate)) as (client & vars & options & steps & evs & Hp).
  exists demo_deploy.1.2, demo_deploy.1.1.2, client, vars, options, steps, evs. split; [exact demo_deploy_runs|exact Hp].
Defined.

Definition demo_client : Client := NewTailscaleSSHClient (lit "10.0.0.5") 22 (lit "deploy").
Definition demo_switch (s : string) :=
  exec sql_handler (applyProxyRoutes demo_deployment demo_target0 demo_client (lit "green")) (demo_db, failing_host s).

Lemma demo_switch_runs s :
  runs (applyProxyRoutes demo_deployment demo_target0 demo_client (lit "green")) (demo_switch s).1.2 (demo_switch s).1.1.
Proof. unfold demo_switch. destruct (exec sql_handler _ _) as [[res tr] st] eqn:E. exact (exec_runs _ _ _ _ _ _ E). Qed.


Definition demo_options : remoteStepOptions := Build_remoteStepOptions (lit "green") [] [] [] [] ∅ [] [lit "worker"].
Definition demo_singletons :=
  exec sql_handler (switchSingletonServices demo_deployment demo_target0 demo_client (lit "blue") (lit "green") demo_options)
    (demo_db, healthy_host).

Lemma demo_singletons_runs :
  runs (switchSingletonServices demo_deployment demo_target0 demo_client (lit "blue") (lit "green") demo_options)
    demo_singletons.1.2 demo_singletons.1.1.
Proof. unfold demo_singletons. destruct (exec sql_handler _ _) as [[res tr] st] eqn:E. exact (exec_runs _ _ _ _ _ _ E). Qed.

Lemma singletons_stop_before_start_witness :
  length (remote demo_singletons.1.2) = 3%nat
  /\ only_after (serviceCommand demo_target0 demo_options (lit "blue") (lit "stop"))
       (serviceCommand demo_target0 demo_options (lit "green") (lit "start")) (remote demo_singletons.1.2).
Proof.
  split; [vm_compute; reflexivity|].
  exact (proj1 (singletons_stop_before_start demo_deployment demo_target0 demo_client (lit "blue") (lit "green")
    demo_options _ _ demo_singletons_runs (or_introl eq_refl) (or_intror eq_refl) ltac:(discriminate))).
Defined.

(** * A restart executed

    The queue on a concrete database with one interrupted and one queued
    deployment and a list with stale items; a concrete instance of the UUID
    laws.  The theorems of QueueFacts are applied to it. *)

(** ** Canonical UUID text *)

Definition hex_byte (c : ascii) : str := hex_fixed false 2 (b2n c).
Abbreviation hex_text := hex_EncodeToString.
Definition not_hyphen (c : ascii) : bool := negb (bool_decide (c = "-"%char)).

Definition hyphenate (h : str) : str :=
  take 8 h ++ lit "-" ++ take 4 (drop 8 h) ++ lit "-" ++ take 4 (drop 12 h) ++ lit "-"
  ++ take 4 (drop 16 h) ++ lit "-" ++ drop 20 h.

#[export] Instance canonical_uuids : UuidLib := {|
  uuid_Parse s := match hex_DecodeString (List.filter not_hyphen s) with Some (c :: id) => inl (c :: id) | _ => inr (ErrText "invalid UUID") end;
  uuid_String id := hyphenate (hex_text id) |}.

Lemma hex_byte_chars c : forallb (fun x => uuid_char x && not_hyphen x) (hex_byte c) = true.
Proof. destruct c as [b0 b1 b2 b3 b4 b5 b6 b7]; destruct b0, b1, b2, b3, b4, b5, b6, b7; vm_compute; reflexivity. Qed.

Lemma hex_text_chars id : forallb (fun x => uuid_char x && not_hyphen x) (hex_text id) = true.
Proof. induction id as [|c id IH]; [done|]. unfold hex_EncodeToString. cbn [map concat]. rewrite forallb_app. fold (hex_byte c). rewrite hex_byte_chars. exact IH. Qed.

Lemma filter_forallb {A} (p : A -> bool) l : forallb p l = true -> List.filter p l = l.
Proof. induction l as [|x l IH]; [done|]. cbn. intros [-> Hl]%andb_true_iff. by rewrite IH. Qed.

Lemma forallb_sub {A} (p : A -> bool) l l' : (forall x, x ∈ l' -> x ∈ l) -> forallb p l = true -> forallb p l' = true.
Proof. intros Hs Hl. apply forallb_intro. intros x Hx. by apply (forallb_elem _ _ _ Hl), Hs. Qed.

Lemma take_drop_chars {A} (p : A -> bool) l n k : forallb p l = true -> forallb p (take n (drop k l)) = true.
Proof.
  apply forallb_sub. intros x Hx. apply list_elem_of_In. apply list_elem_of_In in Hx.
  rewrite <- (firstn_skipn k l). apply in_or_app. right. rewrite <- (firstn_skipn n (skipn k l)). apply in_or_app. by left.
Qed.

Lemma filter_hyphenate h : forallb not_hyphen h = true -> List.filter not_hyphen (hyphenate h) = h.
Proof.
  intros Hh. unfold hyphenate. rewrite !List.filter_app.
  rewrite (filter_forallb _ (take 8 h)) by (rewrite <- (drop_0 h); by apply take_drop_chars).
  rewrite !(filter_forallb _ (take 4 _)) by by apply take_drop_chars.
  rewrite (filter_forallb _ (drop 20 h)) by (rewrite <- (firstn_all (drop 20 h)); by apply take_drop_chars).
  change (List.filter not_hyphen (lit "-")) with ([] : str). cbn [app].
  change 20%nat with (16 + 4)%nat. rewrite <- drop_drop, take_drop.
  change 16%nat with (12 + 4)%nat. rewrite <- drop_drop, take_drop.
  change 12%nat with (8 + 4)%nat. rewrite <- drop_drop, take_drop. apply take_drop.
Qed.

#[export] Instance canonical_uuid_laws : UuidLaws.
Proof.
  split; intros id Hlen.
  - cbn [uuid_Parse uuid_String canonical_uuids]. rewrite filter_hyphenate, hex_decode_encode; [by destruct id|].
    pose proof (hex_text_chars id) as Hc. rewrite forallb_forall in Hc |- *. intros x Hx.
    apply Hc in Hx. by apply andb_true_iff in Hx as [_ Hx].
  - cbn [uuid_String canonical_uuids]. split; [unfold hyphenate; by intros [_ ?]%app_eq_nil|].
    assert (Hu : forallb uuid_char (hex_text id) = true).
    { pose proof (hex_text_chars id) as Hc. rewrite forallb_forall in Hc |- *. intros x Hx.
      apply Hc in Hx. by apply andb_true_iff in Hx as [Hx _]. }
    unfold hyphenate. rewrite !forallb_app.
    rewrite (forallb_sub _ (hex_text id) (take 8 (hex_text id))), (forallb_sub _ (hex_text id) (drop 20 (hex_text id)));
      try done; rewrite ?take_drop_chars by done; try reflexivity.
    + intros x Hx. apply list_elem_of_In. apply list_elem_of_In in Hx. rewrite <- (firstn_skipn 20 (hex_text id)).
      apply in_or_app. by right.
    + intros x Hx. apply list_elem_of_In. apply list_elem_of_In in Hx. rewrite <- (firstn_skipn 8 (hex_text id)).
      apply in_or_app. by left.
Qed.

(** Sixteen-byte identifiers for the first rows. *)
Definition sixteen (n : nat) : str := repeat "b"%char n ++ repeat "a"%char (16 - n).

Lemma sixteen_count n : length (List.filter (fun c => bool_decide (c = "b"%char)) (sixteen n)) = n.
Proof.
  unfold sixteen. rewrite List.filter_app, length_app.
  assert (Ha : forall k, List.filter (fun c => bool_decide (c = "b"%char)) (repeat "a"%char k) = []) by (induction k; done).
  assert (Hb : forall k, List.filter (fun c => bool_decide (c = "b"%char)) (repeat "b"%char k) = repeat "b"%char k).
  { induction k as [|k IH]; [done|]. cbn. by f_equal. }
  rewrite Ha, Hb, repeat_length. cbn. lia.
Qed.

#[export] Instance sixteen_uuids : UuidSource.
Proof.
  refine {| gen_uuid := sixteen |}. intros m n E. by rewrite <- (sixteen_count m), E, sixteen_count.
Defined.

(** ** The state at the restart *)

#[local] Existing Instance ascii_tables.
#[local] Existing Instance demo_dns.
#[local] Existing Instance demo_ssh.
#[local] Existing Instance demo_collaborators.

Definition second_app : Application.t :=
  let a := demo_app in
  Application.mk (rid "app2") (Application.EnvironmentID a) (Application.ServerID a) (lit "Jobs")
    (Application.RepositoryUrl a) (Application.Branch a) (Application.ComposePath a) (lit "/srv/jobs")
    (Application.Domain a) (Application.HealthCheckUrl a) (Application.DopplerProject a) (Application.DopplerConfig a)
    (Application.Status a) textNull textNull (Some 0%Z) (Some 0%Z) true 1 0 0 None.
Definition two_apps : database := with_applications demo_db [demo_app; second_app].
Definition manual_deployment (app : pgUUID_t) : CreateDeploymentParams.t :=
  CreateDeploymentParams.mk (lit "manual") (lit "blue_green") textNull textNull textNull textNull app.

(** One deployment was running and one was queued when the server stopped. *)
Definition restart_state : result database :=
  let? (d1, db1) := CreateDeployment (manual_deployment (rid "app")) two_apps in
  let? (_, db2) := StartQueuedDeployment (Deployment.ID d1) db1 in
  let? (_, db3) := CreateDeployment (manual_deployment (rid "app2")) db2 in
  inl db3.

Definition stale_items : list str := [lit "not json"; lit "{}"; json_Marshal (JObj [(lit "deployment_id", JStr (uuid_String (sixteen 7)))])].

Lemma restart_state_ok : exists db, restart_state = inl db /\ deployments_ok db.
Proof.
  destruct restart_state as [db|e] eqn:E; [|vm_compute in E; discriminate E]. exists db. split; [done|].
  unfold restart_state in E. apply rbind_ok in E as ([d1 db1] & E1 & E). apply rbind_ok in E as ([d2 db2] & E2 & E).
  apply rbind_ok in E as ([d3 db3] & E3 & E). injection E as <-.
  assert (Hok : deployments_ok two_apps).
  { split; try (vm_compute; reflexivity); [constructor|by intros x ?%not_elem_of_nil]. }
  pose proof (step_preserves_deployments_ok' _ _ _ Hok (step_create _ _ _ _ E1)) as Hok1.
  pose proof (step_preserves_deployments_ok' _ _ _ Hok1 (step_start _ _ _ _ E2)) as Hok2.
  exact (step_preserves_deployments_ok' _ _ _ Hok2 (step_create _ _ _ _ E3)).
Qed.

Definition restart_run (n : nat) : option (list str) :=
  match restart_state with
  | inl db =>
      let s := after recover_at_start {| q_db := db; q_host := healthy_host; q_list := stale_items |} in
      Some (map Deployment.Status (deployments (q_db (after (work n demo_runner) s))))
  | inr _ => None
  end.

(** The interrupted deployment fails, the queued one is deployed. *)
Example restart_executed : restart_run 4 = Some [lit "failed"; lit "succeeded"].
Proof. vm_compute. reflexivity. Qed.

Lemma restart_sized db : restart_state = inl db -> sized db.
Proof.
  intros E d Hd.
  assert (Hall : forallb (fun d => uuid_valid (Deployment.ID d) && (length (uuid_bytes (Deployment.ID d)) =? 16)%nat)
                   (match restart_state with inl db => deployments db | inr _ => [] end) = true) by (vm_compute; reflexivity).
  rewrite E in Hall. apply (forallb_elem _ _ _ Hall) in Hd. apply andb_true_iff in Hd as [Hv Hl].
  split; [exact Hv|by apply Nat.eqb_eq].
Qed.

Lemma restart_settles_all_witness :
  exists db, restart_state = inl db /\
    (exec queue_handler recover_at_start {| q_db := db; q_host := failing_host "docker"; q_list := stale_items |}).1.1 = None.
Proof.
  destruct restart_state_ok as (db & E & Hok). exists db. split; [exact E|].
  assert (Hfew : (Z.of_nat (length (List.filter is_queued (deployments db))) <= defaultRecoveryLimit)%Z).
  { assert (Hn : Z.leb (Z.of_nat (length (List.filter is_queued (match restart_state with inl db => deployments db | inr _ => [] end))))
                   defaultRecoveryLimit = true) by (vm_compute; reflexivity).
    rewrite E in Hn. by apply Z.leb_le. }
  exact (proj1 (restart_settles_all demo_runner db (failing_host "docker") stale_items 9 Hok (restart_sized db E) Hfew)).
Defined.

Lemma queue_payload_roundtrip_witness :
  exists db d s p, restart_state = inl db /\ d ∈ deployments db
    /\ encodeDeployment d = inl s /\ decodePayload s = inl p /\ PgUUID' (DeploymentID p) = inl (Deployment.ID d).
Proof.
  destruct restart_state_ok as (db & E & _).
  destruct (deployments db) as [|d l] eqn:Ed.
  { exfalso. assert (Hn : match restart_state with inl db => length (deployments db) | inr _ => 2%nat end = 2%nat) by (vm_compute; reflexivity).
    rewrite E, Ed in Hn. discriminate Hn. }
  assert (Hd : d ∈ deployments db) by (rewrite Ed; left).
  destruct (queue_payload_roundtrip d (restart_sized db E d Hd)) as (s & p & Hsp).
  exists db, d, s, p. split; [exact E|]. split; [rewrite Ed; left|exact Hsp].
Defined.

Lemma handle_runs_only_queued_witness :
  exists db, restart_state = inl db /\
    let s := {| q_db := db; q_host := healthy_host; q_list := [] |} in
    ends_item (lit "{}") s (after (handle demo_runner (lit "{}")) s)
    \/ leaves_alone (lit "{}") s (after (handle demo_runner (lit "{}")) s).
Proof.
  destruct restart_state_ok as (db & E & Hok). exists db. split; [exact E|].
  exact (handle_runs_only_queued demo_runner (lit "{}") {| q_db := db; q_host := healthy_host; q_list := [] |} Hok).
Defined.
