(* ===== verification/HttpDemo.v ===== *)
(** * Requests executed

    The deployment handlers on a concrete database, queue and host, from the JSON
    body of a request to the response, and the theorems of HttpDeploymentsFacts
    and HttpEngine applied there. *)

From S2P Require Import Prelude GoStrings GoStringsFacts GoRegexp GoJson GoNet StringUtil AuditLog.
From S2P Require Import Db DbHttp Lifecycle RemoteSteps ProxyCommands Effects Runner Queue.
From S2P Require Import RunnerFacts Engine QueueFacts EngineDemo GoHttp HttpCore HttpGuard HttpGuardFacts.
From S2P Require Import HttpDeployments HttpEngine HttpLogs HttpLogsFacts HttpRedeploy HttpDeploymentsFacts HttpApplications HttpApplicationsFacts.
From S2P Require Import DbApplications HttpBuilds GoCrypto GithubConnector HttpGithub HttpGithubFacts.

#[local] Existing Instance ascii_tables.
#[local] Existing Instance demo_dns.
#[local] Existing Instance demo_ssh.
#[local] Existing Instance demo_collaborators.

(** The types of pgtype read JSON strings or numbers and null; no time is read. *)
#[export] Instance demo_pg_json : PgJson := {|
  text_UnmarshalJSON v :=
    match v with JStr s => inl (someText s) | JNull => inl textNull | _ => inr (ErrText "cannot unmarshal into Text") end;
  uuid_UnmarshalJSON v :=
    match v with
    | JStr s => let? id := uuid_Parse s in inl (PgUUID id true)
    | JNull => inl (PgUUID [] false)
    | _ => inr (ErrText "cannot unmarshal into UUID")
    end;
  int4_UnmarshalJSON v :=
    match v with JNum z => inl (Some z) | JNull => inl None | _ => inr (ErrText "cannot unmarshal into Int4") end;
  timestamptz_UnmarshalJSON v :=
    match v with JNull => inl None | _ => inr (ErrText "cannot unmarshal into Timestamptz") end |}.

(** Redis refuses a push when the host is set to fail on it. *)
#[export] Instance demo_api_host : ApiHost demo_host := {|
  do_remote _ cmd h := demo_run cmd h;
  do_local cmd h := demo_run cmd h;
  do_doppler _ h := (inl (lit "[]"), h);
  look_path _ _ := None;
  do_outside X e h := (match e in outsideE X return X with
    | CRepositories _ | CContents _ _ _ _ | CBranches _ _ => inl []
    | CFile _ _ _ _ | CTailscaleStatus => inl []
    | CBranchCommit _ _ _ => inl (GithubApp.RepositoryCommit.mk demo_sha [] [] [] [] [])
    | CGetenv _ => []
    | CReady _ | CTerminalStart _ | CTerminalMessage => None
    | CIsFile _ | CUpgrade _ => false
    | CServeFile _ | CNotFoundPage | CRedirect _ _ | CTerminalText _ | CTerminalInput _ | CTerminalResize _ _ | CTerminalClose => tt
    end, h);
  do_dispatch _ _ _ _ _ h := (None, h);
  push_error h :=
    match failing h with
    | Some f => if Contains (lit "RPUSH") f then Some (ErrText "redis: connection refused") else None
    | None => None
    end;
  begin_error _ := None;
  commit_error h :=
    match failing h with
    | Some f => if Contains (lit "COMMIT") f then Some (ErrText "connection reset by peer") else None
    | None => None
    end |}.

Definition quoted (s : str) : str := dquote ++ s ++ dquote.
Definition app_text : str := uuid_String (uuid_bytes (rid "app")).

(** The identifiers of the demo rows are short, so the handlers are given the
    identifier as it prints. *)
Definition post_request (body : str) (params : str -> str) : Request := {|
  Method := lit "POST"; RemoteAddr := lit "10.0.0.9:51000"; Host' := lit "deploy.example.com";
  URLPath := lit "/api/deployments"; TLS := true; Header := fun _ => []; Cookie := fun _ => None;
  Query := fun _ => []; URLParam := params; Body := body |}.
Definition create_body : str :=
  lit "{" ++ quoted (lit "application_id") ++ lit ":" ++ quoted app_text ++ lit ","
  ++ quoted (lit "commit_sha") ++ lit ":" ++ quoted demo_sha ++ lit "}".
Definition create_request : Request := post_request create_body (fun _ => []).
Definition rollback_request : Request := post_request [] (fun n => if n =s lit "applicationID" then app_text else []).

Definition api_start (db : database) (host : demo_host) : api_state (Host := demo_host) :=
  {| a_queue := {| q_db := db; q_host := host; q_list := [] |}; a_saved := None; a_replays := newReplayCache 1024; a_responses := [] |}.

Abbreviation after_requests l st := (fold_left (fun s q => (exec api_handler (fst q (snd q)) s).2) l st).

Definition api_summary (s : api_state (Host := demo_host)) : list Z * list str * nat :=
  (map fst (a_responses s), map Deployment.Status (deployments (a_db s)), length (a_list s)).

(** The runes of the demo are ASCII. *)
#[export] Instance ascii_fold : FoldTable := {| fold_least := fold_rune |}.

Definition demo_webhook : GitHubWebhookConfig := {| Secret := lit "s3cret"; has_app := true; has_replays := true |}.

(** A push to the branch main of acme/api, signed. *)
Definition push_json : json :=
  JObj [(lit "ref", JStr (lit "refs/heads/main")); (lit "after", JStr demo_sha);
        (lit "repository", JObj [(lit "full_name", JStr (lit "acme/api"))]);
        (lit "sender", JObj [(lit "login", JStr (lit "octocat"))]);
        (lit "commits", JArr [JObj [(lit "modified", JArr [JStr (lit "deploy/compose.yml")])]])].
Definition push_body : str := json_Marshal push_json.
Definition push_request (signature delivery : str) : Request := {|
  Method := lit "POST"; RemoteAddr := lit "10.0.0.9:51000"; Host' := lit "deploy.example.com";
  URLPath := lit "/api/webhooks/github"; TLS := true;
  Header := fun n => if n =s lit "X-Hub-Signature-256" then signature else if n =s lit "X-GitHub-Event" then lit "push"
                     else if n =s lit "X-GitHub-Delivery" then delivery else [];
  Cookie := fun _ => None; Query := fun _ => []; URLParam := fun _ => []; Body := push_body |}.
Definition signed_push (delivery : string) : Request :=
  push_request (lit "sha256=" ++ hex_EncodeToString (hmac_sha256 (lit "s3cret") push_body)) (lit delivery).

Definition demo_requests : list ((Request -> H unit) * Request) :=
  [(createDeployment, create_request); (createDeployment, create_request); (rollbackApplication, rollback_request);
   (redeployApplicationConfiguration, rollback_request); (githubWebhook demo_webhook, push_request (lit "sha256=00") []);
   (githubWebhook demo_webhook, signed_push "a"); (githubWebhook demo_webhook, signed_push "a")].

(** The second request meets the deployment of the first; there is no standby slot.
    The unsigned push is refused; the signed one meets the deployment too, and its
    redelivery is taken for a duplicate. *)
Example requests_executed :
  api_summary (after_requests demo_requests (api_start two_apps healthy_host))
  = ([StatusAccepted; StatusBadRequest; StatusBadRequest; StatusBadRequest; StatusUnauthorized;
      StatusInternalServerError; StatusAccepted], [lit "queued"], 1%nat).
Proof. vm_compute. reflexivity. Qed.

(** When Redis refuses, the row is marked as failed and the response says so. *)
Example refused_push :
  api_summary (after_requests [(createDeployment, create_request)] (api_start two_apps (failing_host "RPUSH")))
  = ([StatusInternalServerError], [lit "failed"], 0%nat).
Proof. vm_compute. reflexivity. Qed.

(** ** The theorems at these requests *)

Lemma two_apps_ok : deployments_ok two_apps.
Proof. split; try (vm_compute; reflexivity); [constructor|by intros x ?%not_elem_of_nil]. Qed.

Lemma two_apps_waiting host : waiting two_apps (a_list (api_start two_apps host)).
Proof. by intros d ?%not_elem_of_nil. Qed.

Lemma sixteen_length n : (n <= 16)%nat -> length (sixteen n) = 16%nat.
Proof. intros Hn. unfold sixteen. rewrite length_app, !repeat_length. lia. Qed.

Lemma requests_reach_their_end_witness :
  let s := after_requests demo_requests (api_start two_apps (failing_host "docker")) in
  length (a_list s) = 1%nat
  /\ forall d, d ∈ deployments (q_db (after (work 3 demo_runner) (a_queue s))) -> is_terminal (Deployment.Status d) = true.
Proof.
  assert (Hlen : length (a_list (after_requests demo_requests (api_start two_apps (failing_host "docker")))) = 1%nat)
    by (vm_compute; reflexivity).
  assert (Hsup : (uuid_supply (a_db (after_requests demo_requests (api_start two_apps (failing_host "docker")))) <= 16)%nat)
    by (apply Nat.leb_le; vm_compute; reflexivity).
  split; [exact Hlen|].
  apply (requests_reach_their_end demo_runner demo_webhook demo_requests (api_start two_apps (failing_host "docker")) 3
           two_apps_ok (two_apps_waiting _)).
  - unfold demo_requests, deployment_handlers. repeat constructor.
  - intros k Hk. apply sixteen_length. lia.
  - rewrite Hlen. lia.
Defined.

Definition mark_name (m : mark) : string :=
  match m with Created _ => "created" | Enqueued _ => "enqueued" | MarkedFailed _ => "failed" | Wrote _ _ => "wrote" end.

Lemma run_of {E S B} (h : handler E S) (p : prog E unit) s (f : list (event E) -> B) l :
  f (exec h p s).1.2 = l -> exists tr, runs p tr tt /\ f tr = l.
Proof.
  intros Hf. destruct (exec h p s) as [[[] tr] s'] eqn:Ep. exists tr. split; [exact (exec_runs _ _ _ _ _ _ Ep)|exact Hf].
Qed.


(** An image reference with a space after it: accepted, then refused by the table. *)
Definition spaced_input : Params.t :=
  Params.mk (lit "manual") [] textNull (someText (lit "registry/api:2 ")) textNull textNull (rid "app").

Lemma create_failure_status_witness :
  exists p e, normalizeCreateDeployment spaced_input = inl p /\ CreateDeployment p two_apps = inr e
    /\ (error_response (createDeploymentError e)).1 = StatusInternalServerError /\ missed p = true.
Proof.
  destruct (normalizeCreateDeployment spaced_input) as [p|e0] eqn:En; [|vm_compute in En; discriminate En].
  destruct (CreateDeployment p two_apps) as [x|e] eqn:Ec.
  { exfalso. assert (Hno : match (let? p := normalizeCreateDeployment spaced_input in CreateDeployment p two_apps) with
      | inl _ => false | inr _ => true end = true) by (vm_compute; reflexivity).
    rewrite En in Hno. cbn [rbind] in Hno. by rewrite Ec in Hno. }
  exists p, e. split; [reflexivity|]. split; [exact Ec|].
  assert (Hmiss : match normalizeCreateDeployment spaced_input with inl p => missed p | inr _ => false end = true)
    by (vm_compute; reflexivity).
  rewrite En in Hmiss. split; [|exact Hmiss].
  destruct (create_failure_status spaced_input p two_apps e En Ec) as [[_ Hn]|[(_ & Hf & _)|[Hs _]]].
  - exfalso. assert (Hno : match (let? p := normalizeCreateDeployment spaced_input in CreateDeployment p two_apps) with
      | inr ErrNoRows => false | _ => true end = true) by (vm_compute; reflexivity).
    rewrite En in Hno. cbn [rbind] in Hno. by rewrite Ec, Hn in Hno.
  - congruence.
  - exact Hs.
Defined.

Definition failed_deployment : Deployment.t :=
  Deployment.mk (rid "dep") (rid "app") (rid "srv") (lit "manual") (lit "blue_green") (lit "failed")
    (someText demo_sha) textNull (Some 1%Z) (Some 2%Z) (Some 1%Z) (someText (lit "registry/api:2")) textNull textNull
    textNull textNull None.

Lemma retry_keeps_source_witness :
  exists p, retryDeploymentInput failed_deployment (auditActor create_request) = inl p
    /\ norm_text (Params.CommitSha p) = someText demo_sha /\ norm_text (Params.ImageRef p) = someText (lit "registry/api:2").
Proof.
  destruct (retry_keeps_source failed_deployment create_request) as (p & Hp & _ & (_ & Hsha & Href & _));
    [vm_compute; reflexivity|reflexivity|intros _; vm_compute; reflexivity|].
  exists p. split; [exact Hp|]. split; [exact Hsha|exact Href].
Defined.

(** ** A log stream *)

Definition stream_handler : handler streamE (api_state (Host := demo_host) * list stream_input) := fun X e s =>
  match e in streamE X return X * (api_state (Host := demo_host) * list stream_input) with
  | SApi e => let '(x, a) := api_handler _ e s.1 in (x, (a, s.2))
  | SIsFlusher => (true, s)
  | SSelect => match s.2 with [] => (SDone, s) | i :: t => (i, (s.1, t)) end
  | SSubscribe _ => (tt, s)
  | SWriteSSEWithID _ _ _ => (tt, s)
  | SWriteSSEComment _ => (tt, s)
  | SFlush => (tt, s)
  end.

Definition log_line (i : Z) : DeploymentLog.t := DeploymentLog.mk i (rid "dep") (lit "stdout") (lit "line") (Some i).
Definition log_event (i : Z) : LogEvent.t := LogEvent.mk i (uuid_String (uuid_bytes (rid "dep"))) (lit "stdout") (lit "line") (Some i).

(** Three stored lines; line 3 also arrives from the bus, then line 4. *)
Definition log_db : database := with_logs (with_deployments two_apps [failed_deployment]) [log_line 1; log_line 2; log_line 3].
Definition stream_request : Request := {|
  Method := lit "GET"; RemoteAddr := lit "10.0.0.9:51000"; Host' := lit "deploy.example.com";
  URLPath := lit "/api/deployments"; TLS := true;
  Header := fun n => if n =s lit "Last-Event-ID" then lit "1" else []; Cookie := fun _ => None;
  Query := fun _ => []; URLParam := fun n => if n =s lit "deploymentID" then uuid_String (uuid_bytes (rid "dep")) else [];
  Body := [] |}.


(** ** A redeployment *)

Definition demo_digest : str := lit "sha256:" ++ concat (repeat (lit "0123456789abcdef") 4).
Definition live_source : Source.t :=
  Source.mk (rid "app") (lit "Api") (rid "dep") (someText demo_sha) (someText (lit "registry/api:2")) (someText demo_digest)
    (someText (lit "https://github.com/acme/api")) (someText (lit "main"))
    (someText (lit "https://github.com/acme/api")) (lit "main").


(** ** Applications *)

(** An application whose directory is the root written another way. *)
Definition root_application : CreateApplicationParams.t :=
  CreateApplicationParams.mk (rid "env") (rid "srv") (lit " Api ") textNull [] [] (lit "/.") textNull
    (someText (lit "http://127.0.0.1:{port}/health?color={color}")) textNull textNull true.
Definition root_target : Target.t :=
  Target.mk (rid "dep") (lit "blue_green") textNull textNull textNull (rid "app") (lit "Api") textNull (lit "main")
    (lit "docker-compose.yml") (lit "/.") textNull (someText (lit "http://127.0.0.1:{port}/health?color={color}"))
    textNull textNull (Some (JArr [])) 0 0 no_uuid (rid "srv") (lit "web-1") (lit "10.0.0.5") (lit "deploy") 22 textNull
    (lit "direct") (lit "caddy").

Lemma accepted_application_plans_witness :
  exists p, normalizeCreateApplication root_application = inl p /\ validateRemoteTarget root_target = Some root_directory.
Proof.
  assert (Hn : exists p, normalizeCreateApplication root_application = inl p) by (eexists; vm_compute; reflexivity).
  destruct Hn as [p Hp]. exists p. split; [exact Hp|].
  assert (Ht : match normalizeCreateApplication root_application with
    | inl p => bool_decide (CreateApplicationParams.RemoteDirectory p = lit "/.")
        && bool_decide (CreateApplicationParams.ComposePath p = lit "docker-compose.yml")
        && bool_decide (CreateApplicationParams.Branch p = lit "main")
        && bool_decide (norm_text (CreateApplicationParams.HealthCheckUrl p) = Target.HealthCheckUrl root_target)
    | inr _ => false end = true) by (vm_compute; reflexivity).
  rewrite Hp in Ht. repeat apply andb_true_iff in Ht as [Ht ?]. repeat match goal with Hb : bool_decide _ = true |- _ =>
    apply bool_decide_eq_true in Hb end.
  rewrite (accepted_application_plans root_application p root_target Hp); [|split; by symmetry|reflexivity|vm_compute; reflexivity].
  match goal with Hd : CreateApplicationParams.RemoteDirectory p = _ |- _ => rewrite Hd end. vm_compute. reflexivity.
Defined.

Definition demo_modes : gmap str str := {[lit "web" := lit " singleton "]}.

Lemma execution_modes_reach_runner_witness :
  exists out names, mergeServiceExecutionModes demo_services demo_modes = inl out
    /\ singletonComposeServiceNames out = inl names /\ NoDup names.
Proof.
  destruct (mergeServiceExecutionModes demo_services demo_modes) as [out|e] eqn:Em; [|vm_compute in Em; discriminate Em].
  destruct (execution_modes_reach_runner demo_services demo_modes out
    [ComposeService.mk (lit "web") [] [] [] None None []; ComposeService.mk (lit "worker") [] [] [] None None (lit "singleton")])
    as (_ & names & Hn & Hd & _);
    [vm_compute; reflexivity|exact Em|by intros s [->|[->|[]%not_elem_of_nil]%elem_of_cons]%elem_of_cons|].
  exists out, names. split; [reflexivity|]. split; [exact Hn|exact Hd].
Defined.

