(* ===== verification/HttpGithubDemo.v ===== *)
(** * Pushes, builds and imports executed

    The theorems of HttpGithubFacts, HttpBuildsFacts and HttpRepositoriesFacts on the
    database and the requests of HttpDemo. *)

From S2P Require Import Prelude GoStrings GoStringsFacts GoRegexp GoJson GoNet StringUtil AuditLog.
From S2P Require Import Db DbHttp DbApplications Lifecycle RemoteSteps ProxyCommands Effects Runner.
From S2P Require Import Queue RunnerFacts Engine QueueFacts EngineDemo GoHttp HttpCore HttpGuard.
From S2P Require Import HttpDeployments HttpBuilds GithubConnector HttpGithub HttpGithubFacts HttpEngine HttpBuildsFacts HttpDemo.
From S2P Require Import DbInventory GithubApp HttpApplications ComposeFile HttpRepositories HttpRepositoriesFacts.

#[local] Existing Instance ascii_tables.
#[local] Existing Instance demo_dns.
#[local] Existing Instance demo_ssh.
#[local] Existing Instance demo_collaborators.

Lemma repo_name_acme : repo_name (lit "acme").
Proof. split; [done|vm_compute; reflexivity]. Qed.
Lemma repo_name_api : repo_name (lit "api").
Proof. split; [done|vm_compute; reflexivity]. Qed.

(** The payload of the push of HttpDemo. *)
Definition demo_payload : PushPayload.t :=
  match unmarshal_payload push_body with inl p => p | inr _ => PushPayload.zero end.

Lemma pushed_repository_found_witness :
  githubRepoFromURLs (repositoryAliases demo_payload) = lit "acme/api"
  /\ lit "git@github.com:acme/api.git" ∈ repositoryAliases demo_payload.
Proof.
  destruct (pushed_repository_found demo_payload (lit "acme") (lit "api") repo_name_acme repo_name_api) as (Hr & Hu & _);
    [vm_compute; reflexivity|].
  split; [exact Hr|]. apply Hu. by left.
Defined.

Lemma build_goes_to_its_repository_witness :
  exists apps, ListApplicationsForBuildComplete (lit "main") (lit "acme/api") two_apps = inl (apps, two_apps) /\ demo_app ∈ apps.
Proof.
  destruct (ListApplicationsForBuildComplete (lit "main") (lit "acme/api") two_apps) as [[apps db]|e] eqn:El;
    [|vm_compute in El; discriminate El].
  destruct (build_goes_to_its_repository (lit "main") (lit "acme/api") two_apps apps db) as [-> Happs].
  - exists (lit "acme"), (lit "api"). split; [exact repo_name_acme|]. split; [exact repo_name_api|done].
  - vm_compute. reflexivity.
  - vm_compute. reflexivity.
  - intros a Ha. apply elem_of_cons in Ha as [->|[->|[]%not_elem_of_nil]%elem_of_cons]; vm_compute; reflexivity.
  - exact El.
  - exists apps. split; [reflexivity|]. apply Happs. split; [by left|]. do 3 (split; [done|]). right. left. reflexivity.
Defined.

(** The push creates one deployment. *)
Definition created_args (tr : list (event apiE)) : list Params.t :=
  omap (fun ev => match ev with Ev (QCreateDeployment arg) _ => Some arg | _ => None end) tr.

Lemma created_in tr arg : arg ∈ created_args tr -> exists x, Ev (QCreateDeployment arg) x ∈ tr.
Proof.
  unfold created_args. intros (ev & Hev & Ho)%list_elem_of_omap. destruct ev as [X e x].
  destruct e; try discriminate Ho. injection Ho as <-. by exists x.
Qed.

Lemma webhook_deploys_what_was_pushed_witness :
  exists tr arg push, runs (githubWebhook demo_webhook (signed_push "a")) tr tt /\ arg ∈ created_args tr
    /\ ParsePush push_body = inl push
    /\ (Params.CommitSha arg, Params.Actor arg)
       = (blankStringAsText (Push.CommitSHA push), blankStringAsText (Push.Actor push)).
Proof.
  destruct (run_of api_handler (githubWebhook demo_webhook (signed_push "a")) (api_start two_apps healthy_host)
    (fun tr => length (created_args tr)) 2%nat) as (tr & Hr & Hl); [vm_compute; reflexivity|].
  destruct (created_args tr) as [|arg l] eqn:Ea; [discriminate Hl|].
  assert (Harg : arg ∈ created_args tr) by (rewrite Ea; by left).
  destruct (created_in tr arg Harg) as (x & Hx).
  destruct (webhook_deploys_what_was_pushed demo_webhook (signed_push "a") tr tt arg x Hr Hx)
    as (_ & _ & push & apps & app & Hp & _ & _ & _ & _ & Earg).
  exists tr, arg, push. split; [exact Hr|]. split; [exact Harg|]. split; [exact Hp|]. by rewrite Earg.
Defined.

(** A build of the application, started here. *)
Definition demo_build : BuildRun.t :=
  BuildRun.mk (PgUUID (gen_uuid 0) true) (lit "github_actions") no_uuid (rid "app") (lit "acme/api") (lit "main")
    (lit "build.yml") (lit "dispatched") (someText demo_sha) textNull textNull textNull textNull (Some 1%Z) None (Some 1%Z)
    (Some 1%Z).
Definition build_db : database := with_uuid_supply (with_build_runs two_apps [demo_build]) 1.
Definition build_body : str := lit "{" ++ quoted (lit "image_ref") ++ lit ":" ++ quoted (lit "registry/api:2") ++ lit "}".
Definition build_request : Request :=
  post_request build_body (fun n => if n =s lit "buildID" then uuid_String (gen_uuid 0) else []).

Lemma build_started_here : started_here build_db.
Proof. intros b ->%list_elem_of_singleton. exists 0%nat. split; [cbn; lia|reflexivity]. Qed.

(** The build is reported twice; in between its deployment is cancelled. *)
Lemma build_deploys_once_witness :
  let '(_, tr, s1) := exec api_handler (completeBuildRun build_request) (api_start build_db healthy_host) in
  length (created_args tr) = 1%nat
  /\ ~ exists arg x, Ev (QCreateDeployment arg) x
         ∈ (exec api_handler (completeBuildRun build_request) (after_requests [(cancelDeployment, build_request)] s1)).1.2.
Proof.
  assert (Hl : length (created_args (exec api_handler (completeBuildRun build_request) (api_start build_db healthy_host)).1.2)
                 = 1%nat) by (vm_compute; reflexivity).
  pose proof (build_deploys_once build_request build_request [(cancelDeployment, build_request)]
    (api_start build_db healthy_host) build_started_here eq_refl eq_refl) as Honce.
  destruct (exec api_handler (completeBuildRun build_request) (api_start build_db healthy_host)) as [[u tr] s1].
  cbn [fst snd] in Hl. split; [exact Hl|]. apply Honce.
  destruct (created_args tr) as [|arg l] eqn:Ea; [discriminate Hl|]. exists arg. apply created_in. rewrite Ea. by left.
Defined.

(** ** Repositories *)

(** A connector of an installation with one repository, which has settings. *)
Definition repo_json : json :=
  JObj [(lit "repository", JStr (lit "acme/api")); (lit "branch", JStr (lit "main")); (lit "image_ref", JStr (lit "registry/api:1"));
        (lit "runner", JStr (lit "self-hosted"))].
Definition repo_config : bytes :=
  Some (JObj [(lit "installation_id", JStr (lit "4711")); (lit "repositories", JArr [repo_json])]).
Definition repo_account : ConnectorAccount.t :=
  ConnectorAccount.mk (rid "connector") (lit "github") (lit "GitHub") true repo_config textNull textNull None None None.
Definition repo_db : database := with_connector_accounts two_apps [repo_account].

Definition parsed_config : Config.t := match ParseConfig repo_config with inl cfg => cfg | inr _ => Config.zero end.
Definition installed_repositories : list AppRepository.t :=
  [AppRepository.mk 7 (lit "acme/api") (lit "main") [] []; AppRepository.mk 9 (lit "acme/web") (lit "trunk") [] []].

(** The settings of one repository are kept, the other is added. *)
Lemma sync_keeps_build_settings_witness :
  exists config cfg', githubConfigFromInstallationRepositoriesWithDefaults (Config.InstallationID parsed_config)
      installed_repositories (Config.Repositories parsed_config) = inl config
    /\ ParseConfig config = inl cfg'
    /\ (exists r, r ∈ Config.Repositories cfg' /\ Repository.Runner r = lit "self-hosted")
    /\ exists r, r ∈ Config.Repositories cfg' /\ Repository.Repository r = lit "acme/web".
Proof.
  destruct (githubConfigFromInstallationRepositoriesWithDefaults (Config.InstallationID parsed_config) installed_repositories
    (Config.Repositories parsed_config)) as [config|err] eqn:Ec; [|vm_compute in Ec; discriminate Ec].
  destruct (sync_keeps_build_settings repo_config parsed_config installed_repositories config) as (cfg' & Hp & _ & Hkept & Hall & _).
  - vm_compute. reflexivity.
  - vm_compute. discriminate.
  - repeat constructor; try (right; vm_compute; reflexivity); vm_compute; reflexivity.
  - apply (bool_decide_eq_true_1 (Forall _ _)). vm_compute. reflexivity.
  - exact Ec.
  - exists config, cfg'. split; [reflexivity|]. split; [exact Hp|].
    assert (Hhead : exists p, p ∈ Config.Repositories parsed_config /\ Repository.Repository p = lit "acme/api" /\ Repository.Runner p = lit "self-hosted").
    { eexists. split; [vm_compute; left|split; vm_compute; reflexivity]. }
    destruct Hhead as (p & Hin & Hname & Hrunner). split.
    + destruct (Hkept p (AppRepository.mk 7 (lit "acme/api") (lit "main") [] []) Hin) as (r & Hr & Hsettings); [by left|by rewrite Hname|].
      exists r. split; [exact Hr|]. unfold keeps_settings in Hsettings. destruct Hsettings as (_ & _ & _ & _ & _ & _ & _ & -> & _). exact Hrunner.
    + destruct (Hall (AppRepository.mk 9 (lit "acme/web") (lit "trunk") [] [])) as (r & Hr & Hname2 & _); [by right; left|discriminate|].
      exists r. split; [exact Hr|]. rewrite Hname2. vm_compute. reflexivity.
Defined.

(** The import of one service with a port, into a project without a repository. *)
Definition demo_services_found : list DetectedService.t :=
  [DetectedService.mk (lit "web") (lit "web") (lit "web/compose.yml") None
     (Some [ComposeService.mk (lit "web") (lit "nginx") [] [] (Some [ComposePort.mk 80 8080 [] []]) None []]);
   DetectedService.mk (lit "jobs") (lit "jobs") (lit "jobs/compose.yml") None None].
Definition demo_import : ImportRequest.t :=
  ImportRequest.mk [] (lit "acme/api") (lit "main") [] [] [] [lit " web "] demo_services_found.
Definition import_into (project : ProjectRow.t) (environment : Environment.t) : ImportContext.t :=
  ImportContext.mk (rid "prj") (rid "env") (rid "srv") environment project repo_account
    (default Repository.zero (head (Config.Repositories parsed_config))).
Definition demo_import_context : ImportContext.t :=
  match projects repo_db, environments repo_db with
  | project :: _, environment :: _ => import_into project environment
  | _, _ => import_into (ProjectRow.mk no_uuid [] [] [] None None no_uuid no_uuid textNull textNull 0)
              (Environment.mk no_uuid no_uuid [] [] [] false None textNull None None None)
  end.

Lemma sixteen_unissued : unissued repo_db.
Proof.
  intros k a _ Ha E. apply (f_equal (fun id => length (uuid_bytes id))) in E. cbn [uuid_bytes] in E.
  assert (Hl : (16 <= length (gen_uuid k))%nat).
  { change (gen_uuid k) with (sixteen k). unfold sixteen. rewrite length_app, !repeat_length. lia. }
  rewrite <- E in Hl. apply elem_of_cons in Ha as [->|[->|[]%not_elem_of_nil]%elem_of_cons]; cbn in Hl; lia.
Qed.

Lemma import_all_or_nothing_witness :
  let s' := (run api_handler (run_import create_request demo_import_context demo_import) (api_start repo_db healthy_host)).2 in
  map fst (a_responses s') = [StatusCreated] /\ length (applications (a_db s')) = 3%nat.
Proof.
  destruct (import_all_or_nothing create_request demo_import_context demo_import (api_start repo_db healthy_host) eq_refl sixteen_unissued)
    as (_ & status & value & Hr & Hout). cbv zeta.
  assert (Hs : map fst (a_responses (run api_handler (run_import create_request demo_import_context demo_import)
    (api_start repo_db healthy_host)).2) = [StatusCreated]) by (vm_compute; reflexivity).
  split; [exact Hs|]. rewrite Hr in Hs. injection Hs as ->. rewrite Z.eqb_refl in Hout.
  destruct Hout as (apps & _ & _ & Hall & -> & _). apply Forall2_length in Hall. rewrite length_app, <- Hall. vm_compute. reflexivity.
Defined.

(** A build of the repository, for the head of its branch. *)
Definition dispatch_request : Request :=
  post_request (lit "{" ++ quoted (lit "repository") ++ lit ":" ++ quoted (lit "acme/api") ++ lit "}")
    (fun n => if n =s lit "connectorID" then uuid_String (uuid_bytes (rid "connector")) else []).
Definition dispatched_events (tr : list (event apiE)) := omap dispatch_of tr.

Lemma dispatched_in tr inst repo wf branch inputs err : (inst, repo, wf, branch, inputs, err) ∈ dispatched_events tr ->
  Ev (CDispatchWorkflow inst repo wf branch inputs) err ∈ tr.
Proof.
  intros (ev & Hev & Ho)%list_elem_of_omap. destruct ev as [X e x]. destruct e; try discriminate Ho.
  injection Ho as <- <- <- <- <- <-. exact Hev.
Qed.

