(* ===== verification/HttpDevUsersFacts.v ===== *)
(** * The users of a server follow the requests

    The lists of server_dev_users.go as finite sets, the statement that replaces
    them, and the file that carries them to the server. *)

From S2P Require Import Prelude GoStrings GoStringsFacts GoRegexp GoJson GoNet StringUtil AuditLog.
From S2P Require Import Db DbHttp DbApplications DbServers RemoteSteps EnvFile ProxyCommands Effects.
From S2P Require Import Runner Queue Engine QueueFacts GoHttp HttpCore HttpDeployments HttpApplications.
From S2P Require Import HttpServers HttpDevUsers HttpEngine ShellSpec.

Lemma existsb_str (l : list str) u : existsb (fun x => x =s u) l = true <-> u ∈ l.
Proof.
  rewrite existsb_exists. setoid_rewrite <- list_elem_of_In. split; [|by exists u; rewrite str_eqb_refl].
  by intros (x & Hx & ->%str_eqb_eq).
Qed.

(** ** Usernames *)

Definition name_byte (r : rune) : bool := is_lower_ascii r || is_digit r || class (lit "_-") r.

Lemma name_byte_ascii r : name_byte r = true -> (r < 128)%N.
Proof.
  unfold name_byte, is_lower_ascii, is_digit, in_range, class. rewrite !orb_true_iff, !andb_true_iff, !N.leb_le.
  cbn. rewrite !orb_true_iff, !N.eqb_eq. intuition (try lia; try done).
Qed.

Lemma username_bytes u : MatchString username_pattern u = true -> u <> [] /\ forallb (fun c => name_byte (b2n c)) u = true.
Proof.
  unfold username_pattern. rewrite MatchString_head_rep. intros Hm.
  assert (Hall : u <> [] /\ forallb name_byte (runes u) = true).
  { destruct (runes u) as [|x t] eqn:Eu; [done|]. split; [by intros ->|].
    apply andb_true_iff in Hm as [Hx [Ht _]%andb_true_iff]. cbn [forallb]. fold name_byte in Ht. apply andb_true_iff.
    split; [|exact Ht]. unfold name_byte. apply orb_true_iff in Hx as [->|Hx]; [done|]. apply N.eqb_eq in Hx as ->. done. }
  destruct Hall as [Hne Hall]. split; [done|]. by rewrite (runes_bytes _ _ name_byte_ascii) in Hall.
Qed.

Lemma username_no u c : MatchString username_pattern u = true -> name_byte (b2n c) = false -> c ∉ u.
Proof.
  intros [_ Hu]%username_bytes Hc Hin. pose proof (forallb_elem _ _ _ Hu Hin) as Hb. cbn beta in Hb. congruence.
Qed.

Lemma username_text_ok u : MatchString username_pattern u = true -> text_ok u = true.
Proof.
  intros Hm. pose proof (username_bytes u Hm) as [_ Hu]. unfold text_ok. apply andb_true_iff. split.
  - apply valid_utf8_ascii, forallb_forall. intros c Hc. apply N.ltb_lt, name_byte_ascii. rewrite forallb_forall in Hu. by apply Hu.
  - apply negb_true_iff, not_true_iff_false. unfold ContainsByte. rewrite existsb_exists. intros (c & Hc & Heq).
    apply bool_decide_eq_true in Heq as <-. by apply (username_no u (ascii_of_N 0) Hm eq_refl), list_elem_of_In.
Qed.

(** ** Lists of users as sets *)

(** A list that the handlers keep. *)
Definition users_list (l : list str) : Prop := NoDup l /\ Sorted str_le l.

Lemma users_list_unique l1 l2 : users_list l1 -> users_list l2 -> (forall u, u ∈ l1 <-> u ∈ l2) -> l1 = l2.
Proof. intros [Hn1 Hs1] [Hn2 Hs2] He. apply (Sorted_unique str_le); [done|done|]. by apply NoDup_Permutation. Qed.

Lemma sort_Strings_users l : NoDup l -> users_list (sort_Strings l).
Proof. intros Hn. split; [by rewrite sort_Strings_perm|apply sort_Strings_sorted]. Qed.

Lemma addDevUser_users l u : users_list l -> users_list (addDevUser l u).
Proof.
  intros Hl. unfold addDevUser. destruct (existsb _ l) eqn:E; [done|]. apply sort_Strings_users, NoDup_app.
  split; [by apply Hl|]. split; [|apply NoDup_singleton]. intros x Hx ->%list_elem_of_singleton.
  by apply existsb_str in Hx; rewrite Hx in E.
Qed.

Lemma addDevUser_elem l u x : x ∈ addDevUser l u <-> x = u \/ x ∈ l.
Proof.
  unfold addDevUser. destruct (existsb _ l) eqn:E.
  - apply existsb_str in E. split; [by right|]. by intros [->|Hx].
  - rewrite sort_Strings_perm, elem_of_app, list_elem_of_singleton. tauto.
Qed.

Lemma replace_users_spec users old new next : users_list next ->
  users_list (replace_users users old new next)
  /\ forall x, x ∈ replace_users users old new next
       <-> x ∈ next \/ (x ∈ users /\ x <> old) \/ (x = new /\ old ∈ users).
Proof.
  revert next. induction users as [|u t IH]; intros next Hn; cbn [replace_users].
  - split; [done|]. intros x. split; [by left|]. by intros [Hx|[[Hx _]|[_ Hx]]]; [|apply not_elem_of_nil in Hx..].
  - destruct (IH (addDevUser next (if u =s old then new else u))) as [Hl He]; [by apply addDevUser_users|].
    split; [exact Hl|]. intros x. rewrite He, addDevUser_elem, !elem_of_cons.
    destruct (u =s old) eqn:E; [apply str_eqb_eq in E as ->|apply str_eqb_neq in E].
    + split; [intuition congruence|]. intros [Hx|[[[->|Hx] Hn']|[-> [_|Hx]]]]; tauto.
    + intuition congruence.
Qed.

Lemma replaceDevUser_spec `{UnicodeTables} users old new l : users_list users -> replaceDevUser users old new = inl l ->
  old ∈ users /\ users_list l /\ forall x, x ∈ l <-> x = new \/ (x ∈ users /\ x <> old).
Proof.
  intros Hu. unfold replaceDevUser. destruct (existsb _ users) eqn:E; [|done]. cbn [negb]. intros [= <-].
  apply existsb_str in E. split; [exact E|].
  destruct (replace_users_spec users old new []) as [Hl He]; [by split; constructor|]. split; [exact Hl|].
  intros x. rewrite He. split; [|tauto]. intros [Hx|Hx]; [by apply not_elem_of_nil in Hx|tauto].
Qed.

Lemma removeDevUser_elem users u x : x ∈ removeDevUser users u <-> x ∈ users /\ x <> u.
Proof. unfold removeDevUser. rewrite list_elem_of_In, filter_In, <- list_elem_of_In, negb_true_iff, str_eqb_neq. done. Qed.

Lemma Sorted_filter_str p (l : list str) : Sorted str_le l -> Sorted str_le (List.filter p l).
Proof.
  intros Hs%Sorted_StronglySorted; [|exact _]. apply StronglySorted_Sorted. induction Hs as [|x t Hs IH Hf]; [constructor|].
  cbn [List.filter]. destruct (p x); [|exact IH]. constructor; [exact IH|]. rewrite List.Forall_forall in *.
  intros y [Hy _]%filter_In. by apply Hf.
Qed.

Lemma removeDevUser_users l u : users_list l -> users_list (removeDevUser l u).
Proof. intros [Hn Hs]. split; [by apply NoDup_ListNoDup, List.NoDup_filter, NoDup_ListNoDup|by apply Sorted_filter_str]. Qed.

(** ** The statement *)

Definition server_users (db : database) (server : pgUUID_t) : list str :=
  map DevUser.Username (List.filter (user_of server) (dev_users (inventory db))).
(** What the handlers read, and the rows as a set. *)
Definition listed (db : database) (server : pgUUID_t) : list str := sort_Strings (server_users db server).
Definition users_at (db : database) (server : pgUUID_t) : gset str := list_to_set (server_users db server).

(** The unique key and the check constraint of server_dev_sudo_users. *)
Definition dev_users_ok (db : database) : Prop :=
  (forall server, NoDup (server_users db server))
  /\ forall u, u ∈ dev_users (inventory db) -> MatchString username_pattern (DevUser.Username u) = true.

Lemma users_at_elem db server x : x ∈ users_at db server <-> x ∈ listed db server.
Proof. unfold users_at, listed. by rewrite elem_of_list_to_set, sort_Strings_perm. Qed.

Lemma listed_users db server : dev_users_ok db -> users_list (listed db server).
Proof. intros [Hn _]. by apply sort_Strings_users. Qed.

Lemma listed_valid db server u : dev_users_ok db -> u ∈ listed db server -> MatchString username_pattern u = true.
Proof.
  intros [_ Hv]. unfold listed, server_users. rewrite sort_Strings_perm, list_elem_of_In, in_map_iff.
  intros (x & <- & Hx). apply filter_In in Hx as [Hx _]. by apply Hv, list_elem_of_In.
Qed.

Lemma ListServerDevSudoUsers_listed db server :
  exists rows, ListServerDevSudoUsers server db = inl (rows, db) /\ map DevUser.Username rows = listed db server.
Proof.
  eexists. split; [done|]. unfold listed. apply (Sorted_unique str_le).
  - apply (Sorted_fmap _ (by_key DevUser.Username)); [done|apply by_key_sorted].
  - apply sort_Strings_sorted.
  - rewrite sort_Strings_perm. unfold server_users. by rewrite merge_sort_Permutation.
Qed.

(** The rows of the other servers. *)
Definition other_users (db : database) (server : pgUUID_t) : list DevUser.t :=
  List.filter (fun u => negb (user_of server u)) (dev_users (inventory db)).

Lemma user_is_of server u x : user_is server u x = true -> user_of server x = true.
Proof. by intros [? _]%andb_true_iff. Qed.

Section Rows.
Context `{UuidSource}.

Lemma upsert_rows server u now fresh t : uuid_valid server = true ->
  DevUser.ServerID fresh = server -> DevUser.Username fresh = u ->
  let t' := (sql_upsert (user_is server u) (touched now) fresh t).1 in
  (exists names, map DevUser.Username (List.filter (user_of server) t') = map DevUser.Username (List.filter (user_of server) t) ++ names
     /\ names = if bool_decide (u ∈ map DevUser.Username (List.filter (user_of server) t)) then [] else [u])
  /\ List.filter (fun x => negb (user_of server x)) t' = List.filter (fun x => negb (user_of server x)) t
  /\ forall P : str -> Prop, (P u -> (forall x, x ∈ t -> P (DevUser.Username x)) -> forall x, x ∈ t' -> P (DevUser.Username x)).
Proof.
  intros Hv Hs Hu. unfold sql_upsert. destruct (List.filter (user_is server u) t) as [|r l] eqn:E; cbn [fst].
  - assert (Hn : u ∉ map DevUser.Username (List.filter (user_of server) t)).
    { rewrite list_elem_of_In, in_map_iff. intros (x & Hx & [Hin Ho]%filter_In).
      assert (Hf : x ∈ List.filter (user_is server u) t) by (apply list_elem_of_In, filter_In; split; [done|];
        unfold user_is; by rewrite Ho, Hx, str_eqb_refl).
      rewrite E in Hf. by apply not_elem_of_nil in Hf. }
    assert (Hf : user_of server fresh = true) by by unfold user_of, uuid_eqb; rewrite Hs, Hv, str_eqb_refl.
    rewrite !List.filter_app. cbn [List.filter]. rewrite Hf. cbn [negb]. rewrite app_nil_r, map_app, bool_decide_false by done.
    split; [exists [u]; cbn; by rewrite Hu|]. split; [done|]. intros P Pu Ht x [Hx|Hx]%elem_of_app; [by apply Ht|].
    apply list_elem_of_singleton in Hx as ->. by rewrite Hu.
  - assert (Hr : r ∈ List.filter (user_is server u) t) by (rewrite E; by left).
    apply list_elem_of_In, filter_In in Hr as [Hin Hr]. pose proof (user_is_of _ _ _ Hr) as Ho.
    assert (Hm : forall (p : DevUser.t -> bool), (forall x, p (touched now x) = p x) ->
      map DevUser.Username (List.filter p (map (fun x => if user_is server u x then touched now x else x) t))
      = map DevUser.Username (List.filter p t)).
    { intros p Hp. clear - Hp. induction t as [|x t IH]; [done|]. cbn [map List.filter].
      destruct (user_is server u x); rewrite ?Hp; destruct (p x); cbn [map]; by rewrite IH. }
    split; [|split].
    + exists []. rewrite (Hm (user_of server)) by done. rewrite app_nil_r, bool_decide_true; [done|].
      apply list_elem_of_In, in_map_iff. exists r. apply andb_true_iff in Hr as [_ Hr%str_eqb_eq].
      split; [done|]. by apply filter_In.
    + clear - Hv. induction t as [|x t IH]; [done|]. cbn [map List.filter].
      destruct (user_is server u x) eqn:Ex; [|by destruct (negb _); rewrite IH].
      change (user_of server (touched now x)) with (user_of server x). by rewrite (user_is_of _ _ _ Ex).
    + intros P _ Ht x Hx. apply list_elem_of_In, in_map_iff in Hx as (y & <- & Hy%list_elem_of_In).
      destruct (user_is server u y); exact (Ht y Hy).
Qed.

(** What a row of the table may be named. *)
Definition names_ok (t : list DevUser.t) : Prop := forall x, x ∈ t -> MatchString username_pattern (DevUser.Username x) = true.

Lemma insert_users_rows server usernames db : uuid_valid server = true ->
  forallb (MatchString username_pattern) usernames = true ->
  names_ok (dev_users (inventory db)) -> NoDup (server_users db server) ->
  let db' := insert_users server usernames db in
  NoDup (server_users db' server) /\ names_ok (dev_users (inventory db')) /\ other_users db' server = other_users db server
  /\ servers db' = servers db /\ forall x, x ∈ server_users db' server <-> x ∈ server_users db server \/ x ∈ usernames.
Proof.
  intros Hv. revert db. induction usernames as [|u t IH]; intros db Hu Hk Hn; cbn [insert_users].
  - cbv zeta. split; [done|]. split; [done|]. split; [done|]. split; [done|]. intros x. split; [by left|].
    by intros [Hx|Hx%not_elem_of_nil].
  - cbn [forallb] in Hu. apply andb_true_iff in Hu as [Hu Ht].
    set (fresh := DevUser.mk _ server u _ _).
    destruct (upsert_rows server u (Some (clock db)) fresh (dev_users (inventory db)) Hv eq_refl eq_refl)
      as ((names & Hin & Hnames) & Hout & Hall).
    destruct (sql_upsert _ _ _ _) as [l r] eqn:El. cbn [fst] in Hin, Hout, Hall.
    set (db1 := with_uuid_supply (with_dev_users db l) (S (uuid_supply db))).
    fold (server_users db server) in Hin, Hnames. change (map _ (List.filter (user_of server) l)) with (server_users db1 server) in Hin.
    assert (Hin1 : forall x, x ∈ server_users db1 server <-> x ∈ server_users db server \/ x = u).
    { intros x. rewrite Hin, elem_of_app, Hnames. case_bool_decide as Hd; [|by rewrite list_elem_of_singleton].
      rewrite elem_of_nil. split; [tauto|]. intros [Hx| ->]; by left. }
    destruct (IH db1) as (HN & HK & HO & HS & HE); [done|exact (Hall (fun u => MatchString username_pattern u = true) Hu Hk)| |].
    { rewrite Hin, Hnames. case_bool_decide; [by rewrite app_nil_r|]. apply NoDup_app.
      split; [done|]. split; [|apply NoDup_singleton]. by intros x Hx ->%list_elem_of_singleton. }
    split; [exact HN|]. split; [exact HK|]. split; [by rewrite HO; exact Hout|]. split; [done|].
    intros x. rewrite HE, Hin1, elem_of_cons. tauto.
Qed.

End Rows.

Lemma uuid_eqb_iff a b : uuid_eqb a b = true <-> a = b /\ uuid_valid a = true.
Proof.
  destruct a as [x [|]], b as [y [|]]; unfold uuid_eqb; cbn; try (by split; [done|intros [[=] _]]).
  rewrite str_eqb_eq. split; [by intros ->|by intros [[= ->] _]].
  split; [done|]. by intros [_ ?].
Qed.

Lemma server_users_other db db' server other : other <> server ->
  other_users db' server = other_users db server -> server_users db' other = server_users db other.
Proof.
  intros Hne Ho. assert (Hf : forall d, server_users d other = map DevUser.Username (List.filter (user_of other) (other_users d server))).
  { intros d. unfold server_users, other_users. f_equal. induction (dev_users (inventory d)) as [|x t IH]; [done|].
    cbn [List.filter]. destruct (user_of server x) eqn:Es; cbn [negb]; [|by cbn [List.filter]; rewrite IH].
    destruct (user_of other x) eqn:Eo; [|exact IH].
    apply uuid_eqb_iff in Es as [Es _], Eo as [Eo _]. congruence. }
  by rewrite !Hf, Ho.
Qed.

(** The rows that the statement does not delete. *)
Lemma kept_rows db server l (p : DevUser.t -> bool) :
  p = (fun u => negb (user_of server u) || existsb (str_eqb (DevUser.Username u)) l) ->
  let db' := with_dev_users db (List.filter p (dev_users (inventory db))) in
  dev_users_ok db ->
  dev_users_ok db' /\ other_users db' server = other_users db server
  /\ forall x, x ∈ server_users db' server -> x ∈ l.
Proof.
  intros -> db' [Hn Hk]. split; [split|split].
  - intros s. specialize (Hn s). unfold server_users, db' in *. cbn [dev_users inventory with_dev_users with_inventory].
    rewrite filter_filter_and. rewrite NoDup_ListNoDup in *. clear Hk. induction (dev_users (inventory db)) as [|x t IH]; [constructor|].
    cbn [List.filter]. cbn [List.filter] in Hn. destruct (user_of s x); cbn [andb]; [|by apply IH].
    cbn [map] in Hn. inversion Hn as [|a b Ha Hb]; subst. destruct (_ || _); [|by apply IH]. cbn [map]. constructor; [|by apply IH].
    rewrite in_map_iff in *. intros (y & Hy & [Hin [Ho _]%andb_true_iff]%filter_In). apply Ha. exists y. split; [done|]. by apply filter_In.
  - intros u Hu. apply Hk. apply list_elem_of_In, filter_In in Hu as [Hu _]. by apply list_elem_of_In.
  - unfold other_users, db'. cbn [dev_users inventory with_dev_users with_inventory]. rewrite filter_filter_and.
    apply filter_ext. intros x. by destruct (user_of server x).
  - intros x. unfold server_users, db'. cbn [dev_users inventory with_dev_users with_inventory].
    rewrite filter_filter_and, list_elem_of_In, in_map_iff.
    intros (y & <- & [_ [Ho Hy]%andb_true_iff]%filter_In). rewrite Ho in Hy. cbn [negb orb] in Hy.
    apply existsb_exists in Hy as (z & Hz & ->%str_eqb_eq). by apply list_elem_of_In.
Qed.

(** Replacing the users by a list of valid names never fails. *)
Lemma replace_listed `{UuidSource} db server l : dev_users_ok db -> uuid_valid server = true ->
  reference_ok Server.ID server (servers db) = true ->
  users_list l -> (forall u, u ∈ l -> MatchString username_pattern u = true) ->
  exists db', ReplaceServerDevSudoUsers server l db = inl (tt, db') /\ dev_users_ok db' /\ listed db' server = l
    /\ servers db' = servers db /\ forall other, other <> server -> server_users db' other = server_users db other.
Proof.
  intros Hok Hv Hr Hl Hu. destruct (kept_rows db server l _ eq_refl Hok) as (Hok1 & Ho & Hin).
  set (db1 := with_dev_users db _) in Hok1, Ho, Hin.
  assert (Hall : forallb (MatchString username_pattern) l = true).
  { apply forallb_forall. intros u Hx. by apply Hu, list_elem_of_In. }
  exists (insert_users server l db1). split.
  { unfold ReplaceServerDevSudoUsers. rewrite (proj2 (forallb_forall _ l)).
    2:{ intros u Hx. by apply username_text_ok, Hu, list_elem_of_In. }
    destruct l as [|u t]; [done|]. rewrite Hv, Hall, Hr, bool_decide_true by apply Hl. done. }
  destruct (insert_users_rows server l db1 Hv Hall) as (HN & HK & HO & HS & HE); [exact (proj2 Hok1)|exact (proj1 Hok1 server)|].
  assert (Hothers : forall other, other <> server -> server_users (insert_users server l db1) other = server_users db other).
  { intros other Hne. apply (server_users_other _ _ server); [done|]. by rewrite HO. }
  split; [|split; [|split; [exact HS|exact Hothers]]].
  - split; [|exact HK]. intros other. destruct (decide (other = server)) as [->|Hne]; [exact HN|].
    rewrite Hothers by done. apply Hok.
  - apply users_list_unique; [by apply sort_Strings_users|done|]. intros x. unfold listed.
    rewrite sort_Strings_perm, HE. split; [by intros [Hx%Hin|Hx]|by right].
Qed.

(** ** The handlers *)

Lemma normalize_valid `{UnicodeTables} s u : normalizeDevUsername s = inl u -> MatchString username_pattern u = true.
Proof.
  unfold normalizeDevUsername. cbv zeta. destruct (TrimSpace s =s []); [done|]. destruct (_ <? _)%nat; [done|].
  destruct (negb (MatchString linuxUsernamePattern (TrimSpace s))) eqn:E; [done|]. intros [= <-]. by apply negb_false_iff in E.
Qed.

Section Handlers.
Context `{UnicodeTables} `{UuidLib} `{!UuidLaws} `{Resolver} `{SshLib} `{UuidSource} `{PgJson} `{FoldTable}.
Context {Host : Type} `{!Collaborators Host} `{!ApiHost Host}.
Implicit Types (s : api_state (Host := Host)).

Abbreviation go := (run api_handler).

(** Calls that leave the servers and their users alone. *)
Definition aside s s' : Prop :=
  inventory (a_db s') = inventory (a_db s) /\ servers (a_db s') = servers (a_db s)
  /\ q_host (a_queue s') = q_host (a_queue s) /\ a_responses s' = a_responses s.

Lemma aside_refl s : aside s s.
Proof. done. Qed.
Lemma aside_trans s1 s2 s3 : aside s1 s2 -> aside s2 s3 -> aside s1 s3.
Proof. intros (E1 & E2 & E3 & E4) (F1 & F2 & F3 & F4). repeat split; by etrans. Qed.
Lemma aside_ok s s' : aside s s' -> dev_users_ok (a_db s) -> dev_users_ok (a_db s').
Proof. intros (E & _). unfold dev_users_ok, server_users. by rewrite E. Qed.
Lemma aside_listed s s' server : aside s s' -> listed (a_db s') server = listed (a_db s) server.
Proof. intros (E & _). unfold listed, server_users. by rewrite E. Qed.

(** A statement that only reads. *)
Lemma read_run {A} (q : query A) s a : q (a_db s) = inl (a, a_db s) ->
  exists s', on_db q s = (inl a, s') /\ aside s s'.
Proof. intros Hq. unfold on_db, on_queue, on_engine, lift. cbn. unfold a_db in Hq. rewrite Hq. by eexists. Qed.

Lemma written_run {A} (q : query A) s a db' : q (a_db s) = inl (a, db') ->
  on_db q s = (inl a, set_db s (tick db') (a_saved s)).
Proof. intros Hq. unfold on_db, on_queue, on_engine, lift. cbn. unfold a_db in Hq. by rewrite Hq. Qed.

Lemma failed_run {A} (q : query A) s e : q (a_db s) = inr e -> exists s', on_db q s = (inr e, s') /\ aside s s'.
Proof. intros Hq. unfold on_db, on_queue, on_engine, lift. cbn. unfold a_db in Hq. rewrite Hq. by eexists. Qed.

Lemma keeps_aside {A} (q : query A) s :
  (forall db a db', q db = inl (a, db') -> inventory db' = inventory db /\ servers db' = servers db) ->
  aside s (on_db q s).2.
Proof.
  intros Hq. unfold on_db, on_queue, on_engine, lift. cbn [fst snd]. destruct (q _) as [[a db']|e] eqn:E; [|done].
  by destruct (Hq _ _ _ E) as [Hi Hs].
Qed.

Lemma audit_aside r action kind id name metadata s : aside s (go (audit r action kind id name metadata) s).2.
Proof.
  unfold audit. rewrite run_bind, run_call. cbn [run snd]. refine (keeps_aside (AppendAuditEvent _) s _).
  intros db a db'. unfold AppendAuditEvent. destruct (negb (forallb _ _)); [done|]. by intros [= _ <-].
Qed.

Lemma writeJSON_run status v s : go (writeJSON status v) s = (tt, respond s status v).
Proof. unfold writeJSON. by rewrite ?run_bind, ?run_call. Qed.

Lemma writeError_run err s : exists status v, go (writeError err) s = (tt, respond s status v) /\ status <> StatusOK.
Proof.
  unfold writeError, error_response. destruct (is_some _); [by eexists _, _|]. destruct (is_some _); [by eexists _, _|].
  destruct (isRequestBodyTooLarge err); by eexists _, _.
Qed.

(** The server of a request. *)
Definition names_server (r : Request) (db : database) (server : Server.t) : Prop :=
  parseUUIDParam r (lit "serverID") = inl (Server.ID server) /\ server ∈ servers db
  /\ uuid_valid (Server.ID server) = true /\ canConnectToServerForDevUsers server = true.

Lemma serverForDevUserRequest_run r s : exists res s', go (serverForDevUserRequest r) s = (res, s') /\ aside s s'
  /\ match res with inl server => names_server r (a_db s) server | inr _ => True end.
Proof.
  unfold serverForDevUserRequest. destruct (parseUUIDParam r (lit "serverID")) as [id|err] eqn:Ep; [|by eexists _, _].
  rewrite run_bind, run_call. cbn [api_handler].
  assert (Hq : (exists server, GetServer id (a_db s) = inl (server, a_db s) /\ server ∈ servers (a_db s)
      /\ uuid_eqb (Server.ID server) id = true) \/ exists err, GetServer id (a_db s) = inr err).
  { unfold GetServer. destruct (List.filter _ (servers (a_db s))) as [|x l] eqn:El; [right; by eexists|left].
    exists x. split; [done|]. assert (Hx : x ∈ x :: l) by by left. rewrite <- El in Hx.
    apply list_elem_of_In, filter_In in Hx as [Hx Hi]. split; [by apply list_elem_of_In|done]. }
  destruct Hq as [(server & Hq & Hin & [Hid Hv]%uuid_eqb_iff)|(err & Hq)].
  - destruct (read_run _ s _ Hq) as (s' & -> & Hs). cbn [fst snd].
    destruct (canConnectToServerForDevUsers server) eqn:Ec; cbn [negb]; eexists _, _; split; try done.
    split; [exact Hs|]. subst id. by repeat split.
  - destruct (failed_run _ s _ Hq) as (s' & -> & Hs). by eexists _, _.
Qed.

Lemma readServerDevUsers_run server s : exists s',
  go (readServerDevUsers server) s = (inl (listed (a_db s) (Server.ID server)), s') /\ aside s s'.
Proof.
  unfold readServerDevUsers. rewrite run_bind_ok, run_call. cbn [api_handler].
  destruct (ListServerDevSudoUsers_listed (a_db s) (Server.ID server)) as (rows & Hq & Hrows).
  destruct (read_run _ s _ Hq) as (s' & -> & Hs). eexists. split; [|exact Hs]. by rewrite <- Hrows.
Qed.

(** What is run on the server, or on this host when the server is this host. *)
Definition apply_host (server : Server.t) (users : list str) (host : Host) : option goerror * Host :=
  let '(local, host) := if Server.ConnectionMode server =s ConnectionModeTailscaleSSH
                        then Engine.do_local (Server.Hostname server) host else (false, host) in
  let '((_, err), host) := if local : bool then HttpEngine.do_local (localHostDevUsersApplyCommand server users) host
                           else do_remote server (remoteDevUsersApplyCommand server users) host in
  (err, host).

Lemma write_run server users s :
  go (writeAndApplyServerDevUsers server users) s
  = ((apply_host server users (q_host (a_queue s))).1, on_host s (apply_host server users (q_host (a_queue s))).2).
Proof.
  unfold writeAndApplyServerDevUsers, apply_host. rewrite run_bind.
  set (found := if _ : bool then Engine.do_local _ _ else _).
  assert (Hf : go (if Server.ConnectionMode server =s ConnectionModeTailscaleSSH
      then call (QShared (CIsLocalTailscaleHost (Server.Hostname server))) else Ret false) s = (found.1, on_host s found.2)).
  { unfold found. destruct (_ =s _).
    - rewrite run_call. cbn [api_handler]. unfold on_queue, on_engine. cbn. unfold Engine.on_host. cbn [fst snd].
      by destruct (Engine.do_local _ _).
    - rewrite run_ret. by destruct s as [[? ? ?] ? ? ?]. }
  rewrite Hf. destruct found as [local h]. cbn [fst snd]. rewrite run_bind.
  destruct local; rewrite run_call; cbn [api_handler on_host a_queue q_host].
  - by destruct (HttpEngine.do_local _ _) as [[out err] h'].
  - by destruct (do_remote _ _ _) as [[out err] h'].
Qed.

(** How a request ends: with the users stored and the commands of those users
    run, or with an error, the users as they were and no command that succeeded. *)
Definition users_stored s server users s' : Prop :=
  listed (a_db s') (Server.ID server) = users
  /\ (forall other, other <> Server.ID server -> users_at (a_db s') other = users_at (a_db s) other)
  /\ apply_host server users (q_host (a_queue s)) = (None, q_host (a_queue s'))
  /\ a_responses s' = a_responses s ++ [(StatusOK, VDevUsers users)].

Definition users_refused s s' : Prop :=
  dev_users (inventory (a_db s')) = dev_users (inventory (a_db s))
  /\ (q_host (a_queue s') = q_host (a_queue s)
     \/ exists server users err, apply_host server users (q_host (a_queue s)) = (Some err, q_host (a_queue s')))
  /\ exists status v, a_responses s' = a_responses s ++ [(status, v)] /\ status <> StatusOK.

Lemma users_refused_run err s s1 : aside s s1 -> users_refused s (go (writeError err) s1).2.
Proof.
  intros (Ei & _ & Eh & Er). destruct (writeError_run err s1) as (status & v & -> & Hst). cbn [snd].
  unfold users_refused. unfold a_db in *. cbn. rewrite Ei, Er. split; [done|]. split; [by left|]. by exists status, v.
Qed.

Lemma change_users_run r action server metadata users s s1 :
  dev_users_ok (a_db s) -> aside s s1 -> names_server r (a_db s) server -> users_list users ->
  (forall u, u ∈ users -> MatchString username_pattern u = true) ->
  let s' := (go (change_users r action server metadata users) s1).2 in
  dev_users_ok (a_db s') /\ (users_stored s server users s' \/ users_refused s s').
Proof.
  intros Hok Ha (_ & Hin & Hv & _) Hl Hu. cbv zeta. unfold change_users, applyAndPersistServerDevUsers.
  rewrite run_bind, run_bind, write_run. cbn [fst snd]. destruct Ha as (Ei & Es & Eh & Er). rewrite Eh.
  destruct (apply_host server users (q_host (a_queue s))) as [[err|] host] eqn:Eapply; cbn [fst snd].
  - rewrite run_ret. cbn [fst snd]. destruct (writeError_run err (on_host s1 host)) as (status & v & -> & Hst). cbn [snd].
    unfold users_refused, dev_users_ok, server_users, a_db in *. cbn. unfold a_db. rewrite Ei, Er. split; [exact Hok|]. right.
    split; [done|]. split; [right; by exists server, users, err|by exists status, v].
  - unfold persistServerDevUsers. rewrite run_bind, run_call. cbn [api_handler].
    assert (Hok1 : dev_users_ok (a_db s1)) by by unfold dev_users_ok, server_users; rewrite Ei.
    destruct (replace_listed (a_db s1) (Server.ID server) users) as (db' & Hq & Hok' & Hlist & _ & Hothers); try done.
    { unfold reference_ok. rewrite Hv. cbn [negb orb]. apply existsb_exists. exists server. rewrite Es.
      split; [by apply list_elem_of_In|]. by apply uuid_eqb_iff. }
    rewrite (written_run _ (on_host s1 host) tt db' Hq). cbn [fst snd]. rewrite run_ret. cbn [fst snd].
    unfold audit_dev_users. rewrite run_bind, writeJSON_run. cbn [snd].
    set (s2 := set_db _ _ _).
    destruct (audit_aside r action (lit "server") (uuidString (Server.ID server)) (Server.Name server) (Some metadata) s2)
      as (Ei2 & _ & Eh2 & Er2).
    set (s3 := (go (audit _ _ _ _ _ _) s2).2) in *. clearbody s3.
    unfold users_stored, dev_users_ok, users_at, listed, server_users, a_db in *.
    cbn [a_queue respond a_responses]. rewrite Ei2, Eh2, Er2. cbn. rewrite Er. split; [exact Hok'|]. left.
    split; [exact Hlist|]. split; [|done]. intros other Hne. f_equal. rewrite <- Ei. by apply Hothers.
Qed.

(** ** Refinement *)

Inductive dev_user_op := AddUser | UpdateUser | DeleteUser.

Definition dev_user_handler (op : dev_user_op) : Request -> H unit :=
  match op with AddUser => addServerDevUser | UpdateUser => updateServerDevUser | DeleteUser => deleteServerDevUser end.

(** What a request asks for, on the set of the users. *)
Definition requested_users (op : dev_user_op) (r : Request) (before : gset str) : result (gset str) :=
  let body := let? username := readJSON decode_devUserRequest (Body r) in normalizeDevUsername username in
  let named := normalizeDevUsername (chiURLParam r (lit "username")) in
  match op with
  | AddUser => let? u := body in inl ({[u]} ∪ before)
  | UpdateUser =>
      let? old := named in let? new := body in
      if bool_decide (old ∈ before) then inl ({[new]} ∪ (before ∖ {[old]}))
      else inr (ErrNotFound (lit "username " ++ fmt_q old ++ lit " not found"))
  | DeleteUser => let? u := named in inl (before ∖ {[u]})
  end.

(** [s'] ends the request: the users of the server are those it asks for, or it was refused. *)
Definition follows op r s s' : Prop :=
  dev_users_ok (a_db s')
  /\ ((exists server users, names_server r (a_db s) server
         /\ requested_users op r (users_at (a_db s) (Server.ID server)) = inl (list_to_set users)
         /\ users_stored s server users s')
      \/ users_refused s s').

Lemma refused_follows op r err s s1 : dev_users_ok (a_db s) -> aside s s1 -> follows op r s (go (writeError err) s1).2.
Proof.
  intros Hok Ha. pose proof (users_refused_run err s s1 Ha) as Hr. split; [|by right].
  destruct Hr as [E _]. unfold dev_users_ok, server_users. by rewrite E.
Qed.

Lemma change_follows op r action server metadata users s s1 :
  dev_users_ok (a_db s) -> aside s s1 -> names_server r (a_db s) server ->
  users_list users -> (forall u, u ∈ users -> MatchString username_pattern u = true) ->
  requested_users op r (users_at (a_db s) (Server.ID server)) = inl (list_to_set users) ->
  follows op r s (go (change_users r action server metadata users) s1).2.
Proof.
  intros Hok Ha Hn Hl Hu Hr. destruct (change_users_run r action server metadata users s s1 Hok Ha Hn Hl Hu) as [Hok' Hend].
  split; [exact Hok'|]. destruct Hend as [Hst|Hre]; [left; by exists server, users|by right].
Qed.

(** A request with a server and a username in its path. *)
Lemma serverAndDevUsername_run r s : exists res s', go (serverAndDevUsername r) s = (res, s') /\ aside s s'
  /\ match res with
     | inl (server, username) => names_server r (a_db s) server /\ normalizeDevUsername (chiURLParam r (lit "username")) = inl username
     | inr _ => True
     end.
Proof.
  unfold serverAndDevUsername. destruct (serverForDevUserRequest_run r s) as (res & s1 & E & Ha & Hres).
  rewrite run_bind_ok, E. destruct res as [server|err]; [|by eexists _, _]. rewrite run_ret.
  destruct (normalizeDevUsername _) as [u|err]; by eexists _, _.
Qed.

Lemma follows_add r s : dev_users_ok (a_db s) -> follows AddUser r s (go (addServerDevUser r) s).2.
Proof.
  intros Hok. unfold addServerDevUser. destruct (serverForDevUserRequest_run r s) as (res & s1 & E & Ha & Hres).
  rewrite run_bind, E. cbn [fst snd]. destruct res as [server|err]; [|by apply refused_follows].
  destruct (let? username := _ in _) as [u|err] eqn:Eu; [|by apply refused_follows].
  destruct (readServerDevUsers_run server s1) as (s2 & Er & Ha2). rewrite run_bind, Er. cbn [fst snd].
  rewrite (aside_listed _ _ _ Ha). pose proof (listed_users (a_db s) (Server.ID server) Hok) as Hl.
  apply change_follows; [done|by apply (aside_trans s s1)|done|by apply addDevUser_users| |].
  - intros x [->|Hx]%addDevUser_elem; [|by apply (listed_valid (a_db s) (Server.ID server))].
    apply rbind_ok in Eu as (? & _ & Eu). by apply normalize_valid in Eu.
  - unfold requested_users. rewrite Eu. cbn [rbind]. f_equal. apply set_eq. intros x.
    by rewrite elem_of_union, elem_of_singleton, elem_of_list_to_set, addDevUser_elem, users_at_elem.
Qed.

Lemma follows_update r s : dev_users_ok (a_db s) -> follows UpdateUser r s (go (updateServerDevUser r) s).2.
Proof.
  intros Hok. unfold updateServerDevUser. destruct (serverAndDevUsername_run r s) as (res & s1 & E & Ha & Hres).
  rewrite run_bind, E. cbn [fst snd]. destruct res as [[server old]|err]; [|by apply refused_follows].
  destruct Hres as [Hn Hold].
  destruct (let? username := _ in _) as [new|err] eqn:Eu; [|by apply refused_follows].
  destruct (readServerDevUsers_run server s1) as (s2 & Er & Ha2). rewrite run_bind, Er. cbn [fst snd rbind].
  rewrite (aside_listed _ _ _ Ha). pose proof (listed_users (a_db s) (Server.ID server) Hok) as Hl.
  pose proof (aside_trans _ _ _ Ha Ha2) as Ha3.
  destruct (replaceDevUser _ old new) as [users|err] eqn:Ere; [|by apply refused_follows].
  destruct (replaceDevUser_spec _ _ _ _ Hl Ere) as (Hin & Hlu & He).
  apply change_follows; [done|done|done|done| |].
  - intros x [->|[Hx _]]%He; [|by apply (listed_valid (a_db s) (Server.ID server))].
    apply rbind_ok in Eu as (? & _ & Eu). by apply normalize_valid in Eu.
  - unfold requested_users. rewrite Eu, Hold. cbn [rbind]. rewrite bool_decide_true by by apply users_at_elem.
    f_equal. apply set_eq. intros x.
    rewrite elem_of_union, elem_of_difference, !elem_of_singleton, elem_of_list_to_set, He, users_at_elem. done.
Qed.

Lemma follows_delete r s : dev_users_ok (a_db s) -> follows DeleteUser r s (go (deleteServerDevUser r) s).2.
Proof.
  intros Hok. unfold deleteServerDevUser. destruct (serverAndDevUsername_run r s) as (res & s1 & E & Ha & Hres).
  rewrite run_bind, E. cbn [fst snd]. destruct res as [[server u]|err]; [|by apply refused_follows].
  destruct Hres as [Hn Hu].
  destruct (readServerDevUsers_run server s1) as (s2 & Er & Ha2). rewrite run_bind, Er. cbn [fst snd].
  rewrite (aside_listed _ _ _ Ha). pose proof (listed_users (a_db s) (Server.ID server) Hok) as Hl.
  apply change_follows; [done|by apply (aside_trans s s1)|done|by apply removeDevUser_users| |].
  - intros x [Hx _]%removeDevUser_elem. by apply (listed_valid (a_db s) (Server.ID server)).
  - unfold requested_users. rewrite Hu. cbn [rbind]. f_equal. apply set_eq. intros x.
    by rewrite elem_of_difference, elem_of_singleton, elem_of_list_to_set, removeDevUser_elem, users_at_elem.
Qed.

(** C14: adding, renaming and removing a user with sudo rights refine the
    operations on a finite set.  From a table that meets its constraints, each of
    the three requests ends in one of two ways.  Either it answers 200 with the
    sorted list of a set: the set that the request asks for, which is what the
    table then holds for that server, every other server keeps its users, and the
    commands that write this list to the server ran without an error.  Or it answers
    an error, the table is unchanged and no command that the request ran succeeded;
    so the table never names users that the server was not told of, and a failure
    of the server never changes the table. *)
Theorem dev_user_requests_refine_sets op r s (Hok : dev_users_ok (a_db s)) :
  follows op r s (go (dev_user_handler op r) s).2.
Proof. destruct op; [by apply follows_add|by apply follows_update|by apply follows_delete]. Qed.
End Handlers.

(** * The users file arrives as it was written

    The commands of server_dev_users.go carry the list of users and the
    provisioning script to the server in here-documents: what a shell reads from
    them is the two files, and the users read back from the file are the list. *)

(** ** Here-documents

    [cat <<'WORD'] reads the lines below, as they are, up to a line that is [WORD]. *)

Fixpoint doc_body (delim : str) (lines : list str) : option (list str) :=
  match lines with
  | [] => None
  | l :: t => if l =s delim then Some [] else body ← doc_body delim t; Some (l :: body)
  end.

Definition opens (delim line : str) : bool := HasSuffix line (lit "<<'" ++ delim ++ lit "'").

(** The first here-document with the delimiter. *)
Fixpoint here_document (delim : str) (lines : list str) : option (list str) :=
  match lines with
  | [] => None
  | l :: t => if opens delim l then doc_body delim t else here_document delim t
  end.

(** The text of a file, given by its lines. *)
Definition file_of (lines : list str) : str := concat (map (fun l => l ++ newline) lines).

Lemma doc_body_app delim body post : delim ∉ body -> doc_body delim (body ++ delim :: post) = Some body.
Proof.
  induction body as [|l t IH]; intros Hd; cbn [app doc_body]; [by rewrite str_eqb_refl|].
  apply not_elem_of_cons in Hd as [Hl Ht]. rewrite (proj2 (str_eqb_neq l delim)) by congruence. by rewrite IH.
Qed.

Lemma here_document_app delim pre opener body post :
  forallb (fun l => negb (opens delim l)) pre = true -> opens delim opener = true -> delim ∉ body ->
  here_document delim (pre ++ opener :: body ++ delim :: post) = Some body.
Proof.
  intros Hp Ho Hd. induction pre as [|l t IH]; cbn [app here_document]; [by rewrite Ho, doc_body_app|].
  cbn [forallb] in Hp. apply andb_true_iff in Hp as [Hl%negb_true_iff Ht]. rewrite Hl. by apply IH.
Qed.

Definition last_quote (w : str) : bool := match last w with Some c => bool_decide (c = "'"%char) | None => true end.

Lemma not_opens delim t w : last_quote w = false -> opens delim (t ++ w) = false.
Proof.
  unfold last_quote. destruct (last w) as [c|] eqn:E; [|done]. intros Hc%bool_decide_eq_false.
  apply last_Some in E as (w' & ->). apply not_true_iff_false. unfold opens. rewrite HasSuffix_true. intros (u & E).
  rewrite !app_assoc in E. by apply app_inj_tail in E as [_ E].
Qed.

(** ** Lines *)

Lemma SplitByte_file lines d : newline_byte ∉ d -> (forall l, l ∈ lines -> newline_byte ∉ l) ->
  SplitByte newline_byte (file_of lines ++ d) = lines ++ [d].
Proof.
  intros Hd. induction lines as [|l t IH]; intros Hl; [by apply SplitByte_single|].
  unfold file_of. cbn [map concat]. fold (file_of t). rewrite <- !app_assoc. cbn [app newline byte].
  rewrite SplitByte_app by (apply Hl; by left). f_equal. apply IH. intros x Hx. apply Hl. by right.
Qed.

Lemma SplitByte_newline p s :
  SplitByte newline_byte (p ++ newline ++ s) = SplitByte newline_byte p ++ SplitByte newline_byte s.
Proof.
  induction p as [|c p IH]; [done|]. cbn [app SplitByte]. case_bool_decide; [by rewrite IH|].
  rewrite IH. destruct (SplitByte newline_byte p) as [|w ws] eqn:E; [by apply SplitByte_nonempty in E|done].
Qed.

Lemma SplitByte_lines (parts : list str) : parts <> [] ->
  SplitByte newline_byte (Join parts newline) = concat (map (SplitByte newline_byte) parts).
Proof.
  induction parts as [|p [|q t] IH]; [done|intros _; cbn [Join map concat]; by rewrite app_nil_r|intros _].
  change (Join (p :: q :: t) newline) with (p ++ newline ++ Join (q :: t) newline).
  by rewrite SplitByte_newline, (IH ltac:(done)).
Qed.

Definition one_line (p : str) : bool := forallb (fun c => negb (bool_decide (c = newline_byte))) p.

Lemma one_line_no p : one_line p = true -> newline_byte ∉ p.
Proof. intros Hp Hin. pose proof (forallb_elem _ _ _ Hp Hin) as Hc. cbn in Hc. by rewrite bool_decide_true in Hc. Qed.

Lemma one_line_app a b : one_line a = true -> one_line b = true -> one_line (a ++ b) = true.
Proof. unfold one_line. rewrite forallb_app. by intros -> ->. Qed.

Lemma SplitByte_line p : one_line p = true -> SplitByte newline_byte p = [p].
Proof. intros Hp. by apply SplitByte_single, one_line_no. Qed.

Lemma SplitByte_document lines d : forallb one_line lines = true -> one_line d = true ->
  SplitByte newline_byte (file_of lines ++ d) = lines ++ [d].
Proof.
  intros Hl Hd. apply SplitByte_file; [by apply one_line_no|]. intros l Hin. apply one_line_no. by apply (forallb_elem _ _ _ Hl).
Qed.

(** ** The users *)

Definition username (u : str) : Prop := MatchString username_pattern u = true.

Lemma name_not_space c : name_byte (b2n c) = true -> is_space (b2n c) = false.
Proof. destruct c as [[] [] [] [] [] [] [] []]; vm_compute; congruence. Qed.

Lemma username_trimmed u : username u -> TrimSpace u = u.
Proof.
  intros [Hne Hu]%username_bytes. destruct u as [|c t] using rev_ind; [done|]. clear IHt.
  destruct (t ++ [c]) as [|d w] eqn:E; [done|]. assert (Hd : d ∈ t ++ [c]) by (rewrite E; by left).
  assert (Hc : c ∈ t ++ [c]) by (apply elem_of_app; right; by left). rewrite <- E in Hu.
  apply (TrimFunc_ascii_fixed is_space d w c t); [|by apply name_not_space, (forallb_elem _ _ _ Hu)|done|
    by apply name_not_space, (forallb_elem _ _ _ Hu)].
  rewrite <- E. apply forallb_forall. intros x Hx. apply N.ltb_lt, name_byte_ascii. by apply (forallb_elem _ _ _ Hu), list_elem_of_In.
Qed.

Lemma username_length u : username u -> (length u <= 32)%nat.
Proof.
  intros Hm. pose proof (username_bytes u Hm) as [_ Hu]. unfold username, username_pattern in Hm. rewrite MatchString_head_rep in Hm.
  assert (Ha : is_ascii u = true).
  { apply forallb_forall. intros x Hx. apply N.ltb_lt, name_byte_ascii. by apply (forallb_elem _ _ _ Hu), list_elem_of_In. }
  rewrite (runes_ascii u Ha) in Hm. destruct u as [|c t]; [done|]. cbn [map] in Hm.
  apply andb_true_iff in Hm as [_ [_ Hw]%andb_true_iff]. unfold within in Hw. cbn in Hw.
  rewrite length_map in Hw. apply Nat.leb_le in Hw. cbn [length]. lia.
Qed.

Section File.
Context `{UnicodeTables}.

Lemma normalize_username u : username u -> normalizeDevUsername u = inl u.
Proof.
  intros Hu. unfold normalizeDevUsername. rewrite (username_trimmed u Hu). cbv zeta.
  rewrite (proj2 (str_eqb_neq u [])) by by apply username_bytes.
  rewrite (proj2 (Nat.ltb_ge devUsersMaxUsernameLength (length u)) (username_length u Hu)). change linuxUsernamePattern with username_pattern.
  by rewrite (Hu : MatchString username_pattern u = true).
Qed.

Lemma normalized_users_spec users next : users_list next -> Forall username users ->
  users_list (normalized_users users next) /\ forall x, x ∈ normalized_users users next <-> x ∈ next \/ x ∈ users.
Proof.
  revert next. induction users as [|u t IH]; intros next Hn Hu; cbn [normalized_users].
  - split; [done|]. intros x. split; [by left|]. by intros [Hx|Hx%not_elem_of_nil].
  - apply Forall_cons in Hu as [Hu Ht]. rewrite (normalize_username u Hu).
    destruct (IH (addDevUser next u)) as [Hl He]; [by apply addDevUser_users|done|]. split; [exact Hl|].
    intros x. rewrite He, addDevUser_elem, elem_of_cons. tauto.
Qed.

Definition header_lines : list str :=
  [lit "# One Linux username per line."; lit "# Deploy Manager provisions these users with sudo, docker, deployers,";
   lit "# and passwordless sudo access on this server."].

Lemma renderDevUsersFile_lines users : users_list users -> Forall username users ->
  renderDevUsersFile users = file_of (header_lines ++ users).
Proof.
  intros Hl Hu. unfold renderDevUsersFile. destruct (normalized_users_spec users []) as [Hn He]; [by split; constructor|done|].
  assert (E : normalized_users users [] = users).
  { apply users_list_unique; [done|done|]. intros x. rewrite He. split; [|by right]. by intros [Hx%not_elem_of_nil|Hx]. }
  rewrite E. unfold file_of. rewrite map_app, concat_app. done.
Qed.

Lemma users_file_lines users : Forall username users -> forallb one_line (header_lines ++ users) = true.
Proof.
  intros Hu. rewrite forallb_app. apply andb_true_iff. split; [by vm_compute|]. apply forallb_forall. intros u Hin.
  rewrite List.Forall_forall in Hu. apply forallb_forall. intros c Hc. apply negb_true_iff, bool_decide_eq_false. intros ->.
  by apply (username_no u newline_byte (Hu u Hin)), list_elem_of_In.
Qed.

Lemma parse_lines_users users seen : Forall username users -> NoDup users -> (forall u, u ∈ users -> u ∉ seen) ->
  parse_lines (users ++ [[]]) seen = inl users.
Proof.
  revert seen. induction users as [|u t IH]; intros seen Hu Hn Hs; [done|].
  apply Forall_cons in Hu as [Hu Ht]. apply NoDup_cons in Hn as [Hnu Hnt]. cbn [app parse_lines].
  assert (Hh : hash ∉ u) by by apply username_no.
  assert (Ec : CutByte hash u = (u, None)).
  { clear - Hh. induction u as [|c u IH]; [done|]. apply not_elem_of_cons in Hh as [Hc Hh]. cbn [CutByte].
    rewrite bool_decide_false by congruence. by rewrite IH. }
  rewrite Ec. cbn [fst]. rewrite (username_trimmed u Hu). cbv zeta.
  rewrite (proj2 (str_eqb_neq u [])) by by apply username_bytes. rewrite (normalize_username u Hu).
  rewrite bool_decide_false by (apply Hs; by left). rewrite IH; [done|done|done|].
  intros x Hx. rewrite not_elem_of_union, not_elem_of_singleton. split; [by intros ->|]. apply Hs. by right.
Qed.

Lemma parse_file users : users_list users -> Forall username users ->
  parseDevUsersFile (file_of (header_lines ++ users)) = inl users.
Proof.
  intros [Hn Hs] Hu. unfold parseDevUsersFile.
  rewrite <- (app_nil_r (file_of _)), SplitByte_document; [|by apply users_file_lines|done].
  rewrite <- app_assoc. change (parse_lines (header_lines ++ ?l) ∅) with (parse_lines l ∅).
  rewrite parse_lines_users; [|done|done|by intros u _; apply not_elem_of_empty].
  cbn [rbind]. f_equal. apply (Sorted_unique str_le); [apply sort_Strings_sorted|done|]. apply sort_Strings_perm.
Qed.

(** ** The scripts *)

Definition script_lines : list str := removelast (SplitByte newline_byte devUsersProvisionScript).

Lemma script_file : devUsersProvisionScript = file_of script_lines.
Proof. vm_compute. reflexivity. Qed.

Lemma ShellQuote_line v : newline_byte ∉ v -> one_line (ShellQuote v) = true.
Proof.
  intros Hv. unfold ShellQuote. apply one_line_app; [done|]. apply one_line_app; [|done].
  unfold squote, byte. rewrite replace_byte. induction v as [|c v IH]; [done|]. apply not_elem_of_cons in Hv as [Hc Hv].
  cbn [flat_map]. apply one_line_app; [|by apply IH]. case_bool_decide; [by vm_compute|].
  unfold one_line. cbn [forallb]. rewrite (bool_decide_false (c = newline_byte)) by congruence. done.
Qed.

Definition users_word : str := lit "PROSIGHTS_USERS".
Definition script_word : str := lit "PROSIGHTS_SCRIPT".
Definition host_word : str := lit "PROSIGHTS_HOST_APPLY".

(** A script writes the file of the users and the provisioning script. *)
Definition carries (script : str) (users : list str) : Prop :=
  let lines := SplitByte newline_byte script in
  exists users_body script_body,
    here_document users_word lines = Some users_body /\ file_of users_body = renderDevUsersFile users
    /\ parseDevUsersFile (file_of users_body) = inl users
    /\ here_document script_word lines = Some script_body /\ file_of script_body = devUsersProvisionScript.

Definition quiet (delim : str) (lines : list str) : bool := forallb (fun l => negb (opens delim l)) lines.

Lemma quiet_app delim a b : quiet delim (a ++ b) = quiet delim a && quiet delim b.
Proof. apply forallb_app. Qed.

Lemma username_quiet delim u : username u -> opens delim u = false.
Proof.
  intros Hu. pose proof (username_bytes u Hu) as [Hne Hb]. apply (not_opens delim []). unfold last_quote.
  destruct u as [|c t] using rev_ind; [done|]. rewrite last_snoc. apply bool_decide_eq_false. intros ->.
  apply (username_no _ "'"%char Hu); [done|]. apply elem_of_app. right. by left.
Qed.

Lemma users_quiet delim users : Forall username users -> quiet delim header_lines = true -> quiet delim (header_lines ++ users) = true.
Proof.
  intros Hu Hh. rewrite quiet_app, Hh. apply forallb_forall. intros u Hin. rewrite List.Forall_forall in Hu.
  by rewrite (username_quiet delim u (Hu u Hin)).
Qed.

Lemma word_not_user users : Forall username users -> users_word ∉ header_lines ++ users.
Proof.
  intros Hu [Hin|Hin]%elem_of_app; [apply list_elem_of_In in Hin; cbn in Hin; intuition discriminate|].
  rewrite Forall_forall in Hu. apply (username_no _ "P"%char (Hu _ Hin)); [done|]. by left.
Qed.

(** Where the two documents stand in a script. *)
Lemma two_documents script users pre o1 mid o2 post : users_list users -> Forall username users ->
  SplitByte newline_byte script
  = pre ++ o1 :: (header_lines ++ users) ++ users_word :: mid ++ o2 :: script_lines ++ script_word :: post ->
  quiet users_word pre = true -> opens users_word o1 = true -> quiet script_word (pre ++ [o1]) = true ->
  quiet script_word mid = true -> opens script_word o2 = true -> carries script users.
Proof.
  intros Hl Hu Hs Hp Ho1 Hp2 Hm Ho2. exists (header_lines ++ users), script_lines. rewrite Hs.
  rewrite (renderDevUsersFile_lines users Hl Hu). split; [|split; [done|split; [by apply parse_file|split; [|by rewrite <- script_file]]]].
  - apply here_document_app; [done|done|by apply word_not_user].
  - assert (E : forall a b c : list str, pre ++ o1 :: (header_lines ++ users) ++ users_word :: mid ++ c
      = ((pre ++ [o1]) ++ (header_lines ++ users) ++ [users_word] ++ mid) ++ c) by (intros; by rewrite <- !app_assoc).
    rewrite (E [] []). apply here_document_app; [|done|].
    + change (quiet script_word ((pre ++ [o1]) ++ (header_lines ++ users) ++ [users_word] ++ mid) = true).
      rewrite quiet_app, Hp2, quiet_app, (users_quiet _ _ Hu), quiet_app, Hm by done. done.
    + intros Hin. assert (Hf : existsb (fun l => l =s script_word) script_lines = true) by by apply existsb_str.
      revert Hf. vm_compute. discriminate.
Qed.

Lemma script_lines_one : forallb one_line script_lines = true.
Proof. vm_compute. reflexivity. Qed.

Lemma users_document users : users_list users -> Forall username users ->
  SplitByte newline_byte (renderDevUsersFile users ++ users_word) = (header_lines ++ users) ++ [users_word].
Proof. intros Hl Hu. rewrite renderDevUsersFile_lines by done. apply SplitByte_document; [by apply users_file_lines|done]. Qed.

Lemma script_document :
  SplitByte newline_byte (devUsersProvisionScript ++ script_word) = script_lines ++ [script_word].
Proof. rewrite script_file. by apply SplitByte_document; [apply script_lines_one|]. Qed.

Ltac one_line_text :=
  lazymatch goal with
  | |- one_line (ShellQuote (Server.SshUser _)) = true => by apply ShellQuote_line
  | |- one_line (_ ++ _) = true => apply one_line_app; one_line_text
  | |- _ => by vm_compute
  end.
Ltac single_lines :=
  repeat match goal with
  | |- context [SplitByte newline_byte ?p] => rewrite (SplitByte_line p) by one_line_text
  end.

(** The lines of a script with the two documents. *)
Ltac script_documents Hl Hu :=
  rewrite SplitByte_lines by done; cbn [map];
  change (lit "PROSIGHTS_USERS") with users_word; change (lit "PROSIGHTS_SCRIPT") with script_word;
  rewrite (users_document _ Hl Hu), script_document; single_lines;
  cbn [concat app]; rewrite <- !app_assoc; reflexivity.
(** No line of a list opens the document. *)
Ltac quiet_lines :=
  unfold quiet; cbn [app forallb];
  repeat lazymatch goal with
  | |- context [opens ?d (?a ++ ?b ++ ?c)] => rewrite (app_assoc a b c)
  end;
  rewrite ?not_opens by (by vm_compute);
  by vm_compute.

Lemma apply_script_carries server users : users_list users -> Forall username users -> newline_byte ∉ Server.SshUser server ->
  carries (devUsersApplyScript server users) users.
Proof.
  intros Hl Hu Ho.
  refine (two_documents _ users
    [lit "set -euo pipefail"; lit "sudo groupadd --system deployers 2>/dev/null || true";
     lit "sudo install -d -o " ++ ShellQuote (Server.SshUser server) ++ lit " -g deployers -m 2775 /srv/deploy-manager/ops";
     lit "tmp_users=$(mktemp)"; lit "tmp_script=$(mktemp)"]
    (at_quotes (lit "cat > @$tmp_users@ <<'PROSIGHTS_USERS'")) []
    (at_quotes (lit "cat > @$tmp_script@ <<'PROSIGHTS_SCRIPT'")) _ Hl Hu _ _ _ _ _ _).
  - unfold devUsersApplyScript. script_documents Hl Hu.
  - quiet_lines.
  - by vm_compute.
  - quiet_lines.
  - done.
  - by vm_compute.
Qed.

Lemma host_script_carries server users : users_list users -> Forall username users -> newline_byte ∉ Server.SshUser server ->
  carries (hostScript server users) users.
Proof.
  intros Hl Hu Ho.
  refine (two_documents _ users
    [lit "set -eu"; lit "install -d -m 0755 /host/srv/deploy-manager/ops"]
    (lit "cat > /host" ++ devUsersFilePath ++ lit " <<'PROSIGHTS_USERS'") []
    (lit "cat > /host" ++ devUsersProvisionPath ++ lit " <<'PROSIGHTS_SCRIPT'") _ Hl Hu _ _ _ _ _ _).
  - unfold hostScript. script_documents Hl Hu.
  - by vm_compute.
  - by vm_compute.
  - by vm_compute.
  - done.
  - by vm_compute.
Qed.

(** The lines of the script for the host, before and after the users. *)
Lemma host_script_lines server users : users_list users -> Forall username users -> newline_byte ∉ Server.SshUser server ->
  exists a b, SplitByte newline_byte (hostScript server users) = a ++ users ++ b
    /\ forallb (fun l => negb (l =s host_word)) (a ++ b) = true.
Proof.
  intros Hl Hu Ho.
  exists ([lit "set -eu"; lit "install -d -m 0755 /host/srv/deploy-manager/ops";
     lit "cat > /host" ++ devUsersFilePath ++ lit " <<'PROSIGHTS_USERS'"] ++ header_lines).
  eexists. split; [unfold hostScript; script_documents Hl Hu|]. vm_compute. reflexivity.
Qed.

Lemma host_word_absent server users : users_list users -> Forall username users -> newline_byte ∉ Server.SshUser server ->
  host_word ∉ SplitByte newline_byte (hostScript server users).
Proof.
  intros Hl Hu Ho. destruct (host_script_lines server users Hl Hu Ho) as (a & b & -> & Hab).
  assert (Hw : host_word ∉ a ++ b).
  { intros Hw. pose proof (forallb_elem _ _ _ Hab Hw) as Hf. cbn beta in Hf. by rewrite str_eqb_refl in Hf. }
  rewrite !elem_of_app in *. intros [Hin|[Hin|Hin]]; [tauto| |tauto].
  rewrite Forall_forall in Hu. apply (username_no _ "P"%char (Hu _ Hin)); [done|]. by left.
Qed.

Lemma document_of delim opener text : one_line opener = true -> opens delim opener = true -> one_line delim = true ->
  delim ∉ SplitByte newline_byte text ->
  here_document delim (SplitByte newline_byte (Join [opener; text; delim] newline)) = Some (SplitByte newline_byte text).
Proof.
  intros Hone Hopen Hd Hn. rewrite SplitByte_lines by done. cbn [map concat].
  rewrite (SplitByte_line opener Hone), (SplitByte_line delim Hd), app_nil_r.
  by apply (here_document_app delim [] opener _ []).
Qed.

Lemma remote_reads server users :
  sh_reads (remoteDevUsersApplyCommand server users) [W (lit "bash"); W (lit "-lc"); W (devUsersApplyScript server users)].
Proof.
  unfold remoteDevUsersApplyCommand. generalize (devUsersApplyScript server users) as script. intros script.
  rewrite <- (app_nil_r (ShellQuote _)).
  apply (reads_plain (lit "bash")); [done|by vm_compute|done|]. apply reads_blanks.
  apply (reads_plain (lit "-lc")); [done|by vm_compute|done|]. apply reads_blanks.
  by apply reads_quoted; [|apply reads_nil].
Qed.

Lemma local_document server users : users_list users -> Forall username users -> newline_byte ∉ Server.SshUser server ->
  exists body, here_document host_word (SplitByte newline_byte (localHostDevUsersApplyCommand server users)) = Some body
    /\ Join body newline = hostScript server users.
Proof.
  intros Hl Hu Ho. pose proof (host_word_absent server users Hl Hu Ho) as Hn. unfold localHostDevUsersApplyCommand.
  set (text := hostScript server users) in *. clearbody text. exists (SplitByte newline_byte text).
  split; [|apply Join_SplitByte]. apply document_of; [by vm_compute|by vm_compute|by vm_compute|exact Hn].
Qed.

(** C15: the users file and the provisioning script arrive on the server as they
    were written.  For every list that the handlers keep (sorted, without
    duplicates, of valid names) and every SSH user without a line break: the command
    for a remote server is read by a shell as [bash -lc SCRIPT] with the script as
    its one argument, and the command for the local host hands its script over as it
    is in a here-document; in both scripts the first here-document of the users is
    exactly the file that renderDevUsersFile writes, which parseDevUsersFile reads
    back as that list, and the second is exactly the provisioning script.  No name
    can end a document early. *)
Theorem users_file_reaches_server server users (Hl : users_list users) (Hu : Forall username users)
    (Ho : newline_byte ∉ Server.SshUser server) :
  sh_reads (remoteDevUsersApplyCommand server users) [W (lit "bash"); W (lit "-lc"); W (devUsersApplyScript server users)]
  /\ carries (devUsersApplyScript server users) users
  /\ (exists body, here_document host_word (SplitByte newline_byte (localHostDevUsersApplyCommand server users)) = Some body
        /\ Join body newline = hostScript server users)
  /\ carries (hostScript server users) users.
Proof.
  split; [apply remote_reads|]. split; [by apply apply_script_carries|]. split; [by apply local_document|by apply host_script_carries].
Qed.
End File.
