(* ===== verification/HttpCredentialsStore.v ===== *)
(** * The inventory is stored as a whole and stays well-formed

    The tables of credentials, permissions and usages: the constraints of every row, the
    references between them and the unique keys hold in every state that the handlers
    reach, inside a transaction or not; and a batch of items is stored completely or not
    at all. *)

From S2P Require Import Prelude GoStrings GoRegexp GoJson GoNet StringUtil AuditLog Db.
From S2P Require Import DbHttp DbApplications DbServers DbInventory DbProjects Lifecycle RemoteSteps ProxyCommands.
From S2P Require Import Effects Runner Queue RunnerFacts Engine QueueFacts GoHttp HttpCore.
From S2P Require Import HttpGuard HttpDeployments HttpBuilds HttpGithub HttpEngine HttpBuildsFacts GithubConnector Connectors.
From S2P Require Import HttpVariables HttpServers HttpCredentials HttpCredentialsFacts HttpVariablesStore.

(** ** INSERT ... ON CONFLICT *)

Section Upsert.
Context {R K : Type} (key : R -> K) (conflict : R -> bool) (set : R -> R) (fresh : R).
Context (Hconflict : forall r, conflict r = true <-> key r = key fresh) (Hset : forall r, conflict r = true -> key (set r) = key r).

Lemma upsert_NoDup t : NoDup (map key t) -> NoDup (map key (sql_upsert conflict set fresh t).1).
Proof.
  intros Hn. unfold sql_upsert. destruct (List.filter conflict t) as [|r l] eqn:Ef; cbn [fst].
  - rewrite map_app. apply NoDup_app. split; [exact Hn|]. split; [|by repeat constructor; apply not_elem_of_nil].
    intros k Hk ->%list_elem_of_singleton. apply list_elem_of_fmap in Hk as (r & Hk & Hr).
    assert (In r []); [|done]. rewrite <- Ef. apply filter_In. split; [by apply list_elem_of_In|by apply Hconflict].
  - rewrite map_map. rewrite (map_ext _ key); [done|]. intros x. destruct (conflict x) eqn:E; [by apply Hset|done].
Qed.

Lemma upsert_elem t r : r ∈ (sql_upsert conflict set fresh t).1 ->
  r ∈ t \/ r = fresh \/ exists r0, r0 ∈ t /\ conflict r0 = true /\ r = set r0.
Proof.
  unfold sql_upsert. destruct (List.filter conflict t) as [|r1 l]; cbn [fst].
  - intros [Hr| ->%list_elem_of_singleton]%elem_of_app; auto.
  - intros (x & -> & Hx)%list_elem_of_fmap. cbv beta. destruct (conflict x) eqn:E; [|by left]. right; right. by exists x.
Qed.

(** The row that is returned is in the table. *)
Lemma upsert_row t : (sql_upsert conflict set fresh t).2 ∈ (sql_upsert conflict set fresh t).1
  /\ key (sql_upsert conflict set fresh t).2 = key fresh.
Proof.
  unfold sql_upsert. destruct (List.filter conflict t) as [|r l] eqn:Ef; cbn [fst snd].
  - split; [apply elem_of_app; right; by left|done].
  - assert (Hr : In r (List.filter conflict t)) by (rewrite Ef; by left). apply filter_In in Hr as [Hin Hc]. split.
    + apply list_elem_of_fmap. exists r. rewrite Hc. split; [done|by apply list_elem_of_In].
    + rewrite Hset by done. by apply Hconflict.
Qed.
End Upsert.

Section Inventory.
Context `{UnicodeTables} `{UuidLib} `{UuidSource}.

(** ** The invariant *)

Definition reference_of (c : Credential.t) : str * str := (Credential.Provider c, Credential.ExternalRef c).
Definition permission_row_key (p : PermissionRow.t) :=
  (PermissionRow.CredentialID p, PermissionRow.ResourceType p, PermissionRow.ResourceName p, PermissionRow.Permission p).
Definition usage_row_key (u : UsageRow.t) :=
  (UsageRow.CredentialID u, UsageRow.UsedByType u, UsageRow.UsedByName u, UsageRow.UsageContext u).

Definition issued_id (supply : nat) (id : pgUUID_t) : Prop := exists k, (k < supply)%nat /\ id = PgUUID (gen_uuid k) true.
Definition of_credential (db : database) (id : pgUUID_t) : Prop := exists c, c ∈ credentials (inventory db) /\ Credential.ID c = id.

Record inventory_ok (db : database) : Prop := {
  credentials_ok : Forall (fun c => credential_check c = true /\ issued_id (uuid_supply db) (Credential.ID c)) (credentials (inventory db));
  references_unique : NoDup (map reference_of (credentials (inventory db)));
  identifiers_unique : NoDup (map Credential.ID (credentials (inventory db)));
  permissions_ok : Forall (fun p => permission_check p = true /\ of_credential db (PermissionRow.CredentialID p)) (permissions (inventory db));
  permissions_unique : NoDup (map permission_row_key (permissions (inventory db)));
  usages_ok : Forall (fun u => usage_check u = true /\ of_credential db (UsageRow.CredentialID u)) (usages (inventory db));
  usages_unique : NoDup (map usage_row_key (usages (inventory db))) }.

Definition inventory_rows (db : database) := (credentials (inventory db), permissions (inventory db), usages (inventory db)).

Lemma same_rows_ok db db' : inventory_rows db' = inventory_rows db -> (uuid_supply db <= uuid_supply db')%nat ->
  inventory_ok db -> inventory_ok db'.
Proof.
  unfold inventory_rows. intros [= Ec Ep Eu] Hle [K1 K2 K3 K4 K5 K6 K7].
  constructor; unfold of_credential; rewrite ?Ec, ?Ep, ?Eu; [|done..].
  eapply Forall_impl; [exact K1|]. intros c (Hc & k & Hk & Hid). split; [done|]. exists k. split; [lia|done].
Qed.

(** A statement keeps the invariant and takes identifiers only. *)
Definition inventory_kept {A} (q : query A) : Prop :=
  forall db a db', q db = inl (a, db') -> inventory_ok db -> inventory_ok db' /\ (uuid_supply db <= uuid_supply db')%nat.

Lemma kept_aside {A} (q : query A) : keeps inventory_rows q -> inventory_kept q.
Proof. intros Hq db a db' He Hok. destruct (Hq _ _ _ He) as [E L]. split; [exact (same_rows_ok _ _ E L Hok)|exact L]. Qed.

Lemma kept_then {A B} (q : query A) (k : A -> query B) : inventory_kept q -> (forall a, inventory_kept (k a)) ->
  inventory_kept (fun db => let? (a, db') := q db in k a db').
Proof.
  intros Hq Hk db b db' He Hok. apply rbind_ok in He as ([a db1] & Ha & He). destruct (Hq _ _ _ Ha Hok) as [Hok1 L1].
  destruct (Hk _ _ _ _ He Hok1) as [Hok2 L2]. split; [done|lia].
Qed.

Lemma issued_more n m id : (n <= m)%nat -> issued_id n id -> issued_id m id.
Proof. intros Hle (k & Hk & E). exists k. split; [lia|done]. Qed.

Lemma issued_fresh db : issued_id (uuid_supply (issue_uuid db)) (new_uuid db).
Proof. exists (uuid_supply db). split; [cbn; lia|done]. Qed.

Lemma kept_UpsertCredential arg : inventory_kept (UpsertCredential arg).
Proof.
  intros db c db' Hq [K1 K2 K3 K4 K5 K6 K7]. destruct arg as [name provider ref type status]. unfold UpsertCredential in Hq.
  destruct (negb (forallb _ _)); [done|]. set (fresh := Credential.mk _ _ _ _ _ _ _ _ _) in *.
  destruct (negb (credential_check fresh)) eqn:Ecx; [done|]. apply negb_false_iff in Ecx.
  destruct (sql_upsert _ _ _ _) as [t r] eqn:Et. injection Hq as <- <-.
  assert (Hc : forall r, same_reference provider ref r = true <-> reference_of r = reference_of fresh).
  { intros x. unfold same_reference, reference_of. rewrite andb_true_iff, !str_eqb_eq. cbn. split; [by intros [-> ->]|by intros [= -> ->]]. }
  pose proof (upsert_NoDup reference_of _ (seen_credential fresh) fresh Hc (fun _ _ => eq_refl) _ K2) as Hn. rewrite Et in Hn.
  pose proof (fun x => upsert_elem (same_reference provider ref) (seen_credential fresh) fresh (credentials (inventory db)) x) as Hel.
  rewrite Et in Hel. cbn [fst] in Hn, Hel. rewrite Forall_forall in K1.
  assert (Hold : forall id, of_credential db id -> of_credential (issue_uuid (with_credentials db t)) id).
  { intros id (x & Hx & <-). unfold of_credential. cbn. unfold sql_upsert in Et. destruct (List.filter _ _) as [|y l]; injection Et as <- _.
    - exists x. split; [apply elem_of_app; by left|done].
    - eexists. split; [apply list_elem_of_fmap; by exists x|]. cbv beta. by destruct (same_reference _ _ x). }
  split; [|cbn; lia]. constructor; cbn; try done.
  - apply Forall_forall. intros x Hx. destruct (Hel x Hx) as [Hx'|[->|(y & Hy & Hcy & ->)]].
    + destruct (K1 x Hx') as [Hck Hid]. split; [exact Hck|]. by eapply issued_more; [|exact Hid]; cbn; lia.
    + split; [exact Ecx|apply (issued_fresh db)].
    + destruct (K1 y Hy) as [_ Hid]. split; [|by eapply issued_more; [|exact Hid]; cbn; lia].
      apply Hc in Hcy. unfold reference_of in Hcy. cbn in Hcy. injection Hcy as Hp Hr. unfold credential_check in *. cbn. cbn in Ecx.
      by rewrite Hp, Hr.
  - unfold sql_upsert in Et. destruct (List.filter _ _) as [|y l]; injection Et as <- _.
    + rewrite map_app. apply NoDup_app. split; [exact K3|]. split; [|by repeat constructor; apply not_elem_of_nil].
      intros id (x & -> & Hx)%list_elem_of_fmap Hid%list_elem_of_singleton. destruct (K1 x Hx) as [_ (k & Hk & Eid)].
      rewrite Eid in Hid. injection Hid as Hid. apply gen_uuid_inj in Hid. lia.
    + rewrite map_map. rewrite (map_ext _ Credential.ID); [done|]. intros x. by destruct (same_reference _ _ x).
  - eapply Forall_impl; [exact K4|]. intros p [Hp Hid]. split; [done|by apply Hold].
  - eapply Forall_impl; [exact K6|]. intros p [Hp Hid]. split; [done|by apply Hold].
Qed.

Lemma reference_found id l : uuid_valid id = true -> reference_ok Credential.ID id l = true -> exists c, c ∈ l /\ Credential.ID c = id.
Proof.
  unfold reference_ok. intros Hv [Hn|Hex]%orb_true_iff; [by rewrite Hv in Hn|].
  apply existsb_exists in Hex as (c & Hc & Hid). apply uuid_eqb_true in Hid as [Hid _]. exists c.
  split; [by apply list_elem_of_In|done].
Qed.

Lemma permission_conflict credential type name permission source id created p : uuid_valid credential = true ->
  permission_is credential type name permission p = true
  <-> permission_row_key p = permission_row_key (PermissionRow.mk id credential type name permission source created).
Proof.
  intros Hv. unfold permission_is, permission_of, permission_row_key. cbn. rewrite !andb_true_iff, !str_eqb_eq. split.
  - intros (((Hid & ->) & ->) & ->). by apply uuid_eqb_true in Hid as [-> _].
  - intros [= E -> -> ->]. split; [|done]. split; [|done]. split; [|done]. apply uuid_eqb_true. by rewrite E.
Qed.

Lemma usage_conflict credential type name context id created u : uuid_valid credential = true ->
  usage_is credential type name context u = true
  <-> usage_row_key u = usage_row_key (UsageRow.mk id credential type name context created).
Proof.
  intros Hv. unfold usage_is, usage_of_row, usage_row_key. cbn. rewrite !andb_true_iff, !str_eqb_eq. split.
  - intros (((Hid & ->) & ->) & ->). by apply uuid_eqb_true in Hid as [-> _].
  - intros [= E -> -> ->]. split; [|done]. split; [|done]. split; [|done]. apply uuid_eqb_true. by rewrite E.
Qed.

Lemma kept_UpsertCredentialPermission arg : inventory_kept (UpsertCredentialPermission arg).
Proof.
  intros db p db' Hq [K1 K2 K3 K4 K5 K6 K7]. destruct arg as [credential type name permission source].
  unfold UpsertCredentialPermission in Hq. destruct (negb (forallb _ _)); [done|]. destruct (negb (uuid_valid _)) eqn:Ev; [done|].
  apply negb_false_iff in Ev. set (fresh := PermissionRow.mk _ _ _ _ _ _ _) in *.
  destruct (negb (permission_check fresh)) eqn:Ecx; [done|]. apply negb_false_iff in Ecx.
  destruct (negb (reference_ok _ _ _)) eqn:Er; [done|]. apply negb_false_iff, (reference_found _ _ Ev) in Er.
  destruct (sql_upsert _ _ _ _) as [t r] eqn:Et. injection Hq as <- <-.
  pose proof (fun p => permission_conflict credential type name permission source (new_uuid db) (Some (clock db)) p Ev) as Hc.
  pose proof (upsert_NoDup permission_row_key _ (with_source source) fresh Hc (fun _ _ => eq_refl) _ K5) as Hn. rewrite Et in Hn.
  pose proof (fun x => upsert_elem (permission_is credential type name permission) (with_source source) fresh (permissions (inventory db)) x) as Hel.
  rewrite Et in Hel. cbn [fst] in Hn, Hel. rewrite Forall_forall in K4.
  split; [|cbn; lia]. constructor; cbn; try done.
  - eapply Forall_impl; [exact K1|]. intros c [Hck Hid]. split; [done|]. by eapply issued_more; [|exact Hid]; cbn; lia.
  - apply Forall_forall. intros x Hx. destruct (Hel x Hx) as [Hx'|[->|(y & Hy & Hcy & ->)]]; [exact (K4 x Hx')|by split|].
    destruct (K4 y Hy) as [Hck Hid]. split; [|exact Hid]. unfold permission_check in *. cbn. cbn in Ecx.
    rewrite !andb_true_iff in *. tauto.
Qed.

Lemma kept_UpsertCredentialUsage arg : inventory_kept (UpsertCredentialUsage arg).
Proof.
  intros db p db' Hq [K1 K2 K3 K4 K5 K6 K7]. destruct arg as [credential type name context].
  unfold UpsertCredentialUsage in Hq. destruct (negb (forallb _ _)); [done|]. destruct (negb (uuid_valid _)) eqn:Ev; [done|].
  apply negb_false_iff in Ev. set (fresh := UsageRow.mk _ _ _ _ _ _) in *.
  destruct (negb (usage_check fresh)) eqn:Ecx; [done|]. apply negb_false_iff in Ecx.
  destruct (negb (reference_ok _ _ _)) eqn:Er; [done|]. apply negb_false_iff, (reference_found _ _ Ev) in Er.
  destruct (sql_upsert _ _ _ _) as [t r] eqn:Et. injection Hq as <- <-.
  pose proof (fun p => usage_conflict credential type name context (new_uuid db) (Some (clock db)) p Ev) as Hc.
  pose proof (upsert_NoDup usage_row_key _ (fun u => u) fresh Hc (fun _ _ => eq_refl) _ K7) as Hn. rewrite Et in Hn.
  pose proof (fun x => upsert_elem (usage_is credential type name context) (fun u => u) fresh (usages (inventory db)) x) as Hel.
  rewrite Et in Hel. cbn [fst] in Hn, Hel. rewrite Forall_forall in K6.
  split; [|cbn; lia]. constructor; cbn; try done.
  - eapply Forall_impl; [exact K1|]. intros c [Hck Hid]. split; [done|]. by eapply issued_more; [|exact Hid]; cbn; lia.
  - apply Forall_forall. intros x Hx. destruct (Hel x Hx) as [Hx'|[->|(y & Hy & Hcy & ->)]]; [exact (K6 x Hx')|by split|exact (K6 y Hy)].
Qed.

Lemma NoDup_filter_map {R K} (key : R -> K) p l : NoDup (map key l) -> NoDup (map key (List.filter p l)).
Proof.
  intros Hn. eapply sublist_NoDup; [exact Hn|]. clear Hn. induction l as [|x t IH]; [constructor|]. cbn [List.filter map].
  destruct (p x); cbn [map]; by constructor.
Qed.

Lemma Forall_filter_list {R} (P : R -> Prop) p l : Forall P l -> Forall P (List.filter p l).
Proof. rewrite !Forall_forall. intros Hl x Hx. apply list_elem_of_In, filter_In in Hx as [Hx _]. by apply Hl, list_elem_of_In. Qed.

Lemma kept_DeleteCredentialPermissions id : inventory_kept (DeleteCredentialPermissions id).
Proof.
  intros db u db' [= _ <-] [K1 K2 K3 K4 K5 K6 K7]. split; [|cbn; lia].
  constructor; cbn; try done; [by apply Forall_filter_list|by apply NoDup_filter_map].
Qed.
Lemma kept_DeleteCredentialUsages id : inventory_kept (DeleteCredentialUsages id).
Proof.
  intros db u db' [= _ <-] [K1 K2 K3 K4 K5 K6 K7]. split; [|cbn; lia].
  constructor; cbn; try done; [by apply Forall_filter_list|by apply NoDup_filter_map].
Qed.

(** ** Statements on other tables *)

Lemma keeps_users server l db : inventory_rows (insert_users server l db) = inventory_rows db
  /\ (uuid_supply db <= uuid_supply (insert_users server l db))%nat.
Proof.
  revert db. induction l as [|u l IH]; intros db; cbn [insert_users]; [split; [done|lia]|].
  destruct (sql_upsert _ _ _ _) as [t r].
  destruct (IH (with_uuid_supply (with_dev_users db t) (S (uuid_supply db)))) as [E L]. cbn in L. split; [exact E|lia].
Qed.
Lemma rows_ReplaceServerDevSudoUsers server l : keeps inventory_rows (ReplaceServerDevSudoUsers server l).
Proof.
  unfold ReplaceServerDevSudoUsers. destruct l as [|u l]; [keeps_tac|]. generalize (u :: l) as us. intros us.
  intros db a db' Hq. cbv zeta in Hq. do 5 (destruct (negb _); [done|]). injection Hq as _ <-.
  exact (keeps_users server us (with_dev_users db _)).
Qed.

Lemma rows_CreateServer arg : keeps inventory_rows (CreateServer arg).
Proof. unfold CreateServer. keeps_tac. Qed.
Lemma kept_inl {A} (a : A) : inventory_kept (fun db => inl (a, db)).
Proof. apply kept_aside. intros db a' db' [= _ <-]. split; [done|lia]. Qed.
Lemma kept_CreateServerWithSSHInventory arg : inventory_kept (CreateServerWithSSHInventory arg).
Proof.
  unfold CreateServerWithSSHInventory. refine (kept_then _ (fun server db => _) (kept_aside _ (rows_CreateServer _)) _). intros server.
  destruct (negb _); [apply kept_inl|]. refine (kept_then _ (fun credential db => _) (kept_UpsertCredential _) _).
  intros credential. refine (kept_then _ (fun _ db => _) (kept_UpsertCredentialPermission _) _). intros _.
  refine (kept_then _ (fun _ db => _) (kept_UpsertCredentialUsage _) _). intros _. apply kept_inl.
Qed.

Lemma rows_CreateBuildRun arg : keeps inventory_rows (CreateBuildRun arg).
Proof.
  intros db a db' Hq. destruct arg. unfold CreateBuildRun in Hq. destruct (negb _); [done|].
  apply rbind_ok in Hq as ([b0 db1] & Hb0 & Hq). injection Hq as _ <-. unfold store_build in Hb0.
  do 3 (destruct (negb _); [done|]). injection Hb0 as _ <-. split; [done|cbn; lia].
Qed.
Lemma rows_CompleteBuildRun arg : keeps inventory_rows (CompleteBuildRun arg).
Proof. unfold CompleteBuildRun. keeps_tac. Qed.
Lemma rows_UpsertContainerRegistry arg : keeps inventory_rows (UpsertContainerRegistry arg).
Proof. unfold UpsertContainerRegistry. keeps_tac. Qed.
Lemma rows_DeleteApplication id : keeps inventory_rows (DeleteApplication id).
Proof. unfold DeleteApplication. keeps_tac. Qed.

(** ** Every call *)

#[local] Hint Resolve rows_ReplaceServerDevSudoUsers rows_CreateBuildRun rows_CompleteBuildRun rows_UpsertContainerRegistry
  rows_DeleteApplication : keeps.

Lemma rows_of_side {A} (q : query A) : keeps side_tables q -> keeps inventory_rows q.
Proof.
  exact (keeps_part (fun p => (credentials p.2, permissions p.2, usages p.2)) q).
Qed.

Context `{!UuidLaws} `{Resolver} `{SshLib} `{PgJson} `{FoldTable} {Host : Type} `{!Collaborators Host} `{!ApiHost Host}.

Lemma kept_lift {A} (q : query A) (s : database * Host) : inventory_kept q -> inventory_ok s.1 ->
  inventory_ok (lift q s).2.1 /\ (uuid_supply s.1 <= uuid_supply (lift q s).2.1)%nat.
Proof.
  intros Hq Hs. unfold lift. destruct (q s.1) as [[a db']|err] eqn:Eq.
  - destruct (Hq _ _ _ Eq Hs) as [Hok L]. split; [|exact L]. by apply (same_rows_ok db').
  - split; [by apply (same_rows_ok s.1)|cbn; lia].
Qed.

Lemma kept_sql X (e : runnerE X) (s : database * Host) : inventory_ok s.1 ->
  inventory_ok (sql_handler X e s).2.1 /\ (uuid_supply s.1 <= uuid_supply (sql_handler X e s).2.1)%nat.
Proof.
  intros Hs. destruct e; cbn [sql_handler];
    try (refine (kept_lift _ s _ Hs); apply kept_aside, rows_of_side; keeps_statement);
    (unfold Engine.on_host; first [by split | match goal with |- context [let '(_, _) := ?x in _] => destruct x; by split end]).
Qed.

(** The database and the one to which an open transaction returns. *)
Definition inventory_state (s : api_state (Host := Host)) : Prop :=
  inventory_ok (a_db s)
  /\ forall saved, a_saved s = Some saved -> inventory_ok saved /\ (uuid_supply saved <= uuid_supply (a_db s))%nat.

Lemma kept_on_db {A} (q : query A) s : inventory_kept q -> inventory_state s -> inventory_state (on_db q s).2.
Proof.
  intros Hq [Hok Hsaved]. unfold on_db, on_queue, on_engine.
  pose proof (kept_lift q (q_db (a_queue s), q_host (a_queue s)) Hq Hok) as [Hl L].
  destruct (lift q _) as [x e]. split; [exact Hl|]. intros saved Es. destruct (Hsaved saved Es) as [Hs L']. split; [exact Hs|].
  exact (Nat.le_trans _ _ _ L' L).
Qed.

Lemma kept_handler X (e : apiE X) s : inventory_state s -> inventory_state (api_handler X e s).2.
Proof.
  intros Hs. destruct e; cbn [api_handler];
    try (by destruct Hs);
    try (refine (kept_on_db _ s _ Hs); first
      [apply kept_UpsertCredential | apply kept_UpsertCredentialPermission | apply kept_UpsertCredentialUsage
      | apply kept_DeleteCredentialPermissions | apply kept_DeleteCredentialUsages | apply kept_CreateServerWithSSHInventory
      | apply kept_aside; first [solve [eauto with keeps nocore] | apply rows_of_side; keeps_statement]]);
    pose proof Hs as [Hok Hsaved].
  - unfold on_queue, on_engine. pose proof (kept_sql _ e (q_db (a_queue s), q_host (a_queue s)) Hok) as [Hl L].
    destruct (sql_handler _ e _) as [x s']. split; [exact Hl|]. intros saved Es. destruct (Hsaved saved Es) as [Hs' L'].
    split; [exact Hs'|]. exact (Nat.le_trans _ _ _ L' L).
  - destruct (do_outside _ _ _). exact Hs.
  - destruct (do_doppler _ _). exact Hs.
  - destruct (Seen _ _). exact Hs.
  - destruct (do_dispatch _ _ _ _ _ _). exact Hs.
  - destruct (begin_error _); [exact Hs|]. split; [exact Hok|]. intros saved [= <-]. split; [exact Hok|exact (le_n _)].
  - destruct (commit_error _); [exact Hs|by split].
  - destruct (a_saved s) as [saved|] eqn:Es; cbn [snd]; [|exact Hs]. destruct (Hsaved saved eq_refl) as [Hs' L]. split; [|done].
    exact (same_rows_ok saved (rolled_back saved (a_db s)) eq_refl L Hs').
  - destruct (do_remote _ _ _). exact Hs.
  - destruct (do_local _ _). exact Hs.
  - destruct (push_error _); [exact Hs|]. unfold on_queue, Enqueue. destruct (encodeDeployment d); exact Hs.
Qed.

End Inventory.

(** * An inventory is stored as a whole

    The transaction of credential_inventory_store.go on the database. *)

Section Store.
Context `{UnicodeTables} `{UuidLib} `{!UuidLaws} `{Resolver} `{SshLib} `{UuidSource} `{PgJson} `{FoldTable} `{MapOrder}.
Context {Host : Type} `{!Collaborators Host} `{!ApiHost Host}.
Implicit Types (s : api_state (Host := Host)).

Abbreviation go := (run api_handler).
Abbreviation permission_of := DbInventory.permission_of.

(** ** What the tables hold on a credential *)

Definition permissions_of (id : pgUUID_t) (db : database) : list PermissionRow.t :=
  List.filter (permission_of id) (permissions (inventory db)).
Definition usages_of (id : pgUUID_t) (db : database) : list UsageRow.t :=
  List.filter (usage_of_row id) (usages (inventory db)).

Definition permission_fields (p : PermissionRow.t) : Permission.t :=
  Permission.mk (PermissionRow.ResourceType p) (PermissionRow.ResourceName p) (PermissionRow.Permission p) (PermissionRow.Source p).
Definition usage_fields (u : UsageRow.t) : Usage.t :=
  Usage.mk (UsageRow.UsedByType u) (UsageRow.UsedByName u) (UsageRow.UsageContext u).

Definition item_reference (i : Item.t) : str * str := (Item.Provider i, Item.ExternalRef i).

Definition stored_item (db : database) (i : Item.t) (c : Credential.t) : Prop :=
  c ∈ credentials (inventory db) /\ reference_of c = item_reference i /\ Credential.Name c = Item.Name i
  /\ Credential.CredentialType c = Item.Kind i /\ Credential.Status c = Item.Status i
  /\ map permission_fields (permissions_of (Credential.ID c) db) = Item.Permissions i
  /\ map usage_fields (usages_of (Credential.ID c) db) = Item.Usages i.

(** The other credentials, with what they may do and who uses them. *)
Definition others_kept (refs : list (str * str)) (db db' : database) : Prop :=
  forall c, reference_of c ∉ refs ->
    (c ∈ credentials (inventory db') <-> c ∈ credentials (inventory db))
    /\ (c ∈ credentials (inventory db) -> permissions_of (Credential.ID c) db' = permissions_of (Credential.ID c) db
                                          /\ usages_of (Credential.ID c) db' = usages_of (Credential.ID c) db).

Lemma others_trans refs refs' db db1 db2 :
  others_kept refs db db1 -> others_kept refs' db1 db2 -> others_kept (refs ++ refs') db db2.
Proof.
  intros Ha Hb c Hc. rewrite not_elem_of_app in Hc. destruct Hc as [Hc1 Hc2]. destruct (Ha c Hc1) as [A1 A2], (Hb c Hc2) as [B1 B2].
  split; [by rewrite B1|]. intros Hin. destruct (A2 Hin) as [P1 U1]. destruct (B2 (proj2 A1 Hin)) as [P2 U2].
  split; congruence.
Qed.

Lemma others_stored refs db db' i c : others_kept refs db db' -> item_reference i ∉ refs -> stored_item db i c -> stored_item db' i c.
Proof.
  intros Ho Hi (Hin & Href & Hn & Ht & Hs & Hp & Hu). rewrite <- Href in Hi. destruct (Ho c Hi) as [E K]. destruct (K Hin) as [Ep Eu].
  split; [by apply E|]. repeat (split; [done|]). by rewrite Ep, Eu.
Qed.

(** ** The permissions and usages of one credential *)

Lemma upsert_fresh {R} (conflict : R -> bool) set fresh t :
  existsb conflict t = false -> sql_upsert conflict set fresh t = (t ++ [fresh], fresh).
Proof.
  intros Hn. unfold sql_upsert. rewrite filter_none; [done|]. intros x Hx. destruct (conflict x) eqn:E; [|done].
  rewrite <- Hn. symmetry. apply existsb_exists. exists x. split; [by apply list_elem_of_In|done].
Qed.

(** The outcome of the loop over permissions: an error, or the rows at the end of the table. *)
Definition permissions_added id l db db' : Prop :=
  exists rows, permissions (inventory db') = permissions (inventory db) ++ rows /\ map permission_fields rows = l
    /\ Forall (fun p => PermissionRow.CredentialID p = id) rows
    /\ credentials (inventory db') = credentials (inventory db) /\ usages (inventory db') = usages (inventory db).
Definition usages_added id l db db' : Prop :=
  exists rows, usages (inventory db') = usages (inventory db) ++ rows /\ map usage_fields rows = l
    /\ Forall (fun u => UsageRow.CredentialID u = id) rows
    /\ credentials (inventory db') = credentials (inventory db) /\ permissions (inventory db') = permissions (inventory db).

Lemma add_permissions id l s saved : NoDup (map permission_key l) -> forall db,
  (forall p, p ∈ permissions (inventory db) -> permission_of id p = true -> permission_key (permission_fields p) ∉ map permission_key l) ->
  exists res db', go (each_until_error (upsertCredentialPermission id) l) (set_db s db saved) = (res, set_db s db' saved)
    /\ match res with inl _ => permissions_added id l db db' | inr _ => True end.
Proof.
  induction l as [|p l IH]; intros Hnd db Hfresh; cbn [each_until_error].
  - exists (inl tt), db. split; [by rewrite run_ret|]. exists []. rewrite app_nil_r. by repeat split.
  - inversion Hnd as [|? ? Hp Hndl]; subst. rewrite run_bind_ok. unfold upsertCredentialPermission at 1. rewrite run_bind_ok, run_call.
    cbn [api_handler]. rewrite on_db_set. unfold UpsertCredentialPermission.
    destruct (negb (forallb _ _)); [by eexists _, _|]. destruct (negb (uuid_valid id)); [by eexists _, _|].
    destruct (negb (permission_check _)); [by eexists _, _|]. destruct (negb (reference_ok _ _ _)); [by eexists _, _|].
    rewrite upsert_fresh.
    2:{ apply not_true_is_false. intros (q & Hq & Hc)%existsb_exists. apply list_elem_of_In in Hq. unfold permission_is in Hc.
        rewrite !andb_true_iff, !str_eqb_eq in Hc. destruct Hc as (((Hid & Ht) & Hn) & Hpm). apply (Hfresh q Hq Hid).
        cbn [map]. rewrite elem_of_cons. left. unfold permission_key, permission_fields. cbn. by rewrite Ht, Hn, Hpm. }
    cbn [fst snd]. rewrite run_ret. cbn [fst snd]. set (row := PermissionRow.mk _ _ _ _ _ _ _).
    destruct (IH Hndl (tick (issue_uuid (with_permissions db (permissions (inventory db) ++ [row]))))) as (res & db' & Hrun & Hres).
    + intros q [Hold| ->%list_elem_of_singleton]%elem_of_app Hof; [intros Hk; apply (Hfresh q Hold Hof); by right|].
      unfold permission_key, permission_fields in *. done.
    + exists res, db'. split; [exact Hrun|]. destruct res; [|done]. destruct Hres as (rows & Hr & Hf & Hids & Hc & Hu).
      exists (row :: rows). split; [rewrite Hr; cbn; by rewrite <- app_assoc|]. split; [cbn [map]; rewrite Hf; by destruct p|].
      split; [by constructor|]. by split.
Qed.

Lemma add_usages id l s saved : NoDup (map usage_key l) -> forall db,
  (forall u, u ∈ usages (inventory db) -> usage_of_row id u = true -> usage_key (usage_fields u) ∉ map usage_key l) ->
  exists res db', go (each_until_error (upsertCredentialUsage id) l) (set_db s db saved) = (res, set_db s db' saved)
    /\ match res with inl _ => usages_added id l db db' | inr _ => True end.
Proof.
  induction l as [|u l IH]; intros Hnd db Hfresh; cbn [each_until_error].
  - exists (inl tt), db. split; [by rewrite run_ret|]. exists []. rewrite app_nil_r. by repeat split.
  - inversion Hnd as [|? ? Hp Hndl]; subst. rewrite run_bind_ok. unfold upsertCredentialUsage at 1. rewrite run_bind_ok, run_call.
    cbn [api_handler]. rewrite on_db_set. unfold UpsertCredentialUsage.
    destruct (negb (forallb _ _)); [by eexists _, _|]. destruct (negb (uuid_valid id)); [by eexists _, _|].
    destruct (negb (usage_check _)); [by eexists _, _|]. destruct (negb (reference_ok _ _ _)); [by eexists _, _|].
    rewrite upsert_fresh.
    2:{ apply not_true_is_false. intros (q & Hq & Hc)%existsb_exists. apply list_elem_of_In in Hq. unfold usage_is in Hc.
        rewrite !andb_true_iff, !str_eqb_eq in Hc. destruct Hc as (((Hid & Ht) & Hn) & Hpm). apply (Hfresh q Hq Hid).
        cbn [map]. rewrite elem_of_cons. left. unfold usage_key, usage_fields. cbn. by rewrite Ht, Hn, Hpm. }
    cbn [fst snd]. rewrite run_ret. cbn [fst snd]. set (row := UsageRow.mk _ _ _ _ _ _).
    destruct (IH Hndl (tick (issue_uuid (with_usages db (usages (inventory db) ++ [row]))))) as (res & db' & Hrun & Hres).
    + intros q [Hold| ->%list_elem_of_singleton]%elem_of_app Hof; [intros Hk; apply (Hfresh q Hold Hof); by right|].
      unfold usage_key, usage_fields in *. done.
    + exists res, db'. split; [exact Hrun|]. destruct res; [|done]. destruct Hres as (rows & Hr & Hf & Hids & Hc & Hu).
      exists (row :: rows). split; [rewrite Hr; cbn; by rewrite <- app_assoc|]. split; [cbn [map]; rewrite Hf; by destruct u|].
      split; [by constructor|]. by split.
Qed.

(** ** One item *)

Lemma upserted_credential i db c db1 :
  UpsertCredential (UpsertCredentialParams.mk (Item.Name i) (Item.Provider i) (Item.ExternalRef i) (Item.Kind i) (Item.Status i)) db
    = inl (c, db1) -> inventory_ok db ->
  inventory_ok db1 /\ c ∈ credentials (inventory db1) /\ reference_of c = item_reference i /\ Credential.Name c = Item.Name i
  /\ Credential.CredentialType c = Item.Kind i /\ Credential.Status c = Item.Status i
  /\ permissions (inventory db1) = permissions (inventory db) /\ usages (inventory db1) = usages (inventory db)
  /\ forall c0, reference_of c0 <> item_reference i -> (c0 ∈ credentials (inventory db1) <-> c0 ∈ credentials (inventory db)).
Proof.
  intros Hq Hok. destruct (kept_UpsertCredential _ _ _ _ Hq Hok) as [Hok1 _]. split; [exact Hok1|]. clear Hok1 Hok.
  unfold UpsertCredential in Hq. destruct (negb (forallb _ _)); [done|]. set (fresh := Credential.mk _ _ _ _ _ _ _ _ _) in *.
  destruct (negb (credential_check fresh)); [done|]. destruct (sql_upsert _ _ _ _) as [t r] eqn:Et. injection Hq as <- <-.
  assert (Hc : forall x, same_reference (Item.Provider i) (Item.ExternalRef i) x = true <-> reference_of x = reference_of fresh).
  { intros x. unfold same_reference, reference_of. rewrite andb_true_iff, !str_eqb_eq. cbn. split; [by intros [-> ->]|by intros [= -> ->]]. }
  pose proof (upsert_row reference_of _ (seen_credential fresh) fresh Hc (fun _ _ => eq_refl) (credentials (inventory db))) as [Hin Href].
  rewrite Et in Hin, Href. cbn in Hin, Href. cbn. split; [exact Hin|]. split; [exact Href|].
  assert (Hfields : Credential.Name r = Item.Name i /\ Credential.CredentialType r = Item.Kind i /\ Credential.Status r = Item.Status i).
  { unfold sql_upsert in Et. destruct (List.filter _ _) as [|y l]; injection Et as _ <-; by cbn. }
  destruct Hfields as (Hn & Ht & Hs). do 5 (split; [done|]). intros c0 Hne.
  assert (Hoff : same_reference (Item.Provider i) (Item.ExternalRef i) c0 = false).
  { apply not_true_is_false. by rewrite Hc. }
  unfold sql_upsert in Et. destruct (List.filter _ _) as [|y l]; injection Et as <- _; split.
  - intros [Hx| ->%list_elem_of_singleton]%elem_of_app; [exact Hx|by destruct Hne].
  - intros Hx. apply elem_of_app. by left.
  - intros (x & -> & Hx)%list_elem_of_fmap. cbv beta in *. destruct (same_reference _ _ x) eqn:E; [|exact Hx].
    exfalso. apply Hne. by apply Hc in E.
  - intros Hx. apply list_elem_of_fmap. exists c0. by rewrite Hoff.
Qed.

Lemma inventory_run {A} (p : H A) s : inventory_state s -> inventory_state (go p s).2.
Proof.
  intros Hs. assert (Hp : inventory_state (exec api_handler p s).2).
  { apply (exec_preserves api_handler inventory_state (fun _ _ => True)); [by intros X e s0 _; apply kept_handler| |exact Hs].
    apply only_true. }
  unfold run. by destruct (exec api_handler p s) as [[a tr] s'].
Qed.

Lemma rows_replaced {R} (owner : R -> pgUUID_t) id id0 (old rows : list R) : uuid_valid id = true -> Forall (fun r => owner r = id) rows ->
  let mine x := fun r => uuid_eqb (owner r) x in
  List.filter (mine id) (List.filter (fun r => negb (mine id r)) old ++ rows) = rows
  /\ (id0 <> id -> List.filter (mine id0) (List.filter (fun r => negb (mine id r)) old ++ rows) = List.filter (mine id0) old).
Proof.
  intros Hv Hr mine. rewrite Forall_forall in Hr. assert (Hown : forall r, r ∈ rows -> mine id r = true).
  { intros r Hin. apply uuid_eqb_true. by rewrite (Hr r Hin). }
  rewrite !List.filter_app, !filter_filter_and. split.
  - rewrite filter_none, (filter_all _ rows Hown) by (intros r _; apply andb_negb_r). done.
  - intros Hne. rewrite (filter_none _ rows), app_nil_r.
    + apply filter_ext. intros r. destruct (mine id0 r) eqn:E; [|done]. cbn [andb]. apply negb_true_iff, not_true_is_false.
      apply uuid_eqb_true in E as [E _]. intros [E' _]%uuid_eqb_true. congruence.
    + intros r Hin. apply not_true_is_false. intros [E _]%uuid_eqb_true. rewrite (Hr r Hin) in E. congruence.
Qed.

Lemma NoDup_unique {A B} (f : A -> B) l x y : NoDup (map f l) -> x ∈ l -> y ∈ l -> f x = f y -> x = y.
Proof.
  intros Hn [i Hi]%list_elem_of_lookup_1 [j Hj]%list_elem_of_lookup_1 Hf. assert (i = j) as ->; [|congruence].
  apply (NoDup_lookup (map f l) i j (f x)); [done|..]; rewrite list_lookup_fmap; [by rewrite Hi|by rewrite Hj, Hf].
Qed.

(** What the deletes and the loops leave when the credential was written. *)
Lemma item_written i c db1 db2 db3 : inventory_ok db1 -> c ∈ credentials (inventory db1) ->
  reference_of c = item_reference i -> Credential.Name c = Item.Name i -> Credential.CredentialType c = Item.Kind i ->
  Credential.Status c = Item.Status i ->
  permissions_added (Credential.ID c) (Item.Permissions i)
    (with_usages (with_permissions db1 (List.filter (fun p => negb (permission_of (Credential.ID c) p)) (permissions (inventory db1))))
       (List.filter (fun u => negb (usage_of_row (Credential.ID c) u)) (usages (inventory db1)))) db2 ->
  usages_added (Credential.ID c) (Item.Usages i) db2 db3 ->
  stored_item db3 i c /\ others_kept [item_reference i] db1 db3.
Proof.
  intros Hok Hin Href Hname Htype Hst (prows & Hp & Hpf & Hpid & Hpc & Hpu) (urows & Hu & Huf & Huid & Huc & Hup).
  cbn in Hp, Hpc, Hpu. set (id := Credential.ID c) in *.
  assert (Hv : uuid_valid id = true).
  { pose proof (credentials_ok _ Hok) as Hall. rewrite Forall_forall in Hall. destruct (Hall c Hin) as [_ (k & _ & E)].
    subst id. by rewrite E. }
  assert (Ec : credentials (inventory db3) = credentials (inventory db1)) by congruence.
  assert (Ep : permissions (inventory db3) = List.filter (fun p => negb (permission_of id p)) (permissions (inventory db1)) ++ prows) by congruence.
  assert (Eu : usages (inventory db3) = List.filter (fun u => negb (usage_of_row id u)) (usages (inventory db1)) ++ urows) by congruence.
  split.
  - repeat split; [by rewrite Ec|done..| |].
    + unfold permissions_of. rewrite Ep. rewrite (proj1 (rows_replaced PermissionRow.CredentialID id id _ prows Hv Hpid)). exact Hpf.
    + unfold usages_of. rewrite Eu. rewrite (proj1 (rows_replaced UsageRow.CredentialID id id _ urows Hv Huid)). exact Huf.
  - intros c0 Hc0. apply not_elem_of_cons in Hc0 as [Hc0 _]. rewrite Ec. split; [done|]. intros Hin0.
    assert (Hid : Credential.ID c0 <> id).
    { intros E. apply Hc0. rewrite <- Href. f_equal. exact (NoDup_unique _ _ _ _ (identifiers_unique _ Hok) Hin0 Hin E). }
    unfold permissions_of, usages_of. rewrite Ep, Eu. split.
    + exact (proj2 (rows_replaced PermissionRow.CredentialID id (Credential.ID c0) _ prows Hv Hpid) Hid).
    + exact (proj2 (rows_replaced UsageRow.CredentialID id (Credential.ID c0) _ urows Hv Huid) Hid).
Qed.

Lemma store_item i s saved db : inventory_state (set_db s db saved) ->
  NoDup (map permission_key (Item.Permissions i)) -> NoDup (map usage_key (Item.Usages i)) ->
  exists res db', go (upsertCredentialInventoryItem i) (set_db s db saved) = (res, set_db s db' saved)
    /\ match res with inl c => stored_item db' i c /\ others_kept [item_reference i] db db' | inr _ => True end.
Proof.
  intros Hs Hp Hu. unfold upsertCredentialInventoryItem. rewrite run_bind_ok, run_call. cbn [api_handler]. rewrite on_db_set.
  destruct (UpsertCredential _ db) as [[c db1]|err] eqn:Eq; [|by eexists _, _].
  destruct (upserted_credential i db c db1 Eq (proj1 Hs)) as (Hok1 & Hin & Href & Hn & Ht & Hst & Epm & Eus & Hother).
  rewrite run_bind_ok, run_call. cbn [api_handler]. rewrite on_db_set. unfold DeleteCredentialPermissions. cbv beta iota.
  rewrite run_bind_ok, run_call. cbn [api_handler]. rewrite on_db_set. unfold DeleteCredentialUsages. cbv beta iota.
  rewrite run_bind_ok. set (db2 := tick _).
  destruct (add_permissions (Credential.ID c) (Item.Permissions i) s saved Hp db2) as (res & db3 & Hrun & Hres).
  { intros p Hin' Hof. apply list_elem_of_In, filter_In in Hin' as [_ Hno]. by rewrite Hof in Hno. }
  rewrite Hrun. destruct res as [[]|err]; [|by eexists _, _]. rewrite run_bind_ok.
  assert (Hus : usages (inventory db3) = List.filter (fun u => negb (usage_of_row (Credential.ID c) u)) (usages (inventory db1))).
  { destruct Hres as (_ & _ & _ & _ & _ & Hus). exact Hus. }
  destruct (add_usages (Credential.ID c) (Item.Usages i) s saved Hu db3) as (res & db4 & Hrun4 & Hres4).
  { intros u Hin' Hof. rewrite Hus in Hin'. apply list_elem_of_In, filter_In in Hin' as [_ Hno]. by rewrite Hof in Hno. }
  rewrite Hrun4. destruct res as [[]|err]; [|by eexists _, _]. rewrite run_ret. exists (inl c), db4. split; [done|].
  destruct (item_written i c db1 db3 db4 Hok1 Hin Href Hn Ht Hst Hres Hres4) as [Hitem Hkept]. split; [exact Hitem|].
  intros c0 Hc0. destruct (Hkept c0 Hc0) as [E K]. apply not_elem_of_cons in Hc0 as [Hc0 _]. split; [by rewrite E, Hother|].
  intros Hin0. destruct (K (proj2 (Hother c0 Hc0) Hin0)) as [Kp Ku]. unfold permissions_of, usages_of in *. by rewrite Kp, Ku, Epm, Eus.
Qed.

(** ** The batch *)

Definition storable (i : Item.t) : Prop := NoDup (map permission_key (Item.Permissions i)) /\ NoDup (map usage_key (Item.Usages i)).

Lemma normal_storable i : normal_item i -> storable i.
Proof.
  intros Hi. destruct (normal_item_parts i Hi) as (_ & _ & _ & Hp & Hu). split; [rewrite <- Hp|rewrite <- Hu]; apply first_by_NoDup.
Qed.

Lemma references_distinct items : NoDup (map credentialInventoryKey items) -> NoDup (map item_reference items).
Proof.
  induction items as [|i t IH]; cbn [map]; intros Hn; [constructor|]. inversion Hn as [|? ? Hi Ht]; subst. constructor; [|by apply IH].
  intros (j & Hj & Hin)%list_elem_of_fmap. apply Hi, list_elem_of_fmap. exists j. split; [|done].
  unfold item_reference in Hj. injection Hj as Ep Er. unfold credentialInventoryKey. by rewrite Ep, Er.
Qed.

Lemma store_items items s saved : Forall storable items -> NoDup (map item_reference items) -> forall db,
  inventory_state (set_db s db saved) ->
  exists res db', go (upsert_items items) (set_db s db saved) = (res, set_db s db' saved)
    /\ match res with
       | inl cs => Forall2 (stored_item db') items cs /\ others_kept (map item_reference items) db db'
       | inr _ => True
       end.
Proof.
  induction 1 as [|i items [Hp Hu] _ IH]; intros Hnd db Hs; cbn [upsert_items].
  - exists (inl []), db. split; [by rewrite run_ret|]. split; [constructor|]. by intros c _.
  - inversion Hnd as [|? ? Hi Hndi]; subst. rewrite run_bind_ok.
    destruct (store_item i s saved db Hs Hp Hu) as (res & db1 & Hrun & Hres).
    pose proof (inventory_run (upsertCredentialInventoryItem i) _ Hs) as Hs1. rewrite Hrun in Hs1. cbn [snd] in Hs1.
    rewrite Hrun. destruct res as [c|err]; [|by eexists _, _]. destruct Hres as [Hitem Hkept]. rewrite run_bind_ok.
    destruct (IH Hndi db1 Hs1) as (res & db2 & Hrun2 & Hres2). rewrite Hrun2. destruct res as [cs|err]; [|by eexists _, _].
    rewrite run_ret. exists (inl (c :: cs)), db2. split; [done|]. destruct Hres2 as [Hall Hkept2]. split.
    + constructor; [|exact Hall]. exact (others_stored _ db1 db2 i c Hkept2 Hi Hitem).
    + cbn [map]. change (item_reference i :: map item_reference items) with ([item_reference i] ++ map item_reference items).
      exact (others_trans _ _ db db1 db2 Hkept Hkept2).
Qed.

(** C17: an accepted inventory is stored as a whole or not at all.  When the
    transaction succeeds there is for every item the credential that is returned,
    under the item's reference and with its name, type and status, and its
    permissions and usages are exactly those of the item; credentials of other
    references keep theirs.  After an error (a constraint, a text the database
    refuses, or a transaction that cannot be opened or committed) all tables of the
    inventory are as they were. *)
Theorem inventory_batch_all_or_nothing given items s (Haccept : normalizeCredentialInventoryInput given = inl items)
    (Hclosed : a_saved s = None) (Hok : inventory_ok (a_db s)) :
  let '(res, s') := run api_handler (upsertCredentialInventoryBatch items) s in
  a_saved s' = None
  /\ match res with
     | inl credentials =>
         Forall2 (stored_item (a_db s')) items credentials /\ others_kept (map item_reference items) (a_db s) (a_db s')
     | inr _ => inventory (a_db s') = inventory (a_db s)
     end.
Proof.
  destruct (accepted_items given items Haccept) as [Hn Hnd]. unfold upsertCredentialInventoryBatch.
  destruct (begin_error (q_host (a_queue s))) as [err|] eqn:Eb; [rewrite (in_transaction_begin _ _ _ Eb); by split|].
  assert (Hs : inventory_state (set_db s (a_db s) (Some (a_db s)))).
  { split; [exact Hok|]. intros saved [= <-]. split; [exact Hok|apply le_n]. }
  assert (Hst : Forall storable items) by (eapply Forall_impl; [exact Hn|apply normal_storable]).
  destruct (store_items items s (Some (a_db s)) Hst (references_distinct _ Hnd) (a_db s) Hs) as (res & db' & Hrun & Hres).
  destruct res as [cs|err].
  - assert (Hgo : go (let!? credentials := upsert_items items in commit_then credentials) (set_db s (a_db s) (Some (a_db s)))
                  = match commit_error (q_host (a_queue s)) with
                    | Some err => (inr err, set_db s db' (Some (a_db s))) | None => (inl cs, set_db s db' None) end).
    { rewrite run_bind_ok, Hrun. apply commit_set. }
    destruct (commit_error _) as [err|]; rewrite (in_transaction_set _ _ _ _ _ Hclosed Eb Hgo); by split.
  - assert (Hgo : go (let!? credentials := upsert_items items in commit_then credentials) (set_db s (a_db s) (Some (a_db s)))
                  = (inr err, set_db s db' (Some (a_db s)))) by by rewrite run_bind_ok, Hrun.
    rewrite (in_transaction_set _ _ _ _ _ Hclosed Eb Hgo). by split.
Qed.
End Store.
