(* ===== verification/HttpServersDemo.v ===== *)
(** * Configurations, servers and credentials executed

    The theorems on runtime variables, on the users and routes of a server, on connectors
    and on the inventory of credentials, applied to the database and the host of HttpDemo. *)

From S2P Require Import Prelude GoStrings GoStringsFacts GoRegexp GoJson GoNet StringUtil AuditLog.
From S2P Require Import Db DbHttp DbApplications RemoteSteps EnvFile ProxyCommands Effects Runner.
From S2P Require Import Queue RunnerFacts Engine QueueFacts EngineDemo GoHttp HttpCore HttpDeployments.
From S2P Require Import HttpApplications HttpVariables HttpVariablesFacts HttpEngine HttpVariablesStore HttpDemo DbServers ShellSpec.
From S2P Require Import HttpServers HttpDevUsers HttpDevUsersFacts HttpProxy HttpProxyFacts DbInventory GithubConnector Connectors.
From S2P Require Import HttpCredentials HttpConnectors HttpConnectorsFacts HttpCredentialsFacts HttpCredentialsStore.

#[local] Existing Instance ascii_tables.
#[local] Existing Instance demo_dns.
#[local] Existing Instance demo_ssh.
#[local] Existing Instance demo_collaborators.

Definition demo_inputs : list Input.t := [Input.mk (lit " PRICE ") (lit "5$"); Input.mk (lit "LOG_LEVEL") (lit "debug")].
Definition demo_sorted : list Input.t := [Input.mk (lit "LOG_LEVEL") (lit "debug"); Input.mk (lit "PRICE") (lit "5$")].

Lemma demo_normalized : normalizeProjectRuntimeVariables demo_inputs = inl demo_sorted.
Proof. vm_compute. reflexivity. Qed.

Lemma accepted_variables_deployable_witness :
  exists file, renderRuntimeEnvFile (map as_variable demo_sorted) = inl file /\ length file = 30%nat.
Proof.
  destruct (accepted_variables_deployable demo_inputs demo_sorted demo_normalized) as (_ & _ & file & Hr & Hl & _).
  exists file. split; [exact Hr|]. rewrite Hl. vm_compute. reflexivity.
Defined.

(** The variables are replaced twice: the second time nothing changes. *)
Lemma project_variables_all_or_nothing_witness :
  let s1 := (run api_handler (storeProjectRuntimeVariables (rid "prj") demo_sorted) (api_start two_apps healthy_host)).2 in
  variables_of (rid "prj") (a_db s1) = demo_sorted
  /\ exists project, (run api_handler (storeProjectRuntimeVariables (rid "prj") demo_sorted) s1).1 = inl (project, false).
Proof.
  assert (Htext : Forall (fun i => valid_utf8 (Input.Value i) = true) demo_sorted) by (repeat constructor).
  pose proof (project_variables_all_or_nothing (api_start two_apps healthy_host) (rid "prj") demo_inputs demo_sorted
    demo_normalized Htext eq_refl) as Hfirst.
  assert (Hok : exists r, (run api_handler (storeProjectRuntimeVariables (rid "prj") demo_sorted) (api_start two_apps healthy_host)).1
    = inl r) by (eexists; vm_compute; reflexivity).
  cbv zeta.
  destruct (run api_handler (storeProjectRuntimeVariables (rid "prj") demo_sorted) (api_start two_apps healthy_host))
    as [res s1] eqn:Er. cbn [fst snd] in *. destruct Hok as [[p c] ->]. destruct Hfirst as (Hsaved & Hvars & _).
  split; [exact Hvars|].
  pose proof (project_variables_all_or_nothing s1 (rid "prj") demo_inputs demo_sorted demo_normalized Htext Hsaved) as Hsecond.
  assert (Hok2 : exists r, (run api_handler (storeProjectRuntimeVariables (rid "prj") demo_sorted) s1).1 = inl r).
  { apply (f_equal snd) in Er. cbn [snd] in Er. rewrite <- Er. eexists. vm_compute. reflexivity. }
  destruct (run api_handler (storeProjectRuntimeVariables (rid "prj") demo_sorted) s1) as [res2 s2].
  cbn [fst snd] in *. destruct Hok2 as [[p2 c2] ->]. exists p2. destruct Hsecond as (_ & _ & _ & Hc & _).
  rewrite Hc, Hvars, bool_decide_true by reflexivity. reflexivity.
Defined.

Definition demo_request : applicationServiceRuntimeConfigRequest :=
  {| DopplerProject := lit "acme"; DopplerConfig := lit "prd"; Variables := demo_sorted |}.


(** * Requests on servers executed

    The theorems on the users of a server on the database of HttpDemo. *)

#[local] Existing Instance ascii_tables.
#[local] Existing Instance demo_dns.
#[local] Existing Instance demo_ssh.
#[local] Existing Instance demo_collaborators.

(** alice has sudo rights on the server. *)
Definition users_db : database :=
  with_dev_users two_apps [DevUser.mk (rid "usr") (rid "srv") (lit "alice") None None].
Definition users_start : api_state (Host := demo_host) := api_start users_db healthy_host.
Definition server_text : str := uuid_String (uuid_bytes (rid "srv")).

Definition rename_request : Request :=
  post_request (lit "{" ++ quoted (lit "username") ++ lit ":" ++ quoted (lit "bob ") ++ lit "}")
    (fun n => if n =s lit "serverID" then server_text else if n =s lit "username" then lit "alice" else []).

Lemma users_db_ok : dev_users_ok users_db.
Proof.
  split; [|by intros u ->%list_elem_of_singleton]. intros server. unfold server_users.
  cbn [dev_users inventory users_db with_dev_users with_inventory List.filter].
  destruct (user_of server _); [apply NoDup_singleton|constructor].
Qed.

(** alice is renamed to bob. *)
Lemma dev_user_requests_refine_sets_witness :
  let s := (run api_handler (updateServerDevUser rename_request) users_start).2 in
  exists server users, names_server rename_request users_db server
    /\ users_stored users_start server users s /\ users = [lit "bob"].
Proof.
  destruct (dev_user_requests_refine_sets UpdateUser rename_request users_start users_db_ok) as [_ Hend].
  cbn [dev_user_handler] in Hend. set (s := (run api_handler (updateServerDevUser rename_request) users_start).2) in *.
  assert (Hs : map fst (a_responses s) = [StatusOK] /\ listed (a_db s) (rid "srv") = [lit "bob"]) by (split; vm_compute; reflexivity).
  destruct Hs as [Hstatus Hlist]. destruct Hend as [(server & users & Hn & _ & Hst)|(_ & _ & status & v & Hr & Hne)].
  - exists server, users. split; [exact Hn|]. split; [exact Hst|]. destruct Hst as (Hl & _).
    destruct Hn as (Hid & _).
    assert (Hp : parseUUIDParam rename_request (lit "serverID") = inl (rid "srv")) by (vm_compute; reflexivity).
    rewrite Hid in Hp. injection Hp as E. rewrite <- Hl, E. exact Hlist.
  - rewrite Hr in Hstatus. cbn in Hstatus. injection Hstatus as Heq. contradiction.
Defined.

Definition demo_server_row : Server.t :=
  match servers users_db with s :: _ => s | [] => Server.mk (rid "srv") [] [] [] 22 textNull [] [] [] None None None None None None end.

Lemma users_file_reaches_server_witness :
  carries (devUsersApplyScript demo_server_row [lit "alice"; lit "bob"]) [lit "alice"; lit "bob"].
Proof.
  refine (proj1 (proj2 (users_file_reaches_server demo_server_row [lit "alice"; lit "bob"] _ _ _))).
  - split; [apply (bool_decide_unpack _); vm_compute; exact I|]. repeat constructor.
  - repeat constructor.
  - intros Hin. apply list_elem_of_In in Hin. vm_compute in Hin. intuition discriminate.
Defined.

(** A route with an upstream for each colour, as it is accepted. *)
Definition route_input : CreateProxyRouteParams.t :=
  normalizeCreateProxyRoute (CreateProxyRouteParams.mk (rid "srv") (rid "app") (lit " API.example.com") (lit "http://127.0.0.1:3101")
    true (someText (lit "http://127.0.0.1:3102")) textNull (someText (lit "web")) (Some 3000%Z) textNull) None.


(** * Connectors and credentials executed

    The theorems on connector configurations and on the inventory of credentials on
    the database of HttpDemo. *)

#[local] Existing Instance ascii_tables.
#[local] Existing Instance demo_dns.
#[local] Existing Instance demo_ssh.
#[local] Existing Instance demo_collaborators.

(** Maps are ranged over in the order of their lists. *)
#[export] Instance demo_order : MapOrder := {| map_range A m := map_to_list m; map_range_perm A m := reflexivity _ |}.

Definition slack_config : json :=
  JObj [(lit "channels", JArr [JStr (lit " #deploys "); JStr []; JNull]); (lit "retries", JReal (lit "2.50"));
        (lit "applications", JArr [])].

Definition slack_stored : json :=
  JObj [(lit "channels", JArr [JStr (lit "#deploys")]); (lit "retries", JReal (lit "2.5"))].

Lemma accepted_config_kept_witness :
  normalizeConnectorConfig (Some slack_config) = inl slack_stored
  /\ publicConnectorConfig (Some slack_stored) = [(lit "channels", JArr [JStr (lit "#deploys")]); (lit "retries", JReal (lit "2.5"))].
Proof.
  assert (Hv : normalizeConnectorConfig (Some slack_config) = inl slack_stored) by (vm_compute; reflexivity).
  split; [exact Hv|].
  destruct (accepted_config_kept _ _ Hv) as (config & Hc & _ & Hp).
  - repeat constructor.
  - rewrite Hp. unfold slack_stored in Hc. injection Hc as <-. reflexivity.
Defined.

(** Two reports on one credential, and one on another. *)
Definition demo_permission (name : string) : Permission.t :=
  Permission.mk (lit "bucket") (lit name) (lit "storage.objects.get") [].
Definition demo_item (ref name status bucket : string) : Item.t :=
  Item.mk (lit name) (lit "GCS ") (lit ref) (lit "service_account") (lit status) [demo_permission bucket]
    [Usage.mk (lit "application") (lit "api") (lit "uploads")].
Definition demo_credentials : list Item.t :=
  [demo_item "sa-1" "uploads" "active" "gs://a"; demo_item "sa-2" "backups" " " "gs://b"; demo_item "sa-1" "other" "rotating" "gs://c"].

Definition sourced (name : string) : Permission.t :=
  Permission.mk (lit "bucket") (lit name) (lit "storage.objects.get") (lit "connector").
Definition merged_item (ref name status : string) (permissions : list Permission.t) : Item.t :=
  Item.mk (lit name) (lit "gcs") (lit ref) (lit "service_account") (lit status) permissions
    [Usage.mk (lit "application") (lit "api") (lit "uploads")].
Definition demo_merged : list Item.t :=
  [merged_item "sa-1" "uploads" "rotating" [sourced "gs://a"; sourced "gs://c"];
   merged_item "sa-2" "backups" "active" [sourced "gs://b"]].

Lemma demo_accepted : normalizeCredentialInventoryInput demo_credentials = inl demo_merged.
Proof. vm_compute. reflexivity. Qed.

Lemma inventory_merges_by_reference_witness :
  exists items, normalize_items demo_credentials = inl items /\ length items = 3%nat /\ demo_merged = merged_by_reference items.
Proof.
  destruct (inventory_merges_by_reference demo_credentials demo_merged demo_accepted) as (items & Hi & Hm & _).
  exists items. split; [exact Hi|]. split; [|exact Hm].
  assert (Hl : match normalize_items demo_credentials with inl l => length l = 3%nat | inr _ => True end) by (vm_compute; reflexivity).
  rewrite Hi in Hl. exact Hl.
Defined.

Definition inventory_start : api_state (Host := demo_host) := api_start two_apps healthy_host.

Lemma inventory_start_ok : inventory_ok (a_db inventory_start).
Proof. constructor; cbn; constructor. Qed.

(** The batch is stored; storing it again keeps one credential for every reference. *)
Definition stored_once : api_state (Host := demo_host) :=
  (run api_handler (upsertCredentialInventoryBatch demo_merged) inventory_start).2.

Lemma inventory_batch_all_or_nothing_witness :
  exists credentials, Forall2 (stored_item (a_db stored_once)) demo_merged credentials.
Proof.
  pose proof (inventory_batch_all_or_nothing demo_credentials demo_merged inventory_start demo_accepted eq_refl inventory_start_ok) as Hall.
  assert (Hok : exists l, (run api_handler (upsertCredentialInventoryBatch demo_merged) inventory_start).1 = inl l)
    by (eexists; vm_compute; reflexivity).
  unfold stored_once. destruct (run api_handler (upsertCredentialInventoryBatch demo_merged) inventory_start) as [res s].
  cbn [fst snd] in *. destruct Hok as [l ->]. destruct Hall as (_ & Hf & _). exists l. exact Hf.
Defined.

