(* ===== verification/Migrations.v ===== *)
(** * internal/migrations: the schema of the database

    migrations.go: every script of the embedded directory is run once, in the
    order of the names, each in a transaction of its own that first takes an
    advisory lock.  Several instances of the server may start at the same time,
    any statement may fail, and an instance may be stopped between any two
    statements.  The model of the database is a step relation: the answer of a
    statement, its effect on the transaction, and the commits of other instances
    that happen while the lock is not held.  The theorem is a rely/guarantee
    argument: what an instance commits is what it expects the others to commit. *)

From stdpp Require Import relations.
From S2P Require Import Prelude GoStrings Effects.

Definition migrationLockID : Z := 9021001.
Definition migrationLockSQL : str := Sprintf (lit "SELECT pg_advisory_xact_lock(%d)") [fmt_d migrationLockID].

(** ** The program *)

Inductive statement :=
| Lock (sql : str)
| CreateVersions                       (* CREATE TABLE IF NOT EXISTS schema_migrations *)
| Script (sql : str)                   (* a migration *)
| InsertVersion (version : str).       (* INSERT INTO schema_migrations *)

Inductive migE : Type -> Type :=
| XBegin : migE (option goerror)
| XExec (q : statement) : migE (option goerror)
| XExists (version : str) : migE (result bool)   (* SELECT EXISTS (... WHERE version = $1) *)
| XCommit : migE (option goerror)
| XRollback : migE unit.

(** An entry of the embedded directory: its name, and whether it is a directory. *)
Record DirEntry := { EntryName : str; IsDir : bool }.

Section Migrations.
Context (entries : result (list DirEntry)) (contents : str -> result str).

Definition exec_statement (q : statement) : prog migE (result unit) :=
  let! err := call (XExec q) in Ret (check err).
Definition commit : prog migE (result unit) := let! err := call XCommit in Ret (check err).

(** The statements of one transaction, between its begin and the deferred rollback. *)
Definition apply_once (name : str) : prog migE (result unit) :=
  let!? _ := exec_statement (Lock migrationLockSQL) in
  let!? _ := exec_statement CreateVersions in
  let!? exists_ := call (XExists name) in
  if (exists_ : bool) then commit
  else
    let!? sql := Ret (contents name) in
    let!? _ := (let! r := exec_statement (Script sql) in Ret (wrap_err (lit "apply migration " ++ name ++ lit ": ") r)) in
    let!? _ := exec_statement (InsertVersion name) in
    commit.

Definition runOne (name : str) : prog migE (result unit) :=
  let! err := call XBegin in
  match err with
  | Some err => Ret (inr err)
  | None => let! r := apply_once name in let! _ := call XRollback in Ret r
  end.

Definition migrationNames : result (list str) :=
  let? entries := entries in
  inl (sort_Strings (map EntryName (List.filter (fun entry => negb (IsDir entry) && HasSuffix (EntryName entry) (lit ".sql")) entries))).

Fixpoint run_all (names : list str) : prog migE (result unit) :=
  match names with
  | [] => Ret (inl tt)
  | name :: rest => let!? _ := runOne name in run_all rest
  end.

Definition Run : prog migE (result unit) := let!? names := Ret migrationNames in run_all names.

(** ** The database

    What is committed: whether the table of versions exists, the versions it holds,
    and the scripts that took effect, both in order.  A transaction has its own
    changes, which nobody else sees before the commit. *)

Record store := Store { table : bool; versions : list str; history : list str }.
Definition no_changes : store := Store false [] [].
Definition with_changes (c own : store) : store :=
  Store (table c || table own) (versions c ++ versions own) (history c ++ history own).

Record Tx := { locked : bool; own : store }.
Record Session := { committed : store; tx : option Tx }.

Section Database.
Context (names : list str).

(** One commit of an instance that migrates the same database: the table of versions,
    and perhaps the next migration together with its version. *)
Inductive commits : store -> store -> Prop :=
| commits_table c : commits c (Store true (versions c) (history c))
| commits_next c name sql : versions c ++ [name] `prefix_of` names -> contents name = inl sql ->
    commits c (Store true (versions c ++ [name]) (history c ++ [sql])).

(** Commits of other instances before a statement: none while the lock is held. *)
Definition interference (s : Session) (c : store) : Prop :=
  match tx s with
  | Some {| locked := true |} => c = committed s
  | _ => rtc commits (committed s) c
  end.

Definition view (s : Session) : store :=
  match tx s with Some t => with_changes (committed s) (own t) | None => committed s end.
Definition add_change (change : store) (s : Session) : Session :=
  {| committed := committed s;
     tx := (fun t => {| locked := locked t; own := with_changes (own t) change |}) <$> tx s |}.
Definition no_tx (c : store) : Session := {| committed := c; tx := None |}.

(** A statement outside of a transaction, or one that fails, changes nothing; a commit whose
    answer is lost may have taken effect. *)
Definition statement_step (q : statement) (s s' : Session) : Prop :=
  match q with
  | Lock _ => s' = {| committed := committed s; tx := (fun t => {| locked := true; own := own t |}) <$> tx s |}
  | CreateVersions => s' = add_change (Store true [] []) s
  | Script sql => s' = add_change (Store false [] [sql]) s
  | InsertVersion version =>
      table (view s) = true /\ version ∉ versions (view s) /\ s' = add_change (Store false [version] []) s
  end.

Definition effect {X} (e : migE X) (s s' : Session) : X -> Prop :=
  match e in migE X return X -> Prop with
  | XBegin => fun err =>
      s' = match err with None => {| committed := committed s; tx := Some {| locked := false; own := no_changes |} |} | Some _ => s end
  | XExec q => fun err => match err with None => statement_step q s s' | Some _ => s' = s end
  | XExists version => fun r =>
      s' = s /\ match r with
                | inl b => table (view s) = true /\ b = bool_decide (version ∈ versions (view s))
                | inr _ => True
                end
  | XCommit => fun err => s' = no_tx (view s) \/ is_some err = true /\ s' = no_tx (committed s)
  | XRollback => fun _ => s' = no_tx (committed s)
  end.

(** One step of the program: others commit, and then its statement is executed. *)
Inductive config_step {A} : prog migE A * Session -> prog migE A * Session -> Prop :=
| step_call X (e : migE X) k s c x s' :
    interference s c -> effect e {| committed := c; tx := tx s |} s' x ->
    config_step (Call e k, s) (k x, s').
End Database.

(** ** Rely and guarantee

    [wp p Q s]: from [s], every step of [p] commits only what [commits] allows,
    whatever the other instances commit, and [Q] holds when [p] returns. *)

Section Guarantee.
Context (names : list str) (Hdistinct : NoDup names).

Fixpoint wp {A} (p : prog migE A) (Q : A -> Session -> Prop) (s : Session) : Prop :=
  match p with
  | Ret a => Q a s
  | Call e k => forall c x s', interference names s c -> effect e {| committed := c; tx := tx s |} s' x ->
      rtc (commits names) c (committed s') /\ wp (k x) Q s'
  end.

Lemma wp_bind {A B} (p : prog migE A) (f : A -> prog migE B) Q s :
  wp p (fun a => wp (f a) Q) s -> wp (pbind p f) Q s.
Proof.
  revert s. induction p as [a|X e k IH]; intros s; [done|]. intros Hp c x s' Hi He.
  destruct (Hp c x s' Hi He) as [Hc Hk]. split; [exact Hc|]. by apply IH.
Qed.

Lemma wp_weaken {A} (p : prog migE A) (Q R : A -> Session -> Prop) s :
  wp p Q s -> (forall a s, Q a s -> R a s) -> wp p R s.
Proof.
  intros Hp Hqr. revert s Hp. induction p as [a|X e k IH]; intros s; [apply Hqr|]. intros Hp c x s' Hi He.
  destruct (Hp c x s' Hi He) as [Hc Hk]. split; [exact Hc|]. by apply IH.
Qed.

Lemma interference_commits s c : interference names s c -> rtc (commits names) (committed s) c.
Proof. unfold interference. destruct (tx s) as [[[] o]|]; [by intros ->|done..]. Qed.

Lemma wp_sound {A} (p p' : prog migE A) Q s s' :
  wp p Q s -> rtc (config_step names) (p, s) (p', s') ->
  rtc (commits names) (committed s) (committed s') /\ forall a, p' = Ret a -> Q a s'.
Proof.
  intros Hp Hr. remember (p, s) as from eqn:Ef. remember (p', s') as to eqn:Et. revert p s Ef Hp.
  induction Hr as [y|y z w Hy Hr IH]; intros p s -> Hp.
  - injection Et as -> ->. split; [done|]. by intros a ->.
  - inversion Hy as [X e k s0 c x s1 Hi He]; subst. destruct (Hp _ _ _ Hi He) as [Hc Hk].
    destruct (IH eq_refl _ _ eq_refl Hk) as [Hcs Hq]. split; [|exact Hq].
    etrans; [by apply interference_commits|]. by etrans.
Qed.

(** What is committed: the first migrations of the list, each with its script. *)
Definition consistent (c : store) : Prop :=
  versions c `prefix_of` names /\ Forall2 (fun name sql => contents name = inl sql) (versions c) (history c).

Lemma commits_consistent c c' : commits names c c' -> consistent c -> consistent c'.
Proof.
  intros [c0|c0 name sql Hp Hs] [Hv Hh]; split; [exact Hv|exact Hh|exact Hp|]. cbn. apply Forall2_app; [exact Hh|]. by repeat constructor.
Qed.

(** The first [i] migrations are committed. *)
Definition reached (i : nat) (c : store) : Prop := consistent c /\ (i <= length (versions c))%nat.

Lemma commits_reached i c c' : rtc (commits names) c c' -> reached i c -> reached i c'.
Proof.
  induction 1 as [c|c c1 c2 Hc Hr IH]; [done|]. intros [Hv Hi]. apply IH. split; [by eapply commits_consistent|].
  destruct Hc as [c0|c0 name sql Hp Hs]; cbn; [exact Hi|]. rewrite length_app. cbn. lia.
Qed.

Lemma reached_elem i c name : names !! i = Some name -> reached i c -> name ∈ versions c -> reached (S i) c.
Proof.
  intros Hn [[[rest Hv] Hh] Hi] Hin. split; [by split; [exists rest|]|].
  apply list_elem_of_lookup in Hin as [j Hj].
  assert (names !! j = Some name) as Hj' by (rewrite Hv; by apply lookup_app_l_Some).
  pose proof (NoDup_lookup _ _ _ _ Hdistinct Hn Hj') as ->. apply lookup_lt_Some in Hj. lia.
Qed.

Lemma reached_new i c name : names !! i = Some name -> reached i c -> name ∉ versions c ->
  versions c ++ [name] `prefix_of` names.
Proof.
  intros Hn [[[rest Hv] Hh] Hi] Hnew. rewrite Hv in Hn. destruct (decide (i < length (versions c))%nat) as [Hlt|Hge].
  - rewrite lookup_app_l in Hn by done. by apply list_elem_of_lookup_2 in Hn.
  - rewrite lookup_app_r in Hn by lia. replace (i - length (versions c))%nat with 0%nat in Hn by lia.
    destruct rest as [|x rest]; [done|]. injection Hn as ->. rewrite Hv. exists rest. by rewrite <- app_assoc.
Qed.

(** A transaction before it has the lock, and while it holds it: nobody else commits. *)
Definition waiting (c : store) : Session := {| committed := c; tx := Some {| locked := false; own := no_changes |} |}.
Definition held (c changes : store) : Session := {| committed := c; tx := Some {| locked := true; own := changes |} |}.

(** What a transaction leaves behind: one more migration, or an error. *)
Definition settled {A} (i : nat) (r : result A) (s : Session) : Prop :=
  reached i (committed s) /\ (is_ok r = true -> reached (S i) (committed s)).

Lemma wp_ok {A B} (p : prog migE (result A)) (f : A -> prog migE (result B)) i s :
  wp p (fun r s => match r with inl a => wp (f a) (settled i) s | inr _ => reached i (committed s) end) s ->
  wp (pbind_ok p f) (settled i) s.
Proof. intros Hp. apply wp_bind. eapply wp_weaken; [exact Hp|]. intros [a|err] s' Hs; [exact Hs|]. by split. Qed.

(** A statement under the lock. *)
Lemma wp_held {B} q i c o o' (f : unit -> prog migE (result B)) :
  (forall s', statement_step q (held c o) s' -> s' = held c o') -> reached i c ->
  wp (f tt) (settled i) (held c o') -> wp (pbind_ok (exec_statement q) f) (settled i) (held c o).
Proof.
  intros Hq Hr Hf c' x s' Hi He. cbn in Hi. subst c'. destruct x as [err|]; cbn in He.
  - subst s'. split; [done|]. by split.
  - apply Hq in He as ->. by split.
Qed.

Lemma wp_commit i c o : reached i c -> rtc (commits names) c (with_changes c o) -> reached (S i) (with_changes c o) ->
  wp commit (settled i) (held c o).
Proof.
  intros Hr Hc Hn c' x s' Hi He. cbn in Hi. subst c'. destruct He as [->|[Hx ->]]; (split; [done|]).
  - split; [by eapply commits_reached|done].
  - by destruct x.
Qed.

Lemma wp_migrate i c name sql : names !! i = Some name -> reached i c -> contents name = inl sql -> name ∉ versions c ->
  wp (let!? _ := exec_statement (InsertVersion name) in commit) (settled i) (held c (Store true [] [sql])).
Proof.
  intros Hn Hr Hsql Hnew. assert (commits names c (with_changes c (Store true [name] [sql]))) as Hc.
  { unfold with_changes. cbn. rewrite orb_true_r. by apply commits_next; [eapply reached_new|]. }
  apply (wp_held _ _ _ _ (Store true [name] [sql])); [by intros s' (_ & _ & ->)|done|].
  apply wp_commit; [done|by apply rtc_once|]. split; [eapply commits_consistent; [exact Hc|apply Hr]|].
  cbn. rewrite length_app. destruct Hr as [_ Hi]. cbn. lia.
Qed.

Lemma wp_apply_once i name c : names !! i = Some name -> reached i c -> wp (apply_once name) (settled i) (waiting c).
Proof.
  intros Hn Hr c1 x s' Hi He. apply (commits_reached i) in Hi; [|done]. split; [destruct x; cbn in He; by subst s'|].
  destruct x as [err|]; cbn in He; subst s'; [by split|]. clear Hr. rename Hi into Hr. cbn [check pbind].
  apply (wp_held _ _ _ _ (Store true [] [])); [by intros s' ->|done|].
  intros c2 b s' Hi He. cbn in Hi. subst c2. destruct He as [-> Hb]. split; [done|]. destruct b as [b|err]; [|by split].
  destruct Hb as [_ ->]. cbn [versions view tx with_changes own committed held]. rewrite app_nil_r.
  destruct (bool_decide_reflect (name ∈ versions c1)) as [Hin|Hnew].
  - assert (rtc (commits names) c1 (with_changes c1 (Store true [] []))) as Hc.
    { apply rtc_once. unfold with_changes. cbn. rewrite orb_true_r, !app_nil_r. constructor. }
    apply wp_commit; [done..|]. apply (commits_reached _ c1); [done|]. by eapply reached_elem.
  - destruct (contents name) as [sql|err] eqn:Hsql; [|by split].
    apply wp_ok. intros c2 r s' Hi He. cbn in Hi. subst c2. destruct r as [err|]; cbn in He; subst s'; (split; [done|]); [done|].
    by apply wp_migrate.
Qed.

Lemma wp_runOne i name c : names !! i = Some name -> reached i c ->
  wp (runOne name) (fun r s => tx s = None /\ settled i r s) (no_tx c).
Proof.
  intros Hn Hr c1 x s' Hi He. apply (commits_reached i) in Hi; [|done]. cbn in He. subst s'.
  destruct x as [err|]; (split; [done|]); [by split; [|split]|]. cbn [pbind]. apply wp_bind.
  eapply wp_weaken; [by eapply wp_apply_once|]. intros r s [Hs Hok] c2 u s' Hi2 He. cbn in He. subst s'. split; [done|].
  apply interference_commits in Hi2. split; [done|]. split; [by eapply commits_reached|].
  intros Hr'. eapply commits_reached; [exact Hi2|by apply Hok].
Qed.

Lemma wp_run_all i rest c : drop i names = rest -> reached i c ->
  wp (run_all rest) (fun r s => is_ok r = true -> reached (length names) (committed s)) (no_tx c).
Proof.
  revert i c. induction rest as [|name rest IH]; intros i c Hd Hr.
  - intros _. cbn [committed no_tx]. assert (length names <= i)%nat as Hl.
    { apply (f_equal length) in Hd. rewrite length_drop in Hd. cbn in Hd. lia. }
    destruct Hr as [Hc Hi]. split; [exact Hc|lia].
  - assert (names !! i = Some name) as Hn by (rewrite <- (Nat.add_0_r i), <- lookup_drop, Hd; done).
    apply wp_bind. eapply wp_weaken; [by apply (wp_runOne i)|]. intros [[]|err] [c' t] [Ht [_ Hok]]; [|done].
    cbn in Ht. subst t. apply (IH (S i)); [|by apply Hok]. replace (S i) with (i + 1)%nat by lia. by rewrite <- drop_drop, Hd.
Qed.
End Guarantee.

(** ** The migrations of a database *)

(** C12: whatever fails, wherever an instance stops and however many of them start
    together, the database holds at all times the first migrations in the order of
    their names, each with its version and the effect of its script once; what an
    instance commits is what it expects of the others; and when [Run] returns without
    an error, all of them are there. *)
Theorem migrations_applied_in_order names s p s' (Hnames : migrationNames = inl names) (Hdistinct : NoDup names)
    (Hidle : tx s = None) (Hstart : consistent names (committed s))
    (Hsteps : rtc (config_step names) (Run, s) (p, s')) :
  consistent names (committed s') /\ rtc (commits names) (committed s) (committed s')
  /\ (p = Ret (inl tt) -> versions (committed s') = names).
Proof.
  destruct s as [c t]. cbn in Hidle, Hstart. subst t.
  assert (wp names Run (fun r s => is_ok r = true -> reached names (length names) (committed s)) (no_tx c)) as Hwp.
  { unfold Run. rewrite Hnames. apply (wp_run_all _ Hdistinct 0); [done|]. split; [exact Hstart|lia]. }
  destruct (wp_sound _ _ _ _ _ _ Hwp Hsteps) as [Hc Hend].
  destruct (commits_reached names 0 _ _ Hc) as [Hcons _]; [by split; [|lia]|]. split; [exact Hcons|]. split; [exact Hc|].
  intros Hp. destruct (Hend _ Hp eq_refl) as [[[rest Hv] _] Hl].
  rewrite Hv, length_app in Hl. destruct rest as [|x rest]; [by rewrite app_nil_r in Hv|cbn in Hl; lia].
Qed.

(** ** A database without faults

    The other instances commit while this one waits for the lock. *)

Definition waits (s : Session) : bool := match tx s with Some {| locked := true |} => false | _ => true end.

Definition healthy (others : store -> store) : handler migE Session := fun X e s =>
  match e in migE X return X * Session with
  | XBegin => (None, {| committed := committed s; tx := Some {| locked := false; own := no_changes |} |})
  | XExec (Lock _) =>
      (None, {| committed := if waits s then others (committed s) else committed s;
                tx := (fun t => {| locked := true; own := own t |}) <$> tx s |})
  | XExec CreateVersions => (None, add_change (Store true [] []) s)
  | XExec (Script sql) => (None, add_change (Store false [] [sql]) s)
  | XExec (InsertVersion version) =>
      if table (view s) && bool_decide (version ∉ versions (view s)) then (None, add_change (Store false [version] []) s)
      else (Some (ErrText "insert failed"), s)
  | XExists version =>
      (if table (view s) then inl (bool_decide (version ∈ versions (view s))) else inr (ErrText "no such table"), s)
  | XCommit => (None, no_tx (view s))
  | XRollback => (tt, no_tx (committed s))
  end.

Section Healthy.
Context (names : list str) (others : store -> store) (Hothers : forall c, rtc (commits names) c (others c)).

Lemma healthy_step X (e : migE X) s :
  exists c, interference names s c /\ effect e {| committed := c; tx := tx s |} (healthy others X e s).2 (healthy others X e s).1.
Proof.
  assert (interference names s (committed s)) as Hsame by (unfold interference; by destruct (tx s) as [[[] o]|]).
  assert ({| committed := committed s; tx := tx s |} = s) as Es by by destruct s.
  destruct e as [|[sql| |sql|version]|version| |].
  2: { destruct (waits s) eqn:Ew; [exists (others (committed s))|exists (committed s)]; (split; [|by cbn; rewrite Ew]); [|done].
       unfold waits in Ew. unfold interference. by destruct (tx s) as [[[] o]|]. }
  all: exists (committed s); split; [exact Hsame|]; rewrite Es; cbn; try by auto.
  - destruct (table (view s)) eqn:Et; cbn; [|done]. case_bool_decide; cbn; auto.
  - destruct (table (view s)); auto.
Qed.

Lemma healthy_steps {A} (p : prog migE A) s a tr s' :
  exec (healthy others) p s = (a, tr, s') -> rtc (config_step names) (p, s) (Ret a, s').
Proof.
  revert s tr. induction p as [b|X e k IH]; intros s tr Hx; cbn in Hx; [injection Hx as -> _ ->; done|].
  destruct (healthy_step X e s) as (c & Hi & He). destruct (healthy others X e s) as [x s1].
  destruct (exec (healthy others) (k x) s1) as [[a1 tr1] s2] eqn:Hk. injection Hx as -> _ ->.
  eapply rtc_l; [by eapply step_call|]. by eapply IH.
Qed.
End Healthy.
End Migrations.

Module MigrationsDemo.
Definition demo_entries : result (list DirEntry) :=
  inl [{| EntryName := lit "002_owners.sql"; IsDir := false |}; {| EntryName := lit "001_tables.sql"; IsDir := false |};
       {| EntryName := lit "archive"; IsDir := true |}; {| EntryName := lit "README.md"; IsDir := false |}].
Definition demo_contents (name : str) : result str := inl (lit "-- " ++ name).
Definition demo_names : list str := [lit "001_tables.sql"; lit "002_owners.sql"].

(** Another instance applies the first migration as soon as the database is empty. *)
Definition demo_others (c : store) : store :=
  match versions c, history c with
  | [], [] => Store true [lit "001_tables.sql"] [lit "-- 001_tables.sql"]
  | _, _ => c
  end.

Lemma demo_others_commit c : rtc (commits demo_contents demo_names) c (demo_others c).
Proof.
  unfold demo_others. destruct c as [b [|v vs] [|q qs]]; try done. apply rtc_once.
  apply (commits_next _ _ (Store b [] []) (lit "001_tables.sql")); [|done]. by exists [lit "002_owners.sql"].
Qed.

Lemma migrations_applied_in_order_witness :
  exists s', rtc (config_step demo_contents demo_names) (Run demo_entries demo_contents, no_tx no_changes) (Ret (inl tt), s')
    /\ versions (committed s') = demo_names /\ history (committed s') = [lit "-- 001_tables.sql"; lit "-- 002_owners.sql"].
Proof.
  destruct (exec (healthy demo_others) (Run demo_entries demo_contents) (no_tx no_changes)) as [[r tr] s'] eqn:Ex.
  pose proof (healthy_steps _ _ _ demo_others_commit _ _ _ _ _ Ex) as Hsteps.
  assert (r = inl tt) as -> by (change r with ((r, tr, s').1.1); rewrite <- Ex; vm_compute; reflexivity).
  assert (history (committed s') = [lit "-- 001_tables.sql"; lit "-- 002_owners.sql"]) as Hh
    by (pose proof (f_equal snd Ex) as Es; cbn [snd] in Es; rewrite <- Es; vm_compute; reflexivity).
  exists s'. split; [exact Hsteps|]. split; [|exact Hh].
  refine (proj2 (proj2 (migrations_applied_in_order _ _ _ _ _ _ _ _ _ _ Hsteps)) eq_refl);
    [vm_compute; reflexivity|by apply (bool_decide_unpack _); vm_compute|done|].
  split; [by exists demo_names|constructor].
Defined.
End MigrationsDemo.
