(* ===== verification/Notifications.v ===== *)
(** * internal/notifications: messages about deployments

    notifications.go, slack.go and resend.go: the text of a message, with secrets
    redacted and its length bounded, and the requests that send it to the channels
    that are configured.  The services answer the call [CPost]; the time limit of
    a request is left out.  The runner's call [CNotifyDeployment] is
    [Multi_NotifyDeployment] of the channels that main.go configures. *)

From S2P Require Import Prelude GoStrings GoStringsFacts GoRegexp GoJson GoNet StringUtil Db.
From S2P Require Import RemoteSteps ProxyCommands Effects Runner.

Definition maxNotificationFieldLength : nat := 1000.
Definition maxNotificationTextLength : nat := N.to_nat 4000.
Definition maxSnippetLength : nat := 512.

(** ** Text *)

Definition truncateWithMarker (value : str) (limit : nat) : str :=
  if (limit =? 0)%nat || (length value <=? limit)%nat then value
  else
    let marker := lit "..." in
    if (limit <=? length marker)%nat then take limit value
    else take (limit - length marker) value ++ marker.

Section Text.
Context `{UnicodeTables}.

Definition notificationField (value : str) : str :=
  truncateWithMarker (RedactSensitiveText (TrimSpace value)) maxNotificationFieldLength.

Definition optional_line (label value : str) : list str := if value =s [] then [] else [label ++ notificationField value].

Definition deploymentText (event : DeploymentEvent.t) : str :=
  let parts :=
    Sprintf (lit "Deployment %s for %s on %s")
      [DeploymentEvent.Status event; notificationField (DeploymentEvent.ApplicationName event);
       notificationField (DeploymentEvent.ServerName event)]
    :: optional_line (lit "trigger: ") (DeploymentEvent.Trigger event)
    ++ optional_line (lit "commit: ") (DeploymentEvent.CommitSHA event)
    ++ optional_line (lit "deployment: ") (DeploymentEvent.DeploymentID event)
    ++ optional_line (lit "error: ") (DeploymentEvent.Error event) in
  truncateWithMarker (Join parts newline) maxNotificationTextLength.

Definition deploymentSubject (event : DeploymentEvent.t) : str :=
  Sprintf (lit "Deployment %s: %s")
    [notificationField (DeploymentEvent.Status event); notificationField (DeploymentEvent.ApplicationName event)].
End Text.

(** ** Requests *)

(** A POST with a JSON body; the empty authorization is no header. *)
Record Post := { PostURL : str; Authorization : str; PostBody : json }.
(** A response: the bytes of the body until its end, or until a read fails. *)
Record PostResponse := { PostStatus : Z; BodyBytes : str; BodyFails : bool }.

Inductive postE : Type -> Type :=
| CPost (request : Post) : postE (result PostResponse).

Section Requests.
Context `{UnicodeTables}.

(** [io.ReadAll] of the first 512 bytes. *)
Definition responseBodySnippet (response : PostResponse) : str :=
  if BodyFails response && (length (BodyBytes response) <? maxSnippetLength)%nat then []
  else RedactSensitiveText (take maxSnippetLength (BodyBytes response)).

Definition response_error (response : PostResponse) : option goerror :=
  if (PostStatus response <? 200)%Z || (299 <? PostStatus response)%Z then
    let message := TrimSpace (responseBodySnippet response) in
    let failed := lit "notification request failed with status " ++ fmt_d (PostStatus response) in
    Some (ErrText (if message =s [] then failed else failed ++ lit ": " ++ message))
  else None.

Definition doJSON (request : Post) : prog postE (option goerror) :=
  let! response := call (CPost request) in
  Ret (match response with inr err => Some err | inl response => response_error response end).

(** [http.NewRequestWithContext] refuses an address that does not parse. *)
Definition post_json (url authorization : str) (body : json) : prog postE (option goerror) :=
  match url_Parse url with
  | None => Ret (Some (ErrText "parse url"))
  | Some _ => doJSON {| PostURL := url; Authorization := authorization; PostBody := body |}
  end.
End Requests.

(** ** Channels *)

Module Slack.
Record t := mk { WebhookURL : str }.
End Slack.
Module Resend.
Record t := mk { APIKey : str; From : str; To : str; APIEndpoint : str }.
End Resend.

Inductive Notifier := Noop | ToSlack (s : Slack.t) | ToResend (r : Resend.t).

Section Channels.
Context `{UnicodeTables}.

Definition Slack_NotifyDeployment (s : Slack.t) (event : DeploymentEvent.t) : prog postE (option goerror) :=
  let webhookURL := TrimSpace (Slack.WebhookURL s) in
  if webhookURL =s [] then Ret None
  else post_json webhookURL [] (JObj [(lit "text", JStr (deploymentText event))]).

Definition Resend_NotifyDeployment (r : Resend.t) (event : DeploymentEvent.t) : prog postE (option goerror) :=
  let apiKey := TrimSpace (Resend.APIKey r) in
  let from := TrimSpace (Resend.From r) in
  let to := TrimSpace (Resend.To r) in
  if (apiKey =s []) || (from =s []) || (to =s []) then Ret None
  else
    let endpoint := TrimSpace (Resend.APIEndpoint r) in
    let endpoint := if endpoint =s [] then lit "https://api.resend.com/emails" else endpoint in
    post_json endpoint (lit "Bearer " ++ apiKey)
      (JObj [(lit "from", JStr from); (lit "subject", JStr (deploymentSubject event));
             (lit "text", JStr (deploymentText event)); (lit "to", JArr [JStr to])]).

Definition NotifyDeployment (n : Notifier) (event : DeploymentEvent.t) : prog postE (option goerror) :=
  match n with
  | Noop => Ret None
  | ToSlack s => Slack_NotifyDeployment s event
  | ToResend r => Resend_NotifyDeployment r event
  end.

(** [errors.Join] *)
Definition errors_Join (errs : list goerror) : option goerror :=
  match errs with [] => None | _ => Some (ErrText (Join (map Error errs) newline)) end.

(** A channel may be nil. *)
Fixpoint notify_all (m : list (option Notifier)) (event : DeploymentEvent.t) : prog postE (list goerror) :=
  match m with
  | [] => Ret []
  | None :: rest => notify_all rest event
  | Some notifier :: rest =>
      let! err := NotifyDeployment notifier event in
      let! errs := notify_all rest event in
      Ret (match err with Some err => err :: errs | None => errs end)
  end.

Definition Multi_NotifyDeployment (m : list (option Notifier)) (event : DeploymentEvent.t) : prog postE (option goerror) :=
  let! errs := notify_all m event in Ret (errors_Join errs).

(** ** What is sent *)

Lemma truncate_bound value limit : (0 < limit)%nat -> (length (truncateWithMarker value limit) <= limit)%nat.
Proof.
  intros Hl. unfold truncateWithMarker. destruct (Nat.eqb_spec limit 0); [lia|]. cbn [orb].
  destruct (Nat.leb_spec (length value) limit); [done|]. destruct (Nat.leb_spec limit (length (lit "...")));
  [|rewrite length_app]; rewrite length_take; cbn in *; lia.
Qed.

(** The request of a channel that is configured. *)
Definition slack_request (s : Slack.t) (event : DeploymentEvent.t) : Post :=
  {| PostURL := TrimSpace (Slack.WebhookURL s); Authorization := [];
     PostBody := JObj [(lit "text", JStr (deploymentText event))] |}.
Definition resend_request (r : Resend.t) (event : DeploymentEvent.t) : Post :=
  {| PostURL := (if TrimSpace (Resend.APIEndpoint r) =s [] then lit "https://api.resend.com/emails"
                 else TrimSpace (Resend.APIEndpoint r));
     Authorization := lit "Bearer " ++ TrimSpace (Resend.APIKey r);
     PostBody := JObj [(lit "from", JStr (TrimSpace (Resend.From r))); (lit "subject", JStr (deploymentSubject event));
       (lit "text", JStr (deploymentText event)); (lit "to", JArr [JStr (TrimSpace (Resend.To r))])] |}.

Definition configured (n : Notifier) (event : DeploymentEvent.t) : option Post :=
  match n with
  | Noop => None
  | ToSlack s => if TrimSpace (Slack.WebhookURL s) =s [] then None else Some (slack_request s event)
  | ToResend r =>
      if (TrimSpace (Resend.APIKey r) =s []) || (TrimSpace (Resend.From r) =s []) || (TrimSpace (Resend.To r) =s []) then None
      else Some (resend_request r event)
  end.
Definition well_addressed (p : Post) : bool := is_some (url_Parse (PostURL p)).

(** The requests that were sent, and the answers that report a failure. *)
Definition sent_post (ev : event postE) : option Post := match ev with Ev (CPost request) _ => Some request end.
Definition refused (ev : event postE) : bool :=
  match ev with
  | @Ev _ X e x => match e in postE X return X -> bool with
                   | CPost _ => fun r => match r with inr _ => true | inl response => is_some (response_error response) end
                   end x
  end.

Lemma post_json_runs url authorization body tr err : runs (post_json url authorization body) tr err ->
  match url_Parse url with
  | None => tr = [] /\ is_some err = true
  | Some _ => exists ev, tr = [ev] /\ sent_post ev = Some {| PostURL := url; Authorization := authorization; PostBody := body |}
               /\ is_some err = refused ev
  end.
Proof.
  unfold post_json. destruct (url_Parse url); [|by intros [-> ->]]. intros (x & tr' & -> & -> & ->).
  eexists. split; [done|]. split; [done|]. by destruct x.
Qed.

Definition one_message (n : Notifier) (event : DeploymentEvent.t) (tr : list (Effects.event postE)) (err : option goerror) : Prop :=
  match configured n event with
  | None => tr = [] /\ err = None
  | Some post => if well_addressed post then exists ev, tr = [ev] /\ sent_post ev = Some post /\ is_some err = refused ev
                 else tr = [] /\ is_some err = true
  end.

Lemma NotifyDeployment_runs n event tr err : runs (NotifyDeployment n event) tr err -> one_message n event tr err.
Proof.
  unfold one_message, well_addressed. destruct n as [|s|r]; cbn [NotifyDeployment configured]; [done|..].
  - unfold Slack_NotifyDeployment. destruct (TrimSpace _ =s []); [done|]. intros Hr%post_json_runs. cbn [PostURL slack_request].
    by destruct (url_Parse _).
  - unfold Resend_NotifyDeployment. destruct ((_ =s []) || _ || _); [done|]. intros Hr%post_json_runs.
    cbn [PostURL resend_request]. by destruct (url_Parse _).
Qed.

Definition channels (m : list (option Notifier)) : list Notifier := omap id m.
Definition posts (m : list (option Notifier)) (event : DeploymentEvent.t) : list Post :=
  omap (fun n => configured n event) (channels m).

Lemma notify_all_runs m event tr errs : runs (notify_all m event) tr errs ->
  omap sent_post tr = List.filter well_addressed (posts m event)
  /\ (errs = [] <-> forallb well_addressed (posts m event) = true /\ existsb refused tr = false).
Proof.
  revert tr errs. induction m as [|[n|] m IH]; intros tr errs; [by intros [-> ->]| |apply IH].
  cbn [notify_all]. intros (tr1 & err & tr2 & -> & Hn%NotifyDeployment_runs & Hr)%runs_bind.
  apply runs_bind in Hr as (tr3 & rest & tr4 & -> & Hm & [-> ->]). apply IH in Hm as [Hp He]. rewrite app_nil_r.
  unfold posts, channels in *. cbn [omap list_omap id]. unfold one_message in Hn.
  destruct (configured n event) as [post|]; [|by destruct Hn as [-> ->]].
  cbn [List.filter forallb]. destruct (well_addressed post); cbn [andb].
  - destruct Hn as (ev & -> & Hs & Hr). cbn [app omap list_omap existsb]. rewrite Hs, Hp. split; [done|].
    destruct err as [err|]; cbn in Hr; rewrite <- Hr; cbn [orb]; [by split; [|intros [_ [=]]]|exact He].
  - destruct Hn as [-> Hr]. destruct err as [err|]; [|done]. split; [exact Hp|]. by split; [|intros [[=] _]].
Qed.

Lemma configured_text n event post : configured n event = Some post ->
  exists fields, PostBody post = JObj fields /\ (lit "text", JStr (deploymentText event)) ∈ fields.
Proof.
  destruct n as [|s|r]; cbn [configured]; [done|..]; (case_match; [done|]); intros [= <-]; eexists; (split; [reflexivity|]);
    set_solver.
Qed.

(** C39: a notification goes to every channel that is configured, once and in order,
    whatever the channels before it answer; its text is the message of the event, at
    most 4000 bytes long; and the caller gets an error exactly when a channel could
    not be addressed or did not answer with success. *)
Theorem notifications_independent m event tr err (Hrun : runs (Multi_NotifyDeployment m event) tr err) :
  omap sent_post tr = List.filter well_addressed (posts m event)
  /\ (forall post, post ∈ omap sent_post tr -> exists fields, PostBody post = JObj fields
        /\ (lit "text", JStr (deploymentText event)) ∈ fields)
  /\ (length (deploymentText event) <= 4000)%nat
  /\ (err = None <-> forallb well_addressed (posts m event) = true /\ existsb refused tr = false).
Proof.
  apply runs_bind in Hrun as (tr1 & errs & tr2 & -> & Hr & [-> ->]). rewrite app_nil_r.
  apply notify_all_runs in Hr as [Hp He]. split; [exact Hp|]. split; [|split].
  - rewrite Hp. intros post Hin. apply list_elem_of_In, filter_In in Hin as [Hin _]. apply list_elem_of_In in Hin.
    unfold posts in Hin. apply list_elem_of_omap in Hin as (n & _ & Hn). by eapply configured_text.
  - apply truncate_bound. cbn. lia.
  - rewrite <- He. by destruct errs.
Qed.
End Channels.

Module NotificationsDemo.
#[local] Existing Instance ascii_tables.

Definition demo_event : DeploymentEvent.t :=
  DeploymentEvent.mk (lit "d1") (lit "api") (lit "prod-1") (lit "failed") (lit "manual") [] (lit "push with ghp_abcdef refused").
Definition demo_channels : list (option Notifier) :=
  [Some (ToSlack (Slack.mk (lit " https://hooks.example/s "))); None; Some Noop;
   Some (ToResend (Resend.mk (lit "key") (lit "a@example.com") (lit "b@example.com") []))].

(** Slack refuses the message, Resend takes it. *)
Definition demo_services : handler postE unit := fun X e s =>
  match e in postE X return X * unit with
  | CPost request =>
      (inl {| PostStatus := if HasPrefix (PostURL request) (lit "https://hooks") then 400 else 202;
              BodyBytes := lit "invalid webhook"; BodyFails := false |}, s)
  end.

Example demo_text : deploymentText demo_event =
  Join (map (fun s : string => lit s)
    ["Deployment failed for api on prod-1"; "trigger: manual"; "deployment: d1"; "error: push with [redacted] refused"]%string) newline.
Proof. vm_compute. reflexivity. Qed.

Lemma notifications_independent_witness :
  exists tr err, runs (Multi_NotifyDeployment demo_channels demo_event) tr (Some err)
    /\ length (omap sent_post tr) = 2%nat /\ Error err = lit "notification request failed with status 400: invalid webhook".
Proof.
  destruct (exec demo_services (Multi_NotifyDeployment demo_channels demo_event) tt) as [[r tr] u] eqn:Ex.
  pose proof (exec_runs _ _ _ _ _ _ Ex) as Hr. pose proof (f_equal (fun p => p.1.1) Ex) as Er. cbn [fst] in Er.
  destruct r as [err|]; [|by vm_compute in Er]. exists tr, err. split; [exact Hr|]. split.
  - rewrite (proj1 (notifications_independent _ _ _ _ Hr)). vm_compute. reflexivity.
  - apply (f_equal (fun o => default [] (Error <$> o))) in Er. cbn [fmap option_fmap option_map default id] in Er.
    rewrite <- Er. vm_compute. reflexivity.
Defined.
End NotificationsDemo.
