(* ===== verification/SshUtil.v ===== *)
(** * internal/sshutil: running commands on a server, and its health

    client.go, health.go, signer.go and casigner.go.  A client runs a command through a
    local shell, a container on the host of the API server, the tailscale command, or an
    SSH session; processes and connections answer the calls of [execE], and what a
    process writes arrives in chunks.  The call [CRun] of the other files is [Run].
    Keys, certificates and sessions are golang.org/x/crypto/ssh, and so are the callbacks
    that check host keys, which are left out with the time limits. *)

From Stdlib Require Import SpecFloat.
From S2P Require Import Prelude GoStrings GoStringsFacts GoRegexp GoJson GoFloat GoNet StringUtil.
From S2P Require Import Db DbHttp RemoteSteps ProxyCommands Effects Runner GoHttp HttpServers.

Definition maxSSHOutputBytes : nat := N.to_nat 1048576.
Definition maxSSHInputBytes : nat := N.to_nat 16384.

(** ** Output (cappedBuffer) *)

Record cappedBuffer := { buf : str; limit : nat }.

(** The buffer after a write, and the number of bytes the writer is told. *)
Definition Write (p : str) (b : cappedBuffer) : nat * cappedBuffer :=
  let remaining := (limit b - length (buf b))%nat in
  (length p, {| buf := buf b ++ take remaining p; limit := limit b |}).

Definition write_all (chunks : list str) (b : cappedBuffer) : cappedBuffer := fold_left (fun b p => (Write p b).2) chunks b.
Definition captured (chunks : list str) : str := buf (write_all chunks {| buf := []; limit := maxSSHOutputBytes |}).

Lemma write_all_spec chunks b : (length (buf b) <= limit b)%nat ->
  write_all chunks b = {| buf := take (limit b) (buf b ++ concat chunks); limit := limit b |}.
Proof.
  revert b. induction chunks as [|p chunks IH]; intros b Hb.
  - cbn. rewrite app_nil_r, take_ge by done. by destruct b.
  - change (write_all chunks (Write p b).2 = {| buf := take (limit b) (buf b ++ concat (p :: chunks)); limit := limit b |}).
    rewrite IH; cbn [Write snd buf limit concat]; [|rewrite length_app, length_take; lia]. f_equal.
    rewrite <- (app_assoc (buf b)), !(take_app (buf b)). f_equal. set (r := (limit b - length (buf b))%nat).
    rewrite !take_app, take_take, Nat.min_id, length_take. f_equal. f_equal. lia.
Qed.

(** ** Commands *)

(** A process writes chunks and ends, perhaps with an error. *)
Inductive execE : Type -> Type :=
| EShell (command input : str) : execE (list str * option goerror)                  (* sh -lc *)
| ETailscale (destination command input : str) : execE (list str * option goerror)  (* tailscale ssh *)
| EDial (user address : str) : execE (option goerror)
| ESession : execE (option goerror)
| ESessionRun (command input : str) : execE (result (list str * option goerror))     (* inr: the error of the context *)
| EReadKey (path : str) : execE (option goerror)
| EStatus : execE (result str).                                                      (* tailscale status --json *)

Section Run.
Context `{UnicodeTables} `{SshLib}.

Definition runLocalShell (command input : str) : prog execE (str * option goerror) :=
  if TrimSpace command =s [] then Ret ([], Some (ErrText "shell command is required"))
  else let! (chunks, err) := call (EShell command input) in Ret (captured chunks, err).

Definition quotes_of (s : str) : str := ReplaceAll s (lit "@") dquote.

(** The container that runs a command as a user of the host; %s is the quoted user, the
    option for the standard input, and the quoted command. *)
Definition host_command : str :=
  lit "docker image inspect deploy-manager-host-runner:proxy-v2 >/dev/null 2>&1 || docker build -t deploy-manager-host-runner:proxy-v2 - <<'EOF'
FROM alpine:3.23
RUN apk add --no-cache bash python3 git openssh-client curl docker-cli docker-cli-compose
EOF
" ++ lit "target_user=%s
" ++ quotes_of (lit "user_id=$(docker run --rm -e TARGET_USER=@$target_user@ -v /etc/passwd:/host/passwd:ro deploy-manager-host-runner:proxy-v2 sh -lc 'awk -F: -v user=@$TARGET_USER@ '\''$1 == user { print $3 @:@ $4 }'\'' /host/passwd')
deployers_group=$(docker run --rm -v /etc/group:/host/group:ro deploy-manager-host-runner:proxy-v2 sh -lc 'awk -F: '\''$1 == @deployers@ { print $3 }'\'' /host/group')
docker_group=$(docker run --rm -v /etc/group:/host/group:ro deploy-manager-host-runner:proxy-v2 sh -lc 'awk -F: '\''$1 == @docker@ { print $3 }'\'' /host/group')
[ -n @$user_id@ ] || { echo @host user not found: $target_user@ >&2; exit 1; }
[ -n @$deployers_group@ ] || { echo @host group not found: deployers@ >&2; exit 1; }
[ -n @$docker_group@ ] || { echo @host group not found: docker@ >&2; exit 1; }
docker run%s --rm --network host --user @$user_id@ --group-add @$deployers_group@ --group-add @$docker_group@ -e HOME=/tmp -e DOCKER_CONFIG=/docker-config -v /srv/deploy-manager:/srv/deploy-manager -v /opt/infrastructure:/opt/infrastructure -v /var/run/docker.sock:/var/run/docker.sock -v /srv/deploy-manager/control/docker-config:/docker-config:ro deploy-manager-host-runner:proxy-v2 sh -lc %s").

Definition runLocalDockerHostShell (user command input : str) : prog execE (str * option goerror) :=
  if TrimSpace command =s [] then Ret ([], Some (ErrText "shell command is required"))
  else if TrimSpace user =s [] then Ret ([], Some (ErrText "local docker host user is required"))
  else
    let interactive := if input =s [] then [] else lit " -i" in
    runLocalShell (Sprintf host_command [ShellQuote user; interactive; ShellQuote command]) input.

Definition warning_line (line : str) : bool := HasPrefix line (lit "Warning: client version ").
Definition stripTailscaleWarnings (output : str) : str :=
  Join (List.filter (fun line => negb (warning_line line)) (SplitByte "010"%char output)) newline.

Definition destination (user host : str) : str :=
  if TrimSpace user =s [] then TrimSpace host else TrimSpace user ++ lit "@" ++ TrimSpace host.

Definition validateTailscaleDestination (user host : str) : option goerror :=
  if TrimSpace user =s [] then Some (ErrText "tailscale ssh user is required") else ValidateTailscaleHost host.

Definition runTailscaleSSH (user host command input : str) : prog execE (str * option goerror) :=
  match validateTailscaleDestination user host with
  | Some err => Ret ([], Some err)
  | None =>
      if TrimSpace command =s [] then Ret ([], Some (ErrText "ssh command is required"))
      else let! (chunks, err) := call (ETailscale (destination user host) command input) in
           Ret (stripTailscaleWarnings (captured chunks), err)
  end.

(** [connect] of a client that has a signer. *)
Definition connect (host : str) (port : Z) (user : str) : prog execE (option goerror) :=
  if host =s [] then Ret (Some (ErrText "host is required"))
  else call (EDial user (JoinHostPort host (fmt_d port))).

Definition run_session (host : str) (port : Z) (user command input : str) : prog execE (str * option goerror) :=
  let! err := connect host port user in
  match err with
  | Some err => Ret ([], Some err)
  | None =>
      let! err := call ESession in
      match err with
      | Some err => Ret ([], Some err)
      | None =>
          let! ended := call (ESessionRun command input) in
          Ret (match ended with
               | inr err => ([], Some err)
               | inl (chunks, err) => (captured chunks, err)
               end)
      end
  end.

(** A client of the API server's own shell, [NewLocalClient], runs [runLocalShell]. *)
Definition client_run (c : Client) (command input : str) : prog execE (str * option goerror) :=
  match c with
  | NewLocalDockerHostClient user => runLocalDockerHostShell (TrimSpace user) command input
  | NewTailscaleSSHClient host _ user => runTailscaleSSH user host command input
  | NewClient host port user _ => run_session host port user command input
  end.

Definition Run (c : Client) (command : str) : prog execE (str * option goerror) := client_run c command [].
Definition RunWithInput (c : Client) (command input : str) : prog execE (str * option goerror) :=
  if (maxSSHInputBytes <? length input)%nat
  then Ret ([], Some (ErrText (lit "ssh command input exceeds " ++ fmt_d (Z.of_nat maxSSHInputBytes) ++ lit " bytes")))
  else client_run c command input.

(** ** Keys (signer.go) *)

(** The key is read from its path; parsing it is golang.org/x/crypto/ssh. *)
Definition FileSigner_Signer (home : option str) (keyPath : str) : prog execE (option goerror) :=
  if keyPath =s [] then Ret (Some (ErrText "ssh key path is required")) else call (EReadKey (ExpandHome home keyPath)).

(** ** Certificates (casigner.go)

    No authority is wired into the server: the validation of the settings refuses the mode
    ca.  The signature of a key pair that exists only for the connection. *)

Class SshCertificates := {
  Certificate : Type;
  ParseAuthorizedKey : str -> result (option Certificate);      (* None: a key that is no certificate *)
  NewCertSigner : Certificate -> str -> result Signer }.

Inductive caE : Type -> Type :=
| CGenerateKey : caE (result str)                                (* the private key *)
| CNewSigner (privateKey : str) : caE (result str)               (* its public key, as an authorized key *)
| CSignUserCertificate (publicKey principal : str) : caE (result str).

Definition CASigner_Signer `{SshCertificates} (configured : bool) (user : str) : prog caE (result Signer) :=
  if negb configured then Ret (inr (ErrText "ssh certificate authority is not configured"))
  else if user =s [] then Ret (inr (ErrText "ssh user (certificate principal) is required"))
  else
    let!? privateKey := call_or (lit "generate ephemeral ssh key: ") CGenerateKey in
    let!? publicKey := call_or (lit "build ephemeral signer: ") (CNewSigner privateKey) in
    let!? signed := call_or (lit "sign ssh certificate: ") (CSignUserCertificate publicKey user) in
    Ret (let? parsed := wrap_err (lit "parse signed ssh certificate: ") (ParseAuthorizedKey signed) in
         match parsed with
         | None => inr (ErrText "certificate authority did not return an ssh certificate")
         | Some certificate => wrap_err (lit "build certificate signer: ") (NewCertSigner certificate privateKey)
         end).

(** The authority is only asked for the user of the server. *)
Lemma CASigner_principal `{SshCertificates} configured user :
  only (fun X e => match e with CSignUserCertificate _ principal => principal = user /\ user <> [] | _ => True end)
    (CASigner_Signer configured user).
Proof.
  unfold CASigner_Signer. destruct configured; [|done]. destruct (user =s []) eqn:Eu; [done|]. bool_simp.
  repeat (apply only_bind_ok; [by apply only_call_or|intros ?]). done.
Qed.

(** ** The host of the API server in the tailnet *)

Definition normalizeHost (host : str) : str := TrimSuffix (Trim (ToLower (TrimSpace host)) (lit "[]")) (lit ".").

Record tailscaleSelf := { SelfHostName : str; SelfDNSName : str; SelfIPs : list str }.
Definition zeroSelf : tailscaleSelf := {| SelfHostName := []; SelfDNSName := []; SelfIPs := [] |}.

Definition set_self_field (key : str) (v : json) (s : tailscaleSelf) : result tailscaleSelf :=
  let named n := field_match n key in
  if named (lit "HostName") then
    set_string v s (fun x => {| SelfHostName := x; SelfDNSName := SelfDNSName s; SelfIPs := SelfIPs s |})
  else if named (lit "DNSName") then
    set_string v s (fun x => {| SelfHostName := SelfHostName s; SelfDNSName := x; SelfIPs := SelfIPs s |})
  else if named (lit "TailscaleIPs") then
    let? ips := unmarshal_slice unmarshal_string v in
    inl {| SelfHostName := SelfHostName s; SelfDNSName := SelfDNSName s; SelfIPs := default [] ips |}
  else inl s.

Definition decode_self (v : json) : result tailscaleSelf :=
  unmarshal_struct (fun key v s =>
    if field_match (lit "Self") key
    then match v with
         | JObj fields => set_fields set_self_field fields s
         | JNull => inl s
         | _ => inr unmarshal_error
         end
    else inl s) zeroSelf v.

Definition IsLocalTailscaleHost (host : str) : prog execE bool :=
  let host := normalizeHost host in
  if host =s [] then Ret false
  else
    let! output := call EStatus in
    Ret (match (let? output := output in let? v := Unmarshal output in decode_self v) with
         | inr _ => false
         | inl self => existsb (fun candidate => normalizeHost candidate =s host)
                         (SelfHostName self :: SelfDNSName self :: SelfIPs self)
         end).
End Run.

(** ** What a server and an observer of its processes see *)

Section Confinement.
Context `{UnicodeTables} `{SshLib}.

(** The command lines of the processes and sessions of a trace, without their input. *)
Definition command_line (ev : event execE) : option str :=
  match ev with
  | Ev (EShell command _) _ => Some (lit "sh -lc " ++ command)
  | Ev (ETailscale destination command _) _ => Some (lit "tailscale ssh " ++ destination ++ lit " " ++ command)
  | Ev (EDial user address) _ => Some (user ++ lit "@" ++ address)
  | Ev (ESessionRun command _) _ => Some command
  | _ => None
  end.

(** The same process with another input. *)
Definition with_input {X} (input : str) (e : execE X) : execE X :=
  match e in execE X return execE X with
  | EShell command _ => EShell command input
  | ETailscale destination command _ => ETailscale destination command input
  | ESessionRun command _ => ESessionRun command input
  | e => e
  end.
Definition event_with_input (input : str) (ev : event execE) : event execE :=
  match ev with Ev e x => Ev (with_input input e) x end.

Lemma command_line_with_input input ev : command_line (event_with_input input ev) = command_line ev.
Proof. by destruct ev as [X [] x]. Qed.

Lemma client_run_with_input c command i1 i2 tr r : i1 <> [] -> i2 <> [] -> runs (client_run c command i1) tr r ->
  runs (client_run c command i2) (map (event_with_input i2) tr) r.
Proof.
  intros H1%str_eqb_neq H2%str_eqb_neq. destruct c as [user|host port user|host port user signer]; cbn [client_run].
  - unfold runLocalDockerHostShell, runLocalShell. rewrite H1, H2. destruct (TrimSpace command =s []); [by intros [-> ->]|].
    destruct (TrimSpace (TrimSpace user) =s []); [by intros [-> ->]|].
    destruct (TrimSpace (Sprintf _ _) =s []); [by intros [-> ->]|].
    intros ([chunks err] & tr' & -> & -> & ->). by exists (chunks, err), [].
  - unfold runTailscaleSSH. destruct (validateTailscaleDestination _ _); [by intros [-> ->]|].
    destruct (TrimSpace command =s []); [by intros [-> ->]|].
    intros ([chunks err] & tr' & -> & -> & ->). by exists (chunks, err), [].
  - unfold run_session, connect. destruct (host =s []); [by intros [-> ->]|].
    intros ([err|] & tr' & -> & Hr); [destruct Hr as [-> ->]; by exists (Some err), []|].
    destruct Hr as ([err|] & tr2 & -> & Hr); [destruct Hr as [-> ->]; exists None; eexists; split; [done|]; by exists (Some err), []|].
    destruct Hr as (ended & tr3 & -> & -> & ->). exists None. eexists. split; [done|]. exists None. eexists. split; [done|].
    by exists ended, [].
Qed.

Lemma captured_bound chunks : (length (captured chunks) <= maxSSHOutputBytes)%nat.
Proof. unfold captured. rewrite write_all_spec by apply Nat.le_0_l. cbn [buf limit app]. rewrite length_take. lia. Qed.

Lemma length_Join l sep : length (Join l sep) = (sum_list (map length l) + length sep * (length l - 1))%nat.
Proof.
  induction l as [|x [|y l] IH]; [cbn; lia|cbn; lia|].
  change (Join (x :: y :: l) sep) with (x ++ sep ++ Join (y :: l) sep). rewrite !length_app, IH. cbn. lia.
Qed.

Lemma strip_bound s : (length (stripTailscaleWarnings s) <= length s)%nat.
Proof.
  unfold stripTailscaleWarnings. rewrite <- (Join_SplitByte "010"%char s) at 2. change ["010"%char] with newline.
  generalize (SplitByte "010"%char s) as l. intros l. rewrite !length_Join. change (length newline) with 1%nat.
  assert (sum_list (map length (List.filter (fun line => negb (warning_line line)) l)) <= sum_list (map length l)
          /\ length (List.filter (fun line => negb (warning_line line)) l) <= length l)%nat as [? ?]; [|lia].
  induction l as [|x l IH]; [done|]. cbn [List.filter map sum_list length]. destruct (negb _); cbn [map sum_list length]; lia.
Qed.

Lemma client_run_bound c command input tr r : runs (client_run c command input) tr r -> (length r.1 <= maxSSHOutputBytes)%nat.
Proof.
  destruct c as [user|host port user|host port user signer]; cbn [client_run].
  - unfold runLocalDockerHostShell, runLocalShell. repeat (case_match; [by intros [_ ->]; apply Nat.le_0_l|]).
    intros ([chunks err] & tr' & -> & -> & ->). apply captured_bound.
  - unfold runTailscaleSSH. repeat (case_match; [by intros [_ ->]; apply Nat.le_0_l|]).
    intros ([chunks err] & tr' & -> & -> & ->). cbn [fst]. etrans; [apply strip_bound|apply captured_bound].
  - unfold run_session, connect. destruct (host =s []); [by intros [_ ->]; apply Nat.le_0_l|].
    intros ([err|] & tr' & -> & Hr); [destruct Hr as [-> ->]; apply Nat.le_0_l|].
    destruct Hr as ([err|] & tr2 & -> & Hr); [destruct Hr as [-> ->]; apply Nat.le_0_l|].
    destruct Hr as ([[chunks err]|] & tr3 & -> & -> & ->); [apply captured_bound|apply Nat.le_0_l].
Qed.

(** C26: what a command is sent over its standard input never reaches a command line:
    with any other input of the accepted size the same processes are started and the
    same answers lead to the same result; an input that is too large starts nothing;
    and at most 1 MiB of output is kept whatever the process writes. *)
Theorem command_input_confined c command input tr r (Hrun : runs (RunWithInput c command input) tr r) :
  (length r.1 <= maxSSHOutputBytes)%nat
  /\ ((maxSSHInputBytes < length input)%nat -> tr = [] /\ is_some r.2 = true)
  /\ forall other, input <> [] -> other <> [] -> (length input <= maxSSHInputBytes)%nat ->
       (length other <= maxSSHInputBytes)%nat ->
       exists tr', runs (RunWithInput c command other) tr' r /\ omap command_line tr' = omap command_line tr.
Proof.
  unfold RunWithInput in *.
  destruct (Nat.ltb_spec maxSSHInputBytes (length input)) as [Hlong|Hok].
  - destruct Hrun as [-> ->]. split; [apply Nat.le_0_l|]. split; [done|]. intros other _ _ Hin. lia.
  - split; [by apply client_run_bound in Hrun|]. split; [lia|]. intros other Hi Ho _ Hlen.
    destruct (Nat.ltb_spec maxSSHInputBytes (length other)) as [Hlong|_]; [lia|].
    exists (map (event_with_input other) tr). split; [by apply (client_run_with_input c command input)|].
    clear. induction tr as [|ev tr IH]; [done|]. cbn [map omap list_omap]. rewrite command_line_with_input. by rewrite <- IH.
Qed.
End Confinement.

(** ** Health (health.go) *)

Record HealthResult := { HealthStatus : str; CPUUsage : spec_float; MemoryUsage : spec_float; DiskUsage : spec_float }.
Definition zeroHealth : HealthResult :=
  {| HealthStatus := []; CPUUsage := S754_zero false; MemoryUsage := S754_zero false; DiskUsage := S754_zero false |}.

Definition healthMetricsCommand : str := quotes_of (lit "read cpu user nice system idle iowait irq softirq steal guest guest_nice < /proc/stat
idle1=$((idle+iowait))
total1=$((user+nice+system+idle+iowait+irq+softirq+steal))
sleep 1
read cpu user nice system idle iowait irq softirq steal guest guest_nice < /proc/stat
idle2=$((idle+iowait))
total2=$((user+nice+system+idle+iowait+irq+softirq+steal))
awk -v idle1=@$idle1@ -v idle2=@$idle2@ -v total1=@$total1@ -v total2=@$total2@ 'BEGIN { total=total2-total1; idle=idle2-idle1; if (total > 0) printf @CPU %.2f\n@, (1 - idle / total) * 100; else print @CPU 0.00@ }'
free | awk '/Mem:/ { printf @MEMORY %.2f\n@, ($3 * 100) / $2 }'
df -P / | awk 'NR==2 { gsub(@%@, @@, $5); printf @DISK %.2f\n@, $5 }'").

Definition clampPercent (value : spec_float) : spec_float :=
  if SFltb value (S754_zero false) then S754_zero false
  else if SFltb (float_of_int 100) value then float_of_int 100
  else value.

Definition is_finite_float (x : spec_float) : bool := match x with S754_zero _ | S754_finite _ _ _ => true | _ => false end.

Section Health.
Context `{UnicodeTables} `{SshLib}.

(** The metrics that are read, and which of them were seen. *)
Record Metrics := { metric_values : HealthResult; saw_cpu : bool; saw_memory : bool; saw_disk : bool }.
Definition no_metrics : Metrics := {| metric_values := zeroHealth; saw_cpu := false; saw_memory := false; saw_disk := false |}.

Definition set_metric (name : str) (value : spec_float) (m : Metrics) : Metrics :=
  let r := metric_values m in
  if name =s lit "CPU" then
    {| metric_values := {| HealthStatus := HealthStatus r; CPUUsage := value; MemoryUsage := MemoryUsage r; DiskUsage := DiskUsage r |};
       saw_cpu := true; saw_memory := saw_memory m; saw_disk := saw_disk m |}
  else if name =s lit "MEMORY" then
    {| metric_values := {| HealthStatus := HealthStatus r; CPUUsage := CPUUsage r; MemoryUsage := value; DiskUsage := DiskUsage r |};
       saw_cpu := saw_cpu m; saw_memory := true; saw_disk := saw_disk m |}
  else if name =s lit "DISK" then
    {| metric_values := {| HealthStatus := HealthStatus r; CPUUsage := CPUUsage r; MemoryUsage := MemoryUsage r; DiskUsage := value |};
       saw_cpu := saw_cpu m; saw_memory := saw_memory m; saw_disk := true |}
  else m.

Definition metric_line (line : str) (m : Metrics) : result Metrics :=
  match Fields line with
  | [name; text] =>
      match ParseFloat text with
      | inr err => inr (ErrWrap (lit "parse " ++ name ++ lit " metric: ") err [])
      | inl value =>
          if is_finite_float value then inl (set_metric name (clampPercent value) m)
          else inr (ErrText (lit "parse " ++ name ++ lit " metric: value must be finite"))
      end
  | _ => inl m
  end.

Fixpoint metric_lines (lines : list str) (m : Metrics) : result Metrics :=
  match lines with
  | [] => inl m
  | line :: rest => let? m := metric_line line m in metric_lines rest m
  end.

Definition missing_metric (name : string) : goerror := ErrText (lit "missing " ++ lit name ++ lit " metric").

Definition parseHealthMetrics (output : str) : result HealthResult :=
  let? m := metric_lines (SplitByte "010"%char output) no_metrics in
  if negb (saw_cpu m) then inr (missing_metric "CPU")
  else if negb (saw_memory m) then inr (missing_metric "MEMORY")
  else if negb (saw_disk m) then inr (missing_metric "DISK")
  else inl (metric_values m).

Definition healthStatus (r : HealthResult) : str :=
  if SFleb (float_of_int 95) (CPUUsage r) || SFleb (float_of_int 90) (MemoryUsage r) || SFleb (float_of_int 90) (DiskUsage r)
  then lit "degraded" else lit "healthy".

Definition with_status (status : str) (r : HealthResult) : HealthResult :=
  {| HealthStatus := status; CPUUsage := CPUUsage r; MemoryUsage := MemoryUsage r; DiskUsage := DiskUsage r |}.

(** The result of a check, and its error. *)
Definition health_of_output (output : str) (err : option goerror) : HealthResult * option goerror :=
  match err with
  | Some err => (with_status (lit "unreachable") zeroHealth, Some err)
  | None =>
      match parseHealthMetrics output with
      | inr err => (with_status (lit "degraded") zeroHealth, Some err)
      | inl r => (with_status (healthStatus r) r, None)
      end
  end.
End Health.

Lemma clampPercent_ok x : mantissa_ok x -> mantissa_ok (clampPercent x).
Proof. unfold clampPercent. destruct (SFltb x _); [done|]. destruct (SFltb _ x); [done|auto]. Qed.

(** What is not clamped has a mantissa and an exponent of at most those of 100. *)
Lemma clamped_percent x : mantissa_ok x ->
  match clampPercent x with
  | S754_finite negative m e => negative = false /\ e <= -46 /\ Zpos m < 2 ^ 53 /\ (e = -46 -> Zpos m <= 7036874417766400)
  | _ => True
  end%Z.
Proof.
  intros Hx. unfold clampPercent. change (float_of_int 100) with (S754_finite false 7036874417766400 (-46)).
  destruct x as [s|[]| |[] m e]; try done. cbn [SFltb SFcompare].
  destruct (Z.compare_spec (-46) e) as [<-|Hlt|Hgt]; [|repeat split; lia|split; [done|]; split; [lia|]; split; [exact Hx|lia]].
  change (Pos.compare_cont Eq 7036874417766400 m) with (7036874417766400 ?= m)%positive.
  destruct (Pos.compare_spec 7036874417766400 m) as [<-|_|Hle]; (split; [done|]; split; [reflexivity || done|]).
  - split; [exact Hx|intros _; apply Z.le_refl].
  - split; [vm_compute; reflexivity|intros _; apply Z.le_refl].
  - split; [exact Hx|intros _]. by apply Pos2Z.pos_le_pos, Pos.lt_le_incl.
Qed.

Lemma hundredths_bound x : mantissa_ok x ->
  (0 <= round_half_away (SFmul prec emax (clampPercent x) (float_of_int 100)) <= 10000)%Z.
Proof.
  intros Hx%clamped_percent. change (float_of_int 100) with (S754_finite false 7036874417766400 (-46)).
  destruct (clampPercent x) as [s|s| |s m e]; [done..|]. destruct Hx as (-> & He & Hm & Heq).
  cbn [SFmul xorb]. apply round_aux_bound; [lia|]. rewrite Pos2Z.inj_mul.
  destruct (Z.eq_dec e (-46)) as [->|Hne].
  - specialize (Heq eq_refl). change (2 ^ - (-46 + -46))%Z with 4951760157141521099596496896%Z. lia.
  - apply (Z.le_trans _ (2 ^ 53 * 7036874417766400)); [lia|].
    apply (Z.le_trans _ (10000 * 2 ^ 93)); [lia|]. apply Z.mul_le_mono_nonneg_l; [lia|]. apply Z.pow_le_mono_r; lia.
Qed.

Lemma metric_line_ok `{UnicodeTables} line m m' :
  (forall r, metric_values m = r -> mantissa_ok (CPUUsage r) /\ mantissa_ok (MemoryUsage r) /\ mantissa_ok (DiskUsage r)) ->
  metric_line line m = inl m' ->
  (forall r, metric_values m' = r -> mantissa_ok (CPUUsage r) /\ mantissa_ok (MemoryUsage r) /\ mantissa_ok (DiskUsage r)).
Proof.
  intros Hm Hl r <-. unfold metric_line in Hl. destruct (Fields line) as [|name [|text [|? ?]]]; try (injection Hl as <-; by apply Hm).
  destruct (ParseFloat text) as [x|err] eqn:Ex; [|done]. destruct (is_finite_float x); [|done]. injection Hl as <-.
  apply mantissa_of_parse, clampPercent_ok in Ex. destruct (Hm _ eq_refl) as (H1 & H2 & H3). unfold set_metric.
  repeat case_match; cbn; auto.
Qed.

Lemma metrics_ok `{UnicodeTables} output r : parseHealthMetrics output = inl r ->
  mantissa_ok (CPUUsage r) /\ mantissa_ok (MemoryUsage r) /\ mantissa_ok (DiskUsage r).
Proof.
  unfold parseHealthMetrics. intros (m & Hm & Hr)%rbind_ok.
  assert (forall r, metric_values m = r -> mantissa_ok (CPUUsage r) /\ mantissa_ok (MemoryUsage r) /\ mantissa_ok (DiskUsage r)) as Hall.
  { revert Hm. assert (forall r, metric_values no_metrics = r -> mantissa_ok (CPUUsage r) /\ mantissa_ok (MemoryUsage r)
      /\ mantissa_ok (DiskUsage r)) as H0 by (by intros r0 <-). revert H0. generalize no_metrics as m0.
    induction (SplitByte "010"%char output) as [|line rest IH]; intros m0 H0; cbn [metric_lines]; [by intros [= <-]|].
    intros (m1 & H1 & H2)%rbind_ok. apply (IH m1); [|exact H2]. by eapply metric_line_ok. }
  destruct (negb (saw_cpu m)); [done|]. destruct (negb (saw_memory m)); [done|]. destruct (negb (saw_disk m)); [done|].
  injection Hr as <-. by apply Hall.
Qed.

(** ** A session *)

Module SshDemo.
#[local] Existing Instance ascii_tables.
#[local] Instance demo_ssh : SshLib := {| Signer := unit |}.

Definition demo_client : Client := NewClient (lit "10.0.0.7") 22 (lit "deploy") tt.
Definition demo_processes : handler execE unit := fun X e s =>
  match e in execE X return X * unit with
  | EShell _ _ | ETailscale _ _ _ => (([], None), s)
  | EDial _ _ => (None, s)
  | ESession => (None, s)
  | ESessionRun _ _ => (inl ([lit "written "; lit "in chunks"], None), s)
  | EReadKey _ => (None, s)
  | EStatus => (inr (ErrText "exit status 1"), s)
  end.

Lemma command_input_confined_witness :
  let command := lit "cat > .env" in
  exists tr tr', runs (RunWithInput demo_client command (lit "TOKEN=secret")) tr (lit "written in chunks", None)
    /\ runs (RunWithInput demo_client command (lit "TOKEN=other")) tr' (lit "written in chunks", None)
    /\ omap command_line tr' = omap command_line tr.
Proof.
  intros command. destruct (exec demo_processes (RunWithInput demo_client command (lit "TOKEN=secret")) tt) as [[r tr] u] eqn:Ex.
  pose proof (exec_runs _ _ _ _ _ _ Ex) as Hr.
  assert (r = (lit "written in chunks", None)) as -> by (change r with ((r, tr, u).1.1); rewrite <- Ex; vm_compute; reflexivity).
  destruct (proj2 (proj2 (command_input_confined _ _ _ _ _ Hr)) (lit "TOKEN=other") ltac:(done) ltac:(done)
    ltac:(apply Nat.leb_le; vm_compute; reflexivity) ltac:(apply Nat.leb_le; vm_compute; reflexivity)) as (tr' & Hr' & Hl).
  exists tr, tr'. split; [exact Hr|]. split; [exact Hr'|exact Hl].
Defined.

Example demo_health :
  (fun r => (HealthStatus r.1, map sprint_float [CPUUsage r.1; MemoryUsage r.1; DiskUsage r.1], Error <$> r.2))
    (health_of_output (lit "CPU 12.50
MEMORY 91.20
DISK 100.40
") None) = (lit "degraded", [lit "12.5"; lit "91.2"; lit "100"], None).
Proof. vm_compute. reflexivity. Qed.
End SshDemo.
