(* ===== verification/HttpChecks.v ===== *)
(** * internal/httpapi: checks of servers, the tailnet, and terminals

    server_checks.go, tailscale.go and server_terminal.go, with the client of
    internal/dockerx.  A check runs one command for the health of the server and one for
    its Docker engine, and records the result.  The devices of the tailnet are sorted;
    those that compare as equal may come in any order, since they come from a Go map.  A
    terminal is a web socket that is connected to a shell; its loop over the messages of
    the browser is its first [turns] turns, and the copying of the output is left out.
    Time limits are left out. *)

From Stdlib Require Import SpecFloat.
From S2P Require Import Prelude GoStrings GoStringsFacts GoRegexp GoJson GoFloat GoNet StringUtil.
From S2P Require Import AuditLog Db DbHttp DbApplications DbServers RemoteSteps ProxyCommands Effects.
From S2P Require Import Runner GoHttp HttpCore HttpGuard HttpDeployments HttpApplications HttpServers SshUtil.
From S2P Require Import GithubConnector Connectors HttpCredentials.

(** ** Checks (server_checks.go) *)

Section Checks.
Context `{UnicodeTables} `{UuidLib} `{SshLib}.

(** Hundredths of a percent, the scale of the columns. *)
Definition percentNumeric (value : spec_float) (valid : bool) : option Z :=
  if negb valid || negb (is_finite_float value) then None
  else Some (round_half_away (SFmul prec emax (clampPercent value) (float_of_int 100))).

Definition normalizeServerCheckStatus (status : str) : str :=
  let status := TrimSpace status in
  if existsb (str_eqb status) [lit "healthy"; lit "degraded"; lit "unreachable"] then status else lit "unknown".

Definition sshHealthCheck_Check (server : Server.t) : H (HealthResult * option goerror) :=
  let! client := ServerClient server in
  match client with
  | inr err => Ret (zeroHealth, Some err)
  | inl client =>
      let! (output, err) := call (QShared (CRun client healthMetricsCommand)) in
      Ret (health_of_output output err)
  end.

Definition docker_version_command : str := lit "docker version --format '{{.Server.APIVersion}} {{.Server.Os}}'".

Definition parseDockerVersionOutput (output : str) : result (str * str) :=
  match Fields output with
  | [version; os] => inl (version, os)
  | _ => inr (ErrText "unexpected docker version output")
  end.

(** The host, the version of the API, and the operating system. *)
Definition EngineStatus : Type := str * str * str.

(** *** The daemon itself (internal/dockerx)

    The client of the daemon is a third-party library; an empty host is that of the
    environment. *)
Inductive dockerE : Type -> Type :=
| DNewClient (host : str) : dockerE (option goerror)
| DPing : dockerE (option goerror)
| DServerVersion : dockerE (result (str * str))     (* API version and operating system *)
| DClose : dockerE (option goerror).

Definition dockerx_NewClient (host : str) : prog dockerE (result unit) :=
  let! err := call (DNewClient host) in
  match err with
  | Some err => Ret (inr err)
  | None =>
      let! err := call DPing in
      match err with
      | Some err => let! _ := call DClose in Ret (inr err)
      | None => Ret (inl tt)
      end
  end.

Definition dockerx_Check (host : str) : prog dockerE (result EngineStatus) :=
  let!? _ := dockerx_NewClient host in
  let! version := call DServerVersion in
  let! _ := call DClose in
  Ret (let? version := version in inl (host, version.1, version.2)).

(** Every client that was opened is closed once. *)
Definition opened_less_closed (ev : event dockerE) : Z :=
  match ev with
  | @Ev _ X e x => match e in dockerE X return X -> Z with
                   | DNewClient _ => fun err => if is_some err then 0 else 1
                   | DClose => fun _ => -1
                   | _ => fun _ => 0
                   end x
  end%Z.
Lemma dockerx_Check_closes host tr r : runs (dockerx_Check host) tr r -> fold_right Z.add 0%Z (map opened_less_closed tr) = 0%Z.
Proof.
  intros [(err & Hr & ->)|(tr1 & [] & tr2 & -> & Hr & v & tr3 & -> & c & tr4 & -> & -> & _)]%runs_bind_ok.
  - destruct Hr as ([e|] & tr' & -> & Hr); [by destruct Hr as [-> _]|]. destruct Hr as ([e|] & tr2 & -> & Hr); [|by destruct Hr].
    by destruct Hr as (c & tr3 & -> & -> & _).
  - destruct Hr as ([e|] & tr' & -> & Hr); [by destruct Hr|]. destruct Hr as ([e|] & tr2 & -> & Hr); [by destruct Hr as (? & ? & ? & ? & ?)|].
    by destruct Hr as [-> _].
Qed.

Definition dockerEngineCheck_Check (server : Server.t) : H (result EngineStatus) :=
  let host := SSHHost (Server.SshUser server) (Server.Hostname server) (Server.SshPort server) in
  let! local := (if Server.ConnectionMode server =s ConnectionModeTailscaleSSH
                 then call (QShared (CIsLocalTailscaleHost (Server.Hostname server))) else Ret false) in
  let host := if (local : bool) then lit "local:///var/run/docker.sock" else host in
  let! client := ServerClient server in
  match client with
  | inr err => Ret (inr err)
  | inl client =>
      let! (output, err) := call (QShared (CRun client docker_version_command)) in
      Ret (match err with
           | Some err => inr err
           | None => let? (version, os) := parseDockerVersionOutput output in inl (host, version, os)
           end)
  end.

Record serverCheckResult := {
  check_health : HealthResult; check_status : str; metricsValid : bool; check_docker : option EngineStatus;
  sshErr : option goerror; dockerErr : option goerror }.

Definition errDockerCheckSkipped : goerror := ErrText "docker check skipped because ssh failed".

Definition check_result (health : HealthResult) (sshErr : option goerror) (docker : result EngineStatus) : serverCheckResult :=
  let status := if is_some sshErr && (HealthStatus health =s []) then lit "unreachable" else HealthStatus health in
  let status := if negb (is_ok docker) && negb (is_some sshErr) then lit "degraded" else status in
  {| check_health := health; check_status := normalizeServerCheckStatus status; metricsValid := negb (is_some sshErr);
     check_docker := match docker with inl d => Some d | inr _ => None end;
     sshErr := sshErr; dockerErr := match docker with inl _ => None | inr err => Some err end |}.

Definition runServerChecks (server : Server.t) : H serverCheckResult :=
  let! (health, sshErr) := sshHealthCheck_Check server in
  let! docker := (match sshErr with
                  | None => dockerEngineCheck_Check server
                  | Some _ => Ret (inr errDockerCheckSkipped)
                  end) in
  Ret (check_result health sshErr docker).

Definition health_params (server : Server.t) (check : serverCheckResult) : UpdateServerHealthParams.t :=
  let percent value := percentNumeric value (metricsValid check) in
  UpdateServerHealthParams.mk (Server.ID server) (check_status check) (percent (CPUUsage (check_health check)))
    (percent (MemoryUsage (check_health check))) (percent (DiskUsage (check_health check))).

Definition serverCheckAuditMetadata (status : str) (sshErr dockerErr : option goerror) : list (str * json) :=
  [(lit "status", jstr status); (lit "ssh_ok", JBool (negb (is_some sshErr)));
   (lit "docker_ok", JBool (negb (is_some dockerErr))); (lit "ssh_error", jstr (errorString sshErr));
   (lit "docker_error", jstr (errorString dockerErr))].

Definition newServerCheckResponse (server : Server.t) (check : serverCheckResult) : response_value :=
  VServerCheck server (check_docker check) (errorString (sshErr check)) (errorString (dockerErr check)).

Definition checkServer (r : Request) : H unit :=
  match parseUUIDParam r (lit "serverID") with
  | inr err => writeError err
  | inl serverID =>
      let! server := call (QGetServer serverID) in
      match server with
      | inr err => writeError (serverLookupError err)
      | inl server =>
          let! check := runServerChecks server in
          let! updated := call (QUpdateServerHealth (health_params server check)) in
          match updated with
          | inr err => writeError err
          | inl updated =>
              let! _ := audit r (lit "server.check") (lit "server") (uuidString (Server.ID updated)) (Server.Name updated)
                (Some (serverCheckAuditMetadata (Server.Status updated) (sshErr check) (dockerErr check))) in
              writeJSON StatusOK (newServerCheckResponse updated check)
          end
      end
  end.
End Checks.

(** ** Devices of the tailnet (tailscale.go) *)

Module tailscaleDevice.
Record t := mk {
  Name : str; Host : str; DNSName : str; OS : str; Online : bool; Tags : option (list str); LastSeen : str }.
End tailscaleDevice.

(** [LastSeen] is what time.RFC3339 prints of the time, and empty for the zero time. *)
Module tailscalePeer.
Record t := mk {
  HostName : str; DNSName : str; TailscaleIPs : list str; Online : bool; OS : str; Tags : option (list str); LastSeen : str }.
Definition zero : t := mk [] [] [] false [] None [].
End tailscalePeer.

(** *** Times

    [time.Time.UnmarshalJSON] and [Format(time.RFC3339)]. *)

Definition two_digits (max : Z) (s : str) : option (Z * str) :=
  match s with
  | a :: b :: t => if is_dig a && is_dig b && (digits_value [a; b] <=? max)%Z then Some (digits_value [a; b], t) else None
  | _ => None
  end.
Definition expect_byte (c : ascii) (s : str) : option str :=
  match s with d :: t => if bool_decide (c = d) then Some t else None | [] => None end.

Definition leap_year (y : Z) : bool := ((y mod 4 =? 0) && (negb (y mod 100 =? 0) || (y mod 400 =? 0)))%Z.
Definition days_in (y m : Z) : Z :=
  (if m =? 2 then (if leap_year y then 29 else 28)
   else if existsb (Z.eqb m) [4; 6; 9; 11] then 30 else 31)%Z.

(** Days after the first of March of the year 0. *)
Definition day_number (y m d : Z) : Z :=
  let y := (if m <=? 2 then y - 1 else y)%Z in
  let m := ((m + 9) mod 12)%Z in
  (365 * y + y / 4 - y / 100 + y / 400 + (153 * m + 2) / 5 + d - 1)%Z.
Definition zero_day : Z := day_number 1 1 1.

Notation "'let*' x := o 'in' k" := (match o with Some x => k | None => None end)
  (at level 10, x pattern, o at level 100, k at level 200) : go_scope.

(** The offset from UTC in minutes. *)
Definition parse_zone (s : str) : option Z :=
  if s =s lit "Z" then Some 0%Z
  else match s with
       | sign :: t =>
           let* (hours, t) := two_digits 23 t in
           let* t := expect_byte ":"%char t in
           let* (minutes, t) := two_digits 59 t in
           if negb (t =s []) then None
           else if (b2n sign =? 45)%N then Some (- (hours * 60 + minutes))%Z
           else if (b2n sign =? 43)%N then Some (hours * 60 + minutes)%Z else None
       | [] => None
       end.

Definition cut_fraction (s : str) : str * str :=
  match s with
  | p :: d :: t => if (b2n p =? 46)%N && is_dig d then (take_while is_dig (d :: t), drop_while is_dig (d :: t)) else ([], s)
  | _ => ([], s)
  end.

Definition print_zone (offset : Z) : str :=
  if (offset =? 0)%Z then lit "Z"
  else
    let pad z := (if (z <? 10)%Z then lit "0" else []) ++ fmt_d z in
    (if (offset <? 0)%Z then lit "-" else lit "+") ++ pad (Z.abs offset / 60)%Z ++ lit ":" ++ pad (Z.abs offset mod 60)%Z.

(** A time of RFC 3339, printed without its fraction; the zero time prints as nothing. *)
Definition format_time (s : str) : option str :=
  let* (century, t) := two_digits 99 s in
  let* (year, t) := two_digits 99 t in
  let y := (century * 100 + year)%Z in
  let* t := expect_byte "-"%char t in
  let* (m, t) := two_digits 12 t in
  let* t := expect_byte "-"%char t in
  let* (d, t) := two_digits 31 t in
  if (m <? 1)%Z || (d <? 1)%Z || (days_in y m <? d)%Z then None
  else
    let* t := expect_byte "T"%char t in
    let* (hour, t) := two_digits 23 t in
    let* t := expect_byte ":"%char t in
    let* (minute, t) := two_digits 59 t in
    let* t := expect_byte ":"%char t in
    let* (second, t) := two_digits 59 t in
    let '(fraction, t) := cut_fraction t in
    let* offset := parse_zone t in
    let instant := (((day_number y m d - zero_day) * 24 + hour) * 3600 + (minute - offset) * 60 + second)%Z in
    Some (if (instant =? 0)%Z && (digits_value (take 9 fraction) =? 0)%Z then []
          else take 19 s ++ print_zone offset).

Definition unmarshal_time (v : json) (old : str) : result str :=
  match v with
  | JNull => inl old
  | JStr s => match format_time s with Some printed => inl printed | None => inr (ErrText "parsing time") end
  | _ => inr (ErrText "Time.UnmarshalJSON: input is not a JSON string")
  end.

Section Tailscale.
Context `{UnicodeTables} `{UuidLib} `{SshLib} `{MapOrder}.
Import tailscalePeer.

Definition set_peer_field (key : str) (v : json) (p : tailscalePeer.t) : result tailscalePeer.t :=
  let '(mk host dns ips online os tags seen) := p in
  let named n := field_match n key in
  if named (lit "HostName") then set_string v p (fun x => mk x dns ips online os tags seen)
  else if named (lit "DNSName") then set_string v p (fun x => mk host x ips online os tags seen)
  else if named (lit "TailscaleIPs") then
    let? x := unmarshal_slice unmarshal_string v in inl (mk host dns (default [] x) online os tags seen)
  else if named (lit "Online") then set_bool v p (fun x => mk host dns ips x os tags seen)
  else if named (lit "OS") then set_string v p (fun x => mk host dns ips online x tags seen)
  else if named (lit "Tags") then
    let? x := unmarshal_slice unmarshal_string v in inl (mk host dns ips online os x seen)
  else if named (lit "LastSeen") then let? x := unmarshal_time v seen in inl (mk host dns ips online os tags x)
  else inl p.

(** A map of structs: a key that is repeated replaces the entry. *)
Fixpoint set_peers (l : list (str * json)) (m : gmap str tailscalePeer.t) : result (gmap str tailscalePeer.t) :=
  match l with
  | [] => inl m
  | (key, v) :: t => let? p := unmarshal_struct set_peer_field tailscalePeer.zero v in set_peers t (<[key := p]> m)
  end.

Definition decode_status (v : json) : result (gmap str tailscalePeer.t) :=
  unmarshal_struct (fun key v m =>
    if field_match (lit "Peer") key
    then match v with JObj l => set_peers l m | JNull => inl ∅ | _ => inr unmarshal_error end
    else inl m) ∅ v.

Definition firstTailscaleIP (ips : list str) : str :=
  match List.find (fun ip => ContainsByte ip "."%char) ips with
  | Some ip => ip
  | None => match ips with ip :: _ => ip | [] => [] end
  end.

Definition peer_device (p : tailscalePeer.t) : option tailscaleDevice.t :=
  let host := firstTailscaleIP (TailscaleIPs p) in
  if host =s [] then None
  else Some (tailscaleDevice.mk (HostName p) host (TrimSuffix (DNSName p) (lit ".")) (OS p) (Online p) (Tags p) (LastSeen p)).

(** Devices that are online come first, then by name. *)
Definition device_le (a b : tailscaleDevice.t) : Prop :=
  if Bool.eqb (tailscaleDevice.Online a) (tailscaleDevice.Online b)
  then str_leb (tailscaleDevice.Name a) (tailscaleDevice.Name b) = true
  else tailscaleDevice.Online a = true.
#[global] Instance device_le_dec : RelDecision device_le.
Proof. intros a b. unfold device_le. destruct (Bool.eqb _ _); apply _. Defined.

Definition devices_of (peers : gmap str tailscalePeer.t) : list tailscaleDevice.t :=
  merge_sort device_le (omap peer_device (map snd (map_range peers))).

Definition tailscaleDevices : H (result (list tailscaleDevice.t)) :=
  let! err := call (CLookPath (lit "tailscale")) in
  match err with
  | Some _ => Ret (inr (ErrText "tailscale CLI is not installed or not on PATH"))
  | None =>
      let! output := call (COut CTailscaleStatus) in
      Ret (match output with
           | inr _ => inr (ErrText "tailscale status failed")
           | inl output =>
               match (let? v := Unmarshal output in decode_status v) with
               | inr _ => inr (ErrText "tailscale status returned invalid JSON")
               | inl peers => inl (devices_of peers)
               end
           end)
  end.

Definition device_json (d : tailscaleDevice.t) : json :=
  JObj ([(lit "name", JStr (tailscaleDevice.Name d)); (lit "host", JStr (tailscaleDevice.Host d));
         (lit "dns_name", JStr (tailscaleDevice.DNSName d)); (lit "os", JStr (tailscaleDevice.OS d));
         (lit "online", JBool (tailscaleDevice.Online d)); (lit "tags", marshal_slice JStr (tailscaleDevice.Tags d))]
        ++ omit_string "last_seen" (tailscaleDevice.LastSeen d)).

Definition listTailscaleDevices (r : Request) : H unit :=
  let! devices := tailscaleDevices in
  match devices with
  | inr err => writeJSON StatusOK (VObject [(lit "available", JBool false); (lit "error", JStr (Error err)); (lit "devices", JArr [])])
  | inl devices => writeJSON StatusOK (VObject [(lit "available", JBool true); (lit "devices", JArr (map device_json devices))])
  end.
End Tailscale.

(** ** Terminals (server_terminal.go) *)

Definition defaultServerTerminalDirectory : str := lit "/srv/deploy-manager".

Definition terminalColorEnv : str :=
  lit "export TERM=xterm-256color CLICOLOR=1 CLICOLOR_FORCE=1 COLORTERM=truecolor FORCE_COLOR=1".
Definition terminalPromptEnv : str :=
  lit "ESC=" ++ dquote ++ lit "$(printf '\033')" ++ dquote ++ lit "; export PS1=" ++ dquote
  ++ lit "${ESC}[1;32m\\u@\\h${ESC}[0m:${ESC}[1;34m\\w${ESC}[0m $ " ++ dquote.

Definition terminalShellCommand (initialDirectory fallbackShell : str) (includePrompt : bool) : str :=
  let quoted := ShellQuote initialDirectory in
  Join ([terminalColorEnv] ++ (if includePrompt then [terminalPromptEnv] else [])
        ++ (if initialDirectory =s [] then []
            else [lit "if [ -d " ++ quoted ++ lit " ]; then cd " ++ quoted ++ lit "; fi"])
        ++ [lit "exec ${SHELL:-" ++ fallbackShell ++ lit "} -i"]) (lit "; ").

(** A message of the browser. *)
Module terminalClientMessage.
Record t := mk { Type' : str; Data : str; Cols : Z; Rows : Z }.
Definition zero : t := mk [] [] 0 0.
End terminalClientMessage.

Section Terminal.
Context `{UnicodeTables} `{FoldTable} `{UuidLib} `{SshLib}.
Import terminalClientMessage.

Definition set_message_field (key : str) (v : json) (m : terminalClientMessage.t) : result terminalClientMessage.t :=
  let '(mk kind data cols rows) := m in
  let named n := field_match n key in
  if named (lit "type") then set_string v m (fun x => mk x data cols rows)
  else if named (lit "data") then set_string v m (fun x => mk kind x cols rows)
  else if named (lit "cols") then set_int v m (fun x => mk kind data x rows)
  else if named (lit "rows") then set_int v m (fun x => mk kind data cols x)
  else inl m.

Definition decode_message (payload : str) : result terminalClientMessage.t :=
  let? v := Unmarshal payload in unmarshal_struct set_message_field terminalClientMessage.zero v.

Definition uint16 (z : Z) : Z := (z mod 65536)%Z.

(** One message: [narrow] is the width of the sizes of the pseudo-terminal. *)
Definition terminal_message (narrow : Z -> Z) (payload : str) : H unit :=
  match decode_message payload with
  | inr _ => Ret tt
  | inl m =>
      if Type' m =s lit "input" then call (COut (CTerminalInput (Data m)))
      else if Type' m =s lit "resize" then
        if (0 <? Rows m)%Z && (0 <? Cols m)%Z then call (COut (CTerminalResize (narrow (Rows m)) (narrow (Cols m)))) else Ret tt
      else Ret tt
  end.

(** The loop over the messages; the terminal is closed when the web socket ends. *)
Fixpoint terminal_loop (turns : nat) (narrow : Z -> Z) : H unit :=
  match turns with
  | O => Ret tt
  | S turns =>
      let! message := call (COut CTerminalMessage) in
      match message with
      | None => call (COut CTerminalClose)
      | Some payload => let! _ := terminal_message narrow payload in terminal_loop turns narrow
      end
  end.

Fixpoint is_canceled (err : goerror) : bool :=
  match err with
  | ErrText m => m =s lit "context canceled"
  | ErrWrap _ cause _ => is_canceled cause
  | _ => false
  end.

Definition carriage_newline : str := byte 13 ++ newline.
Definition writeTerminalError (err : goerror) : H unit :=
  if is_canceled err then Ret tt
  else call (COut (CTerminalText (carriage_newline ++ lit "terminal error: " ++ Error err ++ carriage_newline))).

(** A shell that has started is recorded and connected to the browser. *)
Definition start_terminal (turns : nat) (r : Request) (server : Server.t) (mode initialDirectory : str) (how : terminal_start)
    (narrow : Z -> Z) : H unit :=
  let! err := call (COut (CTerminalStart how)) in
  match err with
  | Some err => writeTerminalError err
  | None =>
      let! _ := audit r (lit "server.terminal.open") (lit "server") (uuidString (Server.ID server)) (Server.Name server)
        (Some [(lit "connection_mode", jstr mode); (lit "application_directory", JBool (negb (initialDirectory =s [])))]) in
      terminal_loop turns narrow
  end.

Definition runLocalTerminal (turns : nat) (r : Request) (server : Server.t) (initialDirectory : str) : H unit :=
  start_terminal turns r server (lit "local") initialDirectory
    (LocalShell (terminalShellCommand initialDirectory (lit "/bin/sh") true)) uint16.

Definition runTailscaleTerminal (turns : nat) (r : Request) (server : Server.t) (initialDirectory : str) : H unit :=
  match ValidateTailscaleHost (Server.Hostname server) with
  | Some err => writeTerminalError err
  | None =>
      if TrimSpace (Server.SshUser server) =s []
      then writeTerminalError (ErrValidation (lit "server ssh_user is required for Tailscale SSH"))
      else start_terminal turns r server (Server.ConnectionMode server) initialDirectory
             (TailscaleShell (TrimSpace (Server.SshUser server) ++ lit "@" ++ TrimSpace (Server.Hostname server))
                (terminalShellCommand initialDirectory (lit "/bin/bash") false)) uint16
  end.

(** The session of golang.org/x/crypto/ssh, from the connection to its start. *)
Definition runSshTerminal (turns : nat) (r : Request) (server : Server.t) (initialDirectory : str) : H unit :=
  let! client := ServerClient server in
  match client with
  | inr err => writeTerminalError err
  | inl _ =>
      start_terminal turns r server (Server.ConnectionMode server) initialDirectory
        (SshShell server (terminalShellCommand initialDirectory (lit "/bin/bash") false)) (fun z => z)
  end.

Definition applicationTerminalDirectory (application : Application.t) : str :=
  let composeDirectory := path_Dir (Application.ComposePath application) in
  if composeDirectory =s lit "." then Application.RemoteDirectory application
  else path_Join [Application.RemoteDirectory application; composeDirectory].

Definition terminalInitialDirectory (r : Request) (serverID : pgUUID_t) : H (result str) :=
  let value := TrimSpace (Query r (lit "application_id")) in
  if value =s [] then Ret (inl defaultServerTerminalDirectory)
  else match PgUUID' value with
  | inr _ => Ret (inr (ErrValidation (lit "invalid application_id")))
  | inl applicationID =>
      let! application := call (QGetApplication applicationID) in
      Ret (match application with
           | inr err => inr (applicationLookupError err (lit "application not found"))
           | inl application =>
               if bool_decide (Application.ServerID application = serverID) then inl (applicationTerminalDirectory application)
               else inr (ErrValidation (lit "application does not belong to this server"))
           end)
  end.

(** [CheckOrigin] of the upgrader. *)
Definition checkOrigin (r : Request) : bool :=
  let origin := TrimSpace (Header r (lit "Origin")) in
  (origin =s []) || sameHostOrigin origin (Host' r).

Definition serverTerminal (turns : nat) (r : Request) : H unit :=
  match parseUUIDParam r (lit "serverID") with
  | inr err => writeError err
  | inl serverID =>
      let! server := call (QGetServer serverID) in
      match server with
      | inr err => writeError (serverLookupError err)
      | inl server =>
          let! initialDirectory := terminalInitialDirectory r serverID in
          match initialDirectory with
          | inr err => writeError err
          | inl initialDirectory =>
              let! upgraded := call (COut (CUpgrade (checkOrigin r))) in
              if negb upgraded then Ret tt
              else if Server.ConnectionMode server =s ConnectionModeTailscaleSSH then
                let! local := call (QShared (CIsLocalTailscaleHost (Server.Hostname server))) in
                if (local : bool) then runLocalTerminal turns r server initialDirectory
                else runTailscaleTerminal turns r server initialDirectory
              else runSshTerminal turns r server initialDirectory
          end
      end
  end.
End Terminal.

(** ** What a check records *)

Section Recorded.
Context `{UnicodeTables} `{UuidLib} `{SshLib}.

Lemma percent_ok value valid : mantissa_ok value -> percentage_check (percentNumeric value valid) = true.
Proof.
  intros Hv. unfold percentNumeric. destruct (negb valid || _); [done|]. pose proof (hundredths_bound _ Hv).
  unfold percentage_check. cbn. lia.
Qed.

Lemma check_status_ok status :
  existsb (str_eqb (normalizeServerCheckStatus status)) [lit "healthy"; lit "degraded"; lit "unreachable"; lit "unknown"] = true.
Proof.
  unfold normalizeServerCheckStatus. destruct (existsb (str_eqb (TrimSpace status)) _) eqn:E; [|by vm_compute].
  cbn [existsb] in *. rewrite !orb_true_iff in *. tauto.
Qed.

(** The command [command] was answered with [output], without an error. *)
Definition answered (command output : str) (tr : list (event apiE)) : Prop :=
  exists client, Ev (QShared (CRun client command)) (output, None) ∈ tr.

Definition health_ok (h : HealthResult) : Prop := mantissa_ok (CPUUsage h) /\ mantissa_ok (MemoryUsage h) /\ mantissa_ok (DiskUsage h).

Lemma zero_health_ok status : health_ok (with_status status zeroHealth).
Proof. by repeat split. Qed.

Lemma ServerClient_runs server tr x : runs (ServerClient server) tr x -> forall command output, ~ answered command output tr.
Proof.
  unfold ServerClient. destruct (_ =s _); intros (y & tr' & -> & Hr) command output (client & Hin).
  - destruct Hr as [-> _]. set_solver.
  - destruct Hr as [-> _]. set_solver.
Qed.

Lemma ssh_check_runs server tr h err : runs (sshHealthCheck_Check server) tr (h, err) ->
  health_ok h /\ match err with
    | None => exists output r, answered healthMetricsCommand output tr /\ parseHealthMetrics output = inl r /\ h = with_status (healthStatus r) r
    | Some _ => HealthStatus h = [] \/ HealthStatus h = lit "unreachable" \/ HealthStatus h = lit "degraded"
    end.
Proof.
  unfold sshHealthCheck_Check. intros (tr1 & client & tr2 & -> & _ & Hr)%runs_bind. destruct client as [client|e].
  - destruct Hr as ([output e] & tr3 & -> & -> & Hx). unfold health_of_output in Hx.
    destruct e as [e|]; [injection Hx as -> ->; by split; [apply zero_health_ok|right; left]|].
    destruct (parseHealthMetrics output) as [r|e] eqn:Ep; injection Hx as -> ->; [|by split; [apply zero_health_ok|right; right]].
    split; [by apply metrics_ok in Ep|]. exists output, r. split; [|done]. exists client. set_solver.
  - destruct Hr as [-> [= -> ->]]. by split; [apply (zero_health_ok [])|left].
Qed.

Lemma docker_check_runs server tr d : runs (dockerEngineCheck_Check server) tr (inl d) ->
  exists output v, answered docker_version_command output tr /\ parseDockerVersionOutput output = inl v.
Proof.
  unfold dockerEngineCheck_Check. intros (tr1 & local & tr2 & -> & _ & Hr)%runs_bind.
  apply runs_bind in Hr as (tr3 & client & tr4 & -> & _ & Hr). destruct client as [client|e]; [|by destruct Hr].
  destruct Hr as ([output e] & tr5 & -> & -> & Hx). destruct e as [e|]; [done|]. symmetry in Hx. apply rbind_ok in Hx as (v & Hv & _).
  exists output, v. split; [|done]. exists client. set_solver.
Qed.

(** What a status of healthy, and metrics, rest on. *)
Definition check_grounds (tr : list (event apiE)) (check : serverCheckResult) : Prop :=
  health_ok (check_health check)
  /\ existsb (str_eqb (check_status check)) [lit "healthy"; lit "degraded"; lit "unreachable"; lit "unknown"] = true
  /\ (metricsValid check = true -> exists output r, answered healthMetricsCommand output tr /\ parseHealthMetrics output = inl r
        /\ check_health check = with_status (healthStatus r) r)
  /\ (check_status check = lit "healthy" -> metricsValid check = true /\ HealthStatus (check_health check) = lit "healthy"
        /\ exists output v, answered docker_version_command output tr /\ parseDockerVersionOutput output = inl v).

Lemma answered_app_l command output tr1 tr2 : answered command output tr1 -> answered command output (tr1 ++ tr2).
Proof. intros (c & Hc). exists c. apply elem_of_app. by left. Qed.
Lemma answered_app_r command output tr1 tr2 : answered command output tr2 -> answered command output (tr1 ++ tr2).
Proof. intros (c & Hc). exists c. apply elem_of_app. by right. Qed.

Lemma normalized_healthy status : normalizeServerCheckStatus status = lit "healthy" -> TrimSpace status = lit "healthy".
Proof. unfold normalizeServerCheckStatus. by destruct (existsb _ _). Qed.

Lemma healthStatus_cases r : healthStatus r = lit "healthy" \/ healthStatus r = lit "degraded".
Proof. unfold healthStatus. destruct (_ || _); auto. Qed.

Lemma runServerChecks_runs server tr check : runs (runServerChecks server) tr check -> check_grounds tr check.
Proof.
  unfold runServerChecks. intros (tr1 & [h err] & tr2 & -> & Hs & Hr)%runs_bind. apply ssh_check_runs in Hs as [Hok Hs].
  apply runs_bind in Hr as (tr3 & docker & tr4 & -> & Hd & [-> ->]). rewrite app_nil_r.
  unfold check_grounds, check_result. cbn [check_health metricsValid check_status]. split; [exact Hok|]. split; [apply check_status_ok|].
  destruct err as [e|]; cbn [is_some negb andb].
  - split; [done|]. rewrite andb_false_r. intros Hst%normalized_healthy. exfalso. revert Hst.
    by destruct Hs as [->|[->| ->]]; vm_compute.
  - destruct Hs as (output & r & Ha & Hp & ->). split.
    + intros _. exists output, r. by split; [apply answered_app_l|].
    + rewrite andb_true_r. intros Hst%normalized_healthy. cbn [with_status HealthStatus] in *.
      destruct docker as [d|e]; cbn [is_ok negb] in Hst; [|by vm_compute in Hst]. split; [done|]. split.
      * destruct (healthStatus_cases r) as [E|E]; [exact E|]. rewrite E in Hst. by vm_compute in Hst.
      * apply docker_check_runs in Hd as (out & v & Hd & Hv). exists out, v. by split; [apply answered_app_r|].
Qed.

(** The updates of a server's health in a trace. *)
Definition recorded (ev : event apiE) : option UpdateServerHealthParams.t :=
  match ev with Ev (QUpdateServerHealth arg) _ => Some arg | _ => None end.
Definition records_nothing (X : Type) (e : apiE X) : Prop := forall x, recorded (Ev e x) = None.

Lemma nothing_recorded {A} (p : H A) tr a : only records_nothing p -> runs p tr a -> omap recorded tr = [].
Proof.
  intros Hp Hr. pose proof (only_runs _ _ _ _ Hp Hr) as Hf. clear Hr. induction Hf as [|[X e x] tr He Hf IH]; [done|].
  cbn [omap list_omap]. cbn in He. by rewrite He.
Qed.

Lemma ServerClient_only server : only records_nothing (ServerClient server).
Proof. unfold ServerClient. destruct (_ =s _); repeat split. Qed.

Lemma runServerChecks_only server : only records_nothing (runServerChecks server).
Proof.
  unfold runServerChecks. apply only_bind.
  - unfold sshHealthCheck_Check. apply only_bind; [apply ServerClient_only|]. intros [client|err]; [|done].
    split; [done|]. by intros [output e].
  - intros [h [e|]]; apply only_bind; try done. unfold dockerEngineCheck_Check. apply only_bind; [by destruct (_ =s _); repeat split|].
    intros local. apply only_bind; [apply ServerClient_only|]. intros [client|err]; [|done]. split; [done|]. by intros [output e].
Qed.

Lemma writeError_only err : only records_nothing (writeError err).
Proof. unfold writeError. destruct (error_response err). by repeat split. Qed.

Lemma checkServer_runs r tr arg : runs (checkServer r) tr tt -> arg ∈ omap recorded tr ->
  exists server check, check_grounds tr check /\ arg = health_params server check.
Proof.
  unfold checkServer. destruct (parseUUIDParam _ _) as [id|err]; intros Hr Hin.
  2: { rewrite (nothing_recorded _ _ _ (writeError_only _) Hr) in Hin. by apply not_elem_of_nil in Hin. }
  destruct Hr as (server & tr1 & -> & Hr). destruct server as [server|err].
  2: { change (arg ∈ omap recorded tr1) in Hin. rewrite (nothing_recorded _ _ _ (writeError_only _) Hr) in Hin.
       by apply not_elem_of_nil in Hin. }
  revert Hin. cbn [pbind] in Hr.
  apply runs_bind in Hr as (tr2 & check & tr3 & -> & Hc & Hr). pose proof (nothing_recorded _ _ _ (runServerChecks_only _) Hc) as Hn.
  destruct Hr as (updated & tr4 & -> & Hr).
  change (arg ∈ omap recorded (tr2 ++ Ev (QUpdateServerHealth (health_params server check)) updated :: tr4) -> exists server0 check0,
    check_grounds (Ev (QGetServer id) (inl server) :: tr2 ++ Ev (QUpdateServerHealth (health_params server check)) updated :: tr4) check0
    /\ arg = health_params server0 check0).
  rewrite omap_app, Hn. cbn [app omap list_omap recorded]. intros Harg.
  assert (omap recorded tr4 = []) as Ht.
  { destruct updated as [updated|err]; [|exact (nothing_recorded _ _ _ (writeError_only _) Hr)].
    revert Hr. apply nothing_recorded. by repeat split. }
  rewrite Ht, list_elem_of_singleton in Harg. exists server, check. split; [|exact Harg].
  apply runServerChecks_runs in Hc as (Hok & Hsts & Hmet & Hhealthy).
  assert (forall command output, answered command output tr2 ->
    answered command output (Ev (QGetServer id) (inl server) :: tr2 ++ Ev (QUpdateServerHealth (health_params server check)) updated :: tr4)) as Hup.
  { intros command output (client & Hev). exists client. right. apply elem_of_app. by left. }
  split; [exact Hok|]. split; [exact Hsts|]. split.
  - intros Hv. destruct (Hmet Hv) as (output & h & Ha & Hrest). exists output, h. by split; [apply Hup|].
  - intros Hst. destruct (Hhealthy Hst) as (Hv & Hh & output & v & Ha & Hrest). split; [exact Hv|]. split; [exact Hh|].
    exists output, v. by split; [apply Hup|].
Qed.

Lemma recorded_storable now tr server check s : check_grounds tr check -> server_check s = true ->
  server_check (updated_health (health_params server check) now s) = true.
Proof.
  intros ((M1 & M2 & M3) & Hst & _) Hs. unfold server_check, updated_health, health_params in *.
  cbn [Server.Name Server.Hostname Server.SshUser Server.ConnectionMode Server.SshKeyPath Server.ProxyType Server.Status
    Server.SshPort Server.CpuUsage Server.MemoryUsage Server.DiskUsage].
  rewrite !percent_ok, !andb_true_r by done. rewrite Hst. rewrite !andb_true_iff in Hs.
  destruct Hs as ((((((((((((K1 & K2) & K3) & K4) & K5) & K6) & K7) & K8) & K9) & K10) & K11) & K12) & K13).
  destruct K7 as [K7 K14]. rewrite K1, K2, K4, K5, K7, K14. destruct (Server.ConnectionMode s =s lit "tailscale_ssh") eqn:Em; [|by rewrite K3, K8, K9, K10].
  apply str_eqb_eq in Em. by rewrite Em.
Qed.

End Recorded.

(** ** A healthy server, and a tailnet *)

Module ChecksDemo.
#[local] Existing Instance ascii_tables.
#[local] Instance demo_ssh : SshLib := {| Signer := unit |}.
#[local] Instance demo_uuids : UuidLib := {| uuid_Parse := inl; uuid_String s := s |}.

Definition demo_server : Server.t :=
  Server.mk (PgUUID (lit "s1") true) (lit "prod-1") (lit "10.0.0.7") (lit "deploy") 22 (someText (lit "/root/.ssh/id")) (lit "direct_ssh")
    (lit "caddy") (lit "unknown") None None None None None None.
Definition demo_request : Request := {|
  Method := lit "POST"; RemoteAddr := lit "10.0.0.9:51000"; Host' := lit "deploy.example.com"; URLPath := []; TLS := true;
  Header _ := []; Cookie _ := None; Query _ := []; URLParam _ := lit "s1"; Body := [] |}.

Definition demo_answers (X : Type) (e : apiE X) : option X :=
  match e in apiE X return option X with
  | QGetServer _ => Some (inl demo_server)
  | QShared e =>
      match e in runnerE X return option X with
      | CSigner _ _ _ _ => Some (inl tt)
      | CRun _ command =>
          Some (if command =s docker_version_command then lit "1.47 linux" else lit "CPU 12.50
MEMORY 40.00
DISK 71.335
", None)
      | QAppendAuditEvent _ => Some (inr ErrEOF)
      | _ => None
      end
  | QUpdateServerHealth arg => Some (inl (updated_health arg None demo_server))
  | CWriteJSON _ _ => Some tt
  | _ => None
  end.


#[local] Instance demo_order : MapOrder := {| map_range A m := map_to_list m; map_range_perm A m := Permutation_refl _ |}.

Definition peer (name ip seen : string) (online : bool) : json :=
  JObj [(lit "HostName", JStr (lit name)); (lit "DNSName", JStr (lit name ++ lit ".tail.ts.net.")); (lit "Online", JBool online);
        (lit "TailscaleIPs", JArr [JStr (lit "fd7a:115c:a1e0::1"); JStr (lit ip)]); (lit "LastSeen", JStr (lit seen))].
Example demo_devices :
  (match decode_status (JObj [(lit "Peer", JObj [(lit "k1", peer "web" "100.64.0.2" "0001-01-01T00:00:00Z" true);
      (lit "k2", peer "api" "100.64.0.1" "2026-02-28T10:20:30.5+02:00" false); (lit "k3", peer "db" "100.64.0.3" "2024-02-29T23:59:59Z" true)])]) with
   | inl peers => map (fun d => (tailscaleDevice.Name d, tailscaleDevice.Host d, tailscaleDevice.DNSName d, tailscaleDevice.LastSeen d)) (devices_of peers)
   | inr _ => []
   end)
  = [(lit "db", lit "100.64.0.3", lit "db.tail.ts.net", lit "2024-02-29T23:59:59Z"); (lit "web", lit "100.64.0.2", lit "web.tail.ts.net", []);
     (lit "api", lit "100.64.0.1", lit "api.tail.ts.net", lit "2026-02-28T10:20:30+02:00")].
Proof. vm_compute. reflexivity. Qed.
End ChecksDemo.
