(* ===== verification/HttpRoutes.v ===== *)
(** * internal/httpapi: the routes of the server

    server.go, static.go and version.go: the table of routes with the handlers of the
    other files, the middlewares around them, the probes, and the files of the user
    interface.  Which pattern a request matches is decided by chi, a parameter; its
    middlewares for request identifiers, panics and compression are left out, and its
    RealIP is a parameter.  The limits of requests are state: one function from the
    counters to the program that serves a request and the next counters. *)

From S2P Require Import Prelude GoStrings GoStringsFacts GoRegexp GoJson GoNet StringUtil AuditLog.
From S2P Require Import Db DbHttp DbApplications DbServers DbInventory RemoteSteps PlanFacts ProxyCommands.
From S2P Require Import Effects Runner GoHttp HttpCore HttpGuard HttpDeployments HttpRedeploy HttpApplications.
From S2P Require Import HttpBuilds HttpVariables HttpServers HttpCredentials HttpConnectors HttpDevUsers HttpProxy GithubConnector.
From S2P Require Import HttpGithub HttpProjects ComposeFile HttpRepositories HttpLogs SshUtil HttpChecks.

(** ** Files (static.go) *)

(** [filepath.Rel] on slash separated paths: the elements that both paths start with are
    dropped; what is left of the base, what is left of the target, and the element of the
    base where they differ. *)
Fixpoint rel_loop (fuel : nat) (base target : str) : str * str * str :=
  match fuel with
  | O => (base, target, [])
  | S fuel =>
      if (base =s []) || (target =s []) then (base, target, [])
      else
        let '(b, base') := CutByte slash base in
        let '(t, target') := CutByte slash target in
        if negb (b =s t) then (base, target, b) else rel_loop fuel (default [] base') (default [] target')
  end.

Definition count_byte (c : ascii) (s : str) : nat := length (List.filter (fun d => bool_decide (c = d)) s).

Definition Rel (base target : str) : option str :=
  let base := path_Clean base in
  let target := path_Clean target in
  if target =s base then Some (lit ".")
  else
    let base := if base =s lit "." then [] else base in
    if negb (Bool.eqb (IsAbs base) (IsAbs target)) then None
    else
      let '(b, t, differs) := rel_loop (S (length base)) base target in
      if differs =s lit ".." then None
      else if b =s [] then Some t
      else Some (lit ".." ++ concat (repeat (lit "/..") (count_byte slash b)) ++ (if t =s [] then [] else lit "/" ++ t)).

Definition isSafeStaticPath (root target : str) : bool :=
  match Rel root target with
  | None => false
  | Some relative => (relative =s lit ".") || (negb (HasPrefix relative (lit "../")) && negb (relative =s lit ".."))
  end.

(** [filepath.Ext] and [filepath.Base] *)
Definition filepath_Ext (p : str) : str :=
  let name := slice_from p (LastIndexByte p slash + 1) in
  if (LastIndexByte name "."%char <? 0)%Z then [] else slice_from name (LastIndexByte name "."%char).
Definition filepath_Base (p : str) : str :=
  if p =s [] then lit "."
  else
    let p := drop_while_end (fun c => bool_decide (c = slash)) p in
    let p := slice_from p (LastIndexByte p slash + 1) in
    if p =s [] then lit "/" else p.

Definition shouldNotFallbackToSPA (requestPath : str) : bool :=
  let requestPath := TrimSpace requestPath in
  HasPrefix requestPath (lit "assets/") || negb (filepath_Ext requestPath =s []).

Section Static.
Context `{SshLib}.

Definition setStaticCacheHeaders (requestPath : str) : H unit :=
  if filepath_Base requestPath =s lit "index.html" then call (CSetHeader (lit "Cache-Control") (lit "no-cache"))
  else if HasPrefix requestPath (lit "assets/")
  then call (CSetHeader (lit "Cache-Control") (lit "public, max-age=31536000, immutable"))
  else Ret tt.

Definition NotFound : H unit := call (COut CNotFoundPage).
Definition isFile (path : str) : H bool := call (COut (CIsFile path)).
Definition serve_file (requestPath target : str) : H unit :=
  let! _ := setStaticCacheHeaders requestPath in call (COut (CServeFile target)).

Definition spa (static : str) (r : Request) : H unit :=
  let staticRoot := path_Clean static in
  let requestPath := path_Clean (TrimPrefix (URLPath r) (lit "/")) in
  let requestPath := if (requestPath =s lit ".") || (requestPath =s lit "/") then lit "index.html" else requestPath in
  let target := path_Join [staticRoot; requestPath] in
  if negb (isSafeStaticPath staticRoot target) then NotFound
  else
    let! file := isFile target in
    if (file : bool) then serve_file requestPath target
    else if shouldNotFallbackToSPA requestPath then NotFound
    else
      let index := path_Join [staticRoot; lit "index.html"] in
      let! file := isFile index in
      if (file : bool) then serve_file (lit "index.html") index else NotFound.
End Static.

(** ** Probes (server.go and version.go) *)

Section Probes.
Context `{UnicodeTables} `{UuidLib} `{SshLib}.

Definition health (r : Request) : H unit := writeJSON StatusOK (VObject [(lit "status", JStr (lit "ok"))]).

(** A readiness check: its name, and whether it has a function. *)
Record ReadinessCheck := { CheckName : str; HasCheck : bool }.

Fixpoint run_readiness (ready : list ReadinessCheck) (checks : gmap str str) (ok : bool) : H (gmap str str * bool) :=
  match ready with
  | [] => Ret (checks, ok)
  | c :: rest =>
      let name := TrimSpace (CheckName c) in
      if (name =s []) || negb (HasCheck c) then run_readiness rest checks ok
      else
        let! err := call (COut (CReady (CheckName c))) in
        match err with
        | Some _ => run_readiness rest (<[name := lit "failed"]> checks) false
        | None => run_readiness rest (<[name := lit "ok"]> checks) ok
        end
  end.

Definition StatusServiceUnavailable : Z := 503.
Definition readiness_response (checks : gmap str str) (status : string) : response_value :=
  VObject [(lit "checks", json_map (map (fun p => (p.1, JStr p.2)) (map_to_list checks))); (lit "status", JStr (lit status))].

Definition readyz (ready : list ReadinessCheck) (r : Request) : H unit :=
  let! (checks, ok) := run_readiness ready ∅ true in
  if (ok : bool) then writeJSON StatusOK (readiness_response checks "ready")
  else writeJSON StatusServiceUnavailable (readiness_response checks "unready").

Definition versionEnv (key fallback : string) : H str :=
  let! value := call (COut (CGetenv (lit key))) in
  let value := TrimSpace value in
  Ret (if value =s [] then lit fallback else value).

Definition version (r : Request) : H unit :=
  let! version := versionEnv "APP_VERSION" "dev" in
  let! commit := versionEnv "APP_COMMIT_SHA" "" in
  let! built := versionEnv "APP_BUILD_TIME" "" in
  writeJSON StatusOK (VObject [(lit "version", JStr version); (lit "commit_sha", JStr commit); (lit "build_time", JStr built)]).

Definition notFound (static : str) (r : Request) : H unit :=
  if HasPrefix (URLPath r) (lit "/api/") || (URLPath r =s lit "/api")
  then writeError (ErrNotFound (lit "api endpoint not found"))
  else spa static r.
End Probes.

(** ** Routes *)

Abbreviation P A := (prog streamE A).

(** What the server is built from ([New]). *)
Record ServerConfig := {
  auth : AuthConfig.t; webhook : GitHubWebhookConfig; status_config : StatusConfig; sources : ConnectorSources;
  static_dir : str; readiness : list ReadinessCheck; proxy_configured : bool }.

Record Endpoint `{SshLib} := { RouteMethod : string; Pattern : string; Handle : Request -> P unit }.

Section Table.
Context `{UnicodeTables} `{FoldTable} `{UuidLib} `{Resolver} `{SshLib} `{PgJson} `{Yaml} `{MapOrder}.

Definition lift (h : Request -> H unit) (r : Request) : P unit := pmap (fun X => SApi) (h r).
Definition on (method pattern : string) (h : Request -> H unit) : Endpoint :=
  {| RouteMethod := method; Pattern := pattern; Handle := lift h |}.

(** The window of a limit on requests, in nanoseconds. *)
Definition minute : Z := 60000000000.
Definition loginRoute : string := "/api/login".

(** Without authentication. *)
Definition public_routes (cfg : ServerConfig) : list Endpoint :=
  let app := has_app (webhook cfg) in
  [on "GET" "/api/healthz" health;
   on "GET" "/api/readyz" (readyz (readiness cfg));
   on "GET" "/api/version" version;
   on "POST" loginRoute (login (auth cfg));
   on "POST" "/api/logout" (logout (auth cfg));
   on "GET" "/api/session" (session (auth cfg));
   on "POST" "/api/webhooks/github" (githubWebhook (webhook cfg));
   on "POST" "/api/github/webhook" (githubWebhook (webhook cfg));
   on "GET" "/api/github/install/callback" (githubInstallCallback app)].

(** Behind [requireAuth]; [turns] bounds the loops of streams and terminals. *)
Definition protected_routes (cfg : ServerConfig) (turns : nat) : list Endpoint :=
  let app := has_app (webhook cfg) in
  [on "GET" "/api/audit-events" listAuditEvents;
   on "GET" "/api/projects" listProjects;
   on "POST" "/api/projects" createProject;
   on "PATCH" "/api/projects/{projectID}" updateProject;
   on "DELETE" "/api/projects/{projectID}" deleteProject;
   on "GET" "/api/projects/{projectID}/variables" listProjectRuntimeVariables;
   on "PUT" "/api/projects/{projectID}/variables" replaceProjectRuntimeVariables;
   on "POST" "/api/projects/{projectID}/redeploy-configuration" redeployProjectConfiguration;
   on "PATCH" "/api/projects/{projectID}/registry" updateProjectRegistry;
   on "PATCH" "/api/projects/{projectID}/repository" updateProjectRepository;
   on "GET" "/api/environments" listEnvironments;
   on "POST" "/api/environments" createEnvironment;
   on "DELETE" "/api/environments/{environmentID}" deleteEnvironment;
   on "GET" "/api/servers" listServers;
   on "POST" "/api/servers" createServer;
   on "GET" "/api/tailscale/devices" listTailscaleDevices;
   on "POST" "/api/servers/{serverID}/check" checkServer;
   on "POST" "/api/servers/{serverID}/commands" runServerCommand;
   on "GET" "/api/servers/{serverID}/dev-users" listServerDevUsers;
   on "POST" "/api/servers/{serverID}/dev-users" addServerDevUser;
   on "POST" "/api/servers/{serverID}/dev-users/apply" applyServerDevUsers;
   on "PATCH" "/api/servers/{serverID}/dev-users/{username}" updateServerDevUser;
   on "DELETE" "/api/servers/{serverID}/dev-users/{username}" deleteServerDevUser;
   on "GET" "/api/servers/{serverID}/terminal" (serverTerminal turns);
   on "GET" "/api/applications" listApplications;
   on "POST" "/api/applications" createApplication;
   on "PATCH" "/api/applications/{applicationID}" updateApplication;
   on "DELETE" "/api/applications/{applicationID}" deleteApplication;
   on "GET" "/api/applications/{applicationID}/service-variables" listApplicationServiceRuntimeConfigs;
   on "PUT" "/api/applications/{applicationID}/service-variables/{composeService}" replaceApplicationServiceRuntimeConfig;
   on "GET" "/api/applications/{applicationID}/deployment-slots" listApplicationDeploymentSlots;
   on "POST" "/api/applications/{applicationID}/rollback" rollbackApplication;
   on "POST" "/api/applications/{applicationID}/redeploy-configuration" redeployApplicationConfiguration;
   on "GET" "/api/deployments" listDeployments;
   on "POST" "/api/deployments" createDeployment;
   on "POST" "/api/deployments/{deploymentID}/cancel" cancelDeployment;
   on "POST" "/api/deployments/{deploymentID}/retry" retryDeployment;
   on "GET" "/api/deployments/{deploymentID}/logs" listDeploymentLogs;
   {| RouteMethod := "GET"; Pattern := "/api/deployments/{deploymentID}/events"; Handle := streamDeploymentLogs turns |};
   on "GET" "/api/builds" listBuildRuns;
   on "POST" "/api/builds/{buildID}/complete" completeBuildRun;
   on "GET" "/api/credentials" listCredentials;
   on "POST" "/api/credentials/inventory" upsertCredentialInventory;
   on "POST" "/api/object-storage/inventory" upsertObjectStorageInventory;
   on "GET" "/api/credentials/{credentialID}" credentialDetail;
   on "GET" "/api/connectors" listConnectors;
   on "POST" "/api/connectors" upsertConnector;
   on "POST" "/api/connectors/{connectorID}/sync" (syncConnector (sources cfg));
   on "POST" "/api/connectors/{connectorID}/github/repositories/sync" (syncGitHubConnectorRepositories app);
   on "POST" "/api/connectors/{connectorID}/github/builds/dispatch" (dispatchGitHubBuild app);
   on "GET" "/api/github/status" (githubStatus (status_config cfg));
   on "GET" "/api/github/repositories" listGitHubRepositories;
   on "GET" "/api/github/repositories/detect" (detectGitHubRepositoryServices app);
   on "GET" "/api/github/repositories/compose" (getGitHubRepositoryCompose app);
   on "GET" "/api/github/repositories/branches" (listGitHubRepositoryBranches app);
   on "GET" "/api/github/repositories/commit" (getGitHubRepositoryCommit app);
   on "POST" "/api/projects/{projectID}/github/import" importGitHubRepositoryServices;
   on "GET" "/api/doppler/status" (dopplerStatus (status_config cfg));
   on "GET" "/api/doppler/projects" (dopplerProjects (status_config cfg));
   on "GET" "/api/doppler/configs" (dopplerConfigs (status_config cfg));
   on "GET" "/api/container-registries" listContainerRegistries;
   on "POST" "/api/container-registries" upsertContainerRegistry;
   on "GET" "/api/proxy-routes" listProxyRoutes;
   on "POST" "/api/proxy-routes" createProxyRoute;
   on "DELETE" "/api/proxy-routes/{routeID}" deleteProxyRoute;
   on "POST" "/api/proxy-routes/{routeID}/apply" (applyProxyRoute (proxy_configured cfg))].
End Table.

(** ** Clean paths

    A clean path is its elements: none is empty, a dot or holds a slash, and the parent
    elements come first, in a relative path only. *)

Definition elements (p : str) : list str := clean_elems (IsAbs p) (SplitByte slash p) [].

Definition plain (e : str) : Prop := e <> [] /\ e <> lit "." /\ slash ∉ e.
Definition normal (rooted : bool) (l : list str) : Prop :=
  Forall plain l /\ exists n k, l = repeat (lit "..") n ++ k /\ lit ".." ∉ k /\ (rooted = true -> n = 0%nat).

(** A directory and what is below it. *)
Definition below (root target : str) : Prop :=
  IsAbs target = IsAbs root /\ exists rest, elements target = elements root ++ rest /\ lit ".." ∉ rest.

Definition render (rooted : bool) (l : list str) : str :=
  if rooted then lit "/" ++ Join l (lit "/") else if Join l (lit "/") =s [] then lit "." else Join l (lit "/").

Lemma path_Clean_render p : path_Clean p = render (IsAbs p) (elements p).
Proof. done. Qed.

Lemma parents_split (l : list str) n k : l = repeat (lit "..") n ++ k -> lit ".." ∉ k -> forall l1 l2, l = l1 ++ l2 ->
  (exists x, head l2 = Some x /\ x <> lit "..") -> lit ".." ∉ l2.
Proof.
  intros -> Hk l1 l2 He (x & Hx & Hne) Hin. destruct l2 as [|y l2]; [done|]. injection Hx as ->.
  revert l1 He. induction n as [|n IH]; intros l1 He.
  - cbn in He. apply Hk. rewrite He. apply elem_of_app. by right.
  - destruct l1 as [|z l1]; cbn [repeat app] in He; [injection He as E _; by apply Hne|]. injection He as _ He. by apply (IH l1).
Qed.

Lemma parent_plain : plain (lit "..").
Proof. split; [done|]. split; [done|]. apply (bool_decide_unpack _). by vm_compute. Qed.

Lemma clean_normal rooted elems out : Forall (fun e => slash ∉ e) elems -> normal rooted (rev out) ->
  normal rooted (clean_elems rooted elems out).
Proof.
  revert out. induction elems as [|e t IH]; intros out Hs Hn; [done|]. apply Forall_cons in Hs as [He Ht].
  cbn [clean_elems]. destruct (e =s []) eqn:E1; [by apply IH|]. destruct (e =s lit ".") eqn:E2; [by apply IH|]. cbn [orb]. bool_simp.
  pose proof Hn as (Hp & n & k & Hr & Hk & Hroot). destruct (e =s lit "..") eqn:E3; bool_simp.
  - subst e. destruct out as [|o out].
    + destruct rooted; [by apply IH|]. apply IH; [done|]. split; [apply Forall_singleton, parent_plain|]. exists 1%nat, []. split; [done|].
      split; [apply not_elem_of_nil|done].
    + cbn [rev] in Hp, Hr. apply Forall_app in Hp as [Hp Ho]. destruct (o =s lit "..") eqn:E4; bool_simp; apply IH; try done.
      * subst o. cbn [rev]. split; [apply Forall_app; split; [apply Forall_app; split; [done|]|]; apply Forall_singleton, parent_plain|].
        exists (S n), []. split; [|split; [apply not_elem_of_nil|]].
        -- destruct k as [|x k _] using rev_ind; [rewrite app_nil_r in *|].
           ++ rewrite Hr. cbn [repeat]. by rewrite repeat_cons.
           ++ rewrite app_assoc in Hr. apply app_inj_tail in Hr as [_ <-]. exfalso. apply Hk. apply elem_of_app. right. by left.
        -- intros Hb. specialize (Hroot Hb). subst n. cbn in Hr. exfalso. apply Hk. rewrite <- Hr. apply elem_of_app. right. by left.
      * split; [done|]. destruct k as [|x k _] using rev_ind.
        -- rewrite app_nil_r in Hr. exfalso. apply E4. assert (o ∈ repeat (lit "..") n) as Hin
             by (rewrite <- Hr; apply elem_of_app; right; by left). apply list_elem_of_In, repeat_spec in Hin. done.
        -- rewrite app_assoc in Hr. apply app_inj_tail in Hr as [-> _]. exists n, k. split; [done|]. split; [|done].
           intros Hin. apply Hk. apply elem_of_app. by left.
  - apply IH; [done|]. cbn [rev]. split; [apply Forall_app; split; [done|]; by apply Forall_singleton|].
    exists n, (k ++ [e]). rewrite Hr, app_assoc. split; [done|]. split; [|done]. rewrite elem_of_app, list_elem_of_singleton.
    intros [?|?]; [by apply Hk|by apply E3].
Qed.

Lemma elements_normal p : normal (IsAbs p) (elements p).
Proof.
  apply clean_normal.
  - apply Forall_forall. intros e He. apply (SplitByte_no_sep _ p). exact He.
  - split; [by constructor|]. exists 0%nat, []. split; [done|]. split; [apply not_elem_of_nil|done].
Qed.

(** A clean list of elements stays as it is. *)
Lemma clean_plain rooted k out : Forall plain k -> lit ".." ∉ k -> clean_elems rooted k out = rev out ++ k.
Proof.
  revert out. induction k as [|e k IH]; intros out Hp Hn; [by rewrite app_nil_r|].
  apply Forall_cons in Hp as [(H1 & H2 & _) Hp]. apply not_elem_of_cons in Hn as [H3 Hn]. cbn [clean_elems].
  apply str_eqb_neq in H1, H2. rewrite H1, H2, (proj2 (str_eqb_neq e (lit ".."))) by congruence. cbn [orb].
  rewrite IH by done. cbn [rev]. by rewrite <- app_assoc.
Qed.

Lemma clean_parents n k out : Forall (eq (lit "..")) out -> clean_elems false (repeat (lit "..") n ++ k) out
  = clean_elems false k (repeat (lit "..") n ++ out).
Proof.
  revert out. induction n as [|n IH]; intros out Ho; [done|]. cbn [repeat app].
  change (clean_elems false (lit ".." :: repeat (lit "..") n ++ k) out) with
    (match out with
     | o :: out' => if o =s lit ".." then clean_elems false (repeat (lit "..") n ++ k) (lit ".." :: out)
                    else clean_elems false (repeat (lit "..") n ++ k) out'
     | [] => clean_elems false (repeat (lit "..") n ++ k) [lit ".."]
     end).
  destruct out as [|o out].
  - rewrite IH by by repeat constructor. f_equal. change (lit ".." :: repeat (lit "..") n ++ []) with ((lit ".." :: repeat (lit "..") n) ++ []).
    by rewrite app_nil_r, (repeat_cons n).
  - apply Forall_cons in Ho as [<- Ho]. rewrite str_eqb_refl, IH by by repeat constructor. f_equal.
    change (lit ".." :: repeat (lit "..") n ++ lit ".." :: out) with ((lit ".." :: repeat (lit "..") n) ++ lit ".." :: out).
    rewrite (repeat_cons n (lit "..")), <- app_assoc. done.
Qed.

Lemma clean_fixed rooted l : normal rooted l -> clean_elems rooted l [] = l.
Proof.
  intros (Hp & n & k & -> & Hk & Hr). apply Forall_app in Hp as [_ Hp]. destruct rooted.
  - rewrite (Hr eq_refl). cbn [repeat app]. by apply clean_plain.
  - rewrite clean_parents by constructor. rewrite app_nil_r, clean_plain by done. f_equal.
    clear. induction n as [|n IH]; [done|]. cbn [repeat rev]. rewrite IH. by rewrite <- repeat_cons.
Qed.

Lemma Join_nil l : Forall plain l -> Join l (lit "/") = [] -> l = [].
Proof. intros Hp. destruct l as [|e [|f l]]; [done|..]; apply Forall_cons in Hp as [(He & _) _]; cbn; intros E; [done|by destruct e]. Qed.

Lemma plain_not_rooted l : Forall plain l -> IsAbs (Join l (lit "/")) = false.
Proof.
  destruct l as [|e l]; [done|]. intros [(He & _ & Hs) _]%Forall_cons. destruct e as [|c e]; [done|].
  apply not_elem_of_cons in Hs as [Hc _]. assert (exists u, Join ((c :: e) :: l) (lit "/") = c :: u) as [u ->] by (destruct l; by eexists).
  unfold IsAbs. cbn [HasPrefix lit String.list_ascii_of_string]. by rewrite bool_decide_false by done.
Qed.

Lemma plain_slashes l : Forall plain l -> Forall (fun e => slash ∉ e) l.
Proof. intros Hl. eapply Forall_impl; [exact Hl|]. by intros e (_ & _ & He). Qed.

Lemma render_elements rooted l : normal rooted l -> IsAbs (render rooted l) = rooted /\ elements (render rooted l) = l.
Proof.
  intros Hn. pose proof Hn as [Hp _]. unfold elements, render. destruct rooted.
  - split; [done|]. change (IsAbs (lit "/" ++ Join l (lit "/"))) with true.
    change (SplitByte slash (lit "/" ++ Join l (lit "/"))) with ([] :: SplitByte slash (Join l (lit "/"))).
    cbn [clean_elems]. rewrite str_eqb_refl. cbn [orb]. destruct l as [|e l]; [done|].
    rewrite (SplitByte_Join slash); [by apply clean_fixed|done|]. intros w Hw. by eapply Forall_forall in Hw; [|apply plain_slashes].
  - destruct (Join l (lit "/") =s []) eqn:E; bool_simp.
    + apply Join_nil in E as ->; [|done]. done.
    + rewrite plain_not_rooted by done. split; [done|]. rewrite (SplitByte_Join slash); [by apply clean_fixed|by intros ->|].
      intros w Hw. by eapply Forall_forall in Hw; [|apply plain_slashes].
Qed.

Lemma clean_elements p : IsAbs (path_Clean p) = IsAbs p /\ elements (path_Clean p) = elements p.
Proof. rewrite path_Clean_render. apply render_elements, elements_normal. Qed.

Lemma path_Clean_idem p : path_Clean (path_Clean p) = path_Clean p.
Proof. rewrite (path_Clean_render (path_Clean p)). destruct (clean_elements p) as [-> ->]. done. Qed.

(** ** Relative paths *)

Lemma CutByte_plain e l : slash ∉ e -> CutByte slash (Join (e :: l) (lit "/")) = (e, match l with [] => None | _ => Some (Join l (lit "/")) end).
Proof.
  intros He. destruct l as [|f l].
  - cbn [Join]. destruct (CutByte slash e) as [a [b|]] eqn:E; [|by apply CutByte_None in E as [-> _]].
    apply CutByte_Some in E as [-> _]. exfalso. apply He. apply elem_of_app. right. by left.
  - change (Join (e :: f :: l) (lit "/")) with (e ++ slash :: Join (f :: l) (lit "/")). revert He. generalize (Join (f :: l) (lit "/")) as rest.
    intros rest He. induction e as [|c e IH]; cbn [app CutByte]; [by rewrite bool_decide_true|].
    apply not_elem_of_cons in He as [Hc He]. rewrite bool_decide_false by congruence. by rewrite (IH He).
Qed.

Lemma rel_loop_plain fuel l1 l2 : Forall plain l1 -> Forall plain l2 -> (length l1 < fuel)%nat ->
  exists c s1 s2 d, l1 = c ++ s1 /\ l2 = c ++ s2 /\ rel_loop fuel (Join l1 (lit "/")) (Join l2 (lit "/")) = (Join s1 (lit "/"), Join s2 (lit "/"), d).
Proof.
  revert l1 l2. induction fuel as [|fuel IH]; intros l1 l2 H1 H2 Hf; [lia|].
  destruct l1 as [|a l1]; [by exists [], [], l2, []|].
  destruct l2 as [|b l2].
  { exists [], (a :: l1), [], []. split; [done|]. split; [done|]. cbn [rel_loop]. by rewrite orb_true_r. }
  pose proof H1 as [Ha H1']%Forall_cons. pose proof H2 as [Hb H2']%Forall_cons. cbn [rel_loop].
  rewrite (proj2 (str_eqb_neq _ _)), (proj2 (str_eqb_neq (Join (b :: l2) _) _)) by (intros E; apply Join_nil in E; [done|done]).
  cbn [orb]. rewrite !CutByte_plain by (apply Ha || apply Hb). destruct (a =s b) eqn:E; cbn [negb]; bool_simp.
  - subst b. destruct (IH l1 l2 H1' H2' ltac:(cbn in Hf; lia)) as (c & s1 & s2 & d & -> & -> & Hr).
    exists (a :: c), s1, s2, d. split; [done|]. split; [done|]. rewrite <- Hr. by destruct (c ++ s1), (c ++ s2).
  - by exists [], (a :: l1), (b :: l2), a.
Qed.

Lemma length_Join_le l : Forall plain l -> (length l <= length (Join l (lit "/")))%nat.
Proof.
  induction l as [|e [|f l] IH]; intros Hp; apply Forall_cons in Hp as [(He & _) Hp] || idtac; [cbn; lia|destruct e; [done|cbn; lia]|].
  change (Join (e :: f :: l) (lit "/")) with (e ++ lit "/" ++ Join (f :: l) (lit "/")). specialize (IH Hp). rewrite !length_app. cbn in *. lia.
Qed.

(** A relative path that does not leave the base. *)
Lemma safe_head s : Forall plain s -> (negb (HasPrefix (Join s (lit "/")) (lit "../")) && negb (Join s (lit "/") =s lit "..")) = true ->
  s = [] \/ exists x, head s = Some x /\ x <> lit "..".
Proof.
  destruct s as [|e s]; [by left|]. intros [(_ & _ & He) _]%Forall_cons Hs. right. exists e. split; [done|]. intros ->.
  destruct s as [|f s]; by vm_compute in Hs.
Qed.

Lemma rest_safe rooted l c s : normal rooted l -> l = c ++ s -> s = [] \/ (exists x, head s = Some x /\ x <> lit "..") -> lit ".." ∉ s.
Proof.
  intros (_ & n & k & Hl & Hk & _) He [->|Hx]; [apply not_elem_of_nil|]. by eapply parents_split; [exact Hl|exact Hk|exact He|].
Qed.

(** The base as the loop gets it: a dot stands for no elements. *)
Lemma base_text base (base' := if path_Clean base =s lit "." then [] else path_Clean base) :
  base' = (if IsAbs base then lit "/" else []) ++ Join (elements base) (lit "/") /\ IsAbs base' = IsAbs base.
Proof.
  subst base'. rewrite path_Clean_render. unfold render. destruct (IsAbs base) eqn:Ea; [done|]. pose proof (elements_normal base) as [Pb _].
  destruct (Join (elements base) (lit "/") =s []) eqn:Ej; bool_simp; [by rewrite Ej|].
  rewrite (proj2 (str_eqb_neq _ _)); [by rewrite plain_not_rooted|]. intros Ed. destruct (elements base) as [|e [|f l]]; [done|..].
  - cbn in Ed. apply Forall_cons in Pb as [(_ & Hd & _) _]. by apply Hd.
  - apply Forall_cons in Pb as [(Hne & _) _]. change (e ++ slash :: Join (f :: l) (lit "/") = lit ".") in Ed.
    destruct e as [|x [|y e]]; [done|by injection Ed|by destruct e].
Qed.

(** A path that starts with a parent element is not safe. *)
Definition safe_relative (relative : str) : bool :=
  (relative =s lit ".") || (negb (HasPrefix relative (lit "../")) && negb (relative =s lit "..")).
Lemma parents_not_safe k t :
  safe_relative (lit ".." ++ concat (repeat (lit "/..") k) ++ (if t =s [] then [] else lit "/" ++ t)) = false.
Proof.
  assert (forall u, safe_relative (lit "../" ++ u) = false) as Hup.
  { intros u. unfold safe_relative. rewrite HasPrefix_app. cbn [negb andb]. rewrite orb_false_r. by apply str_eqb_neq. }
  destruct k as [|n].
  - cbn [repeat concat app]. destruct (t =s []); [by vm_compute|]. exact (Hup t).
  - exact (Hup (lit ".." ++ concat (repeat (lit "/..") n) ++ (if t =s [] then [] else lit "/" ++ t))).
Qed.

Lemma Rel_inside base target relative : Rel base target = Some relative ->
  safe_relative relative = true -> below base target.
Proof.
  unfold Rel, below. destruct (clean_elements base) as [Hb Eb]. destruct (clean_elements target) as [Ht Et].
  pose proof (elements_normal base) as Nb. pose proof (elements_normal target) as Nt.
  destruct (path_Clean target =s path_Clean base) eqn:Esame; bool_simp.
  { intros _ _. rewrite <- Ht, <- Hb, <- Et, <- Eb, Esame. split; [done|]. exists []. rewrite app_nil_r. split; [done|apply not_elem_of_nil]. }
  set (base' := if path_Clean base =s lit "." then [] else path_Clean base).
  destruct (base_text base) as [Ebase Habs]. fold base' in Ebase, Habs.
  clearbody base'. rewrite Habs, Ht. destruct (Bool.eqb (IsAbs base) (IsAbs target)) eqn:Eabs; [|done]. cbn [negb].
  apply Bool.eqb_prop in Eabs. pose proof Nb as [Pb _]. pose proof Nt as [Pt _].
  assert (exists c s1 s2 d t, elements base = c ++ s1 /\ elements target = c ++ s2
    /\ rel_loop (S (length base')) base' (path_Clean target) = (Join s1 (lit "/"), t, d)
    /\ (s1 = [] -> t = Join s2 (lit "/"))) as (c & s1 & s2 & d & t & E1 & E2 & Er & Et2).
  { rewrite path_Clean_render, <- Eabs. unfold render. pose proof (length_Join_le _ Pb) as Hlen. destruct (IsAbs base) eqn:Ea.
    - subst base'. destruct (rel_loop_plain (length (lit "/" ++ Join (elements base) (lit "/"))) _ _ Pb Pt) as (c & s1 & s2 & d & -> & -> & Hr).
      { rewrite length_app. change (length (lit "/")) with 1%nat. lia. }
      exists c, s1, s2, d, (Join s2 (lit "/")). split; [done|]. split; [done|]. split; [|done]. rewrite <- Hr. done.
    - cbn [app] in Ebase. subst base'. destruct (Join (elements target) (lit "/") =s []) eqn:Ej; bool_simp.
      + apply Join_nil in Ej; [|done]. rewrite Ej. destruct (elements base) as [|e l] eqn:El.
        * exfalso. apply Esame. by rewrite !path_Clean_render, <- Eabs, Ea, Ej, El.
        * exists [], (e :: l), [], e, (lit "."). split; [done|]. split; [done|]. split; [|done].
          pose proof Pb as [(Hne & Hd & Hs) _]%Forall_cons. cbn [rel_loop].
          rewrite (proj2 (str_eqb_neq _ _)) by (intros E; by apply Join_nil in E). cbn [orb].
          rewrite CutByte_plain by done. change (CutByte slash (lit ".")) with (lit ".", @None str). change (lit "." =s []) with false. cbn iota.
          by rewrite (proj2 (str_eqb_neq _ _)) by done.
      + destruct (rel_loop_plain (S (length (Join (elements base) (lit "/")))) _ _ Pb Pt) as (c & s1 & s2 & d & -> & -> & Hr); [lia|].
        exists c, s1, s2, d, (Join s2 (lit "/")). by repeat split. }
  rewrite Er. destruct (d =s lit ".."); [done|]. destruct (Join s1 (lit "/") =s []) eqn:E3; bool_simp.
  - apply Join_nil in E3 as ->; [|by rewrite E1, Forall_app in Pb; apply Pb]. rewrite (Et2 eq_refl). intros [= <-] Hsafe.
    split; [done|]. exists s2. rewrite E1, app_nil_r, E2. split; [done|]. rewrite E2, Forall_app in Pt. destruct Pt as [_ Ps].
    apply (rest_safe _ _ _ _ Nt E2). apply orb_true_iff in Hsafe as [Hdot|Hsafe]; [|by apply safe_head].
    bool_simp. destruct s2 as [|x s2]; [by left|]. right. exists x. split; [done|]. intros ->. destruct s2; by vm_compute in Hdot.
  - intros [= <-] Hs. exfalso. exact (eq_true_false_abs _ Hs (parents_not_safe _ _)).
Qed.

Lemma safe_below root target : isSafeStaticPath root target = true -> below root target.
Proof. unfold isSafeStaticPath. destruct (Rel root target) as [relative|] eqn:Er; [|done]. by apply Rel_inside. Qed.

Lemma index_below root : root <> [] -> below root (path_Join [root; lit "index.html"]).
Proof.
  intros Hr. unfold path_Join. rewrite filter_cons_True, filter_cons_True, filter_nil by done.
  change (Join [root; lit "index.html"] (lit "/")) with (root ++ slash :: lit "index.html").
  destruct (clean_elements (root ++ slash :: lit "index.html")) as [Ha He]. assert (IsAbs (root ++ slash :: lit "index.html") = IsAbs root) as Hroot by by destruct root.
  split; [by rewrite Ha|]. exists [lit "index.html"]. split; [|apply not_elem_of_cons; split; [done|apply not_elem_of_nil]].
  rewrite He. unfold elements. rewrite Hroot, SplitByte_concat. change (SplitByte slash (lit "index.html")) with [lit "index.html"].
  generalize (IsAbs root) as rooted, (SplitByte slash root) as l. intros rooted l.
  assert (forall out, clean_elems rooted (l ++ [lit "index.html"]) out = clean_elems rooted l out ++ [lit "index.html"]) as K; [|apply K].
  induction l as [|e l IH]; intros out; [done|]. cbn [app clean_elems].
  destruct ((e =s []) || (e =s lit ".")); [apply IH|]. destruct (e =s lit ".."); [|apply IH].
  destruct out as [|o out]; [destruct rooted; apply IH|]. destruct (o =s lit ".."); apply IH.
Qed.

Section Contained.
Context `{SshLib}.

(** The files that a trace looks at or sends. *)
Definition touched_file (ev : event apiE) : option str :=
  match ev with Ev (COut (CIsFile path)) _ | Ev (COut (CServeFile path)) _ => Some path | _ => None end.

(** C38: whatever path is requested and whatever the directory of the user interface is,
    every file that is looked up or sent lies in that directory: its elements are those of
    the directory, followed by names without a parent element. *)
Theorem static_files_contained static r tr (Hrun : runs (spa static r) tr tt) :
  Forall (below (path_Clean static)) (omap touched_file tr).
Proof.
  unfold spa in Hrun. destruct (isSafeStaticPath _ _) eqn:Es; cbn [negb] in Hrun; [|by destruct Hrun as ([] & tr' & -> & -> & _); constructor].
  apply safe_below in Es. set (target := path_Join _) in *. set (requestPath := if _ || _ then _ else _) in *. clearbody target requestPath.
  assert (forall requestPath target tr, below (path_Clean static) target -> runs (serve_file requestPath target) tr tt ->
    Forall (below (path_Clean static)) (omap touched_file tr)) as Hserve.
  { clear. intros q target tr Hb (tr1 & u & tr2 & -> & Hh & ([] & tr3 & -> & -> & _))%runs_bind. rewrite omap_app. apply Forall_app. split; [|by constructor].
    unfold setStaticCacheHeaders in Hh. destruct (_ =s _); [|destruct (HasPrefix _ _)];
      [by destruct Hh as (x & tr' & -> & -> & _)..|by destruct Hh as [-> _]]. }
  destruct Hrun as ([] & tr1 & -> & Hrun); cbn [omap list_omap touched_file]; (apply Forall_cons; split; [exact Es|]).
  - by eapply Hserve.
  - cbn [pbind] in Hrun. destruct (shouldNotFallbackToSPA _); [by destruct Hrun as ([] & tr' & -> & -> & _)|].
    pose proof (index_below (path_Clean static) (path_Clean_nonempty static)) as Hi.
    destruct Hrun as ([] & tr2 & -> & Hrun); cbn [omap list_omap touched_file]; (apply Forall_cons; split; [exact Hi|]).
    + by eapply Hserve.
    + by destruct Hrun as ([] & tr' & -> & -> & _).
Qed.
End Contained.

(** ** Serving a request *)

(** What chi finds: the index of the pattern that matches the method and the path, with
    the parameters of the path; nothing; or a path that matches with another method. *)
Inductive routing := Route (index : nat) (params : str -> str) | NoRoute | WrongMethod.

Class Router := {
  find_route : list (string * string) -> Request -> routing;
  RealIP : Request -> Request }.

Record limits := { api_clients : gmap str rateWindow; login_clients : gmap str rateWindow }.

Section Serve.
Context `{UnicodeTables} `{FoldTable} `{UuidLib} `{Resolver} `{SshLib} `{PgJson} `{Yaml} `{MapOrder} `{Router}.

Definition with_params (params : str -> str) (r : Request) : Request := {|
  Method := Method r; RemoteAddr := RemoteAddr r; Host' := Host' r; URLPath := URLPath r; TLS := TLS r;
  Header := Header r; Cookie := Cookie r; Query := Query r; URLParam := params; Body := Body r |}.

(** A middleware of HttpGuard around an endpoint that may stream: it answers itself, or
    leaves the request to the endpoint. *)
Definition authorized (token : str) (r : Request) : bool :=
  validBearerToken (Header r (lit "Authorization")) token || validSessionRequest r token.
Definition protect (cfg : ServerConfig) (next : Request -> P unit) (r : Request) : P unit :=
  if AuthConfig.Disabled (auth cfg) || authorized (AuthConfig.Token (auth cfg)) r then next r
  else lift (requireAuth (AuthConfig.Token (auth cfg)) (fun _ => Ret tt)) r.
Definition limited (maxRequests : Z) (next : Request -> P unit) (r : Request) (now : Z) (clients : gmap str rateWindow)
    : P unit * gmap str rateWindow :=
  let '(allowed, clients') := rate_step maxRequests minute (clientKey r) now clients in
  (if (allowed : bool) then next r else lift (fun r => (rateLimit maxRequests minute (fun _ => Ret tt) r now clients).1) r, clients').
Definition secured (next : Request -> P unit) (r : Request) : P unit :=
  let! _ := lift (securityHeaders (fun _ => Ret tt)) r in next r.

(** The routes of the server, the files of the user interface last. *)
Definition endpoints (cfg : ServerConfig) (turns : nat) : list Endpoint :=
  public_routes cfg ++ protected_routes cfg turns ++ [on "GET" "/*" (spa (static_dir cfg))].
Definition is_public (cfg : ServerConfig) (index : nat) : bool := (index <? length (public_routes cfg))%nat.
Definition is_protected (cfg : ServerConfig) (turns index : nat) : bool :=
  negb (is_public cfg index) && (index <? length (public_routes cfg) + length (protected_routes cfg turns))%nat.

Definition under_api (r : Request) : bool := (URLPath r =s lit "/api") || HasPrefix (URLPath r) (lit "/api/").

(** The handler of a request, and whether it is the login. *)
Definition handler_of (cfg : ServerConfig) (turns : nat) (found : routing) : (Request -> P unit) * bool :=
  match found with
  | Route index params =>
      match endpoints cfg turns !! index with
      | Some e =>
          let handle r := Handle e (with_params params r) in
          (if is_protected cfg turns index then protect cfg handle else handle, String.eqb (Pattern e) loginRoute)
      | None => (lift (notFound (static_dir cfg)), false)
      end
  | NoRoute => (lift (notFound (static_dir cfg)), false)
  | WrongMethod => (lift (fun _ => call (CWriteHeader 405)), false)
  end.

(** The limits: 600 requests a minute for the API, 20 for the login. *)
Definition serve (cfg : ServerConfig) (turns : nat) (request : Request) (now : Z) (st : limits) : P unit * limits :=
  let r := RealIP request in
  let '(handle, is_login) := handler_of cfg turns (find_route (map (fun e => (RouteMethod e, Pattern e)) (endpoints cfg turns)) r) in
  if negb (under_api r) then (secured handle r, st)
  else
    let '(allowed, _) := rate_step 600 minute (clientKey r) now (api_clients st) in
    let '(inner, login) := if is_login && (allowed : bool) then limited 20 handle r now (login_clients st) else (handle r, login_clients st) in
    let '(outer, api) := limited 600 (fun _ => inner) r now (api_clients st) in
    (secured (fun _ => outer) r, {| api_clients := api; login_clients := login |}).

(** The middlewares are those of HttpGuard. *)
Lemma protect_requireAuth cfg h r : AuthConfig.Disabled (auth cfg) = false ->
  protect cfg (lift h) r = lift (requireAuth (AuthConfig.Token (auth cfg)) h) r.
Proof.
  intros Hd. unfold protect, lift, requireAuth, authorized. rewrite Hd. cbn [orb].
  by destruct (validBearerToken _ _), (validSessionRequest _ _).
Qed.
Lemma limited_rateLimit maxRequests h r now clients :
  limited maxRequests (lift h) r now clients =
    (lift (fun r => (rateLimit maxRequests minute h r now clients).1) r, (rateLimit maxRequests minute h r now clients).2).
Proof. unfold limited, lift, rateLimit. by destruct (rate_step _ _ _ _ _) as [[] c']. Qed.

(** ** Who reaches what *)

(** Headers and answers. *)
Definition reply_status (ev : event streamE) : option Z :=
  match ev with Ev (SApi (CWriteJSON status _)) _ | Ev (SApi (CWriteHeader status)) _ => Some status | _ => None end.
Definition only_replies (ev : event streamE) : bool :=
  match ev with Ev (SApi (CSetHeader _ _)) _ => true | ev => is_some (reply_status ev) end.

Definition refuses (p : P unit) : Prop :=
  forall tr, runs p tr tt -> forallb only_replies tr = true /\ exists status, omap reply_status tr = [status] /\ (status = 401 \/ status = 429)%Z.

Lemma secured_runs next r tr : runs (secured next r) tr tt -> exists tr1 tr2, tr = tr1 ++ tr2 /\ runs (next r) tr2 tt
  /\ forallb only_replies tr1 = true /\ omap reply_status tr1 = [].
Proof.
  intros (tr1 & [] & tr2 & -> & Hs & Hn)%runs_bind. exists tr1, tr2. split; [done|]. split; [exact Hn|].
  destruct Hs as (x1 & t1 & -> & x2 & t2 & -> & x3 & t3 & -> & x4 & t4 & -> & -> & _). by destruct x1, x2, x3, x4.
Qed.

Lemma secured_refuses next r : refuses (next r) -> refuses (secured next r).
Proof.
  intros Hn tr (tr1 & tr2 & -> & Hr & Hf & Ho)%secured_runs. destruct (Hn _ Hr) as [H1' H2']. rewrite forallb_app, Hf, H1'.
  split; [done|]. by rewrite omap_app, Ho.
Qed.

Lemma protect_refuses cfg next r : AuthConfig.Disabled (auth cfg) = false -> authorized (AuthConfig.Token (auth cfg)) r = false ->
  refuses (protect cfg next r).
Proof.
  intros Hd Ha tr. unfold protect. rewrite Hd, Ha. cbn [orb]. unfold lift, requireAuth. unfold authorized in Ha.
  apply orb_false_iff in Ha as [-> ->]. intros (x1 & t1 & -> & x2 & t2 & -> & -> & _). destruct x1, x2. split; [done|]. exists 401%Z. split; [done|by left].
Qed.

Lemma limited_refuses n next r now clients : refuses (next r) -> refuses (limited n next r now clients).1.
Proof.
  intros Hn. unfold limited, rateLimit, lift. destruct (rate_step _ _ _ _ _) as [[] c']; [exact Hn|].
  intros tr (x & t & -> & -> & _). destruct x. split; [done|]. exists 429%Z. split; [done|by right].
Qed.

End Serve.

(** ** A request without the token, and a request that climbs *)

Module RoutesDemo.
#[local] Existing Instance ascii_tables.
#[local] Instance demo_folds : FoldTable := {| fold_least := fold_rune |}.
#[local] Instance demo_uuids : UuidLib := {| uuid_Parse := inl; uuid_String s := s |}.
#[local] Instance demo_dns : Resolver := {| LookupIP := fun _ => None |}.
#[local] Instance demo_ssh : SshLib := {| Signer := unit |}.
#[local] Instance demo_order : MapOrder := {| map_range A m := map_to_list m; map_range_perm A m := Permutation_refl _ |}.
#[local] Instance demo_yaml : Yaml := {| yaml_compose _ := inr ErrEOF |}.
#[local] Instance demo_json : PgJson := {|
  text_UnmarshalJSON v := match v with JStr s => inl (someText s) | _ => inr ErrEOF end;
  uuid_UnmarshalJSON v := match v with JStr s => inl (PgUUID s true) | _ => inr ErrEOF end;
  int4_UnmarshalJSON v := match v with JNum z => inl (Some z) | _ => inr ErrEOF end;
  timestamptz_UnmarshalJSON _ := inl None |}.

(** A router that knows the patterns without parameters. *)
Fixpoint exact_route (table : list (string * string)) (r : Request) (index : nat) : routing :=
  match table with
  | [] => NoRoute
  | (method, pattern) :: rest =>
      if (Method r =s lit method) && (URLPath r =s lit pattern) then Route index (fun _ => []) else exact_route rest r (S index)
  end.
#[local] Instance demo_router : Router := {| find_route table r := exact_route table r 0; RealIP r := r |}.

Definition demo_config : ServerConfig := {|
  auth := AuthConfig.mk (lit "s3cret") false; webhook := HttpGithub.Build_GitHubWebhookConfig (lit "hook") true true;
  status_config := Build_StatusConfig true (lit "hook") [] [] [] false;
  sources _ := None; static_dir := lit "/srv/web/"; readiness := []; proxy_configured := true |}.

Definition demo_request (method path : str) : Request := {|
  Method := method; RemoteAddr := lit "203.0.113.9:51000"; Host' := lit "deploy.example.com"; URLPath := path; TLS := true;
  Header _ := []; Cookie _ := None; Query _ := []; URLParam _ := []; Body := lit "{}" |}.

Definition accepting (X : Type) (e : streamE X) : option X :=
  match e in streamE X return option X with
  | SApi e => match e in apiE X return option X with CWriteJSON _ _ | CSetHeader _ _ | CWriteHeader _ => Some tt | _ => None end
  | _ => None
  end.


Definition one_file (X : Type) (e : apiE X) : option X :=
  match e in apiE X return option X with
  | COut e =>
      match e in outsideE X return option X with
      | CIsFile path => Some (path =s lit "/srv/web/index.html")
      | CServeFile _ | CNotFoundPage => Some tt
      | _ => None
      end
  | CSetHeader _ _ => Some tt
  | _ => None
  end.
Definition files_touched (path : string) : list str :=
  match drive one_file (spa (lit "/srv/web/") (demo_request (lit "GET") (lit path))) with
  | Some (tr, _) => omap touched_file tr
  | None => []
  end.

Example climbing_is_refused :
  files_touched "/../../etc/passwd" = []
  /\ files_touched "//../../etc/passwd" = [lit "/srv/web/etc/passwd"; lit "/srv/web/index.html"; lit "/srv/web/index.html"]
  /\ files_touched "/assets/app.js" = [lit "/srv/web/assets/app.js"].
Proof. vm_compute. by repeat split. Qed.

Lemma static_files_contained_witness :
  Forall (below (lit "/srv/web")) (files_touched "/deployments") /\ files_touched "/deployments" = [lit "/srv/web/deployments"; lit "/srv/web/index.html"; lit "/srv/web/index.html"].
Proof.
  split; [|vm_compute; reflexivity]. unfold files_touched.
  destruct (drive one_file _) as [[tr []]|] eqn:Ed; [|constructor]. exact (static_files_contained _ _ _ (drive_runs _ _ _ _ Ed)).
Defined.
End RoutesDemo.
